(* ===== verification/_CoqProject ===== *)
-Q . S2P
Prelude.v
MathExtras.v
Dlist.v
Slist.v
Thread.v
PriorityQ.v
Timeout.v
TimeoutOrder.v
TimeoutList.v
TimeoutBucket.v
MinHeap.v
TimeoutMinheap.v
TimeoutProps.v
Sched.v
SchedOk.v
SchedSpec.v
ThreadApi.v
ThreadSpec.v
SchedProps.v
Blocking.v
Sem.v
Stack.v
Queue.v
Mutex.v
Condvar.v
Ring.v
HeapMem.v
Heap.v
HeapInv.v
HeapStep.v
HeapList.v
HeapCheck.v
HeapOps.v
HeapAlloc.v
HeapRealloc.v
HeapInit.v
HeapProps.v
RingBuf.v
Hex.v
Base64.v
Cobs.v
MsgQ.v
MemSlab.v
Event.v
Timer.v
TimerProps.v
KHeap.v
KHeapProps.v
Pipe.v
PipeProps.v
