(* ===== verification/Prelude.v ===== *)
(** * A verification of the Zephyr kernel and of its utility libraries

    Zephyr is a real-time operating system for small devices.  Its kernel schedules
    threads by priority, keeps time with a queue of timeouts, and offers objects on
    which threads wait for each other: semaphores, mutexes, condition variables, queues,
    message queues, pipes, stacks, memory slabs, events, timers and heaps.  Below and
    beside the kernel are libraries of data structures, a memory allocator and codecs.
    This development translates these parts into Rocq functions, one definition per C
    function, and proves what they promise.

    ** How the parts fit together

    The data structures come first: linked lists, priority queues, heaps.  The
    timeout subsystem keeps the pending timeouts in one of several queues; the
    scheduler keeps the ready threads in one of several run queues, and uses a
    timeout per waiting or sleeping thread.  The thread operations and the kernel
    objects call the scheduler: every object blocks a caller with [z_pend_curr] and
    wakes waiters with [z_sched_wake] or [z_unpend_first_thread_locked] followed by
    [ready_thread].

    ** The files

    - [Prelude]: machine integers, bit masks, total stores, errno values, tactics and
      hint databases shared by all files.
    - [MathExtras]: include/zephyr/sys/math_extras_impl.h, the portable variants of the
      overflow-checked arithmetic and of the bit counts.
    - [Dlist], [Slist]: include/zephyr/sys/dlist.h, and slist.h, sflist.h and list_gen.h, on a
      memory of linked nodes.
    - [Thread]: the fields of [struct k_thread] and [struct _thread_base], the Kconfig
      options ([Config]), thread states and priorities (kernel/include/kthread.h, ksched.h).
    - [PriorityQ]: kernel/include/priority_q.h; the class [RunQueue] states what the
      scheduler needs of a run queue, the simple list and the multi-queue are instances.
    - [Timeout]: kernel/timeout.c; the class [TimeoutBackend] states what it needs of a
      queue of timeouts.  [TimeoutList], [TimeoutBucket] and [TimeoutMinheap] translate
      the queues of kernel/timeout_list.h, timeout_bucket.h and timeout_minheap.h and are
      instances; [TimeoutOrder] holds what the first two share; [TimeoutProps] the theorems.
    - [MinHeap]: lib/min_heap and include/zephyr/sys/min_heap_ref.h.
    - [Sched]: kernel/sched.c, scheduler.c, timeslicing.c and the inline functions of
      kernel/include (run_q.h, metairq.h, ksched.h, kswap.h, wait_q.h).  The state
      [kernel] holds the threads, the run queue, the wait queues, the cached next thread,
      the running thread, the timeouts and the interrupt state.
    - [ThreadApi]: kernel/thread.c, sleep.c and deadline.c.
    - [SchedOk], [SchedSpec], [ThreadSpec], [SchedProps]: the scheduler's invariant, what
      its operations do, and the theorems about every sequence of operations.
    - [Blocking]: what the kernel objects rely on, proved from [SchedSpec]: the effect of
      blocking ([waits]), of waking one waiter ([passed], [handed]) and all ([wake_all]),
      and the steps the rest of the system may take in between ([env_step]).
    - [Sem], [Stack], [Queue], [Mutex], [Condvar], [MsgQ], [MemSlab], [Event]: kernel/sem.c,
      stack.c, queue.c, mutex.c, condvar.c, msg_q.c, mem_slab.c and events.c.
    - [HeapMem], [Heap]: lib/heap/heap.h, heap.c, heap_validate.c and heap_stats.c, the chunk
      allocator on the bytes of its buffer.  [HeapInv] says how chunks lie in the buffer;
      [HeapStep], [HeapList], [HeapCheck], [HeapOps], [HeapAlloc], [HeapRealloc] and [HeapInit]
      follow the operations; [HeapProps] holds the theorems.
    - [Timer], [TimerProps]: kernel/timer.c on the clock and the scheduler.
    - [KHeap], [KHeapProps]: kernel/kheap.c and mempool.c on the allocator and the scheduler.
    - [Pipe], [PipeProps]: kernel/pipe.c on the ring buffer and the scheduler.
    - [Ring]: circular sequences of slots, and byte-addressed memory with [memcpy].
    - [RingBuf]: lib/utils/ring_buffer.c and include/zephyr/sys/ring_buffer.h.
    - [Hex], [Base64], [Cobs]: lib/utils/hex.c and dec.c, base64.c, and cobs.c.

    ** How the code is translated

    A function that changes state takes the state and returns it; a function with an error
    code returns it.  Integers are [Z]; where a width matters the conversion ([u8], [u16],
    [u32], [u64], [i64]) is written out.  A [k_spinlock] on one CPU masks interrupts, so what
    it protects is one step.  A call that blocks ends when the caller is switched out: the
    rest of it, what runs after the caller is switched in again, is a definition of its own
    with the suffix [_resume].  The result [outcome] tells whether the call returned, blocked
    or panicked.  Between the two halves the theorems let the rest of the system take any
    steps: other calls on the same object, and the moves of [sched_step] elsewhere.  A call
    that waits in a loop is one definition per round.

    The timeout subsystem is written for any system that has a clock ([HasClock]): alone it
    is the clock, in the kernel a handler changes the whole kernel.  A heap operation that
    finds its metadata corrupt panics, which is the result [None].

    ** What the theorems show

    - The scheduler: an invariant over all sequences of thread and interrupt operations
      ([scheduler_invariant]), the running thread after a scheduling point
      ([reschedule_runs_best]), waking ([wake_takes_best_waiter]) and blocking
      ([pend_blocks_caller]), for any run queue and any timeout queue that meet their
      interfaces.
    - The objects: refinement of an abstract object over any interleaving of calls (a counter,
      a bounded list, a stream of bytes, a set of blocks), mutual exclusion and priority
      inheritance of mutexes, atomicity of waiting on a condition variable, no missed wake-up
      of events.
    - Time: announcing ticks terminates and fires exactly the timeouts that fall due, in order;
      the queues of timeouts are interchangeable.
    - Timers: however late ticks are announced, a timer expires at its start plus multiples of
      its period, and a thread that waits with a timeout is awake once it has passed.
    - Memory: whatever sequence of requests its users make, the allocator gives blocks that
      lie apart and keep their contents, and freeing all of them gives the heap back; the
      validator accepts every heap so reached, and the hardening finds damaged metadata;
      [k_malloc] and the heaps that threads wait on inherit this.
    - Data structures: the linked lists, queues, heaps and ring buffers refine lists,
      priority queues and byte streams, the ring buffer with indices that wrap around.
    - Codecs: what is encoded decodes to the same bytes, and no input makes a decoder write
      outside its destination.
    - Lemmas named in the findings show behaviours that differ from the documentation.

    ** Fuel

    Loops over lists are structural.  The others take fuel that their callers give and that is
    proved to be enough, because the theorems describe the result completely: a loop cut
    short would not have it.  [sys_clock_announce_locked] takes its fuel as an argument and
    says when it runs out, and the theorem gives an amount that is enough; the loops of the
    ring buffer get one round more than bytes to copy; operations of a binary heap its size; the
    walks of the allocator over chunks the number of chunk units of the buffer; a write to a
    pipe one round more than readers that wait; the walk along the owners of mutexes the bound [MUTEX_CHAIN_WALK_MAX_HOPS] of the code.

    ** Not modelled

    More than one CPU (CONFIG_SMP), inter-processor interrupts and memory ordering; user mode
    and system-call verification; virtual memory; architecture code, where the context
    switch is the assignment of the running thread; device drivers; start-up; tracing, object
    cores and statistics hooks, which do not influence what is modelled; CONFIG_POLL inside the
    objects; the protocol stacks and services under subsys/, each a development of its own.
    Of the kernel proper, mailboxes, work queues and polling, and of the libraries the
    heaps of several regions and the skip-list and timing-wheel timeout queues, are not
    translated yet. *)

From Stdlib Require Export ZArith Lia Bool Sorted.
From stdpp Require Export prelude.

#[global] Open Scope Z_scope.

(** ** Notations for C bit operations *)

Declare Scope c_scope.
Delimit Scope c_scope with c.
Notation "x .& y" := (Z.land x y) (at level 40, left associativity) : c_scope.
Notation "x .| y" := (Z.lor x y) (at level 50, left associativity) : c_scope.
Notation "x .^ y" := (Z.lxor x y) (at level 45, left associativity) : c_scope.
Notation "x .<< n" := (Z.shiftl x n) (at level 30, no associativity) : c_scope.
Notation "x .>> n" := (Z.shiftr x n) (at level 30, no associativity) : c_scope.
#[global] Open Scope c_scope.

#[global] Arguments Z.testbit : simpl never.
#[global] Arguments Z.land : simpl never.
#[global] Arguments Z.lor : simpl never.
#[global] Arguments Z.lxor : simpl never.
#[global] Arguments Z.lnot : simpl never.
#[global] Arguments Z.shiftl : simpl never.
#[global] Arguments Z.shiftr : simpl never.
#[global] Arguments Z.pow : simpl never.

(** ** Machine integers: a [w]-bit integer is a [Z]; the conversion writes the
    wrap-around out. *)

Definition u8 (x : Z) : Z := x mod 2 ^ 8.
Definition u16 (x : Z) : Z := x mod 2 ^ 16.
Definition u32 (x : Z) : Z := x mod 2 ^ 32.
Definition u64 (x : Z) : Z := x mod 2 ^ 64.
Definition sint (w x : Z) : Z := (x + 2 ^ (w - 1)) mod 2 ^ w - 2 ^ (w - 1).
Definition i8 (x : Z) : Z := sint 8 x.
Definition i32 (x : Z) : Z := sint 32 x.
Definition i64 (x : Z) : Z := sint 64 x.
Definition bit (n : Z) : Z := Z.shiftl 1 n.

(** ** errno values, as the code returns them (negated). *)

Definition EPERM : Z := 1.
Definition ENOENT : Z := 2.
Definition EIO : Z := 5.
Definition EAGAIN : Z := 11.
Definition ENOMEM : Z := 12.
Definition EACCES : Z := 13.
Definition EBUSY : Z := 16.
Definition EINVAL : Z := 22.
Definition ENOSPC : Z := 28.
Definition ENOMSG : Z := 35.
Definition ETIMEDOUT : Z := 116.
Definition ECANCELED : Z := 140.

(** ** Total stores: memory addressed by a pointer or an object id. *)

Section store.
Context {A B : Type} `{!EqDecision A}.

Definition upd (a : A) (b : B) (f : A -> B) : A -> B :=
  fun x => if decide (x = a) then b else f x.

Lemma upd_eq a b (f : A -> B) : upd a b f a = b.
Proof. unfold upd. by rewrite decide_True. Qed.

Lemma upd_ne a b (f : A -> B) x : x <> a -> upd a b f x = f x.
Proof. intros. unfold upd. by rewrite decide_False. Qed.

Lemma upd_same a (f : A -> B) x : upd a (f a) f x = f x.
Proof. unfold upd. case_decide; congruence. Qed.
End store.

Create Rewrite HintDb store.
#[export] Hint Rewrite @upd_eq : store.
#[export] Hint Rewrite @upd_ne using (congruence || done) : store.

(** Case analysis on every store update of the goal or of the context. *)
Ltac upd_cases :=
  unfold upd in *; repeat (case_decide; simplify_eq/=).

(** ** Lists *)

(** Insert [n] in front of the first element that satisfies [p], at the end
    when there is none. *)
Fixpoint insert_when {A} (p : A -> bool) (n : A) (xs : list A) : list A :=
  match xs with
  | [] => [n]
  | x :: r => if p x then n :: x :: r else x :: insert_when p n r
  end.

Lemma insert_when_perm {A} (p : A -> bool) n xs : insert_when p n xs ≡ₚ n :: xs.
Proof.
  induction xs as [|x r IH]; simpl; [done|]. destruct (p x); [done|].
  rewrite IH. apply perm_swap.
Qed.

Lemma insert_when_split {A} (p : A -> bool) n xs :
  exists xs1 xs2, xs = xs1 ++ xs2 /\ insert_when p n xs = xs1 ++ n :: xs2 /\
    Forall (fun x => p x = false) xs1 /\ (forall x, head xs2 = Some x -> p x = true).
Proof.
  induction xs as [|x r (xs1 & xs2 & -> & E & Hf & Hh)]; simpl.
  - by exists [], [].
  - destruct (p x) eqn:Ep.
    + exists [], (x :: xs1 ++ xs2). repeat split; [constructor|]. simpl. congruence.
    + exists (x :: xs1), xs2. rewrite E. repeat split; [by constructor|done].
Qed.

(** Elements of disjoint parts differ; [apart] finds the parts in the context. *)
Lemma sep_ne {A} (S T : A -> Prop) a b :
  S a -> T b -> (forall x, S x -> T x -> False) -> a <> b.
Proof. naive_solver. Qed.

Ltac apart :=
  match goal with
  | |- ?a <> ?b =>
      match goal with
      | Ha : a ∈ ?S, Hb : b ∈ ?T |- _ =>
          apply (sep_ne (fun x => x ∈ S) (fun x => x ∈ T) a b Ha Hb); intros ? ? ?; by eauto
      end
  end.

Section filters.
Context {A : Type} (P : A -> Prop) `{!forall x, Decision (P x)}.

Lemma filter_id (l : list A) : (forall x, x ∈ l -> P x) -> filter P l = l.
Proof.
  induction l as [|x l IH]; intros Hl; [done|].
  rewrite filter_cons_True by (apply Hl; set_solver). by rewrite IH by set_solver.
Qed.

Lemma filter_concat (ls : list (list A)) : filter P (concat ls) = concat (filter P <$> ls).
Proof. induction ls as [|l ls IH]; simpl; [done|]. by rewrite filter_app, IH. Qed.

Lemma StronglySorted_filter (R : A -> A -> Prop) (l : list A) :
  StronglySorted R l -> StronglySorted R (filter P l).
Proof.
  induction 1 as [|x l _ IH Hx]; [constructor|].
  destruct (decide (P x)); [rewrite filter_cons_True by done|by rewrite filter_cons_False].
  constructor; [done|]. rewrite Forall_forall in *. intros y [_ Hy]%list_elem_of_filter. auto.
Qed.
End filters.

Lemma filter_ne_id {A} `{!EqDecision A} (x : A) (l : list A) : x ∉ l -> filter (fun y => y <> x) l = l.
Proof. intros. apply filter_id. by intros ? ? ->. Qed.

Lemma concat_lookup_elem {A} (ls : list (list A)) x :
  x ∈ concat ls <-> exists i l, ls !! i = Some l /\ x ∈ l.
Proof.
  induction ls as [|l ls IH]; simpl.
  - split; [set_solver|]. by intros (i & l & Hl & _).
  - rewrite elem_of_app, IH. split.
    + intros [Hx|(i & l' & Hl & Hx)]; [by exists O, l|by exists (S i), l'].
    + intros ([|i] & l' & Hl & Hx); simplify_eq/=; [by left|right; eauto].
Qed.

(** ** Bits and bounds *)

Lemma bounded_bits x n : 0 <= n -> 0 <= x < 2 ^ n -> forall k, n <= k -> Z.testbit x k = false.
Proof.
  intros Hn Hx k Hk. rewrite <- (Z.mod_small x (2 ^ n)) by done.
  by apply Z.mod_pow2_bits_high.
Qed.

Lemma bits_bounded x n : 0 <= n -> (forall k, n <= k -> Z.testbit x k = false) -> 0 <= x < 2 ^ n.
Proof.
  intros Hn Hb. assert (x = x mod 2 ^ n) as ->.
  { apply Z.bits_inj'. intros k Hk. destruct (Z_lt_ge_dec k n).
    - by rewrite Z.mod_pow2_bits_low by lia.
    - rewrite Z.mod_pow2_bits_high by lia. apply Hb. lia. }
  apply Z.mod_pos_bound. by apply Z.pow_pos_nonneg.
Qed.

Lemma land_bound x y n : 0 <= n -> 0 <= x < 2 ^ n -> 0 <= x .& y < 2 ^ n.
Proof.
  intros Hn Hx. apply bits_bounded; [done|]. intros k Hk.
  by rewrite Z.land_spec, (bounded_bits x n).
Qed.

Lemma lor_bound x y n : 0 <= n -> 0 <= x < 2 ^ n -> 0 <= y < 2 ^ n -> 0 <= x .| y < 2 ^ n.
Proof.
  intros Hn Hx Hy. apply bits_bounded; [done|]. intros k Hk.
  by rewrite Z.lor_spec, (bounded_bits x n), (bounded_bits y n).
Qed.

Lemma lxor_bound x y n : 0 <= n -> 0 <= x < 2 ^ n -> 0 <= y < 2 ^ n -> 0 <= x .^ y < 2 ^ n.
Proof.
  intros Hn Hx Hy. apply bits_bounded; [done|]. intros k Hk.
  by rewrite Z.lxor_spec, (bounded_bits x n), (bounded_bits y n).
Qed.

Lemma bit_bound k n : 0 <= k < n -> 0 <= bit k < 2 ^ n.
Proof.
  intros Hk. unfold bit. rewrite Z.shiftl_1_l. split; [apply Z.pow_nonneg; lia|].
  apply Z.pow_lt_mono_r; lia.
Qed.

Lemma testbit_set s n k : 0 <= n -> 0 <= k ->
  Z.testbit (s .| bit n) k = Z.testbit s k || (k =? n).
Proof.
  intros. unfold bit. rewrite Z.lor_spec, Z.shiftl_1_l.
  destruct (Z.eqb_spec k n) as [->|]; [by rewrite Z.pow2_bits_true|by rewrite Z.pow2_bits_false].
Qed.

Lemma testbit_clear s n k : 0 <= n -> 0 <= k ->
  Z.testbit (s .& Z.lnot (bit n)) k = Z.testbit s k && negb (k =? n).
Proof.
  intros. unfold bit. rewrite Z.land_spec, Z.lnot_spec, Z.shiftl_1_l by done.
  destruct (Z.eqb_spec k n) as [->|]; [by rewrite Z.pow2_bits_true|by rewrite Z.pow2_bits_false].
Qed.

(** A low field joined with a shifted high field. *)
Lemma lor_shiftl_add n lo hi : 0 <= n -> 0 <= lo < 2 ^ n -> lo .| (hi .<< n) = lo + 2 ^ n * hi.
Proof.
  intros Hn Hlo. rewrite <- Z.add_nocarry_lor; [rewrite Z.shiftl_mul_pow2 by lia; lia|].
  apply Z.bits_inj'. intros k Hk. rewrite Z.land_spec, Z.testbit_0_l.
  destruct (Z_lt_ge_dec k n); [by rewrite Z.shiftl_spec_low, andb_false_r|].
  rewrite (bounded_bits lo n) by lia. done.
Qed.

(** ** Conversions that do not wrap *)

Lemma sint_small w x : 0 < w -> - 2 ^ (w - 1) <= x < 2 ^ (w - 1) -> sint w x = x.
Proof.
  intros Hw Hx. unfold sint. replace (2 ^ w) with (2 * 2 ^ (w - 1)).
  - rewrite Z.mod_small; lia.
  - rewrite <- Z.pow_succ_r by lia. f_equal. lia.
Qed.

Lemma i32_small x : - 2 ^ 31 <= x < 2 ^ 31 -> i32 x = x.
Proof. by apply (sint_small 32). Qed.

Lemma i64_small x : - 2 ^ 63 <= x < 2 ^ 63 -> i64 x = x.
Proof. by apply (sint_small 64). Qed.

Lemma u32_small x : 0 <= x < 2 ^ 32 -> u32 x = x.
Proof. apply Z.mod_small. Qed.

Lemma u64_small x : 0 <= x < 2 ^ 64 -> u64 x = x.
Proof. apply Z.mod_small. Qed.

Lemma u32_range x : 0 <= u32 x < 2 ^ 32.
Proof. by apply Z.mod_pos_bound. Qed.

Lemma u64_range x : 0 <= u64 x < 2 ^ 64.
Proof. by apply Z.mod_pos_bound. Qed.

Lemma i64_u64 x : i64 (u64 x) = i64 x.
Proof. unfold i64, sint, u64. by rewrite Zplus_mod_idemp_l. Qed.

Lemma i32_u32 x : i32 (u32 x) = i32 x.
Proof. unfold i32, sint, u32. by rewrite Zplus_mod_idemp_l. Qed.
