(* ===== verification/MathExtras.v ===== *)
(** Arithmetic helpers of include/zephyr/sys/math_extras_impl.h. *)

From S2P Require Import Prelude.

(** ** Count of trailing zeros (include/zephyr/sys/math_extras_impl.h) *)

Fixpoint ctz_loop (fuel : nat) (b x : Z) : Z :=
  match fuel with
  | O => b
  | S fuel => if (b <? 32) && (x .& 1 =? 0) then ctz_loop fuel (b + 1) (x .>> 1) else b
  end.

Definition u32_count_trailing_zeros (x : Z) : Z := ctz_loop 32 0 x.

Definition u64_count_trailing_zeros (x : Z) : Z :=
  if negb (u32 x =? 0) then u32_count_trailing_zeros (u32 x)
  else 32 + u32_count_trailing_zeros (x .>> 32).

(** ** Lemmas on trailing zeros *)

Lemma testbit_0_land x : (x .& 1 =? 0) = negb (Z.testbit x 0).
Proof.
  rewrite Z.bit0_odd. change 1 with (Z.ones 1). rewrite Z.land_ones by lia.
  change (2 ^ 1) with 2. rewrite Zmod_odd. by destruct (Z.odd x).
Qed.

Lemma ctz_loop_spec fuel b x :
  0 <= b -> b + Z.of_nat fuel = 32 -> 0 < x < 2 ^ Z.of_nat fuel ->
  b <= ctz_loop fuel b x < 32 /\ Z.testbit x (ctz_loop fuel b x - b) = true /\
  forall j, 0 <= j < ctz_loop fuel b x - b -> Z.testbit x j = false.
Proof.
  revert b x. induction fuel as [|fuel IH]; intros b x Hb Hf Hx; [simpl in Hx; lia|].
  cbn [ctz_loop]. rewrite testbit_0_land. replace (b <? 32) with true by (symmetry; apply Z.ltb_lt; lia).
  destruct (Z.testbit x 0) eqn:E; simpl.
  - rewrite Z.sub_diag. split; [lia|]. split; [done|]. lia.
  - assert (Hx0 : x mod 2 = 0) by (rewrite Zmod_odd, <- Z.bit0_odd, E; done).
    assert (Hs : x .>> 1 = x / 2) by (rewrite Z.shiftr_div_pow2 by lia; done).
    rewrite Nat2Z.inj_succ, Z.pow_succ_r in Hx by lia.
    destruct (IH (b + 1) (x .>> 1)) as (H1 & H2 & H3); [lia|lia| |].
    { rewrite Hs. pose proof (Z.div_mod x 2). lia. }
    split; [lia|]. split.
    + rewrite Z.shiftr_spec in H2 by lia. by replace (ctz_loop fuel (b + 1) (x .>> 1) - b)
        with (ctz_loop fuel (b + 1) (x .>> 1) - (b + 1) + 1) by lia.
    + intros j Hj. destruct (Z.eq_dec j 0) as [->|]; [done|].
      specialize (H3 (j - 1)). rewrite Z.shiftr_spec in H3 by lia.
      replace (j - 1 + 1) with j in H3 by lia. apply H3. lia.
Qed.

(** [n] is the index of the lowest set bit of [x]. *)
Definition lowest_bit (x n : Z) : Prop :=
  Z.testbit x n = true /\ forall j, 0 <= j < n -> Z.testbit x j = false.

Lemma u32_ctz_spec x : 0 < x < 2 ^ 32 ->
  0 <= u32_count_trailing_zeros x < 32 /\ lowest_bit x (u32_count_trailing_zeros x).
Proof.
  intros Hx. destruct (ctz_loop_spec 32 0 x) as (H1 & H2 & H3); [lia|lia|done|].
  rewrite Z.sub_0_r in H2, H3. done.
Qed.

Lemma u64_ctz_spec x : 0 < x < 2 ^ 64 ->
  0 <= u64_count_trailing_zeros x < 64 /\ lowest_bit x (u64_count_trailing_zeros x).
Proof.
  intros Hx. unfold u64_count_trailing_zeros, u32.
  destruct (Z.eqb_spec (x mod 2 ^ 32) 0) as [E|E]; simpl.
  - assert (Hd : 0 < x .>> 32 < 2 ^ 32).
    { rewrite Z.shiftr_div_pow2 by lia. pose proof (Z.div_mod x (2 ^ 32)).
      change (2 ^ 64) with (2 ^ 32 * 2 ^ 32) in Hx. split; [lia|].
      apply Z.div_lt_upper_bound; lia. }
    destruct (u32_ctz_spec _ Hd) as (H1 & H2 & H3).
    rewrite Z.shiftr_spec in H2 by lia.
    split; [lia|]. split; [by rewrite Z.add_comm|].
    intros j Hj. destruct (Z_lt_ge_dec j 32).
    + rewrite <- (Z.mod_pow2_bits_low x 32 j) by lia. by rewrite E, Z.testbit_0_l.
    + specialize (H3 (j - 32)). rewrite Z.shiftr_spec in H3 by lia.
      replace (j - 32 + 32) with j in H3 by lia. apply H3. lia.
  - pose proof (Z.mod_pos_bound x (2 ^ 32)).
    destruct (u32_ctz_spec (x mod 2 ^ 32)) as (H1 & H2 & H3); [lia|].
    split; [lia|]. split.
    + by rewrite Z.mod_pow2_bits_low in H2 by lia.
    + intros j Hj. rewrite <- (Z.mod_pow2_bits_low x 32 j) by lia. by apply H3.
Qed.

(** ** Checked addition and multiplication (the portable definitions)

    Each returns the value stored in [*result] and the overflow flag.  [SIZE_W]
    is the width of [size_t]. *)

Definition u16_add_overflow (a b : Z) : Z * bool := let c := u16 (a + b) in (c, c <? a).
Definition u32_add_overflow (a b : Z) : Z * bool := let c := u32 (a + b) in (c, c <? a).
Definition u64_add_overflow (a b : Z) : Z * bool := let c := u64 (a + b) in (c, c <? a).
Definition size_add_overflow (SIZE_W a b : Z) : Z * bool :=
  let c := (a + b) mod 2 ^ SIZE_W in (c, c <? a).

Definition u16_mul_overflow (a b : Z) : Z * bool :=
  let c := u16 (a * b) in (c, negb (a =? 0) && negb (c / a =? b)).
Definition u32_mul_overflow (a b : Z) : Z * bool :=
  let c := u32 (a * b) in (c, negb (a =? 0) && negb (c / a =? b)).
Definition u64_mul_overflow (a b : Z) : Z * bool :=
  let c := u64 (a * b) in (c, negb (a =? 0) && negb (c / a =? b)).
Definition size_mul_overflow (SIZE_W a b : Z) : Z * bool :=
  let c := (a * b) mod 2 ^ SIZE_W in (c, negb (a =? 0) && negb (c / a =? b)).

(** ** Count of leading zeros *)

Fixpoint clz_loop (fuel : nat) (b x : Z) : Z :=
  match fuel with
  | O => b
  | S fuel => if (b <? 32) && (x .>> 31 =? 0) then clz_loop fuel (b + 1) (u32 (x .<< 1)) else b
  end.

Definition u32_count_leading_zeros (x : Z) : Z := clz_loop 32 0 x.

Definition u64_count_leading_zeros (x : Z) : Z :=
  if x =? u32 x then 32 + u32_count_leading_zeros (u32 x)
  else u32_count_leading_zeros (u32 (x .>> 32)).

(** ** 64 by 64 to 128-bit signed multiplication

    The result is the pair of the fields [low] and [high]. *)

Definition i128_multiply_i64_i64 (a b : Z) : Z * Z :=
  let u_a := if a <? 0 then u64 (- a) else u64 a in
  let u_b := if b <? 0 then u64 (- b) else u64 b in
  let sign := xorb (a <? 0) (b <? 0) in
  let a_lo := u_a .& 0xFFFFFFFF in
  let a_hi := u_a .>> 32 in
  let b_lo := u_b .& 0xFFFFFFFF in
  let b_hi := u_b .>> 32 in
  let res_0 := u64 (a_lo * b_lo) in
  let res_1 := u64 (a_hi * b_lo) in
  let res_2 := u64 (a_lo * b_hi) in
  let res_3 := u64 (a_hi * b_hi) in
  let middle := u64 ((res_0 .>> 32) + (res_1 .& 0xFFFFFFFF) + (res_2 .& 0xFFFFFFFF)) in
  let low := (res_0 .& 0xFFFFFFFF) .| u64 (middle .<< 32) in
  let carry := u64 ((middle .>> 32) + (res_1 .>> 32) + (res_2 .>> 32) + res_3) in
  let high := carry in
  if sign then
    let low := u64 (u64 (Z.lnot low) + 1) in
    (low, u64 (u64 (Z.lnot high) + (if low =? 0 then 1 else 0)))
  else (low, high).

(** ** Lemmas *)

Lemma add_overflow_spec w a b : 0 <= w -> 0 <= a < 2 ^ w -> 0 <= b < 2 ^ w ->
  ((a + b) mod 2 ^ w <? a) = (2 ^ w <=? a + b).
Proof.
  intros Hw Ha Hb. destruct (Z.leb_spec (2 ^ w) (a + b)).
  - apply Z.ltb_lt. replace ((a + b) mod 2 ^ w) with (a + b - 2 ^ w); [lia|].
    apply Z.mod_unique with 1; lia.
  - apply Z.ltb_ge. rewrite Z.mod_small; lia.
Qed.

Lemma mul_overflow_spec w a b : 0 <= w -> 0 <= a < 2 ^ w -> 0 <= b < 2 ^ w ->
  negb (a =? 0) && negb ((a * b) mod 2 ^ w / a =? b) = (2 ^ w <=? a * b).
Proof.
  intros Hw Ha Hb. destruct (Z.eqb_spec a 0) as [->|Hne]; simpl.
  - symmetry. apply Z.leb_gt. lia.
  - destruct (Z.leb_spec (2 ^ w) (a * b)) as [Ho|Ho].
    + apply negb_true_iff, Z.eqb_neq. intros E.
      pose proof (Z.mod_pos_bound (a * b) (2 ^ w)). pose proof (Z.mul_div_le ((a * b) mod 2 ^ w) a).
      rewrite E in *. lia.
    + rewrite Z.mod_small by nia. rewrite Z.mul_comm, Z.div_mul by done.
      by rewrite Z.eqb_refl.
Qed.

Lemma clz_loop_spec fuel b x : 0 <= b -> b + Z.of_nat fuel = 32 -> 0 < x < 2 ^ 32 ->
  2 ^ b <= 2 ^ 32 -> x mod 2 ^ b = 0 ->
  clz_loop fuel b x = b + (31 - Z.log2 x).
Proof.
  revert b x. induction fuel as [|fuel IH]; intros b x Hb Hf Hx Hp Hm.
  - exfalso. assert (b = 32) as -> by lia. rewrite Z.mod_small in Hm; lia.
  - cbn [clz_loop]. replace (b <? 32) with true by (symmetry; apply Z.ltb_lt; lia).
    rewrite andb_true_l, Z.shiftr_div_pow2 by lia.
    assert (Hlog : Z.log2 x <= 31) by (apply Z.lt_succ_r, Z.log2_lt_pow2; lia).
    destruct (Z.eqb_spec (x / 2 ^ 31) 0) as [E|E].
    + assert (Hs : x < 2 ^ 31) by (apply Z.div_small_iff in E; lia).
      rewrite Z.shiftl_mul_pow2, u32_small by lia. rewrite IH; try lia.
      * replace (x * 2 ^ 1) with (2 * x) by lia. rewrite Z.log2_double by lia. lia.
      * apply Z.pow_le_mono_r; lia.
      * rewrite Z.pow_add_r by lia. rewrite Z.mul_mod_distr_r by lia. lia.
    + assert (2 ^ 31 <= x).
      { destruct (Z_lt_ge_dec x (2 ^ 31)); [|lia]. rewrite Z.div_small in E; lia. }
      assert (31 <= Z.log2 x) by (apply Z.log2_le_pow2; lia). lia.
Qed.

Lemma u32_clz_spec x : 0 < x < 2 ^ 32 -> u32_count_leading_zeros x = 31 - Z.log2 x.
Proof.
  intros Hx. unfold u32_count_leading_zeros. rewrite clz_loop_spec; try lia.
  by rewrite Z.mod_1_r.
Qed.

Lemma u64_clz_spec x : 0 < x < 2 ^ 64 -> u64_count_leading_zeros x = 63 - Z.log2 x.
Proof.
  intros Hx. unfold u64_count_leading_zeros. destruct (Z.eqb_spec x (u32 x)) as [E|E].
  - rewrite <- E. pose proof (u32_range x). rewrite u32_clz_spec; lia.
  - assert (2 ^ 32 <= x). { destruct (Z_lt_ge_dec x (2 ^ 32)); [|lia]. rewrite u32_small in E; lia. }
    assert (Hd : 0 < x / 2 ^ 32 < 2 ^ 32).
    { split; [apply Z.div_str_pos; lia|apply Z.div_lt_upper_bound; lia]. }
    rewrite Z.shiftr_div_pow2, u32_small by lia. rewrite u32_clz_spec by done.
    rewrite <- Z.shiftr_div_pow2, Z.log2_shiftr by lia.
    assert (32 <= Z.log2 x) by (apply Z.log2_le_pow2; lia). lia.
Qed.

Lemma mask32 x : x .& 0xFFFFFFFF = x mod 2 ^ 32.
Proof. change 0xFFFFFFFF with (Z.ones 32). by apply Z.land_ones. Qed.

(** The unsigned product, from its four 32-bit partial products. *)
Lemma school_multiply A B : 0 <= A < 2 ^ 64 -> 0 <= B < 2 ^ 64 ->
  let res_0 := u64 ((A .& 0xFFFFFFFF) * (B .& 0xFFFFFFFF)) in
  let res_1 := u64 ((A .>> 32) * (B .& 0xFFFFFFFF)) in
  let res_2 := u64 ((A .& 0xFFFFFFFF) * (B .>> 32)) in
  let res_3 := u64 ((A .>> 32) * (B .>> 32)) in
  let middle := u64 ((res_0 .>> 32) + (res_1 .& 0xFFFFFFFF) + (res_2 .& 0xFFFFFFFF)) in
  let low := (res_0 .& 0xFFFFFFFF) .| u64 (middle .<< 32) in
  let high := u64 ((middle .>> 32) + (res_1 .>> 32) + (res_2 .>> 32) + res_3) in
  0 <= low < 2 ^ 64 /\ 0 <= high < 2 ^ 64 /\ low + 2 ^ 64 * high = A * B.
Proof.
  intros HA HB. rewrite !mask32, !Z.shiftr_div_pow2 by lia.
  pose proof (Z.div_mod A (2 ^ 32)) as DA. pose proof (Z.div_mod B (2 ^ 32)) as DB.
  pose proof (Z.mod_pos_bound A (2 ^ 32)). pose proof (Z.mod_pos_bound B (2 ^ 32)).
  assert (0 <= A / 2 ^ 32 < 2 ^ 32) by (split; [apply Z.div_pos|apply Z.div_lt_upper_bound]; lia).
  assert (0 <= B / 2 ^ 32 < 2 ^ 32) by (split; [apply Z.div_pos|apply Z.div_lt_upper_bound]; lia).
  set (al := A mod 2 ^ 32) in *. set (ah := A / 2 ^ 32) in *.
  set (bl := B mod 2 ^ 32) in *. set (bh := B / 2 ^ 32) in *.
  assert (Hmul : forall x y n, 0 <= x < n -> 0 <= y < n -> 0 <= x * y <= (n - 1) * (n - 1)).
  { intros. split; [apply Z.mul_nonneg_nonneg|apply Z.mul_le_mono_nonneg]; lia. }
  pose proof (Hmul al bl (2 ^ 32)) as M0. pose proof (Hmul ah bl (2 ^ 32)) as M1.
  pose proof (Hmul al bh (2 ^ 32)) as M2. pose proof (Hmul ah bh (2 ^ 32)) as M3.
  pose proof (Hmul A B (2 ^ 64) HA HB) as MAB.
  assert (EAB : A * B = al * bl + 2 ^ 32 * (ah * bl + al * bh) + 2 ^ 32 * 2 ^ 32 * (ah * bh))
    by (rewrite DA, DB by lia; ring).
  rewrite (u64_small (al * bl)), (u64_small (ah * bl)), (u64_small (al * bh)), (u64_small (ah * bh)) by lia.
  set (r0 := al * bl) in *. set (r1 := ah * bl) in *. set (r2 := al * bh) in *. set (r3 := ah * bh) in *.
  pose proof (Z.div_mod r0 (2 ^ 32)) as D0. pose proof (Z.mod_pos_bound r0 (2 ^ 32)).
  pose proof (Z.div_mod r1 (2 ^ 32)) as D1. pose proof (Z.mod_pos_bound r1 (2 ^ 32)).
  pose proof (Z.div_mod r2 (2 ^ 32)) as D2. pose proof (Z.mod_pos_bound r2 (2 ^ 32)).
  intros res_0 res_1 res_2 res_3 middle low high.
  assert (Em : middle = r0 / 2 ^ 32 + r1 mod 2 ^ 32 + r2 mod 2 ^ 32).
  { unfold middle, res_0, res_1, res_2. rewrite !mask32, Z.shiftr_div_pow2 by lia.
    apply u64_small. lia. }
  pose proof (Z.div_mod middle (2 ^ 32)) as Dm. pose proof (Z.mod_pos_bound middle (2 ^ 32)).
  assert (Es : u64 (middle .<< 32) = (middle mod 2 ^ 32) .<< 32).
  { unfold u64. rewrite !Z.shiftl_mul_pow2 by lia. change (2 ^ 64) with (2 ^ 32 * 2 ^ 32).
    by rewrite Z.mul_mod_distr_r. }
  assert (El : low = r0 mod 2 ^ 32 + 2 ^ 32 * (middle mod 2 ^ 32)).
  { unfold low. rewrite Es, mask32. apply lor_shiftl_add; unfold res_0; lia. }
  assert (Eh : high = middle / 2 ^ 32 + r1 / 2 ^ 32 + r2 / 2 ^ 32 + r3).
  { unfold high, res_1, res_2, res_3. rewrite !Z.shiftr_div_pow2 by lia. apply u64_small. lia. }
  clearbody low high middle. split; [lia|]. split; lia.
Qed.

Lemma i128_multiply_exact a b : - 2 ^ 63 <= a < 2 ^ 63 -> - 2 ^ 63 <= b < 2 ^ 63 ->
  let r := i128_multiply_i64_i64 a b in
  0 <= r.1 < 2 ^ 64 /\ 0 <= r.2 < 2 ^ 64 /\ r.1 + 2 ^ 64 * i64 r.2 = a * b.
Proof.
  intros Ha Hb. unfold i128_multiply_i64_i64.
  assert (Habs : forall x, - 2 ^ 63 <= x < 2 ^ 63 ->
    (if x <? 0 then u64 (- x) else u64 x) = Z.abs x /\ 0 <= Z.abs x <= 2 ^ 63).
  { intros x Hx. destruct (Z.ltb_spec x 0); rewrite u64_small; lia. }
  destruct (Habs a Ha) as [-> HA], (Habs b Hb) as [-> HB].
  destruct (school_multiply (Z.abs a) (Z.abs b)) as (Hlow & Hhigh & E); [lia|lia|].
  cbv zeta in *. set (low := _ .| _) in *. set (high := u64 (_ + _ + _ + _)) in *.
  clearbody low high. clear Habs.
  assert (Hp : 0 <= Z.abs a * Z.abs b <= 2 ^ 63 * 2 ^ 63)
    by (split; [apply Z.mul_nonneg_nonneg|apply Z.mul_le_mono_nonneg]; lia).
  assert (Hh : high <= 2 ^ 62) by lia.
  assert (Ep : a * b = if xorb (a <? 0) (b <? 0) then - (Z.abs a * Z.abs b) else Z.abs a * Z.abs b).
  { destruct (Z.ltb_spec a 0), (Z.ltb_spec b 0); simpl;
      rewrite ?(Z.abs_neq a), ?(Z.abs_neq b), ?(Z.abs_eq a), ?(Z.abs_eq b) by lia; ring. }
  rewrite Ep, <- E. clear Ep E Hp HA HB Ha Hb. destruct (xorb _ _); simpl fst; simpl snd.
  - assert (El : u64 (u64 (Z.lnot low) + 1) = u64 (- low)).
    { unfold u64. rewrite Zplus_mod_idemp_l. f_equal. unfold Z.lnot. lia. }
    assert (Eh : forall c, u64 (u64 (Z.lnot high) + c) = u64 (c - 1 - high)).
    { intros c. unfold u64. rewrite Zplus_mod_idemp_l. f_equal. unfold Z.lnot. lia. }
    rewrite El, Eh, i64_u64. split; [apply u64_range|]. split; [apply u64_range|].
    destruct (Z.eq_dec low 0) as [->|Hn].
    + change (u64 (- 0)) with 0. rewrite Z.eqb_refl, i64_small; lia.
    + assert (u64 (- low) = 2 ^ 64 - low) as -> by (symmetry; apply Z.mod_unique with (-1); lia).
      replace (2 ^ 64 - low =? 0) with false by (symmetry; apply Z.eqb_neq; lia).
      rewrite i64_small; lia.
  - rewrite i64_small by lia. split; [lia|]. split; [lia|]. done.
Qed.

(** ** Properties *)

(** The portable overflow-checked operations return the wrapped result and
    flag exactly the overflows, and the leading and trailing zero counts are the
    positions of the highest and lowest set bits. *)
Theorem math_extras_correct :
  (forall a b, 0 <= a < 2 ^ 16 -> 0 <= b < 2 ^ 16 ->
     u16_add_overflow a b = (u16 (a + b), 2 ^ 16 <=? a + b) /\
     u16_mul_overflow a b = (u16 (a * b), 2 ^ 16 <=? a * b)) /\
  (forall a b, 0 <= a < 2 ^ 32 -> 0 <= b < 2 ^ 32 ->
     u32_add_overflow a b = (u32 (a + b), 2 ^ 32 <=? a + b) /\
     u32_mul_overflow a b = (u32 (a * b), 2 ^ 32 <=? a * b)) /\
  (forall a b, 0 <= a < 2 ^ 64 -> 0 <= b < 2 ^ 64 ->
     u64_add_overflow a b = (u64 (a + b), 2 ^ 64 <=? a + b) /\
     u64_mul_overflow a b = (u64 (a * b), 2 ^ 64 <=? a * b)) /\
  (forall w a b, 0 <= w -> 0 <= a < 2 ^ w -> 0 <= b < 2 ^ w ->
     size_add_overflow w a b = ((a + b) mod 2 ^ w, 2 ^ w <=? a + b) /\
     size_mul_overflow w a b = ((a * b) mod 2 ^ w, 2 ^ w <=? a * b)) /\
  (forall x, 0 < x < 2 ^ 32 ->
     u32_count_leading_zeros x = 31 - Z.log2 x /\ lowest_bit x (u32_count_trailing_zeros x)) /\
  (forall x, 0 < x < 2 ^ 64 ->
     u64_count_leading_zeros x = 63 - Z.log2 x /\ lowest_bit x (u64_count_trailing_zeros x)) /\
  u32_count_leading_zeros 0 = 32 /\ u32_count_trailing_zeros 0 = 32 /\
  u64_count_leading_zeros 0 = 64 /\ u64_count_trailing_zeros 0 = 64.
Proof.
  repeat (match goal with |- _ /\ _ => split end); try reflexivity; intros;
    try (split; unfold u16_add_overflow, u16_mul_overflow, u32_add_overflow, u32_mul_overflow,
           u64_add_overflow, u64_mul_overflow, size_add_overflow, size_mul_overflow, u16, u32, u64;
         f_equal; (apply add_overflow_spec || apply mul_overflow_spec); lia).
  - split; [by apply u32_clz_spec|by apply u32_ctz_spec].
  - split; [by apply u64_clz_spec|by apply u64_ctz_spec].
Qed.

(** [i128_multiply_i64_i64] stores the exact product of any two 64-bit signed
    integers, [high] read as signed. *)
Theorem i128_multiply_correct (a b : Z) : - 2 ^ 63 <= a < 2 ^ 63 -> - 2 ^ 63 <= b < 2 ^ 63 ->
  let r := i128_multiply_i64_i64 a b in
  0 <= r.1 < 2 ^ 64 /\ 0 <= r.2 < 2 ^ 64 /\ r.1 + 2 ^ 64 * i64 r.2 = a * b.
Proof. apply i128_multiply_exact. Qed.

Lemma i128_multiply_correct_witness :
  let r := i128_multiply_i64_i64 (-5000000000) 7000000000 in
  r.1 + 2 ^ 64 * i64 r.2 = -35000000000000000000.
Proof.
  intros r.
  destruct (i128_multiply_correct (-5000000000) 7000000000) as (_ & _ & H); [lia|lia|]. exact H.
Defined.
