(* ===== verification/Dlist.v ===== *)
(** Doubly linked lists, include/zephyr/sys/dlist.h, at the level of pointers.

    The memory maps an address to a [struct _dnode]; every [sys_dlist_*]
    operation is the sequence of loads and stores of its C body.  [dlist m l xs]
    says that the circular structure rooted at the list head [l] links exactly
    the nodes [xs] in this order.  The theorems show that each operation
    implements the corresponding operation on lists, which is why the kernel
    components above this file represent a [sys_dlist_t] by the list of its
    nodes. *)

From S2P Require Import Prelude.

Definition ptr := nat.
Bind Scope nat_scope with ptr.
Definition NULL : ptr := 0%nat.

Record dnode := Dnode { next : ptr; prev : ptr }.
Definition mem := ptr -> dnode.

(** [list->head] and [list->tail] are the [next] and [prev] of the union. *)
Definition set_next (p v : ptr) (m : mem) : mem := upd p (Dnode v (m p).(prev)) m.
Definition set_prev (p v : ptr) (m : mem) : mem := upd p (Dnode (m p).(next) v) m.

Definition sys_dlist_init (list : ptr) (m : mem) : mem :=
  set_prev list list (set_next list list m).

Definition sys_dnode_init (node : ptr) (m : mem) : mem :=
  set_prev node NULL (set_next node NULL m).

Definition sys_dnode_is_linked (m : mem) (node : ptr) : bool :=
  negb (bool_decide ((m node).(next) = NULL)).

Definition sys_dlist_is_head (m : mem) (list node : ptr) : bool :=
  bool_decide ((m list).(next) = node).

Definition sys_dlist_is_tail (m : mem) (list node : ptr) : bool :=
  bool_decide ((m list).(prev) = node).

Definition sys_dlist_is_empty (m : mem) (list : ptr) : bool :=
  bool_decide ((m list).(next) = list).

Definition sys_dlist_has_multiple_nodes (m : mem) (list : ptr) : bool :=
  negb (bool_decide ((m list).(next) = (m list).(prev))).

Definition sys_dlist_peek_head (m : mem) (list : ptr) : ptr :=
  if sys_dlist_is_empty m list then NULL else (m list).(next).

Definition sys_dlist_peek_head_not_empty (m : mem) (list : ptr) : ptr :=
  (m list).(next).

Definition sys_dlist_peek_next_no_check (m : mem) (list node : ptr) : ptr :=
  if bool_decide (node = (m list).(prev)) then NULL else (m node).(next).

Definition sys_dlist_peek_next (m : mem) (list node : ptr) : ptr :=
  if bool_decide (node = NULL) then NULL else sys_dlist_peek_next_no_check m list node.

Definition sys_dlist_peek_prev_no_check (m : mem) (list node : ptr) : ptr :=
  if bool_decide (node = (m list).(next)) then NULL else (m node).(prev).

Definition sys_dlist_peek_prev (m : mem) (list node : ptr) : ptr :=
  if bool_decide (node = NULL) then NULL else sys_dlist_peek_prev_no_check m list node.

Definition sys_dlist_peek_tail (m : mem) (list : ptr) : ptr :=
  if sys_dlist_is_empty m list then NULL else (m list).(prev).

Definition sys_dlist_append (list node : ptr) (m : mem) : mem :=
  let tail := (m list).(prev) in
  let m := set_next node list m in
  let m := set_prev node tail m in
  let m := set_next tail node m in
  set_prev list node m.

Definition sys_dlist_prepend (list node : ptr) (m : mem) : mem :=
  let head := (m list).(next) in
  let m := set_next node head m in
  let m := set_prev node list m in
  let m := set_prev head node m in
  set_next list node m.

Definition sys_dlist_insert (successor node : ptr) (m : mem) : mem :=
  let p := (m successor).(prev) in
  let m := set_prev node p m in
  let m := set_next node successor m in
  let m := set_next p node m in
  set_prev successor node m.

(** The search loop of [sys_dlist_insert_at]; [fuel] bounds the iterations. *)
Fixpoint insert_at_scan (fuel : nat) (cond : ptr -> Z) (m : mem) (list pos : ptr) : option ptr :=
  match fuel with
  | O => None
  | S fuel =>
      if negb (bool_decide (pos = NULL)) && (cond pos =? 0)
      then insert_at_scan fuel cond m list (sys_dlist_peek_next m list pos)
      else Some pos
  end.

Definition sys_dlist_insert_at (fuel : nat) (list node : ptr) (cond : ptr -> Z) (m : mem)
    : option mem :=
  if sys_dlist_is_empty m list then Some (sys_dlist_append list node m)
  else
    match insert_at_scan fuel cond m list (sys_dlist_peek_head m list) with
    | None => None
    | Some pos =>
        if negb (bool_decide (pos = NULL)) then Some (sys_dlist_insert pos node m)
        else Some (sys_dlist_append list node m)
    end.

Definition sys_dlist_dequeue (node : ptr) (m : mem) : mem :=
  let p := (m node).(prev) in
  let n := (m node).(next) in
  let m := set_next p n m in
  set_prev n p m.

Definition sys_dlist_remove (node : ptr) (m : mem) : mem :=
  let p := (m node).(prev) in
  let n := (m node).(next) in
  let m := set_next p n m in
  let m := set_prev n p m in
  sys_dnode_init node m.

Definition sys_dlist_range_prepend (dest start last : ptr) (m : mem) : mem :=
  let head := (m dest).(next) in
  let p := (m start).(prev) in
  let n := (m last).(next) in
  let m := set_next p n m in
  let m := set_prev n p m in
  let m := set_next last head m in
  let m := set_prev start dest m in
  let m := set_prev head last m in
  set_next dest start m.

Definition sys_dlist_range_append (dest start last : ptr) (m : mem) : mem :=
  let tail := (m dest).(prev) in
  let p := (m start).(prev) in
  let n := (m last).(next) in
  let m := set_next p n m in
  let m := set_prev n p m in
  let m := set_next last dest m in
  let m := set_prev start tail m in
  let m := set_next tail start m in
  set_prev dest last m.

Definition sys_dlist_get (list : ptr) (m : mem) : ptr * mem :=
  if sys_dlist_is_empty m list then (NULL, m)
  else let node := (m list).(next) in (node, sys_dlist_remove node m).

(** [SYS_DLIST_FOR_EACH_NODE] counting its iterations. *)
Fixpoint len_loop (fuel : nat) (m : mem) (list node : ptr) (len : nat) : option nat :=
  match fuel with
  | O => None
  | S fuel =>
      if bool_decide (node = NULL) then Some len
      else len_loop fuel m list (sys_dlist_peek_next m list node) (S len)
  end.

Definition sys_dlist_len (fuel : nat) (m : mem) (list : ptr) : option nat :=
  len_loop fuel m list (sys_dlist_peek_head m list) 0%nat.

(** ** Representation *)

Definition edge (m : mem) (a b : ptr) : Prop := (m a).(next) = b /\ (m b).(prev) = a.

Fixpoint chain (m : mem) (path : list ptr) : Prop :=
  match path with
  | [] => True
  | a :: rest => match rest with [] => True | b :: _ => edge m a b end /\ chain m rest
  end.

Record dlist (m : mem) (l : ptr) (xs : list ptr) : Prop := {
  dl_chain : chain m (l :: xs ++ [l]);
  dl_nodup : NoDup (l :: xs);
  dl_null : NULL ∉ l :: xs
}.

(** ** Lemmas on chains *)

Lemma chain_app m p a q : chain m (p ++ a :: q) <-> chain m (p ++ [a]) /\ chain m (a :: q).
Proof.
  induction p as [|x p IH]; simpl.
  - tauto.
  - destruct p as [|y p]; simpl in *; tauto.
Qed.

Lemma chain_cons m a b q : chain m (a :: b :: q) <-> edge m a b /\ chain m (b :: q).
Proof. simpl. tauto. Qed.

(** A chain only reads [next] of all its nodes but the last and [prev] of all
    but the first. *)
Lemma chain_frame m m' p :
  (forall x, x ∈ removelast p -> (m' x).(next) = (m x).(next)) ->
  (forall x, x ∈ tail p -> (m' x).(prev) = (m x).(prev)) ->
  chain m p -> chain m' p.
Proof.
  induction p as [|a [|b p] IH]; intros Hn Hp Hc; simpl; [done|done|].
  destruct Hc as [[E1 E2] Hc]. split.
  - split; [rewrite Hn|rewrite Hp]; [done| |done|]; simpl; set_solver.
  - apply IH; [| |done].
    + intros x Hx. apply Hn. change (removelast (a :: b :: p)) with (a :: removelast (b :: p)).
      set_solver.
    + intros x Hx. apply Hp. simpl in *. set_solver.
Qed.

(** Linking a fresh node [n] between the adjacent nodes [p] and [q], and
    unlinking [n] from between them, as predicates on the memory after. *)
Definition linked_between (m m' : mem) (p n q : ptr) : Prop :=
  (forall x, (m' x).(next) = if decide (x = n) then q else if decide (x = p) then n else (m x).(next)) /\
  (forall x, (m' x).(prev) = if decide (x = n) then p else if decide (x = q) then n else (m x).(prev)).

Definition unlinked_between (m m' : mem) (p n q : ptr) : Prop :=
  (forall x, x <> n -> (m' x).(next) = if decide (x = p) then q else (m x).(next)) /\
  (forall x, x <> n -> (m' x).(prev) = if decide (x = q) then p else (m x).(prev)).

Lemma removelast_snoc {A} (l : list A) x : removelast (l ++ [x]) = l.
Proof. by rewrite removelast_app, app_nil_r. Qed.

Lemma removelast_elem {A} (a : A) q Q : a ∈ removelast (q :: Q) -> a ∈ q :: Q.
Proof.
  intros Ha. rewrite (app_removelast_last q (l := q :: Q)) by done. set_solver +Ha.
Qed.

Lemma tail_elem {A} (a : A) l : a ∈ tail l -> a ∈ l.
Proof. destruct l; set_solver. Qed.

Section splice.
Context (m m' : mem) (P Q : list ptr) (p n q : ptr).
Context (Hfresh : n ∉ P ++ p :: q :: Q) (HP : NoDup (P ++ [p])) (HQ : NoDup (q :: Q)).
Context (Hpq : p ∉ removelast (q :: Q)) (Hqp : q ∉ tail (P ++ [p])).

Lemma splice_sources x : x ∈ removelast (P ++ [p]) \/ x ∈ removelast (q :: Q) ->
  x <> n /\ x <> p.
Proof.
  rewrite removelast_snoc. apply NoDup_app in HP as (_ & Hp & _).
  intros [Hx|Hx]; [|apply removelast_elem in Hx as Hx'];
    split; intros ->; set_solver.
Qed.

Lemma splice_targets x : x ∈ tail (P ++ [p]) \/ x ∈ tail (q :: Q) ->
  x <> n /\ x <> q.
Proof.
  apply NoDup_cons in HQ as [Hq _].
  intros [Hx|Hx]; [apply tail_elem in Hx as Hx'|simpl in Hx]; split; intros ->; set_solver.
Qed.

Lemma splice_ne : p <> n /\ q <> n.
Proof. split; intros ->; set_solver +Hfresh. Qed.

Lemma chain_linked : linked_between m m' p n q ->
  chain m (P ++ p :: q :: Q) -> chain m' (P ++ p :: n :: q :: Q).
Proof.
  intros [Hn Hp] Hc. destruct splice_ne.
  rewrite chain_app, chain_cons in Hc. destruct Hc as (HcP & _ & HcQ).
  rewrite chain_app, !chain_cons. split; [|split; [|split]].
  1,4: eapply chain_frame; [| |eassumption]; intros x Hx.
  1,3: rewrite Hn; destruct (splice_sources x); [by auto|]; by rewrite !decide_False.
  1,2: rewrite Hp; destruct (splice_targets x); [by auto|]; by rewrite !decide_False.
  all: split; rewrite ?Hn, ?Hp; repeat case_decide; congruence.
Qed.

Lemma chain_unlinked : unlinked_between m m' p n q ->
  chain m (P ++ p :: n :: q :: Q) -> chain m' (P ++ p :: q :: Q).
Proof.
  intros [Hn Hp] Hc. destruct splice_ne.
  rewrite chain_app, !chain_cons in Hc. destruct Hc as (HcP & _ & _ & HcQ).
  rewrite chain_app, chain_cons. split; [|split].
  1,3: eapply chain_frame; [| |eassumption]; intros x Hx.
  1,3: destruct (splice_sources x); [by auto|]; rewrite Hn by done; by rewrite decide_False.
  1,2: destruct (splice_targets x); [by auto|]; rewrite Hp by done; by rewrite decide_False.
  split; rewrite ?Hn, ?Hp by done; by rewrite decide_True.
Qed.
End splice.

(** ** Positions of a list: the node before and the node after a position *)

Definition before (l : ptr) (xs : list ptr) : ptr := default l (last xs).
Definition after (l : ptr) (ys : list ptr) : ptr := default l (head ys).

Lemma before_split l xs : exists P, l :: xs = P ++ [before l xs].
Proof.
  destruct (decide (xs = [])) as [->|Hne]; [by exists []|].
  destruct (exists_last Hne) as (P & p & ->). exists (l :: P).
  unfold before. by rewrite last_snoc.
Qed.

Lemma after_split l ys : exists Q, ys ++ [l] = after l ys :: Q.
Proof. destruct ys as [|y ys]; [by exists []|by exists (ys ++ [l])]. Qed.

Lemma path_split l xs ys zs P Q :
  l :: xs = P ++ [before l xs] -> ys ++ [l] = after l ys :: Q ->
  l :: (xs ++ zs ++ ys) ++ [l] = P ++ before l xs :: zs ++ after l ys :: Q.
Proof.
  intros HP HQ. rewrite <- HQ, !app_assoc, <- app_assoc.
  rewrite (cons_middle (before l xs)), (app_assoc P), <- HP. simpl. by rewrite !app_assoc.
Qed.

Lemma nodup_split l xs ys P Q :
  NoDup (l :: xs ++ ys) -> l :: xs = P ++ [before l xs] -> ys ++ [l] = after l ys :: Q ->
  NoDup (P ++ [before l xs]) /\ NoDup (after l ys :: Q) /\
  (before l xs ∉ removelast (after l ys :: Q)) /\ (after l ys ∉ tail (P ++ [before l xs])).
Proof.
  intros Hnd HP HQ. rewrite <- HP, <- HQ.
  change (NoDup ((l :: xs) ++ ys)) in Hnd. apply NoDup_app in Hnd as (H1 & H2 & H3).
  split; [done|]. split; [|split].
  - apply NoDup_app. split; [done|]. split; [|apply NoDup_singleton]. set_solver.
  - rewrite removelast_snoc. apply H2. rewrite HP. set_solver.
  - simpl. destruct ys as [|y ys]; simpl.
    + apply NoDup_cons in H1. tauto.
    + set_solver.
Qed.

Lemma nodup_middle l (xs ys : list ptr) n :
  NoDup (l :: xs ++ n :: ys) <-> (n ∉ l :: xs ++ ys) /\ NoDup (l :: xs ++ ys).
Proof.
  change (l :: xs ++ n :: ys) with ((l :: xs) ++ n :: ys).
  by rewrite <- Permutation_middle, NoDup_cons.
Qed.

Lemma dlist_linked m m' l xs ys n :
  dlist m l (xs ++ ys) -> n ∉ l :: xs ++ ys -> n <> NULL ->
  linked_between m m' (before l xs) n (after l ys) -> dlist m' l (xs ++ n :: ys).
Proof.
  intros [Hc Hnd H0] Hn Hnull Hl.
  destruct (before_split l xs) as [P HP], (after_split l ys) as [Q HQ].
  destruct (nodup_split _ _ _ _ _ Hnd HP HQ) as (H1 & H2 & H3 & H4).
  pose proof (path_split _ _ _ [] _ _ HP HQ) as E0.
  pose proof (path_split _ _ _ [n] _ _ HP HQ) as E1. simpl in E0, E1.
  split.
  - rewrite E1. eapply chain_linked; try done.
    + rewrite <- E0. set_solver.
    + by rewrite <- E0.
  - by apply nodup_middle.
  - set_solver.
Qed.

Lemma dlist_unlinked m m' l xs ys n :
  dlist m l (xs ++ n :: ys) ->
  unlinked_between m m' (before l xs) n (after l ys) -> dlist m' l (xs ++ ys).
Proof.
  intros [Hc Hnd H0] Hl. apply nodup_middle in Hnd as [Hn Hnd].
  destruct (before_split l xs) as [P HP], (after_split l ys) as [Q HQ].
  destruct (nodup_split _ _ _ _ _ Hnd HP HQ) as (H1 & H2 & H3 & H4).
  pose proof (path_split _ _ _ [] _ _ HP HQ) as E0.
  pose proof (path_split _ _ _ [n] _ _ HP HQ) as E1. simpl in E0, E1.
  split; [|done|set_solver].
  rewrite E0. eapply chain_unlinked; try done.
  - rewrite <- E0. set_solver.
  - by rewrite <- E1.
Qed.

(** What the loads of a represented list return. *)
Lemma dlist_edges m l xs ys :
  dlist m l (xs ++ ys) -> edge m (before l xs) (after l ys).
Proof.
  intros [Hc _ _].
  destruct (before_split l xs) as [P HP], (after_split l ys) as [Q HQ].
  pose proof (path_split _ _ _ [] _ _ HP HQ) as E0. simpl in E0. rewrite E0 in Hc.
  rewrite chain_app, chain_cons in Hc. tauto.
Qed.

Lemma dlist_node m l xs n ys :
  dlist m l (xs ++ n :: ys) -> m n = Dnode (after l ys) (before l xs).
Proof.
  intros Hd. pose proof (dlist_edges _ _ xs (n :: ys) Hd) as [_ E1].
  replace (xs ++ n :: ys) with ((xs ++ [n]) ++ ys) in Hd by (by rewrite <- app_assoc).
  pose proof (dlist_edges _ _ _ _ Hd) as [E2 _].
  unfold before, after in *. rewrite last_snoc in E2. simpl in E1, E2.
  by destruct (m n); simpl in *; subst.
Qed.

Lemma dlist_head m l xs : dlist m l xs -> (m l).(next) = after l xs.
Proof. intros Hd. by destruct (dlist_edges m l [] xs Hd). Qed.

Lemma dlist_tail m l xs : dlist m l xs -> (m l).(prev) = before l xs.
Proof.
  intros Hd. rewrite <- (app_nil_r xs) in Hd. by destruct (dlist_edges m l xs [] Hd).
Qed.

(** ** Each operation implements the operation on lists *)

(** The stores of a linking or unlinking operation, by cases on the address. *)
Ltac stores := unfold set_next, set_prev, upd; split; intros; simpl; repeat (case_decide; simplify_eq/=; try done).

Lemma append_stores l n m : (m l).(prev) <> n -> l <> n ->
  linked_between m (sys_dlist_append l n m) (m l).(prev) n l.
Proof. intros. unfold sys_dlist_append. stores. Qed.

Lemma prepend_stores l n m : (m l).(next) <> n -> l <> n ->
  linked_between m (sys_dlist_prepend l n m) l n (m l).(next).
Proof. intros. unfold sys_dlist_prepend. stores. Qed.

Lemma insert_stores s n m : (m s).(prev) <> n -> s <> n ->
  linked_between m (sys_dlist_insert s n m) (m s).(prev) n s.
Proof. intros. unfold sys_dlist_insert. stores. Qed.

Lemma dequeue_stores n m :
  unlinked_between m (sys_dlist_dequeue n m) (m n).(prev) n (m n).(next).
Proof. unfold sys_dlist_dequeue. stores. Qed.

Lemma remove_stores n m :
  unlinked_between m (sys_dlist_remove n m) (m n).(prev) n (m n).(next).
Proof. unfold sys_dlist_remove, sys_dnode_init. stores. Qed.

Lemma before_elem l xs : before l xs ∈ l :: xs.
Proof. destruct (before_split l xs) as [P ->]. set_solver. Qed.

Lemma after_elem l ys : after l ys ∈ l :: ys.
Proof. destruct ys; set_solver. Qed.

Lemma dlist_init m l : l <> NULL -> dlist (sys_dlist_init l m) l [].
Proof.
  intros. split; [|apply NoDup_singleton|set_solver].
  apply chain_cons. split; [|done]. unfold edge, sys_dlist_init, set_next, set_prev.
  by rewrite !upd_eq.
Qed.

Section operations.
Context (m : mem) (l n : ptr).

Lemma dlist_append xs : dlist m l xs -> n ∉ l :: xs -> n <> NULL ->
  dlist (sys_dlist_append l n m) l (xs ++ [n]).
Proof.
  intros Hd Hn ?. pose proof (before_elem l xs). pose proof (dlist_tail m l xs Hd) as E.
  apply (dlist_linked m _ l xs [] n); rewrite ?app_nil_r; [done|done|done|].
  change (after l []) with l. rewrite <- E. apply append_stores; [rewrite E|]; set_solver.
Qed.

Lemma dlist_prepend xs : dlist m l xs -> n ∉ l :: xs -> n <> NULL ->
  dlist (sys_dlist_prepend l n m) l (n :: xs).
Proof.
  intros Hd Hn ?. pose proof (after_elem l xs). pose proof (dlist_head m l xs Hd) as E.
  apply (dlist_linked m _ l [] xs n); [done|done|done|].
  change (before l []) with l. rewrite <- E. apply prepend_stores; [rewrite E|]; set_solver.
Qed.

Lemma dlist_insert xs s ys : dlist m l (xs ++ s :: ys) -> n ∉ l :: xs ++ s :: ys -> n <> NULL ->
  dlist (sys_dlist_insert s n m) l (xs ++ n :: s :: ys).
Proof.
  intros Hd Hn ?. pose proof (before_elem l xs).
  pose proof (dlist_node _ _ _ _ _ Hd) as E.
  eapply dlist_linked; [done|done|done|]. change (after l (s :: ys)) with s.
  replace (before l xs) with (m s).(prev) by (by rewrite E).
  apply insert_stores; [rewrite E; simpl|]; set_solver.
Qed.

Lemma dlist_dequeue xs ys : dlist m l (xs ++ n :: ys) ->
  dlist (sys_dlist_dequeue n m) l (xs ++ ys).
Proof.
  intros Hd. eapply dlist_unlinked; [done|].
  pose proof (dequeue_stores n m) as H. by rewrite (dlist_node _ _ _ _ _ Hd) in H.
Qed.

Lemma dlist_remove xs ys : dlist m l (xs ++ n :: ys) ->
  dlist (sys_dlist_remove n m) l (xs ++ ys) /\
  sys_dnode_is_linked (sys_dlist_remove n m) n = false.
Proof.
  intros Hd. split.
  - eapply dlist_unlinked; [done|].
    pose proof (remove_stores n m) as H. by rewrite (dlist_node _ _ _ _ _ Hd) in H.
  - unfold sys_dnode_is_linked, sys_dlist_remove, sys_dnode_init, set_prev, set_next. simpl.
    autorewrite with store. simpl. autorewrite with store. done.
Qed.
End operations.

(** What the queries return: [NULL] stands for "no such node". *)
Definition ptr_of (o : option ptr) : ptr := default NULL o.

Section queries.
Context (m : mem) (l : ptr).

Lemma dlist_is_empty xs : dlist m l xs -> sys_dlist_is_empty m l = bool_decide (xs = []).
Proof.
  intros Hd. unfold sys_dlist_is_empty. rewrite (dlist_head _ _ _ Hd).
  destruct Hd as [_ Hnd _]. apply NoDup_cons in Hnd as [Hl _].
  destruct xs as [|x xs]; [by rewrite !bool_decide_eq_true_2|].
  rewrite !bool_decide_eq_false_2; [done|done|]. change (after l (x :: xs)) with x. set_solver.
Qed.

Lemma dlist_peek_head xs : dlist m l xs -> sys_dlist_peek_head m l = ptr_of (head xs).
Proof.
  intros Hd. unfold sys_dlist_peek_head. rewrite (dlist_is_empty xs), (dlist_head _ _ xs) by done.
  by destruct xs.
Qed.

Lemma dlist_peek_tail xs : dlist m l xs -> sys_dlist_peek_tail m l = ptr_of (last xs).
Proof.
  intros Hd. unfold sys_dlist_peek_tail. rewrite (dlist_is_empty xs), (dlist_tail _ _ xs) by done.
  case_bool_decide as Hx; [by subst|].
  unfold before. destruct (last xs) eqn:E; [done|]. by apply last_None in E.
Qed.

Lemma nodup_before xs n ys : NoDup (l :: xs ++ n :: ys) ->
  before l (xs ++ n :: ys) = n <-> ys = [].
Proof.
  intros Hnd. destruct (decide (ys = [])) as [->|Hne].
  - unfold before. rewrite last_snoc. done.
  - split; [|done]. intros Hb. exfalso.
    destruct (exists_last Hne) as (zs & z & ->).
    unfold before in Hb. rewrite app_comm_cons, app_assoc, last_snoc in Hb. simpl in Hb. subst z.
    change (NoDup ((l :: xs) ++ n :: zs ++ [n])) in Hnd.
    apply NoDup_app in Hnd as (_ & _ & Hnd). apply NoDup_cons in Hnd. set_solver.
Qed.

Lemma nodup_after xs n ys : NoDup (l :: xs ++ n :: ys) ->
  after l (xs ++ n :: ys) = n <-> xs = [].
Proof.
  intros Hnd. destruct xs as [|x xs]; [done|]. split; [|done].
  intros Hb. change (x = n) in Hb. subst x. simpl in Hnd.
  apply NoDup_cons in Hnd as [_ Hnd]. apply NoDup_cons in Hnd. set_solver.
Qed.

Lemma dlist_peek_next xs n ys : dlist m l (xs ++ n :: ys) ->
  sys_dlist_peek_next m l n = ptr_of (head ys).
Proof.
  intros Hd. unfold sys_dlist_peek_next, sys_dlist_peek_next_no_check.
  rewrite bool_decide_eq_false_2 by (intros ->; apply (dl_null _ _ _ Hd); set_solver).
  rewrite (dlist_tail _ _ _ Hd), (dlist_node _ _ _ _ _ Hd). simpl.
  pose proof (nodup_before xs n ys (dl_nodup _ _ _ Hd)) as E.
  case_bool_decide as Hb.
  - symmetry in Hb. apply E in Hb. by subst.
  - destruct ys as [|y ys]; [|done]. exfalso. apply Hb. symmetry. by apply E.
Qed.

Lemma dlist_peek_prev xs n ys : dlist m l (xs ++ n :: ys) ->
  sys_dlist_peek_prev m l n = ptr_of (last xs).
Proof.
  intros Hd. unfold sys_dlist_peek_prev, sys_dlist_peek_prev_no_check.
  rewrite bool_decide_eq_false_2 by (intros ->; apply (dl_null _ _ _ Hd); set_solver).
  rewrite (dlist_head _ _ _ Hd), (dlist_node _ _ _ _ _ Hd). simpl.
  pose proof (nodup_after xs n ys (dl_nodup _ _ _ Hd)) as E.
  case_bool_decide as Hb.
  - symmetry in Hb. apply E in Hb. by subst.
  - unfold before. destruct (last xs) eqn:El; [done|]. apply last_None in El.
    exfalso. apply Hb. symmetry. by apply E.
Qed.

Lemma dlist_is_linked xs n : dlist m l xs -> n ∈ xs -> sys_dnode_is_linked m n = true.
Proof.
  intros Hd Hn. apply list_elem_of_split in Hn as (xs1 & xs2 & ->).
  unfold sys_dnode_is_linked. rewrite (dlist_node _ _ _ _ _ Hd). simpl.
  rewrite bool_decide_eq_false_2; [done|]. intros E.
  pose proof (after_elem l xs2) as Ha. rewrite E in Ha. apply (dl_null _ _ _ Hd). set_solver.
Qed.

Lemma dlist_multiple xs : dlist m l xs ->
  sys_dlist_has_multiple_nodes m l = bool_decide (1 < Z.of_nat (length xs)).
Proof.
  intros Hd. unfold sys_dlist_has_multiple_nodes.
  rewrite (dlist_head _ _ _ Hd), (dlist_tail _ _ _ Hd).
  destruct xs as [|x [|y xs]]; [by rewrite bool_decide_eq_true_2..|].
  pose proof (nodup_before [] x (y :: xs) (dl_nodup _ _ _ Hd)) as E. simpl app in E.
  change (after l (x :: y :: xs)) with x.
  rewrite bool_decide_eq_false_2.
  - simpl. rewrite bool_decide_eq_true_2; [done|]. simpl. lia.
  - intros Hx. symmetry in Hx. by apply E in Hx.
Qed.
End queries.

(** The walking loops terminate within one iteration more than the list has
    nodes, and return what the list operation returns. *)
Section loops.
Context (m : mem) (l : ptr).

Lemma len_loop_spec fuel xs ys len :
  dlist m l (xs ++ ys) -> (length ys < fuel)%nat ->
  len_loop fuel m l (ptr_of (head ys)) len = Some (len + length ys)%nat.
Proof.
  revert xs ys len. induction fuel as [|fuel IH]; intros xs ys len Hd Hf; [lia|].
  destruct ys as [|y ys]; simpl; [f_equal; lia|].
  rewrite bool_decide_eq_false_2 by (intros ->; apply (dl_null _ _ _ Hd); set_solver).
  rewrite (dlist_peek_next _ _ _ _ _ Hd). rewrite (IH (xs ++ [y])).
  - f_equal. lia.
  - by rewrite <- app_assoc.
  - simpl in Hf. lia.
Qed.

Lemma insert_at_scan_spec cond fuel xs ys :
  dlist m l (xs ++ ys) -> (length ys < fuel)%nat ->
  exists ys1 ys2, ys = ys1 ++ ys2 /\
    insert_at_scan fuel cond m l (ptr_of (head ys)) = Some (ptr_of (head ys2)) /\
    forall n, insert_when (fun x => negb (cond x =? 0)) n ys = ys1 ++ n :: ys2.
Proof.
  revert xs ys. induction fuel as [|fuel IH]; intros xs ys Hd Hf; [lia|].
  destruct ys as [|y ys]; simpl; [by exists [], []|].
  rewrite bool_decide_eq_false_2 by (intros ->; apply (dl_null _ _ _ Hd); set_solver).
  destruct (cond y =? 0); simpl; [|by exists [], (y :: ys)].
  rewrite (dlist_peek_next _ _ _ _ _ Hd).
  destruct (IH (xs ++ [y]) ys) as (ys1 & ys2 & -> & E & Hi).
  - by rewrite <- app_assoc.
  - simpl in Hf. lia.
  - exists (y :: ys1), ys2. split; [done|]. split; [done|]. intros n. by rewrite Hi.
Qed.
End loops.

Lemma dlist_get m l x xs : dlist m l (x :: xs) ->
  let (r, m') := sys_dlist_get l m in
  r = x /\ dlist m' l xs /\ sys_dnode_is_linked m' x = false.
Proof.
  intros Hd. unfold sys_dlist_get. rewrite (dlist_is_empty _ _ _ Hd).
  rewrite bool_decide_eq_false_2 by done. rewrite (dlist_head _ _ _ Hd).
  split; [done|]. by apply (dlist_remove m l x [] xs).
Qed.

Lemma dlist_len m l xs : dlist m l xs -> sys_dlist_len (S (length xs)) m l = Some (length xs).
Proof.
  intros Hd. unfold sys_dlist_len. rewrite (dlist_peek_head _ _ _ Hd).
  by rewrite (len_loop_spec _ _ _ [] xs) by (done || lia).
Qed.

Lemma dlist_insert_at m l n xs cond : dlist m l xs -> n ∉ l :: xs -> n <> NULL ->
  exists m', sys_dlist_insert_at (S (length xs)) l n cond m = Some m' /\
    dlist m' l (insert_when (fun x => negb (cond x =? 0)) n xs).
Proof.
  intros Hd Hn Hnull. unfold sys_dlist_insert_at. rewrite (dlist_is_empty _ _ _ Hd).
  case_bool_decide as Hx.
  - subst. eexists. split; [done|]. by apply (dlist_append m l n []).
  - rewrite (dlist_peek_head _ _ _ Hd).
    destruct (insert_at_scan_spec m l cond (S (length xs)) [] xs) as (ys1 & ys2 & -> & -> & ->);
      [done|lia|].
    destruct ys2 as [|y ys2]; simpl.
    + eexists. split; [done|]. rewrite app_nil_r in *. by apply dlist_append.
    + rewrite bool_decide_eq_false_2 by (intros ->; apply (dl_null _ _ _ Hd); set_solver).
      eexists. split; [done|]. by apply dlist_insert.
Qed.

(** ** Moving a range of nodes to another list *)

(** The memory after a range [start .. last] that sat between [p] and [q] has
    been moved between the adjacent nodes [a] and [b] of another list. *)
Definition moved_between (m m' : mem) (p q a b start last : ptr) : Prop :=
  (forall x, (m' x).(next) = if decide (x = a) then start else if decide (x = last) then b
                             else if decide (x = p) then q else (m x).(next)) /\
  (forall x, (m' x).(prev) = if decide (x = b) then last else if decide (x = start) then a
                             else if decide (x = q) then p else (m x).(prev)).

Lemma range_append_stores dest start last m :
  start <> dest -> last <> (m dest).(prev) -> (m start).(prev) <> last ->
  (m start).(prev) <> (m dest).(prev) -> (m last).(next) <> dest -> (m last).(next) <> start ->
  moved_between m (sys_dlist_range_append dest start last m)
    (m start).(prev) (m last).(next) (m dest).(prev) dest start last.
Proof. intros. unfold sys_dlist_range_append. stores. Qed.

Lemma range_prepend_stores dest start last m :
  last <> dest -> start <> (m dest).(next) -> (m start).(prev) <> last ->
  (m start).(prev) <> dest -> (m last).(next) <> (m dest).(next) -> (m last).(next) <> start ->
  moved_between m (sys_dlist_range_prepend dest start last m)
    (m start).(prev) (m last).(next) dest (m dest).(next) start last.
Proof. intros. unfold sys_dlist_range_prepend. stores. Qed.

Section move.
Context (m m' : mem) (src dst : ptr) (xs rs ys ds1 ds2 : list ptr) (start last : ptr).
Context (Hsrc : dlist m src (xs ++ (start :: rs) ++ ys)).
Context (Hlast : last = before start rs).
Context (Hdst : dlist m dst (ds1 ++ ds2)).
Context (Hdisj : NoDup ((src :: xs ++ (start :: rs) ++ ys) ++ dst :: ds1 ++ ds2)).
Context (Hmv : moved_between m m' (before src xs) (after src ys)
                 (before dst ds1) (after dst ds2) start last).

(** A stretch of a path none of whose sources and targets is rewritten. *)
Lemma move_frame p :
  (forall x, x ∈ removelast p -> x <> before dst ds1 /\ x <> last /\ x <> before src xs) ->
  (forall x, x ∈ tail p -> x <> after dst ds2 /\ x <> start /\ x <> after src ys) ->
  chain m p -> chain m' p.
Proof.
  intros Hs Ht. apply chain_frame; destruct Hmv as [Hn Hp].
  - intros x Hx. destruct (Hs x Hx) as (? & ? & ?). rewrite Hn. by rewrite !decide_False.
  - intros x Hx. destruct (Ht x Hx) as (? & ? & ?). rewrite Hp. by rewrite !decide_False.
Qed.

(** The pieces the two paths are cut into are pairwise disjoint. *)
Lemma move_disjoint :
  NoDup (src :: xs ++ ys) /\ NoDup (start :: rs) /\ NoDup (dst :: ds1 ++ ds2) /\
  (forall x, x ∈ start :: rs -> x ∈ src :: xs ++ ys -> False) /\
  (forall x, x ∈ dst :: ds1 ++ ds2 -> x ∈ start :: rs -> False) /\
  (forall x, x ∈ dst :: ds1 ++ ds2 -> x ∈ src :: xs ++ ys -> False).
Proof using Hdisj.
  clear Hmv Hsrc Hdst Hlast.
  apply NoDup_app in Hdisj as (H1 & H2 & H3).
  replace (src :: xs ++ (start :: rs) ++ ys) with ((src :: xs) ++ (start :: rs) ++ ys) in H1, H2 by done.
  rewrite (Permutation_app_comm (start :: rs)), (app_assoc (src :: xs)) in H1.
  apply NoDup_app in H1 as (H1 & H4 & H5).
  split; [done|]. split; [done|]. split; [done|].
  split; [|split]; intros x Hx Hx'.
  - by apply (H4 x).
  - apply (H2 x); [set_solver +Hx'|done].
  - apply (H2 x); [set_solver +Hx'|done].
Qed.

Lemma move_marks :
  before dst ds1 ∈ dst :: ds1 ++ ds2 /\ after dst ds2 ∈ dst :: ds1 ++ ds2 /\
  before src xs ∈ src :: xs ++ ys /\ after src ys ∈ src :: xs ++ ys /\
  start ∈ start :: rs /\ last ∈ start :: rs.
Proof using Hlast.
  clear Hmv Hsrc Hdst Hdisj.
  pose proof (before_elem dst ds1) as H1. pose proof (after_elem dst ds2) as H2.
  pose proof (before_elem src xs) as H3. pose proof (after_elem src ys) as H4.
  pose proof (before_elem start rs) as H5. rewrite Hlast. repeat split; [..|done];
  set_solver +H1 H2 H3 H4.
Qed.

(** One piece: its nodes lie in one of the three disjoint parts, and the
    nodes rewritten in that part are no source (target) of the piece. *)
Lemma move_piece p :
  (forall x, x ∈ p -> x ∈ src :: xs ++ ys) /\
    (before src xs ∉ removelast p) /\ (after src ys ∉ tail p) \/
  (forall x, x ∈ p -> x ∈ start :: rs) /\ (last ∉ removelast p) /\ (start ∉ tail p) \/
  (forall x, x ∈ p -> x ∈ dst :: ds1 ++ ds2) /\
    (before dst ds1 ∉ removelast p) /\ (after dst ds2 ∉ tail p) ->
  chain m p -> chain m' p.
Proof.
  destruct move_disjoint as (_ & _ & _ & S1 & S2 & S3).
  destruct move_marks as (M1 & M2 & M3 & M4 & M5 & M6).
  intros Hp. apply move_frame; intros x Hx.
  - assert (Hx' : x ∈ p) by (destruct p; [set_solver +Hx|by apply removelast_elem in Hx]).
    destruct Hp as [(Hi & H1 & _)|[(Hi & H1 & _)|(Hi & H1 & _)]];
      specialize (Hi x Hx'); repeat split; intros ->; by eauto.
  - assert (Hx' : x ∈ p) by (by apply tail_elem).
    destruct Hp as [(Hi & _ & H1)|[(Hi & _ & H1)|(Hi & _ & H1)]];
      specialize (Hi x Hx'); repeat split; intros ->; by eauto.
Qed.

Lemma move_edges :
  edge m' (before src xs) (after src ys) /\ edge m' (before dst ds1) start /\
  edge m' last (after dst ds2).
Proof.
  destruct move_disjoint as (_ & _ & _ & S1 & S2 & S3).
  destruct move_marks as (M1 & M2 & M3 & M4 & M5 & M6). destruct Hmv as [Hn Hp].
  assert (last <> before src xs) by apart. assert (start <> after src ys) by apart.
  assert (before dst ds1 <> before src xs) by apart. assert (after dst ds2 <> after src ys) by apart.
  assert (before dst ds1 <> last) by apart. assert (after dst ds2 <> start) by apart.
  split; [|split]; (split; [rewrite Hn|rewrite Hp]); repeat case_decide; congruence.
Qed.

Lemma move_src : dlist m' src (xs ++ ys).
Proof.
  destruct move_disjoint as (N1 & _ & _ & _). destruct move_edges as (Ed & _).
  destruct (before_split src xs) as [P HP], (after_split src ys) as [Q HQ].
  destruct (nodup_split _ _ _ _ _ N1 HP HQ) as (H1 & H2 & H3 & H4).
  pose proof (path_split _ _ _ (start :: rs) _ _ HP HQ) as E1.
  pose proof (path_split _ _ _ [] _ _ HP HQ) as E0. simpl in E0.
  destruct Hsrc as [Hc _ H0]. split; [|done|set_solver +H0].
  rewrite E1, (chain_app m P) in Hc. rewrite E0, (chain_app m' P).
  destruct Hc as [Hc1 Hc2]. rewrite app_comm_cons, chain_app in Hc2. destruct Hc2 as [_ Hc2].
  rewrite chain_cons. split; [|split; [done|]].
  - eapply move_piece; [left|done]. rewrite removelast_snoc. split; [|split; [|done]].
    + intros x. rewrite <- HP. set_solver +.
    + apply NoDup_app in H1. set_solver +H1.
  - eapply move_piece; [left|done]. split; [|split; [done|]].
    + intros x. rewrite <- HQ. set_solver +.
    + by apply NoDup_cons in H2 as [H2 _].
Qed.

Lemma move_dst : dlist m' dst (ds1 ++ (start :: rs) ++ ds2).
Proof.
  destruct move_disjoint as (N1 & N2 & N3 & S1 & S2 & _). destruct move_edges as (_ & Ed1 & Ed2).
  destruct (before_split dst ds1) as [P HP], (after_split dst ds2) as [Q HQ].
  destruct (before_split start rs) as [R HR]. rewrite <- Hlast in HR.
  destruct (nodup_split _ _ _ _ _ N3 HP HQ) as (H1 & H2 & H3 & H4).
  pose proof (path_split _ _ _ (start :: rs) _ _ HP HQ) as E1.
  pose proof (path_split _ _ _ [] _ _ HP HQ) as E0. simpl in E0.
  split.
  - rewrite E1. destruct Hdst as [Hc _ _]. rewrite E0 in Hc.
    rewrite (chain_app _ P), chain_cons in Hc. destruct Hc as (Hc1 & _ & Hc2).
    rewrite (chain_app _ P). split.
    { eapply move_piece; [do 2 right|done]. rewrite removelast_snoc. split; [|split; [|done]].
      - intros x. rewrite <- HP. set_solver +.
      - apply NoDup_app in H1. set_solver +H1. }
    change (before dst ds1 :: (start :: rs) ++ ?z) with (before dst ds1 :: start :: rs ++ z).
    rewrite chain_cons. split; [done|]. rewrite app_comm_cons, HR, <- app_assoc.
    change ([last] ++ ?z) with (last :: z). rewrite chain_app, chain_cons, <- HR.
    split; [|split; [done|]].
    + apply move_piece.
      * right; left. split; [done|]. split.
        -- rewrite HR, removelast_snoc. rewrite HR in N2. apply NoDup_app in N2. set_solver +N2.
        -- by apply NoDup_cons in N2 as [N2 _].
      * destruct Hsrc as [Hc _ _].
        destruct (before_split src xs) as [P' HP'], (after_split src ys) as [Q' HQ'].
        rewrite (path_split _ _ _ (start :: rs) _ _ HP' HQ') in Hc.
        rewrite chain_app in Hc. destruct Hc as [_ Hc]. simpl app in Hc.
        rewrite chain_cons in Hc. destruct Hc as [_ Hc].
        rewrite app_comm_cons, HR, <- app_assoc in Hc. simpl app in Hc.
        rewrite chain_app in Hc. rewrite HR. tauto.
    + eapply move_piece; [do 2 right|done]. split; [|split; [done|]].
      * intros x. rewrite <- HQ. set_solver +.
      * by apply NoDup_cons in H2 as [H2 _].
  - replace (dst :: ds1 ++ (start :: rs) ++ ds2) with ((dst :: ds1) ++ (start :: rs) ++ ds2) by done.
    rewrite (Permutation_app_comm (start :: rs)), (app_assoc (dst :: ds1)).
    apply NoDup_app. split; [done|]. split; [|done]. intros x Hx Hx'. by apply (S2 x).
  - destruct Hsrc as [_ _ H01], Hdst as [_ _ H02]. set_solver +H01 H02.
Qed.
End move.

(** The loads of the range operations: the nodes around the range. *)
Lemma range_loads m src xs start rs ys :
  dlist m src (xs ++ (start :: rs) ++ ys) ->
  (m start).(prev) = before src xs /\ (m (before start rs)).(next) = after src ys.
Proof.
  intros Hd. split.
  - by rewrite (dlist_node m src xs start (rs ++ ys)).
  - destruct (before_split start rs) as [R HR].
    rewrite (dlist_node m src (xs ++ R) (before start rs) ys); [done|].
    rewrite HR, <- !app_assoc in Hd. by rewrite <- app_assoc.
Qed.

(** The two lists of a range move are well formed and share no node. *)
Definition two_lists (m : mem) src (xs rng ys : list ptr) dst (ds : list ptr) : Prop :=
  dlist m src (xs ++ rng ++ ys) /\ dlist m dst ds /\
  NoDup ((src :: xs ++ rng ++ ys) ++ dst :: ds).

Lemma range_append_lists m src xs start rs ys dst ds :
  two_lists m src xs (start :: rs) ys dst ds ->
  let m' := sys_dlist_range_append dst start (before start rs) m in
  dlist m' src (xs ++ ys) /\ dlist m' dst (ds ++ start :: rs).
Proof.
  intros (Hs & Hd & Hdisj) m'. destruct (range_loads _ _ _ _ _ _ Hs) as [L1 L2].
  rewrite <- (app_nil_r ds) in Hdisj, Hd.
  destruct (move_disjoint src dst xs rs ys ds [] start Hdisj) as (_ & N2 & _ & S1 & S2 & S3).
  destruct (move_marks src dst xs rs ys ds [] start _ eq_refl) as (M1 & M2 & M3 & M4 & M5 & M6).
  assert (Hmv : moved_between m m' (before src xs) (after src ys) (before dst ds) (after dst [])
            start (before start rs)).
  { change (after dst []) with dst in *. rewrite app_nil_r in Hd.
    rewrite <- L1, <- L2, <- (dlist_tail m dst ds Hd). apply range_append_stores;
    rewrite ?L1, ?L2, ?(dlist_tail m dst ds Hd); apart. }
  split; [exact (move_src m m' src dst xs rs ys ds [] start _ Hs eq_refl Hdisj Hmv)|].
  pose proof (move_dst m m' src dst xs rs ys ds [] start _ Hs eq_refl Hd Hdisj Hmv) as H.
  by rewrite !app_nil_r in H.
Qed.

Lemma range_prepend_lists m src xs start rs ys dst ds :
  two_lists m src xs (start :: rs) ys dst ds ->
  let m' := sys_dlist_range_prepend dst start (before start rs) m in
  dlist m' src (xs ++ ys) /\ dlist m' dst (start :: rs ++ ds).
Proof.
  intros (Hs & Hd & Hdisj) m'. destruct (range_loads _ _ _ _ _ _ Hs) as [L1 L2].
  destruct (move_disjoint src dst xs rs ys [] ds start Hdisj) as (_ & N2 & _ & S1 & S2 & S3).
  destruct (move_marks src dst xs rs ys [] ds start _ eq_refl) as (M1 & M2 & M3 & M4 & M5 & M6).
  assert (Hmv : moved_between m m' (before src xs) (after src ys) (before dst []) (after dst ds)
            start (before start rs)).
  { change (before dst []) with dst in *.
    rewrite <- L1, <- L2, <- (dlist_head m dst ds Hd). apply range_prepend_stores;
    rewrite ?L1, ?L2, ?(dlist_head m dst ds Hd); apart. }
  split; [exact (move_src m m' src dst xs rs ys [] ds start _ Hs eq_refl Hdisj Hmv)|].
  exact (move_dst m m' src dst xs rs ys [] ds start _ Hs eq_refl Hd Hdisj Hmv).
Qed.

(** ** Properties *)


(** A list of two nodes, 1 and 2, rooted at 9. *)
Definition example_mem : mem :=
  sys_dlist_append 9 2 (sys_dlist_append 9 1 (sys_dlist_init 9 (fun _ => Dnode NULL NULL))).

Lemma example_dlist : dlist example_mem 9 [1; 2]%nat.
Proof.
  apply (dlist_append _ _ _ [1%nat]); [|set_solver|done].
  apply (dlist_append _ _ _ []); [by apply dlist_init|set_solver|done].
Qed.


(** Every query of a [sys_dlist_t] answers about the list: head, tail, next
    and previous node ([NULL] at the ends), emptiness, "more than one node",
    link state, and the length, whose loop terminates. *)
Theorem dlist_queries_agree (m : mem) (l : ptr) (xs : list ptr) :
  dlist m l xs ->
  sys_dlist_is_empty m l = bool_decide (xs = []) /\
  sys_dlist_peek_head m l = ptr_of (head xs) /\
  sys_dlist_peek_tail m l = ptr_of (last xs) /\
  sys_dlist_has_multiple_nodes m l = bool_decide (1 < Z.of_nat (length xs)) /\
  sys_dlist_len (S (length xs)) m l = Some (length xs) /\
  (forall xs1 n xs2, xs = xs1 ++ n :: xs2 ->
     sys_dlist_peek_next m l n = ptr_of (head xs2) /\
     sys_dlist_peek_prev m l n = ptr_of (last xs1) /\
     sys_dnode_is_linked m n = true).
Proof.
  intros Hd. split; [by apply dlist_is_empty|]. split; [by apply dlist_peek_head|].
  split; [by apply dlist_peek_tail|]. split; [by apply dlist_multiple|].
  split; [by apply dlist_len|]. intros xs1 n xs2 ->.
  split; [by eapply dlist_peek_next|]. split; [by eapply dlist_peek_prev|].
  eapply dlist_is_linked; [done|set_solver].
Qed.

Lemma dlist_queries_agree_witness :
  sys_dlist_peek_head example_mem 9 = 1%nat /\ sys_dlist_len 3 example_mem 9 = Some 2%nat.
Proof.
  destruct (dlist_queries_agree example_mem 9 [1; 2]%nat example_dlist)
    as (_ & H1 & _ & _ & H2 & _). split; [exact H1|exact H2].
Defined.

(** Moving a range of nodes: whatever surrounds the range, the source list
    keeps the other nodes in order and the destination list gets the range, in
    order, at its tail (append) or at its head (prepend). *)
Theorem dlist_range_moves (m : mem) src xs start rs ys dst ds :
  two_lists m src xs (start :: rs) ys dst ds ->
  (dlist (sys_dlist_range_append dst start (before start rs) m) src (xs ++ ys) /\
   dlist (sys_dlist_range_append dst start (before start rs) m) dst (ds ++ start :: rs)) /\
  (dlist (sys_dlist_range_prepend dst start (before start rs) m) src (xs ++ ys) /\
   dlist (sys_dlist_range_prepend dst start (before start rs) m) dst (start :: rs ++ ds)).
Proof. intros H. split; [by apply range_append_lists|by apply range_prepend_lists]. Qed.

Definition example_mem2 : mem := sys_dlist_init 8 example_mem.

Lemma example_two_lists : two_lists example_mem2 9 [] [1; 2]%nat [] 8 [].
Proof.
  split; [|split].
  - split; [|repeat constructor; set_solver|set_solver].
    repeat (apply chain_cons; split; [split; reflexivity|]). done.
  - by apply dlist_init.
  - repeat constructor; set_solver.
Qed.

Lemma dlist_range_moves_witness :
  dlist (sys_dlist_range_append 8 1 2 example_mem2) 8 [1; 2]%nat.
Proof.
  destruct (dlist_range_moves example_mem2 9 [] 1 [2%nat] [] 8 [] example_two_lists) as ((_ & H) & _).
  exact H.
Defined.
