(* ===== verification/Slist.v ===== *)
(** Singly-linked lists: include/zephyr/sys/slist.h and sflist.h, both generated by
    the macros of list_gen.h.

    [GenNode] is what the macros use of a node: its link and how to set it.  Plain
    nodes hold the link, flagged nodes a word with the link and, in the low bits that
    alignment leaves free, flags.  The operations are written once over the class, as
    the macros are, and proved to implement the operations on lists. *)

From S2P Require Import Prelude.

#[local] Open Scope Z_scope.

Definition NULL : Z := 0.
(** Memory maps the address of a word to its value. *)
Definition words := Z -> Z.

Class GenNode := {
  next_peek : words -> Z -> Z;
  next_set : Z -> Z -> words -> words;
  flags_of : words -> Z -> Z;
  is_node : Z -> Prop;
  node_not_null n : is_node n -> n <> NULL;
  next_set_eq n c m : is_node n -> is_node c \/ c = NULL -> next_peek (next_set n c m) n = c;
  next_set_ne n c m x : x <> n -> next_set n c m x = m x;
  next_peek_word m m' n : m n = m' n -> next_peek m n = next_peek m' n;
  flags_word m m' n : m n = m' n -> flags_of m n = flags_of m' n;
  flags_kept n c m : is_node n -> is_node c \/ c = NULL -> flags_of (next_set n c m) n = flags_of m n
}.

(** ** The operations *)

Record sys_list := Sys_list { head : Z; tail : Z }.

Section ops.
Context `{GenNode}.

Definition sys_list_init : sys_list := Sys_list NULL NULL.
Definition head_set (l : sys_list) (n : Z) : sys_list := Sys_list n l.(tail).
Definition tail_set (l : sys_list) (n : Z) : sys_list := Sys_list l.(head) n.
Definition peek_head (l : sys_list) : Z := l.(head).
Definition peek_tail (l : sys_list) : Z := l.(tail).
Definition is_empty (l : sys_list) : bool := peek_head l =? NULL.
Definition peek_next_no_check (m : words) (n : Z) : Z := next_peek m n.
Definition peek_next (m : words) (n : Z) : Z := if negb (n =? NULL) then peek_next_no_check m n else NULL.

Definition prepend (l : sys_list) (n : Z) (m : words) : sys_list * words :=
  let m := next_set n (peek_head l) m in
  let l := head_set l n in
  (if peek_tail l =? NULL then tail_set l (peek_head l) else l, m).

Definition append (l : sys_list) (n : Z) (m : words) : sys_list * words :=
  let m := next_set n NULL m in
  if peek_tail l =? NULL then (head_set (tail_set l n) n, m)
  else let m := next_set (peek_tail l) n m in (tail_set l n, m).

Definition append_list (l : sys_list) (h t : Z) (m : words) : sys_list * words :=
  if negb (h =? NULL) && negb (t =? NULL) then
    let '(l, m) := if peek_tail l =? NULL then (head_set l h, m) else (l, next_set (peek_tail l) h m) in
    (tail_set l t, m)
  else (l, m).

(** Both lists, the second one emptied. *)
Definition merge_list (l l2 : sys_list) (m : words) : sys_list * sys_list * words :=
  let '(l, m) := append_list l (peek_head l2) (peek_tail l2) m in (l, sys_list_init, m).

Definition insert (l : sys_list) (prev n : Z) (m : words) : sys_list * words :=
  if prev =? NULL then prepend l n m
  else if next_peek m prev =? NULL then append l n m
  else let m := next_set n (next_peek m prev) m in (l, next_set prev n m).

Definition get_not_empty (l : sys_list) (m : words) : Z * sys_list :=
  let n := peek_head l in
  let l := head_set l (next_peek m n) in
  (n, if peek_tail l =? n then tail_set l (peek_head l) else l).
Definition get (l : sys_list) (m : words) : Z * sys_list := if is_empty l then (NULL, l) else get_not_empty l m.

Definition remove (l : sys_list) (prev_node n : Z) (m : words) : sys_list * words :=
  let '(l, m) :=
    if prev_node =? NULL then
      let l := head_set l (next_peek m n) in
      (if peek_tail l =? n then tail_set l (peek_head l) else l, m)
    else
      let m := next_set prev_node (next_peek m n) m in
      (if peek_tail l =? n then tail_set l prev_node else l, m) in
  (l, next_set n NULL m).

(** The loops of the macros; [None] is a loop that did not end within the fuel. *)
Fixpoint find_loop (fuel : nat) (m : words) (test prev n : Z) : option (bool * Z) :=
  match fuel with
  | O => None
  | S fuel =>
      if test =? NULL then Some (false, prev)
      else if test =? n then Some (true, prev)
      else find_loop fuel m (peek_next m test) test n
  end.

Definition find (fuel : nat) (l : sys_list) (n : Z) (m : words) : option (bool * Z) :=
  find_loop fuel m (peek_head l) NULL n.

Definition find_and_remove (fuel : nat) (l : sys_list) (n : Z) (m : words) : option (bool * sys_list * words) :=
  match find_loop fuel m (peek_head l) NULL n with
  | Some (true, prev) => let '(l, m) := remove l prev n m in Some (true, l, m)
  | Some (false, _) => Some (false, l, m)
  | None => None
  end.

Fixpoint len_loop (fuel : nat) (m : words) (node : Z) (n : nat) : option nat :=
  match fuel with
  | O => None
  | S fuel => if node =? NULL then Some n else len_loop fuel m (peek_next m node) (S n)
  end.
Definition length_of (fuel : nat) (l : sys_list) (m : words) : option nat := len_loop fuel m (peek_head l) 0.

(** ** Lists in memory *)

(** The nodes [xs], each linked to the next and the last one to [e]. *)
Fixpoint chain (m : words) (h : Z) (xs : list Z) (e : Z) : Prop :=
  match xs with [] => h = e | x :: xs => h = x /\ is_node x /\ chain m (next_peek m x) xs e end.

Record linked (m : words) (l : sys_list) (xs : list Z) : Prop := {
  lk_chain : chain m l.(head) xs NULL;
  lk_tail : l.(tail) = default NULL (last xs);
  lk_nodup : NoDup xs
}.

Lemma next_peek_ne n c m x : x <> n -> next_peek (next_set n c m) x = next_peek m x.
Proof. intros Hx. apply next_peek_word. by apply next_set_ne. Qed.

Lemma chain_nodes m h xs e : chain m h xs e -> Forall is_node xs.
Proof. revert h. induction xs as [|x xs IH]; intros h Hc; [constructor|]. destruct Hc as (-> & Hx & Hc). constructor; eauto. Qed.

Lemma schain_app m h xs ys e : chain m h (xs ++ ys) e <-> exists h', chain m h xs h' /\ chain m h' ys e.
Proof.
  revert h. induction xs as [|x xs IH]; intros h; simpl.
  - split; [eauto|]. by intros (h' & -> & ?).
  - rewrite IH. split; [intros (-> & Hx & h' & H1 & H2)|intros (h' & (-> & Hx & H1) & H2)]; eauto 6.
Qed.

Lemma chain_ext m m' h xs e : (forall x, x ∈ xs -> m x = m' x) -> chain m h xs e -> chain m' h xs e.
Proof.
  revert h. induction xs as [|x xs IH]; intros h Hm Hc; [done|]. destruct Hc as (-> & Hx & Hc). split; [done|]. split; [done|].
  rewrite <- (next_peek_word m m') by (apply Hm; set_solver). apply IH; [|done]. intros. apply Hm. set_solver.
Qed.

Lemma chain_set m h xs e n c : n ∉ xs -> chain m h xs e -> chain (next_set n c m) h xs e.
Proof. intros Hn. apply chain_ext. intros x Hx. symmetry. apply next_set_ne. by intros ->. Qed.

(** A chain that ends in a node, seen from its last node. *)
Lemma chain_snoc m h xs x e : chain m h (xs ++ [x]) e <-> chain m h xs x /\ is_node x /\ next_peek m x = e.
Proof.
  rewrite schain_app. simpl. split.
  - intros (h' & H1 & -> & H2 & H3). done.
  - intros (H1 & H2 & H3). eauto.
Qed.

Lemma chain_head m h xs : chain m h xs NULL -> h = default NULL (list.head xs).
Proof. destruct xs; simpl; [done|]. by intros (-> & _). Qed.

Lemma head_null m h xs : chain m h xs NULL -> h = NULL <-> xs = [].
Proof.
  destruct xs as [|x xs]; [done|]. intros (-> & Hx & _). pose proof (node_not_null _ Hx). split; done.
Qed.

Lemma tail_null xs : Forall is_node xs -> default NULL (last xs) = NULL <-> xs = [].
Proof.
  intros Hn. destruct xs as [|x xs]; [done|]. destruct (last (x :: xs)) as [y|] eqn:E; [|by apply last_None in E].
  simpl. assert (Hy : is_node y) by (rewrite Forall_forall in Hn; apply Hn; rewrite last_lookup in E; by eapply list_elem_of_lookup_2).
  pose proof (node_not_null _ Hy). split; done.
Qed.

Lemma linked_nodes m l xs : linked m l xs -> Forall is_node xs.
Proof. intros [Hc _ _]. by eapply chain_nodes. Qed.

Lemma linked_tail_eqb m l xs : linked m l xs -> (peek_tail l =? NULL) = bool_decide (xs = []).
Proof.
  intros Hl. pose proof (tail_null xs (linked_nodes _ _ _ Hl)) as Ht. rewrite <- (lk_tail _ _ _ Hl) in Ht. unfold peek_tail.
  destruct (Z.eqb_spec (tail l) NULL), (bool_decide_reflect (xs = [])); tauto.
Qed.

Lemma is_empty_ok m l xs : linked m l xs -> is_empty l = bool_decide (xs = []).
Proof.
  intros Hl. pose proof (head_null _ _ _ (lk_chain _ _ _ Hl)) as Ht. unfold is_empty, peek_head.
  destruct (Z.eqb_spec (head l) NULL), (bool_decide_reflect (xs = [])); tauto.
Qed.

Lemma init_linked m : linked m sys_list_init [].
Proof. split; [done|done|constructor]. Qed.

Lemma prepend_ok m l xs n : linked m l xs -> is_node n -> n ∉ xs ->
  linked (prepend l n m).2 (prepend l n m).1 (n :: xs) /\ (forall x, x <> n -> (prepend l n m).2 x = m x).
Proof.
  intros Hl Hn Hni. pose proof (linked_tail_eqb _ _ _ Hl) as Ht. pose proof (head_null _ _ _ (lk_chain _ _ _ Hl)) as Hh.
  pose proof (linked_nodes _ _ _ Hl) as Hns. destruct Hl as [H1 H2 H3]. unfold prepend. cbv zeta. cbn [fst snd].
  change (peek_tail (head_set l n)) with (peek_tail l). rewrite Ht.
  assert (Hx : is_node (head l) \/ head l = NULL) by (destruct xs; [right; tauto|left; destruct H1 as (-> & ? & _); done]).
  split; [|intros x Hx'; by apply next_set_ne]. split.
  - assert (E : head (if bool_decide (xs = []) then tail_set (head_set l n) (peek_head (head_set l n)) else head_set l n) = n)
      by (by destruct (bool_decide _)). rewrite E. split; [done|]. split; [done|].
    rewrite next_set_eq by done. by apply chain_set.
  - destruct (bool_decide_reflect (xs = [])) as [->|Hne]; [done|]. simpl. rewrite H2. by destruct xs.
  - by constructor.
Qed.

Lemma append_ok m l xs n : linked m l xs -> is_node n -> n ∉ xs ->
  linked (append l n m).2 (append l n m).1 (xs ++ [n]) /\ (forall x, x <> n -> x ∉ xs -> (append l n m).2 x = m x).
Proof.
  intros Hl Hn Hni. pose proof (linked_tail_eqb _ _ _ Hl) as Ht. pose proof (linked_nodes _ _ _ Hl) as Hns.
  destruct Hl as [H1 H2 H3]. unfold append. cbv zeta. rewrite Ht.
  destruct (bool_decide_reflect (xs = [])) as [->|Hne]; cbn [fst snd].
  { split; [|intros x Hx _; by apply next_set_ne]. split; [|done|repeat constructor; set_solver].
    split; [done|]. split; [done|]. apply next_set_eq; [done|by right]. }
  destruct (exists_last Hne) as (ys & y & ->). rewrite last_snoc in H2. simpl in H2. unfold peek_tail. rewrite H2.
  apply Forall_app in Hns as [_ Hy]. apply Forall_cons in Hy as [Hy _]. apply chain_snoc in H1 as (H1 & _ & H4).
  apply NoDup_app in H3 as (H3 & H5 & H6). assert (Hyn : y <> n) by set_solver. split.
  - split; [|by rewrite last_snoc|].
    + rewrite schain_app. exists n. split; [apply chain_snoc; split; [|split; [done|]]|].
      * do 2 (apply chain_set; [set_solver|]). done.
      * apply next_set_eq; [done|by left].
      * split; [done|]. split; [done|]. cbn [chain]. rewrite next_peek_ne by done.
        apply next_set_eq; [done|by right].
    + apply NoDup_app. split; [by apply NoDup_app|]. split; [set_solver|repeat constructor; set_solver].
  - intros x Hx1 Hx2. rewrite !next_set_ne by set_solver. done.
Qed.

Lemma append_list_ok m l xs h ys : linked m l xs -> chain m h ys NULL -> ys <> [] -> NoDup (xs ++ ys) ->
  let t := default NULL (last ys) in
  linked (append_list l h t m).2 (append_list l h t m).1 (xs ++ ys) /\ (forall x, x ∉ xs -> (append_list l h t m).2 x = m x).
Proof.
  intros Hl Hc Hne Hnd t. pose proof (linked_tail_eqb _ _ _ Hl) as Ht. pose proof (linked_nodes _ _ _ Hl) as Hns.
  pose proof (chain_nodes _ _ _ _ Hc) as Hys. pose proof (head_null _ _ _ Hc) as Hh. pose proof (tail_null _ Hys) as Hty.
  fold t in Hty. destruct Hl as [H1 H2 H3]. unfold append_list.
  rewrite (proj2 (Z.eqb_neq h NULL)), (proj2 (Z.eqb_neq t NULL)) by tauto. cbn [negb andb]. rewrite Ht.
  assert (Hlast : default NULL (last (xs ++ ys)) = t) by (rewrite last_app; unfold t; destruct (last ys) eqn:E; [done|by apply last_None in E]).
  destruct (bool_decide_reflect (xs = [])) as [->|Hxs]; cbn [fst snd].
  { split; [|done]. split; [done|by rewrite Hlast|done]. }
  destruct (exists_last Hxs) as (zs & y & ->). rewrite last_snoc in H2. simpl in H2. unfold peek_tail. rewrite H2.
  apply Forall_app in Hns as [_ Hy]. apply Forall_cons in Hy as [Hy _]. apply chain_snoc in H1 as (H1 & _ & H4).
  assert (Hnode : is_node h \/ h = NULL) by (left; destruct ys; [done|]; destruct Hc as (-> & ? & _); done).
  apply NoDup_app in Hnd as Hnd'. destruct Hnd' as (H5 & H6 & H7). apply NoDup_app in H5 as (H5 & H8 & H9). split.
  - split; [|by rewrite Hlast|done]. rewrite schain_app. exists h. split.
    + apply chain_snoc. split; [apply chain_set; [set_solver|done]|]. split; [done|]. by apply next_set_eq.
    + apply chain_set; [set_solver|done].
  - intros x Hx. apply next_set_ne. set_solver.
Qed.

(** Linking [n] behind [prev]. *)
Lemma slist_insert_ok m l xs ys prev n : linked m l (xs ++ prev :: ys) -> is_node n -> n ∉ xs ++ prev :: ys ->
  linked (insert l prev n m).2 (insert l prev n m).1 (xs ++ prev :: n :: ys) /\
  (forall x, x <> n -> x ∉ xs ++ prev :: ys -> (insert l prev n m).2 x = m x).
Proof.
  intros Hl Hn Hni. pose proof Hl as [H1 H2 H3]. apply schain_app in H1 as (h & H1 & -> & Hp & H4).
  pose proof (node_not_null _ Hp). unfold insert. rewrite (proj2 (Z.eqb_neq prev NULL)) by done.
  pose proof (head_null _ _ _ H4) as Hh. destruct (Z.eqb_spec (next_peek m prev) NULL) as [E|E].
  { destruct Hh as [Hh _]. rewrite (Hh E) in *. replace (xs ++ [prev; n]) with ((xs ++ [prev]) ++ [n]) by (by rewrite <- app_assoc).
    by apply append_ok. }
  cbn [fst snd]. apply NoDup_app in H3 as (H5 & H6 & H7). apply NoDup_cons in H7 as [H7 H8].
  assert (Hpn : prev <> n) by set_solver. destruct ys as [|y ys]; [tauto|]. simpl in H4. destruct H4 as (Hy & Hyn & H4).
  split; [|intros x Hx1 Hx2; rewrite !next_set_ne by set_solver; done]. split.
  - rewrite schain_app. exists prev. split; [do 2 (apply chain_set; [set_solver|]); done|].
    split; [done|]. split; [done|]. rewrite next_set_eq by (done || by left). split; [done|]. split; [done|].
    rewrite next_peek_ne, Hy, next_set_eq by (done || by left). split; [done|]. split; [done|].
    rewrite !next_peek_ne by set_solver.
    do 2 (apply chain_set; [set_solver|]). done.
  - rewrite H2, !last_app. done.
  - apply NoDup_app. split; [done|]. split; [set_solver|].
    apply NoDup_cons. split; [set_solver|]. apply NoDup_cons. split; [set_solver|done].
Qed.

Lemma slist_get_ok m l x xs : linked m l (x :: xs) -> (get l m).1 = x /\ linked m (get l m).2 xs.
Proof.
  intros Hl. unfold get. rewrite (is_empty_ok _ _ _ Hl). destruct Hl as [(E & H1 & H2) H3 H4].
  cbn [bool_decide]. unfold get_not_empty. cbv zeta. unfold peek_head, peek_tail. cbn [fst snd head_set tail]. rewrite E.
  apply NoDup_cons in H4 as [H4 H5]. split; [done|].
  destruct xs as [|y xs].
  - rewrite H3. simpl. rewrite Z.eqb_refl. simpl in H2. rewrite H2. split; [done|done|constructor].
  - assert (Hne : tail l <> x).
    { rewrite H3. destruct (last (x :: y :: xs)) as [z|] eqn:Ez; [|by apply last_None in Ez]. simpl. intros ->.
      rewrite last_cons_cons in Ez. rewrite last_lookup in Ez. apply list_elem_of_lookup_2 in Ez. done. }
    rewrite (proj2 (Z.eqb_neq _ _)) by done. split; [done|simpl; by rewrite H3|done].
Qed.

Lemma slist_remove_ok m l xs n ys : linked m l (xs ++ n :: ys) -> let prev := default NULL (last xs) in
  linked (remove l prev n m).2 (remove l prev n m).1 (xs ++ ys) /\ next_peek (remove l prev n m).2 n = NULL /\
  (forall x, x ∉ xs ++ [n] -> (remove l prev n m).2 x = m x).
Proof.
  intros Hl prev. pose proof (linked_nodes _ _ _ Hl) as Hns. pose proof Hl as [H1 H2 H3].
  apply schain_app in H1 as (h & H1 & -> & Hn & H4). apply NoDup_app in H3 as (H5 & H6 & H7). apply NoDup_cons in H7 as [H7 H8].
  apply Forall_app in Hns as [Hxs Hys]. apply Forall_cons in Hys as [_ Hys].
  assert (Htl : (tail l =? n) = bool_decide (ys = [])).
  { rewrite H2, last_app, last_cons. destruct (bool_decide_reflect (ys = [])) as [->|Hne]; [apply Z.eqb_refl|].
    destruct (last ys) as [z|] eqn:Ez; [|by apply last_None in Ez]. simpl. apply Z.eqb_neq. intros ->.
    rewrite last_lookup in Ez. apply list_elem_of_lookup_2 in Ez. done. }
  assert (Hnext : is_node (next_peek m n) \/ next_peek m n = NULL).
  { destruct ys as [|y ys]; [by right|left]. by destruct H4 as (-> & ? & _). }
  unfold remove. destruct (decide (xs = [])) as [->|Hnil]; [|destruct (exists_last Hnil) as (zs & y & ->)].
  - subst prev. change (default NULL (last [])) with NULL. change (NULL =? NULL) with true. cbv iota.
    unfold peek_tail, peek_head. cbn [head_set tail fst snd].
    rewrite Htl. split; [|split; [apply next_set_eq; [done|by right]|intros x Hx; apply next_set_ne; set_solver]].
    simpl in H1. split; [|destruct (bool_decide_reflect (ys = [])) as [->|Hne]|done].
    + destruct (bool_decide _); by apply chain_set.
    + simpl in *. by rewrite H4.
    + cbn [head_set tail]. rewrite H2. cbn [app]. destruct ys; [done|]. by rewrite last_cons_cons.
  - subst prev. rewrite last_snoc. change (default NULL (Some y)) with y. apply Forall_app in Hxs as [Hzs Hy]. apply Forall_cons in Hy as [Hy _].
    pose proof (node_not_null _ Hy). rewrite (proj2 (Z.eqb_neq y NULL)) by done. unfold peek_tail. cbn [fst snd]. rewrite Htl.
    apply NoDup_app in H5 as (H5 & H9 & H10). apply chain_snoc in H1 as (H1 & _ & H11).
    assert (Hyn : y <> n) by set_solver.
    split; [|split; [apply next_set_eq; [done|by right]|intros x Hx; rewrite !next_set_ne by set_solver; done]].
    split.
    + replace (head (if bool_decide (ys = []) then tail_set l y else l)) with (head l) by (by destruct (bool_decide _)).
      rewrite schain_app. exists (next_peek m n). split.
      * apply chain_snoc. split; [do 2 (apply chain_set; [set_solver|]); done|]. split; [done|].
        rewrite next_peek_ne by done. by apply next_set_eq.
      * do 2 (apply chain_set; [set_solver|]). done.
    + destruct (bool_decide_reflect (ys = [])) as [->|Hne]; simpl.
      * by rewrite app_nil_r, last_snoc.
      * rewrite H2, !last_app. destruct ys; [done|]. by rewrite last_cons_cons.
    + apply NoDup_app. split; [apply NoDup_app; split_and!; (done || set_solver)|]. split; [set_solver|done].
Qed.

Lemma peek_next_ok m l xs n ys : linked m l (xs ++ n :: ys) -> peek_next m n = default NULL (list.head ys).
Proof.
  intros [H1 _ _]. apply schain_app in H1 as (h & _ & -> & Hn & H2). unfold peek_next.
  rewrite (proj2 (Z.eqb_neq n NULL)) by (by apply node_not_null). by eapply chain_head.
Qed.

(** The position of a node, and the node in front of it. *)
Lemma find_loop_ok m h xs prev n fuel : chain m h xs NULL -> (length xs < fuel)%nat ->
  find_loop fuel m h prev n =
    Some (match list_find (n =.) xs with
          | Some (i, _) => (true, default NULL (last (prev :: take i xs)))
          | None => (false, default NULL (last (prev :: xs)))
          end).
Proof.
  revert h prev fuel. induction xs as [|x xs IH]; intros h prev [|fuel] Hc Hf; simpl in Hf; try lia.
  { simpl in Hc. subst h. done. }
  destruct Hc as (-> & Hx & Hc). cbn [find_loop]. pose proof (node_not_null _ Hx). rewrite (proj2 (Z.eqb_neq x NULL)) by done.
  cbn [list_find]. destruct (Z.eqb_spec x n) as [->|Hne]; [by rewrite decide_True|]. rewrite decide_False by done.
  unfold peek_next. rewrite (proj2 (Z.eqb_neq x NULL)) by done. cbn [negb]. rewrite (IH _ x) by (done || lia).
  destruct (list_find (n =.) xs) as [[i z]|]; simpl; f_equal; f_equal; by rewrite last_cons_cons.
Qed.

Lemma find_loop_more fuel fuel' m h prev n r : find_loop fuel m h prev n = Some r -> (fuel <= fuel')%nat ->
  find_loop fuel' m h prev n = Some r.
Proof.
  revert fuel' h prev. induction fuel as [|fuel IH]; intros [|fuel'] h prev E Hle; try done; [lia|]. cbn [find_loop] in *.
  destruct (h =? NULL); [done|]. destruct (h =? n); [done|]. apply IH; [done|lia].
Qed.

Lemma len_loop_ok m h xs k fuel : chain m h xs NULL -> (length xs < fuel)%nat ->
  len_loop fuel m h k = Some (k + length xs)%nat.
Proof.
  revert h k fuel. induction xs as [|x xs IH]; intros h k [|fuel] Hc Hf; simpl in Hf; try lia.
  { simpl in Hc. subst h. simpl. f_equal. lia. }
  destruct Hc as (-> & Hx & Hc). cbn [len_loop]. pose proof (node_not_null _ Hx). rewrite (proj2 (Z.eqb_neq x NULL)) by done.
  unfold peek_next. rewrite (proj2 (Z.eqb_neq x NULL)) by done. cbn [negb]. rewrite (IH _ (S k)) by (done || lia). simpl. f_equal. lia.
Qed.

(** ** Flags *)

Definition flags_same (m m' : words) : Prop := forall n, is_node n -> flags_of m' n = flags_of m n.

Lemma next_set_flags n c m : is_node n -> is_node c \/ c = NULL -> flags_same m (next_set n c m).
Proof.
  intros Hn Hc x Hx. destruct (decide (x = n)) as [->|Hne]; [by apply flags_kept|].
  apply flags_word. by apply next_set_ne.
Qed.

Lemma flags_same_trans m1 m2 m3 : flags_same m1 m2 -> flags_same m2 m3 -> flags_same m1 m3.
Proof. intros H1 H2 n Hn. by rewrite H2, H1. Qed.

(** The links of the nodes of a list. *)
Lemma linked_next m l xs n : linked m l xs -> n ∈ xs -> is_node (next_peek m n) \/ next_peek m n = NULL.
Proof.
  intros [H1 _ _] Hn. apply list_elem_of_split in Hn as (ys & zs & ->). apply schain_app in H1 as (h & _ & -> & _ & H1).
  destruct zs as [|z zs]; [by right|]. destruct H1 as (-> & ? & _). by left.
Qed.

Lemma linked_head m l xs : linked m l xs -> is_node l.(head) \/ l.(head) = NULL.
Proof. intros [H1 _ _]. destruct xs; [by right|]. destruct H1 as (-> & ? & _). by left. Qed.

Lemma linked_tail m l xs : linked m l xs -> l.(tail) <> NULL -> is_node l.(tail).
Proof.
  intros Hl Hne. pose proof (linked_nodes _ _ _ Hl) as Hn. rewrite (lk_tail _ _ _ Hl) in *. destruct (last xs) as [x|] eqn:E; [|done].
  simpl in *. rewrite last_lookup in E. apply list_elem_of_lookup_2 in E. rewrite Forall_forall in Hn. by apply Hn.
Qed.

Lemma prepend_flags m l xs n : linked m l xs -> is_node n -> flags_same m (prepend l n m).2.
Proof. intros Hl Hn. apply next_set_flags; [done|]. by eapply linked_head. Qed.

Lemma append_flags m l xs n : linked m l xs -> is_node n -> flags_same m (append l n m).2.
Proof.
  intros Hl Hn. unfold append. cbv zeta. destruct (Z.eqb_spec (peek_tail l) NULL); cbn [snd].
  - apply next_set_flags; [done|by right].
  - eapply flags_same_trans; apply next_set_flags; try done; [by right|by eapply linked_tail|by left].
Qed.

Lemma append_list_flags m l xs h t : linked m l xs -> is_node h \/ h = NULL -> flags_same m (append_list l h t m).2.
Proof.
  intros Hl Hh. unfold append_list. destruct (_ && _); [|done]. destruct (Z.eqb_spec (peek_tail l) NULL); cbn [snd]; [done|].
  apply next_set_flags; [by eapply linked_tail|done].
Qed.

Lemma insert_flags m l xs prev n : linked m l xs -> is_node n -> prev = NULL \/ prev ∈ xs -> flags_same m (insert l prev n m).2.
Proof.
  intros Hl Hn Hp. unfold insert. destruct (Z.eqb_spec prev NULL); [by eapply prepend_flags|].
  destruct (Z.eqb_spec (next_peek m prev) NULL); [by eapply append_flags|]. destruct Hp as [|Hp]; [done|]. cbn [snd].
  pose proof (linked_nodes _ _ _ Hl) as Hns. rewrite Forall_forall in Hns.
  eapply flags_same_trans; apply next_set_flags; [done|by eapply linked_next|by apply Hns|by left].
Qed.

Lemma remove_flags m l xs n ys : linked m l (xs ++ n :: ys) -> flags_same m (remove l (default NULL (last xs)) n m).2.
Proof.
  intros Hl. pose proof (linked_nodes _ _ _ Hl) as Hns. rewrite Forall_forall in Hns.
  assert (Hn : is_node n) by (apply Hns; set_solver). assert (Hx := linked_next _ _ _ n Hl ltac:(set_solver)).
  unfold remove. destruct (Z.eqb_spec (default NULL (last xs)) NULL) as [E|E]; cbn [snd]; [apply next_set_flags; [done|by right]|].
  destruct (last xs) as [y|] eqn:Ey; [|done]. simpl. rewrite last_lookup in Ey. apply list_elem_of_lookup_2 in Ey.
  eapply flags_same_trans; apply next_set_flags; [apply Hns; set_solver|done|done|by right].
Qed.

(** Linking a node at position [i]; [prev] is the node in front, or NULL. *)
Lemma insert_at_ok m l xs i n : linked m l xs -> is_node n -> n ∉ xs -> (i <= length xs)%nat ->
  let r := insert l (default NULL (last (take i xs))) n m in
  linked r.2 r.1 (take i xs ++ n :: drop i xs) /\ flags_same m r.2 /\ (forall x, x <> n -> x ∉ xs -> r.2 x = m x).
Proof.
  intros Hl Hn Hni Hi. destruct (decide (take i xs = [])) as [E|E].
  - rewrite E. change (default NULL (last [])) with NULL. cbv zeta. unfold insert. change (NULL =? NULL) with true. cbv iota.
    assert (Hd : drop i xs = xs) by (rewrite <- (take_drop i xs) at 2; by rewrite E). rewrite Hd. cbn [app].
    destruct (prepend_ok m l xs n Hl Hn Hni) as [H1 H2]. split; [done|]. split; [by eapply prepend_flags|]. intros x Hx _. by apply H2.
  - destruct (exists_last E) as (ys & p & E'). rewrite E', last_snoc. change (default NULL (Some p)) with p. cbv zeta.
    assert (Ex : xs = ys ++ p :: drop i xs) by (rewrite <- (take_drop i xs) at 1; by rewrite E', <- app_assoc).
    rewrite <- app_assoc. cbn [app]. pose proof Hl as Hl'. rewrite Ex in Hl', Hni.
    destruct (slist_insert_ok m l ys (drop i xs) p n Hl' Hn Hni) as [H1 H2]. split; [done|].
    split; [eapply insert_flags; [exact Hl|done|right; rewrite Ex; set_solver]|]. intros x Hx1 Hx2. apply H2; [done|by rewrite <- Ex].
Qed.
End ops.

(** ** Plain nodes: slist.h *)

Definition z_snode_next_peek (m : words) (n : Z) : Z := m n.
Definition z_snode_next_set (parent child : Z) (m : words) : words := upd parent child m.

#[refine] Instance snode : GenNode := {
  next_peek := z_snode_next_peek;
  next_set := z_snode_next_set;
  flags_of _ _ := 0;
  is_node n := n <> NULL
}.
Proof.
  - done.
  - intros. apply upd_eq.
  - intros. by apply upd_ne.
  - done.
  - done.
  - done.
Defined.

(** ** Flagged nodes: sflist.h, on words aligned to four bytes *)

Definition SYS_SFLIST_FLAGS_MASK : Z := 3.
Definition sys_sfnode_flags_get (m : words) (n : Z) : Z := Z.land (m n) SYS_SFLIST_FLAGS_MASK.
Definition sys_sfnode_init (n flags : Z) (m : words) : words := upd n flags m.
Definition z_sfnode_next_peek (m : words) (n : Z) : Z := Z.land (m n) (Z.lnot SYS_SFLIST_FLAGS_MASK).
Definition z_sfnode_next_set (parent child : Z) (m : words) : words :=
  upd parent (Z.lor (sys_sfnode_flags_get m parent) child) m.
Definition sys_sfnode_flags_set (n flags : Z) (m : words) : words := upd n (Z.lor (z_sfnode_next_peek m n) flags) m.

Definition aligned (n : Z) : Prop := n <> NULL /\ n mod 4 = 0.

Lemma aligned_low n : aligned n \/ n = NULL -> Z.land n 3 = 0 /\ Z.land n (Z.lnot 3) = n.
Proof.
  intros Hn. assert (E : n mod 4 = 0) by (destruct Hn as [[_ ?]|Hn]; [done|by subst n]).
  assert (El : Z.land n 3 = n mod 4) by (apply (Z.land_ones n 2); lia). split; [congruence|].
  rewrite <- Z.ldiff_land. change 3 with (Z.ones 2). rewrite Z.ldiff_ones_r by lia.
  rewrite Z.shiftr_div_pow2, Z.shiftl_mul_pow2 by lia. change (2 ^ 2) with 4.
  pose proof (Z.div_mod n 4 ltac:(lia)). lia.
Qed.

Lemma sfnode_word w c : aligned c \/ c = NULL ->
  Z.land (Z.lor (Z.land w 3) c) (Z.lnot 3) = c /\ Z.land (Z.lor (Z.land w 3) c) 3 = Z.land w 3.
Proof.
  intros Hc. destruct (aligned_low c Hc) as [H1 H2]. rewrite !Z.land_lor_distr_l, H1, H2, <- !Z.land_assoc, Z.lor_0_r.
  change (Z.land 3 (Z.lnot 3)) with 0. by rewrite Z.land_0_r, Z.lor_0_l.
Qed.

#[refine] Instance sfnode : GenNode := {
  next_peek := z_sfnode_next_peek;
  next_set := z_sfnode_next_set;
  flags_of := sys_sfnode_flags_get;
  is_node := aligned
}.
Proof.
  - by intros n [? _].
  - intros n c m _ Hc. unfold z_sfnode_next_peek, z_sfnode_next_set. rewrite upd_eq. by apply sfnode_word.
  - intros n c m x Hx. by apply upd_ne.
  - intros m m' n E. unfold z_sfnode_next_peek. by rewrite E.
  - intros m m' n E. unfold sys_sfnode_flags_get. by rewrite E.
  - intros n c m _ Hc. unfold sys_sfnode_flags_get, z_sfnode_next_set, sys_sfnode_flags_get. rewrite upd_eq. by apply sfnode_word.
Defined.

Section loops.
Context `{GenNode}.

Lemma default_last (ys : list Z) : default NULL (last (NULL :: ys)) = default NULL (last ys).
Proof. destruct ys; [done|]. by rewrite last_cons_cons. Qed.

Lemma filter_ne (n : Z) (xs : list Z) : n ∉ xs -> filter (.≠ n) xs = xs.
Proof.
  induction xs as [|x xs IH]; [done|]. intros Hn. rewrite filter_cons_True by set_solver. by rewrite IH by set_solver.
Qed.

Lemma find_and_remove_ok m l xs n fuel : linked m l xs -> (length xs < fuel)%nat ->
  exists l' m', find_and_remove fuel l n m = Some (bool_decide (n ∈ xs), l', m') /\
    linked m' l' (filter (.≠ n) xs) /\ flags_same m m'.
Proof.
  intros Hl Hf. unfold find_and_remove. rewrite (find_loop_ok m _ xs) by (apply Hl || done).
  destruct (list_find (n =.) xs) as [[i z]|] eqn:E.
  - apply list_find_Some in E as (E & <- & _). pose proof (take_drop_middle _ _ _ E) as Exs.
    rewrite default_last. rewrite <- Exs in Hl. destruct (slist_remove_ok _ _ _ _ _ Hl) as (H1 & _ & _).
    pose proof (remove_flags _ _ _ _ _ Hl) as H2. pose proof (lk_nodup _ _ _ Hl) as Hnd. apply NoDup_app in Hnd as (_ & Hd1 & Hd2).
    apply NoDup_cons in Hd2 as [Hd2 _]. destruct (remove l _ n m) as [l' m']. exists l', m'.
    rewrite bool_decide_true by (by eapply list_elem_of_lookup_2). split; [done|]. split; [|done].
    rewrite <- Exs, filter_app, filter_cons_False by naive_solver. rewrite !filter_ne; [done|done|]. intros Hin. apply (Hd1 n Hin). set_solver.
  - apply list_find_None in E. exists l, m. rewrite Forall_forall in E.
    assert (Hn : n ∉ xs) by (intros Hin; by apply (E n Hin)). rewrite bool_decide_false by done. by rewrite filter_ne.
Qed.
End loops.

(** ** Properties *)

(** C38. The operations of singly-linked lists, plain and flagged, implement the operations on lists: the same nodes
    in the same order stay linked, the new node goes where the operation says, get
    takes the first node, the searches end and find the node and its predecessor, and the flags of
    every node survive. *)
Theorem slist_operations_refine_lists `{GenNode} (m : words) (l : sys_list) (xs : list Z) (Hl : linked m l xs) :
  (forall n, is_node n -> n ∉ xs ->
     (linked (prepend l n m).2 (prepend l n m).1 (n :: xs) /\ flags_same m (prepend l n m).2) /\
     (linked (append l n m).2 (append l n m).1 (xs ++ [n]) /\ flags_same m (append l n m).2) /\
     (forall ys prev zs, xs = ys ++ prev :: zs ->
        linked (insert l prev n m).2 (insert l prev n m).1 (ys ++ prev :: n :: zs) /\ flags_same m (insert l prev n m).2)) /\
  (forall l2 ys, linked m l2 ys -> ys <> [] -> NoDup (xs ++ ys) ->
     let '(l', l2', m') := merge_list l l2 m in linked m' l' (xs ++ ys) /\ linked m' l2' [] /\ flags_same m m') /\
  match xs with
  | [] => get l m = (NULL, l)
  | x :: ys => (get l m).1 = x /\ linked m (get l m).2 ys
  end /\
  (forall n,
     match find_and_remove (S (length xs)) l n m with
     | Some (found, l', m') => found = bool_decide (n ∈ xs) /\ linked m' l' (filter (.≠ n) xs) /\ flags_same m m'
     | None => False
     end) /\
  length_of (S (length xs)) l m = Some (length xs) /\ is_empty l = bool_decide (xs = []) /\
  peek_head l = default NULL (list.head xs) /\ peek_tail l = default NULL (last xs).
Proof.
  pose proof (lk_chain _ _ _ Hl) as Hc. split; [|split; [|split; [|split; [|split_and!]]]].
  - intros n Hn Hni. split; [split; [by apply prepend_ok|by eapply prepend_flags]|].
    split; [split; [by apply append_ok|by eapply append_flags]|]. intros ys prev zs ->.
    split; [by apply slist_insert_ok|]. eapply insert_flags; [done|done|right; set_solver].
  - intros l2 ys Hl2 Hne Hnd. unfold merge_list. unfold peek_head, peek_tail. rewrite (lk_tail _ _ _ Hl2).
    pose proof (append_list_ok m l xs l2.(head) ys Hl (lk_chain _ _ _ Hl2) Hne Hnd) as H1. cbv zeta in H1.
    pose proof (append_list_flags m l xs l2.(head) (default NULL (last ys)) Hl (linked_head _ _ _ Hl2)) as H2.
    destruct (append_list _ _ _ _) as [l' m']. cbn [fst snd] in *. split; [by destruct H1|]. split; [apply init_linked|done].
  - destruct xs as [|x ys]; [|by apply slist_get_ok]. unfold get. by rewrite (is_empty_ok _ _ _ Hl).
  - intros n. destruct (find_and_remove_ok m l xs n (S (length xs)) Hl ltac:(lia)) as (l' & m' & -> & H1 & H2). done.
  - unfold length_of. by rewrite (len_loop_ok m _ xs) by (done || lia).
  - by eapply is_empty_ok.
  - by eapply chain_head.
  - by eapply lk_tail.
Qed.

(** A flagged list of the nodes 8 and 16, the first with flag 1, and node 24 outside. *)
Definition example_words : words := upd 8 17 (upd 16 0 (fun _ => 0)).

Lemma example_linked : @linked sfnode example_words (Sys_list 8 16) [8; 16].
Proof.
  split; [|done|].
  - simpl. split_and!; try done; by vm_compute.
  - apply NoDup_cons. split; [set_solver|]. apply NoDup_singleton.
Qed.

Lemma slist_operations_refine_lists_witness :
  let r := @append sfnode (Sys_list 8 16) 24 example_words in
  @linked sfnode r.2 r.1 [8; 16; 24] /\ @flags_of sfnode r.2 8 = 1.
Proof.
  destruct (@slist_operations_refine_lists sfnode example_words (Sys_list 8 16) [8; 16] example_linked) as (H & _).
  destruct (H 24 ltac:(by vm_compute) ltac:(set_solver)) as (_ & [H1 H2] & _). split; [exact H1|]. exact (H2 8 ltac:(by vm_compute)).
Defined.
