(* ===== verification/Thread.v ===== *)
(** Threads: [struct k_thread] (include/zephyr/kernel/thread.h), the build
    configuration the kernel reads, and the thread-state helpers of
    kernel/include/kthread.h and kernel/include/ksched.h.

    [thread_state] is kept as the bit mask the code keeps; [testbit] lemmas turn
    its masks into boolean facts for the components above. *)

From S2P Require Import Prelude.

(** Threads, wait queues and mutexes are named by the address of their object. *)
Definition tid := nat.
Definition wqid := nat.
Definition mid := nat.
Bind Scope nat_scope with tid.
Bind Scope nat_scope with wqid.
Bind Scope nat_scope with mid.

(** The Kconfig options the modelled code reads. *)
Class Config := {
  CONFIG_NUM_COOP_PRIORITIES : Z;
  CONFIG_NUM_PREEMPT_PRIORITIES : Z;
  CONFIG_NUM_METAIRQ_PRIORITIES : Z;
  CONFIG_SCHED_DEADLINE : bool;
  CONFIG_PRIORITY_CEILING : Z;
  CONFIG_SYSTEM_CLOCK_SLOPPY_IDLE : bool;
  CONFIG_MUTEX_DEADLOCK_DETECT : bool;
  CONFIG_TIMESLICING : bool;
  CONFIG_SWAP_NONATOMIC : bool
}.

Section prios.
Context `{Config}.
Definition K_HIGHEST_THREAD_PRIO : Z := - CONFIG_NUM_COOP_PRIORITIES.
Definition K_LOWEST_THREAD_PRIO : Z := CONFIG_NUM_PREEMPT_PRIORITIES.
Definition K_IDLE_PRIO : Z := K_LOWEST_THREAD_PRIO.
Definition K_HIGHEST_APPLICATION_THREAD_PRIO : Z := K_HIGHEST_THREAD_PRIO.
Definition K_LOWEST_APPLICATION_THREAD_PRIO : Z := K_LOWEST_THREAD_PRIO - 1.
Definition K_NUM_THREAD_PRIO : Z :=
  CONFIG_NUM_PREEMPT_PRIORITIES + CONFIG_NUM_COOP_PRIORITIES + 1.
End prios.

Record k_thread := K_thread {
  prio : Z;
  sched_locked : Z;
  prio_deadline : Z;
  thread_state : Z;
  user_options : Z;
  pended_on : option wqid;
  swap_data : Z;
  swap_retval : Z;
  join_queue : wqid;
  events : Z;
  event_options : Z;
  orig_prio : Z;
  held_mutexes : list mid;
  mutex_pended_on : option mid
}.

Definition set_prio (v : Z) (t : k_thread) : k_thread :=
  K_thread v t.(sched_locked) t.(prio_deadline) t.(thread_state) t.(user_options) t.(pended_on) t.(swap_data) t.(swap_retval) t.(join_queue) t.(events) t.(event_options) t.(orig_prio) t.(held_mutexes) t.(mutex_pended_on).
Definition set_sched_locked (v : Z) (t : k_thread) : k_thread :=
  K_thread t.(prio) v t.(prio_deadline) t.(thread_state) t.(user_options) t.(pended_on) t.(swap_data) t.(swap_retval) t.(join_queue) t.(events) t.(event_options) t.(orig_prio) t.(held_mutexes) t.(mutex_pended_on).
Definition set_prio_deadline (v : Z) (t : k_thread) : k_thread :=
  K_thread t.(prio) t.(sched_locked) v t.(thread_state) t.(user_options) t.(pended_on) t.(swap_data) t.(swap_retval) t.(join_queue) t.(events) t.(event_options) t.(orig_prio) t.(held_mutexes) t.(mutex_pended_on).
Definition set_thread_state (v : Z) (t : k_thread) : k_thread :=
  K_thread t.(prio) t.(sched_locked) t.(prio_deadline) v t.(user_options) t.(pended_on) t.(swap_data) t.(swap_retval) t.(join_queue) t.(events) t.(event_options) t.(orig_prio) t.(held_mutexes) t.(mutex_pended_on).
Definition set_user_options (v : Z) (t : k_thread) : k_thread :=
  K_thread t.(prio) t.(sched_locked) t.(prio_deadline) t.(thread_state) v t.(pended_on) t.(swap_data) t.(swap_retval) t.(join_queue) t.(events) t.(event_options) t.(orig_prio) t.(held_mutexes) t.(mutex_pended_on).
Definition set_pended_on (v : option wqid) (t : k_thread) : k_thread :=
  K_thread t.(prio) t.(sched_locked) t.(prio_deadline) t.(thread_state) t.(user_options) v t.(swap_data) t.(swap_retval) t.(join_queue) t.(events) t.(event_options) t.(orig_prio) t.(held_mutexes) t.(mutex_pended_on).
Definition set_swap_data (v : Z) (t : k_thread) : k_thread :=
  K_thread t.(prio) t.(sched_locked) t.(prio_deadline) t.(thread_state) t.(user_options) t.(pended_on) v t.(swap_retval) t.(join_queue) t.(events) t.(event_options) t.(orig_prio) t.(held_mutexes) t.(mutex_pended_on).
Definition set_swap_retval (v : Z) (t : k_thread) : k_thread :=
  K_thread t.(prio) t.(sched_locked) t.(prio_deadline) t.(thread_state) t.(user_options) t.(pended_on) t.(swap_data) v t.(join_queue) t.(events) t.(event_options) t.(orig_prio) t.(held_mutexes) t.(mutex_pended_on).
Definition set_join_queue (v : wqid) (t : k_thread) : k_thread :=
  K_thread t.(prio) t.(sched_locked) t.(prio_deadline) t.(thread_state) t.(user_options) t.(pended_on) t.(swap_data) t.(swap_retval) v t.(events) t.(event_options) t.(orig_prio) t.(held_mutexes) t.(mutex_pended_on).
Definition set_events (v : Z) (t : k_thread) : k_thread :=
  K_thread t.(prio) t.(sched_locked) t.(prio_deadline) t.(thread_state) t.(user_options) t.(pended_on) t.(swap_data) t.(swap_retval) t.(join_queue) v t.(event_options) t.(orig_prio) t.(held_mutexes) t.(mutex_pended_on).
Definition set_event_options (v : Z) (t : k_thread) : k_thread :=
  K_thread t.(prio) t.(sched_locked) t.(prio_deadline) t.(thread_state) t.(user_options) t.(pended_on) t.(swap_data) t.(swap_retval) t.(join_queue) t.(events) v t.(orig_prio) t.(held_mutexes) t.(mutex_pended_on).
Definition set_orig_prio (v : Z) (t : k_thread) : k_thread :=
  K_thread t.(prio) t.(sched_locked) t.(prio_deadline) t.(thread_state) t.(user_options) t.(pended_on) t.(swap_data) t.(swap_retval) t.(join_queue) t.(events) t.(event_options) v t.(held_mutexes) t.(mutex_pended_on).
Definition set_held_mutexes (v : list mid) (t : k_thread) : k_thread :=
  K_thread t.(prio) t.(sched_locked) t.(prio_deadline) t.(thread_state) t.(user_options) t.(pended_on) t.(swap_data) t.(swap_retval) t.(join_queue) t.(events) t.(event_options) t.(orig_prio) v t.(mutex_pended_on).
Definition set_mutex_pended_on (v : option mid) (t : k_thread) : k_thread :=
  K_thread t.(prio) t.(sched_locked) t.(prio_deadline) t.(thread_state) t.(user_options) t.(pended_on) t.(swap_data) t.(swap_retval) t.(join_queue) t.(events) t.(event_options) t.(orig_prio) t.(held_mutexes) v.

(** The union of [prio] and [sched_locked], read as [uint16_t preempt]. *)
Definition preempt (t : k_thread) : Z := t.(sched_locked) * 256 + u8 t.(prio).

Definition _THREAD_DUMMY : Z := bit 0.
Definition _THREAD_PENDING : Z := bit 1.
Definition _THREAD_SLEEPING : Z := bit 2.
Definition _THREAD_DEAD : Z := bit 3.
Definition _THREAD_SUSPENDED : Z := bit 4.
Definition _THREAD_ABORTING : Z := bit 5.
Definition _THREAD_SUSPENDING : Z := bit 6.
Definition _THREAD_QUEUED : Z := bit 7.

Definition _NON_PREEMPT_THRESHOLD : Z := 0x80.
Definition _PREEMPT_THRESHOLD : Z := _NON_PREEMPT_THRESHOLD - 1.
Definition K_ESSENTIAL : Z := bit 0.

(** ** kthread.h *)

Definition is_set (state mask : Z) : bool := negb (state .& mask =? 0).

Definition thread_is_preemptible (t : k_thread) : bool := preempt t <=? _PREEMPT_THRESHOLD.

Definition thread_is_metairq `{Config} (t : k_thread) : bool :=
  if 0 <? CONFIG_NUM_METAIRQ_PRIORITIES
  then t.(prio) - K_HIGHEST_THREAD_PRIO <? CONFIG_NUM_METAIRQ_PRIORITIES
  else false.

Definition is_thread_dummy (t : k_thread) : bool := is_set t.(thread_state) _THREAD_DUMMY.
Definition z_is_thread_suspended (t : k_thread) : bool := is_set t.(thread_state) _THREAD_SUSPENDED.
Definition z_is_thread_pending (t : k_thread) : bool := is_set t.(thread_state) _THREAD_PENDING.
Definition z_is_thread_dead (t : k_thread) : bool := is_set t.(thread_state) _THREAD_DEAD.
Definition z_is_thread_aborting (t : k_thread) : bool := is_set t.(thread_state) _THREAD_ABORTING.
Definition z_is_thread_halting (t : k_thread) : bool :=
  is_set t.(thread_state) (_THREAD_ABORTING .| _THREAD_SUSPENDING).

Definition z_is_thread_prevented_from_running (t : k_thread) : bool :=
  let state := t.(thread_state) in
  is_set state (_THREAD_PENDING .| _THREAD_SLEEPING .| _THREAD_DEAD .|
                _THREAD_DUMMY .| _THREAD_SUSPENDED).

Definition z_is_thread_ready (t : k_thread) : bool := negb (z_is_thread_prevented_from_running t).

Definition z_is_thread_state_set (t : k_thread) (state : Z) : bool := is_set t.(thread_state) state.
Definition z_is_thread_queued (t : k_thread) : bool := z_is_thread_state_set t _THREAD_QUEUED.
Definition z_is_thread_sleeping (t : k_thread) : bool := is_set t.(thread_state) _THREAD_SLEEPING.

Definition set_state_bits (mask : Z) (t : k_thread) : k_thread :=
  set_thread_state (t.(thread_state) .| mask) t.
Definition clear_state_bits (mask : Z) (t : k_thread) : k_thread :=
  set_thread_state (t.(thread_state) .& Z.lnot mask) t.

Definition z_mark_thread_as_queued := set_state_bits _THREAD_QUEUED.
Definition z_mark_thread_as_not_queued := clear_state_bits _THREAD_QUEUED.
Definition z_mark_thread_as_suspended := set_state_bits _THREAD_SUSPENDED.
Definition z_mark_thread_as_not_suspended := clear_state_bits _THREAD_SUSPENDED.
Definition z_mark_thread_as_pending := set_state_bits _THREAD_PENDING.
Definition z_mark_thread_as_not_pending := clear_state_bits _THREAD_PENDING.
Definition z_mark_thread_as_sleeping := set_state_bits _THREAD_SLEEPING.
Definition z_mark_thread_as_not_sleeping := clear_state_bits _THREAD_SLEEPING.

Definition z_thread_essential_set (t : k_thread) : k_thread :=
  set_user_options (t.(user_options) .| K_ESSENTIAL) t.
Definition z_thread_essential_clear (t : k_thread) : k_thread :=
  set_user_options (t.(user_options) .& Z.lnot K_ESSENTIAL) t.
Definition z_is_thread_essential (t : k_thread) : bool :=
  t.(user_options) .& K_ESSENTIAL =? K_ESSENTIAL.

(** ** Priority comparisons of ksched.h *)

Section ksched.
Context `{Config}.
Definition z_is_under_prio_ceiling (prio : Z) : bool := CONFIG_PRIORITY_CEILING <=? prio.
Definition z_get_new_prio_with_ceiling (prio : Z) : Z :=
  if z_is_under_prio_ceiling prio then prio else CONFIG_PRIORITY_CEILING.
Definition z_is_prio1_higher_than_or_equal_to_prio2 (prio1 prio2 : Z) : bool := prio1 <=? prio2.
Definition z_is_prio_higher_or_equal (prio1 prio2 : Z) : bool :=
  z_is_prio1_higher_than_or_equal_to_prio2 prio1 prio2.
Definition z_is_prio1_lower_than_or_equal_to_prio2 (prio1 prio2 : Z) : bool := prio2 <=? prio1.
Definition z_is_prio_lower_or_equal (prio1 prio2 : Z) : bool :=
  z_is_prio1_lower_than_or_equal_to_prio2 prio1 prio2.
Definition z_is_prio1_higher_than_prio2 (prio1 prio2 : Z) : bool := prio1 <? prio2.
Definition z_is_prio_higher (prio test_prio : Z) : bool :=
  z_is_prio1_higher_than_prio2 prio test_prio.

Definition _is_valid_prio (prio : Z) (is_idle_entry : bool) : bool :=
  if (prio =? K_IDLE_PRIO) && is_idle_entry then true
  else if negb (z_is_prio_higher_or_equal prio K_LOWEST_APPLICATION_THREAD_PRIO) then false
  else if negb (z_is_prio_lower_or_equal prio K_HIGHEST_APPLICATION_THREAD_PRIO) then false
  else true.
End ksched.

(** ** The state mask as booleans *)

Lemma is_set_bit s n : 0 <= n -> is_set s (bit n) = Z.testbit s n.
Proof.
  intros Hn. unfold is_set, bit. rewrite Z.shiftl_1_l.
  destruct (Z.testbit s n) eqn:E.
  - apply negb_true_iff, Z.eqb_neq. intros H.
    assert (Z.testbit (Z.land s (2 ^ n)) n = true) as H'
      by (by rewrite Z.land_spec, E, Z.pow2_bits_true).
    by rewrite H, Z.testbit_0_l in H'.
  - apply negb_false_iff, Z.eqb_eq, Z.bits_inj'. intros k Hk.
    rewrite Z.land_spec, Z.testbit_0_l.
    destruct (Z.eq_dec k n) as [->|Hne]; [by rewrite E|].
    rewrite Z.pow2_bits_false by done. apply andb_false_r.
Qed.

Lemma is_set_lor s a b : is_set s (a .| b) = is_set s a || is_set s b.
Proof.
  unfold is_set. rewrite Z.land_lor_distr_r.
  destruct (Z.eqb_spec (s .& a) 0) as [Ea|Ea], (Z.eqb_spec (s .& b) 0) as [Eb|Eb]; simpl.
  - by rewrite Ea, Eb.
  - rewrite Ea, Z.lor_0_l. by apply negb_true_iff, Z.eqb_neq.
  - apply negb_true_iff, Z.eqb_neq. by rewrite Z.lor_eq_0_iff; intros [? ?].
  - apply negb_true_iff, Z.eqb_neq. by rewrite Z.lor_eq_0_iff; intros [? ?].
Qed.

Lemma thread_state_set_bits mask t :
  (set_state_bits mask t).(thread_state) = t.(thread_state) .| mask.
Proof. done. Qed.

Lemma prevented_bits t :
  z_is_thread_prevented_from_running t =
    Z.testbit t.(thread_state) 1 || Z.testbit t.(thread_state) 2 || Z.testbit t.(thread_state) 3 ||
    Z.testbit t.(thread_state) 0 || Z.testbit t.(thread_state) 4.
Proof.
  unfold z_is_thread_prevented_from_running. rewrite !is_set_lor.
  unfold _THREAD_PENDING, _THREAD_SLEEPING, _THREAD_DEAD, _THREAD_DUMMY, _THREAD_SUSPENDED.
  by rewrite !is_set_bit.
Qed.

Lemma queued_bit t : z_is_thread_queued t = Z.testbit t.(thread_state) 7.
Proof. by apply (is_set_bit _ 7). Qed.

Lemma pending_bit t : z_is_thread_pending t = Z.testbit t.(thread_state) 1.
Proof. by apply (is_set_bit _ 1). Qed.

Lemma dead_bit t : z_is_thread_dead t = Z.testbit t.(thread_state) 3.
Proof. by apply (is_set_bit _ 3). Qed.

Lemma ready_bits t : z_is_thread_ready t = negb (
    Z.testbit t.(thread_state) 1 || Z.testbit t.(thread_state) 2 || Z.testbit t.(thread_state) 3 ||
    Z.testbit t.(thread_state) 0 || Z.testbit t.(thread_state) 4).
Proof. unfold z_is_thread_ready. by rewrite prevented_bits. Qed.

(** Compute the state predicates of a thread whose state was just changed. *)
Ltac state_bits :=
  unfold z_mark_thread_as_queued, z_mark_thread_as_not_queued, z_mark_thread_as_suspended,
    z_mark_thread_as_not_suspended, z_mark_thread_as_pending, z_mark_thread_as_not_pending,
    z_mark_thread_as_sleeping, z_mark_thread_as_not_sleeping,
    set_state_bits, clear_state_bits in *;
  rewrite ?ready_bits, ?prevented_bits, ?queued_bit, ?pending_bit, ?dead_bit in *;
  unfold _THREAD_DUMMY, _THREAD_PENDING, _THREAD_SLEEPING, _THREAD_DEAD, _THREAD_SUSPENDED,
    _THREAD_ABORTING, _THREAD_SUSPENDING, _THREAD_QUEUED in *;
  simpl in *;
  rewrite ?testbit_set, ?testbit_clear in * by lia; simpl in *.

Lemma queued_not_ready_bits t :
  z_is_thread_ready (z_mark_thread_as_queued t) = z_is_thread_ready t /\
  z_is_thread_ready (z_mark_thread_as_not_queued t) = z_is_thread_ready t /\
  z_is_thread_queued (z_mark_thread_as_queued t) = true /\
  z_is_thread_queued (z_mark_thread_as_not_queued t) = false.
Proof.
  state_bits. rewrite ?orb_false_r, ?andb_true_r, ?orb_true_r, ?andb_false_r. done.
Qed.

(** A thread is preemptible exactly when its priority is not negative and it
    does not hold the scheduler locked. *)
Lemma thread_is_preemptible_iff t :
  -128 <= t.(prio) <= 127 -> 0 <= t.(sched_locked) <= 255 ->
  thread_is_preemptible t = true <-> 0 <= t.(prio) /\ t.(sched_locked) = 0.
Proof.
  intros Hp Hs. unfold thread_is_preemptible, preempt, _PREEMPT_THRESHOLD, _NON_PREEMPT_THRESHOLD, u8.
  rewrite Z.leb_le. change (2 ^ 8) with 256.
  destruct (Z_le_gt_dec 0 t.(prio)).
  - rewrite Z.mod_small by lia. lia.
  - replace (t.(prio) mod 256) with (t.(prio) + 256); [lia|].
    apply Z.mod_unique with (-1); lia.
Qed.

(** The default configuration (kernel/Kconfig), and a ready thread of a given
    priority, for concrete runs. *)
Definition example_config : Config := Build_Config 16 15 0 false (-128) false false true false.
Definition example_thread (p : Z) : k_thread := K_thread p 0 0 0 0 None 0 0 0 0 0 p [] None.
