(* ===== verification/PriorityQ.v ===== *)
(** Thread priority queues, kernel/include/priority_q.h.

    The simple queue ([z_priq_simple_*]) keeps one list sorted by priority; the
    multi-queue ([z_priq_mq_*]) keeps one list per priority, a bitmap of the
    non-empty ones and the index of the best one.  [RunQueue] is the interface
    the scheduler relies on: an implementation is described by the sorted list
    of threads it holds.  Both queues are instances, so the scheduler theorems
    hold for CONFIG_SCHED_SIMPLE and CONFIG_SCHED_MULTIQ. *)

From S2P Require Import Prelude MathExtras Thread.

(** ** Comparison of threads *)

Section queues.
Context `{Config}.

Definition z_sched_prio_cmp (thr : tid -> k_thread) (thread_1 thread_2 : tid) : Z :=
  let b1 := (thr thread_1).(prio) in
  let b2 := (thr thread_2).(prio) in
  if negb (b1 =? b2) then b2 - b1
  else if CONFIG_SCHED_DEADLINE then
    let d1 := u32 (thr thread_1).(prio_deadline) in
    let d2 := u32 (thr thread_2).(prio_deadline) in
    if negb (d1 =? d2) then i32 (u32 (d2 - d1)) else 0
  else 0.

(** ** The simple queue *)

Definition z_priq_simple_init : list tid := [].

Fixpoint z_priq_simple_add (thr : tid -> k_thread) (pq : list tid) (thread : tid) : list tid :=
  match pq with
  | [] => [thread]
  | t :: rest =>
      if 0 <? z_sched_prio_cmp thr thread t then thread :: t :: rest
      else t :: z_priq_simple_add thr rest thread
  end.

Definition z_priq_simple_remove (pq : list tid) (thread : tid) : list tid :=
  filter (fun t => t <> thread) pq.

(** [_current] is dequeued, then re-inserted searching from its successor. *)
Fixpoint z_priq_simple_yield (thr : tid -> k_thread) (pq : list tid) (current : tid) : list tid :=
  match pq with
  | [] => []
  | t :: rest =>
      if decide (t = current) then z_priq_simple_add thr rest current
      else t :: z_priq_simple_yield thr rest current
  end.

Definition z_priq_simple_best (pq : list tid) : option tid := head pq.

(** ** The multi-queue *)

Record _priq_mq := Priq_mq {
  queues : list (list tid);
  bitmask : list Z;
  cached_queue_index : Z
}.

Record prio_info := Prio_info { offset_prio : Z; idx : Z; bitn : Z }.

(** [NBITS] is 64 with CONFIG_64BIT and 32 without. *)
Context (NBITS : Z).
Definition TRAILING_ZEROS (x : Z) : Z :=
  if NBITS =? 64 then u64_count_trailing_zeros x else u32_count_trailing_zeros x.
Definition PRIQ_BITMAP_SIZE : Z := (K_NUM_THREAD_PRIO + NBITS - 1) / NBITS.

Definition get_prio_info (old_prio : Z) : prio_info :=
  let offset := u8 (old_prio - K_HIGHEST_THREAD_PRIO) in
  Prio_info offset (u8 (offset / NBITS)) (u8 (offset mod NBITS)).

(** The do-while over the words of the bitmap, from word [i] on. *)
Fixpoint best_queue_index_loop (words : list Z) (i : Z) : Z :=
  match words with
  | [] => K_NUM_THREAD_PRIO - 1
  | w :: rest =>
      if negb (w =? 0) then i * NBITS + TRAILING_ZEROS w
      else best_queue_index_loop rest (i + 1)
  end.

Definition z_priq_mq_best_queue_index (pq : _priq_mq) : Z :=
  best_queue_index_loop pq.(bitmask) 0.

Definition z_priq_mq_init : _priq_mq :=
  Priq_mq (replicate (Z.to_nat K_NUM_THREAD_PRIO) [])
          (replicate (Z.to_nat PRIQ_BITMAP_SIZE) 0) (K_NUM_THREAD_PRIO - 1).

Definition queue_at (pq : _priq_mq) (i : Z) : list tid := default [] (pq.(queues) !! Z.to_nat i).
Definition word_at (pq : _priq_mq) (i : Z) : Z := default 0 (pq.(bitmask) !! Z.to_nat i).

Definition z_priq_mq_add (thr : tid -> k_thread) (pq : _priq_mq) (thread : tid) : _priq_mq :=
  let pos := get_prio_info (thr thread).(prio) in
  let o := Z.to_nat pos.(offset_prio) in
  let qs := <[o := queue_at pq pos.(offset_prio) ++ [thread]]> pq.(queues) in
  let bm := <[Z.to_nat pos.(idx) := word_at pq pos.(idx) .| bit pos.(bitn)]> pq.(bitmask) in
  Priq_mq qs bm
    (if pos.(offset_prio) <? pq.(cached_queue_index) then pos.(offset_prio)
     else pq.(cached_queue_index)).

(** [sys_dlist_dequeue] unlinks the thread from the list it is on. *)
Definition dequeue_from (thread : tid) (qs : list (list tid)) : list (list tid) :=
  (fun q => filter (fun t => t <> thread) q) <$> qs.

Definition z_priq_mq_remove (thr : tid -> k_thread) (pq : _priq_mq) (thread : tid) : _priq_mq :=
  let pos := get_prio_info (thr thread).(prio) in
  let pq1 := Priq_mq (dequeue_from thread pq.(queues)) pq.(bitmask) pq.(cached_queue_index) in
  if bool_decide (queue_at pq1 pos.(offset_prio) = []) then
    let bm := <[Z.to_nat pos.(idx) := word_at pq1 pos.(idx) .& Z.lnot (bit pos.(bitn))]>
                pq1.(bitmask) in
    let pq2 := Priq_mq pq1.(queues) bm pq1.(cached_queue_index) in
    Priq_mq pq2.(queues) pq2.(bitmask) (z_priq_mq_best_queue_index pq2)
  else pq1.

Definition z_priq_mq_yield (thr : tid -> k_thread) (pq : _priq_mq) (current : tid) : _priq_mq :=
  let pos := get_prio_info (thr current).(prio) in
  let pq1 := Priq_mq (dequeue_from current pq.(queues)) pq.(bitmask) pq.(cached_queue_index) in
  Priq_mq (<[Z.to_nat pos.(offset_prio) := queue_at pq1 pos.(offset_prio) ++ [current]]> pq1.(queues))
          pq1.(bitmask) pq1.(cached_queue_index).

Definition z_priq_mq_best (pq : _priq_mq) : option tid :=
  head (queue_at pq pq.(cached_queue_index)).
End queues.

Lemma TRAILING_ZEROS_spec NBITS x : NBITS = 32 \/ NBITS = 64 -> 0 < x < 2 ^ NBITS ->
  0 <= TRAILING_ZEROS NBITS x < NBITS /\ lowest_bit x (TRAILING_ZEROS NBITS x).
Proof.
  intros [->| ->] Hx; [by apply u32_ctz_spec|by apply u64_ctz_spec].
Qed.

(** ** The order of a queue *)

Section order.
Context `{Config} (thr : tid -> k_thread).

(** [x] may stand before [y]: [y] does not have a strictly higher priority. *)
Definition before_eq (x y : tid) : Prop := z_sched_prio_cmp thr y x <= 0.
Definition prio_sorted (pq : list tid) : Prop := StronglySorted before_eq pq.

Lemma add_skip xs ys t : Forall (fun x => before_eq x t) xs ->
  z_priq_simple_add thr (xs ++ ys) t = xs ++ z_priq_simple_add thr ys t.
Proof.
  induction 1 as [|x xs Hx _ IH]; simpl; [done|]. unfold before_eq in Hx.
  replace (0 <? z_sched_prio_cmp thr t x) with false by (symmetry; apply Z.ltb_ge; lia).
  by rewrite IH.
Qed.

Lemma add_front ys t : (forall y, head ys = Some y -> 0 < z_sched_prio_cmp thr t y) ->
  z_priq_simple_add thr ys t = t :: ys.
Proof.
  destruct ys as [|y ys]; simpl; [done|]. intros Hy.
  by replace (0 <? z_sched_prio_cmp thr t y) with true
    by (symmetry; apply Z.ltb_lt; by apply Hy).
Qed.

Lemma add_is_insert_when pq t :
  z_priq_simple_add thr pq t = insert_when (fun x => 0 <? z_sched_prio_cmp thr t x) t pq.
Proof. induction pq as [|x pq IH]; simpl; [done|]. by rewrite IH. Qed.

Lemma add_perm pq t : z_priq_simple_add thr pq t ≡ₚ t :: pq.
Proof. rewrite add_is_insert_when. apply insert_when_perm. Qed.

Lemma elem_of_add pq t x : x ∈ z_priq_simple_add thr pq t <-> x = t \/ x ∈ pq.
Proof. rewrite add_perm. set_solver. Qed.

Lemma elem_of_remove pq t x : x ∈ z_priq_simple_remove pq t <-> x <> t /\ x ∈ pq.
Proof. unfold z_priq_simple_remove. by rewrite list_elem_of_filter. Qed.

Lemma remove_split pq1 t pq2 : NoDup (pq1 ++ t :: pq2) ->
  z_priq_simple_remove (pq1 ++ t :: pq2) t = pq1 ++ pq2.
Proof.
  intros Hnd. apply NoDup_app in Hnd as (_ & H1 & H2). apply NoDup_cons in H2 as [H2 _].
  unfold z_priq_simple_remove. rewrite filter_app, filter_cons_False by naive_solver.
  rewrite !filter_ne_id; [done|done|]. intros Hx. apply (H1 t); set_solver.
Qed.

Lemma sorted_app_inv pq1 pq2 : prio_sorted (pq1 ++ pq2) ->
  prio_sorted pq1 /\ prio_sorted pq2 /\ forall x y, x ∈ pq1 -> y ∈ pq2 -> before_eq x y.
Proof.
  induction pq1 as [|x pq1 IH]; simpl.
  - intros. split; [constructor|]. split; [done|]. set_solver.
  - intros Hs. apply StronglySorted_inv in Hs as [Hs Hx].
    destruct (IH Hs) as (H1 & H2 & H3). apply Forall_app in Hx as [Hx1 Hx2].
    split; [by constructor|]. split; [done|]. intros a b [->|Ha]%elem_of_cons Hb; [|by apply H3].
    rewrite Forall_forall in Hx2. by apply Hx2.
Qed.

(** On a sorted queue yielding is removing and adding back. *)
Lemma yield_remove_add pq t : prio_sorted pq -> NoDup pq -> t ∈ pq ->
  z_priq_simple_yield thr pq t = z_priq_simple_add thr (z_priq_simple_remove pq t) t.
Proof.
  intros Hs Hnd (pq1 & pq2 & ->)%list_elem_of_split.
  rewrite remove_split by done. apply sorted_app_inv in Hs as (_ & _ & Hs).
  rewrite add_skip by (apply Forall_forall; intros; apply Hs; set_solver).
  clear Hs. apply NoDup_app in Hnd as (_ & Hnd & _).
  induction pq1 as [|x pq1 IH]; simpl.
  - by rewrite decide_True.
  - rewrite decide_False by (intros ->; apply (Hnd t); set_solver). by rewrite IH by set_solver.
Qed.
End order.

(** ** Adding keeps a queue sorted *)

Section sorting.
Context `{Config} (thr : tid -> k_thread).

(** The API rule on deadlines: those that are compared live within one half
    of the 32-bit modulus space. *)
Definition deadlines_ok (ts : list tid) : Prop :=
  CONFIG_SCHED_DEADLINE = true ->
  exists base, forall t, t ∈ ts -> u32 ((thr t).(prio_deadline) - base) < 2 ^ 31.

Lemma prio_cmp_prio t1 t2 : CONFIG_SCHED_DEADLINE = false ->
  z_sched_prio_cmp thr t1 t2 = (thr t2).(prio) - (thr t1).(prio).
Proof.
  intros Hd. unfold z_sched_prio_cmp. rewrite Hd.
  destruct (Z.eqb_spec (thr t1).(prio) (thr t2).(prio)); simpl; lia.
Qed.

Lemma deadline_diff a b base :
  u32 (a - base) < 2 ^ 31 -> u32 (b - base) < 2 ^ 31 ->
  i32 (u32 (u32 b - u32 a)) = u32 (b - base) - u32 (a - base) /\
  (u32 a = u32 b <-> u32 (a - base) = u32 (b - base)).
Proof.
  intros Ha Hb. pose proof (Z.mod_pos_bound (a - base) (2 ^ 32)).
  pose proof (Z.mod_pos_bound (b - base) (2 ^ 32)). unfold i32, sint, u32 in *.
  set (ra := (a - base) mod 2 ^ 32) in *. set (rb := (b - base) mod 2 ^ 32) in *.
  assert (Ea : exists q, a = base + ra + q * 2 ^ 32)
    by (exists ((a - base) / 2 ^ 32); pose proof (Z.div_mod (a - base) (2 ^ 32)); lia).
  assert (Eb : exists q, b = base + rb + q * 2 ^ 32)
    by (exists ((b - base) / 2 ^ 32); pose proof (Z.div_mod (b - base) (2 ^ 32)); lia).
  destruct Ea as [qa Ea], Eb as [qb Eb].
  rewrite <- Zminus_mod, Zplus_mod_idemp_l.
  split.
  - change (32 - 1) with 31.
    replace (b - a + 2 ^ 31) with (rb - ra + 2 ^ 31 + (qb - qa) * 2 ^ 32) by lia.
    rewrite Z_mod_plus_full, Z.mod_small; lia.
  - split; intros E.
    + unfold ra, rb. rewrite (Zminus_mod a), (Zminus_mod b). by rewrite E.
    + rewrite Ea, Eb, !Z_mod_plus_full. by rewrite E.
Qed.

(** On such threads [before_eq] is the lexicographic order of priority and
    deadline. *)
Lemma before_eq_rank ts : deadlines_ok ts -> exists r : tid -> Z,
  forall x y, x ∈ ts -> y ∈ ts ->
    (before_eq thr x y <->
       (thr x).(prio) < (thr y).(prio) \/ (thr x).(prio) = (thr y).(prio) /\ r x <= r y) /\
    (0 < z_sched_prio_cmp thr y x <->
       (thr y).(prio) < (thr x).(prio) \/ (thr x).(prio) = (thr y).(prio) /\ r y < r x).
Proof.
  intros Hd. unfold before_eq. destruct CONFIG_SCHED_DEADLINE eqn:Edl.
  - destruct (Hd Edl) as [base Hb].
    exists (fun t => u32 ((thr t).(prio_deadline) - base)). intros x y Hx Hy.
    destruct (deadline_diff _ _ _ (Hb x Hx) (Hb y Hy)) as [E1 E2].
    destruct (deadline_diff _ _ _ (Hb y Hy) (Hb x Hx)) as [E3 _].
    unfold z_sched_prio_cmp. rewrite Edl.
    destruct (Z.eqb_spec (thr y).(prio) (thr x).(prio)) as [E|E]; simpl; [|lia].
    destruct (Z.eqb_spec (u32 (thr y).(prio_deadline)) (u32 (thr x).(prio_deadline))) as [E'|E'];
      simpl; [symmetry in E'; apply E2 in E'; lia|].
    rewrite E3. lia.
  - exists (fun _ => 0). intros x y _ _. rewrite prio_cmp_prio by done. lia.
Qed.

Lemma add_sorted pq t : deadlines_ok (t :: pq) -> prio_sorted thr pq ->
  prio_sorted thr (z_priq_simple_add thr pq t).
Proof.
  intros Hd Hs. destruct (before_eq_rank _ Hd) as [r Hr].
  rewrite add_is_insert_when.
  destruct (insert_when_split (fun x => 0 <? z_sched_prio_cmp thr t x) t pq)
    as (xs1 & xs2 & -> & -> & H1 & H2).
  apply sorted_app_inv in Hs as (Hs1 & Hs2 & Hs12). rewrite Forall_forall in H1.
  assert (Ht1 : forall x, x ∈ xs1 -> before_eq thr x t).
  { intros x Hx. specialize (H1 x Hx). simpl in H1. unfold before_eq. lia. }
  assert (Ht2 : Forall (before_eq thr t) xs2).
  { destruct xs2 as [|h xs2]; [constructor|]. specialize (H2 h eq_refl).
    apply StronglySorted_inv in Hs2 as [_ Hh]. rewrite Forall_forall in *.
    intros y Hy. apply Z.ltb_lt in H2.
    apply (Hr h t) in H2; [|set_solver..]. apply (Hr t y); [set_solver..|].
    apply elem_of_cons in Hy as [->|Hy]; [lia|]. specialize (Hh y Hy).
    apply (Hr h y) in Hh; [|set_solver..]. lia. }
  clear H1 H2 Hd Hr. induction xs1 as [|x xs1 IH]; simpl.
  - by constructor.
  - apply StronglySorted_inv in Hs1 as [Hs1 Hx]. constructor.
    + apply IH; [done|set_solver|set_solver].
    + apply Forall_app. split; [done|]. constructor; [set_solver|].
      rewrite Forall_forall. intros y Hy. apply Hs12; set_solver.
Qed.

Lemma remove_sorted pq t : prio_sorted thr pq -> prio_sorted thr (z_priq_simple_remove pq t).
Proof. apply StronglySorted_filter. Qed.

(** The head of a sorted queue has the best priority. *)
Lemma best_is_first pq t : prio_sorted thr pq -> z_priq_simple_best pq = Some t ->
  forall x, x ∈ pq -> before_eq thr t x \/ x = t.
Proof.
  destruct pq as [|y pq]; [done|]. intros Hs [= ->] x [->|Hx]%elem_of_cons; [by right|left].
  apply StronglySorted_inv in Hs as [_ Hy]. rewrite Forall_forall in Hy. auto.
Qed.
End sorting.

(** The concatenation of per-priority lists, as a simple queue. *)
Lemma concat_add `{Config} thr qs base t : CONFIG_SCHED_DEADLINE = false ->
  (forall i q x, qs !! i = Some q -> x ∈ q -> (thr x).(prio) = base + Z.of_nat i) ->
  base <= (thr t).(prio) < base + Z.of_nat (length qs) ->
  let o := Z.to_nat ((thr t).(prio) - base) in
  concat (<[o := default [] (qs !! o) ++ [t]]> qs) = z_priq_simple_add thr (concat qs) t.
Proof.
  revert base. induction qs as [|q qs IH]; intros base Hdl Hq Ht o; [simpl in Ht; lia|].
  assert (Hskip : Forall (fun x => before_eq thr x t) q).
  { apply Forall_forall. intros x Hx. unfold before_eq. rewrite prio_cmp_prio by done.
    rewrite (Hq O q x) by done. lia. }
  simpl concat. rewrite add_skip by done. destruct o as [|o'] eqn:Eo.
  - simpl. rewrite <- app_assoc. f_equal. symmetry. apply add_front.
    intros y Hy. rewrite prio_cmp_prio by done.
    assert (y ∈ concat qs) as (i & q' & Hi & Hy')%concat_lookup_elem
      by (destruct (concat qs); simplify_eq/=; set_solver).
    rewrite (Hq (S i) q' y) by done. unfold o in Eo. lia.
  - simpl. f_equal. specialize (IH (base + 1)).
    replace (Z.to_nat ((thr t).(prio) - (base + 1))) with o' in IH by lia.
    apply IH; [done| |simpl in Ht; lia].
    intros i q' x Hi Hx. rewrite (Hq (S i) q' x) by done. lia.
Qed.

Lemma concat_head (qs : list (list tid)) i q : qs !! i = Some q -> q <> [] ->
  (forall j q', (j < i)%nat -> qs !! j = Some q' -> q' = []) -> head (concat qs) = head q.
Proof.
  revert i. induction qs as [|q0 qs IH]; intros [|i] Hi Hne Hlt; simplify_eq/=.
  - destruct q; done.
  - rewrite (Hlt O q0) by (done || lia). simpl. apply (IH i); [done|done|].
    intros j q' Hj Hq. apply (Hlt (S j)); [lia|done].
Qed.

Lemma concat_sorted `{Config} thr qs base : CONFIG_SCHED_DEADLINE = false ->
  (forall i q x, qs !! i = Some q -> x ∈ q -> (thr x).(prio) = base + Z.of_nat i) ->
  prio_sorted thr (concat qs).
Proof.
  intros Hd. revert base. induction qs as [|q qs IH]; intros base Hq; [constructor|]. simpl.
  assert (Hs : prio_sorted thr (concat qs)).
  { apply (IH (base + 1)). intros i q' x Hi Hx. rewrite (Hq (S i) q' x) by done. lia. }
  assert (Hc : forall y, y ∈ concat qs -> base < (thr y).(prio)).
  { intros y (i & q' & Hi & Hy)%concat_lookup_elem. rewrite (Hq (S i) q' y) by done. lia. }
  specialize (Hq O q). simpl in Hq. induction q as [|x q IHq]; [done|].
  assert (Hx : (thr x).(prio) = base + 0) by (apply Hq; [done|set_solver]).
  simpl. constructor.
  - apply IHq. intros y Hy Hin. apply Hq; [done|set_solver].
  - apply Forall_forall. intros y Hy. unfold before_eq. rewrite prio_cmp_prio, Hx by done.
    apply elem_of_app in Hy as [Hy|Hy]; [|specialize (Hc y Hy); lia].
    rewrite (Hq y eq_refl) by set_solver. lia.
Qed.

(** ** The multi-queue holds the same sorted list *)

Section multiq.
Context `{Config} (NBITS : Z).
Context (HN : NBITS = 32 \/ NBITS = 64).
Context (Hcoop : 0 <= CONFIG_NUM_COOP_PRIORITIES) (Hpre : 0 <= CONFIG_NUM_PREEMPT_PRIORITIES).
Context (Hnum : K_NUM_THREAD_PRIO <= 256) (Hdl : CONFIG_SCHED_DEADLINE = false).

Definition mq_abs (pq : _priq_mq) : list tid := concat pq.(queues).

(** Priorities a thread can have. *)
Definition valid_prio (p : Z) : Prop := K_HIGHEST_THREAD_PRIO <= p <= K_LOWEST_THREAD_PRIO.

Definition mq_bit (pq : _priq_mq) (i : Z) : bool :=
  Z.testbit (word_at pq (i / NBITS)) (i mod NBITS).

Definition first_queue (pq : _priq_mq) (i : Z) : Prop :=
  0 <= i < K_NUM_THREAD_PRIO /\
  (queue_at pq i <> [] /\ (forall j, 0 <= j < i -> queue_at pq j = []) \/
   i = K_NUM_THREAD_PRIO - 1 /\ forall j, 0 <= j < K_NUM_THREAD_PRIO -> queue_at pq j = []).

(** The bitmap says which queues are non-empty. *)
Definition mq_bits_ok (pq : _priq_mq) : Prop := forall i, 0 <= i < PRIQ_BITMAP_SIZE NBITS * NBITS ->
  mq_bit pq i = negb (bool_decide (queue_at pq i = [])).

Record mq_ok (thr : tid -> k_thread) (pq : _priq_mq) : Prop := {
  mq_queues : length pq.(queues) = Z.to_nat K_NUM_THREAD_PRIO;
  mq_words : length pq.(bitmask) = Z.to_nat (PRIQ_BITMAP_SIZE NBITS);
  mq_prio : forall i t, 0 <= i -> t ∈ queue_at pq i ->
    (thr t).(prio) = K_HIGHEST_THREAD_PRIO + i;
  mq_range : forall w, 0 <= w -> 0 <= word_at pq w < 2 ^ NBITS;
  mq_bits : mq_bits_ok pq;
  mq_cached : first_queue pq pq.(cached_queue_index)
}.

Lemma num_prio_pos : 0 < K_NUM_THREAD_PRIO.
Proof. unfold K_NUM_THREAD_PRIO. lia. Qed.

Lemma nbits_pos : 0 < NBITS <= 64.
Proof. lia. Qed.

Lemma bitmap_covers : K_NUM_THREAD_PRIO <= PRIQ_BITMAP_SIZE NBITS * NBITS.
Proof.
  unfold PRIQ_BITMAP_SIZE. pose proof nbits_pos.
  pose proof (Z.div_mod (K_NUM_THREAD_PRIO + NBITS - 1) NBITS).
  pose proof (Z.mod_pos_bound (K_NUM_THREAD_PRIO + NBITS - 1) NBITS). nia.
Qed.

Lemma get_prio_info_valid p : valid_prio p ->
  get_prio_info NBITS p =
    let o := p - K_HIGHEST_THREAD_PRIO in Prio_info o (o / NBITS) (o mod NBITS).
Proof.
  intros Hp. unfold valid_prio, K_HIGHEST_THREAD_PRIO, K_LOWEST_THREAD_PRIO in Hp.
  unfold K_NUM_THREAD_PRIO in Hnum. pose proof nbits_pos.
  unfold get_prio_info, u8, K_HIGHEST_THREAD_PRIO. change (2 ^ 8) with 256.
  set (o := p - - CONFIG_NUM_COOP_PRIORITIES).
  assert (0 <= o < 256) by (unfold o; lia).
  pose proof (Z.mod_pos_bound o NBITS).
  assert (0 <= o / NBITS < 256) by (split; [apply Z.div_pos; lia|apply Z.div_lt_upper_bound; nia]).
  simpl. by rewrite !(Z.mod_small o), (Z.mod_small (o / NBITS)), (Z.mod_small (o mod NBITS)) by lia.
Qed.

Lemma valid_offset p : valid_prio p -> 0 <= p - K_HIGHEST_THREAD_PRIO < K_NUM_THREAD_PRIO.
Proof. unfold valid_prio, K_HIGHEST_THREAD_PRIO, K_LOWEST_THREAD_PRIO, K_NUM_THREAD_PRIO. lia. Qed.

Lemma offset_valid p : 0 <= p - K_HIGHEST_THREAD_PRIO < K_NUM_THREAD_PRIO -> valid_prio p.
Proof. unfold valid_prio, K_HIGHEST_THREAD_PRIO, K_LOWEST_THREAD_PRIO, K_NUM_THREAD_PRIO. lia. Qed.

(** Reading the arrays after a store. *)
Lemma queue_at_insert pq qs bm c i j q :
  length qs = Z.to_nat K_NUM_THREAD_PRIO -> 0 <= i < K_NUM_THREAD_PRIO -> 0 <= j ->
  qs = pq.(queues) ->
  queue_at (Priq_mq (<[Z.to_nat i := q]> qs) bm c) j = if decide (j = i) then q else queue_at pq j.
Proof.
  intros Hl Hi Hj ->. unfold queue_at. simpl. case_decide as E.
  - subst. rewrite list_lookup_insert_eq by lia. done.
  - rewrite list_lookup_insert_ne by lia. done.
Qed.

Lemma word_at_insert pq qs c i j w :
  length pq.(bitmask) = Z.to_nat (PRIQ_BITMAP_SIZE NBITS) ->
  0 <= i < PRIQ_BITMAP_SIZE NBITS -> 0 <= j ->
  word_at (Priq_mq qs (<[Z.to_nat i := w]> pq.(bitmask)) c) j =
    if decide (j = i) then w else word_at pq j.
Proof.
  intros Hl Hi Hj. unfold word_at. simpl. case_decide as E.
  - subst. rewrite list_lookup_insert_eq by lia. done.
  - rewrite list_lookup_insert_ne by lia. done.
Qed.

(** The bit of queue [i] sits at word [i / NBITS], position [i mod NBITS]. *)
Lemma bit_position i : 0 <= i < PRIQ_BITMAP_SIZE NBITS * NBITS ->
  0 <= i / NBITS < PRIQ_BITMAP_SIZE NBITS /\ 0 <= i mod NBITS < NBITS.
Proof.
  intros Hi. pose proof nbits_pos. split; [|apply Z.mod_pos_bound; lia].
  split; [apply Z.div_pos; lia|]. apply Z.div_lt_upper_bound; lia.
Qed.

Lemma bit_position_inj i j : i / NBITS = j / NBITS -> i mod NBITS = j mod NBITS -> i = j.
Proof.
  intros H1 H2. pose proof nbits_pos.
  rewrite (Z.div_mod i NBITS), (Z.div_mod j NBITS) by lia. congruence.
Qed.

Lemma first_queue_unique pq i j : first_queue pq i -> first_queue pq j -> i = j.
Proof.
  intros (Hi & Fi) (Hj & Fj).
  destruct Fi as [[Ni Li]|[-> Ai]], Fj as [[Nj Lj]|[-> Aj]].
  - destruct (Z.lt_trichotomy i j) as [|[|]]; [|done|]; exfalso; [apply Ni, Lj|apply Nj, Li]; lia.
  - exfalso. apply Ni, Aj. lia.
  - exfalso. apply Nj, Ai. lia.
  - done.
Qed.

(** The bitmap scan finds the first non-empty queue. *)
Lemma best_loop_spec words k :
  0 <= k -> Forall (fun w => 0 <= w < 2 ^ NBITS) words ->
  let r := best_queue_index_loop NBITS words k in
  (exists w, 0 <= w < Z.of_nat (length words) /\
     r / NBITS = k + w /\ Z.testbit (default 0 (words !! Z.to_nat w)) (r mod NBITS) = true /\
     (forall i, 0 <= i -> i < r - k * NBITS ->
        Z.testbit (default 0 (words !! Z.to_nat (i / NBITS))) (i mod NBITS) = false)) \/
  (r = K_NUM_THREAD_PRIO - 1 /\ forall w, w ∈ words -> w = 0).
Proof.
  revert k. induction words as [|w words IH]; intros k Hk Hw r; [right; set_solver|].
  inversion Hw as [|? ? Hw1 Hw2]; subst. pose proof nbits_pos. subst r. simpl.
  destruct (Z.eqb_spec w 0) as [->|Hne]; simpl.
  - destruct (IH (k + 1)) as [(v & Hv & Hd & Hb & Hl)|[Hr Hz]]; [lia|done|left|right].
    + exists (v + 1). replace (Z.to_nat (v + 1)) with (S (Z.to_nat v)) by lia. simpl.
      split; [lia|]. split; [lia|]. split; [done|].
      intros i Hi0 Hi. destruct (Z_lt_ge_dec i NBITS).
      * rewrite Z.div_small by lia. simpl. apply Z.testbit_0_l.
      * specialize (Hl (i - NBITS)).
        replace ((i - NBITS) / NBITS) with (i / NBITS - 1) in Hl
          by (replace (i - NBITS) with (i + (-1) * NBITS) by lia; rewrite Z.div_add by lia; lia).
        replace ((i - NBITS) mod NBITS) with (i mod NBITS) in Hl
          by (replace (i - NBITS) with (i + (-1) * NBITS) by lia; by rewrite Z.mod_add by lia).
        assert (1 <= i / NBITS) by (apply Z.div_le_lower_bound; lia).
        replace (Z.to_nat (i / NBITS)) with (S (Z.to_nat (i / NBITS - 1))) by lia.
        simpl. apply Hl; lia.
    + split; [done|]. set_solver.
  - left. exists 0. destruct (TRAILING_ZEROS_spec NBITS w HN) as (Ht & Hb & Hl); [lia|].
    rewrite Z.add_comm, Z.div_add, Z.mod_add, Z.div_small, Z.mod_small by lia. simpl.
    split; [lia|]. split; [lia|]. split; [done|].
    intros i Hi0 Hi. rewrite Z.div_small, Z.mod_small by lia. simpl. apply Hl. lia.
Qed.

Lemma best_index_first pq :
  length pq.(queues) = Z.to_nat K_NUM_THREAD_PRIO ->
  length pq.(bitmask) = Z.to_nat (PRIQ_BITMAP_SIZE NBITS) ->
  (forall w, 0 <= w -> 0 <= word_at pq w < 2 ^ NBITS) ->
  mq_bits_ok pq ->
  first_queue pq (z_priq_mq_best_queue_index NBITS pq).
Proof.
  intros Hq Hl Hr Hb. pose proof nbits_pos. pose proof bitmap_covers. pose proof num_prio_pos.
  unfold z_priq_mq_best_queue_index.
  destruct (best_loop_spec pq.(bitmask) 0) as [(w & Hw & Hd & Ht & Hlt)|[Hlast Hz]]; [lia| | |].
  - apply Forall_forall. intros w Hw. apply list_elem_of_lookup in Hw as [i Hi].
    specialize (Hr (Z.of_nat i) ltac:(lia)). unfold word_at in Hr. by rewrite Nat2Z.id, Hi in Hr.
  - set (r := best_queue_index_loop NBITS (bitmask pq) 0) in *.
    assert (Hr' : r = w * NBITS + r mod NBITS) by (rewrite (Z.div_mod r NBITS) at 1; lia).
    pose proof (Z.mod_pos_bound r NBITS).
    assert (Hrange : 0 <= r < PRIQ_BITMAP_SIZE NBITS * NBITS) by nia.
    assert (Hne : queue_at pq r <> []).
    { specialize (Hb r Hrange). unfold mq_bit, word_at in Hb. rewrite Hd in Hb.
      change (0 + w) with w in Hb. rewrite Ht in Hb. by case_bool_decide. }
    assert (Hlim : r < K_NUM_THREAD_PRIO).
    { destruct (Z_lt_ge_dec r K_NUM_THREAD_PRIO); [done|]. exfalso. apply Hne.
      unfold queue_at. rewrite lookup_ge_None_2 by lia. done. }
    split; [lia|]. left. split; [done|]. intros j Hj.
    specialize (Hlt j).
    specialize (Hb j). unfold mq_bit, word_at in Hb.
    rewrite Hlt in Hb by lia. specialize (Hb ltac:(lia)). by case_bool_decide.
  - split; [lia|]. right. split; [done|]. intros j Hj.
    specialize (Hb j ltac:(lia)). unfold mq_bit in Hb.
    destruct (bit_position j) as [Hw _]; [lia|].
    assert (word_at pq (j / NBITS) = 0) as E.
    { unfold word_at. destruct (pq.(bitmask) !! Z.to_nat (j / NBITS)) as [w|] eqn:E; [|done].
      simpl. apply Hz. by apply list_elem_of_lookup_2 in E. }
    rewrite E, Z.testbit_0_l in Hb. by case_bool_decide.
Qed.

Lemma queue_at_dequeue t pq bm c i :
  queue_at (Priq_mq (dequeue_from t pq.(queues)) bm c) i = filter (fun x => x <> t) (queue_at pq i).
Proof.
  unfold queue_at, dequeue_from. simpl. rewrite list_lookup_fmap.
  by destruct (pq.(queues) !! Z.to_nat i).
Qed.

Lemma mq_offset thr pq t i : mq_ok thr pq -> 0 <= i -> t ∈ queue_at pq i ->
  i = (thr t).(prio) - K_HIGHEST_THREAD_PRIO.
Proof. intros Hok Hi Ht. rewrite (mq_prio _ _ Hok i t) by done. lia. Qed.

Lemma queue_at_range thr pq t i : mq_ok thr pq -> 0 <= i -> t ∈ queue_at pq i ->
  i < K_NUM_THREAD_PRIO.
Proof.
  intros Hok Hi Ht. unfold queue_at in Ht.
  destruct (pq.(queues) !! Z.to_nat i) eqn:E; [|set_solver].
  apply lookup_lt_Some in E. rewrite (mq_queues _ _ Hok) in E. lia.
Qed.

Lemma mq_abs_queue thr pq t : mq_ok thr pq -> t ∈ mq_abs pq ->
  let o := (thr t).(prio) - K_HIGHEST_THREAD_PRIO in
  0 <= o < K_NUM_THREAD_PRIO /\ t ∈ queue_at pq o.
Proof.
  intros Hok (i & q & Hi & Hq)%concat_lookup_elem o.
  assert (Ht : t ∈ queue_at pq (Z.of_nat i)) by (unfold queue_at; by rewrite Nat2Z.id, Hi).
  assert (Z.of_nat i = o) as <- by (eapply mq_offset; [done|lia|done]).
  split; [|done]. split; [lia|]. by eapply queue_at_range; [|lia|].
Qed.

Lemma mq_init_ok thr : mq_ok thr (z_priq_mq_init NBITS) /\ mq_abs (z_priq_mq_init NBITS) = [].
Proof.
  pose proof num_prio_pos. pose proof nbits_pos.
  assert (Hq : forall i, queue_at (z_priq_mq_init NBITS) i = []).
  { intros i. unfold queue_at. simpl.
    destruct (replicate (A:=list tid) _ [] !! Z.to_nat i) eqn:E; [|done].
    apply lookup_replicate in E as [-> _]. done. }
  assert (Hw : forall i, word_at (z_priq_mq_init NBITS) i = 0).
  { intros i. unfold word_at. simpl. destruct (replicate (A:=Z) _ 0 !! Z.to_nat i) eqn:E; [|done].
    apply lookup_replicate in E as [-> _]. done. }
  split; [split|].
  - simpl. by rewrite length_replicate.
  - simpl. by rewrite length_replicate.
  - intros i t _. rewrite Hq. set_solver.
  - intros w _. rewrite Hw. split; [lia|]. apply Z.pow_pos_nonneg; lia.
  - intros i _. unfold mq_bit. by rewrite Hw, Z.testbit_0_l, Hq, bool_decide_eq_true_2.
  - split; [simpl; lia|]. right. split; [done|]. intros; apply Hq.
  - unfold mq_abs, z_priq_mq_init. simpl. by induction (Z.to_nat K_NUM_THREAD_PRIO).
Qed.

(** The bitmap agrees with the queues after queue [o] and its word are both rewritten. *)
Lemma mq_bits_update pq pq' o w q :
  0 <= o < PRIQ_BITMAP_SIZE NBITS * NBITS ->
  mq_bits_ok pq ->
  (forall j, 0 <= j -> queue_at pq' j = if decide (j = o) then q else queue_at pq j) ->
  (forall j, 0 <= j -> word_at pq' j = if decide (j = o / NBITS) then w else word_at pq j) ->
  (forall k, 0 <= k < NBITS -> Z.testbit w k =
     if k =? o mod NBITS then negb (bool_decide (q = []))
     else Z.testbit (word_at pq (o / NBITS)) k) ->
  mq_bits_ok pq'.
Proof.
  intros Ho Hb Hq Hw Hk i Hi. destruct (bit_position i) as [Hiw Hib]; [done|].
  unfold mq_bit. rewrite Hq, Hw by lia. specialize (Hb i Hi). unfold mq_bit in Hb.
  case_decide as Ew.
  - rewrite Hk by lia. destruct (Z.eqb_spec (i mod NBITS) (o mod NBITS)).
    + rewrite decide_True; [done|]. by apply bit_position_inj.
    + rewrite decide_False by congruence. by rewrite <- Ew, Hb.
  - rewrite decide_False by congruence. done.
Qed.

Lemma mq_add_ok thr pq t : mq_ok thr pq -> valid_prio (thr t).(prio) ->
  mq_ok thr (z_priq_mq_add NBITS thr pq t) /\
  mq_abs (z_priq_mq_add NBITS thr pq t) = z_priq_simple_add thr (mq_abs pq) t.
Proof.
  intros Hok Hv. pose proof (valid_offset _ Hv) as Ho. pose proof nbits_pos. pose proof bitmap_covers.
  unfold z_priq_mq_add. rewrite get_prio_info_valid by done. cbn [offset_prio idx bitn].
  set (o := (thr t).(prio) - K_HIGHEST_THREAD_PRIO) in *.
  destruct (bit_position o) as [Hpw Hpb]; [lia|].
  destruct Hok as [Hl Hlw Hp Hr Hb [Hc Hf]].
  set (qs := <[_ := _]> (queues pq)). set (bm := <[_ := _]> (bitmask pq)). set (c := if o <? _ then _ else _).
  assert (Hqa : forall j, 0 <= j -> queue_at (Priq_mq qs bm c) j =
      if decide (j = o) then queue_at pq o ++ [t] else queue_at pq j)
    by (intros; by apply queue_at_insert).
  assert (Hwa : forall j, 0 <= j -> word_at (Priq_mq qs bm c) j =
      if decide (j = o / NBITS) then word_at pq (o / NBITS) .| bit (o mod NBITS) else word_at pq j)
    by (intros; by apply word_at_insert).
  assert (Ht : queue_at pq o ++ [t] <> []) by (by destruct (queue_at pq o)).
  split; [split|].
  - unfold qs. simpl. by rewrite length_insert.
  - unfold bm. simpl. by rewrite length_insert.
  - intros i x Hi. rewrite Hqa by done. case_decide; [subst i|by apply Hp].
    intros [Hx|Hx]%elem_of_app; [by apply Hp|]. apply list_elem_of_singleton in Hx as ->.
    unfold o. lia.
  - intros w Hw. rewrite Hwa by done. case_decide; [|by apply Hr].
    apply lor_bound; [lia|apply Hr; lia|by apply bit_bound].
  - eapply mq_bits_update; [|done|done|done|]; [lia|]. intros k Hk.
    rewrite testbit_set, (bool_decide_eq_false_2 (_ ++ _ = [])) by (done || lia).
    destruct (k =? o mod NBITS); [apply orb_true_r|apply orb_false_r].
  - unfold first_queue, c. cbn [cached_queue_index].
    destruct (Z.ltb_spec o (cached_queue_index pq)); (split; [lia|left]); rewrite Hqa by lia.
    + rewrite decide_True by done. split; [done|].
      intros j Hj. rewrite Hqa, decide_False by lia.
      destruct Hf as [[_ Hf]|[_ Hf]]; apply Hf; lia.
    + split; [case_decide; [done|]; destruct Hf as [[Hn _]|[Hlast _]]; [done|lia]|].
      intros j Hj. rewrite Hqa, decide_False by lia.
      destruct Hf as [[_ Hf]|[_ Hf]]; apply Hf; lia.
  - unfold mq_abs, qs. simpl.
    pose proof (concat_add thr (queues pq) K_HIGHEST_THREAD_PRIO t Hdl) as E. fold o in E.
    apply E.
    + intros i q x Hi Hx. apply (Hp (Z.of_nat i)); [lia|]. unfold queue_at. by rewrite Nat2Z.id, Hi.
    + rewrite Hl. lia.
Qed.

Lemma mq_remove_queue thr pq t bm c j : mq_ok thr pq -> 0 <= j ->
  let o := (thr t).(prio) - K_HIGHEST_THREAD_PRIO in
  queue_at (Priq_mq (dequeue_from t pq.(queues)) bm c) j =
    if decide (j = o) then filter (fun x => x <> t) (queue_at pq o) else queue_at pq j.
Proof.
  intros Hok Hj o. rewrite queue_at_dequeue. case_decide; [by subst|].
  apply filter_ne_id. intros Hx. by apply (mq_offset thr) in Hx.
Qed.

Lemma mq_remove_abs pq t bm c :
  mq_abs (Priq_mq (dequeue_from t pq.(queues)) bm c) = z_priq_simple_remove (mq_abs pq) t.
Proof. unfold mq_abs, z_priq_simple_remove. by rewrite filter_concat. Qed.

Lemma mq_remove_ok thr pq t : mq_ok thr pq -> t ∈ mq_abs pq ->
  mq_ok thr (z_priq_mq_remove NBITS thr pq t) /\
  mq_abs (z_priq_mq_remove NBITS thr pq t) = z_priq_simple_remove (mq_abs pq) t.
Proof.
  intros Hok Ht. destruct (mq_abs_queue thr pq t Hok Ht) as [Ho Hto].
  pose proof nbits_pos. pose proof bitmap_covers.
  pose proof (fun bm c j => mq_remove_queue thr pq t bm c j Hok) as Hqa. cbv zeta in Hqa.
  unfold z_priq_mq_remove. rewrite get_prio_info_valid by (by apply offset_valid).
  cbn [offset_prio idx bitn queues bitmask cached_queue_index].
  set (o := (thr t).(prio) - K_HIGHEST_THREAD_PRIO) in *.
  destruct (bit_position o) as [Hpw Hpb]; [lia|].
  rewrite (Hqa _ _ o), (decide_True _ _ eq_refl) by lia.
  destruct Hok as [Hl Hlw Hp Hr Hb [Hc Hf]].
  assert (Hl' : length (dequeue_from t (queues pq)) = Z.to_nat K_NUM_THREAD_PRIO)
    by (unfold dequeue_from; by rewrite length_fmap).
  assert (Hp' : forall bm c i x, 0 <= i -> x ∈ queue_at (Priq_mq (dequeue_from t (queues pq)) bm c) i ->
    (thr x).(prio) = K_HIGHEST_THREAD_PRIO + i).
  { intros bm c i x Hi. rewrite queue_at_dequeue. intros [_ Hx]%list_elem_of_filter. by apply Hp. }
  case_bool_decide as Hemp; (split; [|apply mq_remove_abs]).
  - set (bm := <[_ := _]> _).
    assert (Hwa : forall qs c j, 0 <= j -> word_at (Priq_mq qs bm c) j =
      if decide (j = o / NBITS) then word_at pq (o / NBITS) .& Z.lnot (bit (o mod NBITS))
      else word_at pq j) by (intros; by apply (word_at_insert pq)).
    assert (Hr' : forall qs c w, 0 <= w -> 0 <= word_at (Priq_mq qs bm c) w < 2 ^ NBITS).
    { intros. rewrite Hwa by done. case_decide; [|by apply Hr]. apply land_bound; [lia|].
      apply Hr. lia. }
    assert (Hb' : forall c, mq_bits_ok (Priq_mq (dequeue_from t (queues pq)) bm c)).
    { intros c. eapply mq_bits_update; [|done|by apply Hqa|by apply Hwa|]; [lia|]. intros k Hk.
      rewrite testbit_clear, (bool_decide_eq_true_2 _ Hemp) by lia.
      destruct (k =? o mod NBITS); [apply andb_false_r|apply andb_true_r]. }
    assert (Hlb : length bm = Z.to_nat (PRIQ_BITMAP_SIZE NBITS)) by (unfold bm; by rewrite length_insert).
    split; [done|done|by apply Hp'|by apply Hr'|by apply Hb'|].
    apply best_index_first; [done|done|by apply Hr'|by apply Hb'].
  - split; [done|done|by apply Hp'|done| |].
    + intros i Hi. rewrite Hqa by lia. change (mq_bit _ i) with (mq_bit pq i). rewrite Hb by done.
      case_decide; [subst i|done]. rewrite !bool_decide_eq_false_2; [done|done|].
      intros E. by rewrite E in Hemp.
    + split; [done|]. destruct Hf as [[Hn Hf]|[_ Hf]]; [left|rewrite (Hf o) in Hto by lia; set_solver].
      cbn [cached_queue_index]. rewrite Hqa by lia. split; [by case_decide|].
      intros j Hj. rewrite Hqa by lia. case_decide; [|by apply Hf].
      subst j. rewrite (Hf o) in Hemp by lia. done.
Qed.

Lemma mq_yield_ok thr pq t : mq_ok thr pq -> t ∈ mq_abs pq ->
  mq_ok thr (z_priq_mq_yield NBITS thr pq t) /\
  mq_abs (z_priq_mq_yield NBITS thr pq t) =
    z_priq_simple_add thr (z_priq_simple_remove (mq_abs pq) t) t.
Proof.
  intros Hok Ht. destruct (mq_abs_queue thr pq t Hok Ht) as [Ho Hto].
  pose proof bitmap_covers.
  pose proof (fun bm c j => mq_remove_queue thr pq t bm c j Hok) as Hqa. cbv zeta in Hqa.
  unfold z_priq_mq_yield. rewrite get_prio_info_valid by (by apply offset_valid).
  cbn [offset_prio idx bitn queues bitmask cached_queue_index].
  set (o := (thr t).(prio) - K_HIGHEST_THREAD_PRIO) in *.
  destruct Hok as [Hl Hlw Hp Hr Hb [Hc Hf]].
  set (pq1 := Priq_mq (dequeue_from t (queues pq)) (bitmask pq) (cached_queue_index pq)) in *.
  assert (Hl' : length (queues pq1) = Z.to_nat K_NUM_THREAD_PRIO)
    by (unfold pq1, dequeue_from; simpl; by rewrite length_fmap).
  set (qs := <[_ := _]> _).
  assert (Hya : forall j, 0 <= j -> queue_at (Priq_mq qs (bitmask pq) (cached_queue_index pq)) j =
     if decide (j = o) then queue_at pq1 o ++ [t] else queue_at pq j).
  { intros j Hj. unfold qs. rewrite (queue_at_insert pq1) by done.
    case_decide; [done|]. unfold pq1. rewrite Hqa by done. by rewrite decide_False. }
  assert (Hne : queue_at pq1 o ++ [t] <> []) by (by destruct (queue_at pq1 o)).
  assert (Hoe : queue_at pq o <> []) by (intros E; rewrite E in Hto; by apply not_elem_of_nil in Hto).
  assert (Hp1 : forall i x, 0 <= i -> x ∈ queue_at pq1 i -> (thr x).(prio) = K_HIGHEST_THREAD_PRIO + i).
  { intros i x Hi. unfold pq1. rewrite queue_at_dequeue. intros [_ Hx]%list_elem_of_filter. by apply Hp. }
  split; [split|].
  - unfold qs. cbn [queues]. by rewrite length_insert.
  - done.
  - intros i x Hi. rewrite Hya by done. case_decide; [subst i|by apply Hp].
    intros [Hx|Hx]%elem_of_app; [by apply Hp1|]. apply list_elem_of_singleton in Hx as ->.
    unfold o. lia.
  - done.
  - intros i Hi. rewrite Hya by lia. change (mq_bit _ i) with (mq_bit pq i). rewrite Hb by done.
    case_decide; [subst i|done]. by rewrite !bool_decide_eq_false_2.
  - split; [done|]. destruct Hf as [[Hn Hf]|[_ Hf]]; [left|by rewrite (Hf o) in Hoe by lia].
    cbn [cached_queue_index]. rewrite Hya by lia. split; [by case_decide|].
    intros j Hj. rewrite Hya by lia. case_decide; [|by apply Hf].
    subst j. by rewrite (Hf o) in Hoe by lia.
  - unfold mq_abs at 1. cbn [queues]. unfold qs.
    pose proof (concat_add thr (queues pq1) K_HIGHEST_THREAD_PRIO t Hdl) as E. fold o in E.
    rewrite <- (mq_remove_abs pq t (bitmask pq) (cached_queue_index pq)). apply E.
    + intros i q x Hi Hx. apply (Hp1 (Z.of_nat i)); [lia|]. unfold queue_at. by rewrite Nat2Z.id, Hi.
    + rewrite Hl'. lia.
Qed.

Lemma mq_best_ok thr pq : mq_ok thr pq -> z_priq_mq_best pq = z_priq_simple_best (mq_abs pq).
Proof.
  intros [Hl Hlw Hp Hr Hb [Hc Hf]]. pose proof num_prio_pos.
  unfold z_priq_mq_best, z_priq_simple_best, mq_abs.
  destruct Hf as [[Hn Hf]|[_ Hf]].
  - symmetry. apply (concat_head _ (Z.to_nat (cached_queue_index pq))).
    + unfold queue_at in *. by destruct (_ !! _).
    + done.
    + intros j q Hj Hq. specialize (Hf (Z.of_nat j) ltac:(lia)). unfold queue_at in Hf.
      by rewrite Nat2Z.id, Hq in Hf.
  - rewrite Hf by done. replace (concat (queues pq)) with (@nil tid); [done|].
    symmetry. apply elem_of_nil_inv. intros x (i & q & Hi & Hx)%concat_lookup_elem.
    specialize (Hf (Z.of_nat i)). unfold queue_at in Hf. rewrite Nat2Z.id, Hi in Hf.
    apply lookup_lt_Some in Hi. simpl in Hf. rewrite Hf in Hx by lia. by apply not_elem_of_nil in Hx.
Qed.

Lemma mq_abs_sorted thr pq : mq_ok thr pq -> prio_sorted thr (mq_abs pq).
Proof.
  intros Hok. apply (concat_sorted thr _ K_HIGHEST_THREAD_PRIO); [done|].
  intros i q x Hi Hx. apply (mq_prio _ _ Hok (Z.of_nat i)); [lia|].
  unfold queue_at. by rewrite Nat2Z.id, Hi.
Qed.

Lemma mq_ok_frame thr thr' pq : mq_ok thr pq ->
  (forall x, x ∈ mq_abs pq -> (thr' x).(prio) = (thr x).(prio)) -> mq_ok thr' pq.
Proof.
  intros Hok He. destruct Hok as [Hl Hlw Hp Hr Hb Hc]. split; try done.
  intros i t Hi Ht. rewrite He; [by apply Hp|]. unfold mq_abs. apply concat_lookup_elem.
  unfold queue_at in Ht. destruct (queues pq !! Z.to_nat i) as [q|] eqn:E; [|set_solver].
  by exists (Z.to_nat i), q.
Qed.
End multiq.

(** ** The interface of a run queue *)

Lemma deadlines_off `{Config} thr ts : CONFIG_SCHED_DEADLINE = false -> deadlines_ok thr ts.
Proof. intros E E'. congruence. Qed.

Class RunQueue `{Config} := {
  rq : Type;
  rq_init : rq;
  rq_add : (tid -> k_thread) -> rq -> tid -> rq;
  rq_remove : (tid -> k_thread) -> rq -> tid -> rq;
  rq_yield : (tid -> k_thread) -> rq -> tid -> rq;
  rq_best : rq -> option tid;
  (** The threads it holds, best first. *)
  rq_abs : rq -> list tid;
  rq_ok : (tid -> k_thread) -> rq -> Prop;
  rq_init_law : forall thr, rq_ok thr rq_init /\ rq_abs rq_init = [];
  rq_add_law : forall thr q t, rq_ok thr q -> valid_prio (thr t).(prio) ->
    deadlines_ok thr (t :: rq_abs q) -> t ∉ rq_abs q ->
    rq_ok thr (rq_add thr q t) /\ rq_abs (rq_add thr q t) = z_priq_simple_add thr (rq_abs q) t;
  rq_remove_law : forall thr q t, rq_ok thr q -> t ∈ rq_abs q ->
    rq_ok thr (rq_remove thr q t) /\
    rq_abs (rq_remove thr q t) = z_priq_simple_remove (rq_abs q) t;
  rq_yield_law : forall thr q t, rq_ok thr q -> deadlines_ok thr (t :: rq_abs q) -> t ∈ rq_abs q ->
    rq_ok thr (rq_yield thr q t) /\
    rq_abs (rq_yield thr q t) = z_priq_simple_add thr (z_priq_simple_remove (rq_abs q) t) t;
  rq_best_law : forall thr q, rq_ok thr q -> rq_best q = head (rq_abs q);
  rq_sorted_law : forall thr q, rq_ok thr q -> prio_sorted thr (rq_abs q) /\ NoDup (rq_abs q);
  rq_frame_law : forall thr thr' q, rq_ok thr q ->
    (forall x, x ∈ rq_abs q -> (thr' x).(prio) = (thr x).(prio) /\
       (thr' x).(prio_deadline) = (thr x).(prio_deadline)) -> rq_ok thr' q
}.

Section instances.
Context `{Config}.

Lemma remove_nodup pq t : NoDup pq -> NoDup (z_priq_simple_remove pq t).
Proof. apply NoDup_filter. Qed.

Lemma add_nodup thr pq t : NoDup pq -> t ∉ pq -> NoDup (z_priq_simple_add thr pq t).
Proof. intros. rewrite add_perm. by constructor. Qed.

Lemma deadlines_sub thr ts ts' : deadlines_ok thr ts -> (forall x, x ∈ ts' -> x ∈ ts) ->
  deadlines_ok thr ts'.
Proof. intros Hd Hs E. destruct (Hd E) as [b Hb]. exists b. auto. Qed.

Lemma sorted_frame thr thr' pq : prio_sorted thr pq ->
  (forall x, x ∈ pq -> (thr' x).(prio) = (thr x).(prio) /\
     (thr' x).(prio_deadline) = (thr x).(prio_deadline)) -> prio_sorted thr' pq.
Proof.
  intros Hs He. unfold prio_sorted in *. induction Hs as [|x pq Hs IH Hx]; [constructor|].
  constructor; [apply IH; set_solver|]. rewrite Forall_forall in *. intros y Hy.
  specialize (Hx y Hy). unfold before_eq, z_sched_prio_cmp in *.
  destruct (He x) as [-> ->]; [set_solver|]. destruct (He y) as [-> ->]; [set_solver|]. done.
Qed.

Lemma add_not_nil thr pq t : z_priq_simple_add thr pq t <> [].
Proof. destruct pq as [|x pq]; simpl; [done|]. by case_match. Qed.

Lemma deadlines_add thr pq t : deadlines_ok thr (t :: pq) ->
  deadlines_ok thr (z_priq_simple_add thr pq t).
Proof. intros Hd. eapply deadlines_sub; [done|]. intros x. rewrite elem_of_add. set_solver. Qed.

Lemma add_split thr pq t : prio_sorted thr pq -> deadlines_ok thr (t :: pq) ->
  exists pq1 pq2, pq = pq1 ++ pq2 /\ z_priq_simple_add thr pq t = pq1 ++ t :: pq2 /\
   (forall x, x ∈ pq1 -> z_sched_prio_cmp thr t x <= 0) /\
   (forall x, x ∈ pq2 -> 0 < z_sched_prio_cmp thr t x).
Proof.
  intros Hs Hd. destruct (before_eq_rank _ _ Hd) as [r Hr]. rewrite add_is_insert_when.
  destruct (insert_when_split (fun x => 0 <? z_sched_prio_cmp thr t x) t pq)
    as (xs1 & xs2 & -> & E & H1 & H2).
  exists xs1, xs2. split; [done|]. split; [done|]. rewrite Forall_forall in H1. split.
  - intros x Hx. specialize (H1 x Hx). simpl in H1. lia.
  - apply sorted_app_inv in Hs as (_ & Hs & _). destruct xs2 as [|h xs2]; [set_solver|].
    specialize (H2 h eq_refl). apply Z.ltb_lt in H2.
    apply StronglySorted_inv in Hs as [_ Hh]. rewrite Forall_forall in Hh.
    intros x [->|Hx]%elem_of_cons; [done|]. specialize (Hh x Hx).
    apply (Hr h t) in H2; [|set_solver..]. apply (Hr h x) in Hh; [|set_solver..].
    apply (Hr x t); [set_solver..|]. lia.
Qed.

Lemma best_of_sorted thr pq : pq <> [] -> deadlines_ok thr pq -> prio_sorted thr pq ->
  exists b, z_priq_simple_best pq = Some b /\ forall x, x ∈ pq -> z_sched_prio_cmp thr x b <= 0.
Proof.
  intros Hne Hd Hs. destruct pq as [|b pq]; [done|]. exists b. split; [done|].
  intros x Hx. destruct (best_is_first thr (b :: pq) b Hs eq_refl x Hx) as [| ->]; [done|].
  destruct (before_eq_rank _ _ Hd) as [r Hr]. apply (Hr b b); [set_solver..|]. lia.
Qed.

(** CONFIG_SCHED_SIMPLE. *)
#[refine] Instance simple_RunQueue : RunQueue := {
  rq := list tid;
  rq_init := z_priq_simple_init;
  rq_add := z_priq_simple_add;
  rq_remove _ := z_priq_simple_remove;
  rq_yield := z_priq_simple_yield;
  rq_best := z_priq_simple_best;
  rq_abs q := q;
  rq_ok thr q := prio_sorted thr q /\ NoDup q
}.
Proof.
  - intros thr. repeat constructor.
  - intros thr q t [Hs Hn] _ Hd Ht. split; [|done].
    split; [by apply add_sorted|by apply add_nodup].
  - intros thr q t [Hs Hn] Ht. split; [|done].
    split; [by apply remove_sorted|by apply remove_nodup].
  - intros thr q t [Hs Hn] Hd Ht. rewrite yield_remove_add by done. split; [|done]. split.
    + apply add_sorted; [|by apply remove_sorted]. eapply deadlines_sub; [done|].
      intros x. rewrite !elem_of_cons, elem_of_remove. naive_solver.
    + apply add_nodup; [by apply remove_nodup|]. rewrite elem_of_remove. naive_solver.
  - done.
  - done.
  - intros thr thr' q [Hs Hn] He. split; [|done]. by eapply sorted_frame.
Defined.

(** CONFIG_SCHED_MULTIQ, which Kconfig does not combine with deadlines. *)
#[refine] Instance mq_RunQueue (NBITS : Z) (HN : NBITS = 32 \/ NBITS = 64)
  (Hcoop : 0 <= CONFIG_NUM_COOP_PRIORITIES) (Hpre : 0 <= CONFIG_NUM_PREEMPT_PRIORITIES)
  (Hnum : K_NUM_THREAD_PRIO <= 256) (Hdl : CONFIG_SCHED_DEADLINE = false) : RunQueue := {
  rq := _priq_mq;
  rq_init := z_priq_mq_init NBITS;
  rq_add := z_priq_mq_add NBITS;
  rq_remove := z_priq_mq_remove NBITS;
  rq_yield := z_priq_mq_yield NBITS;
  rq_best := z_priq_mq_best;
  rq_abs := mq_abs;
  rq_ok thr q := mq_ok NBITS thr q /\ NoDup (mq_abs q)
}.
Proof.
  - intros thr. destruct (mq_init_ok NBITS HN Hcoop Hpre Hnum Hdl thr) as [Hok Ha]. rewrite Ha.
    split; [split; [done|constructor]|done].
  - intros thr q t [Hok Hn] Hv _ Ht.
    destruct (mq_add_ok NBITS HN Hnum Hdl thr q t Hok Hv) as [Hok' Ha].
    rewrite Ha. split; [|done]. split; [done|by apply add_nodup].
  - intros thr q t [Hok Hn] Ht.
    destruct (mq_remove_ok NBITS HN Hcoop Hpre Hnum Hdl thr q t Hok Ht) as [Hok' Ha].
    rewrite Ha. split; [|done]. split; [done|by apply remove_nodup].
  - intros thr q t [Hok Hn] _ Ht.
    destruct (mq_yield_ok NBITS HN Hcoop Hpre Hnum Hdl thr q t Hok Ht) as [Hok' Ha].
    rewrite Ha. split; [|done]. split; [done|]. apply add_nodup; [by apply remove_nodup|].
    rewrite elem_of_remove. naive_solver.
  - intros thr q [Hok _]. by apply (mq_best_ok NBITS Hcoop Hpre thr).
  - intros thr q [Hok Hn]. split; [|done]. by apply (mq_abs_sorted NBITS Hdl).
  - intros thr thr' q [Hok Hn] He. split; [|done]. apply (mq_ok_frame NBITS HN Hcoop Hpre Hnum Hdl thr); [done|].
    intros x Hx. apply He, Hx.
Defined.
End instances.

(** ** Sequences of operations on both queues *)

Inductive priq_op :=
| PriqAdd (t : tid)
| PriqRemove (t : tid)
| PriqYield (t : tid).

Section runs.
Context `{Config} (NBITS : Z).
Context (HN : NBITS = 32 \/ NBITS = 64).
Context (Hcoop : 0 <= CONFIG_NUM_COOP_PRIORITIES) (Hpre : 0 <= CONFIG_NUM_PREEMPT_PRIORITIES).
Context (Hnum : K_NUM_THREAD_PRIO <= 256) (Hdl : CONFIG_SCHED_DEADLINE = false).

Fixpoint mq_run (thr : tid -> k_thread) (ops : list priq_op) (pq : _priq_mq) : _priq_mq :=
  match ops with
  | [] => pq
  | PriqAdd t :: ops => mq_run thr ops (z_priq_mq_add NBITS thr pq t)
  | PriqRemove t :: ops => mq_run thr ops (z_priq_mq_remove NBITS thr pq t)
  | PriqYield t :: ops => mq_run thr ops (z_priq_mq_yield NBITS thr pq t)
  end.

Fixpoint simple_run (thr : tid -> k_thread) (ops : list priq_op) (pq : list tid) : list tid :=
  match ops with
  | [] => pq
  | PriqAdd t :: ops => simple_run thr ops (z_priq_simple_add thr pq t)
  | PriqRemove t :: ops => simple_run thr ops (z_priq_simple_remove pq t)
  | PriqYield t :: ops => simple_run thr ops (z_priq_simple_yield thr pq t)
  end.

(** The callers' obligations: only queued threads are removed or yielded, only
    threads that are not queued and have a valid priority are added. *)
Fixpoint priq_ops_ok (thr : tid -> k_thread) (ops : list priq_op) (q : list tid) : Prop :=
  match ops with
  | [] => True
  | PriqAdd t :: ops => (t ∉ q) /\ valid_prio (thr t).(prio) /\ priq_ops_ok thr ops (t :: q)
  | PriqRemove t :: ops => t ∈ q /\ priq_ops_ok thr ops (filter (fun x => x <> t) q)
  | PriqYield t :: ops => t ∈ q /\ priq_ops_ok thr ops q
  end.

Lemma priq_ops_ok_perm thr ops q q' : q ≡ₚ q' -> priq_ops_ok thr ops q -> priq_ops_ok thr ops q'.
Proof.
  revert q q'. induction ops as [|[t|t|t] ops IH]; intros q q' Hp; simpl; [done|..].
  - intros (? & ? & ?). split; [by rewrite <- Hp|]. split; [done|]. eapply IH; [|done]. by rewrite Hp.
  - intros (? & ?). split; [by rewrite <- Hp|]. eapply IH; [|done]. by rewrite Hp.
  - intros (? & ?). split; [by rewrite <- Hp|]. by eapply IH.
Qed.

Lemma mq_run_ok thr ops pq : mq_ok NBITS thr pq -> NoDup (mq_abs pq) ->
  priq_ops_ok thr ops (mq_abs pq) ->
  mq_ok NBITS thr (mq_run thr ops pq) /\ mq_abs (mq_run thr ops pq) = simple_run thr ops (mq_abs pq).
Proof.
  revert pq. induction ops as [|[t|t|t] ops IH]; intros pq Hok Hn Hops; [done|..]; simpl in *.
  - destruct Hops as (Ht & Hv & Hops).
    destruct (mq_add_ok NBITS HN Hnum Hdl thr pq t Hok Hv) as [Hok' <-].
    apply IH; [done|..]; rewrite (proj2 (mq_add_ok NBITS HN Hnum Hdl thr pq t Hok Hv)).
    + by apply add_nodup.
    + eapply priq_ops_ok_perm; [|done]. by rewrite add_perm.
  - destruct Hops as (Ht & Hops).
    destruct (mq_remove_ok NBITS HN Hcoop Hpre Hnum Hdl thr pq t Hok Ht) as [Hok' E].
    rewrite <- E. apply IH; [done|..]; rewrite E; [by apply remove_nodup|done].
  - destruct Hops as (Ht & Hops).
    destruct (mq_yield_ok NBITS HN Hcoop Hpre Hnum Hdl thr pq t Hok Ht) as [Hok' E].
    rewrite (yield_remove_add thr (mq_abs pq) t), <- E by (done || by apply (mq_abs_sorted NBITS Hdl)).
    assert (t ∉ z_priq_simple_remove (mq_abs pq) t) by (rewrite elem_of_remove; naive_solver).
    apply IH; [done|..]; rewrite E; [by apply add_nodup; [apply remove_nodup|]|].
    eapply priq_ops_ok_perm; [|done]. rewrite add_perm.
    apply NoDup_Permutation; [done|by constructor; [|apply remove_nodup]|].
    intros x. rewrite elem_of_cons, elem_of_remove. destruct (decide (x = t)); naive_solver.
Qed.
End runs.

(** ** Properties *)

(** Priority queue discipline of [z_priq_simple_add]: the thread is placed
    behind every thread that is not of strictly lower priority and in front of
    the rest (so first-in first-out among equals), nothing else moves, the queue
    stays sorted, and [z_priq_simple_best] then returns a thread no other thread
    of the queue beats.  Deadlines are covered, under the documented rule that
    those compared lie within half of the 32-bit range. *)
Theorem priq_simple_discipline `{Config} (thr : tid -> k_thread) (pq : list tid) (t : tid) :
  prio_sorted thr pq -> deadlines_ok thr (t :: pq) ->
  let pq' := z_priq_simple_add thr pq t in
  prio_sorted thr pq' /\
  (exists pq1 pq2, pq = pq1 ++ pq2 /\ pq' = pq1 ++ t :: pq2 /\
     (forall x, x ∈ pq1 -> z_sched_prio_cmp thr t x <= 0) /\
     (forall x, x ∈ pq2 -> 0 < z_sched_prio_cmp thr t x)) /\
  (exists b, z_priq_simple_best pq' = Some b /\
     forall x, x ∈ pq' -> z_sched_prio_cmp thr x b <= 0).
Proof.
  intros Hs Hd pq'. assert (Hs' : prio_sorted thr pq') by (by apply add_sorted). split; [done|].
  split; [by apply add_split|]. by apply best_of_sorted; [apply add_not_nil|eapply deadlines_add|].
Qed.

#[local] Existing Instance example_config.

Lemma priq_simple_discipline_witness :
  let thr := fun t : tid => example_thread (if decide (t = 2%nat) then 1 else 3) in
  prio_sorted thr (z_priq_simple_add thr [2; 4]%nat 5) /\
  z_priq_simple_add thr [2; 4]%nat 5 = [2; 4; 5]%nat.
Proof.
  intros thr.
  assert (Hs : prio_sorted thr [2; 4]%nat) by (repeat constructor; by vm_compute).
  destruct (priq_simple_discipline thr [2; 4]%nat 5 Hs) as [H _]; [by apply deadlines_off|].
  split; [exact H|reflexivity].
Defined.

(** C37. The multi-queue implements the simple queue: on every sequence of
    additions (of threads with valid priorities, not already queued), removals
    and yields of queued threads, the threads it holds, their order and the best
    one are those of the sorted list, and its bitmap and cached index stay
    consistent. *)
Theorem priq_mq_refines_simple `{Config} (NBITS : Z) (thr : tid -> k_thread) (ops : list priq_op) :
  NBITS = 32 \/ NBITS = 64 ->
  0 <= CONFIG_NUM_COOP_PRIORITIES -> 0 <= CONFIG_NUM_PREEMPT_PRIORITIES ->
  K_NUM_THREAD_PRIO <= 256 -> CONFIG_SCHED_DEADLINE = false ->
  priq_ops_ok thr ops [] ->
  let mq := mq_run NBITS thr ops (z_priq_mq_init NBITS) in
  let sq := simple_run thr ops z_priq_simple_init in
  mq_ok NBITS thr mq /\ mq_abs mq = sq /\ z_priq_mq_best mq = z_priq_simple_best sq.
Proof.
  intros HN Hc Hp Hn Hd Hops mq sq.
  destruct (mq_init_ok NBITS HN Hc Hp Hn Hd thr) as [Hi Ha].
  destruct (mq_run_ok NBITS HN Hc Hp Hn Hd thr ops (z_priq_mq_init NBITS)) as (H1 & H2);
    [done|rewrite Ha; constructor|by rewrite Ha|].
  fold mq in H1, H2. rewrite Ha in H2. split; [done|]. split; [done|].
  rewrite (mq_best_ok NBITS Hc Hp thr) by done. by rewrite H2.
Qed.

Lemma priq_mq_refines_simple_witness :
  let thr := fun t : tid => example_thread (Z.of_nat t) in
  z_priq_mq_best (mq_run 32 thr [PriqAdd 3; PriqAdd 1; PriqAdd 2; PriqYield 1; PriqRemove 1]
                    (z_priq_mq_init 32)) = Some 2%nat.
Proof.
  intros thr.
  destruct (priq_mq_refines_simple 32 thr [PriqAdd 3; PriqAdd 1; PriqAdd 2; PriqYield 1; PriqRemove 1])
    as (_ & _ & H).
  - by left.
  - by vm_compute.
  - by vm_compute.
  - by vm_compute.
  - reflexivity.
  - repeat split; try (by vm_compute); apply (bool_decide_unpack _); by vm_compute.
  - exact H.
Defined.
