(* ===== verification/Timeout.v ===== *)
(** The timeout subsystem, kernel/timeout.c.

    [TimeoutBackend] is the interface between the front end of timeout.c and the
    queue it is built with (Kconfig choice TIMEOUT_BACKEND): the operations
    [z_timeout_q_*] and what they promise about the map from pending timeouts to
    their absolute expiry ticks.  The front end below is proved against the
    interface only; TimeoutList, TimeoutBucket and TimeoutMinheap discharge it.

    The model is uniprocessor (CONFIG_SMP off): [CPU_ID] is 0.  Timeouts are
    named by the address of their [struct _timeout].  The timer driver is the
    pair of fields [hw_elapsed], what [sys_clock_elapsed] returns now, and
    [hw_deadline], the absolute tick by which the driver was last asked to
    announce ([None] after [sys_clock_no_timeout]). *)

From S2P Require Import Prelude Thread.
From stdpp Require Import gmap.
#[local] Open Scope Z_scope.

Definition toid := Z.
Bind Scope Z_scope with toid.
Definition NULL : toid := 0.

Definition K_TICKS_FOREVER : Z := -1.
Definition K_FOREVER : Z := K_TICKS_FOREVER.
Definition K_NO_WAIT : Z := 0.
Definition Z_TICK_ABS (t : Z) : Z := K_TICKS_FOREVER - 1 - t.
Definition Z_IS_TIMEOUT_RELATIVE (timeout : Z) : bool := 0 <=? timeout.
Definition UINT32_MAX : Z := 2 ^ 32 - 1.
Definition UINT64_MAX : Z := 2 ^ 64 - 1.
Definition INT32_MAX : Z := 2 ^ 31 - 1.
Definition INT64_MAX : Z := 2 ^ 63 - 1.
Definition SYS_CLOCK_MAX_WAIT : Z := UINT32_MAX / 2.

(** ** The queue interface *)

(** Every pending timeout expires at [lo] or later. *)
Definition not_before (lo : Z) (m : gmap toid Z) : Prop :=
  forall t e, m !! t = Some e -> lo <= e.

(** Ticks stay below [INT64_MAX], the largest tick [K_TIMEOUT_ABS_TICKS] lets
    through; node addresses are not NULL. *)
Definition MAX_TICK : Z := INT64_MAX - 1.
Definition expiries_ok (m : gmap toid Z) : Prop :=
  forall t e, m !! t = Some e -> 0 <= e <= MAX_TICK /\ t <> NULL.

Class TimeoutBackend := {
  tq : Type;
  (** [!z_is_inactive_timeout] *)
  tq_active : tq -> toid -> bool;
  tq_insert : Z -> tq -> toid -> Z -> tq * bool;
  tq_remove : Z -> tq -> toid -> tq * bool;
  tq_remainder : Z -> tq -> toid -> Z;
  tq_next_expiry : Z -> tq -> Z;
  tq_next_gap : Z -> tq -> Z;
  tq_advance : Z -> tq -> Z -> tq;
  tq_pop_due : Z -> tq -> option (toid * tq);
  (** [tq_ok now q m]: at tick [now], [q] holds the timeouts of [m], which maps
      each of them to its absolute expiry. *)
  tq_ok : Z -> tq -> gmap toid Z -> Prop;
  (** Whether one more timeout fits. *)
  tq_room : tq -> Prop;
  tq_ok_expiries : forall now q m, tq_ok now q m -> 0 <= now /\ expiries_ok m /\ not_before now m;
  tq_active_law : forall now q m t, tq_ok now q m ->
    tq_active q t = bool_decide (is_Some (m !! t));
  tq_insert_law : forall now q m t d, tq_ok now q m -> tq_room q -> m !! t = None -> t <> NULL ->
    0 <= d -> now + d <= MAX_TICK ->
    tq_ok now (tq_insert now q t d).1 (<[t := now + d]> m) /\
    (not_before (now + 1) m -> 0 < d ->
       ((tq_insert now q t d).2 = true <-> not_before (now + d + 1) m));
  tq_remove_law : forall now q m t e, tq_ok now q m -> m !! t = Some e ->
    tq_ok now (tq_remove now q t).1 (delete t m) /\
    (not_before (now + 1) m -> (tq_remove now q t).2 = false ->
       exists t' e', t' <> t /\ m !! t' = Some e' /\ e' <= e);
  tq_remainder_law : forall now q m t e, tq_ok now q m -> m !! t = Some e ->
    tq_remainder now q t = e - now;
  tq_next_expiry_law : forall now q m, tq_ok now q m -> not_before (now + 1) m ->
    m = ∅ /\ tq_next_expiry now q = K_TICKS_FOREVER \/
    exists t e, m !! t = Some e /\ not_before e m /\ tq_next_expiry now q = e - now;
  tq_next_gap_law : forall now q m, tq_ok now q m -> not_before (now + 1) m ->
    m = ∅ /\ tq_next_gap now q = INT32_MAX \/
    exists t e, m !! t = Some e /\ not_before e m /\ tq_next_gap now q = Z.min (e - now) INT32_MAX;
  tq_advance_law : forall now q m d, tq_ok now q m -> not_before (now + 1) m -> 0 <= d <= INT32_MAX ->
    not_before (now + d) m -> now + d <= MAX_TICK -> tq_ok (now + d) (tq_advance now q d) m;
  tq_pop_due_law : forall now q m, tq_ok now q m ->
    match tq_pop_due now q with
    | None => not_before (now + 1) m
    | Some (t, q') => m !! t = Some now /\ tq_ok now q' (delete t m)
    end
}.

(** ** The front end *)

Record clock `{TimeoutBackend} := Clock {
  queue : tq;
  fn : toid -> nat;
  curr_tick : Z;
  announce_remaining : Z;
  announcing_cpu : Z;
  inflight_timeout : Z;
  hw_elapsed : Z;
  hw_deadline : option Z
}.

(** A state that contains the clock: the handlers of timeouts run on it. *)
Class HasClock `{TimeoutBackend} (X : Type) := {
  clk_of : X -> clock;
  put_clk : clock -> X -> X;
  clk_put : forall c x, clk_of (put_clk c x) = c
}.
#[export] Instance clock_has_clock `{TimeoutBackend} : HasClock clock :=
  {| clk_of := fun c => c; put_clk := fun c _ => c; clk_put := fun c _ => eq_refl |}.

Section front_end.
Context `{Cfg : Config} {TB : TimeoutBackend}.

Definition set_queue (v : tq) (s : clock) : clock :=
  Clock _ v s.(fn) s.(curr_tick) s.(announce_remaining) s.(announcing_cpu) s.(inflight_timeout) s.(hw_elapsed) s.(hw_deadline).
Definition set_fn (v : toid -> nat) (s : clock) : clock :=
  Clock _ s.(queue) v s.(curr_tick) s.(announce_remaining) s.(announcing_cpu) s.(inflight_timeout) s.(hw_elapsed) s.(hw_deadline).
Definition set_curr_tick (v : Z) (s : clock) : clock :=
  Clock _ s.(queue) s.(fn) v s.(announce_remaining) s.(announcing_cpu) s.(inflight_timeout) s.(hw_elapsed) s.(hw_deadline).
Definition set_announce_remaining (v : Z) (s : clock) : clock :=
  Clock _ s.(queue) s.(fn) s.(curr_tick) v s.(announcing_cpu) s.(inflight_timeout) s.(hw_elapsed) s.(hw_deadline).
Definition set_announcing_cpu (v : Z) (s : clock) : clock :=
  Clock _ s.(queue) s.(fn) s.(curr_tick) s.(announce_remaining) v s.(inflight_timeout) s.(hw_elapsed) s.(hw_deadline).
Definition set_inflight_timeout (v : Z) (s : clock) : clock :=
  Clock _ s.(queue) s.(fn) s.(curr_tick) s.(announce_remaining) s.(announcing_cpu) v s.(hw_elapsed) s.(hw_deadline).
Definition set_hw_elapsed (v : Z) (s : clock) : clock :=
  Clock _ s.(queue) s.(fn) s.(curr_tick) s.(announce_remaining) s.(announcing_cpu) s.(inflight_timeout) v s.(hw_deadline).
Definition set_hw_deadline (v : option Z) (s : clock) : clock :=
  Clock _ s.(queue) s.(fn) s.(curr_tick) s.(announce_remaining) s.(announcing_cpu) s.(inflight_timeout) s.(hw_elapsed) v.

Definition CPU_ID : Z := 0.
Definition this_cpu_announcing (s : clock) : bool := s.(announcing_cpu) =? CPU_ID.
Definition any_cpu_announcing (s : clock) : bool := negb (s.(announcing_cpu) =? -1).

Definition INFLIGHT_SUPERSEDED_BIT : Z := 1.
Definition inflight_ptr (s : clock) : toid := s.(inflight_timeout) .& Z.lnot INFLIGHT_SUPERSEDED_BIT.
Definition inflight_mark_superseded (s : clock) : clock :=
  set_inflight_timeout (s.(inflight_timeout) .| INFLIGHT_SUPERSEDED_BIT) s.

(** The driver's entry points.  A request counts from the elapsed ticks the
    kernel has just read ([ticks_elapsed], 0 at the end of an announcement). *)
Definition sys_clock_elapsed (s : clock) : Z := u32 s.(hw_elapsed).
Definition sys_clock_set_timeout (ticks_elapsed ticks : Z) (s : clock) : clock :=
  set_hw_deadline (Some (s.(curr_tick) + ticks_elapsed + ticks)) s.
Definition sys_clock_no_timeout (s : clock) : clock := set_hw_deadline None s.

Definition elapsed (s : clock) : Z :=
  if this_cpu_announcing s then 0 else sys_clock_elapsed s.

Definition next_timeout (s : clock) (ticks_elapsed : Z) : Z :=
  let next := tq_next_expiry s.(curr_tick) s.(queue) in
  if SYS_CLOCK_MAX_WAIT <=? ticks_elapsed then 0
  else if (next =? K_TICKS_FOREVER) || (SYS_CLOCK_MAX_WAIT <=? next)
  then SYS_CLOCK_MAX_WAIT - ticks_elapsed
  else let dticks := u32 next in
       if ticks_elapsed <? dticks then dticks - ticks_elapsed else 0.

Definition reprogram_next (ticks_elapsed : Z) (s : clock) : clock :=
  if CONFIG_SYSTEM_CLOCK_SLOPPY_IDLE &&
     (tq_next_expiry s.(curr_tick) s.(queue) =? K_TICKS_FOREVER)
  then sys_clock_no_timeout s
  else sys_clock_set_timeout ticks_elapsed (next_timeout s ticks_elapsed) s.

Definition z_is_inactive_timeout (s : clock) (to : toid) : bool := negb (tq_active s.(queue) to).

Definition z_add_timeout (to : toid) (f : nat) (timeout : Z) (s : clock) : Z * clock :=
  if timeout =? K_FOREVER then (0, s) else
  let s1 := set_fn (upd to f s.(fn)) s in
  let '(dticks, ticks, ticks_elapsed) :=
    if Z_IS_TIMEOUT_RELATIVE timeout then
      let ticks_elapsed := elapsed s1 in
      let dticks := i64 (timeout + ticks_elapsed + (if this_cpu_announcing s1 then 0 else 1)) in
      (dticks, i64 (u64 (s1.(curr_tick) + dticks)), Some ticks_elapsed)
    else
      (Z.max 1 (i64 (u64 (Z_TICK_ABS timeout - s1.(curr_tick)))), timeout, None) in
  let '(q, first) := tq_insert s1.(curr_tick) s1.(queue) to dticks in
  let s2 := set_queue q s1 in
  if first && negb (any_cpu_announcing s2) then
    let te := match ticks_elapsed with Some e => e | None => elapsed s2 end in
    (ticks, sys_clock_set_timeout te (next_timeout s2 te) s2)
  else (ticks, s2).

Definition z_try_abort_timeout (to : toid) (s : clock) : Z * clock :=
  let '(ret, s1) :=
    if negb (z_is_inactive_timeout s to) then
      let '(q, was_first) := tq_remove s.(curr_tick) s.(queue) to in
      let s' := set_queue q s in
      (0, if was_first then reprogram_next (elapsed s') s' else s')
    else (- EINVAL, s) in
  (ret, if inflight_ptr s1 =? to then inflight_mark_superseded s1 else s1).

Definition z_timeout_inflight_superseded (s : clock) (to : toid) : bool :=
  s.(inflight_timeout) =? (to .| INFLIGHT_SUPERSEDED_BIT).

Definition z_timeout_remaining (s : clock) (timeout : toid) : Z :=
  if negb (z_is_inactive_timeout s timeout)
  then i64 (tq_remainder s.(curr_tick) s.(queue) timeout - elapsed s) else 0.

Definition z_timeout_expires (s : clock) (timeout : toid) : Z :=
  if negb (z_is_inactive_timeout s timeout)
  then i64 (s.(curr_tick) + tq_remainder s.(curr_tick) s.(queue) timeout)
  else i64 s.(curr_tick).

Definition z_get_next_timeout_expiry (s : clock) : Z :=
  if CONFIG_SYSTEM_CLOCK_SLOPPY_IDLE &&
     (tq_next_expiry s.(curr_tick) s.(queue) =? K_TICKS_FOREVER)
  then u32 K_TICKS_FOREVER
  else next_timeout s (elapsed s).

(** [run_fn f t] is what calling the handler [f] on [t] does to the system.  The
    trace records each timeout fired and the tick it fired at. *)
Section announce.
Context {X : Type} {HC : HasClock X} (run_fn : nat -> toid -> X -> X).

Definition trace := list (toid * Z).

Fixpoint drain_due (fuel : nat) (x : X) (tr : trace) : option (X * trace) :=
  match fuel with
  | O => None
  | S fuel =>
      let s := clk_of x in
      match tq_pop_due s.(curr_tick) s.(queue) with
      | None => Some (x, tr)
      | Some (t, q) =>
          let handler := s.(fn) t in
          let x1 := put_clk (set_inflight_timeout t (set_queue q s)) x in
          let x2 := run_fn handler t x1 in
          drain_due fuel (put_clk (set_inflight_timeout NULL (clk_of x2)) x2) (tr ++ [(t, s.(curr_tick))])
      end
  end.

Fixpoint announce_loop (fuel : nat) (x : X) (tr : trace) : option (X * trace) :=
  match fuel with
  | O => None
  | S fuel' =>
      let s := clk_of x in
      if 0 <? s.(announce_remaining) then
        let dt := tq_next_gap s.(curr_tick) s.(queue) in
        let dt := if s.(announce_remaining) <? u32 dt then i32 s.(announce_remaining) else dt in
        let s1 := set_queue (tq_advance s.(curr_tick) s.(queue) dt) s in
        let s2 := set_curr_tick (u64 (s1.(curr_tick) + dt)) s1 in
        let s3 := set_announce_remaining (u32 (s2.(announce_remaining) - dt)) s2 in
        match drain_due fuel (put_clk s3 x) tr with
        | None => None
        | Some (x', tr') => announce_loop fuel' x' tr'
        end
      else Some (x, tr)
  end.

(** Without the time slices that follow it. *)
Definition sys_clock_announce_locked (fuel : nat) (ticks : Z) (x : X) : option (X * trace) :=
  let x1 := put_clk (set_announcing_cpu CPU_ID (set_announce_remaining ticks (clk_of x))) x in
  match announce_loop fuel x1 [] with
  | None => None
  | Some (x2, tr) => Some (put_clk (reprogram_next 0 (set_announcing_cpu (-1) (clk_of x2))) x2, tr)
  end.
End announce.

Definition sys_clock_tick_get (s : clock) : Z := i64 (u64 (s.(curr_tick) + elapsed s)).
Definition sys_clock_tick_get_32 (s : clock) : Z := u32 (sys_clock_tick_get s).
Definition k_uptime_ticks (s : clock) : Z := sys_clock_tick_get s.

(** [k_timepoint_t] is its tick, [k_timeout_t] its ticks. *)
Definition sys_timepoint_calc (s : clock) (timeout : Z) : Z :=
  if timeout =? K_FOREVER then UINT64_MAX
  else if timeout =? K_NO_WAIT then 0
  else if Z_IS_TIMEOUT_RELATIVE timeout
       then u64 (sys_clock_tick_get s + Z.max 1 timeout)
       else Z_TICK_ABS timeout.

Definition sys_timepoint_timeout (s : clock) (timepoint : Z) : Z :=
  if timepoint =? UINT64_MAX then K_FOREVER
  else if timepoint =? 0 then K_NO_WAIT
  else let now := u64 (sys_clock_tick_get s) in
       let remaining := if now <? timepoint then timepoint - now else 0 in
       i64 remaining.

(** ** Correctness of the front end *)

Definition clock_ok (s : clock) (m : gmap toid Z) : Prop :=
  tq_ok s.(curr_tick) s.(queue) m /\
  (s.(announcing_cpu) = -1 /\ not_before (s.(curr_tick) + 1) m \/ s.(announcing_cpu) = CPU_ID) /\
  0 <= s.(hw_elapsed) < 2 ^ 32.

(** The absolute tick a timeout request designates. *)
Definition due_tick (s : clock) (timeout : Z) : Z :=
  if Z_IS_TIMEOUT_RELATIVE timeout
  then s.(curr_tick) + timeout + elapsed s + (if this_cpu_announcing s then 0 else 1)
  else Z.max (s.(curr_tick) + 1) (Z_TICK_ABS timeout).

(** A request that is representable and strictly in the future.  Only a zero
    delay requested by a handler is not: outside of handlers at least the
    rounding tick is added. *)
Definition delay_ok (s : clock) (timeout : Z) : Prop :=
  timeout <> K_FOREVER /\ - 2 ^ 63 <= timeout < 2 ^ 63 /\
  s.(curr_tick) < due_tick s timeout <= MAX_TICK.

(** What the timeout operations leave alone. *)
Definition same_time (s s' : clock) : Prop :=
  s'.(curr_tick) = s.(curr_tick) /\ s'.(announce_remaining) = s.(announce_remaining) /\
  s'.(announcing_cpu) = s.(announcing_cpu) /\ s'.(hw_elapsed) = s.(hw_elapsed).

(** The driver has been asked to announce no later than the first expiry, or at
    once when that is already past. *)
Definition armed (s : clock) (m : gmap toid Z) : Prop :=
  forall t e, m !! t = Some e ->
    exists d, s.(hw_deadline) = Some d /\ d <= Z.max e (s.(curr_tick) + s.(hw_elapsed)).

Lemma elapsed_range s m : clock_ok s m -> 0 <= elapsed s < 2 ^ 32 /\ elapsed s <= s.(hw_elapsed).
Proof.
  intros (_ & _ & He). unfold elapsed, sys_clock_elapsed. rewrite u32_small by done.
  case_match; lia.
Qed.

Lemma add_dticks s m timeout : clock_ok s m -> delay_ok s timeout ->
  (if Z_IS_TIMEOUT_RELATIVE timeout
   then i64 (timeout + elapsed s + (if this_cpu_announcing s then 0 else 1))
   else Z.max 1 (i64 (u64 (Z_TICK_ABS timeout - s.(curr_tick))))) =
  due_tick s timeout - s.(curr_tick).
Proof.
  intros Hok (Hf & Hr & Hd). pose proof (elapsed_range s m Hok) as [He _].
  destruct Hok as (Hq & _ & _). apply tq_ok_expiries in Hq as (Hc & _).
  unfold due_tick, MAX_TICK, INT64_MAX, K_FOREVER, K_TICKS_FOREVER in *.
  destruct (Z_IS_TIMEOUT_RELATIVE timeout) eqn:E; unfold Z_IS_TIMEOUT_RELATIVE in E.
  - rewrite i64_small; [lia|]. case_match; lia.
  - apply Z.leb_gt in E. rewrite i64_u64. unfold Z_TICK_ABS, K_TICKS_FOREVER in *.
    rewrite i64_small by lia. lia.
Qed.

(** What [z_add_timeout] computes before it decides about the driver. *)
Definition queued (to : toid) (f : nat) (timeout : Z) (s : clock) : clock :=
  set_queue (tq_insert s.(curr_tick) s.(queue) to (due_tick s timeout - s.(curr_tick))).1
            (set_fn (upd to f s.(fn)) s).

Lemma add_unfold s m to f timeout : clock_ok s m -> delay_ok s timeout ->
  z_add_timeout to f timeout s =
    (if Z_IS_TIMEOUT_RELATIVE timeout then due_tick s timeout else timeout,
     if (tq_insert s.(curr_tick) s.(queue) to (due_tick s timeout - s.(curr_tick))).2 &&
        negb (any_cpu_announcing s)
     then sys_clock_set_timeout (elapsed s) (next_timeout (queued to f timeout s) (elapsed s))
            (queued to f timeout s)
     else queued to f timeout s).
Proof.
  intros Hok Hd. pose proof (add_dticks s m timeout Hok Hd) as E. destruct Hd as (Hf & Hr & Hd).
  destruct Hok as (Hq & _ & _). apply tq_ok_expiries in Hq as (Hc & _).
  unfold z_add_timeout, queued. rewrite (proj2 (Z.eqb_neq _ _) Hf).
  assert (Hi : i64 (u64 (s.(curr_tick) + (due_tick s timeout - s.(curr_tick)))) = due_tick s timeout).
  { rewrite i64_u64, i64_small; unfold MAX_TICK, INT64_MAX in *; lia. }
  destruct (Z_IS_TIMEOUT_RELATIVE timeout); cbn -[due_tick next_timeout i64 u64];
    change (elapsed (set_fn _ s)) with (elapsed s);
    change (this_cpu_announcing (set_fn _ s)) with (this_cpu_announcing s); rewrite E;
    destruct (tq_insert _ _ _ _) as [q b]; simpl; rewrite ?Hi;
    change (elapsed (set_queue _ _)) with (elapsed s);
    change (any_cpu_announcing (set_queue _ _)) with (any_cpu_announcing s);
    by destruct b, (any_cpu_announcing s).
Qed.

Lemma not_before_exists lo m : ~ not_before lo m -> exists t e, m !! t = Some e /\ e < lo.
Proof.
  intros Hn. set (P := fun (_ : toid) (e : Z) => lo <= e).
  assert (forall t e, Decision (P t e)) by (intros; apply Z_le_dec).
  destruct (map_not_Forall P m) as [Hm _].
  destruct (Hm Hn) as (t & e & Hte & He). exists t, e. split; [done|]. unfold P in He. lia.
Qed.

(** The request made of the driver is for the first expiry at the latest. *)
Lemma next_timeout_covers s m te : tq_ok s.(curr_tick) s.(queue) m ->
  not_before (s.(curr_tick) + 1) m -> 0 <= te -> forall t e, m !! t = Some e ->
  s.(curr_tick) + te + next_timeout s te <= Z.max e (s.(curr_tick) + te).
Proof.
  intros Hq Hn Hte t e Ht. unfold next_timeout.
  destruct (tq_next_expiry_law _ _ _ Hq Hn) as [[-> _]|(t0 & e0 & H0 & Hmin & ->)]; [done|].
  pose proof (Hmin _ _ Ht). pose proof (Hn _ _ H0). unfold SYS_CLOCK_MAX_WAIT, UINT32_MAX in *.
  change ((2 ^ 32 - 1) / 2) with (2 ^ 31 - 1). unfold K_TICKS_FOREVER.
  destruct (Z.leb_spec (2 ^ 31 - 1) te); [lia|].
  destruct (Z.eqb_spec (e0 - s.(curr_tick)) (-1)), (Z.leb_spec (2 ^ 31 - 1) (e0 - s.(curr_tick)));
    simpl; try lia.
  rewrite u32_small by lia. destruct (Z.ltb_spec te (e0 - s.(curr_tick))); lia.
Qed.

Lemma announcing_flags s m : clock_ok s m -> any_cpu_announcing s = this_cpu_announcing s.
Proof.
  intros (_ & [[Ha _]|Ha] & _); unfold any_cpu_announcing, this_cpu_announcing; by rewrite Ha.
Qed.

Lemma not_announcing s m : clock_ok s m -> any_cpu_announcing s = false ->
  s.(announcing_cpu) = -1 /\ not_before (s.(curr_tick) + 1) m.
Proof. intros (_ & [Ha|Ha] & _); [done|]. unfold any_cpu_announcing. by rewrite Ha. Qed.

Lemma not_before_insert lo m t e : not_before lo m -> lo <= e -> not_before lo (<[t := e]> m).
Proof. intros Hm He t' e' [[<- <-]|[_ Ht]]%lookup_insert_Some; [done|by eapply Hm]. Qed.

Lemma not_before_delete lo m t : not_before lo m -> not_before lo (delete t m).
Proof. intros Hm t' e' [_ Ht]%lookup_delete_Some. by eapply Hm. Qed.

Lemma not_before_weaken lo lo' m : not_before lo m -> lo' <= lo -> not_before lo' m.
Proof. intros Hm Hl t e Ht. specialize (Hm t e Ht). lia. Qed.

Lemma clock_ok_deadline s m d : clock_ok s m -> clock_ok (set_hw_deadline d s) m.
Proof. done. Qed.

Lemma add_ok s m to f timeout : clock_ok s m -> m !! to = None -> to <> NULL ->
  tq_room s.(queue) -> delay_ok s timeout ->
  let s' := (z_add_timeout to f timeout s).2 in
  clock_ok s' (<[to := due_tick s timeout]> m) /\ same_time s s' /\
  s'.(inflight_timeout) = s.(inflight_timeout) /\
  (any_cpu_announcing s = false -> armed s m -> armed s' (<[to := due_tick s timeout]> m)).
Proof.
  intros Hok Hnone Hnull Hroom Hd. pose proof Hok as (Hq & Ha & He). pose proof Hd as (_ & _ & Hd').
  cbv zeta. rewrite (add_unfold s m) by done. simpl.
  destruct (tq_insert_law _ _ _ to (due_tick s timeout - s.(curr_tick)) Hq Hroom Hnone Hnull)
    as [Hq' Hb]; [lia|lia|].
  replace (s.(curr_tick) + (due_tick s timeout - s.(curr_tick))) with (due_tick s timeout) in * by lia.
  set (b := (tq_insert _ _ _ _).2) in *.
  assert (Hok' : clock_ok (queued to f timeout s) (<[to := due_tick s timeout]> m)).
  { split; [exact Hq'|]. split; [|done]. destruct Ha as [[Ha Hn]|Ha]; [left|by right].
    split; [done|]. apply not_before_insert; [done|]. simpl. lia. }
  split; [by case_match|]. split; [by case_match|]. split; [by case_match|].
  intros Hna Harm. pose proof (elapsed_range s m Hok) as [Hel Hel'].
  destruct (not_announcing s m Hok Hna) as [_ Hn]. rewrite Hna, andb_true_r.
  destruct b eqn:Eb.
  - intros t e Ht. eexists. split; [done|].
    pose proof (next_timeout_covers (queued to f timeout s) _ (elapsed s) (proj1 Hok')) as Hc.
    destruct Hok' as (_ & [[_ Hn']|Ha'] & _); [|unfold any_cpu_announcing in Hna; simpl in Ha'; by rewrite Ha' in Hna].
    specialize (Hc Hn' (proj1 Hel) t e Ht). simpl in *. lia.
  - intros t e [[<- <-]|[_ Ht]]%lookup_insert_Some; [|by apply Harm in Ht].
    destruct (not_before_exists (due_tick s timeout + 1) m) as (t' & e' & Ht' & He').
    { intros Hall. apply Hb in Hall; [done|done|lia]. }
    destruct (Harm t' e' Ht') as (d & Hd1 & Hd2). exists d. split; [done|]. simpl in *. lia.
Qed.

Lemma reprogram_covers s m te : tq_ok s.(curr_tick) s.(queue) m -> not_before (s.(curr_tick) + 1) m ->
  0 <= te <= s.(hw_elapsed) -> armed (reprogram_next te s) m.
Proof.
  intros Hq Hn Hte t e Ht. unfold reprogram_next.
  destruct (CONFIG_SYSTEM_CLOCK_SLOPPY_IDLE && _) eqn:E.
  - apply andb_prop in E as [_ E]. apply Z.eqb_eq in E.
    destruct (tq_next_expiry_law _ _ _ Hq Hn) as [[-> _]|(t0 & e0 & H0 & _ & E')]; [done|].
    pose proof (Hn _ _ H0). unfold K_TICKS_FOREVER in E. lia.
  - eexists. split; [done|]. simpl.
    pose proof (next_timeout_covers s m te Hq Hn ltac:(lia) t e Ht). lia.
Qed.

Lemma reprogram_same s te : same_time s (reprogram_next te s) /\
  (reprogram_next te s).(queue) = s.(queue) /\
  (reprogram_next te s).(inflight_timeout) = s.(inflight_timeout) /\
  (reprogram_next te s).(fn) = s.(fn).
Proof. unfold reprogram_next. by case_match. Qed.

Lemma clock_ok_same s s' m : clock_ok s m -> same_time s s' -> s'.(queue) = s.(queue) -> clock_ok s' m.
Proof. intros (H1 & H2 & H3) (E1 & E2 & E3 & E4) Eq. unfold clock_ok. by rewrite E1, E3, E4, Eq. Qed.

Lemma inactive_spec s m to : clock_ok s m ->
  z_is_inactive_timeout s to = bool_decide (m !! to = None).
Proof.
  intros (Hq & _). unfold z_is_inactive_timeout. rewrite (tq_active_law _ _ _ _ Hq).
  destruct (m !! to) as [e|]; [by rewrite bool_decide_eq_true_2, bool_decide_eq_false_2 by eauto|].
  rewrite bool_decide_eq_false_2 by (by intros []). by rewrite bool_decide_eq_true_2.
Qed.

Lemma abort_ok s m to : clock_ok s m ->
  let r := z_try_abort_timeout to s in
  r.1 = (if decide (m !! to = None) then - EINVAL else 0) /\
  clock_ok r.2 (delete to m) /\ same_time s r.2 /\
  r.2.(inflight_timeout) = (if inflight_ptr s =? to
                            then s.(inflight_timeout) .| INFLIGHT_SUPERSEDED_BIT
                            else s.(inflight_timeout)) /\
  (any_cpu_announcing s = false -> armed s m -> armed r.2 (delete to m)).
Proof.
  intros Hok r. subst r. unfold z_try_abort_timeout. rewrite (inactive_spec s m) by done.
  assert (Hmark : forall s1 m1 b, clock_ok s1 m1 -> same_time s s1 ->
    let s2 := if b : bool then inflight_mark_superseded s1 else s1 in
    clock_ok s2 m1 /\ same_time s s2 /\ s2.(hw_deadline) = s1.(hw_deadline)).
  { intros s1 m1 [|] H1 H2; repeat split; try apply H1; apply H2. }
  case_bool_decide as Hnone; simpl.
  - rewrite decide_True by done. rewrite delete_id by done. split; [done|].
    destruct (Hmark s m (inflight_ptr s =? to) Hok) as (H1 & H2 & H3); [done|].
    split; [done|]. split; [done|]. split; [by case_match|].
    intros _ Harm t e Ht. destruct H2 as (-> & _ & _ & ->). rewrite H3. by eapply Harm.
  - rewrite decide_False by done. destruct (m !! to) as [e|] eqn:Ee; [|done].
    pose proof Hok as (Hq & Ha & Hh). destruct (tq_remove_law _ _ _ _ _ Hq Ee) as [Hq' _].
    destruct (tq_remove _ _ _) as [q b] eqn:Eq; simpl in Hq' |- *.
    assert (Hok1 : clock_ok (set_queue q s) (delete to m)).
    { split; [done|]. split; [|done]. destruct Ha as [[Ha Hn]|Ha]; [left|by right].
      split; [done|]. by apply not_before_delete. }
    pose proof (elapsed_range _ _ Hok1) as He.
    destruct (reprogram_same (set_queue q s) (elapsed (set_queue q s))) as (R1 & R2 & R3 & _).
    set (s1 := if b then reprogram_next (elapsed (set_queue q s)) (set_queue q s) else set_queue q s).
    assert (Hok2 : clock_ok s1 (delete to m) /\ same_time s s1 /\ s1.(inflight_timeout) = s.(inflight_timeout)).
    { unfold s1. destruct b; [|done]. split; [by eapply clock_ok_same|]. split; [apply R1|done]. }
    destruct Hok2 as (Hok2 & Hs & Hi). split; [done|].
    destruct (Hmark s1 (delete to m) (inflight_ptr s1 =? to) Hok2 Hs) as (H1 & H2 & H3).
    split; [done|]. split; [done|].
    split; [unfold inflight_ptr; rewrite <- !Hi; by destruct (_ =? to)|].
    intros Hna Harm. destruct (not_announcing _ _ Hok1 Hna) as [_ Hn].
    assert (Harm1 : armed s1 (delete to m)).
    { unfold s1. destruct b; [apply reprogram_covers; [done|done|lia]|].
      intros t e' [_ Ht]%lookup_delete_Some. by eapply Harm. }
    intros t e' Ht. destruct H2 as (-> & _ & _ & ->). rewrite H3.
    destruct (Harm1 t e' Ht) as (d & Hd1 & Hd2). destruct Hs as (Hs1 & _ & _ & Hs2).
    rewrite Hs1, Hs2 in Hd2. eauto.
Qed.

(** A queue holds one set of timeouts. *)
Lemma clock_ok_det s m1 m2 : clock_ok s m1 -> clock_ok s m2 -> m1 = m2.
Proof.
  intros (H1 & _) (H2 & _). apply map_eq. intros t.
  pose proof (tq_active_law _ _ _ t H1) as A1. pose proof (tq_active_law _ _ _ t H2) as A2.
  rewrite A1 in A2. destruct (m1 !! t) as [e1|] eqn:E1, (m2 !! t) as [e2|] eqn:E2.
  - pose proof (tq_remainder_law _ _ _ _ _ H1 E1). pose proof (tq_remainder_law _ _ _ _ _ H2 E2).
    f_equal. lia.
  - rewrite bool_decide_eq_true_2, bool_decide_eq_false_2 in A2 by (eauto || by intros []). done.
  - rewrite bool_decide_eq_false_2, bool_decide_eq_true_2 in A2 by (eauto || by intros []). done.
  - done.
Qed.

(** ** Announcing ticks *)

(** The uses handlers make of the subsystem: they add inactive timeouts, abort
    timeouts, and time passes.  [P] is the set of timeouts they touch. *)
Inductive timeout_call (P : toid -> Prop) : clock -> clock -> Prop :=
| call_add to f timeout s : P to -> z_is_inactive_timeout s to = true -> to <> NULL ->
    tq_room s.(queue) -> delay_ok s timeout -> timeout_call P s (z_add_timeout to f timeout s).2
| call_abort to s : P to -> timeout_call P s (z_try_abort_timeout to s).2
| call_wait n s : 0 <= n < 2 ^ 32 -> timeout_call P s (set_hw_elapsed n s).

Definition timeout_calls (P : toid -> Prop) : clock -> clock -> Prop := rtc (timeout_call P).

Definition same_tick (s s' : clock) : Prop :=
  s'.(curr_tick) = s.(curr_tick) /\ s'.(announce_remaining) = s.(announce_remaining) /\
  s'.(announcing_cpu) = s.(announcing_cpu).

Lemma call_effect P s s' m : timeout_call P s s' -> clock_ok s m ->
  exists m', clock_ok s' m' /\ same_tick s s' /\
    (forall t e, m' !! t = Some e -> m !! t = Some e \/ s.(curr_tick) < e) /\
    (forall t, ~ P t -> m' !! t = m !! t).
Proof.
  destruct 1 as [to f timeout s HP Hin Hnull Hroom Hd|to s HP|n s Hn]; intros Hok.
  - rewrite (inactive_spec s m), bool_decide_eq_true in Hin by done.
    destruct (add_ok s m to f timeout Hok Hin Hnull Hroom Hd) as (H1 & (? & ? & ? & _) & _).
    eexists. split; [exact H1|]. split; [done|]. destruct Hd as (_ & _ & Hd). split.
    + intros t e [[<- <-]|[_ Ht]]%lookup_insert_Some; [right; lia|by left].
    + intros t Ht. rewrite lookup_insert_ne; [done|]. by intros ->.
  - destruct (abort_ok s m to Hok) as (_ & H1 & (? & ? & ? & _) & _).
    eexists. split; [exact H1|]. split; [done|]. split.
    + intros t e [_ Ht]%lookup_delete_Some. by left.
    + intros t Ht. rewrite lookup_delete_ne; [done|]. by intros ->.
  - exists m. split; [|split; [done|split; [by left|done]]].
    destruct Hok as (H1 & H2 & _). by split; [|split].
Qed.

Lemma calls_effect P s s' m : timeout_calls P s s' -> clock_ok s m ->
  exists m', clock_ok s' m' /\ same_tick s s' /\
    (forall t e, m' !! t = Some e -> m !! t = Some e \/ s.(curr_tick) < e) /\
    (forall t, ~ P t -> m' !! t = m !! t).
Proof.
  intros Hc. revert m. induction Hc as [s|s1 s2 s3 H1 _ IH]; intros m Hok.
  - exists m. split; [done|]. split; [done|]. split; [by left|done].
  - destruct (call_effect _ _ _ _ H1 Hok) as (m2 & Hok2 & (E1 & E2 & E3) & Hsub & Hsame).
    destruct (IH m2 Hok2) as (m3 & Hok3 & (F1 & F2 & F3) & Hsub3 & Hsame3).
    exists m3. split; [done|]. split; [split; [congruence|split; congruence]|]. split.
    + intros t e Ht. rewrite <- E1. destruct (Hsub3 t e Ht) as [Ht2|]; [|by right].
      rewrite E1. by apply Hsub.
    + intros t Ht. by rewrite Hsame3, Hsame.
Qed.

Lemma calls_weaken (P Q : toid -> Prop) s s' : (forall t, P t -> Q t) ->
  timeout_calls P s s' -> timeout_calls Q s s'.
Proof.
  intros HPQ. apply rtc_subrel. intros s1 s2 [to f timeout s0|to s0|n s0]; constructor; auto.
Qed.

(** One turn of the loop: the ticks to the next expiry, capped. *)
Lemma advance_step s m : clock_ok s m -> not_before (s.(curr_tick) + 1) m ->
  0 < s.(announce_remaining) < 2 ^ 32 -> s.(curr_tick) + s.(announce_remaining) <= MAX_TICK ->
  let gap := tq_next_gap s.(curr_tick) s.(queue) in
  let dt := if s.(announce_remaining) <? u32 gap then i32 s.(announce_remaining) else gap in
  0 < dt <= s.(announce_remaining) /\ dt <= INT32_MAX /\ not_before (s.(curr_tick) + dt) m.
Proof.
  intros (Hq & _) Hn Hr Hmax gap dt.
  destruct (tq_next_gap_law _ _ _ Hq Hn) as [[-> E]|(t & e & Ht & Hmin & E)]; fold gap in E.
  - unfold dt. rewrite E. unfold INT32_MAX. change (u32 (2 ^ 31 - 1)) with (2 ^ 31 - 1).
    destruct (Z.ltb_spec s.(announce_remaining) (2 ^ 31 - 1)); [rewrite i32_small by lia|].
    + split; [lia|]. split; [lia|]. by intros ? ?.
    + split; [lia|]. split; [lia|]. by intros ? ?.
  - pose proof (Hn _ _ Ht). assert (Hg : 0 < gap <= INT32_MAX) by (unfold INT32_MAX in *; lia).
    unfold dt. rewrite u32_small by (unfold INT32_MAX in *; lia).
    destruct (Z.ltb_spec s.(announce_remaining) gap); unfold INT32_MAX in *;
      [rewrite i32_small by lia|]; (split; [lia|]); (split; [lia|]);
      intros t' e' Ht'; specialize (Hmin _ _ Ht'); lia.
Qed.

Lemma add_fn to f timeout s t : t <> to -> (z_add_timeout to f timeout s).2.(fn) t = s.(fn) t.
Proof.
  intros Ht. unfold z_add_timeout. destruct (timeout =? K_FOREVER); [done|].
  destruct (if Z_IS_TIMEOUT_RELATIVE timeout then _ else _) as [[d tk] te]. destruct (tq_insert _ _ _ _) as [q b].
  assert (E : forall x : toid -> nat, x = upd to f s.(fn) -> x t = s.(fn) t) by (intros x ->; by rewrite upd_ne).
  destruct (_ && _); by apply E.
Qed.

Lemma add_fn_eq to f timeout s : timeout <> K_FOREVER -> (z_add_timeout to f timeout s).2.(fn) to = f.
Proof.
  intros Ht. unfold z_add_timeout. rewrite (proj2 (Z.eqb_neq _ _) Ht).
  destruct (if Z_IS_TIMEOUT_RELATIVE timeout then _ else _) as [[d tk] te]. destruct (tq_insert _ _ _ _) as [q b].
  destruct (_ && _); apply upd_eq.
Qed.

Lemma abort_fn to s : (z_try_abort_timeout to s).2.(fn) = s.(fn).
Proof.
  unfold z_try_abort_timeout. destruct (z_is_inactive_timeout s to); simpl; [by case_match|].
  destruct (tq_remove _ _ _) as [q b]. destruct (reprogram_same (set_queue q s) (elapsed (set_queue q s))) as (_ & _ & _ & E).
  destruct b; by case_match.
Qed.

Lemma calls_fn P s s' t : timeout_calls P s s' -> ~ P t -> s'.(fn) t = s.(fn) t.
Proof.
  intros Hc Ht. induction Hc as [|s1 s2 s3 H1 _ IH]; [done|]. rewrite IH. destruct H1; [|by rewrite abort_fn|done].
  apply add_fn. by intros ->.
Qed.

(** ** The announcement as an induction *)

Definition ticks_sorted (tr : trace) : Prop := StronglySorted (fun a b => a.2 <= b.2) tr.
Definition due_now (now : Z) (m : gmap toid Z) : gmap toid Z := filter (fun p => p.2 = now) m.

(** What was added while [t] was handled is due later. *)
Lemma due_shrinks now m t m' : m !! t = Some now ->
  (forall y e, m' !! y = Some e -> delete t m !! y = Some e \/ now < e) -> (size (due_now now m') < size (due_now now m))%nat.
Proof.
  intros Ht Hsub. apply map_subset_size, map_subset_alt. split.
  - apply map_subseteq_spec. intros y e [Hy He]%map_lookup_filter_Some. simpl in He. subst e.
    destruct (Hsub y _ Hy) as [[_ Hy']%lookup_delete_Some|]; [|lia]. by apply map_lookup_filter_Some.
  - exists t. split; [|eexists; by apply map_lookup_filter_Some]. apply map_lookup_filter_None. right. intros e He Hc. simpl in Hc. subst e.
    destruct (Hsub t _ He) as [[? _]%lookup_delete_Some|]; [done|lia].
Qed.

Section announcing.
Context {X : Type} {HC : HasClock X} (run_fn : nat -> toid -> X -> X).

(** The system when a timeout has been taken off the queue, after its handler, and
    when time has gone on. *)
Definition popped (t : toid) (q : tq) (x : X) : X := put_clk (set_inflight_timeout t (set_queue q (clk_of x))) x.
Definition fired (t : toid) (q : tq) (x : X) : X :=
  let x2 := run_fn ((clk_of x).(fn) t) t (popped t q x) in put_clk (set_inflight_timeout NULL (clk_of x2)) x2.
Definition advanced (dt : Z) (x : X) : X :=
  let s := clk_of x in
  put_clk (set_announce_remaining (u32 (s.(announce_remaining) - dt))
    (set_curr_tick (u64 (s.(curr_tick) + dt)) (set_queue (tq_advance s.(curr_tick) s.(queue) dt) s))) x.

(** What holds of the system, the pending timeouts and the trace at every stage of an
    announcement.  [weight] counts what is still to do at the present tick. *)
Class AnnounceInv (J : X -> gmap toid Z -> trace -> Prop) (weight : Z -> gmap toid Z -> nat) : Prop := {
  inv_advance x m tr dt : J x m tr -> clock_ok (clk_of (advanced dt x)) m -> 0 < dt <= (clk_of x).(announce_remaining) ->
    (clk_of (advanced dt x)).(curr_tick) = (clk_of x).(curr_tick) + dt ->
    (clk_of (advanced dt x)).(announce_remaining) = (clk_of x).(announce_remaining) - dt -> J (advanced dt x) m tr;
  inv_fire x m tr t q : J x m tr -> clock_ok (clk_of x) m -> (clk_of x).(announcing_cpu) = CPU_ID -> m !! t = Some (clk_of x).(curr_tick) ->
    clock_ok (clk_of (popped t q x)) (delete t m) ->
    exists m', clock_ok (clk_of (fired t q x)) m' /\ J (fired t q x) m' (tr ++ [(t, (clk_of x).(curr_tick))]) /\
      same_tick (clk_of x) (clk_of (fired t q x)) /\ (weight (clk_of x).(curr_tick) m' < weight (clk_of x).(curr_tick) m)%nat
}.

Context {J : X -> gmap toid Z -> trace -> Prop} {weight : Z -> gmap toid Z -> nat} (HI : AnnounceInv J weight).

Lemma popped_ok x m t q : clock_ok (clk_of x) m -> (clk_of x).(announcing_cpu) = CPU_ID -> tq_ok (clk_of x).(curr_tick) q (delete t m) ->
  clock_ok (clk_of (popped t q x)) (delete t m).
Proof. intros (_ & _ & He) Ha Hq. unfold popped. rewrite clk_put. split; [done|]. split; [by right|done]. Qed.

Lemma drain_inv n x m tr : (weight (clk_of x).(curr_tick) m <= n)%nat -> clock_ok (clk_of x) m -> (clk_of x).(announcing_cpu) = CPU_ID -> J x m tr ->
  exists N x' m' tr', (forall fuel, (N <= fuel)%nat -> drain_due run_fn fuel x tr = Some (x', tr')) /\
    clock_ok (clk_of x') m' /\ same_tick (clk_of x) (clk_of x') /\ not_before ((clk_of x).(curr_tick) + 1) m' /\ J x' m' tr'.
Proof.
  revert x m tr. induction n as [|n IH]; intros x m tr Hn Hok Ha HJ; pose proof (tq_pop_due_law _ _ _ (proj1 Hok)) as Hpop;
    destruct (tq_pop_due _ _) as [[t q]|] eqn:Ep.
  1, 3: destruct Hpop as [Ht Hq]; destruct (inv_fire _ _ _ _ _ HJ Hok Ha Ht (popped_ok _ _ _ _ Hok Ha Hq)) as (m2 & Hok2 & HJ2 & (E1 & E2 & E3) & Hlt).
  - lia.
  - destruct (IH (fired t q x) m2 _ ltac:(rewrite E1; lia) Hok2 ltac:(congruence) HJ2) as (N & x' & m' & tr' & HN & K1 & (F1 & F2 & F3) & K3 & K4).
    exists (S N), x', m', tr'. split; [|split; [done|split; [split_and!; congruence|split; [by rewrite <- E1|done]]]].
    intros [|fuel] Hf; [lia|]. cbn [drain_due]. cbv zeta. rewrite Ep. apply HN. lia.
  - exists 1%nat, x, m, tr. split; [|done]. intros [|fuel] Hf; [lia|]. cbn [drain_due]. cbv zeta. by rewrite Ep.
  - exists 1%nat, x, m, tr. split; [|done]. intros [|fuel] Hf; [lia|]. cbn [drain_due]. cbv zeta. by rewrite Ep.
Qed.

Lemma advanced_ok x m dt : clock_ok (clk_of x) m -> not_before ((clk_of x).(curr_tick) + 1) m -> (clk_of x).(announcing_cpu) = CPU_ID ->
  0 < dt <= (clk_of x).(announce_remaining) -> dt <= INT32_MAX -> not_before ((clk_of x).(curr_tick) + dt) m ->
  (clk_of x).(announce_remaining) < 2 ^ 32 -> (clk_of x).(curr_tick) + (clk_of x).(announce_remaining) <= MAX_TICK ->
  clock_ok (clk_of (advanced dt x)) m /\ (clk_of (advanced dt x)).(curr_tick) = (clk_of x).(curr_tick) + dt /\
  (clk_of (advanced dt x)).(announce_remaining) = (clk_of x).(announce_remaining) - dt /\ (clk_of (advanced dt x)).(announcing_cpu) = CPU_ID.
Proof.
  intros Hok Hnb Ha Hdt Hdt2 Hadv Hr Hmax. pose proof (tq_ok_expiries _ _ _ (proj1 Hok)) as (Hc0 & _). unfold advanced. cbv zeta. rewrite clk_put.
  assert (E : u64 ((clk_of x).(curr_tick) + dt) = (clk_of x).(curr_tick) + dt) by (apply u64_small; unfold MAX_TICK, INT64_MAX in Hmax; lia).
  split; [|split; [exact E|split; [simpl; apply u32_small; lia|done]]]. destruct Hok as (Hq & _ & He). split; [|split; [by right|done]]. simpl.
  rewrite E. apply tq_advance_law; try done; unfold MAX_TICK in *; lia.
Qed.

Lemma announce_loop_inv n x m tr : (Z.to_nat (clk_of x).(announce_remaining) <= n)%nat -> clock_ok (clk_of x) m ->
  (clk_of x).(announcing_cpu) = CPU_ID -> not_before ((clk_of x).(curr_tick) + 1) m -> 0 <= (clk_of x).(announce_remaining) < 2 ^ 32 ->
  (clk_of x).(curr_tick) + (clk_of x).(announce_remaining) <= MAX_TICK -> J x m tr ->
  exists N x' m' tr', (forall fuel, (N <= fuel)%nat -> announce_loop run_fn fuel x tr = Some (x', tr')) /\
    clock_ok (clk_of x') m' /\ (clk_of x').(announcing_cpu) = CPU_ID /\
    (clk_of x').(curr_tick) = (clk_of x).(curr_tick) + (clk_of x).(announce_remaining) /\ not_before ((clk_of x').(curr_tick) + 1) m' /\ J x' m' tr'.
Proof.
  revert x m tr. induction n as [|n IH]; intros x m tr Hn Hok Ha Hnb Hr Hmax HJ;
    (destruct (Z.ltb_spec 0 (clk_of x).(announce_remaining)) as [Hpos|Hz]; [|
       exists 1%nat, x, m, tr; split; [|split_and!; try done; lia]; intros [|fuel] Hf; [lia|]; cbn [announce_loop]; cbv zeta;
       by rewrite (proj2 (Z.ltb_ge _ _) Hz)]).
  { lia. }
  destruct (advance_step (clk_of x) m Hok Hnb) as (Hdt & Hdt2 & Hadv); [lia|done|]. set (dt := if _ <? _ then _ else _) in *.
  destruct (advanced_ok x m dt Hok Hnb Ha Hdt Hdt2 Hadv ltac:(lia) Hmax) as (Hok3 & E1 & E2 & E3).
  pose proof (inv_advance _ _ _ dt HJ Hok3 Hdt E1 E2) as HJ3.
  destruct (drain_inv _ _ m tr (le_n _) Hok3 E3 HJ3) as (N4 & x4 & m4 & tr4 & HN4 & Hok4 & (F1 & F2 & F3) & Hnb4 & HJ4).
  destruct (IH x4 m4 tr4) as (N5 & x5 & m5 & tr5 & HN5 & Hok5 & G1 & G2 & Hnb5 & HJ5); try done; rewrite ?F1, ?F2, ?F3, ?E1, ?E2; try done; try lia.
  { by rewrite <- E1. }
  exists (S (N4 `max` N5)), x5, m5, tr5. split; [|split; [done|split; [done|split; [rewrite G2, F1, F2, E1, E2; lia|done]]]].
  intros [|fuel] Hf; [lia|]. cbn [announce_loop]. cbv zeta. rewrite (proj2 (Z.ltb_lt _ _) Hpos). fold dt.
  change (put_clk (set_announce_remaining _ _) x) with (advanced dt x). rewrite HN4 by lia. apply HN5. lia.
Qed.

(** The system as an announcement starts and ends. *)
Definition announce_start (ticks : Z) (x : X) : X := put_clk (set_announcing_cpu CPU_ID (set_announce_remaining ticks (clk_of x))) x.
Definition announce_end (x : X) : X := put_clk (reprogram_next 0 (set_announcing_cpu (-1) (clk_of x))) x.

Lemma announce_inv x m ticks : clock_ok (clk_of x) m -> (clk_of x).(announcing_cpu) = -1 -> 0 <= ticks < 2 ^ 32 ->
  (clk_of x).(curr_tick) + ticks <= MAX_TICK -> J (announce_start ticks x) m [] ->
  exists N x' m' tr', (forall fuel, (N <= fuel)%nat -> sys_clock_announce_locked run_fn fuel ticks x = Some (announce_end x', tr')) /\
    clock_ok (clk_of (announce_end x')) m' /\ (clk_of (announce_end x')).(announcing_cpu) = -1 /\
    (clk_of (announce_end x')).(curr_tick) = (clk_of x).(curr_tick) + ticks /\ (clk_of x').(curr_tick) = (clk_of x).(curr_tick) + ticks /\
    not_before ((clk_of x).(curr_tick) + ticks + 1) m' /\ armed (clk_of (announce_end x')) m' /\ J x' m' tr'.
Proof.
  intros Hok Ha Ht Hmax HJ. pose proof Hok as (Hq & [[_ Hnb]|Ha'] & He); [|by rewrite Ha in Ha'].
  assert (Es : clk_of (announce_start ticks x) = set_announcing_cpu CPU_ID (set_announce_remaining ticks (clk_of x))) by apply clk_put.
  destruct (announce_loop_inv (Z.to_nat ticks) (announce_start ticks x) m []) as (N & x2 & m2 & tr2 & HN & Hok2 & H1 & H2 & Hnb2 & HJ2);
    rewrite ?Es; try done.
  { split; [done|]. split; [by right|done]. }
  rewrite Es in H2. simpl in H2. set (s3 := set_announcing_cpu (-1) (clk_of x2)).
  assert (Hok3 : clock_ok s3 m2) by (destruct Hok2 as (Hq2 & _ & He2); split; [done|]; split; [by left|done]).
  destruct (reprogram_same s3 0) as (R1 & R2 & _). pose proof R1 as (C1 & _ & C3 & _).
  exists N, x2, m2, tr2. unfold announce_end. rewrite clk_put. fold s3. split.
  { intros fuel Hf. unfold sys_clock_announce_locked. fold (announce_start ticks x). by rewrite HN. }
  split; [by eapply clock_ok_same|]. split; [by rewrite C3|]. split; [by rewrite C1|]. split; [done|]. rewrite H2 in Hnb2. split; [done|]. split; [|done].
  apply reprogram_covers; [apply Hok3|by simpl; rewrite H2|]. destruct Hok3 as (_ & _ & He3). lia.
Qed.
End announcing.

(** ** Handlers that use the timeout operations *)

Section handlers.
Context {X : Type} {HC : HasClock X} (run_fn : nat -> toid -> X -> X).

Definition handlers_ok : Prop := forall f t x, timeout_calls (fun _ => True) (clk_of x) (clk_of (run_fn f t x)).
(** No handler of another timeout touches [t0]. *)
Definition undisturbed (t0 : toid) : Prop :=
  forall f t x, t <> t0 -> timeout_calls (fun y => y <> t0) (clk_of x) (clk_of (run_fn f t x)).

(** The timeouts [m0] pending at the start that no other handler touches are pending still,
    or have fired, the first time when they were due. *)
Record fires (start : Z) (m0 : gmap toid Z) (x : X) (m : gmap toid Z) (tr : trace) : Prop := {
  fi_later : not_before (start + 1) m;
  fi_past : Forall (fun p => start < p.2 <= (clk_of x).(curr_tick)) tr;
  fi_sorted : ticks_sorted tr;
  fi_each t0 e : undisturbed t0 -> m0 !! t0 = Some e ->
    m !! t0 = Some e /\ t0 ∉ tr.*1 \/ e <= (clk_of x).(curr_tick) /\ exists tr1 tr2, tr = tr1 ++ (t0, e) :: tr2 /\ t0 ∉ tr1.*1
}.

Lemma sorted_snoc (tr : trace) p : ticks_sorted tr -> Forall (fun q => q.2 <= p.2) tr -> ticks_sorted (tr ++ [p]).
Proof.
  intros Hs Hf. unfold ticks_sorted in *. induction Hs as [|q tr Hs IH Hq]; [repeat constructor|]. inversion Hf; subst. simpl.
  constructor; [by apply IH|]. apply Forall_app. split; [done|]. by repeat constructor.
Qed.

Lemma fire_fires start m0 x m tr t q m' : fires start m0 x m tr -> m !! t = Some (clk_of x).(curr_tick) ->
  (clk_of (fired run_fn t q x)).(curr_tick) = (clk_of x).(curr_tick) ->
  (forall y e, m' !! y = Some e -> delete t m !! y = Some e \/ (clk_of x).(curr_tick) < e) ->
  (forall y, undisturbed y -> y <> t -> m' !! y = m !! y) -> fires start m0 (fired run_fn t q x) m' (tr ++ [(t, (clk_of x).(curr_tick))]).
Proof.
  intros [F1 F2 F3 F4] Ht E Hsub Hun. pose proof (F1 _ _ Ht) as Hlt. split; rewrite ?E.
  - intros y e Hy. destruct (Hsub y e Hy) as [[_ H]%lookup_delete_Some|]; [by apply (F1 y)|lia].
  - apply Forall_app. split; [done|]. repeat constructor; simpl; lia.
  - apply sorted_snoc; [done|]. eapply Forall_impl; [exact F2|]. simpl. intros. lia.
  - intros t0 e Hu He. destruct (F4 t0 e Hu He) as [[Hm Hn]|(Hle & tr1 & tr2 & -> & Hn)].
    + destruct (decide (t0 = t)) as [->|Hne]; [right|left].
      * assert (e = (clk_of x).(curr_tick)) as -> by congruence. split; [lia|]. by exists tr, [].
      * rewrite Hun by done. split; [done|]. rewrite fmap_app. set_solver.
    + right. split; [done|]. exists tr1, (tr2 ++ [(t, (clk_of x).(curr_tick))]). by rewrite <- app_assoc.
Qed.

Context (Hrun : handlers_ok).

#[local] Instance fires_inv start m0 : AnnounceInv run_fn (fires start m0) (fun now m => size (due_now now m)).
Proof.
  split.
  - intros x m tr dt [F1 F2 F3 F4] _ [Hdt _] E _. split; rewrite ?E; try done.
    + eapply Forall_impl; [exact F2|]. simpl. intros. lia.
    + intros t0 e Hu He. destruct (F4 t0 e Hu He) as [|(? & ?)]; [by left|right; split; [lia|done]].
  - intros x m tr t q HF Hok Ha Ht Hok1. set (x1 := popped t q x) in *. assert (Ec : (clk_of x1).(curr_tick) = (clk_of x).(curr_tick)) by (unfold x1, popped; by rewrite clk_put).
    destruct (calls_effect _ _ _ _ (Hrun ((clk_of x).(fn) t) t x1) Hok1) as (m2 & Hok2 & (S1 & S2 & S3) & Hsub & _). rewrite Ec in Hsub, S1.
    assert (Ef : clk_of (fired run_fn t q x) = set_inflight_timeout NULL (clk_of (run_fn ((clk_of x).(fn) t) t x1))) by apply clk_put.
    exists m2. split; [by rewrite Ef|]. split.
    + apply (fire_fires start m0 x m tr); try done; [by rewrite Ef|]. intros y Hu Hne.
      destruct (calls_effect _ _ _ _ (Hu ((clk_of x).(fn) t) t x1 (not_eq_sym Hne)) Hok1) as (m3 & Hok3 & _ & _ & Hsame).
      rewrite (clock_ok_det _ _ _ Hok2 Hok3), Hsame by naive_solver. by rewrite lookup_delete_ne.
    + split; [rewrite Ef; unfold same_tick; simpl; rewrite S1, S2, S3; unfold x1, popped; by rewrite clk_put|]. by apply (due_shrinks _ m t).
Qed.

Lemma announce_ok x m ticks : clock_ok (clk_of x) m -> (clk_of x).(announcing_cpu) = -1 -> 0 <= ticks < 2 ^ 32 ->
  (clk_of x).(curr_tick) + ticks <= MAX_TICK ->
  exists N x' tr m', (forall fuel, (N <= fuel)%nat -> sys_clock_announce_locked run_fn fuel ticks x = Some (x', tr)) /\
    (clk_of x').(curr_tick) = (clk_of x).(curr_tick) + ticks /\ (clk_of x').(announcing_cpu) = -1 /\
    Forall (fun p => (clk_of x).(curr_tick) < p.2 <= (clk_of x').(curr_tick)) tr /\ ticks_sorted tr /\
    (forall t e, undisturbed t -> m !! t = Some e ->
       if decide (e <= (clk_of x').(curr_tick)) then exists tr1 tr2, tr = tr1 ++ (t, e) :: tr2 /\ t ∉ tr1.*1
       else m' !! t = Some e /\ t ∉ tr.*1) /\
    clock_ok (clk_of x') m' /\ not_before ((clk_of x').(curr_tick) + 1) m' /\ armed (clk_of x') m'.
Proof.
  intros Hok Ha Ht Hmax. pose proof Hok as (_ & [[_ Hnb]|Ha'] & _); [|by rewrite Ha in Ha'].
  destruct (announce_inv run_fn (fires_inv (clk_of x).(curr_tick) m) x m ticks Hok Ha Ht Hmax) as (N & x' & m' & tr & HN & Hok' & A1 & A2 & A3 & Hnb' & Harm & [_ F2 F3 F4]).
  { split; [done|constructor|constructor|]. intros t0 e _ He. left. split; [done|]. apply not_elem_of_nil. }
  exists N, (announce_end x'), tr, m'. rewrite A2. rewrite A3 in F2, F4. repeat (split; [done|]). split; [|done].
  intros t e Hu He. destruct (F4 t e Hu He) as [[Hm Hn]|[Hle H]].
  - rewrite decide_False; [done|]. specialize (Hnb' _ _ Hm). lia.
  - by rewrite decide_True.
Qed.
End handlers.

(** ** Queries and time points *)

Lemma queries_ok s m t : clock_ok s m ->
  match m !! t with
  | Some e => z_timeout_remaining s t = e - s.(curr_tick) - elapsed s /\ z_timeout_expires s t = e
  | None => z_timeout_remaining s t = 0 /\ z_timeout_expires s t = i64 s.(curr_tick)
  end.
Proof.
  intros Hok. pose proof (elapsed_range s m Hok) as [He _].
  unfold z_timeout_remaining, z_timeout_expires. rewrite (inactive_spec s m) by done.
  destruct (m !! t) as [e|] eqn:E; [|by rewrite bool_decide_eq_true_2].
  rewrite bool_decide_eq_false_2 by done. simpl. destruct Hok as (Hq & _).
  rewrite (tq_remainder_law _ _ _ _ _ Hq E).
  destruct (tq_ok_expiries _ _ _ Hq) as (Hc & Hx & Hnb).
  destruct (Hx _ _ E) as [? _]. specialize (Hnb _ _ E). unfold MAX_TICK, INT64_MAX in *.
  rewrite !i64_small by lia. lia.
Qed.

Lemma bit0_even t k : Z.even t = true -> 0 <= k ->
  Z.testbit (t .| INFLIGHT_SUPERSEDED_BIT) k = (k =? 0) || Z.testbit t k /\ Z.testbit t 0 = false.
Proof.
  intros He Hk. change INFLIGHT_SUPERSEDED_BIT with (bit 0). rewrite testbit_set by lia.
  rewrite Z.bit0_odd, <- Z.negb_even, He. split; [apply orb_comm|done].
Qed.

Lemma inflight_even s t : Z.even t = true -> s.(inflight_timeout) = t \/
  s.(inflight_timeout) = t .| INFLIGHT_SUPERSEDED_BIT -> inflight_ptr s = t.
Proof.
  intros He Hi. unfold inflight_ptr. apply Z.bits_inj'. intros k Hk.
  change INFLIGHT_SUPERSEDED_BIT with (bit 0) at 1. rewrite testbit_clear by lia.
  destruct (bit0_even t k He Hk) as [Hb H0].
  destruct Hi as [-> | ->]; rewrite ?Hb; destruct (Z.eqb_spec k 0) as [->|]; simpl;
    rewrite ?andb_false_r, ?andb_true_r; done.
Qed.

Lemma not_superseded s t : Z.even t = true -> s.(inflight_timeout) = t ->
  z_timeout_inflight_superseded s t = false.
Proof.
  intros He Hi. unfold z_timeout_inflight_superseded. rewrite Hi. apply Z.eqb_neq. intros E.
  destruct (bit0_even t 0 He) as [Hb H0]; [done|]. rewrite <- E, H0 in Hb. done.
Qed.

Lemma tick_get_ok s m : clock_ok s m -> s.(curr_tick) + elapsed s <= MAX_TICK ->
  sys_clock_tick_get s = s.(curr_tick) + elapsed s.
Proof.
  intros Hok Hm. pose proof (elapsed_range s m Hok) as [He _]. destruct Hok as (Hq & _).
  apply tq_ok_expiries in Hq as (Hc & _). unfold sys_clock_tick_get, MAX_TICK, INT64_MAX in *.
  rewrite i64_u64, i64_small; lia.
Qed.
End front_end.
