(* ===== verification/TimeoutOrder.v ===== *)
(** Expiry lists: pending timeouts with their absolute expiries, in the order in
    which they fire.  The timeout queues that keep such an order (the delta list
    and the buckets) are related to the map of TimeoutBackend through them. *)

From S2P Require Import Prelude Timeout.
From stdpp Require Import gmap.
#[local] Open Scope Z_scope.

Abbreviation elist := (list (toid * Z)).
Implicit Types (el : elist) (t : toid) (e : Z).
Definition elist_map (el : elist) : gmap toid Z := list_to_map el.
#[global] Arguments elist_map : simpl never.
Definition by_expiry (a b : toid * Z) : Prop := a.2 <= b.2.
Definition elist_sorted (el : elist) : Prop := StronglySorted by_expiry el.
Definition elist_ok (now : Z) (el : elist) : Prop :=
  NoDup el.*1 /\ elist_sorted el /\
  forall t e, (t, e) ∈ el -> now <= e <= MAX_TICK /\ t <> NULL.

Lemma elist_lookup el t e : NoDup el.*1 -> elist_map el !! t = Some e <-> (t, e) ∈ el.
Proof. intros Hn. symmetry. by apply elem_of_list_to_map. Qed.

Lemma elist_none el t : elist_map el !! t = None <-> t ∉ el.*1.
Proof. symmetry. apply not_elem_of_list_to_map. Qed.

Lemma elist_elem el t : t ∈ el.*1 <-> exists e, (t, e) ∈ el.
Proof.
  rewrite list_elem_of_fmap. split.
  - intros ([t' e] & -> & H). eauto.
  - intros [e H]. by exists (t, e).
Qed.

Lemma elist_perm el el' : NoDup el.*1 -> el ≡ₚ el' -> elist_map el = elist_map el'.
Proof. intros. by apply list_to_map_proper. Qed.

Lemma elist_ok_laws now el : 0 <= now -> elist_ok now el ->
  expiries_ok (elist_map el) /\ not_before now (elist_map el).
Proof.
  intros Hn (Hnd & _ & Hr). split; intros t e He; apply elist_lookup in He; try done;
    destruct (Hr t e He) as [? ?]; [split; [lia|done]|lia].
Qed.

(** ** Insertion after the equal ones *)

Definition elist_insert (t : toid) (e : Z) (el : elist) : elist :=
  insert_when (fun p => e <? p.2) (t, e) el.

Lemma elist_insert_map t e el : NoDup el.*1 -> t ∉ el.*1 ->
  NoDup (elist_insert t e el).*1 /\ elist_map (elist_insert t e el) = <[t := e]> (elist_map el).
Proof.
  intros Hn Ht. unfold elist_insert.
  assert (Hn' : NoDup (insert_when (fun p => e <? p.2) (t, e) el).*1)
    by (rewrite insert_when_perm; by constructor).
  split; [done|]. rewrite (elist_perm _ ((t, e) :: el)); [done|done|apply insert_when_perm].
Qed.

Lemma elist_insert_sorted t e el : elist_sorted el -> elist_sorted (elist_insert t e el).
Proof.
  unfold elist_sorted, elist_insert. intros Hs. induction Hs as [|x el Hs IH Hx]; simpl.
  - repeat constructor.
  - destruct (Z.ltb_spec e x.2).
    + constructor; [by constructor|]. constructor; [unfold by_expiry; simpl; lia|].
      eapply Forall_impl; [exact Hx|]. unfold by_expiry. simpl. lia.
    + constructor; [done|]. apply Forall_forall. intros y Hy.
      rewrite insert_when_perm in Hy. rewrite Forall_forall in Hx.
      apply elem_of_cons in Hy as [->|Hy]; [unfold by_expiry; simpl; lia|by apply Hx].
Qed.

Lemma elist_insert_ok now t e el : elist_ok now el -> t ∉ el.*1 -> t <> NULL ->
  now <= e <= MAX_TICK -> elist_ok now (elist_insert t e el).
Proof.
  intros (Hn & Hs & Hr) Ht Hnull He. split; [by apply elist_insert_map|].
  split; [by apply elist_insert_sorted|]. intros t' e'. unfold elist_insert.
  rewrite insert_when_perm. intros [E|Hx]%elem_of_cons; [by simplify_eq|by apply Hr].
Qed.

(** ** Removal *)

Definition elist_remove (t : toid) (el : elist) : elist := filter (fun p => p.1 <> t) el.

Lemma elist_remove_ok now t el : elist_ok now el -> elist_ok now (elist_remove t el).
Proof.
  intros (Hn & Hs & Hr). unfold elist_remove. split; [|split].
  - eapply sublist_NoDup; [exact Hn|]. apply fmap_sublist, sublist_filter.
  - by apply StronglySorted_filter.
  - intros t' e' [_ H]%list_elem_of_filter. by apply Hr.
Qed.

Lemma elist_remove_map now t el : elist_ok now el ->
  elist_map (elist_remove t el) = delete t (elist_map el).
Proof.
  intros Hok. pose proof (elist_remove_ok now t el Hok) as (Hn' & _).
  destruct Hok as (Hn & _). apply map_eq. intros t'. apply option_eq. intros e.
  rewrite lookup_delete_Some, !elist_lookup by done. unfold elist_remove.
  rewrite list_elem_of_filter. simpl. naive_solver.
Qed.

(** ** The first one *)

Lemma elist_first now el : elist_ok now el ->
  match el with
  | [] => elist_map el = ∅
  | (t, e) :: _ => elist_map el !! t = Some e /\ not_before e (elist_map el)
  end.
Proof.
  intros (Hn & Hs & _). destruct el as [|[t e] el]; [done|]. split.
  - apply elist_lookup; [done|]. set_solver.
  - intros t' e' Ht. apply elist_lookup in Ht; [|done].
    apply StronglySorted_inv in Hs as [_ Hx]. rewrite Forall_forall in Hx.
    apply elem_of_cons in Ht as [E|Ht]; [simplify_eq; lia|]. by apply (Hx (t', e')).
Qed.

(** The inserted timeout is first exactly when it expires before all others. *)
Lemma elist_insert_first t e el : elist_sorted el -> NoDup el.*1 -> t ∉ el.*1 ->
  (fst <$> head (elist_insert t e el)) = Some t <-> not_before (e + 1) (elist_map el).
Proof.
  intros Hs Hn Ht. unfold elist_insert. destruct el as [|[t' e'] el]; simpl.
  - split; [|done]. by intros _ ? ?.
  - apply StronglySorted_inv in Hs as [_ Hx]. rewrite Forall_forall in Hx.
    destruct (Z.ltb_spec e e'); simpl.
    + split; [|done]. intros _ t2 e2 H2. apply elist_lookup in H2; [|done].
      apply elem_of_cons in H2 as [E|H2]; [simplify_eq; lia|].
      specialize (Hx _ H2). unfold by_expiry in Hx. simpl in Hx. lia.
    + split; [intros [= ->]; set_solver|]. intros Hnb. specialize (Hnb t' e').
      rewrite elist_lookup in Hnb by done. specialize (Hnb ltac:(set_solver)). lia.
Qed.
