(* ===== verification/TimeoutList.v ===== *)
(** The sorted delta-list timeout queue, kernel/timeout_list.h (the default
    TIMEOUT_BACKEND_DLIST).

    A node's [dticks] field is the distance to its predecessor's expiry.  The
    list is the value of the [sys_dlist_t] [timeout_list] (Dlist relates the
    linked memory to such a list); the [dticks] fields are a store, because
    insertion and removal rewrite those of the neighbours. *)

From S2P Require Import Prelude Timeout TimeoutOrder.
From stdpp Require Import gmap.
#[local] Open Scope Z_scope.

Record delta_list := Delta_list {
  timeout_list : list toid;
  dticks : toid -> Z
}.

Definition z_timeout_q_first (q : delta_list) : option toid := head q.(timeout_list).

Fixpoint next_in (ts : list toid) (t : toid) : option toid :=
  match ts with
  | [] => None
  | x :: r => if decide (x = t) then head r else next_in r t
  end.

Definition z_timeout_q_next (q : delta_list) (t : toid) : option toid := next_in q.(timeout_list) t.

Fixpoint insert_loop (ts : list toid) (to : toid) (dt : toid -> Z) : list toid * (toid -> Z) :=
  match ts with
  | [] => ([to], dt)
  | t :: r =>
      if dt to <? dt t then (to :: t :: r, upd t (i64 (dt t - dt to)) dt)
      else let '(r', dt') := insert_loop r to (upd to (i64 (dt to - dt t)) dt) in (t :: r', dt')
  end.

Definition z_timeout_q_insert (q : delta_list) (to : toid) (d : Z) : delta_list * bool :=
  let '(ts, dt) := insert_loop q.(timeout_list) to (upd to d q.(dticks)) in
  let q' := Delta_list ts dt in
  (q', bool_decide (z_timeout_q_first q' = Some to)).

Definition z_timeout_q_remove (q : delta_list) (to : toid) : delta_list * bool :=
  let was_first := bool_decide (z_timeout_q_first q = Some to) in
  let dt := match z_timeout_q_next q to with
            | Some n => upd n (i64 (q.(dticks) n + q.(dticks) to)) q.(dticks)
            | None => q.(dticks)
            end in
  (Delta_list (filter (fun t => t <> to) q.(timeout_list)) dt, was_first).

Fixpoint remainder_loop (ts : list toid) (dt : toid -> Z) (to : toid) (ticks : Z) : Z :=
  match ts with
  | [] => ticks
  | t :: r =>
      let ticks := i64 (ticks + dt t) in
      if decide (to = t) then ticks else remainder_loop r dt to ticks
  end.

Definition z_timeout_q_remainder (q : delta_list) (to : toid) : Z :=
  remainder_loop q.(timeout_list) q.(dticks) to 0.

Definition z_timeout_q_next_expiry (q : delta_list) : Z :=
  match z_timeout_q_first q with
  | None => K_TICKS_FOREVER
  | Some to => q.(dticks) to
  end.

Definition z_timeout_q_next_gap (q : delta_list) : Z :=
  match z_timeout_q_first q with
  | None => INT32_MAX
  | Some t => i32 (Z.min (q.(dticks) t) INT32_MAX)
  end.

Definition z_timeout_q_advance (q : delta_list) (dt : Z) : delta_list :=
  match z_timeout_q_first q with
  | Some t => Delta_list q.(timeout_list) (upd t (i64 (q.(dticks) t - dt)) q.(dticks))
  | None => q
  end.

Definition z_timeout_q_pop_due (q : delta_list) : option (toid * delta_list) :=
  match z_timeout_q_first q with
  | None => None
  | Some t =>
      if negb (q.(dticks) t =? 0) then None
      else Some (t, Delta_list (filter (fun x => x <> t) q.(timeout_list)) q.(dticks))
  end.

(** ** Expiries of a delta list *)

Fixpoint expiries (dt : toid -> Z) (now : Z) (ts : list toid) : elist :=
  match ts with
  | [] => []
  | t :: r => (t, now + dt t) :: expiries dt (now + dt t) r
  end.

Fixpoint total (dt : toid -> Z) (ts : list toid) : Z :=
  match ts with
  | [] => 0
  | t :: r => dt t + total dt r
  end.

Definition delta_ok (now : Z) (q : delta_list) : Prop :=
  0 <= now /\ Forall (fun t => 0 <= q.(dticks) t) q.(timeout_list) /\
  elist_ok now (expiries q.(dticks) now q.(timeout_list)).

Lemma expiries_fst dt now ts : (expiries dt now ts).*1 = ts.
Proof. revert now. induction ts as [|t ts IH]; intros now; simpl; [done|]. by rewrite IH. Qed.

Lemma expiries_frame dt dt' now ts : (forall t, t ∈ ts -> dt' t = dt t) ->
  expiries dt' now ts = expiries dt now ts.
Proof.
  revert now. induction ts as [|t ts IH]; intros now Ht; simpl; [done|].
  rewrite Ht by set_solver. by rewrite IH by set_solver.
Qed.

Lemma expiries_app dt now ts1 ts2 :
  expiries dt now (ts1 ++ ts2) = expiries dt now ts1 ++ expiries dt (now + total dt ts1) ts2.
Proof.
  revert now. induction ts1 as [|t ts1 IH]; intros now; simpl; [by rewrite Z.add_0_r|].
  by rewrite IH, Z.add_assoc.
Qed.

Lemma elist_ok_tail now now' x (el : elist) : elist_ok now (x :: el) -> now' <= x.2 -> elist_ok now' el.
Proof.
  intros (Hn & Hs & Hr) Hx. apply StronglySorted_inv in Hs as [Hs Hh]. rewrite Forall_forall in Hh.
  apply NoDup_cons in Hn as [_ Hn]. split; [done|]. split; [done|]. intros t e Ht.
  destruct (Hr t e) as [? ?]; [set_solver|]. specialize (Hh (t, e) Ht). unfold by_expiry in Hh.
  simpl in Hh. split; [lia|done].
Qed.

Lemma insert_loop_ok ts to : forall now dt, to ∉ ts -> to <> NULL -> 0 <= now -> 0 <= dt to ->
  now + dt to <= MAX_TICK -> Forall (fun t => 0 <= dt t) ts -> elist_ok now (expiries dt now ts) ->
  let r := insert_loop ts to dt in
  expiries r.2 now r.1 = elist_insert to (now + dt to) (expiries dt now ts) /\
  (forall x, x ∉ to :: ts -> r.2 x = dt x) /\ Forall (fun t => 0 <= r.2 t) r.1.
Proof.
  induction ts as [|t ts IH]; intros now dt Ht Hnull Hnow Hto Hmax Hpos Hok; simpl.
  - split; [done|]. split; [done|]. by constructor.
  - apply not_elem_of_cons in Ht as [Hne Ht]. inversion Hpos as [|? ? Hpt Hpos']; subst.
    pose proof Hok as (Hn & _ & Hr). simpl in Hn. rewrite expiries_fst in Hn.
    apply NoDup_cons in Hn as [Htn _].
    destruct (Hr t (now + dt t)) as [Hle _]; [set_solver|]. unfold MAX_TICK, INT64_MAX in *.
    unfold elist_insert. simpl. destruct (Z.ltb_spec (dt to) (dt t)).
    + replace (now + dt to <? now + dt t) with true by (symmetry; apply Z.ltb_lt; lia).
      simpl. rewrite upd_ne, upd_eq, i64_small by (done || lia).
      replace (now + dt to + (dt t - dt to)) with (now + dt t) by lia.
      split; [|split].
      * f_equal. f_equal. apply expiries_frame. intros x Hx. apply upd_ne. by intros ->.
      * intros x Hx. apply upd_ne. set_solver.
      * constructor; [by rewrite upd_ne|]. constructor; [rewrite upd_eq; lia|].
        eapply Forall_impl; [exact Hpos'|]. simpl. intros x Hx. unfold upd. case_decide; lia.
    + replace (now + dt to <? now + dt t) with false by (symmetry; apply Z.ltb_ge; lia).
      set (dt1 := upd to (i64 (dt to - dt t)) dt).
      assert (E1 : dt1 to = dt to - dt t) by (unfold dt1; rewrite upd_eq; apply i64_small; lia).
      assert (E2 : forall x, x <> to -> dt1 x = dt x) by (intros; by apply upd_ne).
      destruct (IH (now + dt t) dt1) as (H1 & H2 & H3); [done|done|lia|lia|lia| | |].
      * eapply Forall_impl; [exact Hpos'|]. simpl. intros x Hx. unfold dt1, upd.
        case_decide; [rewrite i64_small; lia|done].
      * rewrite (expiries_frame dt) by (intros; apply E2; set_solver).
        eapply elist_ok_tail; [exact Hok|simpl; lia].
      * destruct (insert_loop ts to dt1) as [r' dt'] eqn:El. simpl in *.
        assert (Edt : dt' t = dt t) by (rewrite H2 by set_solver; by apply E2).
        rewrite Edt, H1, E1. replace (now + dt t + (dt to - dt t)) with (now + dt to) by lia.
        split; [|split].
        -- f_equal. unfold elist_insert. f_equal. apply expiries_frame. intros; apply E2; set_solver.
        -- intros x Hx. rewrite H2 by set_solver. apply E2. set_solver.
        -- constructor; [by rewrite Edt|done].
Qed.

Lemma next_in_split ts1 t ts2 : t ∉ ts1 -> next_in (ts1 ++ t :: ts2) t = head ts2.
Proof.
  induction ts1 as [|x ts1 IH]; simpl; intros Ht; [by rewrite decide_True|].
  rewrite decide_False by set_solver. apply IH. set_solver.
Qed.

Lemma filter_split (ts1 : list toid) t ts2 : NoDup (ts1 ++ t :: ts2) ->
  filter (fun x => x <> t) (ts1 ++ t :: ts2) = ts1 ++ ts2.
Proof.
  intros Hn. apply NoDup_app in Hn as (_ & H1 & H2). apply NoDup_cons in H2 as [H2 _].
  rewrite filter_app, filter_cons_False by naive_solver.
  rewrite !filter_ne_id; [done|done|]. intros Hx. apply (H1 t); set_solver.
Qed.

Lemma total_nonneg dt ts : Forall (fun t => 0 <= dt t) ts -> 0 <= total dt ts.
Proof. induction 1; simpl; lia. Qed.

(** The expiries of a list split at one of its nodes. *)
Lemma delta_split now q t : delta_ok now q -> t ∈ q.(timeout_list) ->
  exists ts1 ts2, q.(timeout_list) = ts1 ++ t :: ts2 /\ NoDup (ts1 ++ t :: ts2) /\
    let e := now + total q.(dticks) ts1 + q.(dticks) t in
    expiries q.(dticks) now q.(timeout_list) =
      expiries q.(dticks) now ts1 ++ (t, e) :: expiries q.(dticks) e ts2 /\
    0 <= total q.(dticks) ts1 /\ 0 <= q.(dticks) t /\ e <= MAX_TICK.
Proof.
  intros (Hnow & Hpos & Hn & Hs & Hr) (ts1 & ts2 & E)%list_elem_of_split.
  rewrite expiries_fst in Hn. exists ts1, ts2. rewrite E in *. split; [done|]. split; [done|].
  rewrite expiries_app in *. simpl in *. split; [done|].
  apply Forall_app in Hpos as [H1 H2]. inversion H2; subst.
  split; [by apply total_nonneg|]. split; [done|]. apply (Hr t). set_solver.
Qed.

Lemma remove_ok now q t : delta_ok now q -> t ∈ q.(timeout_list) ->
  let q' := (z_timeout_q_remove q t).1 in
  expiries q'.(dticks) now q'.(timeout_list) =
    elist_remove t (expiries q.(dticks) now q.(timeout_list)) /\
  Forall (fun x => 0 <= q'.(dticks) x) q'.(timeout_list).
Proof.
  intros Hok Ht. destruct (delta_split now q t Hok Ht) as (ts1 & ts2 & E & Hn & Ex & H1 & H2 & H3).
  destruct Hok as (Hnow & Hpos & _ & _ & Hr). rewrite Ex in Hr |- *.
  unfold z_timeout_q_remove, z_timeout_q_next. simpl. rewrite E in Hpos |- *.
  rewrite filter_split by done. apply NoDup_app in Hn as (Hn1 & Hn12 & Hn2).
  apply NoDup_cons in Hn2 as [Htn Hn2]. assert (Ht1 : t ∉ ts1) by (intros Hx; apply (Hn12 t); set_solver).
  rewrite next_in_split by done. apply Forall_app in Hpos as [Hp1 Hp2].
  inversion Hp2 as [|? ? _ Hp2']; subst.
  assert (Er : elist_remove t (expiries q.(dticks) now ts1 ++
      (t, now + total q.(dticks) ts1 + q.(dticks) t) ::
      expiries q.(dticks) (now + total q.(dticks) ts1 + q.(dticks) t) ts2) =
    expiries q.(dticks) now ts1 ++ expiries q.(dticks) (now + total q.(dticks) ts1 + q.(dticks) t) ts2).
  { unfold elist_remove. rewrite filter_app, filter_cons_False by naive_solver.
    rewrite !filter_id; [done|..]; intros [x e] Hx; simpl; intros ->;
      assert (t ∈ (expiries q.(dticks) (now + total q.(dticks) ts1 + q.(dticks) t) ts2).*1 \/
              t ∈ (expiries q.(dticks) now ts1).*1) as Hin
        by (rewrite !elist_elem; eauto); rewrite !expiries_fst in Hin; set_solver. }
  rewrite Er. destruct ts2 as [|n ts2]; simpl.
  - rewrite !app_nil_r. done.
  - destruct (Hr n (now + total q.(dticks) ts1 + q.(dticks) t + q.(dticks) n)) as [Hbn _]; [set_solver|].
    inversion Hp2' as [|? ? Hpn Hp2'']; subst. apply NoDup_cons in Hn2 as [Hnn Hn2].
    unfold MAX_TICK, INT64_MAX in *. rewrite i64_small by lia.
    assert (Hf : forall x, x ∈ ts1 \/ x ∈ ts2 ->
      upd n (q.(dticks) n + q.(dticks) t) q.(dticks) x = q.(dticks) x).
    { intros x Hx. apply upd_ne. intros ->. destruct Hx; [apply (Hn12 n); set_solver|done]. }
    split.
    + rewrite expiries_app. simpl. rewrite (expiries_frame q.(dticks)) by auto.
      f_equal. rewrite upd_eq.
      assert (total (upd n (q.(dticks) n + q.(dticks) t) q.(dticks)) ts1 = total q.(dticks) ts1) as ->.
      { clear -Hf. induction ts1 as [|x ts1 IH]; simpl; [done|].
        rewrite Hf, IH by set_solver. done. }
      replace (now + total q.(dticks) ts1 + (q.(dticks) n + q.(dticks) t))
        with (now + total q.(dticks) ts1 + q.(dticks) t + q.(dticks) n) by lia.
      f_equal. apply expiries_frame. auto.
    + apply Forall_app. split; [|constructor; [rewrite upd_eq; lia|]].
      * rewrite Forall_forall in *. intros x Hx. rewrite Hf by auto. by apply Hp1.
      * rewrite Forall_forall in *. intros x Hx. rewrite Hf by auto. by apply Hp2''.
Qed.

Lemma remainder_loop_ok dt ts1 t ts2 acc : t ∉ ts1 -> Forall (fun x => 0 <= dt x) (ts1 ++ [t]) ->
  0 <= acc -> acc + total dt ts1 + dt t < 2 ^ 63 ->
  remainder_loop (ts1 ++ t :: ts2) dt t acc = acc + total dt ts1 + dt t.
Proof.
  revert acc. induction ts1 as [|x ts1 IH]; intros acc Ht Hp Ha Hb; simpl in *.
  - inversion Hp; subst. rewrite decide_True by done. rewrite i64_small; lia.
  - inversion Hp as [|? ? Hx Hp']; subst. rewrite decide_False by set_solver.
    pose proof Hp' as Hp2. apply Forall_app in Hp2 as [Hp1 Hp2]. inversion Hp2; subst.
    pose proof (total_nonneg dt ts1 Hp1). rewrite i64_small by lia.
    rewrite IH; [lia|set_solver|done|lia|lia].
Qed.

Lemma active_ok now q t : delta_ok now q ->
  bool_decide (t ∈ q.(timeout_list)) =
  bool_decide (is_Some (elist_map (expiries q.(dticks) now q.(timeout_list)) !! t)).
Proof.
  intros _. apply bool_decide_ext. rewrite <- not_eq_None_Some, elist_none, expiries_fst.
  destruct (decide (t ∈ q.(timeout_list))); naive_solver.
Qed.

Lemma delta_elem now q t e : delta_ok now q ->
  elist_map (expiries q.(dticks) now q.(timeout_list)) !! t = Some e ->
  t ∈ q.(timeout_list) /\ (t, e) ∈ expiries q.(dticks) now q.(timeout_list).
Proof.
  intros (_ & _ & Hn & _) He. apply elist_lookup in He; [|done]. split; [|done].
  rewrite <- (expiries_fst q.(dticks) now q.(timeout_list)). apply elist_elem. eauto.
Qed.

Lemma insert_ok now q t d : delta_ok now q -> t ∉ q.(timeout_list) -> t <> NULL ->
  0 <= d -> now + d <= MAX_TICK ->
  let r := z_timeout_q_insert q t d in
  delta_ok now r.1 /\
  expiries r.1.(dticks) now r.1.(timeout_list) =
    elist_insert t (now + d) (expiries q.(dticks) now q.(timeout_list)) /\
  (r.2 = true <-> fst <$> head (expiries r.1.(dticks) now r.1.(timeout_list)) = Some t).
Proof.
  intros (Hnow & Hpos & Hok) Ht Hnull Hd Hmax.
  set (dt := upd t d q.(dticks)).
  assert (Hf : forall x, x ∈ q.(timeout_list) -> dt x = q.(dticks) x).
  { intros x Hx. apply upd_ne. by intros ->. }
  assert (Ed : dt t = d) by apply upd_eq.
  destruct (insert_loop_ok q.(timeout_list) t now dt) as (H1 & _ & H3); rewrite ?Ed; try done.
  { rewrite Forall_forall in *. intros x Hx. rewrite Hf by done. by apply Hpos. }
  { by rewrite (expiries_frame q.(dticks)). }
  rewrite Ed, (expiries_frame q.(dticks) dt) in H1 by done. unfold z_timeout_q_insert. fold dt.
  destruct (insert_loop _ _ _) as [ts' dt']. simpl in *. split; [|split].
  - split; [done|]. split; [done|]. simpl. rewrite H1.
    apply elist_insert_ok; [done|by rewrite expiries_fst|done|lia].
  - done.
  - rewrite bool_decide_eq_true. by destruct ts'.
Qed.

Lemma advance_ok now q d : delta_ok now q -> 0 <= d <= INT32_MAX ->
  not_before (now + d) (elist_map (expiries q.(dticks) now q.(timeout_list))) ->
  now + d <= MAX_TICK ->
  let q' := z_timeout_q_advance q d in
  delta_ok (now + d) q' /\
  expiries q'.(dticks) (now + d) q'.(timeout_list) = expiries q.(dticks) now q.(timeout_list).
Proof.
  intros (Hnow & Hpos & Hok) Hd Hnb Hmax. unfold z_timeout_q_advance, z_timeout_q_first.
  pose proof Hok as (Hn & Hs & Hr). destruct q as [[|t ts] dt]; simpl in *.
  - split; [|done]. split; [lia|]. split; [constructor|]. simpl. repeat constructor; set_solver.
  - inversion Hpos as [|? ? Hpt Hpos']; subst. rewrite expiries_fst in Hn.
    apply NoDup_cons in Hn as [Htn Hn].
    destruct (Hr t (now + dt t)) as [Hb _]; [set_solver|].
    specialize (Hnb t (now + dt t)).
    rewrite elist_lookup in Hnb by (apply NoDup_cons; rewrite expiries_fst; done).
    specialize (Hnb ltac:(set_solver)). unfold MAX_TICK, INT64_MAX, INT32_MAX in *.
    rewrite i64_small by lia.
    assert (E : expiries (upd t (dt t - d) dt) (now + d) (t :: ts) = expiries dt now (t :: ts)).
    { simpl. rewrite upd_eq. replace (now + d + (dt t - d)) with (now + dt t) by lia.
      f_equal. apply expiries_frame. intros x Hx. apply upd_ne. by intros ->. }
    split; [|exact E]. split; [simpl; lia|]. split.
    + simpl. constructor; [rewrite upd_eq; lia|]. rewrite Forall_forall in *. intros x Hx.
      rewrite upd_ne by (by intros ->). by apply Hpos'.
    + simpl. simpl in E. rewrite E. destruct Hok as (H1 & H2 & H3). split; [done|].
      split; [done|]. intros x e Hx. destruct (H3 x e Hx) as [? ?]. split; [|done].
      split; [|lia]. apply elem_of_cons in Hx as [Ex|Hx]; [by simplify_eq|].
      apply StronglySorted_inv in H2 as [_ H2]. rewrite Forall_forall in H2.
      specialize (H2 _ Hx). unfold by_expiry in H2. simpl in H2. lia.
Qed.

Lemma pop_ok now q : delta_ok now q ->
  match z_timeout_q_pop_due q with
  | None => not_before (now + 1) (elist_map (expiries q.(dticks) now q.(timeout_list)))
  | Some (t, q') => delta_ok now q' /\
      expiries q.(dticks) now q.(timeout_list) =
        (t, now) :: expiries q'.(dticks) now q'.(timeout_list)
  end.
Proof.
  intros (Hnow & Hpos & Hok). pose proof (elist_first now _ Hok) as Hfirst.
  unfold z_timeout_q_pop_due, z_timeout_q_first. destruct q as [[|t ts] dt]; simpl in *.
  - rewrite Hfirst. by intros ? ?.
  - inversion Hpos as [|? ? Hpt Hpos']; subst. destruct (Z.eqb_spec (dt t) 0) as [E|E]; simpl.
    + rewrite filter_cons_False by naive_solver. pose proof Hok as (Hn & _ & _).
      simpl in Hn. rewrite expiries_fst in Hn. apply NoDup_cons in Hn as [Htn Hn].
      rewrite filter_ne_id by done. rewrite E, Z.add_0_r in *. split; [|done].
      split; [done|]. split; [done|]. eapply elist_ok_tail; [exact Hok|simpl; lia].
    + intros t' e' Ht'. apply Hfirst in Ht'. lia.
Qed.

(** ** The delta list is a timeout queue *)

Lemma head_expiry now q : delta_ok now q ->
  match z_timeout_q_first q with
  | None => expiries q.(dticks) now q.(timeout_list) = []
  | Some t => exists r, expiries q.(dticks) now q.(timeout_list) = (t, now + q.(dticks) t) :: r
  end.
Proof. intros _. unfold z_timeout_q_first. destruct q as [[|t ts] dt]; simpl; eauto. Qed.

#[local, refine] Instance delta_list_backend : TimeoutBackend := {
  tq := delta_list;
  tq_active q t := bool_decide (t ∈ q.(timeout_list));
  tq_insert _ := z_timeout_q_insert;
  tq_remove _ := z_timeout_q_remove;
  tq_remainder _ := z_timeout_q_remainder;
  tq_next_expiry _ := z_timeout_q_next_expiry;
  tq_next_gap _ := z_timeout_q_next_gap;
  tq_advance _ := z_timeout_q_advance;
  tq_pop_due _ := z_timeout_q_pop_due;
  tq_ok now q m := delta_ok now q /\ m = elist_map (expiries q.(dticks) now q.(timeout_list));
  tq_room _ := True
}.
Proof.
  - intros now q m [(Hnow & Hpos & Hok) ->]. split; [done|]. by apply elist_ok_laws.
  - intros now q m t [Hok ->]. by apply active_ok.
  - intros now q m t d [Hok ->] _ Ht Hnull Hd Hmax. rewrite elist_none, expiries_fst in Ht.
    destruct (insert_ok now q t d Hok Ht Hnull Hd Hmax) as (H1 & H2 & H3).
    pose proof Hok as (_ & _ & Hn & Hs & _). split; [split; [done|]|].
    + rewrite H2. symmetry. apply elist_insert_map; [done|by rewrite expiries_fst].
    + intros _ _. rewrite H3, H2. apply elist_insert_first; [done|done|by rewrite expiries_fst].
  - intros now q m t e [Hok ->] He. destruct (delta_elem _ _ _ _ Hok He) as [Ht Hin].
    destruct (remove_ok now q t Hok Ht) as [H1 H2]. pose proof Hok as (Hnow & Hpos & Hel).
    split; [split|].
    + split; [done|]. split; [done|]. rewrite H1. by apply elist_remove_ok.
    + rewrite H1. symmetry. by eapply elist_remove_map.
    + intros _ Hb. pose proof (elist_first now _ Hel) as Hf. pose proof (head_expiry now q Hok) as Hh.
      unfold z_timeout_q_remove in Hb. simpl in Hb. apply bool_decide_eq_false in Hb.
      destruct (z_timeout_q_first q) as [t'|]; [|rewrite Hh in Hin; set_solver].
      destruct Hh as [r Hr]. rewrite Hr in Hf. exists t', (now + q.(dticks) t').
      rewrite Hr. split; [congruence|]. split; [apply Hf|]. rewrite Hr in He. by apply Hf in He.
  - intros now q m t e [Hok ->] He. destruct (delta_elem _ _ _ _ Hok He) as [Ht Hin].
    destruct (delta_split now q t Hok Ht) as (ts1 & ts2 & E & Hn & Ex & H1 & H2 & H3).
    pose proof Hok as (Hnow & Hpos & Hel & _). unfold z_timeout_q_remainder. rewrite E in Hpos |- *.
    apply NoDup_app in Hn as (_ & Hn & _). unfold MAX_TICK, INT64_MAX in H3.
    rewrite remainder_loop_ok; [|intros Hx; apply (Hn t); set_solver| |lia|lia].
    + apply elist_lookup in Hin; [|done]. rewrite He in Hin. rewrite Ex in He.
      apply elist_lookup in He; [|by rewrite <- Ex].
      assert ((t, now + total q.(dticks) ts1 + q.(dticks) t) ∈
        expiries q.(dticks) now q.(timeout_list)) as Hin2 by (rewrite Ex; set_solver).
      rewrite Ex in Hel, Hin2. apply (elist_lookup _ _ _ Hel) in He, Hin2. rewrite He in Hin2.
      simplify_eq. lia.
    + apply Forall_app in Hpos as [? Hp]. inversion Hp; subst. apply Forall_app; split; [done|by constructor].
  - intros now q m [Hok ->] _. pose proof Hok as (_ & _ & Hel). pose proof (elist_first now _ Hel) as Hf.
    pose proof (head_expiry now q Hok) as Hh. unfold z_timeout_q_next_expiry.
    destruct (z_timeout_q_first q) as [t|]; [right; destruct Hh as [r Hr]|left; by rewrite Hh].
    rewrite Hr in *. exists t, (now + q.(dticks) t). destruct Hf as [? ?].
    split; [done|]. split; [done|]. lia.
  - intros now q m [Hok ->] Hnb. pose proof Hok as (Hnow & _ & Hel). pose proof (elist_first now _ Hel) as Hf.
    pose proof (head_expiry now q Hok) as Hh. unfold z_timeout_q_next_gap.
    destruct (z_timeout_q_first q) as [t|]; [right; destruct Hh as [r Hr]|left; by rewrite Hh].
    rewrite Hr in *. exists t, (now + q.(dticks) t). destruct Hf as [Ht Hmin].
    split; [done|]. split; [done|]. specialize (Hnb _ _ Ht). unfold INT32_MAX.
    rewrite i32_small by lia. lia.
  - intros now q m d [Hok ->] _ Hd Hnb Hmax. destruct (advance_ok now q d Hok Hd Hnb Hmax) as [H1 H2].
    split; [done|]. by rewrite H2.
  - intros now q m [Hok ->]. pose proof (pop_ok now q Hok) as Hp.
    destruct (z_timeout_q_pop_due q) as [[t q']|]; [|done]. destruct Hp as [H1 H2].
    destruct Hok as (_ & _ & Hel). rewrite H2 in *. split; [apply (elist_first now _ Hel)|].
    split; [done|]. change (elist_map ((t, now) :: ?l)) with (<[t := now]> (elist_map l)).
    rewrite delete_insert_id; [done|]. apply elist_none. destruct Hel as (Hn & _).
    by apply NoDup_cons in Hn as [Hn _].
Defined.
