(* ===== verification/TimeoutBucket.v ===== *)
(** The bucketed timeout queue, kernel/timeout_bucket.h
    (TIMEOUT_BACKEND_BUCKET).

    Timeouts of the current window of [BUCKET_LISTS] ticks sit in one list per
    tick, later ones in an overflow list sorted by expiry; a bitmap tells the
    non-empty buckets.  A node's [dticks] is its bucket index or, in the overflow
    list, its absolute expiry.  [BUCKET_LISTS] is [2 ^ k] with [k <= 6], as the
    build asserts; the bitmap is 32 or 64 bits wide accordingly. *)

From S2P Require Import Prelude MathExtras Timeout TimeoutOrder.
From stdpp Require Import gmap.
#[local] Open Scope Z_scope.

Record buckets := Buckets {
  bucket : Z -> list toid;
  overflow : list toid;
  bucket_bits : Z;
  cursor_base : Z;
  dticks : toid -> Z
}.

Section bucket.
Context (k : Z).

Definition BUCKET_LISTS : Z := 2 ^ k.
Definition BUCKET_MASK : Z := BUCKET_LISTS - 1.
Definition BITMAP_W : Z := if BUCKET_LISTS <=? 32 then 32 else 64.
Definition bucket_bits_ctz (x : Z) : Z :=
  if BUCKET_LISTS <=? 32 then u32_count_trailing_zeros x else u64_count_trailing_zeros x.
Definition BUCKET_BIT (n : Z) : Z := bit n mod 2 ^ BITMAP_W.

Definition timeout_bucket_init (dt : toid -> Z) : buckets := Buckets (fun _ => []) [] 0 0 dt.

Definition overflow_head (q : buckets) : option toid := head q.(overflow).

Definition earliest_gap (curr_tick : Z) (q : buckets) : Z :=
  let cur_off := curr_tick .& BUCKET_MASK in
  let gap :=
    if cur_off <? BUCKET_LISTS - 1 then
      let ahead := q.(bucket_bits) .& (((2 ^ BITMAP_W - 1) .<< (cur_off + 1)) mod 2 ^ BITMAP_W) in
      if negb (ahead =? 0) then bucket_bits_ctz ahead - cur_off else INT64_MAX
    else INT64_MAX in
  if gap =? INT64_MAX then
    match overflow_head q with
    | Some t => i64 (q.(dticks) t - curr_tick)
    | None => gap
    end
  else gap.

Fixpoint overflow_insert (dt : toid -> Z) (ts : list toid) (to : toid) (expiry : Z) : list toid :=
  match ts with
  | [] => [to]
  | t :: r => if expiry <? u64 (dt t) then to :: t :: r else t :: overflow_insert dt r to expiry
  end.

Definition z_timeout_q_insert (curr_tick : Z) (q : buckets) (to : toid) (d : Z) : buckets * bool :=
  let expiry := u64 (curr_tick + u64 d) in
  let old_gap := earliest_gap curr_tick q in
  if expiry <? u64 (q.(cursor_base) + BUCKET_LISTS) then
    let idx := expiry .& BUCKET_MASK in
    (Buckets (upd idx (q.(bucket) idx ++ [to]) q.(bucket)) q.(overflow)
       (q.(bucket_bits) .| BUCKET_BIT idx) q.(cursor_base) (upd to idx q.(dticks)),
     d <? old_gap)
  else
    let dt := upd to (i64 expiry) q.(dticks) in
    (Buckets q.(bucket) (overflow_insert dt q.(overflow) to expiry) q.(bucket_bits)
       q.(cursor_base) dt,
     d <? old_gap).

Definition z_timeout_q_remainder (curr_tick : Z) (q : buckets) (to : toid) : Z :=
  if u64 (q.(dticks) to) <? BUCKET_LISTS then
    let off := u64 (u64 (q.(dticks) to) - q.(cursor_base)) .& BUCKET_MASK in
    i64 (u64 (q.(cursor_base) + off - curr_tick))
  else i64 (u64 (u64 (q.(dticks) to) - curr_tick)).

(** [sys_dlist_remove] unlinks the node from the list it is on. *)
Definition unlink (to : toid) (ts : list toid) : list toid := filter (fun t => t <> to) ts.

Definition z_timeout_q_remove (curr_tick : Z) (q : buckets) (to : toid) : buckets * bool :=
  let was_first := z_timeout_q_remainder curr_tick q to <=? earliest_gap curr_tick q in
  if u64 (q.(dticks) to) <? BUCKET_LISTS then
    let idx := q.(dticks) to in
    let b := upd idx (unlink to (q.(bucket) idx)) q.(bucket) in
    (Buckets b q.(overflow)
       (if bool_decide (b idx = []) then q.(bucket_bits) .& Z.lnot (BUCKET_BIT idx)
        else q.(bucket_bits))
       q.(cursor_base) q.(dticks),
     was_first)
  else
    (Buckets q.(bucket) (unlink to q.(overflow)) q.(bucket_bits) q.(cursor_base) q.(dticks), was_first).

Definition z_timeout_q_next_expiry (curr_tick : Z) (q : buckets) : Z :=
  let gap := earliest_gap curr_tick q in
  if gap =? INT64_MAX then K_TICKS_FOREVER else gap.

Definition z_timeout_q_next_gap (curr_tick : Z) (q : buckets) : Z :=
  let gap := earliest_gap curr_tick q in
  if gap =? INT64_MAX then INT32_MAX else i32 (Z.min gap INT32_MAX).

(** The migration loop: it removes the head of the overflow list while that is
    within the window, so it is structural on the list. *)
Fixpoint migrate (ov : list toid) (q : buckets) : buckets :=
  match ov with
  | [] => Buckets q.(bucket) [] q.(bucket_bits) q.(cursor_base) q.(dticks)
  | t :: r =>
      if u64 (q.(dticks) t) <? u64 (q.(cursor_base) + BUCKET_LISTS) then
        let idx := u64 (q.(dticks) t) .& BUCKET_MASK in
        migrate r (Buckets (upd idx (q.(bucket) idx ++ [t]) q.(bucket)) r
                     (q.(bucket_bits) .| BUCKET_BIT idx) q.(cursor_base) (upd t idx q.(dticks)))
      else Buckets q.(bucket) (t :: r) q.(bucket_bits) q.(cursor_base) q.(dticks)
  end.

Definition z_timeout_q_advance (curr_tick : Z) (q : buckets) (dt : Z) : buckets :=
  let new_curr := u64 (curr_tick + u64 dt) in
  if new_curr <? u64 (q.(cursor_base) + BUCKET_LISTS) then q
  else
    migrate q.(overflow)
      (Buckets q.(bucket) q.(overflow) 0 (new_curr .& Z.lnot BUCKET_MASK) q.(dticks)).

Definition z_timeout_q_pop_due (curr_tick : Z) (q : buckets) : option (toid * buckets) :=
  let idx := curr_tick .& BUCKET_MASK in
  match q.(bucket) idx with
  | [] => None
  | t :: _ =>
      let b := upd idx (unlink t (q.(bucket) idx)) q.(bucket) in
      Some (t, Buckets b q.(overflow)
        (if bool_decide (b idx = []) then q.(bucket_bits) .& Z.lnot (BUCKET_BIT idx)
         else q.(bucket_bits))
        q.(cursor_base) q.(dticks))
  end.

(** ** The timeouts of a bucket queue, in firing order *)

Definition slots (base : Z) (b : Z -> list toid) (ps : list Z) : elist :=
  ps ≫= fun p => (fun t => (t, base + p)) <$> b p.
Definition late (dt : toid -> Z) (ov : list toid) : elist := (fun t => (t, dt t)) <$> ov.
#[local] Arguments late : simpl never.
Definition belist (q : buckets) : elist :=
  slots q.(cursor_base) q.(bucket) (seqZ 0 BUCKET_LISTS) ++ late q.(dticks) q.(overflow).

(** The buckets agree with the window, the [dticks] fields and the bitmap. *)
Definition window_ok (q : buckets) : Prop :=
  (forall p t, 0 <= p < BUCKET_LISTS -> t ∈ q.(bucket) p -> q.(dticks) t = p) /\
  (forall p, 0 <= p < BUCKET_LISTS ->
     Z.testbit q.(bucket_bits) p = negb (bool_decide (q.(bucket) p = []))) /\
  0 <= q.(bucket_bits) < 2 ^ BUCKET_LISTS.

Definition bucket_ok (now : Z) (q : buckets) : Prop :=
  0 <= now <= MAX_TICK /\ q.(cursor_base) = BUCKET_LISTS * (now / BUCKET_LISTS) /\
  window_ok q /\
  (forall t, t ∈ q.(overflow) -> q.(cursor_base) + BUCKET_LISTS <= q.(dticks) t) /\
  elist_ok now (belist q).

Context (Hk : 0 <= k <= 6).

Lemma lists_pos : 0 < BUCKET_LISTS <= 64.
Proof.
  unfold BUCKET_LISTS. split; [apply Z.pow_pos_nonneg; lia|].
  change 64 with (2 ^ 6). apply Z.pow_le_mono_r; lia.
Qed.

Lemma bitmap_w : (BITMAP_W = 32 \/ BITMAP_W = 64) /\ BUCKET_LISTS <= BITMAP_W.
Proof. pose proof lists_pos. unfold BITMAP_W. destruct (Z.leb_spec BUCKET_LISTS 32); lia. Qed.

Lemma land_mask x : x .& BUCKET_MASK = x mod BUCKET_LISTS.
Proof.
  unfold BUCKET_MASK, BUCKET_LISTS. rewrite <- Z.land_ones by lia. f_equal.
  rewrite Z.ones_equiv. lia.
Qed.

Lemma land_not_mask x : x .& Z.lnot BUCKET_MASK = BUCKET_LISTS * (x / BUCKET_LISTS).
Proof.
  unfold BUCKET_MASK, BUCKET_LISTS. rewrite <- Z.ldiff_land.
  replace (2 ^ k - 1) with (Z.ones k) by (rewrite Z.ones_equiv; lia).
  rewrite Z.ldiff_ones_r, Z.shiftl_mul_pow2, Z.shiftr_div_pow2 by lia. lia.
Qed.

Lemma bucket_bit p : 0 <= p < BUCKET_LISTS -> BUCKET_BIT p = bit p.
Proof.
  intros Hp. pose proof bitmap_w as [_ Hw]. unfold BUCKET_BIT. apply Z.mod_small.
  apply bit_bound. lia.
Qed.

Lemma window_index base x : base mod BUCKET_LISTS = 0 -> base <= x < base + BUCKET_LISTS ->
  x mod BUCKET_LISTS = x - base.
Proof.
  intros Hb Hx. pose proof lists_pos. symmetry. apply Z.mod_unique with (base / BUCKET_LISTS); [lia|].
  pose proof (Z.div_mod base BUCKET_LISTS). lia.
Qed.

Lemma window_of now : let base := BUCKET_LISTS * (now / BUCKET_LISTS) in
  base mod BUCKET_LISTS = 0 /\ base <= now < base + BUCKET_LISTS.
Proof.
  pose proof lists_pos. intros base. split; [unfold base; rewrite Z.mul_comm; by apply Z.mod_mul; lia|].
  pose proof (Z.div_mod now BUCKET_LISTS). pose proof (Z.mod_pos_bound now BUCKET_LISTS). lia.
Qed.

Lemma elem_of_slots base b ps t e : (t, e) ∈ slots base b ps <->
  exists p, p ∈ ps /\ t ∈ b p /\ e = base + p.
Proof.
  unfold slots. rewrite list_elem_of_bind. split.
  - intros (p & Hin & Hp). apply list_elem_of_fmap in Hin as (t' & E & Ht). simplify_eq. eauto.
  - intros (p & Hp & Ht & ->). exists p. split; [|done]. apply list_elem_of_fmap. eauto.
Qed.

Lemma elem_of_late dt ov t e : (t, e) ∈ late dt ov <-> t ∈ ov /\ e = dt t.
Proof.
  unfold late. rewrite list_elem_of_fmap. split.
  - intros (t' & E & Ht). by simplify_eq.
  - intros [Ht ->]. eauto.
Qed.

Lemma slots_ext base b b' ps : (forall p, p ∈ ps -> b' p = b p) -> slots base b' ps = slots base b ps.
Proof.
  intros Hb. unfold slots. induction ps as [|p ps IH]; [done|].
  rewrite !bind_cons, Hb by set_solver. by rewrite IH by set_solver.
Qed.

Lemma late_ext dt dt' ov : (forall t, t ∈ ov -> dt' t = dt t) -> late dt' ov = late dt ov.
Proof. intros Hd. unfold late. apply list_fmap_ext. intros i t Ht. f_equal. apply Hd. by eapply list_elem_of_lookup_2. Qed.

Lemma slots_split base b idx : 0 <= idx < BUCKET_LISTS ->
  slots base b (seqZ 0 BUCKET_LISTS) =
    (slots base b (seqZ 0 idx) ++ ((fun t => (t, base + idx)) <$> b idx)) ++
    slots base b (seqZ (idx + 1) (BUCKET_LISTS - idx - 1)).
Proof.
  intros Hi. replace BUCKET_LISTS with (idx + (1 + (BUCKET_LISTS - idx - 1))) at 1 by lia.
  rewrite seqZ_app by lia. rewrite seqZ_app by lia. unfold slots. rewrite !bind_app.
  change (seqZ (0 + idx) 1) with [0 + idx]. rewrite bind_singleton, <- app_assoc. done.
Qed.

Lemma elist_insert_mid (a b : elist) t e : (forall x, x ∈ a -> x.2 <= e) -> (forall x, x ∈ b -> e < x.2) ->
  elist_insert t e (a ++ b) = a ++ (t, e) :: b.
Proof.
  intros Ha Hb. unfold elist_insert. induction a as [|x a IH]; simpl.
  - destruct b as [|y b]; simpl; [done|]. specialize (Hb y ltac:(set_solver)).
    by replace (e <? y.2) with true by (symmetry; apply Z.ltb_lt; lia).
  - specialize (Ha x ltac:(set_solver)) as Hx.
    replace (e <? x.2) with false by (symmetry; apply Z.ltb_ge; lia).
    by rewrite IH by (intros; apply Ha; set_solver).
Qed.

(** Appending to the bucket of a tick inserts in firing order. *)
Lemma slots_append base b idx t : 0 <= idx < BUCKET_LISTS ->
  slots base (upd idx (b idx ++ [t]) b) (seqZ 0 BUCKET_LISTS) =
    elist_insert t (base + idx) (slots base b (seqZ 0 BUCKET_LISTS)).
Proof.
  intros Hi. rewrite !(slots_split _ _ idx) by done. rewrite upd_eq, fmap_app. simpl.
  rewrite !(slots_ext base b (upd _ _ _))
    by (intros p Hp%elem_of_seqZ; apply upd_ne; lia).
  rewrite elist_insert_mid; [by rewrite <- !app_assoc|..].
  - intros [x e] [Hx|Hx]%elem_of_app.
    + apply elem_of_slots in Hx as (p & Hp%elem_of_seqZ & _ & ->). simpl. lia.
    + apply list_elem_of_fmap in Hx as (y & E & _). simplify_eq/=. lia.
  - intros [x e] Hx. apply elem_of_slots in Hx as (p & Hp%elem_of_seqZ & _ & ->). simpl. lia.
Qed.

Lemma belist_elem q t e : (t, e) ∈ belist q <->
  (exists p, 0 <= p < BUCKET_LISTS /\ t ∈ q.(bucket) p /\ e = q.(cursor_base) + p) \/
  (t ∈ q.(overflow) /\ e = q.(dticks) t).
Proof.
  unfold belist. rewrite elem_of_app, elem_of_slots, elem_of_late.
  setoid_rewrite elem_of_seqZ. f_equiv. f_equiv. intros p. f_equiv. lia.
Qed.

(** Facts the operations start from. *)
Lemma bucket_ok_base now q : bucket_ok now q ->
  q.(cursor_base) mod BUCKET_LISTS = 0 /\
  0 <= q.(cursor_base) <= now /\ now < q.(cursor_base) + BUCKET_LISTS /\
  u64 (q.(cursor_base) + BUCKET_LISTS) = q.(cursor_base) + BUCKET_LISTS /\
  now .& BUCKET_MASK = now - q.(cursor_base).
Proof.
  intros (Hn & Hb & _). pose proof lists_pos. destruct (window_of now) as [H1 H2].
  rewrite <- Hb in H1, H2. assert (0 <= now / BUCKET_LISTS) by (apply Z.div_pos; lia).
  split; [done|]. split; [nia|]. split; [lia|]. unfold MAX_TICK, INT64_MAX in Hn.
  split; [apply u64_small; nia|]. rewrite land_mask. by apply window_index.
Qed.

Lemma window_append q idx t dt : 0 <= idx < BUCKET_LISTS -> window_ok q ->
  (forall p x, 0 <= p < BUCKET_LISTS -> x ∈ q.(bucket) p -> x <> t) ->
  (forall x, x <> t -> dt x = q.(dticks) x) -> dt t = idx ->
  forall ov base, window_ok (Buckets (upd idx (q.(bucket) idx ++ [t]) q.(bucket)) ov
    (q.(bucket_bits) .| BUCKET_BIT idx) base dt).
Proof.
  intros Hi (Hd & Hb & Hr) Hnt Hdt Ht ov base. pose proof lists_pos.
  rewrite bucket_bit by done. split; [|split]; simpl.
  - intros p x Hp. unfold upd. case_decide; [subst p|intros Hx; rewrite Hdt; eauto].
    intros [Hx|Hx]%elem_of_app; [rewrite Hdt; eauto|]. apply list_elem_of_singleton in Hx as ->. done.
  - intros p Hp. rewrite testbit_set, Hb by lia. unfold upd.
    destruct (Z.eqb_spec p idx) as [->|Hne]; [rewrite decide_True by done|].
    + rewrite orb_true_r, (bool_decide_eq_false_2 (_ ++ _ = [])); [done|].
      by destruct (q.(bucket) idx).
    + rewrite decide_False by done. apply orb_false_r.
  - apply lor_bound; [lia|done|apply bit_bound; lia].
Qed.

Lemma late_cons dt x ts : late dt (x :: ts) = (x, dt x) :: late dt ts.
Proof. done. Qed.

Lemma overflow_insert_late dt ts t e : (forall x, x ∈ ts -> u64 (dt x) = dt x) -> dt t = e ->
  late dt (overflow_insert dt ts t e) = elist_insert t e (late dt ts).
Proof.
  intros Hu <-. unfold elist_insert. induction ts as [|x ts IH]; [done|].
  rewrite late_cons. simpl. rewrite Hu by set_solver. destruct (dt t <? dt x); [done|].
  rewrite late_cons. by rewrite IH by set_solver.
Qed.

Lemma overflow_insert_perm dt ts t e : overflow_insert dt ts t e ≡ₚ t :: ts.
Proof.
  induction ts as [|x ts IH]; simpl; [done|]. destruct (e <? _); [done|].
  rewrite IH. apply perm_swap.
Qed.

Lemma elist_insert_app_l (a b : elist) t e : (forall x, x ∈ b -> e < x.2) ->
  elist_insert t e a ++ b = elist_insert t e (a ++ b).
Proof.
  intros Hb. unfold elist_insert. induction a as [|x a IH]; simpl.
  - destruct b as [|y b]; simpl; [done|]. specialize (Hb y ltac:(set_solver)).
    by replace (e <? y.2) with true by (symmetry; apply Z.ltb_lt; lia).
  - destruct (e <? x.2); simpl; [done|]. by rewrite IH.
Qed.

Lemma elist_insert_app_r (a b : elist) t e : (forall x, x ∈ a -> x.2 <= e) ->
  a ++ elist_insert t e b = elist_insert t e (a ++ b).
Proof.
  intros Ha. unfold elist_insert. induction a as [|x a IH]; simpl; [done|].
  specialize (Ha x ltac:(set_solver)) as Hx.
  replace (e <? x.2) with false by (symmetry; apply Z.ltb_ge; lia).
  by rewrite IH by (intros; apply Ha; set_solver).
Qed.

Lemma bucket_insert_ok now q t d : bucket_ok now q -> t ∉ (belist q).*1 -> t <> NULL ->
  0 <= d -> now + d <= MAX_TICK ->
  let q' := (z_timeout_q_insert now q t d).1 in
  bucket_ok now q' /\ belist q' = elist_insert t (now + d) (belist q).
Proof.
  intros Hok Ht Hnull Hd Hmax. pose proof (bucket_ok_base _ _ Hok) as (Hb0 & Hb1 & Hb2 & Hb3 & _).
  pose proof Hok as (Hn & Hb & Hw & Hov & Hel). pose proof lists_pos.
  assert (Hnb : forall p x, 0 <= p < BUCKET_LISTS -> x ∈ q.(bucket) p -> x <> t).
  { intros p x Hp Hx ->. apply Ht, elist_elem. exists (q.(cursor_base) + p). apply belist_elem. eauto. }
  assert (Hno : forall x, x ∈ q.(overflow) -> x <> t).
  { intros x Hx ->. apply Ht, elist_elem. exists (q.(dticks) t). apply belist_elem. eauto. }
  unfold z_timeout_q_insert. unfold MAX_TICK, INT64_MAX in Hmax, Hn.
  rewrite (u64_small d), (u64_small (now + d)), Hb3, land_mask by lia.
  assert (Hgoal : forall q', belist q' = elist_insert t (now + d) (belist q) ->
    q'.(cursor_base) = q.(cursor_base) -> window_ok q' ->
    (forall x, x ∈ q'.(overflow) -> q'.(cursor_base) + BUCKET_LISTS <= q'.(dticks) x) ->
    bucket_ok now q' /\ belist q' = elist_insert t (now + d) (belist q)).
  { intros q' E Ec Hw' Hov'. split; [|done]. split; [done|]. split; [by rewrite Ec|]. split; [done|].
    split; [done|]. rewrite E. apply elist_insert_ok; [done|done|done|unfold MAX_TICK, INT64_MAX; lia]. }
  destruct (Z.ltb_spec (now + d) (q.(cursor_base) + BUCKET_LISTS)); simpl; apply Hgoal; try done.
  - rewrite (window_index q.(cursor_base)) by lia. unfold belist. simpl.
    rewrite slots_append by lia. rewrite (late_ext q.(dticks)) by (intros; apply upd_ne; auto).
    replace (q.(cursor_base) + (now + d - q.(cursor_base))) with (now + d) by lia.
    apply elist_insert_app_l. intros [x e] [Hx ->]%elem_of_late. simpl. specialize (Hov x Hx). lia.
  - rewrite (window_index q.(cursor_base)) by lia.
    apply window_append; [lia|done|done|intros; by apply upd_ne|apply upd_eq].
  - simpl. intros x Hx. rewrite upd_ne by auto. by apply Hov.
  - unfold belist. simpl. rewrite overflow_insert_late.
    + rewrite (late_ext q.(dticks)) by (intros; apply upd_ne; auto). apply elist_insert_app_r.
      intros [x e] (p & Hp%elem_of_seqZ & _ & ->)%elem_of_slots. simpl. lia.
    + intros x Hx. rewrite upd_ne by auto. destruct Hel as (_ & _ & Hr).
      destruct (Hr x (q.(dticks) x)) as [? _]; [apply belist_elem; auto|].
      apply u64_small. unfold MAX_TICK, INT64_MAX in *. lia.
    + rewrite upd_eq. apply i64_small. lia.
  - destruct Hw as (Hw1 & Hw2 & Hw3). split; [|done]. simpl. intros p x Hp Hx.
    rewrite upd_ne by eauto. eauto.
  - simpl. intros x Hx. rewrite overflow_insert_perm in Hx.
    apply elem_of_cons in Hx as [->|Hx]; [rewrite upd_eq, i64_small by lia; lia|].
    rewrite upd_ne by auto. by apply Hov.
Qed.

Lemma slots_remove base b ps t :
  elist_remove t (slots base b ps) = slots base (fun p => unlink t (b p)) ps.
Proof.
  unfold elist_remove, slots. induction ps as [|p ps IH]; [done|].
  rewrite !bind_cons, filter_app, IH. f_equal. unfold unlink. clear.
  induction (b p) as [|x r IH]; [done|]. rewrite fmap_cons.
  destruct (decide (x = t)) as [->|]; [by rewrite !filter_cons_False by naive_solver|].
  rewrite !filter_cons_True by done. by rewrite fmap_cons, IH.
Qed.

Lemma late_remove dt ts t : elist_remove t (late dt ts) = late dt (unlink t ts).
Proof.
  unfold elist_remove, unlink. induction ts as [|x r IH]; [done|]. rewrite late_cons.
  destruct (decide (x = t)) as [->|]; [by rewrite !filter_cons_False by naive_solver|].
  rewrite !filter_cons_True by done. by rewrite late_cons, IH.
Qed.

Lemma unlink_id t ts : t ∉ ts -> unlink t ts = ts.
Proof. apply filter_ne_id. Qed.

(** Where a pending timeout is. *)
Lemma bucket_where now q t e : bucket_ok now q -> (t, e) ∈ belist q ->
  (exists p, 0 <= p < BUCKET_LISTS /\ t ∈ q.(bucket) p /\ q.(dticks) t = p /\
     e = q.(cursor_base) + p /\ (t ∉ q.(overflow)) /\
     forall p', 0 <= p' < BUCKET_LISTS -> p' <> p -> t ∉ q.(bucket) p') \/
  (t ∈ q.(overflow) /\ e = q.(dticks) t /\ q.(cursor_base) + BUCKET_LISTS <= q.(dticks) t <= MAX_TICK /\
     forall p', 0 <= p' < BUCKET_LISTS -> t ∉ q.(bucket) p').
Proof.
  intros Hok Hin. pose proof (bucket_ok_base _ _ Hok) as (_ & Hb & _).
  destruct Hok as (_ & _ & (Hd & _) & Hov & _ & _ & Hr). pose proof Hin as Hin'.
  apply belist_elem in Hin as [(p & Hp & Ht & ->)|[Ht ->]].
  - left. exists p. pose proof (Hd p t Hp Ht) as E. split; [done|]. split; [done|]. split; [done|].
    split; [done|]. split; [intros Ho; specialize (Hov t Ho); lia|].
    intros p' Hp' Hne Ht'. apply Hne. rewrite <- (Hd p' t) by done. done.
  - right. split; [done|]. split; [done|]. specialize (Hov t Ht). destruct (Hr _ _ Hin') as [? _].
    split; [lia|]. intros p' Hp' Ht'. specialize (Hd p' t Hp' Ht'). lia.
Qed.

(** Unlinking a node from its bucket, as both removal and the drain do. *)
Lemma bucket_unlink_ok now q t p : bucket_ok now q -> 0 <= p < BUCKET_LISTS -> t ∈ q.(bucket) p ->
  let b := upd p (unlink t (q.(bucket) p)) q.(bucket) in
  let q' := Buckets b q.(overflow)
    (if bool_decide (b p = []) then q.(bucket_bits) .& Z.lnot (BUCKET_BIT p) else q.(bucket_bits))
    q.(cursor_base) q.(dticks) in
  bucket_ok now q' /\ belist q' = elist_remove t (belist q).
Proof.
  intros Hok Hp Ht b q'.
  destruct (bucket_where now q t (q.(cursor_base) + p) Hok) as [(p0 & Hp0 & Ht0 & Ed & Ee & Hno & Hother)|Hc].
  { apply belist_elem. eauto. }
  2: { destruct Hc as (_ & _ & _ & Hc). by specialize (Hc p Hp). }
  assert (p0 = p) as -> by lia. clear Ee Ht0 Hp0. pose proof Hok as (Hn & Hb & (Hd & Hbits & Hr) & Hov & Hel).
  assert (E : belist q' = elist_remove t (belist q)).
  { unfold belist, q', elist_remove. simpl. rewrite filter_app. fold (elist_remove t).
    change (filter _ (slots ?a ?b ?c)) with (elist_remove t (slots a b c)).
    change (filter _ (late ?a ?b)) with (elist_remove t (late a b)).
    rewrite slots_remove, late_remove, unlink_id by done. f_equal.
    apply slots_ext. intros x Hx%elem_of_seqZ. unfold b, upd. case_decide; [by subst|].
    symmetry. apply unlink_id, Hother; lia. }
  split; [|done]. split; [done|]. split; [done|]. split; [|split; [done|rewrite E; by apply elist_remove_ok]].
  assert (Hbp : forall x, x <> p -> b x = q.(bucket) x) by (intros; by apply upd_ne).
  assert (Hsub : forall x y, y ∈ b x -> y ∈ q.(bucket) x).
  { intros x y. unfold b, upd. case_decide; [subst|done]. by intros [_ Hy]%list_elem_of_filter. }
  split; [|split]; simpl.
  - intros x y Hx Hy. eauto.
  - rewrite bucket_bit by done. intros x Hx. case_bool_decide as Hemp.
    + rewrite testbit_clear, Hbits by lia. destruct (Z.eqb_spec x p) as [->|Hne].
      * rewrite (bool_decide_eq_true_2 (b p = [])) by done. apply andb_false_r.
      * rewrite Hbp by done. apply andb_true_r.
    + rewrite Hbits by done. destruct (decide (x = p)) as [->|Hne]; [|by rewrite Hbp].
      rewrite !bool_decide_eq_false_2; [done|done|]. intros E0. rewrite E0 in Ht. set_solver.
  - case_bool_decide; [|done]. pose proof lists_pos. apply land_bound; [lia|done].
Qed.

Lemma bucket_remove_ok now q t e : bucket_ok now q -> (t, e) ∈ belist q ->
  let q' := (z_timeout_q_remove now q t).1 in
  bucket_ok now q' /\ belist q' = elist_remove t (belist q).
Proof.
  intros Hok Hin. pose proof (bucket_ok_base _ _ Hok) as (_ & Hb & _). pose proof lists_pos.
  unfold z_timeout_q_remove.
  destruct (bucket_where now q t e Hok Hin) as [(p & Hp & Ht & Ed & _)|(Ht & _ & Hr & Hno)].
  - rewrite Ed. rewrite u64_small by lia. replace (p <? BUCKET_LISTS) with true by (symmetry; apply Z.ltb_lt; lia).
    simpl. by apply bucket_unlink_ok.
  - unfold MAX_TICK, INT64_MAX in Hr. rewrite u64_small by lia.
    replace (q.(dticks) t <? BUCKET_LISTS) with false by (symmetry; apply Z.ltb_ge; lia). simpl.
    pose proof Hok as (Hn & Hb' & Hw & Hov & Hel).
    assert (E : belist (Buckets q.(bucket) (unlink t q.(overflow)) q.(bucket_bits) q.(cursor_base) q.(dticks))
      = elist_remove t (belist q)).
    { unfold belist. simpl. rewrite <- late_remove. unfold elist_remove. rewrite filter_app. f_equal.
      symmetry. apply filter_id. intros [x e'] (p & Hp%elem_of_seqZ & Hx & _)%elem_of_slots. simpl.
      intros ->. apply (Hno p); [lia|done]. }
    split; [|done]. split; [done|]. split; [done|]. split; [done|].
    split; [|rewrite E; by apply elist_remove_ok].
    simpl. intros x [_ Hx]%list_elem_of_filter. by apply Hov.
Qed.

Lemma bucket_remainder_ok now q t e : bucket_ok now q -> (t, e) ∈ belist q ->
  z_timeout_q_remainder now q t = e - now.
Proof.
  intros Hok Hin. pose proof (bucket_ok_base _ _ Hok) as (Hb0 & Hb & Hb2 & _). pose proof lists_pos.
  pose proof Hok as (Hn & _). unfold MAX_TICK, INT64_MAX in Hn. unfold z_timeout_q_remainder.
  destruct (bucket_where now q t e Hok Hin) as [(p & Hp & Ht & Ed & -> & _)|(Ht & -> & Hr & Hno)].
  - rewrite Ed. rewrite (u64_small p) by lia.
    replace (p <? BUCKET_LISTS) with true by (symmetry; apply Z.ltb_lt; lia).
    rewrite land_mask. unfold u64 at 2. rewrite i64_u64.
    assert (E : ((p - q.(cursor_base)) mod 2 ^ 64) mod BUCKET_LISTS = p).
    { replace (2 ^ 64) with (BUCKET_LISTS * 2 ^ (64 - k))
        by (unfold BUCKET_LISTS; rewrite <- Z.pow_add_r by lia; f_equal; lia).
      rewrite Z.mod_mod_divide; [|by exists (2 ^ (64 - k)); lia].
      rewrite Zminus_mod, Hb0, Z.sub_0_r, Z.mod_mod by lia. apply Z.mod_small. lia. }
    rewrite E, i64_small; lia.
  - unfold MAX_TICK, INT64_MAX in Hr. rewrite u64_small by lia.
    replace (q.(dticks) t <? BUCKET_LISTS) with false by (symmetry; apply Z.ltb_ge; lia).
    rewrite i64_u64, i64_small; lia.
Qed.

Lemma bucket_pop_ok now q : bucket_ok now q ->
  match z_timeout_q_pop_due now q with
  | None => not_before (now + 1) (elist_map (belist q))
  | Some (t, q') => (t, now) ∈ belist q /\ bucket_ok now q' /\ belist q' = elist_remove t (belist q)
  end.
Proof.
  intros Hok. pose proof (bucket_ok_base _ _ Hok) as (_ & Hb & Hb2 & _ & Hm).
  unfold z_timeout_q_pop_due. rewrite Hm.
  destruct (q.(bucket) (now - q.(cursor_base))) as [|t r] eqn:E.
  - pose proof Hok as (_ & _ & _ & Hov & Hn & _ & Hr). intros t e He. apply elist_lookup in He; [|done].
    destruct (Hr _ _ He) as [? _]. destruct (Z.eq_dec e now) as [->|]; [|lia].
    destruct (bucket_where now q t now Hok He) as [(p & Hp & Ht & _ & E' & _)|(_ & -> & ? & _)]; [|lia].
    replace (now - q.(cursor_base)) with p in E by lia. rewrite E in Ht. set_solver.
  - assert (Ht : t ∈ q.(bucket) (now - q.(cursor_base))) by (rewrite E; set_solver).
    rewrite <- E. split; [|by apply bucket_unlink_ok; [|lia|]].
    apply belist_elem. left. exists (now - q.(cursor_base)). split; [lia|]. split; [done|]. lia.
Qed.

(** What is popped is the first in firing order. *)
Lemma bucket_pop_first now q t q' : bucket_ok now q -> z_timeout_q_pop_due now q = Some (t, q') ->
  head (belist q) = Some (t, now).
Proof.
  intros Hok Hp. pose proof (bucket_ok_base _ _ Hok) as (_ & Hb & Hb2 & _ & Hm).
  unfold z_timeout_q_pop_due in Hp. rewrite Hm in Hp. set (i := now - q.(cursor_base)) in *.
  destruct (q.(bucket) i) as [|x r] eqn:E; [done|]. assert (x = t) as -> by congruence. clear Hp.
  unfold belist. rewrite (slots_split _ _ i) by (unfold i; lia). rewrite E.
  replace (slots q.(cursor_base) q.(bucket) (seqZ 0 i)) with (@nil (toid * Z)).
  - simpl. do 2 f_equal. unfold i. lia.
  - symmetry. apply elem_of_nil_inv. intros [y e] (p & Hp%elem_of_seqZ & Hy & ->)%elem_of_slots.
    destruct Hok as (_ & _ & _ & _ & _ & _ & Hr).
    destruct (Hr y (q.(cursor_base) + p)) as [? _]; [|unfold i in *; lia].
    apply belist_elem. left. exists p. unfold i in *. split; [lia|done].
Qed.

(** The bitmap restricted to the buckets after [cur_off]. *)
Lemma ahead_bits bits c p : 0 <= c -> 0 <= p < BITMAP_W ->
  Z.testbit (bits .& (((2 ^ BITMAP_W - 1) .<< (c + 1)) mod 2 ^ BITMAP_W)) p =
    Z.testbit bits p && (c + 1 <=? p).
Proof.
  intros Hc Hp. rewrite Z.land_spec. f_equal. rewrite Z.mod_pow2_bits_low by lia.
  rewrite Z.shiftl_spec by lia. replace (2 ^ BITMAP_W - 1) with (Z.ones BITMAP_W) by (rewrite Z.ones_equiv; lia).
  rewrite Z.testbit_ones by lia. destruct (Z.leb_spec (c + 1) p).
  - apply andb_true_intro. split; [apply Z.leb_le|apply Z.ltb_lt]; lia.
  - apply andb_false_intro1. apply Z.leb_gt. lia.
Qed.

Lemma bitmap_ctz x : 0 < x < 2 ^ BITMAP_W ->
  0 <= bucket_bits_ctz x < BITMAP_W /\ lowest_bit x (bucket_bits_ctz x).
Proof.
  unfold bucket_bits_ctz, BITMAP_W. destruct (_ <=? 32); intros Hx; [by apply u32_ctz_spec|by apply u64_ctz_spec].
Qed.

Lemma ahead_cases q c : window_ok q -> 0 <= c ->
  let ahead := q.(bucket_bits) .& (((2 ^ BITMAP_W - 1) .<< (c + 1)) mod 2 ^ BITMAP_W) in
  ahead = 0 /\ (forall p, c < p < BUCKET_LISTS -> q.(bucket) p = []) \/
  ahead <> 0 /\ exists p, bucket_bits_ctz ahead = p /\ c < p < BUCKET_LISTS /\ q.(bucket) p <> [] /\
    forall p', c < p' < p -> q.(bucket) p' = [].
Proof.
  intros (Hd & Hb & Hr) Hc ahead. pose proof bitmap_w as [Hw Hw2]. pose proof lists_pos.
  assert (Hrw : 0 <= q.(bucket_bits) < 2 ^ BITMAP_W).
  { split; [lia|]. eapply Z.lt_le_trans; [apply Hr|]. apply Z.pow_le_mono_r; lia. }
  assert (Ha : 0 <= ahead < 2 ^ BITMAP_W) by (apply land_bound; [lia|done]).
  assert (Hbit : forall p, c < p < BUCKET_LISTS -> Z.testbit ahead p = negb (bool_decide (q.(bucket) p = []))).
  { intros p Hp. unfold ahead. rewrite ahead_bits, Hb by lia.
    replace (c + 1 <=? p) with true by (symmetry; apply Z.leb_le; lia). apply andb_true_r. }
  destruct (Z.eq_dec ahead 0) as [E|E]; [left|right]; (split; [done|]).
  - intros p Hp. specialize (Hbit p Hp). rewrite E, Z.testbit_0_l in Hbit. by case_bool_decide.
  - destruct (bitmap_ctz ahead) as (Hp & Hset & Hlow); [lia|]. set (p := bucket_bits_ctz ahead) in *.
    exists p. split; [done|]. unfold ahead in Hset. rewrite ahead_bits in Hset by lia.
    apply andb_prop in Hset as [Hset Hcp%Z.leb_le].
    assert (Hpl : p < BUCKET_LISTS).
    { destruct (Z_lt_ge_dec p BUCKET_LISTS); [done|].
      rewrite (bounded_bits _ BUCKET_LISTS) in Hset by lia. done. }
    split; [lia|]. split.
    + rewrite Hb in Hset by lia. by case_bool_decide.
    + intros p' Hp'. specialize (Hbit p' ltac:(lia)). rewrite Hlow in Hbit by lia. by case_bool_decide.
Qed.

(** The least expiry, when nothing is due now. *)
Lemma earliest_gap_ok now q : bucket_ok now q -> not_before (now + 1) (elist_map (belist q)) ->
  belist q = [] /\ earliest_gap now q = INT64_MAX \/
  exists t e, (t, e) ∈ belist q /\ not_before e (elist_map (belist q)) /\
    earliest_gap now q = e - now /\ e - now < INT64_MAX.
Proof.
  intros Hok Hnb. pose proof (bucket_ok_base _ _ Hok) as (_ & Hb & Hb2 & _ & Hm). pose proof lists_pos.
  pose proof Hok as (Hn & _ & Hw & Hov & Hel). pose proof Hel as (Hnd & Hs & Hr).
  assert (Hfut : forall t e, (t, e) ∈ belist q -> now < e).
  { intros t e He. apply elist_lookup in He; [|done]. specialize (Hnb _ _ He). lia. }
  set (c := now - q.(cursor_base)) in *. unfold earliest_gap. rewrite Hm. fold c.
  assert (Hlate : (forall p, c < p < BUCKET_LISTS -> q.(bucket) p = []) ->
    belist q = late q.(dticks) q.(overflow)).
  { intros Hemp. unfold belist. replace (slots _ _ _) with (@nil (toid * Z)); [done|].
    symmetry. apply elem_of_nil_inv. intros [t e] Hin.
    assert (Hin' : (t, e) ∈ belist q) by (unfold belist; set_solver). specialize (Hfut _ _ Hin').
    apply elem_of_slots in Hin as (p & Hp%elem_of_seqZ & Ht & ->).
    rewrite (Hemp p) in Ht by lia. set_solver. }
  assert (Hfar : belist q = late q.(dticks) q.(overflow) ->
    belist q = [] /\ match overflow_head q with Some t => i64 (q.(dticks) t - now) | None => INT64_MAX end = INT64_MAX \/
    exists t e, (t, e) ∈ belist q /\ not_before e (elist_map (belist q)) /\
    match overflow_head q with Some t => i64 (q.(dticks) t - now) | None => INT64_MAX end = e - now /\ e - now < INT64_MAX).
  { intros E. pose proof (elist_first now _ Hel) as Hf. rewrite E in *. unfold overflow_head.
    destruct q.(overflow) as [|t r]; [left; done|right]. rewrite late_cons in *. simpl.
    destruct (Hr t (q.(dticks) t)) as [Hr' _]; [set_solver|]. unfold MAX_TICK, INT64_MAX in *.
    exists t, (q.(dticks) t). split; [set_solver|]. split; [apply Hf|].
    rewrite i64_small by lia. lia. }
  destruct (Z.ltb_spec c (BUCKET_LISTS - 1)).
  - destruct (ahead_cases q c Hw ltac:(lia)) as [[E Hemp]|[E (p & Ep & Hp & Hne & Hmin)]].
    + rewrite E. cbn [negb Z.eqb]. rewrite Z.eqb_refl. by apply Hfar, Hlate.
    + rewrite (proj2 (Z.eqb_neq _ _) E). cbn [negb]. rewrite Ep.
      replace (p - c =? INT64_MAX) with false by (symmetry; apply Z.eqb_neq; unfold INT64_MAX; lia).
      right. destruct (q.(bucket) p) as [|t r] eqn:Eb; [done|].
      exists t, (q.(cursor_base) + p). split; [apply belist_elem; left; exists p; rewrite Eb; split; [lia|set_solver]|].
      split; [|unfold INT64_MAX; lia]. intros t' e' He. apply elist_lookup in He; [|done].
      specialize (Hfut _ _ He).
      apply belist_elem in He as [(p' & Hp' & Ht' & ->)|[Ht' ->]]; [|specialize (Hov _ Ht'); lia].
      destruct (Z_lt_ge_dec p' p); [|lia]. rewrite Hmin in Ht' by lia. set_solver.
  - rewrite Z.eqb_refl. apply Hfar, Hlate. intros; lia.
Qed.

Lemma sorted_app_elems (a b : elist) x y : elist_sorted (a ++ b) -> x ∈ a -> y ∈ b -> x.2 <= y.2.
Proof.
  unfold elist_sorted. induction a as [|z a IH]; simpl; [set_solver|].
  intros [Hs Hz]%StronglySorted_inv [->|Hx]%elem_of_cons Hy; [|by apply IH].
  rewrite Forall_forall in Hz. apply Hz. set_solver.
Qed.

Lemma migrate_ok now ov : forall q,
  q.(cursor_base) mod BUCKET_LISTS = 0 -> 0 <= q.(cursor_base) <= MAX_TICK -> window_ok q ->
  (forall t, t ∈ ov -> q.(cursor_base) <= q.(dticks) t) ->
  let el := slots q.(cursor_base) q.(bucket) (seqZ 0 BUCKET_LISTS) ++ late q.(dticks) ov in
  elist_ok now el ->
  let q' := migrate ov q in
  q'.(cursor_base) = q.(cursor_base) /\ window_ok q' /\
  (forall t, t ∈ q'.(overflow) -> q'.(cursor_base) + BUCKET_LISTS <= q'.(dticks) t) /\
  belist q' = el.
Proof.
  pose proof lists_pos. induction ov as [|t ov IH]; intros q Hb0 Hb Hw Hge el Hel; simpl.
  - split; [done|]. split; [done|]. split; [set_solver|]. done.
  - unfold MAX_TICK, INT64_MAX in Hb. rewrite (u64_small (q.(cursor_base) + BUCKET_LISTS)) by lia.
    pose proof Hel as (Hn & Hs & Hr). unfold el in Hn, Hs, Hr. rewrite late_cons in Hn, Hs, Hr.
    destruct (Hr t (q.(dticks) t)) as [Hr' _]; [set_solver +|]. unfold MAX_TICK, INT64_MAX in Hr'.
    specialize (Hge t ltac:(set_solver +)) as Ht. rewrite (u64_small (q.(dticks) t)) by lia.
    set (S := slots _ _ _) in *.
    assert (HS : forall x, x ∈ S -> x.2 <= q.(dticks) t).
    { intros x Hx. apply (sorted_app_elems _ _ _ (t, q.(dticks) t) Hs Hx). set_solver +. }
    assert (HL : forall x, x ∈ ov -> q.(dticks) t <= q.(dticks) x).
    { intros x Hx. apply (sorted_app_elems (S ++ [(t, q.(dticks) t)]) (late q.(dticks) ov)
        (t, q.(dticks) t) (x, q.(dticks) x)); [by rewrite <- app_assoc|set_solver +|by apply elem_of_late]. }
    rewrite fmap_app in Hn. apply NoDup_app in Hn as (_ & Hn1 & Hn2).
    rewrite fmap_cons in Hn2. apply NoDup_cons in Hn2 as [Hn2 _].
    assert (HtS : forall p x, 0 <= p < BUCKET_LISTS -> x ∈ q.(bucket) p -> x <> t).
    { intros p x Hp Hx ->. apply (Hn1 t); [|set_solver +]. apply elist_elem.
      exists (q.(cursor_base) + p). apply elem_of_slots. exists p. rewrite elem_of_seqZ. split; [lia|done]. }
    assert (Htv : forall x, x ∈ ov -> x <> t).
    { intros x Hx ->. apply Hn2, elist_elem. exists (q.(dticks) t). by apply elem_of_late. }
    destruct (Z.ltb_spec (q.(dticks) t) (q.(cursor_base) + BUCKET_LISTS)).
    + rewrite land_mask, (window_index q.(cursor_base)) by lia.
      set (idx := q.(dticks) t - q.(cursor_base)).
      set (q1 := Buckets _ ov _ _ _).
      assert (E : slots q1.(cursor_base) q1.(bucket) (seqZ 0 BUCKET_LISTS) ++ late q1.(dticks) ov = el).
      { unfold q1, el. simpl. rewrite slots_append by (unfold idx; lia). fold S.
        rewrite (late_ext q.(dticks)) by (intros; apply upd_ne; auto).
        rewrite <- (app_nil_r S) at 1. rewrite elist_insert_mid;
          [|intros x Hx; specialize (HS x Hx); unfold idx; lia|by intros x Hx%not_elem_of_nil].
        rewrite late_cons, <- app_assoc. simpl. do 3 f_equal. unfold idx. lia. }
      destruct (IH q1) as (H1 & H2 & H3 & H4); try done.
      * apply window_append; [unfold idx; lia|done|done|intros; by apply upd_ne|apply upd_eq].
      * intros x Hx. unfold q1. simpl. rewrite upd_ne by auto. apply Hge. set_solver + Hx.
      * by rewrite E.
      * split; [done|]. split; [done|]. split; [done|]. by rewrite H4.
    + split; [done|]. split; [done|]. split; [|done]. simpl.
      intros x [->|Hx]%elem_of_cons; [done|]. specialize (HL x Hx). lia.
Qed.

Lemma bucket_advance_ok now q d : bucket_ok now q -> 0 <= d <= INT32_MAX ->
  not_before (now + d) (elist_map (belist q)) -> now + d <= MAX_TICK ->
  let q' := z_timeout_q_advance now q d in
  bucket_ok (now + d) q' /\ belist q' = belist q.
Proof.
  intros Hok Hd Hnb Hmax. pose proof (bucket_ok_base _ _ Hok) as (Hb0 & Hb1 & Hb2 & Hb3 & _).
  pose proof lists_pos. pose proof Hok as (Hn & Hb & Hw & Hov & Hel).
  unfold z_timeout_q_advance. unfold INT32_MAX in Hd. pose proof Hmax as Hmax'. unfold MAX_TICK, INT64_MAX in Hmax'.
  rewrite (u64_small d), (u64_small (now + d)), Hb3 by lia.
  assert (Hel' : elist_ok (now + d) (belist q)).
  { destruct Hel as (H1 & H2 & H3). split; [done|]. split; [done|]. intros t e He.
    destruct (H3 t e He) as [? ?]. split; [|done]. apply elist_lookup in He; [|done].
    specialize (Hnb _ _ He). lia. }
  destruct (Z.ltb_spec (now + d) (q.(cursor_base) + BUCKET_LISTS)).
  - split; [|done]. split; [lia|]. split; [|split; [done|split; done]].
    rewrite Hb. f_equal. apply Z.div_unique with (now + d - q.(cursor_base)); lia.
  - rewrite land_not_mask. destruct (window_of (now + d)) as [Hw0 Hw1].
    set (base := BUCKET_LISTS * ((now + d) / BUCKET_LISTS)) in *.
    assert (Hemp : forall p, 0 <= p < BUCKET_LISTS -> q.(bucket) p = []).
    { intros p Hp. destruct (q.(bucket) p) as [|t r] eqn:E; [done|]. exfalso.
      destruct Hel' as (_ & _ & Hr). destruct (Hr t (q.(cursor_base) + p)) as [? _]; [|lia].
      apply belist_elem. left. exists p. rewrite E. split; [lia|set_solver]. }
    assert (Es : forall b, slots b q.(bucket) (seqZ 0 BUCKET_LISTS) = []).
    { intros b. apply elem_of_nil_inv. intros [t e] (p & Hp%elem_of_seqZ & Ht & _)%elem_of_slots.
      rewrite Hemp in Ht by lia. set_solver. }
    assert (El : belist q = late q.(dticks) q.(overflow)) by (unfold belist; by rewrite Es).
    assert (Hbn : q.(cursor_base) + BUCKET_LISTS <= base).
    { unfold base. rewrite Hb. assert (now / BUCKET_LISTS + 1 <= (now + d) / BUCKET_LISTS); [|nia].
      apply Z.div_le_lower_bound; [lia|]. rewrite Hb in *. lia. }
    destruct (migrate_ok (now + d) q.(overflow) (Buckets q.(bucket) q.(overflow) 0 base q.(dticks)))
      as (H1 & H2 & H3 & H4); try done.
    + simpl. unfold MAX_TICK, INT64_MAX. lia.
    + destruct Hw as (Hw2 & _ & _). split; [done|]. split; simpl.
      * intros p Hp. by rewrite Z.testbit_0_l, Hemp, bool_decide_eq_true_2.
      * split; [lia|]. apply Z.pow_pos_nonneg; lia.
    + simpl. intros t Ht. destruct Hel' as (_ & _ & Hr). destruct (Hr t (q.(dticks) t)) as [? _]; [|lia].
      rewrite El. by apply elem_of_late.
    + simpl. rewrite Es. simpl. by rewrite <- El.
    + simpl in H1, H4. rewrite Es in H4. simpl in H4. rewrite <- El in H4.
      split; [|done]. split; [unfold MAX_TICK, INT64_MAX; lia|]. split; [done|]. split; [done|].
      split; [done|]. by rewrite H4.
Qed.

Lemma bucket_init_ok dt : bucket_ok 0 (timeout_bucket_init dt) /\ belist (timeout_bucket_init dt) = [].
Proof.
  pose proof lists_pos.
  assert (E : belist (timeout_bucket_init dt) = []).
  { apply elem_of_nil_inv. intros [t e] [(p & _ & Ht & _)|[Ht _]]%belist_elem; set_solver. }
  split; [|done]. split; [unfold MAX_TICK, INT64_MAX; lia|]. split; [simpl; by rewrite Z.div_0_l, Z.mul_0_r by lia|].
  split; [split; [|split]; simpl|split].
  - set_solver.
  - intros p Hp. by rewrite Z.testbit_0_l.
  - split; [lia|]. apply Z.pow_pos_nonneg; lia.
  - set_solver.
  - rewrite E. repeat constructor; set_solver.
Qed.

Lemma pending_ok now q t : bucket_ok now q ->
  bool_decide (t ∈ (belist q).*1) = bool_decide (is_Some (elist_map (belist q) !! t)).
Proof.
  intros _. apply bool_decide_ext. rewrite <- not_eq_None_Some, elist_none.
  destruct (decide (t ∈ (belist q).*1)); naive_solver.
Qed.

(** ** The buckets are a timeout queue *)

#[local, refine] Instance bucket_backend : TimeoutBackend := {
  tq := buckets;
  tq_active q t := bool_decide (t ∈ (belist q).*1);
  tq_insert := z_timeout_q_insert;
  tq_remove := z_timeout_q_remove;
  tq_remainder := z_timeout_q_remainder;
  tq_next_expiry := z_timeout_q_next_expiry;
  tq_next_gap := z_timeout_q_next_gap;
  tq_advance := z_timeout_q_advance;
  tq_pop_due := z_timeout_q_pop_due;
  tq_ok now q m := bucket_ok now q /\ m = elist_map (belist q);
  tq_room _ := True
}.
Proof.
  - intros now q m [(Hn & _ & _ & _ & Hel) ->]. split; [lia|]. by apply elist_ok_laws; [lia|].
  - intros now q m t [Hok ->]. by apply (pending_ok now).
  - intros now q m t d [Hok ->] _ Ht Hnull Hd Hmax. apply elist_none in Ht.
    destruct (bucket_insert_ok now q t d Hok Ht Hnull Hd Hmax) as [H1 H2].
    pose proof Hok as (Hn & _ & _ & _ & Hel & Hs & Hr). split; [split; [done|]|].
    + rewrite H2. symmetry. by apply elist_insert_map.
    + intros Hnb Hpos.
      assert ((z_timeout_q_insert now q t d).2 = (d <? earliest_gap now q)) as ->
        by (unfold z_timeout_q_insert; by destruct (_ <? u64 _)).
      rewrite Z.ltb_lt. destruct (earliest_gap_ok now q Hok Hnb) as [[-> ->]|(t0 & e0 & Hin & Hmin & -> & _)].
      * unfold MAX_TICK in *. split; [|lia]. by intros _ ? ?.
      * split; [intros; eapply not_before_weaken; [done|lia]|]. intros Hall.
        apply elist_lookup in Hin; [|done]. specialize (Hall _ _ Hin). lia.
  - intros now q m t e [Hok ->] He. pose proof Hok as (Hn & _ & _ & _ & Hel). pose proof Hel as (Hnd & _ & _).
    apply elist_lookup in He; [|done]. destruct (bucket_remove_ok now q t e Hok He) as [H1 H2].
    split; [split; [done|]|].
    + rewrite H2. symmetry. by eapply elist_remove_map.
    + intros Hnb Hb.
      assert ((z_timeout_q_remove now q t).2 = (z_timeout_q_remainder now q t <=? earliest_gap now q)) as E
        by (unfold z_timeout_q_remove; by destruct (_ <? BUCKET_LISTS)).
      rewrite E, (bucket_remainder_ok now q t e Hok He) in Hb. apply Z.leb_gt in Hb.
      destruct (earliest_gap_ok now q Hok Hnb) as [[Ee _]|(t0 & e0 & Hin & _ & Eg & _)].
      * rewrite Ee in He. set_solver.
      * exists t0, e0. split; [|split; [by apply elist_lookup|lia]]. intros ->.
        apply elist_lookup in He, Hin; [|done..]. rewrite He in Hin. simplify_eq. lia.
  - intros now q m t e [Hok ->] He. apply bucket_remainder_ok; [done|].
    destruct Hok as (_ & _ & _ & _ & Hel & _). by apply elist_lookup in He.
  - intros now q m [Hok ->] Hnb. unfold z_timeout_q_next_expiry.
    destruct (earliest_gap_ok now q Hok Hnb) as [[-> ->]|(t & e & Hin & Hmin & -> & Hlt)]; [by left|right].
    destruct Hok as (_ & _ & _ & _ & Hel & _). rewrite (proj2 (Z.eqb_neq _ _)) by lia.
    exists t, e. split; [by apply elist_lookup|done].
  - intros now q m [Hok ->] Hnb. unfold z_timeout_q_next_gap.
    destruct (earliest_gap_ok now q Hok Hnb) as [[-> ->]|(t & e & Hin & Hmin & -> & Hlt)]; [by left|right].
    destruct Hok as (_ & _ & _ & _ & Hel & _). rewrite (proj2 (Z.eqb_neq _ _)) by lia.
    exists t, e. split; [by apply elist_lookup|]. split; [done|].
    apply elist_lookup in Hin; [|done]. specialize (Hnb _ _ Hin). unfold INT32_MAX. apply i32_small. lia.
  - intros now q m d [Hok ->] _ Hd Hnb Hmax. destruct (bucket_advance_ok now q d Hok Hd Hnb Hmax) as [H1 H2].
    split; [done|]. by rewrite H2.
  - intros now q m [Hok ->]. pose proof (bucket_pop_ok now q Hok) as Hp.
    destruct (z_timeout_q_pop_due now q) as [[t q']|]; [|done]. destruct Hp as (Hin & H1 & H2).
    destruct Hok as (_ & _ & _ & _ & Hel). split; [by apply elist_lookup; [apply Hel|]|].
    split; [done|]. rewrite H2. symmetry. by eapply elist_remove_map.
Defined.
End bucket.
