(* ===== verification/MinHeap.v ===== *)
(** Binary min-heaps: lib/min_heap/min_heap.c, which stores elements, and
    include/zephyr/sys/min_heap_ref.h, which stores handles that know their
    position.

    [storage] is the live part of the array, so its length is the field [size].
    The loops walk towards the root or the leaves; the fuel given is the size,
    and they never need more (the lemmas show the result is a heap, which a loop
    cut short would not produce). *)

From S2P Require Import Prelude.
#[local] Open Scope nat_scope.

Definition parent_of (i : nat) : nat := (i - 1) / 2.

(** [cmp] returns a negative, zero or positive number, as the C comparators. *)
Section array.
Context {A : Type} (cmp : A -> A -> Z).

Definition swap (a b : nat) (st : list A) : list A :=
  match st !! a, st !! b with
  | Some x, Some y => <[b := x]> (<[a := y]> st)
  | _, _ => st
  end.

Fixpoint heapify_up (fuel : nat) (st : list A) (index : nat) : list A :=
  match fuel with
  | O => st
  | S fuel =>
      if decide (0 < index) then
        let parent := parent_of index in
        match st !! index, st !! parent with
        | Some x, Some p =>
            if (0 <=? cmp x p)%Z then st else heapify_up fuel (swap index parent st) parent
        | _, _ => st
        end
      else st
  end.

(** The child of [index] to swap with, [index] itself when there is none. *)
Definition smallest_of (st : list A) (index : nat) : nat :=
  let left := 2 * index + 1 in
  let right := left + 1 in
  let lt i j := match st !! i, st !! j with Some x, Some y => (cmp x y <? 0)%Z | _, _ => false end in
  let smallest := if lt left index then left else index in
  if decide (right < length st) then if lt right smallest then right else smallest else smallest.

Fixpoint heapify_down (fuel : nat) (st : list A) (index : nat) : list A :=
  match fuel with
  | O => st
  | S fuel =>
      if decide (2 * index + 1 < length st) then
        let smallest := smallest_of st index in
        if decide (smallest = index) then st
        else heapify_down fuel (swap index smallest st) smallest
      else st
  end.

(** [last] replaces the element at [id]; the array is one shorter. *)
Definition drop_at (id : nat) (st : list A) : list A :=
  let n := length st - 1 in
  match st !! n with
  | Some last => if decide (id = n) then take n st else <[id := last]> (take n st)
  | None => st
  end.
End array.

(** ** Heaps of elements: lib/min_heap/min_heap.c *)

Record min_heap (A : Type) := Min_heap {
  storage : list A;
  capacity : nat
}.
#[global] Arguments Min_heap {A} _ _.
#[global] Arguments storage {A} _.
#[global] Arguments capacity {A} _.

Section min_heap.
Context {A : Type} (cmp : A -> A -> Z).

Definition min_heap_init (cap : nat) : min_heap A := Min_heap [] cap.
Definition min_heap_is_empty (heap : min_heap A) : bool := bool_decide (length heap.(storage) = 0).
Definition min_heap_peek (heap : min_heap A) : option A := head heap.(storage).

Definition min_heap_push (heap : min_heap A) (item : A) : Z * min_heap A :=
  if decide (heap.(capacity) <= length heap.(storage)) then (- ENOMEM, heap)%Z
  else
    let st := heap.(storage) ++ [item] in
    (0%Z, Min_heap (heapify_up cmp (length st) st (length heap.(storage))) heap.(capacity)).

Definition min_heap_remove (heap : min_heap A) (id : nat) : option (A * min_heap A) :=
  match heap.(storage) !! id with
  | None => None
  | Some removed =>
      let n := length heap.(storage) - 1 in
      let st := drop_at id heap.(storage) in
      let st := if decide (id = n) then st
                else heapify_up cmp n (heapify_down cmp n st id) id in
      Some (removed, Min_heap st heap.(capacity))
  end.

Definition min_heap_pop (heap : min_heap A) : option (A * min_heap A) := min_heap_remove heap 0.

Fixpoint find_loop (eq : A -> bool) (st : list A) (i : nat) : option (A * nat) :=
  match st with
  | [] => None
  | x :: r => if eq x then Some (x, i) else find_loop eq r (S i)
  end.
Definition min_heap_find (heap : min_heap A) (eq : A -> bool) : option (A * nat) :=
  find_loop eq heap.(storage) 0.
End min_heap.

(** ** Heaps of handles: include/zephyr/sys/min_heap_ref.h

    A handle's field [idx] is its 1-based position, 0 when it is in no heap. *)

Section min_heap_ref.
Context {H : Type} `{!EqDecision H} (cmp : H -> H -> Z).

Record min_heap_ref := Min_heap_ref {
  ref_storage : list H;
  ref_capacity : nat;
  idx : H -> Z
}.

Definition set_idx (st : list H) (a : nat) (ix : H -> Z) : H -> Z :=
  match st !! a with
  | Some h => upd h (u16 (Z.of_nat a + 1)) ix
  | None => ix
  end.

Definition min_heap_ref_swap (heap : min_heap_ref) (a b : nat) : min_heap_ref :=
  let st := swap a b heap.(ref_storage) in
  Min_heap_ref st heap.(ref_capacity) (set_idx st b (set_idx st a heap.(idx))).

Fixpoint min_heap_ref_heapify_up (fuel : nat) (heap : min_heap_ref) (index : nat) : min_heap_ref :=
  match fuel with
  | O => heap
  | S fuel =>
      if decide (0 < index) then
        let parent := parent_of index in
        match heap.(ref_storage) !! index, heap.(ref_storage) !! parent with
        | Some x, Some p =>
            if (0 <=? cmp x p)%Z then heap
            else min_heap_ref_heapify_up fuel (min_heap_ref_swap heap index parent) parent
        | _, _ => heap
        end
      else heap
  end.

Fixpoint min_heap_ref_heapify_down (fuel : nat) (heap : min_heap_ref) (index : nat) : min_heap_ref :=
  match fuel with
  | O => heap
  | S fuel =>
      if decide (2 * index + 1 < length heap.(ref_storage)) then
        let smallest := smallest_of cmp heap.(ref_storage) index in
        if decide (smallest = index) then heap
        else min_heap_ref_heapify_down fuel (min_heap_ref_swap heap index smallest) smallest
      else heap
  end.

Definition min_heap_ref_push (heap : min_heap_ref) (handle : H) : Z * min_heap_ref :=
  if decide (heap.(ref_capacity) <= length heap.(ref_storage)) then (-1, heap)%Z
  else
    let st := heap.(ref_storage) ++ [handle] in
    let ix := upd handle (u16 (Z.of_nat (length heap.(ref_storage)) + 1)) heap.(idx) in
    (0%Z, min_heap_ref_heapify_up (length st) (Min_heap_ref st heap.(ref_capacity) ix) (length st - 1)).

Definition min_heap_ref_peek (heap : min_heap_ref) : option H := head heap.(ref_storage).
Definition min_heap_ref_is_empty (heap : min_heap_ref) : bool :=
  bool_decide (length heap.(ref_storage) = 0).

Definition min_heap_ref_remove (heap : min_heap_ref) (handle : H) : bool * min_heap_ref :=
  if (heap.(idx) handle =? 0)%Z || (Z.of_nat (length heap.(ref_storage)) <? heap.(idx) handle)%Z
  then (false, heap)
  else
    let id := Z.to_nat (heap.(idx) handle - 1) in
    let ix := upd handle 0%Z heap.(idx) in
    let n := length heap.(ref_storage) - 1 in
    let st := drop_at id heap.(ref_storage) in
    if decide (id = n) then (true, Min_heap_ref st heap.(ref_capacity) ix)
    else
      let ix := match heap.(ref_storage) !! n with
                | Some last => upd last (u16 (Z.of_nat id + 1)) ix
                | None => ix
                end in
      let h1 := Min_heap_ref st heap.(ref_capacity) ix in
      (true, min_heap_ref_heapify_up n (min_heap_ref_heapify_down n h1 id) id).

Definition min_heap_ref_pop (heap : min_heap_ref) : option (H * min_heap_ref) :=
  match heap.(ref_storage) with
  | [] => None
  | min :: _ => Some (min, (min_heap_ref_remove heap min).2)
  end.
End min_heap_ref.
#[global] Arguments min_heap_ref : clear implicits.

(** ** Lemmas on the array *)

Lemma parent_lt i : 0 < i -> parent_of i < i.
Proof. intros. unfold parent_of. apply Nat.Div0.div_lt_upper_bound. lia. Qed.

Lemma parent_child i j : 0 < j -> parent_of j = i <-> j = 2 * i + 1 \/ j = 2 * i + 2.
Proof.
  intros Hj. unfold parent_of. split.
  - intros <-. pose proof (Nat.div_mod_eq (j - 1) 2). pose proof (Nat.mod_upper_bound (j - 1) 2). lia.
  - intros [->| ->].
    + replace (2 * i + 1 - 1) with (i * 2) by lia. by apply Nat.div_mul.
    + replace (2 * i + 2 - 1) with (1 + i * 2) by lia. rewrite Nat.div_add by lia. done.
Qed.

Section heap_order.
Context {A : Type} (cmp : A -> A -> Z).
Implicit Types st : list A.

Definition cmp_le (x y : A) : Prop := (cmp x y <= 0)%Z.
Context (cmp_trans : forall x y z, cmp_le x y -> cmp_le y z -> cmp_le x z).
Context (cmp_total : forall x y, (0 <= cmp x y)%Z -> cmp_le y x).

Definition edge st (i j : nat) : Prop :=
  forall x y, st !! i = Some x -> st !! j = Some y -> cmp_le x y.
Definition heap_ordered st : Prop := forall j, 0 < j -> edge st (parent_of j) j.

(** Every edge but the one into [i], and [i]'s parent precedes its children. *)
Definition up_inv st (i : nat) : Prop :=
  (forall j, 0 < j -> j <> i -> edge st (parent_of j) j) /\
  (forall j, 0 < j -> parent_of j = i -> 0 < i -> edge st (parent_of i) j).

Lemma swap_perm a b st : swap a b st ≡ₚ st.
Proof.
  unfold swap. destruct (st !! a) as [x|] eqn:Ea; [|done]. destruct (st !! b) as [y|] eqn:Eb; [|done].
  by apply Permutation_insert_swap.
Qed.

Lemma swap_length a b st : length (swap a b st) = length st.
Proof. apply Permutation_length, swap_perm. Qed.

Lemma swap_lookup a b st x y k : a <> b -> st !! a = Some x -> st !! b = Some y ->
  swap a b st !! k = if decide (k = a) then Some y else if decide (k = b) then Some x else st !! k.
Proof.
  intros Hab Ha Hb. unfold swap. rewrite Ha, Hb. pose proof (lookup_lt_Some _ _ _ Ha).
  pose proof (lookup_lt_Some _ _ _ Hb). destruct (decide (k = a)) as [->|].
  - rewrite list_lookup_insert_ne by done. by rewrite list_lookup_insert_eq.
  - destruct (decide (k = b)) as [->|]; [by rewrite list_lookup_insert_eq by (by rewrite length_insert)|].
    by rewrite !list_lookup_insert_ne by done.
Qed.

Lemma heapify_up_perm fuel st i : heapify_up cmp fuel st i ≡ₚ st.
Proof.
  revert st i. induction fuel as [|fuel IH]; intros st i; simpl; [done|].
  case_decide; [|done]. destruct (st !! i); [|done]. destruct (st !! parent_of i); [|done].
  destruct (_ <=? _)%Z; [done|]. rewrite IH. apply swap_perm.
Qed.

Lemma heapify_down_perm fuel st i : heapify_down cmp fuel st i ≡ₚ st.
Proof.
  revert st i. induction fuel as [|fuel IH]; intros st i; simpl; [done|].
  case_decide; [|done]. case_decide; [done|]. rewrite IH. apply swap_perm.
Qed.

Lemma heap_up_inv st i : heap_ordered st -> up_inv st i.
Proof.
  intros Hh. split; [intros; by apply Hh|]. intros j Hj Hp Hi x y Hx Hy.
  pose proof (lookup_lt_Some _ _ _ Hy). pose proof (parent_lt j Hj).
  destruct (lookup_lt_is_Some_2 st i) as [z Hz]; [lia|].
  apply (cmp_trans _ z); [by apply (Hh i Hi)|]. apply (Hh j Hj); [by rewrite Hp|done].
Qed.

(** The swap of [i] with its parent moves the open edge up. *)
Lemma up_step st i x p : 0 < i -> st !! i = Some x -> st !! parent_of i = Some p ->
  up_inv st i -> (cmp x p < 0)%Z -> up_inv (swap i (parent_of i) st) (parent_of i).
Proof.
  intros Hi Hx Hp [H1 H2] Hlt. pose proof (parent_lt i Hi).
  assert (Hxp : cmp_le x p) by (unfold cmp_le; lia).
  assert (Hl := fun k => swap_lookup i (parent_of i) st x p k ltac:(lia) Hx Hp).
  split.
  - intros j Hj Hne a b Ha Hb. rewrite Hl in Ha, Hb. destruct (decide (j = i)) as [->|Hji].
    + rewrite decide_False, decide_True in Ha by lia. by simplify_eq.
    + rewrite (decide_False (P:=j = parent_of i)) in Hb by lia.
      destruct (decide (parent_of j = i)) as [Hpi|]; [simplify_eq; by apply (H2 j)|].
      destruct (decide (parent_of j = parent_of i)) as [E|]; [|by apply (H1 j)].
      simplify_eq. apply (cmp_trans _ p); [done|]. apply (H1 j); [done|done|by rewrite E|done].
  - intros j Hj Hpj Hp0 a b Ha Hb. rewrite Hl in Ha, Hb. pose proof (parent_lt (parent_of i) Hp0).
    rewrite !decide_False in Ha by lia. assert (Hap : cmp_le a p) by (by apply (H1 (parent_of i)); [|lia| |]).
    destruct (decide (j = i)) as [->|Hji]; [by simplify_eq|].
    rewrite (decide_False (P:=j = parent_of i)) in Hb by (intros ->; lia).
    apply (cmp_trans _ p); [done|]. apply (H1 j); [done|done|by rewrite Hpj|done].
Qed.

Lemma heapify_up_ok fuel st i : i < fuel -> i < length st -> up_inv st i ->
  heap_ordered (heapify_up cmp fuel st i).
Proof.
  revert st i. induction fuel as [|fuel IH]; intros st i Hf Hi Hinv; [lia|]. simpl.
  case_decide as Hpos; [|intros j Hj; apply Hinv; lia]. pose proof (parent_lt i Hpos).
  destruct (lookup_lt_is_Some_2 st i) as [x Hx]; [done|].
  destruct (lookup_lt_is_Some_2 st (parent_of i)) as [p Hp]; [lia|]. rewrite Hx, Hp.
  destruct (Z.leb_spec 0 (cmp x p)).
  - intros j Hj. destruct (decide (j = i)) as [->|]; [|by apply Hinv].
    intros a b Ha Hb. simplify_eq. by apply cmp_total.
  - apply IH; [lia|rewrite swap_length; lia|]. by apply (up_step _ _ x p).
Qed.

(** ** Down *)

(** Every edge but those out of [c], and [c]'s parent precedes its children. *)
Definition down_inv st (c : nat) : Prop :=
  (forall j, 0 < j -> parent_of j <> c -> edge st (parent_of j) j) /\
  (forall j, 0 < j -> parent_of j = c -> 0 < c -> edge st (parent_of c) j).

(** Both at once: the state after an element is replaced. *)
Definition mid_inv st (c : nat) : Prop :=
  (forall j, 0 < j -> parent_of j <> c -> j <> c -> edge st (parent_of j) j) /\
  (forall j, 0 < j -> parent_of j = c -> 0 < c -> edge st (parent_of c) j).

Lemma smallest_spec st c x : st !! c = Some x -> 2 * c + 1 < length st ->
  let s := smallest_of cmp st c in
  exists y, st !! s = Some y /\ cmp_le y x /\ (s = c \/ 0 < s /\ parent_of s = c) /\
    forall j, 0 < j -> parent_of j = c -> edge st s j.
Proof.
  intros Hx Hl s. destruct (lookup_lt_is_Some_2 st (2 * c + 1)) as [l Hlv]; [done|].
  assert (Hrefl : forall a, cmp_le a a).
  { intros a. destruct (Z.le_gt_cases 0 (cmp a a)); [by apply cmp_total|]. unfold cmp_le. lia. }
  assert (Hcase : exists y, st !! (if (cmp l x <? 0)%Z then 2 * c + 1 else c) = Some y /\ cmp_le y x /\ cmp_le y l).
  { destruct (Z.ltb_spec (cmp l x) 0); [exists l|exists x]; (split; [done|]).
    - split; [unfold cmp_le; lia|done].
    - split; [done|by apply cmp_total]. }
  destruct Hcase as (y & Hy & Hyx & Hyl). unfold s, smallest_of. rewrite Hlv, Hx.
  set (m := if (cmp l x <? 0)%Z then _ else _) in *.
  assert (Hm : m = c \/ 0 < m /\ parent_of m = c).
  { unfold m. destruct (_ <? _)%Z; [right|by left]. split; [lia|]. apply parent_child; lia. }
  replace (2 * c + 1 + 1) with (2 * c + 2) by lia.
  case_decide as Hr.
  - destruct (lookup_lt_is_Some_2 st (2 * c + 2)) as [r Hrv]; [done|]. rewrite Hrv, Hy.
    destruct (Z.ltb_spec (cmp r y) 0) as [Hlt|Hge].
    + exists r. split; [done|]. assert (Hry : cmp_le r y) by (unfold cmp_le; lia).
      split; [by apply (cmp_trans _ y)|]. split; [right; split; [lia|]; apply parent_child; lia|].
      intros j Hj Hp a b Ha Hb. apply parent_child in Hp as [->| ->]; [|simplify_eq; done|done].
      simplify_eq. by apply (cmp_trans _ y).
    + exists y. split; [done|]. split; [done|]. split; [done|].
      intros j Hj Hp a b Ha Hb. apply parent_child in Hp as [->| ->]; [by simplify_eq| |done].
      simplify_eq. by apply cmp_total.
  - exists y. split; [done|]. split; [done|]. split; [done|].
    intros j Hj Hp a b Ha Hb. pose proof (lookup_lt_Some _ _ _ Hb).
    apply parent_child in Hp as [->| ->]; [by simplify_eq|lia|done].
Qed.

Lemma down_step st c x y s : st !! c = Some x -> st !! s = Some y -> 0 < s -> parent_of s = c ->
  cmp_le y x -> (forall j, 0 < j -> parent_of j = c -> edge st s j) -> mid_inv st c ->
  down_inv (swap c s st) s.
Proof.
  intros Hx Hy Hs Hps Hyx Hmin [H1 H2]. pose proof (parent_lt s Hs).
  assert (Hl := fun k => swap_lookup c s st x y k ltac:(lia) Hx Hy).
  split.
  - intros j Hj Hpj a b Ha Hb. rewrite Hl in Ha, Hb. pose proof (parent_lt j Hj).
    rewrite (decide_False (P:=parent_of j = s)) in Ha by done.
    destruct (decide (j = s)) as [->|Hjs]; [rewrite decide_True in Ha by done; rewrite decide_False in Hb by lia; by simplify_eq|].
    destruct (decide (j = c)) as [->|Hjc].
    + rewrite decide_False in Ha by lia. simplify_eq. by apply (H2 s).
    + destruct (decide (parent_of j = c)) as [Hp|Hp]; [simplify_eq; by apply (Hmin j)|by apply (H1 j)].
  - intros j Hj Hpj _ a b Ha Hb. rewrite Hl in Ha, Hb. pose proof (parent_lt j Hj).
    rewrite Hps, decide_True in Ha by done. rewrite !decide_False in Hb by lia. simplify_eq.
    apply (H1 j); [done|lia|lia|done|done].
Qed.

Lemma no_children st c j : length st <= 2 * c + 1 -> 0 < j -> parent_of j = c -> edge st c j.
Proof.
  intros Hl Hj Hp a b _ Hb. apply lookup_lt_Some in Hb. apply parent_child in Hp; lia.
Qed.

Lemma heapify_down_ok fuel st c : length st - c <= fuel -> down_inv st c ->
  heap_ordered (heapify_down cmp fuel st c).
Proof.
  revert st c. induction fuel as [|fuel IH]; intros st c Hf Hinv; simpl.
  - intros j Hj. destruct (decide (parent_of j = c)) as [Hp|]; [|by apply Hinv].
    rewrite Hp. apply no_children; [lia|done|done].
  - case_decide as Hleft.
    + destruct (lookup_lt_is_Some_2 st c) as [x Hx]; [lia|].
      destruct (smallest_spec st c x Hx Hleft) as (y & Hy & Hyx & Hs & Hmin).
      case_decide as Hc.
      * intros j Hj. destruct (decide (parent_of j = c)) as [Hp|]; [|by apply Hinv].
        rewrite Hp. rewrite Hc in Hmin. by apply Hmin.
      * destruct Hs as [|[Hs Hps]]; [done|]. pose proof (parent_lt _ Hs).
        apply IH; [rewrite swap_length; lia|]. apply (down_step _ _ x y); try done.
        split; [intros; by apply Hinv|apply Hinv].
    + intros j Hj. destruct (decide (parent_of j = c)) as [Hp|]; [|by apply Hinv].
      rewrite Hp. apply no_children; [lia|done|done].
Qed.

Lemma heapify_down_mid fuel st c : length st - c <= fuel -> mid_inv st c ->
  up_inv (heapify_down cmp fuel st c) c.
Proof.
  intros Hf [H1 H2].
  assert (Hstay : (forall j, 0 < j -> parent_of j = c -> edge st c j) -> up_inv st c).
  { intros Hc. split; [|done]. intros j Hj Hne. destruct (decide (parent_of j = c)) as [Hp|]; [|by apply H1].
    rewrite Hp. by apply Hc. }
  destruct fuel as [|fuel]; simpl.
  - apply Hstay. intros j Hj Hp. apply no_children; [lia|done|done].
  - case_decide as Hleft.
    + destruct (lookup_lt_is_Some_2 st c) as [x Hx]; [lia|].
      destruct (smallest_spec st c x Hx Hleft) as (y & Hy & Hyx & Hs & Hmin).
      case_decide as Hc; [apply Hstay; by rewrite Hc in Hmin|].
      destruct Hs as [|[Hs Hps]]; [done|]. pose proof (parent_lt _ Hs).
      apply heap_up_inv, heapify_down_ok; [rewrite swap_length; lia|]. by apply (down_step _ _ x y).
    + apply Hstay. intros j Hj Hp. apply no_children; [lia|done|done].
Qed.

(** ** Operations *)

Lemma root_least st r : heap_ordered st -> st !! 0 = Some r -> forall i x, st !! i = Some x -> cmp_le r x.
Proof.
  intros Hh Hr i. induction i as [i IH] using lt_wf_ind. intros x Hx.
  assert (Hrefl : forall a, cmp_le a a).
  { intros a. destruct (Z.le_gt_cases 0 (cmp a a)); [by apply cmp_total|]. unfold cmp_le. lia. }
  destruct (decide (i = 0)) as [->|]; [by simplify_eq|].
  pose proof (parent_lt i ltac:(lia)). pose proof (lookup_lt_Some _ _ _ Hx).
  destruct (lookup_lt_is_Some_2 st (parent_of i)) as [p Hp]; [lia|].
  apply (cmp_trans _ p); [by apply (IH (parent_of i))|]. by apply (Hh i ltac:(lia)).
Qed.

Lemma push_order st x : heap_ordered st ->
  heap_ordered (heapify_up cmp (length (st ++ [x])) (st ++ [x]) (length st)).
Proof.
  intros Hh. rewrite length_app. simpl. apply heapify_up_ok; [lia|rewrite length_app; simpl; lia|].
  assert (Hlast : forall j, 0 < j -> parent_of j = length st -> forall b, (st ++ [x]) !! j = Some b -> False).
  { intros j Hj Hp b Hb. apply lookup_lt_Some in Hb. rewrite length_app in Hb. simpl in Hb.
    apply parent_child in Hp; lia. }
  split; [|intros j Hj Hp Hpos a b _ Hb; by destruct (Hlast j Hj Hp b Hb)].
  intros j Hj Hne a b Ha Hb. pose proof (lookup_lt_Some _ _ _ Hb) as Hlt. rewrite length_app in Hlt.
  simpl in Hlt. pose proof (parent_lt j Hj). rewrite lookup_app_l in Ha, Hb by lia. by apply (Hh j).
Qed.

(** A pushed element reaches the root only by beating the old root. *)
Lemma heapify_up_root fuel st i x r : 0 < i -> i < fuel -> st !! i = Some x -> st !! 0 = Some r ->
  heapify_up cmp fuel st i !! 0 = Some r \/
  heapify_up cmp fuel st i !! 0 = Some x /\ (cmp x r < 0)%Z.
Proof.
  revert st i. induction fuel as [|fuel IH]; intros st i Hi Hf Hx Hr; [lia|]. simpl.
  rewrite decide_True by done. pose proof (parent_lt i Hi). pose proof (lookup_lt_Some _ _ _ Hx).
  rewrite Hx. destruct (lookup_lt_is_Some_2 st (parent_of i)) as [p Hp]; [lia|]. rewrite Hp.
  destruct (Z.leb_spec 0 (cmp x p)); [by left|].
  assert (Hl := fun k => swap_lookup i (parent_of i) st x p k ltac:(lia) Hx Hp).
  destruct (decide (parent_of i = 0)) as [E|E].
  - right. rewrite E in *. assert (p = r) as -> by congruence. split; [|done].
    assert (heapify_up cmp fuel (swap i 0 st) 0 = swap i 0 st) as -> by (by destruct fuel).
    rewrite Hl, decide_False by lia. done.
  - apply IH; [lia|lia| |].
    + rewrite Hl, decide_False, decide_True by lia. done.
    + rewrite Hl, !decide_False by lia. done.
Qed.

Lemma drop_at_lookup id st n last k : length st = S n -> st !! n = Some last -> id <= n ->
  k < n -> drop_at id st !! k = if decide (k = id) then Some last else st !! k.
Proof.
  intros Hl Hn Hid Hk. unfold drop_at. replace (length st - 1) with n by lia. rewrite Hn.
  case_decide as Hi.
  - rewrite decide_False by lia. by apply lookup_take_lt.
  - destruct (decide (k = id)) as [->|].
    + apply list_lookup_insert_eq. rewrite length_take. lia.
    + rewrite list_lookup_insert_ne by done. by apply lookup_take_lt.
Qed.

Lemma drop_at_length id st : length (drop_at id st) = length st - 1.
Proof.
  unfold drop_at. destruct (st !! (length st - 1)) eqn:E.
  - case_decide; rewrite ?length_insert, length_take; lia.
  - apply lookup_ge_None in E. lia.
Qed.

Lemma drop_at_perm id st x : st !! id = Some x -> st ≡ₚ x :: drop_at id st.
Proof.
  intros Hx. pose proof (lookup_lt_Some _ _ _ Hx) as Hid. unfold drop_at.
  destruct (lookup_lt_is_Some_2 st (length st - 1)) as [l Hl]; [lia|]. rewrite Hl.
  assert (Es : st = take (length st - 1) st ++ [l]).
  { rewrite <- (firstn_skipn (length st - 1) st) at 1. f_equal.
    apply list_eq. intros [|k]; rewrite lookup_drop; simpl; [by rewrite Nat.add_0_r|].
    apply lookup_ge_None. lia. }
  case_decide as Hi.
  - rewrite Es at 1. assert (x = l) as -> by congruence. symmetry. apply Permutation_cons_append.
  - assert (Ht : take (length st - 1) st !! id = Some x) by (rewrite lookup_take_lt by lia; done).
    rewrite Es at 1. rewrite <- Permutation_cons_append.
    rewrite insert_take_drop by (rewrite length_take; lia).
    rewrite <- (take_drop_middle _ _ _ Ht) at 1. rewrite <- !Permutation_middle. apply perm_swap.
Qed.

Lemma remove_order st id : heap_ordered st -> id < length st ->
  let n := length st - 1 in
  heap_ordered (if decide (id = n) then drop_at id st
                else heapify_up cmp n (heapify_down cmp n (drop_at id st) id) id).
Proof.
  intros Hh Hid n. destruct (lookup_lt_is_Some_2 st n) as [last Hlast]; [unfold n; lia|].
  assert (Hl := fun k => drop_at_lookup id st n last k ltac:(unfold n; lia) Hlast ltac:(unfold n; lia)).
  assert (Hlen := drop_at_length id st). fold n in Hlen.
  assert (Hback : forall k v, drop_at id st !! k = Some v -> k < n /\ (k <> id -> st !! k = Some v)).
  { intros k v Hv. pose proof (lookup_lt_Some _ _ _ Hv). rewrite Hlen in *. split; [done|].
    intros Hk. rewrite Hl in Hv by done. by rewrite decide_False in Hv. }
  case_decide as Hi.
  - intros j Hj a b Ha Hb. apply Hback in Ha as [? Ha], Hb as [? Hb]. apply (Hh j); [done|apply Ha; lia|apply Hb; lia].
  - apply heapify_up_ok; [unfold n in *; lia|rewrite (Permutation_length (heapify_down_perm _ _ _)), Hlen; unfold n in *; lia|].
    apply heapify_down_mid; [lia|]. split.
    + intros j Hj Hp Hne a b Ha Hb. apply Hback in Ha as [_ Ha], Hb as [_ Hb]. apply (Hh j); auto.
    + intros j Hj Hp Hpos a b Ha Hb. pose proof (parent_lt j Hj). pose proof (parent_lt id Hpos).
      apply Hback in Ha as [_ Ha], Hb as [_ Hb].
      destruct (heap_up_inv st id Hh) as [_ Hg]. apply (Hg j); [done|done|done|apply Ha; lia|apply Hb; lia].
Qed.
End heap_order.

(** ** Lemmas on handles *)

Section handles.
Context {H : Type} `{!EqDecision H} (cmp : H -> H -> Z).
Context (cmp_trans : forall x y z, cmp_le cmp x y -> cmp_le cmp y z -> cmp_le cmp x z).
Context (cmp_total : forall x y, (0 <= cmp x y)%Z -> cmp_le cmp y x).

(** Positions recorded in the handles are the positions in the array, and
    handles outside of it record none. *)
Definition idx_ok (heap : min_heap_ref H) : Prop :=
  NoDup heap.(ref_storage) /\ (Z.of_nat (length heap.(ref_storage)) <= 65535)%Z /\
  (forall i h, heap.(ref_storage) !! i = Some h -> heap.(idx) h = Z.of_nat i + 1)%Z /\
  (forall h, h ∉ heap.(ref_storage) -> heap.(idx) h = 0%Z).

Lemma u16_small x : (0 <= x < 65536)%Z -> u16 x = x.
Proof. intros. by apply Z.mod_small. Qed.

Lemma swap_idx_ok heap a b : a <> b -> a < length heap.(ref_storage) -> b < length heap.(ref_storage) ->
  idx_ok heap -> idx_ok (min_heap_ref_swap heap a b).
Proof.
  intros Hab Ha Hb (Hn & Hlen & Hi & Ho).
  destruct (lookup_lt_is_Some_2 heap.(ref_storage) a Ha) as [x Hx].
  destruct (lookup_lt_is_Some_2 heap.(ref_storage) b Hb) as [y Hy].
  assert (Hl := fun k => swap_lookup a b heap.(ref_storage) x y k Hab Hx Hy).
  assert (Hxy : x <> y) by (intros ->; apply Hab; by eapply NoDup_lookup).
  unfold idx_ok, min_heap_ref_swap, set_idx. simpl. rewrite !Hl.
  rewrite (decide_True (P:=a = a)), (decide_False (P:=b = a)), (decide_True (P:=b = b)) by done.
  rewrite !u16_small by lia. rewrite swap_length, (swap_perm a b heap.(ref_storage)).
  split; [done|]. split; [done|]. split.
  - intros i h Hh. rewrite Hl in Hh. destruct (decide (i = a)) as [->|]; [simplify_eq; by rewrite upd_ne, upd_eq|].
    destruct (decide (i = b)) as [->|]; [simplify_eq; by rewrite upd_eq|].
    rewrite !upd_ne; [by apply Hi| |]; intros ->.
    + assert (i = b) by (by eapply NoDup_lookup). done.
    + assert (i = a) by (by eapply NoDup_lookup). done.
  - intros h Hh. rewrite (swap_perm a b heap.(ref_storage)) in Hh.
    rewrite !upd_ne; [by apply Ho| |]; intros ->; apply Hh; by eapply list_elem_of_lookup_2.
Qed.

Lemma ref_up_storage fuel heap i :
  heapify_up cmp fuel heap.(ref_storage) i = (min_heap_ref_heapify_up cmp fuel heap i).(ref_storage).
Proof.
  revert heap i. induction fuel as [|fuel IH]; intros heap i; simpl; [done|].
  case_decide; [|done]. destruct (heap.(ref_storage) !! i); [|done].
  destruct (heap.(ref_storage) !! parent_of i); [|done]. destruct (_ <=? _)%Z; [done|].
  by rewrite <- IH.
Qed.

Lemma ref_up_ok fuel heap i : i < length heap.(ref_storage) -> idx_ok heap ->
  let r := min_heap_ref_heapify_up cmp fuel heap i in
  r.(ref_storage) = heapify_up cmp fuel heap.(ref_storage) i /\ idx_ok r /\
  r.(ref_capacity) = heap.(ref_capacity).
Proof.
  revert heap i. induction fuel as [|fuel IH]; intros heap i Hi Hok; simpl; [done|].
  case_decide as Hpos; [|done]. pose proof (parent_lt i Hpos).
  destruct (heap.(ref_storage) !! i) as [x|]; [|done].
  destruct (heap.(ref_storage) !! parent_of i) as [p|]; [|done].
  destruct (0 <=? cmp x p)%Z; [done|].
  destruct (IH (min_heap_ref_swap heap i (parent_of i)) (parent_of i)) as (H1 & H2 & H3); [|by apply swap_idx_ok; [lia|lia|lia|]|done].
  simpl. rewrite swap_length. lia.
Qed.

Lemma ref_down_ok fuel heap i : i < length heap.(ref_storage) -> idx_ok heap ->
  let r := min_heap_ref_heapify_down cmp fuel heap i in
  r.(ref_storage) = heapify_down cmp fuel heap.(ref_storage) i /\ idx_ok r /\
  r.(ref_capacity) = heap.(ref_capacity).
Proof.
  revert heap i. induction fuel as [|fuel IH]; intros heap i Hi Hok; simpl; [done|].
  case_decide as Hl; [|done]. case_decide as Hs; [done|].
  destruct (lookup_lt_is_Some_2 heap.(ref_storage) i Hi) as [x Hx].
  destruct (smallest_spec cmp cmp_trans cmp_total heap.(ref_storage) i x Hx Hl) as (y & Hy & _).
  apply lookup_lt_Some in Hy.
  destruct (IH (min_heap_ref_swap heap i (smallest_of cmp heap.(ref_storage) i))
    (smallest_of cmp heap.(ref_storage) i)) as (H1 & H2 & H3); [|by apply swap_idx_ok|done].
  simpl. by rewrite swap_length.
Qed.

Lemma ref_push_ok heap h : heap_ordered cmp heap.(ref_storage) -> idx_ok heap -> h ∉ heap.(ref_storage) ->
  length heap.(ref_storage) < heap.(ref_capacity) -> (Z.of_nat heap.(ref_capacity) <= 65535)%Z ->
  let r := min_heap_ref_push cmp heap h in
  r.1 = 0%Z /\ heap_ordered cmp r.2.(ref_storage) /\ idx_ok r.2 /\
  r.2.(ref_storage) ≡ₚ h :: heap.(ref_storage) /\ r.2.(ref_capacity) = heap.(ref_capacity).
Proof.
  intros Hh (Hn & Hlen & Hi & Ho) Hnot Hcap Hmax. unfold min_heap_ref_push. rewrite decide_False by lia.
  rewrite u16_small by lia. simpl.
  set (h1 := Min_heap_ref _ _ _).
  destruct (ref_up_ok (length (heap.(ref_storage) ++ [h])) h1 (length (heap.(ref_storage) ++ [h]) - 1)) as (H1 & H2 & H3).
  - simpl. rewrite length_app. simpl. lia.
  - unfold idx_ok, h1. simpl. split; [|split; [rewrite length_app; simpl; lia|split]].
    + rewrite <- Permutation_cons_append. by constructor.
    + intros i x Hx. apply lookup_app_Some in Hx as [Hx|[Hge Hx]].
      * rewrite upd_ne; [by apply Hi|]. intros ->. apply Hnot. by eapply list_elem_of_lookup_2.
      * apply list_lookup_singleton_Some in Hx as [E <-]. rewrite upd_eq. lia.
    + intros x Hx. rewrite upd_ne by set_solver. apply Ho. set_solver.
  - split; [done|]. rewrite H1. simpl. rewrite length_app. simpl.
    replace (length heap.(ref_storage) + 1 - 1) with (length heap.(ref_storage)) by lia.
    split; [|split; [|split]].
    + pose proof (push_order cmp cmp_trans cmp_total heap.(ref_storage) h Hh) as Hp.
      by rewrite length_app in Hp.
    + rewrite length_app in H2. simpl in H2.
      by replace (length heap.(ref_storage) + 1 - 1) with (length heap.(ref_storage)) in H2 by lia.
    + rewrite heapify_up_perm. symmetry. apply Permutation_cons_append.
    + rewrite length_app in H3. simpl in H3.
      by replace (length heap.(ref_storage) + 1 - 1) with (length heap.(ref_storage)) in H3 by lia.
Qed.

Lemma push_root heap h : idx_ok heap -> length heap.(ref_storage) < heap.(ref_capacity) ->
  heap.(ref_storage) = [] \/
  exists r, heap.(ref_storage) !! 0 = Some r /\
    ((min_heap_ref_push cmp heap h).2.(ref_storage) !! 0 = Some r \/ (cmp h r < 0)%Z).
Proof.
  intros Hok Hroom. destruct (heap.(ref_storage)) as [|r st] eqn:E; [by left|right].
  exists r. split; [done|]. unfold min_heap_ref_push. rewrite E, decide_False by lia.
  cbn [snd]. rewrite <- ref_up_storage. cbn [ref_storage].
  assert (El : length ((r :: st) ++ [h]) = S (S (length st))) by (rewrite length_app; simpl; lia).
  rewrite El. replace (S (S (length st)) - 1) with (S (length st)) by lia.
  destruct (heapify_up_root cmp (S (S (length st))) ((r :: st) ++ [h]) (S (length st)) h r)
    as [Hl|[_ Hl]]; [lia|lia| |done|by left|by right].
  rewrite lookup_app_r by (simpl; lia). simpl length. by rewrite Nat.sub_diag.
Qed.

Lemma drop_idx_ok heap h id : idx_ok heap -> heap.(ref_storage) !! id = Some h ->
  let n := length heap.(ref_storage) - 1 in
  idx_ok (Min_heap_ref (drop_at id heap.(ref_storage)) heap.(ref_capacity)
    (if decide (id = n) then upd h 0%Z heap.(idx)
     else match heap.(ref_storage) !! n with
          | Some last => upd last (u16 (Z.of_nat id + 1)) (upd h 0%Z heap.(idx))
          | None => upd h 0%Z heap.(idx)
          end)).
Proof.
  intros (Hn & Hlen & Hi & Ho) Hh n. pose proof (lookup_lt_Some _ _ _ Hh) as Hid.
  destruct (lookup_lt_is_Some_2 heap.(ref_storage) n) as [last Hlast]; [unfold n; lia|].
  assert (Hl := fun k => drop_at_lookup id heap.(ref_storage) n last k
    ltac:(unfold n; lia) Hlast ltac:(unfold n; lia)).
  assert (Hpos : forall k k' x, heap.(ref_storage) !! k = Some x -> heap.(ref_storage) !! k' = Some x -> k = k')
    by (intros; by eapply NoDup_lookup).
  rewrite Hlast, u16_small by lia. pose proof (drop_at_perm id heap.(ref_storage) h Hh) as Hperm.
  pose proof (drop_at_length id heap.(ref_storage)) as Hdl. fold n in Hdl.
  rewrite Hperm in Hn. apply NoDup_cons in Hn as [Hhn Hn].
  split; [done|]. split; [simpl; lia|]. simpl. split.
  - intros k x Hx. pose proof (lookup_lt_Some _ _ _ Hx). rewrite Hdl in *. rewrite Hl in Hx by done.
    destruct (decide (id = n)) as [Hend|Hend].
    + rewrite decide_False in Hx by lia. rewrite upd_ne; [by apply Hi|]. intros ->.
      specialize (Hpos k id h Hx Hh). lia.
    + destruct (decide (k = id)) as [->|]; [simplify_eq; by rewrite upd_eq|].
      rewrite !upd_ne; [by apply Hi| |]; intros ->.
      * specialize (Hpos k id h Hx Hh). lia.
      * specialize (Hpos k n last Hx Hlast). lia.
  - intros x Hx. assert (Hout : x <> h -> heap.(idx) x = 0%Z).
    { intros Hne. apply Ho. rewrite Hperm. set_solver. }
    destruct (decide (id = n)) as [Hend|Hend]; [unfold upd; case_decide; auto|].
    rewrite upd_ne; [unfold upd; case_decide; auto|]. intros ->. apply Hx.
    apply (list_elem_of_lookup_2 _ id). rewrite Hl by (unfold n in *; lia). by rewrite decide_True.
Qed.

Lemma ref_remove_ok heap h : heap_ordered cmp heap.(ref_storage) -> idx_ok heap ->
  h ∈ heap.(ref_storage) ->
  let r := min_heap_ref_remove cmp heap h in
  r.1 = true /\ heap_ordered cmp r.2.(ref_storage) /\ idx_ok r.2 /\
  heap.(ref_storage) ≡ₚ h :: r.2.(ref_storage) /\ r.2.(ref_capacity) = heap.(ref_capacity).
Proof.
  intros Hh Hok [id Hid]%list_elem_of_lookup. pose proof (lookup_lt_Some _ _ _ Hid) as Hlt.
  pose proof Hok as (_ & Hlen & Hi & _). unfold min_heap_ref_remove. rewrite (Hi _ _ Hid).
  replace (Z.of_nat id + 1 =? 0)%Z with false by (symmetry; apply Z.eqb_neq; lia).
  replace (Z.of_nat (length heap.(ref_storage)) <? Z.of_nat id + 1)%Z with false
    by (symmetry; apply Z.ltb_ge; lia). simpl.
  replace (Z.to_nat (Z.of_nat id + 1 - 1)) with id by lia.
  pose proof (drop_idx_ok heap h id Hok Hid) as Hd. cbv zeta in Hd.
  pose proof (remove_order cmp cmp_trans cmp_total heap.(ref_storage) id Hh Hlt) as Hro. cbv zeta in Hro.
  pose proof (drop_at_length id heap.(ref_storage)) as Hdl.
  case_decide as Hend; [by repeat (split; [done|]); split; [apply drop_at_perm|]|].
  set (h1 := Min_heap_ref _ _ _) in *.
  destruct (ref_down_ok (length heap.(ref_storage) - 1) h1 id) as (D1 & D2 & D3); [simpl; lia|done|].
  destruct (ref_up_ok (length heap.(ref_storage) - 1)
    (min_heap_ref_heapify_down cmp (length heap.(ref_storage) - 1) h1 id) id) as (U1 & U2 & U3); [|done|].
  { rewrite D1, (Permutation_length (heapify_down_perm _ _ _ _)). simpl. lia. }
  simpl. rewrite U1, D1. simpl. split; [done|]. split; [done|]. split; [done|]. split; [|by rewrite U3, D3].
  rewrite heapify_up_perm, heapify_down_perm. by apply drop_at_perm.
Qed.

Lemma ref_remove_absent heap h : idx_ok heap -> h ∉ heap.(ref_storage) ->
  min_heap_ref_remove cmp heap h = (false, heap).
Proof. intros (_ & _ & _ & Ho) Hh. unfold min_heap_ref_remove. by rewrite Ho. Qed.
End handles.

(** ** Properties of min_heap *)

(** A comparator of a total preorder. *)
Definition good_cmp {A} (cmp : A -> A -> Z) : Prop :=
  (forall x y z, cmp_le cmp x y -> cmp_le cmp y z -> cmp_le cmp x z) /\
  (forall x y, (0 <= cmp x y)%Z -> cmp_le cmp y x).

(** C40. A min-heap is a priority queue of a bounded multiset, for every
    comparator of a total preorder: push adds the element, or fails with -ENOMEM
    exactly when the heap is full; removal at any valid index takes out exactly
    the element there and leaves the others; both keep the heap order; peek and
    pop return an element that no other precedes. *)
Theorem min_heap_priority_queue {A} (cmp : A -> A -> Z) (heap : min_heap A) :
  good_cmp cmp -> heap_ordered cmp heap.(storage) ->
  (forall item, let r := min_heap_push cmp heap item in
     if decide (heap.(capacity) <= length heap.(storage)) then r = (- ENOMEM, heap)%Z
     else r.1 = 0%Z /\ r.2.(capacity) = heap.(capacity) /\ heap_ordered cmp r.2.(storage) /\
          r.2.(storage) ≡ₚ item :: heap.(storage)) /\
  (forall id, match min_heap_remove cmp heap id with
     | None => length heap.(storage) <= id
     | Some (x, heap') => heap.(storage) !! id = Some x /\ heap_ordered cmp heap'.(storage) /\
         heap.(storage) ≡ₚ x :: heap'.(storage) /\ heap'.(capacity) = heap.(capacity)
     end) /\
  (min_heap_peek heap = fst <$> min_heap_pop cmp heap) /\
  match min_heap_peek heap with
  | None => heap.(storage) = []
  | Some x => x ∈ heap.(storage) /\ forall y, y ∈ heap.(storage) -> (cmp x y <= 0)%Z
  end.
Proof.
  intros [Htr Htot] Hh. split; [|split; [|split]].
  - intros item r. subst r. unfold min_heap_push. case_decide; [done|]. simpl. split; [done|].
    split; [done|]. split; [by apply push_order|]. rewrite heapify_up_perm.
    symmetry. apply Permutation_cons_append.
  - intros id. unfold min_heap_remove. destruct (heap.(storage) !! id) as [x|] eqn:Hx.
    + pose proof (lookup_lt_Some _ _ _ Hx). split; [done|]. split; [by apply remove_order|].
      split; [|done]. simpl. rewrite (drop_at_perm id) at 1 by done. f_equiv.
      case_decide; [done|]. by rewrite heapify_up_perm, heapify_down_perm.
    + by apply lookup_ge_None in Hx.
  - unfold min_heap_peek, min_heap_pop, min_heap_remove. by destruct heap.(storage).
  - unfold min_heap_peek. destruct heap.(storage) as [|x st] eqn:E; [done|]. simpl. split; [set_solver|].
    intros y [i Hi]%list_elem_of_lookup. by apply (root_least cmp Htr Htot (x :: st) x Hh eq_refl i).
Qed.

Lemma min_heap_priority_queue_witness :
  let heap := Min_heap [1; 3; 2]%Z 4 in
  let cmp := fun x y : Z => (x - y)%Z in
  (min_heap_push cmp heap 0%Z).1 = 0%Z /\ min_heap_peek heap = Some 1%Z /\
  fst <$> min_heap_pop cmp heap = Some 1%Z.
Proof.
  intros heap cmp.
  assert (Hc : good_cmp cmp) by (split; unfold cmp_le, cmp; intros; lia).
  assert (Hh : heap_ordered cmp heap.(storage)).
  { intros j Hj x y. destruct j as [|[|[|j]]]; [lia|..]; intros Hx Hy; simplify_eq/=;
      unfold cmp_le, cmp; simpl; try lia. }
  destruct (min_heap_priority_queue cmp heap Hc Hh) as (H1 & _ & H2 & _).
  specialize (H1 0%Z). simpl in H1. destruct H1 as [H1 _].
  split; [exact H1|]. split; [reflexivity|]. rewrite <- H2. reflexivity.
Defined.
