(* ===== verification/TimeoutMinheap.v ===== *)
(** The min-heap timeout queue, kernel/timeout_minheap.h
    (TIMEOUT_BACKEND_MINHEAP): pending timeouts in a [min_heap_ref] ordered by
    their absolute expiry, the field [abs_ticks].  The heap has
    CONFIG_TIMEOUT_HEAP_MAX_ENTRIES slots; with none free [z_timeout_q_insert]
    panics, which [tq_room] rules out. *)

From S2P Require Import Prelude Timeout TimeoutOrder MinHeap.
From stdpp Require Import gmap.
#[local] Open Scope Z_scope.

Record timeout_heap := Timeout_heap {
  timeout_heap_inst : min_heap_ref toid;
  abs_ticks : toid -> Z
}.

Definition timeout_cmp (abs : toid -> Z) (a b : toid) : Z :=
  if abs a <? abs b then -1 else if abs b <? abs a then 1 else 0.

Definition z_timeout_q_root (q : timeout_heap) : option toid := min_heap_ref_peek q.(timeout_heap_inst).

Definition z_timeout_q_insert (curr_tick : Z) (q : timeout_heap) (to : toid) (d : Z) : timeout_heap * bool :=
  let abs := upd to (i64 (i64 curr_tick + d)) q.(abs_ticks) in
  let heap := (min_heap_ref_push (timeout_cmp abs) q.(timeout_heap_inst) to).2 in
  (Timeout_heap heap abs, heap.(idx) to =? 1).

Definition z_timeout_q_remove (q : timeout_heap) (to : toid) : timeout_heap * bool :=
  let was_first := q.(timeout_heap_inst).(idx) to =? 1 in
  (Timeout_heap (min_heap_ref_remove (timeout_cmp q.(abs_ticks)) q.(timeout_heap_inst) to).2 q.(abs_ticks),
   was_first).

Definition z_timeout_q_remainder (curr_tick : Z) (q : timeout_heap) (to : toid) : Z :=
  i64 (q.(abs_ticks) to - i64 curr_tick).

Definition z_timeout_q_next_expiry (curr_tick : Z) (q : timeout_heap) : Z :=
  match z_timeout_q_root q with
  | None => K_TICKS_FOREVER
  | Some t => i64 (q.(abs_ticks) t - i64 curr_tick)
  end.

Definition z_timeout_q_next_gap (curr_tick : Z) (q : timeout_heap) : Z :=
  match z_timeout_q_root q with
  | None => INT32_MAX
  | Some t => i32 (Z.min (i64 (q.(abs_ticks) t - i64 curr_tick)) INT32_MAX)
  end.

Definition z_timeout_q_advance (q : timeout_heap) (dt : Z) : timeout_heap := q.

Definition z_timeout_q_pop_due (curr_tick : Z) (q : timeout_heap) : option (toid * timeout_heap) :=
  match z_timeout_q_root q with
  | None => None
  | Some t =>
      if i64 curr_tick <? q.(abs_ticks) t then None
      else match min_heap_ref_pop (timeout_cmp q.(abs_ticks)) q.(timeout_heap_inst) with
           | Some (t, heap) => Some (t, Timeout_heap heap q.(abs_ticks))
           | None => None
           end
  end.

(** ** The heap of timeouts *)

Definition hlist (q : timeout_heap) : elist :=
  (fun t => (t, q.(abs_ticks) t)) <$> q.(timeout_heap_inst).(ref_storage).

Definition theap_ok (now : Z) (q : timeout_heap) : Prop :=
  0 <= now <= MAX_TICK /\ Z.of_nat q.(timeout_heap_inst).(ref_capacity) <= 65535 /\
  heap_ordered (timeout_cmp q.(abs_ticks)) q.(timeout_heap_inst).(ref_storage) /\
  idx_ok q.(timeout_heap_inst) /\
  (forall t, t ∈ q.(timeout_heap_inst).(ref_storage) ->
     now <= q.(abs_ticks) t <= MAX_TICK /\ t <> NULL).

Lemma timeout_cmp_le abs a b : cmp_le (timeout_cmp abs) a b <-> abs a <= abs b.
Proof.
  unfold cmp_le, timeout_cmp. destruct (Z.ltb_spec (abs a) (abs b)), (Z.ltb_spec (abs b) (abs a)); lia.
Qed.

Lemma timeout_cmp_good abs : good_cmp (timeout_cmp abs).
Proof.
  split.
  - intros x y z. rewrite !timeout_cmp_le. lia.
  - intros x y Hxy. apply timeout_cmp_le. unfold timeout_cmp in Hxy.
    destruct (Z.ltb_spec (abs x) (abs y)), (Z.ltb_spec (abs y) (abs x)); lia.
Qed.

Lemma hlist_fst q : (hlist q).*1 = q.(timeout_heap_inst).(ref_storage).
Proof. unfold hlist. rewrite <- list_fmap_compose. apply list_fmap_id. Qed.

Lemma elem_of_hlist q t e : (t, e) ∈ hlist q <->
  t ∈ q.(timeout_heap_inst).(ref_storage) /\ e = q.(abs_ticks) t.
Proof.
  unfold hlist. rewrite list_elem_of_fmap. split; [intros (x & E & Hx); by simplify_eq|].
  intros [Ht ->]. eauto.
Qed.

Lemma hlist_nodup now q : theap_ok now q -> NoDup (hlist q).*1.
Proof. intros (_ & _ & _ & (Hn & _) & _). by rewrite hlist_fst. Qed.

Lemma hlist_lookup now q t e : theap_ok now q ->
  elist_map (hlist q) !! t = Some e <-> t ∈ q.(timeout_heap_inst).(ref_storage) /\ e = q.(abs_ticks) t.
Proof. intros Hok. rewrite elist_lookup by (by eapply hlist_nodup). apply elem_of_hlist. Qed.

Lemma ordered_ext abs abs' st : (forall t, t ∈ st -> abs' t = abs t) ->
  heap_ordered (timeout_cmp abs) st -> heap_ordered (timeout_cmp abs') st.
Proof.
  intros He Hh j Hj x y Hx Hy. apply timeout_cmp_le.
  rewrite !He by (by eapply list_elem_of_lookup_2). apply timeout_cmp_le. by apply (Hh j).
Qed.

(** The root is the first to expire. *)
Lemma root_first now q : theap_ok now q ->
  match z_timeout_q_root q with
  | None => hlist q = []
  | Some t => elist_map (hlist q) !! t = Some (q.(abs_ticks) t) /\
      not_before (q.(abs_ticks) t) (elist_map (hlist q)) /\
      q.(timeout_heap_inst).(ref_storage) !! 0%nat = Some t
  end.
Proof.
  intros Hok. pose proof Hok as (_ & _ & Hh & _ & _). unfold z_timeout_q_root, min_heap_ref_peek.
  destruct (q.(timeout_heap_inst).(ref_storage)) as [|t st] eqn:E; [unfold hlist; by rewrite E|]. simpl.
  split; [apply (hlist_lookup now); [done|rewrite E; split; [set_solver|done]]|]. split; [|done].
  intros t' e' Ht'. apply (hlist_lookup now) in Ht' as [Hin ->]; [|done]. rewrite E in Hin.
  apply list_elem_of_lookup in Hin as [i Hi]. destruct (timeout_cmp_good q.(abs_ticks)) as [H1 H2].
  apply timeout_cmp_le. by apply (root_least _ H1 H2 (t :: st) t Hh eq_refl i).
Qed.

Lemma idx_first q t : idx_ok q.(timeout_heap_inst) -> t ∈ q.(timeout_heap_inst).(ref_storage) ->
  (q.(timeout_heap_inst).(idx) t =? 1) = true <-> q.(timeout_heap_inst).(ref_storage) !! 0%nat = Some t.
Proof.
  intros (_ & _ & Hi & _) [i Hin]%list_elem_of_lookup. rewrite Z.eqb_eq, (Hi _ _ Hin). split.
  - intros E. by replace i with 0%nat in Hin by lia.
  - intros H0. pose proof (Hi _ _ H0). pose proof (Hi _ _ Hin). lia.
Qed.

Lemma heap_insert_ok now q t d : theap_ok now q ->
  (length q.(timeout_heap_inst).(ref_storage) < q.(timeout_heap_inst).(ref_capacity))%nat ->
  t ∉ q.(timeout_heap_inst).(ref_storage) -> t <> NULL -> 0 <= d -> now + d <= MAX_TICK ->
  let r := z_timeout_q_insert now q t d in
  theap_ok now r.1 /\ elist_map (hlist r.1) = <[t := now + d]> (elist_map (hlist q)) /\
  (r.2 = true <-> not_before (now + d + 1) (elist_map (hlist q))).
Proof.
  intros Hok Hroom Ht Hnull Hd Hmax. pose proof Hok as (Hn & Hcap & Hh & Hi & Hr).
  unfold z_timeout_q_insert. pose proof Hmax as Hmax'. pose proof Hn as Hn'.
  unfold MAX_TICK, INT64_MAX in Hmax', Hn'.
  rewrite (i64_small now), (i64_small (now + d)) by lia.
  set (abs := upd t (now + d) q.(abs_ticks)).
  assert (Ea : abs t = now + d) by apply upd_eq.
  assert (Eo : forall x, x ∈ q.(timeout_heap_inst).(ref_storage) -> abs x = q.(abs_ticks) x).
  { intros x Hx. apply upd_ne. by intros ->. }
  destruct (timeout_cmp_good abs) as [Htr Htot].
  pose proof (ordered_ext q.(abs_ticks) abs _ Eo Hh) as Hh'.
  destruct (ref_push_ok (timeout_cmp abs) Htr Htot q.(timeout_heap_inst) t Hh' Hi Ht Hroom Hcap)
    as (_ & P2 & P3 & P4 & P5).
  pose proof (push_root (timeout_cmp abs) q.(timeout_heap_inst) t Hi Hroom) as Hroot.
  set (heap := (min_heap_ref_push _ _ _).2) in *. simpl.
  assert (Hok' : theap_ok now (Timeout_heap heap abs)).
  { split; [done|]. simpl. rewrite P5. split; [done|]. split; [done|]. split; [done|].
    intros x. rewrite P4. intros [->|Hx]%elem_of_cons; [rewrite Ea; split; [lia|done]|].
    rewrite Eo by done. by apply Hr. }
  split; [done|]. split.
  - apply map_eq. intros x. apply option_eq. intros e. rewrite (hlist_lookup now) by done. simpl.
    rewrite P4, elem_of_cons, lookup_insert_Some, (hlist_lookup now) by done. split.
    + intros [[->|Hx] ->]; [left; by rewrite Ea|right]. rewrite Eo by done. split; [by intros ->|done].
    + intros [[<- <-]|(Hne & Hx & ->)]; [by split; [left|]|]. split; [by right|by rewrite Eo].
  - pose proof (idx_first (Timeout_heap heap abs) t P3) as Hif. simpl in Hif.
    rewrite Hif by (rewrite P4; set_solver). clear Hif. split.
    + intros H0 x e [Hx ->]%(hlist_lookup now); [|done].
      destruct Hroot as [Hempty|(r & Hr0 & Hcase)]; [rewrite Hempty in Hx; set_solver|].
      apply list_elem_of_lookup_2 in Hr0 as Hrin.
      destruct Hcase as [Hc|Hc]; [rewrite H0 in Hc; simplify_eq; done|].
      apply list_elem_of_lookup in Hx as [i Hx].
      pose proof (root_least _ Htr Htot _ r Hh' Hr0 i x Hx) as Hle. apply timeout_cmp_le in Hle.
      apply list_elem_of_lookup_2 in Hx. rewrite !Eo in Hle by done.
      unfold timeout_cmp in Hc. rewrite Ea, Eo in Hc by done.
      destruct (Z.ltb_spec (now + d) (q.(abs_ticks) r)), (Z.ltb_spec (q.(abs_ticks) r) (now + d)); lia.
    + intros Hall. destruct (heap.(ref_storage) !! 0%nat) as [r|] eqn:E0.
      * f_equal. destruct (decide (r = t)) as [|Hne]; [done|exfalso].
        assert (Hrin : r ∈ q.(timeout_heap_inst).(ref_storage)).
        { apply list_elem_of_lookup_2 in E0. rewrite P4 in E0. set_solver. }
        specialize (Hall r (q.(abs_ticks) r)). rewrite (hlist_lookup now) in Hall by done.
        specialize (Hall (conj Hrin eq_refl)).
        assert (Htin : t ∈ heap.(ref_storage)) by (rewrite P4; set_solver).
        apply list_elem_of_lookup in Htin as [i Htin].
        pose proof (root_least _ Htr Htot _ r P2 E0 i t Htin) as Hle. apply timeout_cmp_le in Hle.
        rewrite Ea, Eo in Hle by done. lia.
      * apply lookup_ge_None in E0. rewrite (Permutation_length P4) in E0. simpl in E0. lia.
Qed.

Lemma heap_remove_ok now q t : theap_ok now q -> t ∈ q.(timeout_heap_inst).(ref_storage) ->
  let q' := (z_timeout_q_remove q t).1 in
  theap_ok now q' /\ elist_map (hlist q') = delete t (elist_map (hlist q)).
Proof.
  intros Hok Ht. pose proof Hok as (Hn & Hcap & Hh & Hi & Hr). unfold z_timeout_q_remove. simpl.
  destruct (timeout_cmp_good q.(abs_ticks)) as [Htr Htot].
  destruct (ref_remove_ok _ Htr Htot q.(timeout_heap_inst) t Hh Hi Ht) as (_ & P2 & P3 & P4 & P5).
  set (heap := (min_heap_ref_remove _ _ _).2) in *.
  assert (Hnd : NoDup (t :: heap.(ref_storage))) by (rewrite <- P4; apply Hi).
  apply NoDup_cons in Hnd as [Hnt _].
  assert (Hok' : theap_ok now (Timeout_heap heap q.(abs_ticks))).
  { split; [done|]. simpl. rewrite P5. split; [done|]. split; [done|]. split; [done|].
    intros x Hx. apply Hr. rewrite P4. set_solver. }
  split; [done|]. apply map_eq. intros x. apply option_eq. intros e.
  rewrite (hlist_lookup now), lookup_delete_Some, (hlist_lookup now) by done. simpl.
  rewrite P4, elem_of_cons. split; [|naive_solver]. intros [Hx ->]. split; [by intros ->|auto].
Qed.

(** ** The heap is a timeout queue *)

#[local, refine] Instance minheap_backend : TimeoutBackend := {
  tq := timeout_heap;
  tq_active q t := negb (q.(timeout_heap_inst).(idx) t =? 0);
  tq_insert := z_timeout_q_insert;
  tq_remove _ := z_timeout_q_remove;
  tq_remainder := z_timeout_q_remainder;
  tq_next_expiry := z_timeout_q_next_expiry;
  tq_next_gap := z_timeout_q_next_gap;
  tq_advance _ := z_timeout_q_advance;
  tq_pop_due := z_timeout_q_pop_due;
  tq_ok now q m := theap_ok now q /\ m = elist_map (hlist q);
  tq_room q := (length q.(timeout_heap_inst).(ref_storage) < q.(timeout_heap_inst).(ref_capacity))%nat
}.
Proof.
  - intros now q m [Hok ->]. pose proof Hok as (Hn & _ & _ & _ & Hr). split; [lia|].
    split; intros t e [Ht ->]%(hlist_lookup now); try done; specialize (Hr t Ht) as [? ?];
      [split; [lia|done]|lia].
  - intros now q m t [Hok ->]. pose proof Hok as (_ & _ & _ & (_ & _ & Hi & Ho) & _).
    destruct (decide (t ∈ q.(timeout_heap_inst).(ref_storage))) as [Ht|Ht].
    + rewrite bool_decide_eq_true_2 by (eexists; by apply (hlist_lookup now)).
      apply list_elem_of_lookup in Ht as [i Ht]. rewrite (Hi _ _ Ht).
      apply negb_true_iff, Z.eqb_neq. lia.
    + rewrite bool_decide_eq_false_2; [by rewrite Ho|].
      intros [e [Ht' _]%(hlist_lookup now)]; done.
  - intros now q m t d [Hok ->] Hroom Ht Hnull Hd Hmax. apply elist_none in Ht. rewrite hlist_fst in Ht.
    destruct (heap_insert_ok now q t d Hok Hroom Ht Hnull Hd Hmax) as (H1 & H2 & H3).
    split; [by split|]. by intros _ _.
  - intros now q m t e [Hok ->] [Ht ->]%(hlist_lookup now); [|done].
    destruct (heap_remove_ok now q t Hok Ht) as [H1 H2]. split; [by split|].
    intros _ Hb. pose proof Hok as (_ & _ & _ & Hi & _). pose proof (root_first now q Hok) as Hf.
    destruct (z_timeout_q_root q) as [r|]; [|exfalso; apply (f_equal (fmap fst)) in Hf; rewrite hlist_fst in Hf; simpl in Hf; rewrite Hf in Ht; set_solver].
    destruct Hf as (Hr & Hmin & H0). exists r, (q.(abs_ticks) r). split; [|split; [done|]].
    + intros ->. simpl in Hb. rewrite (proj2 (idx_first q t Hi Ht)) in Hb; done.
    + by apply (Hmin t), (hlist_lookup now).
  - intros now q m t e [Hok ->] [Ht ->]%(hlist_lookup now); [|done].
    pose proof Hok as (Hn & _ & _ & _ & Hr). specialize (Hr t Ht) as [? _].
    unfold z_timeout_q_remainder, MAX_TICK, INT64_MAX in *. rewrite (i64_small now), i64_small; lia.
  - intros now q m [Hok ->] _. pose proof (root_first now q Hok) as Hf. unfold z_timeout_q_next_expiry.
    destruct (z_timeout_q_root q) as [t|]; [right|left; by rewrite Hf]. destruct Hf as (Ht & Hmin & _).
    exists t, (q.(abs_ticks) t). split; [done|]. split; [done|].
    apply (hlist_lookup now) in Ht as [Ht _]; [|done].
    pose proof Hok as (Hn & _ & _ & _ & Hr). specialize (Hr t Ht) as [? _].
    unfold MAX_TICK, INT64_MAX in *. rewrite (i64_small now), i64_small; lia.
  - intros now q m [Hok ->] _. pose proof (root_first now q Hok) as Hf. unfold z_timeout_q_next_gap.
    destruct (z_timeout_q_root q) as [t|]; [right|left; by rewrite Hf]. destruct Hf as (Ht & Hmin & _).
    exists t, (q.(abs_ticks) t). split; [done|]. split; [done|].
    apply (hlist_lookup now) in Ht as [Ht _]; [|done].
    pose proof Hok as (Hn & _ & _ & _ & Hr). specialize (Hr t Ht) as [? _].
    unfold MAX_TICK, INT64_MAX, INT32_MAX in *. rewrite (i64_small now), (i64_small (_ - _)), i32_small; lia.
  - intros now q m d [Hok ->] _ Hd Hnb Hmax. split; [|done]. pose proof Hok as (Hn & Hcap & Hh & Hi & Hr).
    split; [lia|]. split; [done|]. split; [done|]. split; [done|]. intros t Ht.
    specialize (Hr t Ht) as [? ?]. split; [|done]. specialize (Hnb t (q.(abs_ticks) t)).
    rewrite (hlist_lookup now) in Hnb by done. specialize (Hnb (conj Ht eq_refl)). unfold z_timeout_q_advance. lia.
  - intros now q m [Hok ->]. pose proof (root_first now q Hok) as Hf. unfold z_timeout_q_pop_due.
    pose proof Hok as (Hn & _ & _ & _ & Hr).
    destruct (z_timeout_q_root q) as [t|]; [|rewrite Hf; by intros ? ?]. destruct Hf as (Ht & Hmin & H0).
    rewrite i64_small by (unfold MAX_TICK, INT64_MAX in *; lia).
    destruct (Z.ltb_spec now (q.(abs_ticks) t)); [eapply not_before_weaken; [done|lia]|].
    apply (hlist_lookup now) in Ht as [Ht _]; [|done]. specialize (Hr t Ht) as [? _].
    destruct (heap_remove_ok now q t Hok Ht) as [Hok' Hm']. unfold min_heap_ref_pop.
    destruct q.(timeout_heap_inst).(ref_storage) as [|r st] eqn:E; [done|]. simplify_eq/=.
    split; [apply (hlist_lookup now); [done|rewrite E; split; [set_solver|lia]]|]. by split.
Defined.
