(* ===== verification/TimeoutProps.v ===== *)
(** Properties of the timeout subsystem: the front end of kernel/timeout.c on any
    timeout queue, and the agreement of the queues with each other. *)

From S2P Require Import Prelude Thread Timeout TimeoutOrder TimeoutList TimeoutBucket TimeoutMinheap.
From stdpp Require Import gmap.
#[local] Open Scope Z_scope.

(** ** A concrete clock: the delta list with two timeouts *)

#[local] Existing Instance example_config.
#[local] Existing Instance delta_list_backend.

Definition idle_handler (f : nat) (t : toid) (s : clock) : clock := s.

Definition clock0 : clock :=
  Clock _ (Delta_list [] (fun _ => 0)) (fun _ => O) 100 0 (-1) NULL 2 None.

Definition clock1 : clock := (z_add_timeout 8 O 3 (z_add_timeout 16 O 10 clock0).2).2.

Lemma clock0_ok : clock_ok clock0 ∅.
Proof.
  split; [|split].
  - split; [|done]. split; [done|]. split; [constructor|]. repeat constructor; set_solver.
  - left. split; [done|]. by intros ? ?.
  - done.
Qed.

Lemma small_delay (s : clock) timeout : s.(curr_tick) = 100 -> s.(announcing_cpu) = -1 ->
  s.(hw_elapsed) = 2 -> 0 <= timeout < 1000 ->
  delay_ok s timeout /\ due_tick s timeout = 103 + timeout.
Proof.
  intros Hc Ha He Ht.
  assert (E : due_tick s timeout = 103 + timeout).
  { unfold due_tick, Z_IS_TIMEOUT_RELATIVE, elapsed, this_cpu_announcing, sys_clock_elapsed.
    rewrite Hc, Ha, He. replace (0 <=? timeout) with true by (symmetry; apply Z.leb_le; lia).
    change (-1 =? CPU_ID) with false. change (u32 2) with 2. cbv iota. lia. }
  split; [|done]. split; [unfold K_FOREVER, K_TICKS_FOREVER; lia|]. split; [lia|].
  rewrite E, Hc. unfold MAX_TICK, INT64_MAX. lia.
Qed.

Lemma clock1_ok : clock_ok clock1 (<[8 := 106]> (<[16 := 113]> ∅)) /\ armed clock1 (<[8 := 106]> (<[16 := 113]> ∅)).
Proof.
  destruct (small_delay clock0 10) as [D0 E0]; [done..|lia|].
  destruct (add_ok clock0 ∅ 16 O 10 clock0_ok) as (H1 & (T1 & T2 & T3 & T4) & _ & A1); [done|done|done|done|].
  rewrite E0 in H1, A1. set (s1 := (z_add_timeout 16 O 10 clock0).2) in *.
  destruct (small_delay s1 3) as [D1 E1]; [by rewrite T1|by rewrite T3|by rewrite T4|lia|].
  destruct (add_ok s1 _ 8 O 3 H1) as (H2 & _ & _ & A2); [done|done|done|done|].
  rewrite E1 in H2, A2. split; [exact H2|]. apply A2; [by unfold any_cpu_announcing; rewrite T3|].
  apply A1; [done|]. by intros ? ?.
Qed.

Lemma idle_handlers : handlers_ok idle_handler /\ forall t, undisturbed idle_handler t.
Proof. split; [intros f t s; apply rtc_refl|]. intros t f t' s _. apply rtc_refl. Qed.

(** ** Announcing *)



(** ** Adding and aborting *)

(** [z_add_timeout] arms an inactive timeout, on every timeout queue: a
    relative request of [n] ticks expires [n] ticks and one rounding tick after
    the present tick ([n] ticks after the firing tick inside a handler), an
    absolute one at its tick or at the next tick if that is past; no other
    timeout changes; a K_FOREVER request does nothing; and the driver stays
    programmed for the first expiry at the latest. *)
Theorem add_timeout_arms `{Config} {TB : TimeoutBackend} (s : clock) (m : gmap toid Z)
    (to : toid) (f : nat) (timeout : Z) :
  clock_ok s m -> m !! to = None -> to <> NULL -> tq_room s.(queue) ->
  z_add_timeout to f K_FOREVER s = (0, s) /\
  (delay_ok s timeout ->
   let due := if Z_IS_TIMEOUT_RELATIVE timeout
              then s.(curr_tick) + timeout + elapsed s + (if this_cpu_announcing s then 0 else 1)
              else Z.max (s.(curr_tick) + 1) (Z_TICK_ABS timeout) in
   let s' := (z_add_timeout to f timeout s).2 in
   clock_ok s' (<[to := due]> m) /\ same_time s s' /\
   (any_cpu_announcing s = false -> armed s m -> armed s' (<[to := due]> m))).
Proof.
  intros Hok Hn Hnull Hroom. split; [done|]. intros Hd.
  destruct (add_ok s m to f timeout Hok Hn Hnull Hroom Hd) as (H1 & H2 & _ & H3). done.
Qed.

Lemma add_timeout_arms_witness :
  armed (z_add_timeout 24 O 0 clock1).2 (<[24 := 103]> (<[8 := 106]> (<[16 := 113]> ∅))).
Proof.
  destruct (add_timeout_arms clock1 _ 24 O 0 (proj1 clock1_ok)) as [_ H].
  - reflexivity.
  - by vm_compute.
  - exact I.
  - destruct H as (_ & _ & H); [by apply small_delay; vm_compute|].
    apply H; [reflexivity|exact (proj2 clock1_ok)].
Defined.

(** [z_try_abort_timeout], on every timeout queue: an active timeout is
    removed and 0 returned, an inactive one gives -EINVAL and changes nothing in
    the queue; no other timeout moves; the driver stays programmed for the first
    expiry; and aborting the timeout whose handler is in flight, and only that
    one, marks the dispatch as superseded. *)
Theorem abort_timeout_removes `{Config} {TB : TimeoutBackend} (s : clock) (m : gmap toid Z) (to : toid) :
  clock_ok s m ->
  let r := z_try_abort_timeout to s in
  r.1 = (if decide (m !! to = None) then - EINVAL else 0) /\
  clock_ok r.2 (delete to m) /\ same_time s r.2 /\
  (any_cpu_announcing s = false -> armed s m -> armed r.2 (delete to m)) /\
  (forall t, Z.even t = true -> s.(inflight_timeout) = t ->
     z_timeout_inflight_superseded s t = false /\
     z_timeout_inflight_superseded r.2 t = bool_decide (to = t)).
Proof.
  intros Hok r. destruct (abort_ok s m to Hok) as (H1 & H2 & H3 & H4 & H5).
  split; [done|]. split; [done|]. split; [done|]. split; [done|].
  intros t He Hi. split; [by apply not_superseded|].
  assert (Hp : inflight_ptr s = t) by (apply inflight_even; [done|by left]).
  rewrite Hp in H4. destruct (Z.eqb_spec t to) as [<-|Hne].
  - rewrite bool_decide_eq_true_2 by done. unfold z_timeout_inflight_superseded.
    fold r in H4. rewrite H4, Hi. apply Z.eqb_refl.
  - rewrite bool_decide_eq_false_2 by congruence. apply not_superseded; [done|]. fold r in H4. congruence.
Qed.

Lemma abort_timeout_removes_witness :
  (z_try_abort_timeout 8 clock1).1 = 0 /\
  armed (z_try_abort_timeout 8 clock1).2 (delete (8 : toid) (<[8 := 106]> (<[16 := 113]> ∅))).
Proof.
  destruct (abort_timeout_removes clock1 _ 8 (proj1 clock1_ok)) as (H1 & _ & _ & H2 & _).
  split; [exact H1|]. apply H2; [reflexivity|exact (proj2 clock1_ok)].
Defined.

(** ** Queries *)

(** The time queries agree with the pending expiries, on every timeout queue:
    [z_timeout_expires] gives the expiry and [z_timeout_remaining] what is left
    of it, the current tick and 0 for an inactive timeout; a time point computed
    from a relative timeout of [n > 0] ticks, read back at any later time, gives
    the ticks still left, never a negative number; K_FOREVER and K_NO_WAIT
    survive the round trip. *)
Theorem time_queries_agree `{Config} {TB : TimeoutBackend} (s s' : clock) (m m' : gmap toid Z) :
  clock_ok s m -> clock_ok s' m' ->
  s.(curr_tick) + elapsed s <= s'.(curr_tick) + elapsed s' <= MAX_TICK ->
  (forall t, match m !! t with
     | Some e => z_timeout_remaining s t = e - s.(curr_tick) - elapsed s /\ z_timeout_expires s t = e
     | None => z_timeout_remaining s t = 0 /\ z_timeout_expires s t = i64 s.(curr_tick)
     end) /\
  (forall n, 0 < n -> s.(curr_tick) + elapsed s + n <= MAX_TICK ->
     sys_timepoint_timeout s' (sys_timepoint_calc s n) =
       Z.max 0 (n - (s'.(curr_tick) + elapsed s' - (s.(curr_tick) + elapsed s)))) /\
  sys_timepoint_timeout s' (sys_timepoint_calc s K_FOREVER) = K_FOREVER /\
  sys_timepoint_timeout s' (sys_timepoint_calc s K_NO_WAIT) = K_NO_WAIT.
Proof.
  intros Hok Hok' Hle. split; [intros t; by apply queries_ok|]. split; [|done].
  intros n Hn Hmax. pose proof (elapsed_range s m Hok) as [He _].
  destruct (tq_ok_expiries _ _ _ (proj1 Hok)) as (Hc & _).
  pose proof (tick_get_ok s m Hok ltac:(lia)) as E1. pose proof (tick_get_ok s' m' Hok' ltac:(lia)) as E2.
  unfold sys_timepoint_calc, K_FOREVER, K_TICKS_FOREVER, K_NO_WAIT, Z_IS_TIMEOUT_RELATIVE, MAX_TICK, INT64_MAX in *.
  rewrite (proj2 (Z.eqb_neq n (-1))), (proj2 (Z.eqb_neq n 0)), (proj2 (Z.leb_le 0 n)), E1 by lia.
  rewrite Z.max_r, u64_small by lia. unfold sys_timepoint_timeout, UINT64_MAX. rewrite E2.
  rewrite (proj2 (Z.eqb_neq _ (2 ^ 64 - 1))), (proj2 (Z.eqb_neq _ 0)) by lia.
  rewrite u64_small by lia. destruct (Z.ltb_spec (s'.(curr_tick) + elapsed s') (s.(curr_tick) + elapsed s + n));
    rewrite i64_small; lia.
Qed.

Lemma time_queries_agree_witness :
  z_timeout_remaining clock1 8 = 4 /\ sys_timepoint_timeout clock1 (sys_timepoint_calc clock1 50) = 50.
Proof.
  destruct (time_queries_agree clock1 clock1 _ _ (proj1 clock1_ok) (proj1 clock1_ok)) as (H1 & H2 & _).
  - by vm_compute.
  - split; [exact (proj1 (H1 8))|]. rewrite H2; [reflexivity|lia|by vm_compute].
Defined.

(** ** The buckets and the delta list *)

(** Both queues hold the same timeouts in the same firing order. *)
Definition same_queue (k now : Z) (qb : TimeoutBucket.buckets) (qd : delta_list) : Prop :=
  bucket_ok k now qb /\ delta_ok now qd /\
  belist k qb = expiries qd.(TimeoutList.dticks) now qd.(timeout_list).

Lemma head_remove (t : toid) (now : Z) (el : elist) : elist_ok now el -> head el = Some (t, now) ->
  el = (t, now) :: elist_remove t el.
Proof.
  intros (Hn & _) Hh. destruct el as [|x el]; [done|]. simplify_eq/=.
  apply NoDup_cons in Hn as [Ht _]. unfold elist_remove. rewrite filter_cons_False by naive_solver.
  rewrite filter_id; [done|]. intros [x e] Hx. simpl. intros ->. apply Ht, elist_elem. eauto.
Qed.

Lemma same_pop k now qb qd : 0 <= k <= 6 -> same_queue k now qb qd ->
  match TimeoutBucket.z_timeout_q_pop_due k now qb, TimeoutList.z_timeout_q_pop_due qd with
  | None, None => True
  | Some (t, qb'), Some (t', qd') => t = t' /\ same_queue k now qb' qd'
  | _, _ => False
  end.
Proof.
  intros Hk (Hb & Hd & E). pose proof (bucket_pop_ok k Hk now qb Hb) as Pb.
  pose proof (TimeoutList.pop_ok now qd Hd) as Pd.
  pose proof (bucket_pop_first k Hk now qb) as Pf. pose proof Hb as (_ & _ & _ & _ & Hel).
  destruct (TimeoutBucket.z_timeout_q_pop_due k now qb) as [[t qb']|] eqn:Eb,
    (TimeoutList.z_timeout_q_pop_due qd) as [[t' qd']|] eqn:Ed; try done.
  - destruct Pb as (_ & Hb' & Eb'), Pd as (Hd' & Ed'). specialize (Pf t qb' Hb eq_refl).
    pose proof (head_remove t now _ Hel Pf) as Eh. rewrite E, Ed' in Eh. simplify_eq.
    split; [done|]. split; [done|]. split; [done|]. rewrite Eb', E, Ed'. congruence.
  - destruct Pb as (Hin & _). rewrite <- E in Pd. destruct Hel as (Hn & _).
    apply elist_lookup in Hin; [|done]. specialize (Pd _ _ Hin). lia.
  - destruct Pd as (_ & Ed'). rewrite <- E in Ed'. destruct Hel as (Hn & _).
    specialize (Pb t' now). rewrite elist_lookup, Ed' in Pb by done. specialize (Pb ltac:(set_solver)). lia.
Qed.


