(* ===== verification/Sched.v ===== *)
(** The scheduler on one CPU: kernel/sched.c, kernel/scheduler.c,
    kernel/sleep.c, kernel/timeslicing.c and the inline helpers of
    kernel/include (run_q.h, metairq.h, ksched.h, kswap.h, wait_q.h).

    [kernel] is the state the scheduler works on: the thread objects, the run
    queue (any [RunQueue]), the wait queues ([_wait_q_t] with
    CONFIG_WAITQ_SIMPLE: a priority-ordered list), the cached next thread, the
    running thread and the timeout subsystem (any [TimeoutBackend]).  A call runs
    under the scheduler's spinlock with interrupts masked, so each operation is
    one function on the state.  The branches of CONFIG_SMP, the IPIs and the
    usage statistics are compiled out. *)

From S2P Require Import Prelude Thread PriorityQ Timeout.

#[local] Open Scope Z_scope.

Record kernel `{Cfg : Config} {RQ : RunQueue} {TB : TimeoutBackend} := Kernel {
  threads : tid -> k_thread;
  runq : rq;
  waitqs : wqid -> list tid;
  cache : tid;
  current : tid;
  idle_thread : tid;
  thread_dummy : tid;
  metairq_preempted : option tid;
  in_isr : bool;
  irq_locked : bool;
  clk : clock;
  slice_ticks : Z;
  slice_max_prio : Z;
  slice_expired : bool;
  pending_current : option tid;
  panicked : bool
}.

(** What a call that may block does for its caller: it returns a value, or the
    caller is switched out and takes its value from [swap_retval] when it runs
    again, or the call is a fatal error. *)
Inductive outcome := Returns (v : Z) | Blocks | Panics.

(** The addresses of the timeouts the scheduler owns, and its handlers. *)
Definition SLICE_TIMEOUT : toid := 2.
Definition thread_timeout (t : tid) : toid := 4 * Z.of_nat (S t).
Definition FN_thread_timeout : nat := 1.
Definition FN_slice_timeout : nat := 2.

Section sched.
Context `{Cfg : Config} {RQ : RunQueue} {TB : TimeoutBackend}.

Definition with_threads (v : tid -> k_thread) (k : kernel) : kernel :=
  Kernel _ _ _ v k.(runq) k.(waitqs) k.(cache) k.(current) k.(idle_thread) k.(thread_dummy) k.(metairq_preempted) k.(in_isr) k.(irq_locked) k.(clk) k.(slice_ticks) k.(slice_max_prio) k.(slice_expired) k.(pending_current) k.(panicked).
Definition with_runq (v : rq) (k : kernel) : kernel :=
  Kernel _ _ _ k.(threads) v k.(waitqs) k.(cache) k.(current) k.(idle_thread) k.(thread_dummy) k.(metairq_preempted) k.(in_isr) k.(irq_locked) k.(clk) k.(slice_ticks) k.(slice_max_prio) k.(slice_expired) k.(pending_current) k.(panicked).
Definition with_waitqs (v : wqid -> list tid) (k : kernel) : kernel :=
  Kernel _ _ _ k.(threads) k.(runq) v k.(cache) k.(current) k.(idle_thread) k.(thread_dummy) k.(metairq_preempted) k.(in_isr) k.(irq_locked) k.(clk) k.(slice_ticks) k.(slice_max_prio) k.(slice_expired) k.(pending_current) k.(panicked).
Definition with_cache (v : tid) (k : kernel) : kernel :=
  Kernel _ _ _ k.(threads) k.(runq) k.(waitqs) v k.(current) k.(idle_thread) k.(thread_dummy) k.(metairq_preempted) k.(in_isr) k.(irq_locked) k.(clk) k.(slice_ticks) k.(slice_max_prio) k.(slice_expired) k.(pending_current) k.(panicked).
Definition with_current (v : tid) (k : kernel) : kernel :=
  Kernel _ _ _ k.(threads) k.(runq) k.(waitqs) k.(cache) v k.(idle_thread) k.(thread_dummy) k.(metairq_preempted) k.(in_isr) k.(irq_locked) k.(clk) k.(slice_ticks) k.(slice_max_prio) k.(slice_expired) k.(pending_current) k.(panicked).
Definition with_metairq_preempted (v : option tid) (k : kernel) : kernel :=
  Kernel _ _ _ k.(threads) k.(runq) k.(waitqs) k.(cache) k.(current) k.(idle_thread) k.(thread_dummy) v k.(in_isr) k.(irq_locked) k.(clk) k.(slice_ticks) k.(slice_max_prio) k.(slice_expired) k.(pending_current) k.(panicked).
Definition with_in_isr (v : bool) (k : kernel) : kernel :=
  Kernel _ _ _ k.(threads) k.(runq) k.(waitqs) k.(cache) k.(current) k.(idle_thread) k.(thread_dummy) k.(metairq_preempted) v k.(irq_locked) k.(clk) k.(slice_ticks) k.(slice_max_prio) k.(slice_expired) k.(pending_current) k.(panicked).
Definition with_irq_locked (v : bool) (k : kernel) : kernel :=
  Kernel _ _ _ k.(threads) k.(runq) k.(waitqs) k.(cache) k.(current) k.(idle_thread) k.(thread_dummy) k.(metairq_preempted) k.(in_isr) v k.(clk) k.(slice_ticks) k.(slice_max_prio) k.(slice_expired) k.(pending_current) k.(panicked).
Definition with_clk (v : clock) (k : kernel) : kernel :=
  Kernel _ _ _ k.(threads) k.(runq) k.(waitqs) k.(cache) k.(current) k.(idle_thread) k.(thread_dummy) k.(metairq_preempted) k.(in_isr) k.(irq_locked) v k.(slice_ticks) k.(slice_max_prio) k.(slice_expired) k.(pending_current) k.(panicked).
Definition with_slice_ticks (v : Z) (k : kernel) : kernel :=
  Kernel _ _ _ k.(threads) k.(runq) k.(waitqs) k.(cache) k.(current) k.(idle_thread) k.(thread_dummy) k.(metairq_preempted) k.(in_isr) k.(irq_locked) k.(clk) v k.(slice_max_prio) k.(slice_expired) k.(pending_current) k.(panicked).
Definition with_slice_max_prio (v : Z) (k : kernel) : kernel :=
  Kernel _ _ _ k.(threads) k.(runq) k.(waitqs) k.(cache) k.(current) k.(idle_thread) k.(thread_dummy) k.(metairq_preempted) k.(in_isr) k.(irq_locked) k.(clk) k.(slice_ticks) v k.(slice_expired) k.(pending_current) k.(panicked).
Definition with_slice_expired (v : bool) (k : kernel) : kernel :=
  Kernel _ _ _ k.(threads) k.(runq) k.(waitqs) k.(cache) k.(current) k.(idle_thread) k.(thread_dummy) k.(metairq_preempted) k.(in_isr) k.(irq_locked) k.(clk) k.(slice_ticks) k.(slice_max_prio) v k.(pending_current) k.(panicked).
Definition with_pending_current (v : option tid) (k : kernel) : kernel :=
  Kernel _ _ _ k.(threads) k.(runq) k.(waitqs) k.(cache) k.(current) k.(idle_thread) k.(thread_dummy) k.(metairq_preempted) k.(in_isr) k.(irq_locked) k.(clk) k.(slice_ticks) k.(slice_max_prio) k.(slice_expired) v k.(panicked).
Definition with_panicked (v : bool) (k : kernel) : kernel :=
  Kernel _ _ _ k.(threads) k.(runq) k.(waitqs) k.(cache) k.(current) k.(idle_thread) k.(thread_dummy) k.(metairq_preempted) k.(in_isr) k.(irq_locked) k.(clk) k.(slice_ticks) k.(slice_max_prio) k.(slice_expired) k.(pending_current) v.

Definition thr (k : kernel) (t : tid) : k_thread := k.(threads) t.
Definition on_thread (t : tid) (f : k_thread -> k_thread) (k : kernel) : kernel :=
  with_threads (upd t (f (thr k t)) k.(threads)) k.
Definition on_waitq (w : wqid) (f : list tid -> list tid) (k : kernel) : kernel :=
  with_waitqs (upd w (f (k.(waitqs) w)) k.(waitqs)) k.
Definition cur (k : kernel) : k_thread := thr k k.(current).
Definition k_panic (k : kernel) : kernel := with_panicked true k.
Definition z_is_idle_thread_object (k : kernel) (t : tid) : bool := (t =? k.(idle_thread))%nat.

(** ** run_q.h *)

Definition runq_add (t : tid) (k : kernel) : kernel :=
  with_runq (rq_add k.(threads) k.(runq) t) k.
Definition runq_remove (t : tid) (k : kernel) : kernel :=
  with_runq (rq_remove k.(threads) k.(runq) t) k.
Definition runq_yield (k : kernel) : kernel :=
  with_runq (rq_yield k.(threads) k.(runq) k.(current)) k.
Definition runq_best (k : kernel) : option tid := rq_best k.(runq).

Definition queue_thread (t : tid) (k : kernel) : kernel :=
  runq_add t (on_thread t z_mark_thread_as_queued k).
Definition dequeue_thread (t : tid) (k : kernel) : kernel :=
  runq_remove t (on_thread t z_mark_thread_as_not_queued k).

(** ** metairq.h *)

Definition update_metairq_preempt (t : tid) (k : kernel) : kernel :=
  if 0 <? CONFIG_NUM_METAIRQ_PRIORITIES then
    if thread_is_metairq (thr k t) && negb (thread_is_metairq (cur k)) &&
       negb (thread_is_preemptible (cur k))
    then with_metairq_preempted (Some k.(current)) k
    else if negb (thread_is_metairq (thr k t)) then with_metairq_preempted None k
    else k
  else k.

Definition metairq_preempt_recover (t : option tid) (k : kernel) : option tid * kernel :=
  if 0 <? CONFIG_NUM_METAIRQ_PRIORITIES then
    match k.(metairq_preempted) with
    | Some mirqp =>
        if match t with None => true | Some t => negb (thread_is_metairq (thr k t)) end
        then if z_is_thread_ready (thr k mirqp) then (Some mirqp, k)
             else (t, with_metairq_preempted None k)
        else (t, k)
    | None => (t, k)
    end
  else (t, k).

Definition z_metairq_preempted_clear (t : tid) (k : kernel) : kernel :=
  if 0 <? CONFIG_NUM_METAIRQ_PRIORITIES then
    if decide (k.(metairq_preempted) = Some t) then with_metairq_preempted None k else k
  else k.

(** ** Thread timeouts (timeout_q.h) *)

Definition z_add_thread_timeout (t : tid) (timeout : Z) (k : kernel) : Z * kernel :=
  let '(ticks, c) := z_add_timeout (thread_timeout t) FN_thread_timeout timeout k.(clk) in
  (ticks, with_clk c k).
Definition z_try_abort_thread_timeout (t : tid) (k : kernel) : Z * kernel :=
  let '(ret, c) := z_try_abort_timeout (thread_timeout t) k.(clk) in (ret, with_clk c k).
Definition z_is_thread_timeout_active (k : kernel) (t : tid) : bool :=
  negb (z_is_inactive_timeout k.(clk) (thread_timeout t)).

(** ** Time slices (timeslicing.c, without CONFIG_TIMESLICE_PER_THREAD) *)

Definition slice_time (k : kernel) : Z := k.(slice_ticks).

Definition z_time_slice_size (t : tid) (k : kernel) : Z :=
  if z_is_thread_prevented_from_running (thr k t) || z_is_idle_thread_object k t ||
     (slice_time k =? 0)
  then 0
  else if thread_is_preemptible (thr k t) &&
          negb (z_is_prio_higher (thr k t).(prio) k.(slice_max_prio))
  then k.(slice_ticks) else 0.

Definition slice_timeout (k : kernel) : kernel := with_slice_expired true k.

Definition slice_reset (slice_size : Z) (k : kernel) : kernel :=
  let k1 := with_clk (z_try_abort_timeout SLICE_TIMEOUT k.(clk)).2 k in
  let k2 :=
    if negb (slice_size =? 0) then
      let delay := if k1.(slice_expired) then slice_size - 1 else slice_size in
      with_clk (z_add_timeout SLICE_TIMEOUT FN_slice_timeout delay k1.(clk)).2 k1
    else k1 in
  with_slice_expired false k2.

Definition z_time_slice_reset (t : tid) (k : kernel) : kernel :=
  slice_reset (z_time_slice_size t k) k.

(** ** Choosing the next thread *)

(** kthread.h *)
Definition should_preempt (t : tid) (preempt_ok : bool) (k : kernel) : bool :=
  if preempt_ok then true
  else if z_is_thread_prevented_from_running (cur k) then true
  else if thread_is_preemptible (cur k) || thread_is_metairq (thr k t) then true
  else if CONFIG_SWAP_NONATOMIC && z_is_thread_timeout_active k t then true
  else false.

Definition next_up (k : kernel) : tid * kernel :=
  let '(t, k1) := metairq_preempt_recover (runq_best k) k in
  (match t with Some t => t | None => k1.(idle_thread) end, k1).

Definition update_cache (preempt_ok : bool) (k : kernel) : kernel :=
  let '(t, k1) := next_up k in
  if should_preempt t preempt_ok k1 then
    let k2 := if CONFIG_TIMESLICING && negb (t =? k1.(current))%nat
              then z_time_slice_reset t k1 else k1 in
    with_cache t (update_metairq_preempt t k2)
  else with_cache k1.(current) k1.

Definition move_current_to_end_of_prio_q (k : kernel) : kernel :=
  update_cache true (runq_yield k).

Definition ready_thread (t : tid) (k : kernel) : kernel :=
  if negb (z_is_thread_queued (thr k t)) && z_is_thread_ready (thr k t)
  then update_cache false (queue_thread t k) else k.

Definition z_ready_thread (t : tid) (k : kernel) : kernel := ready_thread t k.

Definition unready_thread (t : tid) (k : kernel) : kernel :=
  let k1 := if z_is_thread_queued (thr k t) then dequeue_thread t k else k in
  update_cache (t =? k1.(current))%nat k1.

Definition z_unready_thread (t : tid) (k : kernel) : kernel := unready_thread t k.
Definition z_yield_testing_only (k : kernel) : kernel := move_current_to_end_of_prio_q k.

(** ** Context switch (kswap.h) *)

(** [do_swap] on one CPU: the thread stays in the run queue if it is ready, and
    the cached thread becomes the running one. *)
Definition do_swap (k : kernel) : kernel :=
  let old_thread := k.(current) in
  let k1 := on_thread old_thread (set_swap_retval (- EAGAIN)) k in
  let new_thread := k1.(cache) in
  if (new_thread =? old_thread)%nat then k1
  else let k2 := with_current new_thread k1 in
       if CONFIG_TIMESLICING then z_time_slice_reset new_thread k2 else k2.

(** What [z_swap] is for the thread that called it. *)
Definition z_swap (k : kernel) : outcome * kernel :=
  let k' := do_swap k in
  (if (k'.(current) =? k.(current))%nat then Returns (cur k').(swap_retval) else Blocks, k').

Definition resched (k : kernel) : bool := negb k.(irq_locked) && negb k.(in_isr).
Definition need_swap (k : kernel) : bool := negb (k.(cache) =? k.(current))%nat.
Definition reschedule (k : kernel) : kernel :=
  if resched k && need_swap k then do_swap k else k.
Definition reschedule_locked (k : kernel) : kernel := reschedule k.
Definition z_reschedule_irqlock (k : kernel) : kernel :=
  if resched k && need_swap k then do_swap k else k.
Definition z_reschedule_unlocked (k : kernel) : kernel := z_reschedule_irqlock k.
Definition z_sched_lock_reschedule (k : kernel) : kernel :=
  reschedule_locked (update_cache false k).
Definition z_sched_yield (k : kernel) : kernel := do_swap (update_cache true (runq_yield k)).

(** The switch at the end of an interrupt ([z_get_next_switch_handle]). *)
Definition z_get_next_switch_handle (k : kernel) : kernel := with_current k.(cache) k.
Definition z_sched_next_handle (k : kernel) : kernel :=
  if (k.(current) =? k.(cache))%nat then k else z_get_next_switch_handle k.

(** ** Wait queues *)

Definition z_waitq_init (w : wqid) (k : kernel) : kernel := on_waitq w (fun _ => []) k.
Definition z_waitq_head (w : wqid) (k : kernel) : option tid := head (k.(waitqs) w).
Definition _priq_wait_add (w : wqid) (t : tid) (k : kernel) : kernel :=
  on_waitq w (fun q => z_priq_simple_add k.(threads) q t) k.
Definition _priq_wait_remove (w : wqid) (t : tid) (k : kernel) : kernel :=
  on_waitq w (fun q => z_priq_simple_remove q t) k.
Definition _priq_wait_best (w : wqid) (k : kernel) : option tid := z_priq_simple_best (k.(waitqs) w).

Definition add_to_waitq_locked (t : tid) (wait_q : option wqid) (k : kernel) : kernel :=
  let k1 := on_thread t z_mark_thread_as_pending (unready_thread t k) in
  match wait_q with
  | Some w => _priq_wait_add w t (on_thread t (set_pended_on (Some w)) k1)
  | None => k1
  end.

Definition pend_locked (t : tid) (wait_q : option wqid) (timeout : Z) (k : kernel) : kernel :=
  (z_add_thread_timeout t timeout (add_to_waitq_locked t wait_q k)).2.

Definition z_pend_thread (t : tid) (wait_q : option wqid) (timeout : Z) (k : kernel) : kernel :=
  pend_locked t wait_q timeout k.

(** The queue a thread is pended on is read through the pointer; the assertion
    of [pended_on_thread] excludes NULL, where the model does nothing. *)
Definition unpend_thread_no_timeout (t : tid) (k : kernel) : kernel :=
  match (thr k t).(pended_on) with
  | Some w =>
      on_thread t (set_pended_on None)
        (on_thread t z_mark_thread_as_not_pending (_priq_wait_remove w t k))
  | None => k
  end.

Definition z_unpend_thread_no_timeout (t : tid) (k : kernel) : kernel :=
  match (thr k t).(pended_on) with Some _ => unpend_thread_no_timeout t k | None => k end.

Definition z_sched_wake_thread_locked (t : tid) (k : kernel) : kernel :=
  if is_set (thr k t).(thread_state) (_THREAD_DEAD .| _THREAD_ABORTING) then k
  else let k1 := match (thr k t).(pended_on) with
                 | Some _ => unpend_thread_no_timeout t k | None => k end in
       ready_thread t (on_thread t z_mark_thread_as_not_sleeping k1).

Definition z_thread_timeout (t : tid) (k : kernel) : kernel :=
  if negb (z_timeout_inflight_superseded k.(clk) (thread_timeout t))
  then z_sched_wake_thread_locked t k else k.

Definition z_pend_curr (wait_q : wqid) (timeout : Z) (k : kernel) : outcome * kernel :=
  if k.(in_isr) then (Panics, k_panic k)
  else let k1 := if CONFIG_TIMESLICING && CONFIG_SWAP_NONATOMIC
                 then with_pending_current (Some k.(current)) k else k in
       z_swap (pend_locked k1.(current) (Some wait_q) timeout k1).

Definition z_unpend1_no_timeout (w : wqid) (k : kernel) : option tid * kernel :=
  match _priq_wait_best w k with
  | Some t => (Some t, unpend_thread_no_timeout t k)
  | None => (None, k)
  end.

(** On one CPU aborting a timeout never answers -EAGAIN ([abort_not_again]
    below), so the retry loops run their body once. *)
Definition z_unpend_thread (t : tid) (k : kernel) : kernel :=
  let k1 := match (thr k t).(pended_on) with
            | Some _ => unpend_thread_no_timeout t k | None => k end in
  (z_try_abort_thread_timeout t k1).2.

Definition z_unpend_first_thread_locked (w : wqid) (k : kernel) : option tid * kernel :=
  match _priq_wait_best w k with
  | Some t => (Some t, (z_try_abort_thread_timeout t (unpend_thread_no_timeout t k)).2)
  | None => (None, k)
  end.

Definition z_thread_return_value_set_with_data (t : tid) (value data : Z) (k : kernel) : kernel :=
  on_thread t (fun th => set_swap_data data (set_swap_retval value th)) k.
Definition arch_thread_return_value_set (t : tid) (value : Z) (k : kernel) : kernel :=
  on_thread t (set_swap_retval value) k.

Definition z_sched_wake (w : wqid) (retval data : Z) (k : kernel) : bool * kernel :=
  match z_unpend_first_thread_locked w k with
  | (Some t, k1) =>
      (true, ready_thread t (z_thread_return_value_set_with_data t retval data k1))
  | (None, k1) => (false, k1)
  end.

(** The loops of [z_unpend_all] and [unpend_all]: each round takes the head off
    the queue, so as many rounds as the queue has threads empty it. *)
Fixpoint unpend_all_loop (fuel : nat) (setv : option Z) (w : wqid) (k : kernel) : kernel :=
  match fuel, z_waitq_head w k with
  | S fuel, Some t =>
      let k1 := unpend_thread_no_timeout t k in
      let k2 := match setv with Some v => arch_thread_return_value_set t v k1 | None => k1 end in
      let k3 := (z_try_abort_thread_timeout t k2).2 in
      unpend_all_loop fuel setv w (ready_thread t k3)
  | _, _ => k
  end.

Definition z_unpend_all (w : wqid) (k : kernel) : Z * kernel :=
  (match z_waitq_head w k with Some _ => 1 | None => 0 end,
   unpend_all_loop (length (k.(waitqs) w)) None w k).
Definition unpend_all (w : wqid) (k : kernel) : kernel :=
  unpend_all_loop (length (k.(waitqs) w)) (Some 0) w k.

(** ** Priorities *)

Definition z_thread_prio_set (t : tid) (p : Z) (k : kernel) : bool * kernel :=
  let need_sched := z_is_thread_ready (thr k t) in
  let k' :=
    if need_sched then
      update_cache true (queue_thread t (on_thread t (set_prio p) (dequeue_thread t k)))
    else if z_is_thread_pending (thr k t) then
      match (thr k t).(pended_on) with
      | Some w => _priq_wait_add w t (on_thread t (set_prio p) (_priq_wait_remove w t k))
      | None => on_thread t (set_prio p) k
      end
    else on_thread t (set_prio p) k in
  (need_sched, k').

(** ** Halting threads *)

Definition z_dummy_thread_init (k : kernel) : kernel :=
  let d := k.(thread_dummy) in
  with_current d
    (on_thread d (fun th => set_orig_prio th.(prio) (set_mutex_pended_on None (set_held_mutexes []
       (set_user_options K_ESSENTIAL (set_thread_state _THREAD_DUMMY th))))) k).

Definition halt_thread (t : tid) (new_state : Z) (k : kernel) : kernel :=
  if (thr k t).(thread_state) .& new_state =? 0 then
    let k1 := on_thread t (set_state_bits new_state) k in
    let k2 := if z_is_thread_queued (thr k1 t) then dequeue_thread t k1 else k1 in
    let '(dummify, k3) :=
      if new_state =? _THREAD_DEAD then
        let k3 := match (thr k2 t).(pended_on) with
                  | Some _ => unpend_thread_no_timeout t k2 | None => k2 end in
        let k4 := (z_try_abort_thread_timeout t k3).2 in
        let k5 := unpend_all (thr k4 t).(join_queue) k4 in
        ((t =? k5.(current))%nat && k5.(in_isr), k5)
      else (false, k2) in
    let k6 := update_cache true k3 in
    if new_state =? _THREAD_SUSPENDED then k6
    else if dummify then z_dummy_thread_init k6 else k6
  else k.

Definition z_thread_halt (t : tid) (terminate : bool) (k : kernel) : kernel :=
  let k1 := halt_thread t (if terminate then _THREAD_DEAD else _THREAD_SUSPENDED)
              (z_metairq_preempted_clear t k) in
  if (t =? k1.(current))%nat && negb k1.(in_isr) then
    do_swap (if z_is_thread_essential (thr k1 t) then k_panic k1 else k1)
  else k1.

Definition z_thread_suspend_current (t : tid) (k : kernel) : kernel :=
  do_swap (update_cache true (dequeue_thread t
    (z_metairq_preempted_clear t (on_thread t z_mark_thread_as_suspended k)))).

(** ** scheduler.c *)

Definition k_sched_lock (k : kernel) : kernel :=
  on_thread k.(current) (fun th => set_sched_locked (u8 (th.(sched_locked) - 1)) th) k.
Definition k_sched_unlock (k : kernel) : kernel :=
  z_sched_lock_reschedule
    (on_thread k.(current) (fun th => set_sched_locked (u8 (th.(sched_locked) + 1)) th) k).
Definition k_reschedule (k : kernel) : kernel := z_sched_lock_reschedule k.
Definition k_sched_current_thread_query (k : kernel) : tid := k.(current).

(** A walk visits the threads that were queued when it started (the successor is
    read before the callback runs) until the callback answers non-zero. *)
Fixpoint waitq_walk_loop {D} (walk : tid -> D * kernel -> Z * (D * kernel)) (ts : list tid)
    (s : D * kernel) : Z * (D * kernel) :=
  match ts with
  | [] => (0, s)
  | t :: r => let '(status, s1) := walk t s in
              if status =? 0 then waitq_walk_loop walk r s1 else (status, s1)
  end.
Definition z_sched_waitq_walk {D} (w : wqid) (walk : tid -> D * kernel -> Z * (D * kernel))
    (post : option (Z -> D * kernel -> D * kernel)) (s : D * kernel) : Z * (D * kernel) :=
  let '(status, s1) := waitq_walk_loop walk (s.2.(waitqs) w) s in
  (status, match post with Some f => f status s1 | None => s1 end).

Definition z_sched_wait (w : wqid) (timeout : Z) (k : kernel) : outcome * kernel :=
  z_pend_curr w timeout k.

(** ** timeslicing.c: the tick handler *)

Definition k_sched_time_slice_set (ms_to_ticks : Z -> Z) (slice p : Z) (k : kernel) : kernel :=
  let k1 := with_slice_max_prio p (with_slice_ticks (ms_to_ticks slice) k) in
  z_time_slice_reset k1.(current) k1.

Definition z_time_slice (k : kernel) : kernel :=
  let curr := k.(current) in
  if CONFIG_SWAP_NONATOMIC && bool_decide (k.(pending_current) = Some curr)
  then z_time_slice_reset curr k
  else
    let k1 := if CONFIG_SWAP_NONATOMIC then with_pending_current None k else k in
    let slice_size := if k1.(slice_expired) then z_time_slice_size curr k1 else 0 in
    if negb (slice_size =? 0) && negb (z_is_thread_prevented_from_running (thr k1 curr)) then
      let k2 := move_current_to_end_of_prio_q k1 in
      if (k2.(cache) =? curr)%nat then slice_reset slice_size k2 else k2
    else k1.

End sched.
