(* ===== verification/SchedOk.v ===== *)
(** The scheduler's invariant.

    [core_ok] ties the thread objects to the queues: a thread is in the run queue
    exactly when its QUEUED bit is set and exactly when it is ready (the idle
    thread apart), and in a wait queue exactly when its [pended_on] names it; all
    queues are ordered by priority.  The parameter [E] names the threads a
    function is in the middle of moving.  [cache_ok] says that the cached thread
    is the best ready one, unless the running thread may not be preempted.  The
    lemmas show what each primitive of [Sched] does to the invariant. *)

From S2P Require Import Prelude Thread PriorityQ Timeout Sched.

#[local] Open Scope Z_scope.

Section invariant.
Context `{Cfg : Config} {RQ : RunQueue} {TB : TimeoutBackend}.

(** The thread states of a queue's members, in terms of the state bits. *)
Definition run_state_ok (k : kernel) (t : tid) : Prop :=
  z_is_thread_queued (thr k t) = true <-> z_is_thread_ready (thr k t) = true /\ t <> k.(idle_thread).

Record core_ok (E : tid -> Prop) (k : kernel) : Prop := {
  ok_runq : rq_ok k.(threads) k.(runq);
  ok_queued : forall t, t ∈ rq_abs k.(runq) <-> z_is_thread_queued (thr k t) = true;
  ok_ready : forall t, E t \/ run_state_ok k t;
  ok_waitq : forall w, prio_sorted k.(threads) (k.(waitqs) w) /\ NoDup (k.(waitqs) w);
  ok_pended : forall w t, t ∈ k.(waitqs) w <-> (thr k t).(pended_on) = Some w;
  ok_pending : forall t, (thr k t).(pended_on) <> None -> z_is_thread_pending (thr k t) = true;
  ok_prio : forall t, valid_prio (thr k t).(prio);
  ok_idle : z_is_thread_ready (thr k k.(idle_thread)) = true /\
            z_is_thread_queued (thr k k.(idle_thread)) = false
}.

Definition nobody (_ : tid) : Prop := False.

(** The best ready thread, or the idle thread. *)
Definition best (k : kernel) : tid := default k.(idle_thread) (head (rq_abs k.(runq))).

Definition cooperating (k : kernel) : Prop :=
  z_is_thread_ready (cur k) = true /\ thread_is_preemptible (cur k) = false.

Definition cache_ok (k : kernel) : Prop :=
  k.(cache) = best k \/ k.(cache) = k.(current) /\ cooperating k.

Definition kernel_ok (k : kernel) : Prop := core_ok nobody k /\ cache_ok k.

(** ** Frames *)

(** [same_core k k']: the threads and the queues are untouched. *)
Record same_core (k k' : kernel) : Prop := {
  sc_threads : k'.(threads) = k.(threads);
  sc_runq : k'.(runq) = k.(runq);
  sc_waitqs : k'.(waitqs) = k.(waitqs);
  sc_idle : k'.(idle_thread) = k.(idle_thread)
}.

(** [same_cpu k k']: who runs, and in which context, is untouched. *)
Record same_cpu (k k' : kernel) : Prop := {
  cpu_current : k'.(current) = k.(current);
  cpu_isr : k'.(in_isr) = k.(in_isr);
  cpu_irq : k'.(irq_locked) = k.(irq_locked);
  cpu_idle : k'.(idle_thread) = k.(idle_thread);
  cpu_dummy : k'.(thread_dummy) = k.(thread_dummy);
  cpu_panicked : k'.(panicked) = k.(panicked)
}.

#[global] Instance same_core_preorder : PreOrder same_core.
Proof. split; [done|]. intros k1 k2 k3 [] []. split; congruence. Qed.
#[global] Instance same_cpu_preorder : PreOrder same_cpu.
Proof. split; [done|]. intros k1 k2 k3 [] []. split; congruence. Qed.

Lemma core_frame E k k' : same_core k k' -> core_ok E k -> core_ok E k'.
Proof.
  intros [Ht Hr Hw Hi] [? ? Hrd ? ? ? ? ?]. unfold run_state_ok, thr in *.
  split; unfold run_state_ok, thr; rewrite ?Ht, ?Hr, ?Hw, ?Hi; auto.
Qed.

Lemma core_weaken E E' k : (forall t, E t -> E' t) -> core_ok E k -> core_ok E' k.
Proof. intros HE []. split; try done. intros t. destruct (ok_ready0 t); auto. Qed.

Lemma core_close E k t : core_ok (fun x => E x \/ x = t) k -> run_state_ok k t -> core_ok E k.
Proof.
  intros [] Ht. split; try done. intros x.
  destruct (ok_ready0 x) as [[?| ->]|?]; auto.
Qed.

Lemma thr_upd k t f x : thr (on_thread t f k) x = if decide (x = t) then f (thr k t) else thr k x.
Proof. done. Qed.
Lemma thr_eq k t f : thr (on_thread t f k) t = f (thr k t).
Proof. rewrite thr_upd. by rewrite decide_True. Qed.
Lemma thr_ne k t f x : x <> t -> thr (on_thread t f k) x = thr k x.
Proof. intros. rewrite thr_upd. by rewrite decide_False. Qed.

(** A change of thread [t] that does not move it in an order or on or off a
    queue. *)
Record quiet (t t' : k_thread) : Prop := {
  q_prio : t'.(prio) = t.(prio);
  q_deadline : t'.(prio_deadline) = t.(prio_deadline);
  q_pended : t'.(pended_on) = t.(pended_on);
  q_queued : z_is_thread_queued t' = z_is_thread_queued t;
  q_pending : t.(pended_on) <> None -> z_is_thread_pending t = true -> z_is_thread_pending t' = true
}.

(** The invariant after a step that changes thread [t] only: what is to be shown
    of [t] and of the queues. *)
Lemma core_step E E' k k' t : core_ok E k ->
  k'.(idle_thread) = k.(idle_thread) -> (forall x, x <> t -> thr k' x = thr k x) ->
  (forall x, x <> t -> E x -> E' x) -> E' t \/ run_state_ok k' t ->
  rq_ok k'.(threads) k'.(runq) ->
  (forall x, x <> t -> x ∈ rq_abs k'.(runq) <-> x ∈ rq_abs k.(runq)) ->
  (t ∈ rq_abs k'.(runq) <-> z_is_thread_queued (thr k' t) = true) ->
  (forall w, prio_sorted k'.(threads) (k'.(waitqs) w) /\ NoDup (k'.(waitqs) w)) ->
  (forall w x, x <> t -> x ∈ k'.(waitqs) w <-> x ∈ k.(waitqs) w) ->
  (forall w, t ∈ k'.(waitqs) w <-> (thr k' t).(pended_on) = Some w) ->
  ((thr k' t).(pended_on) <> None -> z_is_thread_pending (thr k' t) = true) ->
  valid_prio (thr k' t).(prio) ->
  (t = k.(idle_thread) -> z_is_thread_ready (thr k' t) = true /\ z_is_thread_queued (thr k' t) = false) ->
  core_ok E' k'.
Proof.
  intros [] Hidle Hx HE Ht Hrq Hrx Hrt Hw Hwx Hwt Hp Hpr Hi. split; try done.
  - intros x. destruct (decide (x = t)) as [->|Hne]; [done|]. by rewrite Hrx, Hx.
  - intros x. destruct (decide (x = t)) as [->|Hne]; [done|].
    destruct (ok_ready0 x) as [?|Hr]; [left; auto|right].
    unfold run_state_ok in *. by rewrite Hidle, Hx.
  - intros w x. destruct (decide (x = t)) as [->|Hne]; [done|]. by rewrite Hwx, Hx.
  - intros x. destruct (decide (x = t)) as [->|Hne]; [done|]. rewrite Hx by done. auto.
  - intros x. destruct (decide (x = t)) as [->|Hne]; [done|]. rewrite Hx by done. auto.
  - rewrite Hidle. destruct (decide (k.(idle_thread) = t)) as [<-|Hne]; [by apply Hi|]. rewrite Hx by done. done.
Qed.

(** Orders depend on the priorities only. *)
Definition same_prios (k k' : kernel) : Prop :=
  forall x, (thr k' x).(prio) = (thr k x).(prio) /\ (thr k' x).(prio_deadline) = (thr k x).(prio_deadline).

Lemma same_prios_on k t f : (f (thr k t)).(prio) = (thr k t).(prio) ->
  (f (thr k t)).(prio_deadline) = (thr k t).(prio_deadline) -> same_prios k (on_thread t f k).
Proof. intros H1 H2 x. rewrite thr_upd. case_decide; subst; done. Qed.

Lemma same_prios_rq k k' q : same_prios k k' -> rq_ok k.(threads) q -> rq_ok k'.(threads) q.
Proof. intros H Hq. apply (rq_frame_law k.(threads)); [done|]. intros x _. apply (H x). Qed.

Lemma same_prios_sorted k k' q : same_prios k k' -> prio_sorted k.(threads) q -> prio_sorted k'.(threads) q.
Proof. intros H Hq. apply (sorted_frame k.(threads)); [done|]. intros x _. apply (H x). Qed.

Lemma same_prios_add k k' q t : same_prios k k' ->
  z_priq_simple_add k'.(threads) q t = z_priq_simple_add k.(threads) q t.
Proof.
  intros H. induction q as [|y q IH]; [done|]. simpl. rewrite IH.
  assert (z_sched_prio_cmp k'.(threads) t y = z_sched_prio_cmp k.(threads) t y) as ->; [|done].
  unfold z_sched_prio_cmp. destruct (H t) as [Ht1 Ht2], (H y) as [Hy1 Hy2]. unfold thr in *.
  by rewrite Ht1, Ht2, Hy1, Hy2.
Qed.

Lemma core_quiet E k t f : core_ok E k -> quiet (thr k t) (f (thr k t)) ->
  (t = k.(idle_thread) -> z_is_thread_ready (f (thr k t)) = true) ->
  core_ok (fun x => E x \/ x = t) (on_thread t f k).
Proof.
  intros Hok [Q1 Q2 Q3 Q4 Q5] Hi. pose proof (same_prios_on _ _ _ Q1 Q2) as HP. destruct (Hok).
  apply (core_step E _ k _ t); rewrite ?thr_eq; auto.
  - intros x Hne. by rewrite thr_ne.
  - by eapply same_prios_rq.
  - rewrite Q4. apply ok_queued0.
  - intros w. split; [by eapply same_prios_sorted; [done|]; apply ok_waitq0|apply ok_waitq0].
  - intros w. rewrite Q3. apply ok_pended0.
  - rewrite Q3. auto.
  - rewrite Q1. auto.
  - intros Ht. split; [auto|]. rewrite Q4, Ht. apply ok_idle0.
Qed.

(** The same when readiness does not change either. *)
Lemma core_silent E k t f : core_ok E k -> quiet (thr k t) (f (thr k t)) ->
  z_is_thread_ready (f (thr k t)) = z_is_thread_ready (thr k t) ->
  core_ok E (on_thread t f k).
Proof.
  intros Hok HQ Hr.
  assert (core_ok (fun x => E x \/ x = t) (on_thread t f k)) as Hok'.
  { apply core_quiet; [done..|]. intros ->. rewrite Hr. apply (ok_idle _ _ Hok). }
  destruct (ok_ready _ _ Hok t) as [HE|Ht].
  - eapply core_weaken; [|done]. simpl. naive_solver.
  - apply (core_close _ _ t); [done|]. unfold run_state_ok in *.
    rewrite thr_eq, Hr, (q_queued _ _ HQ). done.
Qed.

(** ** The run queue *)

Context (Hdl : CONFIG_SCHED_DEADLINE = false).

Lemma runq_sorted E k : core_ok E k -> prio_sorted k.(threads) (rq_abs k.(runq)) /\ NoDup (rq_abs k.(runq)).
Proof. intros []. by apply rq_sorted_law. Qed.

Lemma runq_best_head E k : core_ok E k -> runq_best k = head (rq_abs k.(runq)).
Proof. intros []. by apply (rq_best_law k.(threads)). Qed.

Lemma queue_thread_ok E k t : core_ok E k -> z_is_thread_queued (thr k t) = false ->
  z_is_thread_ready (thr k t) = true -> t <> k.(idle_thread) ->
  core_ok (fun x => E x /\ x <> t) (queue_thread t k) /\
  rq_abs (queue_thread t k).(runq) = z_priq_simple_add k.(threads) (rq_abs k.(runq)) t.
Proof.
  intros Hok Hq Hr Hi. set (k1 := on_thread t z_mark_thread_as_queued k).
  assert (HP : same_prios k k1) by (by apply same_prios_on).
  destruct (queued_not_ready_bits (thr k t)) as (Br & _ & Bq & _).
  assert (t ∉ rq_abs k.(runq)) as Hnin by (rewrite (ok_queued _ _ Hok), Hq; done).
  destruct (rq_add_law k1.(threads) k.(runq) t) as [Hok' Habs]; [| |by apply deadlines_off|done|].
  { by eapply same_prios_rq; [|apply Hok]. }
  { change (valid_prio (thr k1 t).(prio)). rewrite (proj1 (HP t)). apply (ok_prio _ _ Hok). }
  rewrite (same_prios_add k k1) in Habs by done. split; [|done]. destruct (Hok).
  assert (Et : thr (queue_thread t k) t = z_mark_thread_as_queued (thr k t)) by apply thr_eq.
  apply (core_step E _ k _ t); rewrite ?Et; try done.
  - intros x Hne. by apply thr_ne.
  - right. unfold run_state_ok. by rewrite Et, Bq, Br.
  - intros x Hne. change (x ∈ rq_abs (rq_add k1.(threads) k.(runq) t) <-> x ∈ rq_abs k.(runq)).
    rewrite Habs, elem_of_add. naive_solver.
  - rewrite Bq. change (t ∈ rq_abs (rq_add k1.(threads) k.(runq) t) <-> true = true).
    rewrite Habs, elem_of_add. naive_solver.
  - intros w. split; [apply (same_prios_sorted k k1); [done|]|]; apply ok_waitq0.
  - intros w. apply (ok_pended0 w t).
  - intros Hp. specialize (ok_pending0 t Hp). clear -ok_pending0. state_bits. by rewrite ok_pending0.
  - apply (ok_prio0 t).
Qed.

Lemma dequeue_thread_ok E k t : core_ok E k -> z_is_thread_queued (thr k t) = true ->
  core_ok (fun x => E x \/ x = t) (dequeue_thread t k) /\
  rq_abs (dequeue_thread t k).(runq) = z_priq_simple_remove (rq_abs k.(runq)) t.
Proof.
  intros Hok Hq. set (k1 := on_thread t z_mark_thread_as_not_queued k).
  assert (HP : same_prios k k1) by (by apply same_prios_on).
  destruct (queued_not_ready_bits (thr k t)) as (_ & Br & _ & Bq).
  destruct (rq_remove_law k1.(threads) k.(runq) t) as [Hok' Habs].
  { by eapply same_prios_rq; [|apply Hok]. }
  { by apply (ok_queued _ _ Hok). }
  split; [|done]. destruct (Hok).
  assert (Et : thr (dequeue_thread t k) t = z_mark_thread_as_not_queued (thr k t)) by apply thr_eq.
  apply (core_step E _ k _ t); rewrite ?Et; try done; auto.
  - intros x Hne. by apply thr_ne.
  - intros x Hne. change (x ∈ rq_abs (rq_remove k1.(threads) k.(runq) t) <-> x ∈ rq_abs k.(runq)).
    rewrite Habs, elem_of_remove. naive_solver.
  - rewrite Bq. change (t ∈ rq_abs (rq_remove k1.(threads) k.(runq) t) <-> false = true).
    rewrite Habs, elem_of_remove. naive_solver.
  - intros w. split; [apply (same_prios_sorted k k1); [done|]|]; apply ok_waitq0.
  - intros w. apply (ok_pended0 w t).
  - intros Hp. specialize (ok_pending0 t Hp). clear -ok_pending0. state_bits. by rewrite ok_pending0.
  - apply (ok_prio0 t).
  - intros ->. destruct ok_idle0. congruence.
Qed.

Lemma runq_yield_ok E k : core_ok E k -> z_is_thread_queued (cur k) = true ->
  core_ok E (runq_yield k) /\
  rq_abs (runq_yield k).(runq) =
    z_priq_simple_add k.(threads) (z_priq_simple_remove (rq_abs k.(runq)) k.(current)) k.(current).
Proof.
  intros Hok Hq. apply (ok_queued _ _ Hok) in Hq. destruct (Hok).
  destruct (rq_yield_law k.(threads) k.(runq) k.(current)) as [Hok' Habs];
    [done|by apply deadlines_off|done|].
  split; [|done]. apply (core_step E E k _ k.(current)); try done.
  - intros x Hne. change (x ∈ rq_abs (rq_yield k.(threads) k.(runq) k.(current)) <-> x ∈ rq_abs k.(runq)).
    rewrite Habs, elem_of_add, elem_of_remove. naive_solver.
  - change (k.(current) ∈ rq_abs (rq_yield k.(threads) k.(runq) k.(current)) <->
            z_is_thread_queued (thr k k.(current)) = true).
    rewrite Habs, elem_of_add, <- ok_queued0. naive_solver.
  - intros w. exact (ok_pended0 w _).
  - exact (ok_pending0 _).
  - exact (ok_prio0 _).
  - intros Hi. exfalso. apply ok_queued0 in Hq. rewrite Hi in Hq. destruct ok_idle0. congruence.
Qed.

(** ** Wait queues *)

Lemma waitq_upd k w f v : (on_waitq w f k).(waitqs) v = if decide (v = w) then f (k.(waitqs) w) else k.(waitqs) v.
Proof. done. Qed.

Lemma waitq_nodup E k w : core_ok E k -> NoDup (k.(waitqs) w).
Proof. intros []. apply ok_waitq0. Qed.

Lemma wait_add_ok E k w t : core_ok E k -> (thr k t).(pended_on) = None ->
  z_is_thread_pending (thr k t) = true ->
  core_ok E (_priq_wait_add w t (on_thread t (set_pended_on (Some w)) k)).
Proof.
  intros Hok Hp Hpend. destruct (Hok). set (k1 := on_thread t (set_pended_on (Some w)) k).
  assert (HP : same_prios k k1) by (by apply same_prios_on).
  assert (forall v, t ∉ k.(waitqs) v) as Hnin by (intros v; rewrite ok_pended0; congruence).
  assert (Et : thr (_priq_wait_add w t k1) t = set_pended_on (Some w) (thr k t)) by apply thr_eq.
  assert (Ew : forall v, (_priq_wait_add w t k1).(waitqs) v =
    if decide (v = w) then z_priq_simple_add k.(threads) (k.(waitqs) w) t else k.(waitqs) v).
  { intros v. unfold _priq_wait_add. rewrite waitq_upd. case_decide; [|done].
    by apply (same_prios_add k k1). }
  apply (core_step E E k _ t); rewrite ?Et; try done.
  - intros x Hne. by apply thr_ne.
  - destruct (ok_ready0 t) as [?|Hr]; [by left|right]. unfold run_state_ok in *. by rewrite Et.
  - by apply (same_prios_rq k k1).
  - intros v. rewrite Ew. case_decide; [|split; [apply (same_prios_sorted k k1); [done|]|]; apply ok_waitq0].
    split; [|apply add_nodup; [apply ok_waitq0|done]].
    apply (same_prios_sorted k k1); [done|]. apply add_sorted; [by apply deadlines_off|apply ok_waitq0].
  - intros v x Hne. rewrite Ew. case_decide; [|done]. subst. rewrite elem_of_add. naive_solver.
  - intros v. rewrite Ew. case_decide; [subst; rewrite elem_of_add; naive_solver|].
    split; [by intros ?%Hnin|]. simpl. congruence.
  - apply (ok_prio0 t).
  - intros ->. destruct ok_idle0 as [Hr _]. clear -Hr Hpend. state_bits. by rewrite Hpend in Hr.
Qed.

Lemma unpend_ok E k w t : core_ok E k -> (thr k t).(pended_on) = Some w ->
  core_ok (fun x => E x \/ x = t) (unpend_thread_no_timeout t k).
Proof.
  intros Hok Hp. destruct (Hok). unfold unpend_thread_no_timeout. rewrite Hp.
  set (k1 := on_thread t z_mark_thread_as_not_pending (_priq_wait_remove w t k)).
  set (k2 := on_thread t (set_pended_on None) k1).
  assert (Et : thr k2 t = set_pended_on None (z_mark_thread_as_not_pending (thr k t)))
    by (unfold k2, k1; by rewrite !thr_eq).
  assert (HP : same_prios k k2).
  { intros x. unfold k2, k1. rewrite !thr_upd. repeat case_decide; subst; done. }
  assert (Ew : forall v, k2.(waitqs) v =
    if decide (v = w) then z_priq_simple_remove (k.(waitqs) w) t else k.(waitqs) v) by done.
  apply (core_step E _ k _ t); rewrite ?Et; try done; auto.
  - intros x Hne. unfold k2, k1. by rewrite !thr_ne.
  - by apply (same_prios_rq k k2).
  - simpl. rewrite ok_queued0. clear. state_bits. by rewrite andb_true_r.
  - intros v. rewrite Ew. case_decide; [|split; [apply (same_prios_sorted k k2); [done|]|]; apply ok_waitq0].
    split; [|apply remove_nodup, ok_waitq0].
    apply (same_prios_sorted k k2); [done|]. apply remove_sorted, ok_waitq0.
  - intros v x Hne. rewrite Ew. case_decide; [|done]. subst. rewrite elem_of_remove. naive_solver.
  - intros v. rewrite Ew. simpl. case_decide; [rewrite elem_of_remove; naive_solver|].
    rewrite ok_pended0, Hp. naive_solver.
  - apply (ok_prio0 t).
  - intros ->. destruct ok_idle0 as [Hr _]. specialize (ok_pending0 k.(idle_thread)).
    rewrite Hp in ok_pending0. specialize (ok_pending0 ltac:(done)).
    exfalso. clear -Hr ok_pending0. state_bits. by rewrite ok_pending0 in Hr.
Qed.

(** ** The cache *)

Ltac same_fields := split; split; simpl; done.

Lemma slice_reset_frame n k : same_core k (slice_reset n k) /\ same_cpu k (slice_reset n k).
Proof. unfold slice_reset. destruct (negb _); same_fields. Qed.

Lemma next_up_frame k : same_core k (next_up k).2 /\ same_cpu k (next_up k).2.
Proof.
  unfold next_up, metairq_preempt_recover.
  repeat (case_match; simplify_eq/=; try same_fields).
Qed.

Lemma update_metairq_frame t k :
  same_core k (update_metairq_preempt t k) /\ same_cpu k (update_metairq_preempt t k).
Proof. unfold update_metairq_preempt. repeat case_match; same_fields. Qed.

Lemma update_cache_frame b k : same_core k (update_cache b k) /\ same_cpu k (update_cache b k).
Proof.
  unfold update_cache. destruct (next_up_frame k) as [H1 H2].
  destruct (next_up k) as [t k1]; simpl in *. destruct (should_preempt t b k1).
  - set (k2 := if _ && _ then _ else _).
    assert (same_core k1 k2 /\ same_cpu k1 k2) as [H3 H4]
      by (unfold k2; destruct (_ && _); [apply slice_reset_frame|same_fields]).
    destruct (update_metairq_frame t k2) as [H5 H6].
    assert (same_core k (update_metairq_preempt t k2)) as [] by (do 2 (etrans; [done|]); done).
    assert (same_cpu k (update_metairq_preempt t k2)) as [] by (do 2 (etrans; [done|]); done).
    by split; split.
  - destruct H1, H2. by split; split.
Qed.

Lemma update_cache_core E b k : core_ok E k -> core_ok E (update_cache b k).
Proof. apply core_frame, update_cache_frame. Qed.

Lemma cache_frame k k' : rq_abs k'.(runq) = rq_abs k.(runq) -> k'.(idle_thread) = k.(idle_thread) ->
  k'.(cache) = k.(cache) -> k'.(current) = k.(current) -> (cooperating k -> cooperating k') ->
  cache_ok k -> cache_ok k'.
Proof.
  intros Hr Hi Hc Hcu Hco [H|[H1 H2]]; [left|right].
  - unfold best in *. by rewrite Hr, Hi, Hc.
  - rewrite Hc, Hcu. auto.
Qed.

(** A change of a thread keeps the cache right if that thread was not running,
    or could not go on running, or is as preemptible as before. *)
Lemma cache_on_thread k t f :
  (k.(current) = t -> z_is_thread_ready (thr k t) = true ->
   z_is_thread_ready (f (thr k t)) = true /\
   thread_is_preemptible (f (thr k t)) = thread_is_preemptible (thr k t)) ->
  cache_ok k -> cache_ok (on_thread t f k).
Proof.
  intros Hf. apply cache_frame; try done. unfold cooperating, cur.
  change (current (on_thread t f k)) with k.(current). rewrite thr_upd. case_decide as Hd; [|done].
  rewrite Hd. intros [H1 H2]. destruct (Hf Hd H1) as [-> ->]. done.
Qed.

Lemma core_cooperating k k' : same_core k k' -> same_cpu k k' -> cooperating k -> cooperating k'.
Proof. intros [Ht _ _ _] [Hc _ _ _ _ _]. unfold cooperating, cur, thr. by rewrite Ht, Hc. Qed.

Lemma core_best k k' : same_core k k' -> best k' = best k.
Proof. intros [_ Hr _ Hi]. unfold best. by rewrite Hr, Hi. Qed.

Lemma cache_same k k' : same_core k k' -> same_cpu k k' -> k'.(cache) = k.(cache) ->
  cache_ok k -> cache_ok k'.
Proof.
  intros HC HP Hc. apply cache_frame; try apply HP; try done; [by destruct HC as [_ -> _ _]|].
  by apply core_cooperating.
Qed.

Context (Hmi : CONFIG_NUM_METAIRQ_PRIORITIES <= 0).

Lemma next_up_best E k : core_ok E k -> next_up k = (best k, k).
Proof.
  intros Hok. unfold next_up, metairq_preempt_recover.
  destruct (Z.ltb_spec 0 CONFIG_NUM_METAIRQ_PRIORITIES); [lia|].
  rewrite (runq_best_head E) by done. unfold best. by destruct (head _).
Qed.

(** [update_cache] caches the best thread, except that a cooperating thread is
    not preempted. *)
Lemma update_cache_cache E b k : core_ok E k ->
  (update_cache b k).(cache) = best k \/
  b = false /\ (update_cache b k).(cache) = k.(current) /\ cooperating k.
Proof.
  intros Hok. unfold update_cache. rewrite (next_up_best E) by done.
  destruct (should_preempt (best k) b k) eqn:Hp; [by left|right]. simpl.
  unfold should_preempt in Hp. destruct b; [done|].
  destruct (z_is_thread_prevented_from_running (cur k)) eqn:E1; [done|].
  destruct (thread_is_preemptible (cur k)) eqn:E2; [done|].
  repeat split; try done. unfold z_is_thread_ready. by rewrite E1.
Qed.

Lemma update_cache_ok E b k : core_ok E k -> cache_ok (update_cache b k).
Proof.
  intros Hok. destruct (update_cache_frame b k) as [HC HP]. unfold cache_ok.
  rewrite (core_best _ _ HC), (cpu_current _ _ HP).
  destruct (update_cache_cache E b k Hok) as [?|(_ & ? & ?)]; [by left|right].
  split; [done|]. by apply (core_cooperating k).
Qed.

End invariant.
