(* ===== verification/SchedSpec.v ===== *)
(** What the scheduler's operations do: each keeps the invariant of [SchedOk],
    and its effect on the queues and on the threads it moves. *)

From S2P Require Import Prelude Thread PriorityQ Timeout Sched SchedOk.

#[local] Open Scope Z_scope.

Section spec.
Context `{Cfg : Config} {RQ : RunQueue} {TB : TimeoutBackend}.
Context (Hdl : CONFIG_SCHED_DEADLINE = false) (Hmi : CONFIG_NUM_METAIRQ_PRIORITIES <= 0).

(** The state bits the marks change, as facts about the predicates. *)
Lemma mark_not_pending_bits th :
  z_is_thread_queued (z_mark_thread_as_not_pending th) = z_is_thread_queued th /\
  z_is_thread_pending (z_mark_thread_as_not_pending th) = false.
Proof. state_bits. by rewrite ?andb_true_r, ?andb_false_r. Qed.

Lemma mark_pending_bits th :
  z_is_thread_queued (z_mark_thread_as_pending th) = z_is_thread_queued th /\
  z_is_thread_pending (z_mark_thread_as_pending th) = true /\
  z_is_thread_ready (z_mark_thread_as_pending th) = false.
Proof. state_bits. by rewrite ?orb_true_r, ?orb_false_r. Qed.

Lemma ready_not_pending th : z_is_thread_ready th = true -> z_is_thread_pending th = false.
Proof. state_bits. by destruct (Z.testbit _ 1). Qed.

Lemma ready_unpended E k t : core_ok E k -> z_is_thread_ready (thr k t) = true ->
  (thr k t).(pended_on) = None.
Proof.
  intros Hok Hr%ready_not_pending. pose proof (ok_pending _ _ Hok t) as Hp.
  destruct (pended_on (thr k t)); [|done]. rewrite Hp in Hr; [done|done].
Qed.

Lemma queued_ready k t : core_ok nobody k -> z_is_thread_queued (thr k t) = true ->
  z_is_thread_ready (thr k t) = true /\ t <> k.(idle_thread).
Proof. intros Hok Hq. by destruct (ok_ready _ _ Hok t) as [[]|Hr%proj1]; auto. Qed.

Lemma ready_queued k t : core_ok nobody k -> z_is_thread_ready (thr k t) = true ->
  t <> k.(idle_thread) -> z_is_thread_queued (thr k t) = true.
Proof. intros Hok Hr Hi. destruct (ok_ready _ _ Hok t) as [[]|[_ H]]; auto. Qed.

Lemma pended_not_idle E k t w : core_ok E k -> (thr k t).(pended_on) = Some w -> t <> k.(idle_thread).
Proof.
  intros Hok Hp ->. destruct (ok_idle _ _ Hok) as [Hr _].
  rewrite (ready_unpended E) in Hp by done. done.
Qed.

(** ** Waking and blocking *)

(** Aborting or arming a timeout leaves the scheduler alone. *)
Lemma abort_frame t k : same_core k (z_try_abort_thread_timeout t k).2 /\
  same_cpu k (z_try_abort_thread_timeout t k).2 /\
  (z_try_abort_thread_timeout t k).2.(cache) = k.(cache).
Proof. unfold z_try_abort_thread_timeout. destruct (z_try_abort_timeout _ _). done. Qed.

Lemma add_frame t timeout k : same_core k (z_add_thread_timeout t timeout k).2 /\
  same_cpu k (z_add_thread_timeout t timeout k).2 /\
  (z_add_thread_timeout t timeout k).2.(cache) = k.(cache).
Proof. unfold z_add_thread_timeout. destruct (z_add_timeout _ _ _ _). done. Qed.

(** On one CPU the abort of a timeout never has to be retried. *)
Lemma abort_not_again t k : (z_try_abort_thread_timeout t k).1 <> - EAGAIN.
Proof.
  unfold z_try_abort_thread_timeout, z_try_abort_timeout.
  destruct (negb _); [destruct (tq_remove _ _ _) as [? []]|]; simpl; unfold EAGAIN, EINVAL; lia.
Qed.

Lemma ready_thread_ok E k t : core_ok (fun x => E x \/ x = t) k -> t <> k.(idle_thread) ->
  (z_is_thread_queued (thr k t) = true -> z_is_thread_ready (thr k t) = true) -> 
  core_ok E (ready_thread t k) /\ (cache_ok k -> cache_ok (ready_thread t k)).
Proof.
  intros Hok Hi Hqr. unfold ready_thread.
  destruct (z_is_thread_queued (thr k t)) eqn:Hq; simpl.
  { split; [|done]. apply (core_close _ _ t); [done|]. unfold run_state_ok. naive_solver. }
  destruct (z_is_thread_ready (thr k t)) eqn:Hr; simpl.
  - destruct (queue_thread_ok Hdl _ k t Hok Hq Hr Hi) as [Hok' _].
    assert (core_ok E (queue_thread t k)) as Hok''
      by (eapply core_weaken; [|done]; naive_solver).
    split; [by apply update_cache_core|]. intros _. by apply (update_cache_ok Hmi E).
  - split; [|done]. apply (core_close _ _ t); [done|]. unfold run_state_ok. rewrite Hq, Hr. naive_solver.
Qed.

(** A thread that has been made ready, and is queued if nothing else holds it. *)
Definition requeued (th : k_thread) : k_thread :=
  if z_is_thread_ready th then z_mark_thread_as_queued th else th.

(** What [ready_thread] does to a thread that was not in the run queue. *)
Lemma ready_thread_effect k t : core_ok (fun x => x = t) k ->
  z_is_thread_queued (thr k t) = false -> t <> k.(idle_thread) ->
  same_cpu k (ready_thread t k) /\ (ready_thread t k).(waitqs) = k.(waitqs) /\
  (forall x, x <> t -> thr (ready_thread t k) x = thr k x) /\
  thr (ready_thread t k) t = requeued (thr k t) /\
  rq_abs (ready_thread t k).(runq) =
    (if z_is_thread_ready (thr k t) then z_priq_simple_add k.(threads) (rq_abs k.(runq)) t
     else rq_abs k.(runq)).
Proof.
  intros Hok Hq Hi. unfold ready_thread, requeued. rewrite Hq. simpl.
  destruct (z_is_thread_ready (thr k t)) eqn:Hr; [|done].
  destruct (queue_thread_ok Hdl _ k t Hok Hq Hr Hi) as [_ Habs].
  destruct (update_cache_frame false (queue_thread t k)) as [[Ht Hrq Hw Hid] HP].
  repeat split; try apply HP.
  - by rewrite Hw.
  - intros x Hne. unfold thr. rewrite Ht. by apply thr_ne.
  - unfold thr. rewrite Ht. apply thr_eq.
  - by rewrite Hrq, Habs.
Qed.

(** [detached w t k k']: [t] has been taken off the wait queue [w] and is on its
    way to the run queue. *)
Record detached (w : wqid) (t : tid) (k k' : kernel) : Prop := {
  dt_core : core_ok (fun x => x = t) k';
  dt_cpu : same_cpu k k';
  dt_cache : k'.(cache) = k.(cache);
  dt_runq : k'.(runq) = k.(runq);
  dt_others : forall x, x <> t -> thr k' x = thr k x;
  dt_waitqs : forall v, k'.(waitqs) v =
    if decide (v = w) then z_priq_simple_remove (k.(waitqs) w) t else k.(waitqs) v;
  dt_prio : (thr k' t).(prio) = (thr k t).(prio) /\ (thr k' t).(prio_deadline) = (thr k t).(prio_deadline);
  dt_queued : z_is_thread_queued (thr k' t) = false;
  dt_pended : (thr k' t).(pended_on) = None
}.

Lemma pended_not_queued k t w : core_ok nobody k -> (thr k t).(pended_on) = Some w ->
  z_is_thread_ready (thr k t) = false /\ z_is_thread_queued (thr k t) = false.
Proof.
  intros Hok Hp. assert (z_is_thread_ready (thr k t) = false) as Hr.
  { apply not_true_is_false. intros Hr. by rewrite (ready_unpended nobody) in Hp. }
  split; [done|]. apply not_true_is_false. intros [? _]%queued_ready; congruence.
Qed.

(** The state in which a waiter leaves a wait queue. *)
Definition released (th : k_thread) : k_thread :=
  set_pended_on None (z_mark_thread_as_not_pending th).

Lemma unpend_thread k t w : (thr k t).(pended_on) = Some w ->
  thr (unpend_thread_no_timeout t k) t = released (thr k t).
Proof. intros Hp. unfold unpend_thread_no_timeout. rewrite Hp, !thr_eq. done. Qed.

Lemma detached_unpend k t w : core_ok nobody k -> (thr k t).(pended_on) = Some w ->
  detached w t k (unpend_thread_no_timeout t k).
Proof.
  intros Hok Hp. pose proof (unpend_ok nobody k w t Hok Hp) as Hok'.
  destruct (pended_not_queued k t w Hok Hp) as [_ Hq].
  destruct (mark_not_pending_bits (thr k t)) as [Bq _].
  pose proof (unpend_thread k t w Hp) as Et.
  split; rewrite ?Et; try done.
  - eapply core_weaken; [|done]. unfold nobody. naive_solver.
  - unfold unpend_thread_no_timeout. rewrite Hp. done.
  - unfold unpend_thread_no_timeout. by rewrite Hp.
  - unfold unpend_thread_no_timeout. by rewrite Hp.
  - intros x Hne. unfold unpend_thread_no_timeout. rewrite Hp. by rewrite !thr_ne.
  - intros v. unfold unpend_thread_no_timeout. by rewrite Hp.
  - change (z_is_thread_queued (z_mark_thread_as_not_pending (thr k t)) = false). congruence.
Qed.

Lemma detached_same w t k k1 k2 : detached w t k k1 -> same_core k1 k2 -> same_cpu k1 k2 ->
  k2.(cache) = k1.(cache) -> detached w t k k2.
Proof.
  intros [] HC HP Hc. pose proof (core_frame _ _ _ HC dt_core0) as Hok. destruct HC as [Ht Hr Hw Hi].
  assert (forall x, thr k2 x = thr k1 x) as Hx by (intros x; unfold thr; by rewrite Ht).
  split; rewrite ?Hx, ?Hr, ?Hc; try done.
  - by etrans.
  - intros x Hne. rewrite Hx. auto.
  - intros v. by rewrite Hw.
Qed.

Lemma detached_set w t k k1 f : detached w t k k1 -> t <> k.(idle_thread) ->
  quiet (thr k1 t) (f (thr k1 t)) -> detached w t k (on_thread t f k1).
Proof.
  intros [] Hi HQ. pose proof (cpu_idle _ _ dt_cpu0) as Hid.
  assert (core_ok (fun x => x = t) (on_thread t f k1)) as Hok.
  { eapply core_weaken; [|apply (core_quiet (fun x => x = t) k1); [done|done|congruence]]. naive_solver. }
  destruct HQ as [Q1 Q2 Q3 Q4 Q5]. split; rewrite ?thr_eq, ?Q1, ?Q2, ?Q3, ?Q4; try done.
  - by etrans.
  - intros x Hne. rewrite thr_ne by done. auto.
Qed.

(** [wakes w t k k']: the thread [t], detached from [w], has been made ready. *)
Record wakes (w : wqid) (t : tid) (th : k_thread) (k k' : kernel) : Prop := {
  wk_ok : core_ok nobody k';
  wk_cache : cache_ok k -> z_is_thread_ready (thr k t) = false -> cache_ok k';
  wk_cpu : same_cpu k k';
  wk_others : forall x, x <> t -> thr k' x = thr k x;
  wk_thread : thr k' t = requeued th;
  wk_waitqs : forall v, k'.(waitqs) v =
    if decide (v = w) then z_priq_simple_remove (k.(waitqs) w) t else k.(waitqs) v;
  wk_runq : rq_abs k'.(runq) =
    if z_is_thread_ready th then z_priq_simple_add k.(threads) (rq_abs k.(runq)) t
    else rq_abs k.(runq)
}.

Lemma detached_wakes w t k k1 : detached w t k k1 -> t <> k.(idle_thread) ->
  wakes w t (thr k1 t) k (ready_thread t k1).
Proof.
  intros [] Hi. pose proof (cpu_idle _ _ dt_cpu0) as Hid.
  destruct (ready_thread_effect k1 t) as (E1 & E2 & E3 & E4 & E5); [done|done|congruence|].
  destruct (ready_thread_ok nobody k1 t) as [Hok Hcache];
    [by eapply core_weaken; [|done]; naive_solver|congruence|congruence|].
  assert (HP : same_prios k k1).
  { intros x. destruct (decide (x = t)) as [->|Hne]; [done|]. by rewrite dt_others0. }
  split; try done.
  - intros Hc Hr. apply Hcache. revert Hc. apply cache_frame; try done; try apply dt_cpu0.
    + by rewrite dt_runq0.
    + unfold cooperating, cur. rewrite (cpu_current _ _ dt_cpu0).
      destruct (decide (k.(current) = t)) as [->|Hne]; [intros []; congruence|by rewrite dt_others0].
  - by etrans.
  - intros x Hne. rewrite E3 by done. auto.
  - intros v. rewrite E2. auto.
  - by rewrite E5, (same_prios_add k k1), dt_runq0.
Qed.

Lemma waitq_head E k w t r : core_ok E k -> k.(waitqs) w = t :: r ->
  (thr k t).(pended_on) = Some w /\ z_priq_simple_remove (k.(waitqs) w) t = r.
Proof.
  intros Hok Hw. split.
  - apply (ok_pended _ _ Hok). rewrite Hw. set_solver +.
  - rewrite Hw. apply (remove_split k.(threads) [] t r). rewrite <- Hw. by apply (waitq_nodup E).
Qed.

Lemma quiet_values th v d : quiet th (set_swap_data d (set_swap_retval v th)).
Proof. by split. Qed.
Lemma quiet_retval th v : quiet th (set_swap_retval v th).
Proof. by split. Qed.

(** Taking the first waiter off a queue, changing it in a way the scheduler does
    not see, and making it ready. *)
Lemma unpend_first_wakes k w t r f : core_ok nobody k -> k.(waitqs) w = t :: r ->
  (forall th, quiet th (f th)) ->
  exists k1, z_unpend_first_thread_locked w k = (Some t, k1) /\ thr k1 t = released (thr k t) /\
    (ready_thread t (on_thread t f k1)).(waitqs) w = r /\
    wakes w t (f (released (thr k t))) k (ready_thread t (on_thread t f k1)).
Proof.
  intros Hok Hw HQ. unfold z_unpend_first_thread_locked, _priq_wait_best, z_priq_simple_best. rewrite Hw.
  destruct (waitq_head _ _ _ _ _ Hok Hw) as [Hp Hr].
  pose proof (pended_not_idle _ _ _ _ Hok Hp) as Hi.
  pose proof (detached_unpend k t w Hok Hp) as HD.
  destruct (abort_frame t (unpend_thread_no_timeout t k)) as (F1 & F2 & F3). cbn [head].
  set (k1 := (z_try_abort_thread_timeout t (unpend_thread_no_timeout t k)).2) in *.
  apply (detached_same _ _ _ _ k1) in HD; [|done..].
  assert (Et : thr k1 t = released (thr k t))
    by (rewrite <- (unpend_thread k t w) by done; unfold thr; by rewrite (sc_threads _ _ F1)).
  pose proof (detached_set _ _ _ _ f HD Hi (HQ _)) as HD'. apply detached_wakes in HD'; [|done].
  exists k1. split; [done|]. split; [done|]. split.
  - etrans; [apply (wk_waitqs _ _ _ _ _ HD')|]. by rewrite decide_True.
  - by rewrite thr_eq, Et in HD'.
Qed.

(** [z_sched_wake] wakes the first waiter with the given values, or does
    nothing. *)
Lemma sched_wake_spec k w v d : core_ok nobody k ->
  match k.(waitqs) w with
  | [] => z_sched_wake w v d k = (false, k)
  | t :: r => exists k', z_sched_wake w v d k = (true, k') /\ k'.(waitqs) w = r /\
      wakes w t (set_swap_data d (set_swap_retval v (released (thr k t)))) k k'
  end.
Proof.
  intros Hok. destruct (k.(waitqs) w) as [|t r] eqn:Hw; unfold z_sched_wake.
  - unfold z_unpend_first_thread_locked, _priq_wait_best, z_priq_simple_best. by rewrite Hw.
  - destruct (unpend_first_wakes k w t r (fun th => set_swap_data d (set_swap_retval v th)) Hok Hw
      (fun th => quiet_values th v d)) as (k1 & -> & _ & H2 & H3). eexists. split; [done|]. done.
Qed.

(** [unpend_all_loop] empties the queue, waking each waiter in turn. *)
Definition let_go (setv : option Z) (th : k_thread) : k_thread :=
  match setv with Some v => set_swap_retval v (released th) | None => released th end.

Lemma unpend_all_step k w t r setv : core_ok nobody k -> k.(waitqs) w = t :: r ->
  exists k', wakes w t (let_go setv (thr k t)) k k' /\ k'.(waitqs) w = r /\
    forall fuel, unpend_all_loop (S fuel) setv w k = unpend_all_loop fuel setv w k'.
Proof.
  intros Hok Hw. destruct (waitq_head _ _ _ _ _ Hok Hw) as [Hp Hr].
  pose proof (pended_not_idle _ _ _ _ Hok Hp) as Hi.
  pose proof (detached_unpend k t w Hok Hp) as HD.
  set (k1 := unpend_thread_no_timeout t k) in *.
  set (k2 := match setv with Some v => arch_thread_return_value_set t v k1 | None => k1 end).
  assert (detached w t k k2 /\ thr k2 t = let_go setv (thr k t)) as [HD2 Et].
  { unfold k2, let_go. rewrite <- (unpend_thread k t w) by done. destruct setv; [|done].
    split; [apply detached_set; [done..|apply quiet_retval]|apply thr_eq]. }
  destruct (abort_frame t k2) as (F1 & F2 & F3). apply (detached_same _ _ _ _ _ HD2 F1 F2) in F3 as HD3.
  apply detached_wakes in HD3; [|done].
  assert (thr (z_try_abort_thread_timeout t k2).2 t = let_go setv (thr k t)) as Et'
    by (rewrite <- Et; unfold thr; by rewrite (sc_threads _ _ F1)).
  rewrite Et' in HD3. eexists. split; [exact HD3|]. split.
  - etrans; [apply (wk_waitqs _ _ _ _ _ HD3)|]. by rewrite decide_True.
  - intros fuel; simpl; unfold z_waitq_head; by rewrite Hw.
Qed.

Lemma unpend_all_ok setv w fuel k : core_ok nobody k -> (length (k.(waitqs) w) <= fuel)%nat ->
  let k' := unpend_all_loop fuel setv w k in
  core_ok nobody k' /\ (cache_ok k -> cache_ok k') /\ same_cpu k k' /\
  (forall v, k'.(waitqs) v = if decide (v = w) then [] else k.(waitqs) v) /\
  (forall x, thr k' x = if decide (x ∈ k.(waitqs) w) then requeued (let_go setv (thr k x)) else thr k x).
Proof.
  revert k. induction fuel as [|fuel IH]; intros k Hok Hlen;
    (destruct (k.(waitqs) w) as [|t r] eqn:Hw; [|simpl in Hlen; try lia]).
  1, 2: simpl; unfold z_waitq_head; rewrite ?Hw; simpl;
    (split; [done|split; [done|split; [done|split; [|done]]]]); intros v; case_decide; congruence.
  destruct (unpend_all_step k w t r setv Hok Hw) as (k1 & HW & Hr & ->).
  destruct (waitq_head _ _ _ _ _ Hok Hw) as [Hp _].
  pose proof (waitq_nodup _ _ w Hok) as Hnd. rewrite Hw in Hnd. apply NoDup_cons in Hnd as [Hnt _].
  destruct HW. destruct (IH k1) as (I1 & I2 & I3 & I4 & I5); [done|rewrite Hr; lia|].
  split; [done|]. split; [|split; [by etrans|split]].
  - intros Hc. apply I2, wk_cache0; [done|]. by apply (pended_not_queued k t w).
  - intros v. rewrite I4, wk_waitqs0. by case_decide.
  - intros x. rewrite I5, Hr. destruct (decide (x = t)) as [->|Hne].
    + rewrite decide_False by done. by rewrite decide_True by set_solver +.
    + rewrite wk_others0 by done. destruct (decide (x ∈ r)).
      * by rewrite decide_True by set_solver.
      * by rewrite decide_False by set_solver.
Qed.

(** ** Blocking *)

(** [swapped k k']: the cached thread runs; the thread that left keeps its state
    and will find -EAGAIN unless a waker sets another value. *)
Record swapped (k k' : kernel) : Prop := {
  sw_current : k'.(current) = k.(cache);
  sw_cache : k'.(cache) = k.(cache);
  sw_core : same_core (on_thread k.(current) (set_swap_retval (- EAGAIN)) k) k';
  sw_isr : k'.(in_isr) = k.(in_isr);
  sw_irq : k'.(irq_locked) = k.(irq_locked)
}.

Lemma do_swap_swapped k : swapped k (do_swap k).
Proof.
  unfold do_swap. set (k1 := on_thread _ _ k).
  destruct (Nat.eqb_spec k1.(cache) k.(current)) as [He|Hne]; [by split|].
  destruct CONFIG_TIMESLICING; [|by split].
  unfold z_time_slice_reset. set (n := z_time_slice_size _ _).
  destruct (slice_reset_frame n (with_current k1.(cache) k1)) as [HC [Hcu Hi Hq _ _ _]].
  split; [exact Hcu| |by destruct HC; split|exact Hi|exact Hq]. unfold slice_reset. by destruct (negb _).
Qed.

Lemma swapped_threads k k' : swapped k k' ->
  (forall x, x <> k.(current) -> thr k' x = thr k x) /\
  thr k' k.(current) = set_swap_retval (- EAGAIN) (cur k).
Proof.
  intros [_ _ [Ht _ _ _] _ _]. split; [intros x Hne|]; unfold thr; rewrite Ht.
  - by apply thr_ne.
  - apply thr_eq.
Qed.

Lemma swapped_ok k k' : kernel_ok k -> swapped k k' -> kernel_ok k' /\
  (k'.(current) = best k' \/ k'.(current) = k.(current) /\ cooperating k').
Proof.
  intros [Hok Hc] [Hcu Hca HC _ _].
  assert (core_ok nobody k') as Hok'.
  { apply (core_frame _ _ _ HC), core_silent; [done|apply quiet_retval|done]. }
  assert (best k' = best k) as Hb by (rewrite (core_best _ _ HC); done).
  destruct Hc as [Hc|[Hc Hco]].
  - split; [|left; congruence]. split; [done|left; congruence].
  - assert (cooperating k') as Hco'.
    { unfold cooperating, cur, thr in *. rewrite Hcu, Hc, (sc_threads _ _ HC).
      change (z_is_thread_ready (thr (on_thread k.(current) (set_swap_retval (- EAGAIN)) k) k.(current)) = true /\
        thread_is_preemptible (thr (on_thread k.(current) (set_swap_retval (- EAGAIN)) k) k.(current)) = false).
      by rewrite thr_eq. }
    split; [|right; split; [congruence|done]]. split; [done|right; split; [congruence|done]].
Qed.

Lemma reschedule_ok k : kernel_ok k -> kernel_ok (reschedule k) /\
  (k.(irq_locked) = false -> k.(in_isr) = false -> swapped k (reschedule k) \/
     reschedule k = k /\ k.(cache) = k.(current)).
Proof.
  intros Hok. unfold reschedule, resched, need_swap.
  destruct (negb _ && negb _) eqn:E1; simpl.
  - destruct (Nat.eqb_spec k.(cache) k.(current)); simpl; [auto|].
    pose proof (do_swap_swapped k) as Hs. split; [by eapply swapped_ok|auto].
  - split; [done|]. intros H1 H2. by rewrite H1, H2 in E1.
Qed.

(** [parked t k k']: the running thread [t] has left the run queue, and the best
    of the others is cached. *)
Record parked (t : tid) (k k' : kernel) : Prop := {
  pk_core : core_ok (fun x => x = t) k';
  pk_cpu : same_cpu k k';
  pk_cache : k'.(cache) = best k';
  pk_runq : rq_abs k'.(runq) = z_priq_simple_remove (rq_abs k.(runq)) t;
  pk_others : forall x, x <> t -> thr k' x = thr k x;
  pk_queued : z_is_thread_queued (thr k' t) = false;
  pk_prio : (thr k' t).(prio) = (thr k t).(prio) /\ (thr k' t).(prio_deadline) = (thr k t).(prio_deadline)
}.

Lemma unready_parked k : core_ok nobody k -> z_is_thread_queued (cur k) = true ->
  let k' := unready_thread k.(current) k in
  parked k.(current) k k' /\ k'.(waitqs) = k.(waitqs) /\
  thr k' k.(current) = z_mark_thread_as_not_queued (cur k).
Proof.
  intros Hok Hq. unfold unready_thread. change (thr k k.(current)) with (cur k). rewrite Hq.
  destruct (dequeue_thread_ok _ k k.(current) Hok Hq) as [Hok1 Habs].
  set (k1 := dequeue_thread k.(current) k) in *.
  change (k1.(current)) with k.(current). rewrite Nat.eqb_refl.
  assert (core_ok (fun x => x = k.(current)) k1) as Hok2
    by (eapply core_weaken; [|done]; unfold nobody; naive_solver).
  destruct (update_cache_frame true k1) as [HC HP]. pose proof HC as [Ht Hr Hw Hi].
  destruct (queued_not_ready_bits (cur k)) as (_ & _ & _ & Bq).
  assert (Et : thr (update_cache true k1) k.(current) = z_mark_thread_as_not_queued (cur k)).
  { unfold thr. rewrite Ht. apply thr_eq. }
  split; [split|split; [by rewrite Hw|done]]; rewrite ?Et; try done.
  - by apply update_cache_core.
  - by etrans; [|exact HP].
  - rewrite (core_best _ _ HC). destruct (update_cache_cache Hmi _ true k1 Hok2) as [?|[? _]]; done.
  - by rewrite Hr.
  - intros x Hne. unfold thr. rewrite Ht. by apply thr_ne.
Qed.

Lemma parked_set t f k k' : parked t k k' -> t <> k.(idle_thread) -> quiet (thr k' t) (f (thr k' t)) ->
  parked t k (on_thread t f k').
Proof.
  intros [] Hi HQ.
  assert (core_ok (fun x => x = t) (on_thread t f k')) as Hok.
  { pose proof (cpu_idle _ _ pk_cpu0). 
    eapply core_weaken; [|apply (core_quiet (fun x => x = t) k'); [done|done|congruence]]. naive_solver. }
  destruct HQ as [Q1 Q2 Q3 Q4 Q5]. split; rewrite ?thr_eq, ?Q1, ?Q2, ?Q4; try done.
  - by etrans; [exact pk_cpu0|].
  - intros x Hne. rewrite thr_ne by done. auto.
Qed.

Lemma parked_ok t k k' : parked t k k' -> z_is_thread_ready (thr k' t) = false -> kernel_ok k'.
Proof.
  intros [] Hr. split; [|by left]. apply (core_close _ _ t).
  - eapply core_weaken; [|done]. auto.
  - unfold run_state_ok. rewrite Hr, pk_queued0. naive_solver.
Qed.

Lemma parked_cache_ne t k k' : parked t k k' -> t <> k.(idle_thread) -> k'.(cache) <> t.
Proof.
  intros [] Hi Hc. rewrite pk_cache0 in Hc. unfold best in Hc.
  pose proof (cpu_idle _ _ pk_cpu0) as Hid.
  destruct (head (rq_abs k'.(runq))) as [x|] eqn:Hh; simpl in Hc; [|congruence]. subst x.
  assert (t ∈ rq_abs k'.(runq)) as Ht by (destruct (rq_abs k'.(runq)); [done|simplify_eq/=; set_solver +]).
  rewrite pk_runq0 in Ht. apply elem_of_remove in Ht. naive_solver.
Qed.

(** The running thread pended on a wait queue. *)
Record pended (w : wqid) (k k' : kernel) : Prop := {
  pd_parked : parked k.(current) k k';
  pd_ok : kernel_ok k';
  pd_waitqs : forall v, k'.(waitqs) v =
    if decide (v = w) then z_priq_simple_add k.(threads) (k.(waitqs) w) k.(current) else k.(waitqs) v;
  pd_thread : thr k' k.(current) =
    set_pended_on (Some w) (z_mark_thread_as_pending (z_mark_thread_as_not_queued (cur k)))
}.

Lemma pend_locked_ok k w timeout : core_ok nobody k -> z_is_thread_queued (cur k) = true ->
  pended w k (pend_locked k.(current) (Some w) timeout k).
Proof.
  intros Hok Hq. unfold pend_locked, add_to_waitq_locked.
  destruct (queued_ready k k.(current) Hok Hq) as [Hr Hi].
  destruct (unready_parked k Hok Hq) as (HP1 & Hw1 & Ht1). set (k1 := unready_thread _ k) in *.
  destruct (mark_pending_bits (thr k1 k.(current))) as (Bq & Bp & Br).
  assert (parked k.(current) k (on_thread k.(current) z_mark_thread_as_pending k1)) as HP2
    by (apply parked_set; done).
  set (k2 := on_thread k.(current) z_mark_thread_as_pending k1) in *.
  assert (Ht2 : thr k2 k.(current) = z_mark_thread_as_pending (z_mark_thread_as_not_queued (cur k)))
    by (unfold k2; by rewrite thr_eq, Ht1).
  assert (Hp2 : (thr k2 k.(current)).(pended_on) = None)
    by (rewrite Ht2; by apply (ready_unpended nobody k)).
  pose proof (wait_add_ok Hdl _ k2 w k.(current) (pk_core _ _ _ HP2) Hp2) as Hok3.
  set (k3 := _priq_wait_add w _ (on_thread _ _ k2)) in *.
  destruct (add_frame k.(current) timeout k3) as (F1 & F2 & F3).
  set (k4 := (z_add_thread_timeout k.(current) timeout k3).2) in *.
  assert (Et4 : thr k4 k.(current) = set_pended_on (Some w) (thr k2 k.(current)))
    by (unfold thr at 1; rewrite (sc_threads _ _ F1); apply thr_eq).
  assert (parked k.(current) k k4) as HP4.
  { destruct HP2. split; rewrite ?Et4; try done.
    - apply (core_frame _ _ _ F1), Hok3. rewrite Ht2.
      by destruct (mark_pending_bits (z_mark_thread_as_not_queued (cur k))) as (_ & ? & _).
    - etrans; [exact pk_cpu0|]. by etrans; [|exact F2].
    - rewrite F3, (core_best _ _ F1). exact pk_cache0.
    - rewrite (sc_runq _ _ F1). exact pk_runq0.
    - intros x Hne. unfold thr. rewrite (sc_threads _ _ F1). etrans; [by apply thr_ne|]. auto. }
  split; [done| | |by rewrite Et4, Ht2].
  - apply (parked_ok _ _ _ HP4). rewrite Et4, Ht2.
    by destruct (mark_pending_bits (z_mark_thread_as_not_queued (cur k))) as (_ & _ & ?).
  - intros v. rewrite (sc_waitqs _ _ F1). unfold k3, _priq_wait_add. rewrite waitq_upd.
    assert (HSP : same_prios k (on_thread k.(current) (set_pended_on (Some w)) k2)).
    { intros x. rewrite thr_upd. destruct (decide (x = k.(current))) as [->|Hne].
      - rewrite Ht2. done.
      - by rewrite (pk_others _ _ _ HP2). }
    change (waitqs (on_thread _ _ k2)) with k1.(waitqs). rewrite Hw1.
    case_decide; [|done]. by apply (same_prios_add k).
Qed.

(** [blocks_on w k k']: the running thread of [k] waits on [w] and another
    thread, the best ready one, runs. *)
Record blocks_on (w : wqid) (k k' : kernel) : Prop := {
  bl_ok : kernel_ok k';
  bl_current : k'.(current) = best k';
  bl_switch : k'.(current) <> k.(current);
  bl_runq : rq_abs k'.(runq) = z_priq_simple_remove (rq_abs k.(runq)) k.(current);
  bl_waitqs : forall v, k'.(waitqs) v =
    if decide (v = w) then z_priq_simple_add k.(threads) (k.(waitqs) w) k.(current) else k.(waitqs) v;
  bl_others : forall x, x <> k.(current) -> thr k' x = thr k x;
  bl_thread : thr k' k.(current) = set_swap_retval (- EAGAIN)
    (set_pended_on (Some w) (z_mark_thread_as_pending (z_mark_thread_as_not_queued (cur k))));
  bl_idle : k'.(idle_thread) = k.(idle_thread);
  bl_isr : k'.(in_isr) = k.(in_isr);
  bl_irq : k'.(irq_locked) = k.(irq_locked)
}.

Lemma pended_blocks w k k1 : pended w k k1 -> k.(current) <> k.(idle_thread) ->
  blocks_on w k (do_swap k1).
Proof.
  intros [HP Hok Hw Ht] Hi. pose proof (do_swap_swapped k1) as Hs.
  destruct (swapped_ok k1 _ Hok Hs) as [Hok' _]. destruct (swapped_threads _ _ Hs) as [Hx Hc].
  destruct Hs as [S1 S2 SC S4 S5]. pose proof HP as [_ [Pc Pi Pq Pd _ _] Pb Pr Po _ _].
  pose proof (parked_cache_ne _ _ _ HP Hi) as Hne.
  split; try congruence.
  - rewrite S1, Pb. symmetry. by rewrite (core_best _ _ SC).
  - rewrite (sc_runq _ _ SC). exact Pr.
  - intros v. rewrite (sc_waitqs _ _ SC). apply Hw.
  - intros x Hx'. rewrite Hx by congruence. auto.
  - rewrite <- Pc, Hc. unfold cur at 1. rewrite Pc, Ht. done.
  - rewrite (sc_idle _ _ SC). exact Pd.
Qed.

Lemma pend_curr_spec k w timeout : kernel_ok k -> k.(in_isr) = false ->
  z_is_thread_queued (cur k) = true ->
  exists k', z_pend_curr w timeout k = (Blocks, k') /\ blocks_on w k k'.
Proof.
  intros [Hok _] Hisr Hq. unfold z_pend_curr. rewrite Hisr.
  destruct (queued_ready k k.(current) Hok Hq) as [_ Hi].
  set (k0 := if _ && _ then _ else k).
  assert (same_core k k0 /\ k0.(current) = k.(current) /\ k0.(in_isr) = k.(in_isr) /\
    k0.(irq_locked) = k.(irq_locked)) as (HC & Hc & H1 & H2)
    by (unfold k0; destruct (_ && _); done).
  assert (Hcur : cur k0 = cur k) by (unfold cur, thr; by rewrite Hc, (sc_threads _ _ HC)).
  assert (blocks_on w k0 (do_swap (pend_locked k0.(current) (Some w) timeout k0))) as HB.
  { apply pended_blocks; [apply pend_locked_ok|]; [by apply (core_frame _ k)| |].
    - by rewrite Hcur.
    - by rewrite Hc, (sc_idle _ _ HC). }
  eexists. split.
  - unfold z_swap. cbn [fst snd]. destruct (Nat.eqb_spec (current (do_swap (pend_locked k0.(current) (Some w) timeout k0)))
      (current (pend_locked k0.(current) (Some w) timeout k0))) as [He|_]; [|done].
    exfalso. apply (bl_switch _ _ _ HB). rewrite He.
    assert (core_ok nobody k0) as Hok0 by (by apply (core_frame _ k)).
    apply (cpu_current _ _ (pk_cpu _ _ _ (pd_parked _ _ _ (pend_locked_ok k0 w timeout Hok0 ltac:(by rewrite Hcur))))).
  - destruct HB, HC as [Ht Hr Hw Hid]. unfold thr in *. split; rewrite ?Hc, ?Hcur, ?Ht, ?Hr in *; try done; try congruence.
    intros v. rewrite bl_waitqs0, Hw. done.
Qed.

(** ** Yielding *)

(** After a yield the best of the other ready threads of its priority or better
    runs; the thread itself is queued behind its equals. *)
Lemma sched_yield_ok k : core_ok nobody k -> z_is_thread_queued (cur k) = true ->
  let k' := z_sched_yield k in
  kernel_ok k' /\ k'.(current) = best k' /\
  rq_abs k'.(runq) =
    z_priq_simple_add k.(threads) (z_priq_simple_remove (rq_abs k.(runq)) k.(current)) k.(current).
Proof.
  intros Hok Hq. unfold z_sched_yield. destruct (runq_yield_ok Hdl _ k Hok Hq) as [Hok1 Habs].
  set (k1 := runq_yield k) in *. destruct (update_cache_frame true k1) as [HC HP].
  assert (kernel_ok (update_cache true k1)) as Hok2
    by (split; [by apply update_cache_core|by apply (update_cache_ok Hmi nobody)]).
  pose proof (do_swap_swapped (update_cache true k1)) as Hs.
  destruct (swapped_ok _ _ Hok2 Hs) as [Hok3 _]. destruct Hs as [S1 S2 SC _ _]. split; [done|split].
  - rewrite S1. destruct (update_cache_cache Hmi nobody true k1 Hok1) as [->|[? _]]; [|done].
    symmetry. rewrite (core_best _ _ SC). apply (core_best _ _ HC).
  - rewrite (sc_runq _ _ SC). change (runq (on_thread _ _ (update_cache true k1))) with (update_cache true k1).(runq).
    by rewrite (sc_runq _ _ HC).
Qed.

(** ** Priorities *)

Lemma set_prio_unqueued E k t p : core_ok E k -> valid_prio p -> t ∉ rq_abs k.(runq) ->
  (thr k t).(pended_on) = None -> core_ok E (on_thread t (set_prio p) k).
Proof.
  intros Hok Hp Hq Hn. destruct (Hok). set (k1 := on_thread t (set_prio p) k).
  assert (Hx : forall x, x <> t -> thr k1 x = thr k x) by (intros; by apply thr_ne).
  assert (Et : thr k1 t = set_prio p (thr k t)) by apply thr_eq.
  apply (core_step E E k k1 t); rewrite ?Et; auto.
  - destruct (ok_ready t) as [?|Hr]; [by left|right]. unfold run_state_ok in *. by rewrite Et.
  - apply (rq_frame_law k.(threads)); [done|]. intros x Hin.
    change (k1.(threads) x) with (thr k1 x). rewrite Hx by (intros ->; done). done.
  - intros w. split; [|apply ok_waitq]. apply (sorted_frame k.(threads)); [apply ok_waitq|].
    intros x Hin. change (k1.(threads) x) with (thr k1 x). rewrite Hx; [done|].
    intros ->. apply ok_pended in Hin. congruence.
  - intros w. apply ok_pended.
  - intros ->. apply ok_idle.
Qed.

Lemma set_prio_pended E k t w p : core_ok E k -> valid_prio p -> (thr k t).(pended_on) = Some w ->
  t ∉ rq_abs k.(runq) ->
  core_ok E (_priq_wait_add w t (on_thread t (set_prio p) (_priq_wait_remove w t k))).
Proof.
  intros Hok Hp Hw Hq. pose proof (pended_not_idle _ _ _ _ Hok Hw) as Hi. destruct (Hok).
  set (k1 := on_thread t (set_prio p) k).
  assert (Hx : forall x, x <> t -> k1.(threads) x = k.(threads) x) by (intros; by apply thr_ne).
  assert (Hsort : forall q, prio_sorted k.(threads) q -> t ∉ q -> prio_sorted k1.(threads) q).
  { intros q Hs Hn. apply (sorted_frame k.(threads)); [done|]. intros x Hin.
    rewrite Hx by (intros ->; done). done. }
  assert (Ew : forall v, (_priq_wait_add w t (on_thread t (set_prio p) (_priq_wait_remove w t k))).(waitqs) v =
    if decide (v = w) then z_priq_simple_add k1.(threads) (z_priq_simple_remove (k.(waitqs) w) t) t
    else k.(waitqs) v).
  { intros v. unfold _priq_wait_add. rewrite waitq_upd. unfold _priq_wait_remove.
    change (waitqs (on_thread t _ (on_waitq w ?f k))) with (on_waitq w f k).(waitqs).
    rewrite !waitq_upd. rewrite (decide_True (P:=w = w)) by done. by repeat case_decide. }
  assert (Et : thr (_priq_wait_add w t (on_thread t (set_prio p) (_priq_wait_remove w t k))) t =
    set_prio p (thr k t)) by exact (thr_eq (_priq_wait_remove w t k) t (set_prio p)).
  apply (core_step E E k _ t); rewrite ?Et; try done.
  - destruct (ok_ready t) as [?|Hr]; [by left|right]. unfold run_state_ok in *. by rewrite Et.
  - apply (rq_frame_law k.(threads)); [done|]. intros x Hin.
    assert (x <> t) as Hne by (intros ->; done). by rewrite <- (Hx x Hne).
  - intros v. rewrite Ew. case_decide; subst.
    + split; [|apply add_nodup; [apply remove_nodup, ok_waitq|rewrite elem_of_remove; naive_solver]].
      apply (add_sorted k1.(threads)); [by apply deadlines_off|]. apply Hsort; [apply remove_sorted, ok_waitq|].
      rewrite elem_of_remove. naive_solver.
    + split; [|apply ok_waitq]. apply (Hsort (k.(waitqs) v)); [apply ok_waitq|]. rewrite ok_pended. congruence.
  - intros v x Hne. rewrite Ew. case_decide; [|done]. subst. rewrite elem_of_add, elem_of_remove. naive_solver.
  - intros v. rewrite Ew. simpl. rewrite Hw. case_decide; subst.
    + rewrite elem_of_add. naive_solver.
    + rewrite ok_pended, Hw. naive_solver.
  - apply (ok_pending t).
Qed.

(** Changing a priority keeps every queue ordered. *)
Definition prio_changed (k k' : kernel) (t : tid) (p : Z) : Prop :=
  kernel_ok k' /\ same_cpu k k' /\ (thr k' t).(prio) = p /\ forall x, x <> t -> thr k' x = thr k x.

Lemma prio_set_ready k t p : core_ok nobody k -> valid_prio p -> t <> k.(idle_thread) ->
  z_is_thread_ready (thr k t) = true -> prio_changed k (z_thread_prio_set t p k).2 t p.
Proof.
  intros Hok Hp Hi Hr. unfold z_thread_prio_set. rewrite Hr. cbn [snd].
  pose proof (ready_queued k t Hok Hr Hi) as Hq.
  destruct (dequeue_thread_ok _ k t Hok Hq) as [Hok1 Hd]. set (k1 := dequeue_thread t k) in *.
  assert (Et1 : thr k1 t = z_mark_thread_as_not_queued (thr k t)) by apply thr_eq.
  destruct (queued_not_ready_bits (thr k t)) as (_ & Br & _ & Bq).
  assert (core_ok (fun x => nobody x \/ x = t) (on_thread t (set_prio p) k1)) as Hok2.
  { apply set_prio_unqueued; [done..| |].
    - rewrite Hd, elem_of_remove. naive_solver.
    - rewrite Et1. by apply (ready_unpended nobody k). }
  set (k2 := on_thread t (set_prio p) k1) in *.
  assert (Et2 : thr k2 t = set_prio p (z_mark_thread_as_not_queued (thr k t)))
    by (unfold k2; by rewrite thr_eq, Et1).
  destruct (queue_thread_ok Hdl _ k2 t Hok2) as [Hok3 _]; [by rewrite Et2|rewrite Et2; exact (eq_trans Br Hr)|done|].
  apply (core_weaken _ nobody) in Hok3; [|unfold nobody; naive_solver].
  destruct (update_cache_frame true (queue_thread t k2)) as [[Ht _ _ _] HP].
  split; [split; [by apply update_cache_core|by apply (update_cache_ok Hmi nobody)]|].
  split; [by etrans; [|exact HP]|]. unfold thr at 1 2. rewrite Ht. split.
  - change (prio (thr (on_thread t z_mark_thread_as_queued k2) t) = p). by rewrite thr_eq, Et2.
  - intros x Hne. etrans; [by apply (thr_ne k2)|]. etrans; [by apply (thr_ne k1)|]. by apply (thr_ne k).
Qed.

Lemma prio_set_ok k t p : kernel_ok k -> valid_prio p -> t <> k.(idle_thread) ->
  (t = k.(current) -> z_is_thread_ready (thr k t) = true) ->
  prio_changed k (z_thread_prio_set t p k).2 t p.
Proof.
  intros [Hok Hc] Hp Hi Hcur. destruct (z_is_thread_ready (thr k t)) eqn:Hr; [by apply prio_set_ready|].
  assert (t <> k.(current)) as Hnc by (intros ->; by specialize (Hcur eq_refl)).
  assert (t ∉ rq_abs k.(runq)) as Hq.
  { rewrite (ok_queued _ _ Hok). intros [? _]%queued_ready; [congruence|done]. }
  assert (Hdone : forall k', core_ok nobody k' -> k'.(runq) = k.(runq) -> k'.(cache) = k.(cache) -> same_cpu k k' ->
    (thr k' t).(prio) = p -> (forall x, x <> t -> thr k' x = thr k x) -> prio_changed k k' t p).
  { intros k' Hok' Hrq Hca HP Hpr Hx. split; [|done]. split; [done|].
    revert Hc. apply cache_frame; [by rewrite Hrq|apply HP|done|apply HP|].
    unfold cooperating, cur. rewrite (cpu_current _ _ HP), Hx by done. done. }
  unfold z_thread_prio_set. rewrite Hr. cbn [snd].
  destruct (pended_on (thr k t)) as [w|] eqn:Hw.
  - rewrite (ok_pending _ _ Hok t) by congruence.
    apply Hdone; try done; [by apply set_prio_pended| |].
    + exact (f_equal prio (thr_eq (_priq_wait_remove w t k) t (set_prio p))).
    + intros x Hne. exact (thr_ne (_priq_wait_remove w t k) t (set_prio p) x Hne).
  - assert (prio_changed k (on_thread t (set_prio p) k) t p) as HF.
    { apply Hdone; try done; [by apply set_prio_unqueued|by rewrite thr_eq|by intros; apply thr_ne]. }
    by destruct (z_is_thread_pending (thr k t)).
Qed.

End spec.
