(* ===== verification/ThreadApi.v ===== *)
(** Thread lifecycle: kernel/thread.c, kernel/sleep.c and kernel/deadline.c.

    Creation, start, sleep, wakeup, suspend, resume, priority change, yield, join
    and abort of threads over the scheduler of [Sched]. *)

From S2P Require Import Prelude Thread PriorityQ Timeout Sched SchedOk SchedSpec.

#[local] Open Scope Z_scope.

Definition EDEADLK : Z := 45.

Section api.
Context `{Cfg : Config} {RQ : RunQueue} {TB : TimeoutBackend}.

(** ** thread.c *)

Definition k_is_in_isr (k : kernel) : bool := k.(in_isr).
Definition k_is_preempt_thread (k : kernel) : bool :=
  negb k.(in_isr) && thread_is_preemptible (cur k).
Definition k_thread_priority_get (t : tid) (k : kernel) : Z := (thr k t).(prio).

Definition k_thread_priority_set (t : tid) (p : Z) (k : kernel) : kernel :=
  let '(need_sched, k1) := z_thread_prio_set t p k in
  if need_sched && ((cur k1).(sched_locked) =? 0) then z_reschedule_unlocked k1 else k1.

Definition k_thread_suspend (t : tid) (k : kernel) : kernel :=
  if (t =? k.(current))%nat && negb k.(in_isr) then z_thread_suspend_current t k
  else if z_is_thread_suspended (thr k t) then k
  else z_thread_halt t false k.

Definition k_thread_resume (t : tid) (k : kernel) : kernel :=
  if negb (z_is_thread_suspended (thr k t)) then k
  else reschedule_locked (ready_thread t (on_thread t z_mark_thread_as_not_suspended k)).

Definition k_wakeup (t : tid) (k : kernel) : kernel :=
  if z_is_thread_sleeping (thr k t) then
    reschedule_locked
      (ready_thread t (on_thread t z_mark_thread_as_not_sleeping (z_try_abort_thread_timeout t k).2))
  else k.

(** include/zephyr/kernel.h *)
Definition k_thread_start (t : tid) (k : kernel) : kernel := k_wakeup t k.

Definition z_thread_abort (t : tid) (k : kernel) : kernel :=
  let essential := z_is_thread_essential (thr k t) in
  if z_is_thread_dead (thr k t) then k
  else let k1 := z_thread_halt t true k in if essential then k_panic k1 else k1.
Definition k_thread_abort (t : tid) (k : kernel) : kernel := z_thread_abort t k.

Definition k_thread_join (t : tid) (timeout : Z) (k : kernel) : outcome * kernel :=
  if z_is_thread_dead (thr k t) then (Returns 0, k)
  else if timeout =? K_NO_WAIT then (Returns (- EBUSY), k)
  else if (t =? k.(current))%nat || bool_decide ((thr k t).(pended_on) = Some (cur k).(join_queue))
  then (Returns (- EDEADLK), k)
  else let k1 := add_to_waitq_locked k.(current) (Some (thr k t).(join_queue)) k in
       z_swap (z_add_thread_timeout k.(current) timeout k1).2.

Definition k_yield (k : kernel) : kernel := z_sched_yield k.

(** Creation: the fields of [struct k_thread] the model has. *)
Definition z_init_thread_base (priority initial_state options : Z) (th : k_thread) : k_thread :=
  set_sched_locked 0 (set_prio priority (set_thread_state (u8 initial_state)
    (set_user_options (u16 options) (set_pended_on None th)))).

Definition z_setup_new_thread (t : tid) (p options : Z) (k : kernel) : kernel :=
  let k1 := z_waitq_init (thr k t).(join_queue) k in
  let k2 := on_thread t (z_init_thread_base p _THREAD_SLEEPING options) k1 in
  let k3 := on_thread t (fun th => set_orig_prio th.(prio) (set_mutex_pended_on None
              (set_held_mutexes [] th))) k2 in
  if CONFIG_SCHED_DEADLINE then on_thread t (set_prio_deadline 0) k3 else k3.

(** kthread.h *)
Definition thread_schedule_new (t : tid) (delay : Z) (k : kernel) : kernel :=
  if delay =? K_NO_WAIT then k_thread_start t k else (z_add_thread_timeout t delay k).2.

Definition k_thread_create (t : tid) (p options delay : Z) (k : kernel) : kernel :=
  thread_schedule_new t delay (z_setup_new_thread t p options k).

(** ** sleep.c

    [k_sleep_ticks] is the call up to the switch; it gives the tick the wakeup is
    expected at, which [sleep_left] turns into the result when the thread runs
    again. *)
Definition k_sleep_ticks (timeout : Z) (k : kernel) : Z * kernel :=
  if timeout =? K_NO_WAIT then (0, k_yield k)
  else
    let k0 := if CONFIG_TIMESLICING && CONFIG_SWAP_NONATOMIC
              then with_pending_current (Some k.(current)) k else k in
    let k1 := unready_thread k0.(current) k0 in
    let '(ticks, k2) := z_add_thread_timeout k.(current) timeout k1 in
    (u32 ticks, do_swap (on_thread k.(current) z_mark_thread_as_sleeping k2)).

Definition sleep_left (timeout expected_wakeup_ticks : Z) (k : kernel) : Z :=
  if timeout =? K_NO_WAIT then 0
  else if timeout =? K_FOREVER then K_TICKS_FOREVER
  else let left_ticks := u32 (expected_wakeup_ticks - sys_clock_tick_get_32 k.(clk)) in
       let signed_left := i32 left_ticks in
       if signed_left <? 0 then 0 else signed_left.

(** ** deadline.c; the cycle counter is an argument. *)

Definition z_sched_prio_deadline_set (t : tid) (deadline : Z) (k : kernel) : kernel :=
  if z_is_thread_queued (thr k t)
  then queue_thread t (on_thread t (set_prio_deadline deadline) (dequeue_thread t k))
  else on_thread t (set_prio_deadline deadline) k.
Definition k_thread_absolute_deadline_set (t : tid) (deadline : Z) (k : kernel) : kernel :=
  z_sched_prio_deadline_set t deadline k.
Definition k_thread_deadline_set (cycles : Z) (t : tid) (deadline : Z) (k : kernel) : kernel :=
  let deadline := Z.min (Z.max deadline 0) (INT32_MAX / 2) in
  let newdl := u32 (cycles + u32 deadline) in
  k_thread_absolute_deadline_set t (i32 newdl) k.

End api.
