(* ===== verification/ThreadSpec.v ===== *)
(** The thread operations of [ThreadApi] and the interrupt-side operations of
    [Sched] keep the scheduler's invariant. *)

From S2P Require Import Prelude Thread PriorityQ Timeout Sched SchedOk SchedSpec ThreadApi.

#[local] Open Scope Z_scope.

(** Decide a statement about state bits by cases on each bit. *)
Ltac bit_cases :=
  state_bits; repeat (rewrite testbit_set by lia || rewrite testbit_clear by lia); simpl;
  repeat match goal with |- context [Z.testbit ?s ?n] => destruct (Z.testbit s n) end; done.

Section ops.
Context `{Cfg : Config} {RQ : RunQueue} {TB : TimeoutBackend}.
Context (Hdl : CONFIG_SCHED_DEADLINE = false) (Hmi : CONFIG_NUM_METAIRQ_PRIORITIES <= 0).

(** ** Making a thread ready *)

(** A change of a state bit that keeps the thread out of nothing: what
    [ready_thread] needs after it. *)
Record lifts (th th' : k_thread) : Prop := {
  lf_quiet : quiet th th';
  lf_ready : z_is_thread_ready th = true -> z_is_thread_ready th' = true;
  lf_preempt : thread_is_preemptible th' = thread_is_preemptible th
}.

Lemma lifts_not_sleeping th : lifts th (z_mark_thread_as_not_sleeping th).
Proof. split; [split; try done|..|done]; bit_cases. Qed.

Lemma lifts_not_suspended th : lifts th (z_mark_thread_as_not_suspended th).
Proof. split; [split; try done|..|done]; bit_cases. Qed.

Lemma lift_ready_ok k t f : kernel_ok k -> t <> k.(idle_thread) -> lifts (thr k t) (f (thr k t)) ->
  kernel_ok (ready_thread t (on_thread t f k)) /\ same_cpu k (ready_thread t (on_thread t f k)).
Proof.
  intros [Hok Hc] Hi [HQ Hr Hp]. set (k1 := on_thread t f k).
  assert (core_ok (fun x => nobody x \/ x = t) k1) as Hok1
    by (apply core_quiet; [done..|intros ?; done]).
  destruct (ready_thread_ok Hdl Hmi nobody k1 t) as [Hok2 Hc2]; [done..| |].
  { unfold k1. rewrite thr_eq, (q_queued _ _ HQ). intros [? _]%queued_ready; auto. }
  split; [split; [done|]|].
  - apply Hc2. apply cache_on_thread; [|done]. intros _ H. auto.
  - unfold ready_thread. case_match; [|done]. by destruct (update_cache_frame false (queue_thread t k1)) as [_ [? ? ? ? ? ?]].
Qed.

Lemma wake_thread_ok k t : kernel_ok k -> t <> k.(idle_thread) ->
  kernel_ok (z_sched_wake_thread_locked t k) /\ same_cpu k (z_sched_wake_thread_locked t k).
Proof.
  intros Hok Hi. unfold z_sched_wake_thread_locked. destruct (is_set _ _); [done|].
  destruct (pended_on (thr k t)) as [w|] eqn:Hp; [|by apply lift_ready_ok, lifts_not_sleeping].
  destruct Hok as [Hok Hc]. pose proof (detached_unpend k t w Hok Hp) as HD.
  apply (detached_set _ _ _ _ z_mark_thread_as_not_sleeping) in HD; [|done|apply lifts_not_sleeping].
  apply (detached_wakes Hdl Hmi) in HD; [|done]. destruct HD.
  split; [|done]. split; [done|]. apply wk_cache; [done|]. by apply (pended_not_queued k t w).
Qed.

Lemma thread_timeout_ok k t : kernel_ok k -> t <> k.(idle_thread) ->
  kernel_ok (z_thread_timeout t k) /\ same_cpu k (z_thread_timeout t k).
Proof. intros. unfold z_thread_timeout. destruct (negb _); [by apply wake_thread_ok|done]. Qed.

(** [sys_ok]: the invariant between calls.  In a thread's context the running
    thread is ready. *)
Definition sys_ok (k : kernel) : Prop :=
  kernel_ok k /\ (k.(in_isr) = false -> z_is_thread_ready (cur k) = true).

(** The best thread, and the cached one, can always run. *)
Lemma best_ready k : core_ok nobody k -> z_is_thread_ready (thr k (best k)) = true.
Proof.
  intros Hok. unfold best.
  destruct (head (rq_abs k.(runq))) as [x|] eqn:Hh; simpl; [|apply (ok_idle _ _ Hok)].
  apply queued_ready; [done|]. apply (ok_queued _ _ Hok).
  destruct (rq_abs k.(runq)); [done|simplify_eq/=; set_solver +].
Qed.

Lemma cache_ready k : kernel_ok k -> z_is_thread_ready (thr k k.(cache)) = true.
Proof. intros [Hok [->|[-> [Hr _]]]]; [by apply best_ready|done]. Qed.

Lemma swapped_sys k k' : kernel_ok k -> swapped k k' -> sys_ok k'.
Proof.
  intros Hok Hs. destruct (swapped_ok _ _ Hok Hs) as [Hok' _]. split; [done|]. intros _.
  unfold cur. rewrite (sw_current _ _ Hs), <- (sw_cache _ _ Hs). by apply cache_ready.
Qed.

Lemma reschedule_sys k : kernel_ok k -> (k.(in_isr) = false -> z_is_thread_ready (cur k) = true) ->
  sys_ok (reschedule k).
Proof.
  intros Hok Hr. unfold reschedule. destruct (_ && _); [|by split].
  apply (swapped_sys k); [done|apply do_swap_swapped].
Qed.

(** ** Halting a thread *)

Definition halts (s : Z) : Prop := s = _THREAD_DEAD \/ s = _THREAD_SUSPENDED.

Lemma halt_bits s th : halts s ->
  quiet th (set_state_bits s th) /\ z_is_thread_ready (set_state_bits s th) = false.
Proof. intros [-> | ->]; (split; [split; try done|]); bit_cases. Qed.

(** The thread [t] is marked and taken out of the run queue. *)
Lemma halt_dequeue_ok k t s : core_ok nobody k -> t <> k.(idle_thread) -> halts s ->
  let k1 := on_thread t (set_state_bits s) k in
  let k2 := if z_is_thread_queued (thr k1 t) then dequeue_thread t k1 else k1 in
  core_ok nobody k2 /\ same_cpu k k2 /\ k2.(waitqs) = k.(waitqs) /\
  (forall x, x <> t -> thr k2 x = thr k x) /\
  (thr k2 t = set_state_bits s (thr k t) \/ thr k2 t = z_mark_thread_as_not_queued (set_state_bits s (thr k t))) /\
  z_is_thread_ready (thr k2 t) = false.
Proof.
  intros Hok Hi Hs k1 k2. destruct (halt_bits s (thr k t) Hs) as [HQ Hr].
  assert (core_ok (fun x => nobody x \/ x = t) k1) as Hok1 by (apply core_quiet; [done..|intros ?; done]).
  assert (Et : thr k1 t = set_state_bits s (thr k t)) by apply thr_eq.
  assert (Hx : forall x, x <> t -> thr k1 x = thr k x) by (intros; by apply thr_ne).
  unfold k2. destruct (z_is_thread_queued (thr k1 t)) eqn:Hq.
  - destruct (dequeue_thread_ok _ k1 t Hok1 Hq) as [Hok2 _].
    destruct (queued_not_ready_bits (thr k1 t)) as (_ & Br & _ & Bq).
    assert (Et2 : thr (dequeue_thread t k1) t = z_mark_thread_as_not_queued (set_state_bits s (thr k t))).
    { rewrite <- Et. apply (thr_eq k1). }
    assert (Hr2 : z_is_thread_ready (thr (dequeue_thread t k1) t) = false) by (rewrite Et2; congruence).
    split; [|split; [done|split; [done|split; [|by eauto]]]].
    + apply (core_close _ _ t); [by eapply core_weaken; [|exact Hok2]; naive_solver|].
      unfold run_state_ok. rewrite Hr2, Et2, <- Et, Bq. naive_solver.
    + intros x Hne. rewrite <- Hx by done. by apply (thr_ne k1).
  - split; [|split; [done|split; [done|split; [done|rewrite Et; by eauto]]]].
    apply (core_close _ _ t); [done|]. unfold run_state_ok. rewrite Hq, Et, Hr. naive_solver.
Qed.

Lemma unpend_halted k t : core_ok nobody k ->
  z_is_thread_ready (z_mark_thread_as_not_pending (thr k t)) = false ->
  let k' := match (thr k t).(pended_on) with Some _ => unpend_thread_no_timeout t k | None => k end in
  core_ok nobody k' /\ same_cpu k k' /\ (forall x, x <> t -> thr k' x = thr k x).
Proof.
  intros Hok Hr. destruct (pended_on (thr k t)) as [w|] eqn:Hp; [|done].
  destruct (detached_unpend k t w Hok Hp). split; [|done].
  apply (core_close _ _ t); [by eapply core_weaken; [|exact dt_core]; auto|].
  unfold run_state_ok. rewrite dt_queued, (unpend_thread k t w) by done.
  change (z_is_thread_ready (released (thr k t))) with (z_is_thread_ready (z_mark_thread_as_not_pending (thr k t))).
  rewrite Hr. naive_solver.
Qed.

(** The dummy thread's object is not in use as a thread. *)
Definition dummy_free (k : kernel) : Prop :=
  k.(thread_dummy) <> k.(idle_thread) /\ z_is_thread_queued (thr k k.(thread_dummy)) = false /\
  (thr k k.(thread_dummy)).(pended_on) = None.

Lemma dummy_init_ok k : core_ok nobody k -> k.(cache) = best k -> dummy_free k ->
  kernel_ok (z_dummy_thread_init k) /\ (z_dummy_thread_init k).(in_isr) = k.(in_isr).
Proof.
  intros Hok Hc (Hi & Hq & Hp). unfold z_dummy_thread_init. set (d := k.(thread_dummy)) in *.
  set (f := fun th => set_orig_prio _ _). set (k1 := on_thread d f k).
  assert (z_is_thread_queued (f (thr k d)) = false /\ z_is_thread_ready (f (thr k d)) = false) as [Bq Br] by done.
  assert (core_ok nobody k1) as Hok1.
  { apply (core_close _ _ d).
    - apply core_quiet; [done| |done]. by split; [..|rewrite Hp].
    - unfold run_state_ok, k1. rewrite thr_eq, Bq, Br. naive_solver. }
  split; [|done]. split; [by eapply core_frame; [|exact Hok1]; done|left; exact Hc].
Qed.

Lemma halt_dead_ok k t : core_ok nobody k ->
  z_is_thread_ready (z_mark_thread_as_not_pending (thr k t)) = false ->
  let k3 := match (thr k t).(pended_on) with Some _ => unpend_thread_no_timeout t k | None => k end in
  let k4 := (z_try_abort_thread_timeout t k3).2 in
  let k5 := unpend_all (thr k4 t).(join_queue) k4 in
  core_ok nobody k5 /\ same_cpu k k5 /\
  (forall x, x <> t -> (thr k x).(pended_on) = None -> thr k5 x = thr k x).
Proof.
  intros Hok Hr k3 k4 k5. destruct (unpend_halted k t Hok Hr) as (Hok3 & HP3 & Hx3).
  destruct (abort_frame t k3) as (F1 & F2 & _). fold k4 in F1, F2.
  assert (core_ok nobody k4) as Hok4 by (by eapply core_frame; [exact F1|]).
  destruct (unpend_all_ok Hdl Hmi (Some 0) (thr k4 t).(join_queue) _ k4 Hok4 (le_n _)) as (Hok5 & _ & HP5 & _ & Hx5).
  split; [exact Hok5|]. split; [etrans; [exact HP3|]; etrans; [exact F2|exact HP5]|].
  assert (forall x, thr k4 x = thr k3 x) as Hx4 by (intros x; unfold thr; by rewrite (sc_threads _ _ F1)).
  intros x Hne Hp. unfold k5, unpend_all. rewrite Hx5, decide_False, Hx4; [by apply Hx3|].
  rewrite (ok_pended _ _ Hok4), Hx4, Hx3, Hp by done. done.
Qed.

Lemma halt_thread_ok k t s : kernel_ok k -> t <> k.(idle_thread) -> halts s ->
  (k.(in_isr) = true -> dummy_free k /\ t <> k.(thread_dummy)) ->
  kernel_ok (halt_thread t s k) /\ (halt_thread t s k).(in_isr) = k.(in_isr) /\
  (k.(in_isr) = false -> (halt_thread t s k).(current) = k.(current) /\
     forall x, x <> t -> (thr k x).(pended_on) = None -> thr (halt_thread t s k) x = thr k x).
Proof.
  intros [Hok Hc] Hi Hs Hd. unfold halt_thread. destruct (_ =? 0); [|done].
  destruct (halt_dequeue_ok k t s Hok Hi Hs) as (Hok2 & HP2 & _ & Hx2 & Et2 & Hr2).
  set (k1 := on_thread t (set_state_bits s) k) in *.
  set (k2 := if z_is_thread_queued (thr k1 t) then dequeue_thread t k1 else k1) in *.
  assert (HU : forall k3, core_ok nobody k3 -> same_cpu k k3 -> core_ok nobody (update_cache true k3) /\
    (update_cache true k3).(cache) = best (update_cache true k3) /\ same_cpu k (update_cache true k3) /\
    forall x, thr (update_cache true k3) x = thr k3 x).
  { intros k3 Hok3 HP3. destruct (update_cache_frame true k3) as [HC HP].
    split; [by apply update_cache_core|]. split; [|split; [by etrans|]].
    - rewrite (core_best _ _ HC). by destruct (update_cache_cache Hmi nobody true k3 Hok3) as [?|[? _]].
    - intros x. unfold thr. by rewrite (sc_threads _ _ HC). }
  assert (HK : forall k6, core_ok nobody k6 -> k6.(cache) = best k6 -> same_cpu k k6 ->
    (forall x, x <> t -> (thr k x).(pended_on) = None -> thr k6 x = thr k x) ->
    kernel_ok k6 /\ k6.(in_isr) = k.(in_isr) /\ (k.(in_isr) = false -> k6.(current) = k.(current) /\
      forall x, x <> t -> (thr k x).(pended_on) = None -> thr k6 x = thr k x)).
  { intros k6 ? ? HP6 Hx. split; [split; [done|by left]|]. split; [apply HP6|]. intros _.
    split; [apply HP6|done]. }
  destruct Hs as [-> | ->]; cycle 1.
  { change (_THREAD_SUSPENDED =? _THREAD_DEAD) with false. cbn iota beta.
    destruct (HU k2 Hok2 HP2) as (Hok6 & Hc6 & HP6 & Hx6). apply HK; [done..|].
    intros x Hne _. by rewrite Hx6, Hx2. }
  change (_THREAD_DEAD =? _THREAD_DEAD) with true. change (_THREAD_DEAD =? _THREAD_SUSPENDED) with false.
  cbn iota beta.
  destruct (halt_dead_ok k2 t Hok2) as (Hok5 & HP5 & Hx5); [destruct Et2 as [-> | ->]; bit_cases|].
  set (k5 := unpend_all _ _) in *. destruct (HU k5 Hok5 ltac:(by etrans)) as (Hok6 & Hc6 & HP6 & Hx6).
  destruct (_ && k5.(in_isr)) eqn:Hdum; [|apply HK; [done..|]; intros x Hne Hp; by rewrite Hx6, Hx5, Hx2 by (rewrite ?Hx2; done)].
  apply andb_true_iff in Hdum as [_ Hisr]. rewrite (cpu_isr _ _ HP5), (cpu_isr _ _ HP2) in Hisr.
  destruct (Hd Hisr) as [(Hdi & Hdq & Hdp) Hdt].
  destruct (dummy_init_ok (update_cache true k5) Hok6 Hc6) as [Hok7 Hi7].
  { unfold dummy_free. rewrite (cpu_dummy _ _ HP6), (cpu_idle _ _ HP6), Hx6, Hx5, Hx2 by (rewrite ?Hx2; done). done. }
  destruct HP6. split; [done|]. split; [congruence|]. intros ?. congruence.
Qed.

Lemma metairq_clear_off t k : z_metairq_preempted_clear t k = k.
Proof.
  unfold z_metairq_preempted_clear. destruct (Z.ltb_spec 0 CONFIG_NUM_METAIRQ_PRIORITIES); [lia|done].
Qed.

Lemma panic_ok k : kernel_ok k -> kernel_ok (k_panic k).
Proof. intros [Hok Hc]. split; [by eapply core_frame; [|exact Hok]; done|exact Hc]. Qed.

Lemma thread_halt_sys k t b : sys_ok k -> t <> k.(idle_thread) ->
  (k.(in_isr) = true -> dummy_free k /\ t <> k.(thread_dummy)) -> sys_ok (z_thread_halt t b k).
Proof.
  intros [Hok Hr] Hi Hd. unfold z_thread_halt. rewrite metairq_clear_off.
  set (s := if b then _ else _). assert (halts s) as Hs by (unfold s, halts; destruct b; auto).
  destruct (halt_thread_ok k t s Hok Hi Hs Hd) as (Hok1 & Hisr & Hx). set (k1 := halt_thread t s k) in *.
  destruct (Nat.eqb_spec t k1.(current)) as [Heq|Hne]; simpl.
  - destruct (k1.(in_isr)) eqn:Hi1; simpl; [split; [done|congruence]|].
    eapply swapped_sys; [|apply do_swap_swapped]. by destruct (z_is_thread_essential _); [apply panic_ok|].
  - split; [done|]. rewrite Hisr. intros Hn. destruct (Hx Hn) as [Hc Hx']. unfold cur.
    rewrite Hc, Hx'; [by apply Hr|congruence|]. by apply (ready_unpended nobody), Hr; [apply Hok|].
Qed.

(** ** The running thread leaves the CPU *)

Lemma parked_swap_sys t k k' : parked t k k' -> z_is_thread_ready (thr k' t) = false -> sys_ok (do_swap k').
Proof. intros HP Hr. eapply swapped_sys; [by apply (parked_ok t k)|apply do_swap_swapped]. Qed.

Lemma sleep_sys k timeout : sys_ok k -> k.(in_isr) = false -> k.(current) <> k.(idle_thread) ->
  sys_ok (k_sleep_ticks timeout k).2.
Proof.
  intros [[Hok Hc] Hr] Hisr Hi. specialize (Hr Hisr).
  pose proof (ready_queued k k.(current) Hok Hr Hi) as Hq.
  unfold k_sleep_ticks. destruct (timeout =? K_NO_WAIT).
  { destruct (sched_yield_ok Hdl Hmi k Hok Hq) as (Hok' & Hcur & _). split; [done|]. intros _.
    unfold cur. cbn [snd]. unfold k_yield. rewrite Hcur. apply best_ready, Hok'. }
  set (k0 := if CONFIG_TIMESLICING && CONFIG_SWAP_NONATOMIC then _ else k).
  assert (core_ok nobody k0 /\ k0.(current) = k.(current) /\ cur k0 = cur k /\ k0.(idle_thread) = k.(idle_thread))
    as (Hok0 & Hc0 & Hcur0 & Hi0).
  { unfold k0. destruct (_ && _); [|done]. split; [|done]. by eapply core_frame; [|exact Hok]; done. }
  destruct (unready_parked Hmi k0 Hok0) as (HP & _ & Et); [by rewrite Hcur0|].
  rewrite Hc0 in *. set (k1 := unready_thread k.(current) k0) in *.
  destruct (add_frame k.(current) timeout k1) as (F1 & F2 & F3).
  destruct (z_add_thread_timeout k.(current) timeout k1) as [ticks k2]. cbn [snd] in *.
  assert (parked k.(current) k0 k2) as HP2.
  { destruct HP. assert (forall x, thr k2 x = thr k1 x) as Hx by (intros x; unfold thr; by rewrite (sc_threads _ _ F1)).
    split; rewrite ?Hx; try done; [by eapply core_frame; [exact F1|]|by etrans|by rewrite F3, (core_best _ _ F1)|by rewrite (sc_runq _ _ F1)|].
    intros x Hne. rewrite Hx. auto. }
  eapply parked_swap_sys.
  - apply parked_set; [exact HP2|congruence|]. split; try done; bit_cases.
  - rewrite thr_eq. bit_cases.
Qed.

Lemma suspend_current_sys k : sys_ok k -> k.(in_isr) = false -> k.(current) <> k.(idle_thread) ->
  sys_ok (z_thread_suspend_current k.(current) k).
Proof.
  intros [[Hok _] Hr] Hisr Hi. specialize (Hr Hisr). unfold z_thread_suspend_current.
  rewrite metairq_clear_off. pose proof (ready_queued k k.(current) Hok Hr Hi) as Hq.
  destruct (halt_dequeue_ok k k.(current) _THREAD_SUSPENDED Hok Hi (or_intror eq_refl)) as (Hok2 & _).
  change (on_thread k.(current) z_mark_thread_as_suspended k) with
    (on_thread k.(current) (set_state_bits _THREAD_SUSPENDED) k).
  destruct (halt_bits _THREAD_SUSPENDED (thr k k.(current)) (or_intror eq_refl)) as [HQ _].
  rewrite thr_eq, (q_queued _ _ HQ), Hq in Hok2.
  eapply swapped_sys; [|apply do_swap_swapped].
  split; [by apply update_cache_core|by apply (update_cache_ok Hmi nobody)].
Qed.

Lemma suspend_sys k t : sys_ok k -> t <> k.(idle_thread) ->
  (k.(in_isr) = true -> dummy_free k /\ t <> k.(thread_dummy)) -> sys_ok (k_thread_suspend t k).
Proof.
  intros Hok Hi Hd. unfold k_thread_suspend. destruct (Nat.eqb_spec t k.(current)) as [->|]; simpl.
  - destruct (k.(in_isr)) eqn:Hisr; simpl.
    + destruct (z_is_thread_suspended _); [done|apply thread_halt_sys; auto].
    + by apply suspend_current_sys.
  - destruct (z_is_thread_suspended _); [done|by apply thread_halt_sys].
Qed.

Lemma panic_sys k : sys_ok k -> sys_ok (k_panic k).
Proof. intros [Hok Hr]. split; [by apply panic_ok|exact Hr]. Qed.

Lemma abort_sys k t : sys_ok k -> t <> k.(idle_thread) ->
  (k.(in_isr) = true -> dummy_free k /\ t <> k.(thread_dummy)) -> sys_ok (k_thread_abort t k).
Proof.
  intros Hok Hi Hd. unfold k_thread_abort, z_thread_abort. destruct (z_is_thread_dead _); [done|].
  pose proof (thread_halt_sys k t true Hok Hi Hd). destruct (z_is_thread_essential _); [by apply panic_sys|done].
Qed.

(** ** Waking threads up *)

(** Waking keeps the running thread running. *)
Lemma wake_then_reschedule k k' : sys_ok k -> kernel_ok k' -> same_cpu k k' ->
  (z_is_thread_ready (cur k) = true -> z_is_thread_ready (thr k' k.(current)) = true) ->
  sys_ok (reschedule k').
Proof.
  intros [_ Hr] Hok' HP Hc. apply reschedule_sys; [done|]. rewrite (cpu_isr _ _ HP). intros Hi.
  unfold cur. rewrite (cpu_current _ _ HP). auto.
Qed.

Lemma requeued_ready th : z_is_thread_ready th = true -> z_is_thread_ready (requeued th) = true.
Proof.
  intros H. unfold requeued. rewrite H. destruct (queued_not_ready_bits th) as [-> _]. done.
Qed.

Lemma ready_thread_cur k t f : lifts (thr k t) (f (thr k t)) ->
  z_is_thread_ready (cur k) = true ->
  z_is_thread_ready (thr (ready_thread t (on_thread t f k)) k.(current)) = true.
Proof.
  intros [_ Hr _] Hc. set (k1 := on_thread t f k).
  assert (z_is_thread_ready (thr k1 k.(current)) = true) as Hc1.
  { unfold k1. rewrite thr_upd. case_decide as E; [|done]. apply Hr. by rewrite <- E. }
  unfold ready_thread. case_match; [|done]. destruct (update_cache_frame false (queue_thread t k1)) as [HC _].
  unfold thr. rewrite (sc_threads _ _ HC). change (z_is_thread_ready (thr (on_thread t z_mark_thread_as_queued k1) k.(current)) = true).
  rewrite thr_upd. case_decide as E; [|done]. destruct (queued_not_ready_bits (thr k1 t)) as [-> _]. by rewrite <- E.
Qed.

Lemma lift_sys k t f : sys_ok k -> t <> k.(idle_thread) -> lifts (thr k t) (f (thr k t)) ->
  sys_ok (reschedule (ready_thread t (on_thread t f k))).
Proof.
  intros Hok Hi Hf. destruct (lift_ready_ok k t f (proj1 Hok) Hi Hf) as [Hok' HP].
  eapply wake_then_reschedule; [exact Hok|done..|]. by apply ready_thread_cur.
Qed.

Lemma resume_sys k t : sys_ok k -> t <> k.(idle_thread) -> sys_ok (k_thread_resume t k).
Proof.
  intros Hok Hi. unfold k_thread_resume. destruct (negb _); [done|].
  by apply lift_sys, lifts_not_suspended.
Qed.

Lemma abort_timeout_sys k t : sys_ok k -> sys_ok (z_try_abort_thread_timeout t k).2.
Proof.
  intros [[Hok Hc] Hr]. destruct (abort_frame t k) as (F1 & F2 & F3).
  split; [split; [by eapply core_frame|by eapply cache_same]|].
  rewrite (cpu_isr _ _ F2). unfold cur, thr. rewrite (cpu_current _ _ F2), (sc_threads _ _ F1). exact Hr.
Qed.

Lemma wakeup_sys k t : sys_ok k -> t <> k.(idle_thread) -> sys_ok (k_wakeup t k).
Proof.
  intros Hok Hi. unfold k_wakeup. destruct (z_is_thread_sleeping _); [|done].
  apply lift_sys; [by apply abort_timeout_sys| |apply lifts_not_sleeping].
  by destruct (abort_frame t k) as (_ & [_ _ _ -> _ _] & _).
Qed.

Lemma sched_wake_sys k w v d : sys_ok k -> sys_ok (reschedule (z_sched_wake w v d k).2).
Proof.
  intros Hok. pose proof (sched_wake_spec Hdl Hmi k w v d (proj1 (proj1 Hok))) as HW.
  destruct (k.(waitqs) w) as [|t r] eqn:Hw.
  { rewrite HW. apply reschedule_sys; apply Hok. }
  destruct HW as (k' & -> & _ & HW). cbn [snd]. destruct HW.
  destruct (waitq_head _ _ _ _ _ (proj1 (proj1 Hok)) Hw) as [Hp _].
  destruct (pended_not_queued k t w (proj1 (proj1 Hok)) Hp) as [Hr _].
  eapply wake_then_reschedule; [exact Hok| |done|].
  - split; [done|]. apply wk_cache; [apply Hok|done].
  - intros Hc. rewrite wk_others; [done|]. intros Heq. unfold cur in Hc. rewrite Heq in Hc. congruence.
Qed.

Lemma unpend_all_sys k w : sys_ok k -> sys_ok (reschedule (z_unpend_all w k).2).
Proof.
  intros Hok. pose proof (proj1 (proj1 Hok)) as Hcore.
  destruct (unpend_all_ok Hdl Hmi None w _ k Hcore (le_n _)) as (H1 & H2 & H3 & H4 & H5).
  eapply wake_then_reschedule; [exact Hok| |exact H3|].
  - split; [done|]. apply H2, Hok.
  - intros Hc. unfold z_unpend_all. cbn [snd]. rewrite H5, decide_False; [done|].
    rewrite (ok_pended _ _ Hcore). by rewrite (ready_unpended nobody).
Qed.

(** ** Joining, priorities and the scheduler lock *)

Lemma pend_sys k w timeout : sys_ok k -> k.(in_isr) = false -> k.(current) <> k.(idle_thread) ->
  sys_ok (do_swap (pend_locked k.(current) (Some w) timeout k)).
Proof.
  intros [[Hok _] Hr] Hisr Hi. eapply swapped_sys; [|apply do_swap_swapped].
  apply (pend_locked_ok Hdl Hmi k w timeout Hok). by apply ready_queued; [|apply Hr|].
Qed.

Lemma pend_curr_sys k w timeout : sys_ok k -> k.(in_isr) = false -> k.(current) <> k.(idle_thread) ->
  sys_ok (z_pend_curr w timeout k).2.
Proof.
  intros [[Hok Hc] Hr] Hisr Hi.
  destruct (pend_curr_spec Hdl Hmi k w timeout) as (k' & -> & []); [done|done|by apply ready_queued; [|apply Hr|]|].
  split; [done|]. intros _. cbn [snd]. unfold cur. rewrite bl_current. by apply best_ready, bl_ok.
Qed.

Lemma join_sys k t timeout : sys_ok k -> k.(in_isr) = false -> k.(current) <> k.(idle_thread) ->
  sys_ok (k_thread_join t timeout k).2.
Proof.
  intros Hok Hisr Hi. unfold k_thread_join. repeat (case_match; [done|]). by apply pend_sys.
Qed.

(** A change of priority touches nothing of the thread but its priority and its
    place in the run queue. *)
Lemma prio_set_thread k t p : exists st, thr (z_thread_prio_set t p k).2 t = set_thread_state st (set_prio p (thr k t)) /\
  z_is_thread_ready (thr (z_thread_prio_set t p k).2 t) = z_is_thread_ready (thr k t) /\
  z_is_thread_pending (thr (z_thread_prio_set t p k).2 t) = z_is_thread_pending (thr k t).
Proof.
  assert (Hsame : exists st, set_prio p (thr k t) = set_thread_state st (set_prio p (thr k t)) /\
    z_is_thread_ready (set_prio p (thr k t)) = z_is_thread_ready (thr k t) /\
    z_is_thread_pending (set_prio p (thr k t)) = z_is_thread_pending (thr k t))
    by (exists (thread_state (thr k t)); by destruct (thr k t)).
  unfold z_thread_prio_set. destruct (z_is_thread_ready (thr k t)) eqn:Hr; cbn [snd].
  - set (k2 := on_thread t (set_prio p) (dequeue_thread t k)).
    destruct (update_cache_frame true (queue_thread t k2)) as [HC _].
    assert (Ht : thr (update_cache true (queue_thread t k2)) t =
      z_mark_thread_as_queued (set_prio p (z_mark_thread_as_not_queued (thr k t)))).
    { unfold thr at 1. rewrite (sc_threads _ _ HC). etrans; [apply (thr_eq k2)|]. f_equal.
      etrans; [apply (thr_eq (dequeue_thread t k))|]. f_equal. apply (thr_eq k). }
    rewrite Ht. eexists. split; [reflexivity|].
    assert (Hbits : forall th, z_is_thread_ready (z_mark_thread_as_queued (set_prio p (z_mark_thread_as_not_queued th))) =
        z_is_thread_ready th /\
      z_is_thread_pending (z_mark_thread_as_queued (set_prio p (z_mark_thread_as_not_queued th))) =
        z_is_thread_pending th) by (intros th; bit_cases). rewrite <- Hr. apply Hbits.
  - destruct (z_is_thread_pending (thr k t)); [destruct (pended_on (thr k t)) as [w|]|];
      [change (thr (_priq_wait_add w t (on_thread t (set_prio p) (_priq_wait_remove w t k))) t)
         with (thr (on_thread t (set_prio p) (_priq_wait_remove w t k)) t); rewrite thr_eq; exact Hsame|
       rewrite thr_eq; exact Hsame..].
Qed.

Lemma prio_set_sys k t p : sys_ok k -> valid_prio p -> t <> k.(idle_thread) ->
  (t = k.(current) -> z_is_thread_ready (thr k t) = true) -> sys_ok (z_thread_prio_set t p k).2.
Proof.
  intros [Hok Hr] Hp Hi Hc. destruct (prio_set_ok Hdl Hmi k t p Hok Hp Hi Hc) as (Hok1 & HP & _ & Hx).
  split; [done|]. rewrite (cpu_isr _ _ HP). intros Hisr. unfold cur. rewrite (cpu_current _ _ HP).
  destruct (decide (k.(current) = t)) as [Heq|Hne]; [|rewrite Hx by done; by apply Hr].
  rewrite Heq. destruct (prio_set_thread k t p) as (st & _ & -> & _). auto.
Qed.

Lemma priority_set_sys k t p : sys_ok k -> valid_prio p -> t <> k.(idle_thread) ->
  (t = k.(current) -> z_is_thread_ready (thr k t) = true) -> sys_ok (k_thread_priority_set t p k).
Proof.
  intros Hok Hp Hi Hc. unfold k_thread_priority_set. pose proof (prio_set_sys k t p Hok Hp Hi Hc) as Hs.
  destruct (z_thread_prio_set t p k) as [need k1]. cbn [snd] in Hs.
  destruct (_ && _); [apply reschedule_sys; apply Hs|done].
Qed.

Lemma lock_sys k : sys_ok k -> 0 <= (cur k).(sched_locked) < 256 -> (cur k).(sched_locked) <> 1 ->
  sys_ok (k_sched_lock k).
Proof.
  intros [[Hok Hc] Hr] Hl H1. unfold k_sched_lock. set (f := fun th => _).
  assert (core_ok nobody (on_thread k.(current) f k)) as Hok' by (by apply core_silent).
  split; [split; [done|]|].
  - revert Hc. apply cache_frame; try done. intros [H2 _]. unfold cooperating, cur.
    change (current (on_thread k.(current) f k)) with k.(current). rewrite thr_eq. split; [done|].
    unfold thread_is_preemptible, preempt, f. apply Z.leb_gt. cbn [set_sched_locked sched_locked prio].
    unfold u8, _PREEMPT_THRESHOLD, _NON_PREEMPT_THRESHOLD.
    pose proof (Z.mod_pos_bound (thr k k.(current)).(prio) 256 ltac:(lia)).
    change (2 ^ 8) with 256. change (cur k) with (thr k k.(current)) in *.
    assert (1 <= ((thr k k.(current)).(sched_locked) - 1) mod 256); [|lia].
    destruct (decide ((thr k k.(current)).(sched_locked) = 0)) as [->|]; [done|].
    rewrite Z.mod_small; lia.
  - intros Hisr. unfold cur. change (current (on_thread k.(current) f k)) with k.(current).
    rewrite thr_eq. by apply Hr.
Qed.

Lemma lock_reschedule_sys k : core_ok nobody k ->
  (k.(in_isr) = false -> z_is_thread_ready (cur k) = true) -> sys_ok (z_sched_lock_reschedule k).
Proof.
  intros Hok Hr. unfold z_sched_lock_reschedule. destruct (update_cache_frame false k) as [HC HP].
  apply reschedule_sys.
  - split; [by apply update_cache_core|by apply (update_cache_ok Hmi nobody)].
  - rewrite (cpu_isr _ _ HP). unfold cur, thr. rewrite (cpu_current _ _ HP), (sc_threads _ _ HC). exact Hr.
Qed.

Lemma unlock_sys k : sys_ok k -> sys_ok (k_sched_unlock k).
Proof.
  intros [[Hok _] Hr]. unfold k_sched_unlock. set (f := fun th => _).
  apply lock_reschedule_sys; [by apply core_silent|]. intros Hisr. unfold cur.
  change (current (on_thread k.(current) f k)) with k.(current). rewrite thr_eq. by apply Hr.
Qed.

(** ** Interrupts *)

Lemma isr_enter_sys k : sys_ok k -> sys_ok (with_in_isr true k).
Proof. intros [[Hok Hc] _]. split; [split; [by eapply core_frame; [|exact Hok]; done|exact Hc]|done]. Qed.

Lemma isr_exit_sys k : sys_ok k -> sys_ok (z_sched_next_handle (with_in_isr false k)).
Proof.
  intros [[Hok Hc] _]. unfold z_sched_next_handle, z_get_next_switch_handle.
  assert (Hok' : core_ok nobody (with_in_isr false k)) by (by eapply core_frame; [|exact Hok]; done).
  pose proof (cache_ready k (conj Hok Hc)) as Hcr.
  destruct (Nat.eqb_spec (current (with_in_isr false k)) (cache (with_in_isr false k))) as [He|Hne].
  - split; [split; [done|exact Hc]|]. intros _. unfold cur. rewrite He. exact Hcr.
  - split; [|intros _; exact Hcr]. split; [by eapply core_frame; [|exact Hok]; done|].
    destruct Hc as [Hc|[Hc _]]; [left; exact Hc|]. by destruct Hne.
Qed.

Lemma slice_reset_sys n k : sys_ok k -> sys_ok (slice_reset n k).
Proof.
  intros [[Hok Hc] Hr]. destruct (slice_reset_frame n k) as [F1 F2].
  assert ((slice_reset n k).(cache) = k.(cache)) as F3 by (unfold slice_reset; by destruct (negb _)).
  split; [split; [by eapply core_frame|by eapply cache_same]|].
  rewrite (cpu_isr _ _ F2). unfold cur, thr. rewrite (cpu_current _ _ F2), (sc_threads _ _ F1). exact Hr.
Qed.

Lemma time_slice_sys k : sys_ok k -> sys_ok (z_time_slice k).
Proof.
  intros Hok. unfold z_time_slice. destruct (_ && _); [by apply slice_reset_sys|].
  set (k1 := if CONFIG_SWAP_NONATOMIC then _ else k).
  assert (sys_ok k1 /\ k1.(current) = k.(current)) as [[[Hok1 Hc1] Hr1] Hcur].
  { unfold k1. destruct CONFIG_SWAP_NONATOMIC; [|done]. destruct Hok as [[Hok Hc] Hr].
    split; [split; [split; [by eapply core_frame; [|exact Hok]; done|exact Hc]|exact Hr]|done]. }
  rewrite <- Hcur. destruct (_ && negb _) eqn:Hb; [|by split].
  apply andb_true_iff in Hb as [Hn Hp]. destruct (k1.(slice_expired)); [|done].
  assert (z_is_thread_queued (cur k1) = true) as Hq.
  { apply ready_queued; [done|exact Hp|]. intros Hi. unfold z_time_slice_size, z_is_idle_thread_object in Hn.
    rewrite Hi, Nat.eqb_refl, orb_true_r in Hn. done. }
  destruct (runq_yield_ok Hdl _ k1 Hok1 Hq) as [Hok2 _].
  assert (sys_ok (move_current_to_end_of_prio_q k1)) as Hok3.
  { unfold move_current_to_end_of_prio_q. destruct (update_cache_frame true (runq_yield k1)) as [HC HP].
    split; [split; [by apply update_cache_core|by apply (update_cache_ok Hmi nobody)]|].
    intros _. unfold cur, thr. rewrite (cpu_current _ _ HP), (sc_threads _ _ HC). exact Hp. }
  destruct (_ =? _)%nat; [by apply slice_reset_sys|done].
Qed.

End ops.
