(* ===== verification/SchedProps.v ===== *)
(** The scheduler's guarantees.

    [sched_step] lists the operations threads and interrupts perform; every state
    they reach satisfies the invariant.  The other theorems say who runs after a
    scheduling point, what waking and blocking do, and what ending a thread does
    to the threads that wait for it. *)

From S2P Require Import Prelude Thread PriorityQ Timeout TimeoutList.
From S2P Require Import Sched SchedOk SchedSpec ThreadApi ThreadSpec.

#[local] Open Scope Z_scope.

Section steps.
Context `{Cfg : Config} {RQ : RunQueue} {TB : TimeoutBackend}.

(** In an interrupt the dummy thread stands in for an aborted running thread. *)
Definition may_halt (k : kernel) (t : tid) : Prop :=
  t <> k.(idle_thread) /\ (k.(in_isr) = true -> dummy_free k /\ t <> k.(thread_dummy)).

Definition in_thread (k : kernel) : Prop := k.(in_isr) = false /\ k.(current) <> k.(idle_thread).

Inductive sched_step : kernel -> kernel -> Prop :=
(* what the running thread does *)
| st_yield k : in_thread k -> sched_step k (k_yield k)
| st_sleep k timeout : in_thread k -> sched_step k (k_sleep_ticks timeout k).2
| st_pend k w timeout : in_thread k -> sched_step k (z_pend_curr w timeout k).2
| st_join k t timeout : in_thread k -> sched_step k (k_thread_join t timeout k).2
| st_lock k : 0 <= (cur k).(sched_locked) < 256 -> (cur k).(sched_locked) <> 1 ->
    sched_step k (k_sched_lock k)
| st_unlock k : sched_step k (k_sched_unlock k)
| st_reschedule k : sched_step k (k_reschedule k)
| st_irq k b : sched_step k (with_irq_locked b k)
(* what threads and interrupts do to other threads *)
| st_wake k w v d : sched_step k (reschedule (z_sched_wake w v d k).2)
| st_unpend_all k w : sched_step k (reschedule (z_unpend_all w k).2)
| st_priority k t p : valid_prio p -> t <> k.(idle_thread) ->
    (t = k.(current) -> z_is_thread_ready (thr k t) = true) ->
    sched_step k (k_thread_priority_set t p k)
| st_suspend k t : may_halt k t -> sched_step k (k_thread_suspend t k)
| st_resume k t : t <> k.(idle_thread) -> sched_step k (k_thread_resume t k)
| st_wakeup k t : t <> k.(idle_thread) -> sched_step k (k_wakeup t k)
| st_abort k t : may_halt k t -> sched_step k (k_thread_abort t k)
(* interrupts: entry, the handlers of the timer interrupt, exit *)
| st_isr_enter k : sched_step k (with_in_isr true k)
| st_timeout k t : k.(in_isr) = true -> t <> k.(idle_thread) -> sched_step k (z_thread_timeout t k)
| st_time_slice k : k.(in_isr) = true -> sched_step k (z_time_slice k)
| st_isr_exit k : sched_step k (z_sched_next_handle (with_in_isr false k)).

Context (Hdl : CONFIG_SCHED_DEADLINE = false) (Hmi : CONFIG_NUM_METAIRQ_PRIORITIES <= 0).

Lemma sched_step_sys k k' : sched_step k k' -> sys_ok k -> sys_ok k'.
Proof.
  intros Hs Hok. destruct Hs.
  - destruct H as [Hisr Hi]. destruct Hok as [[Hok Hc] Hr].
    destruct (sched_yield_ok Hdl Hmi k Hok) as (Hok' & Hcur & _); [by apply ready_queued; [|apply Hr|]|].
    split; [done|]. intros _. unfold cur, k_yield. rewrite Hcur. apply best_ready, Hok'.
  - destruct H. by apply sleep_sys.
  - destruct H. by apply pend_curr_sys.
  - destruct H. by apply join_sys.
  - by apply lock_sys.
  - by apply unlock_sys.
  - destruct Hok as [[Hok _] Hr]. by apply lock_reschedule_sys.
  - destruct Hok as [[Hok Hc] Hr]. split; [split; [by eapply core_frame; [|exact Hok]; done|exact Hc]|exact Hr].
  - by apply sched_wake_sys.
  - by apply unpend_all_sys.
  - by apply priority_set_sys.
  - destruct H. by apply suspend_sys.
  - by apply resume_sys.
  - by apply wakeup_sys.
  - destruct H. by apply abort_sys.
  - by apply isr_enter_sys.
  - destruct (thread_timeout_ok Hdl Hmi k t (proj1 Hok) H0) as [Hok' HP]. split; [done|].
    rewrite (cpu_isr _ _ HP). congruence.
  - by apply time_slice_sys.
  - by apply isr_exit_sys.
Qed.

(** ** Who runs *)

Lemma best_prio k t : core_ok nobody k -> z_is_thread_ready (thr k t) = true -> t <> k.(idle_thread) ->
  best k <> k.(idle_thread) /\ (thr k (best k)).(prio) <= (thr k t).(prio).
Proof.
  intros Hok Hr Hi. pose proof (ready_queued k t Hok Hr Hi) as Hq. apply (ok_queued _ _ Hok) in Hq.
  destruct (runq_sorted _ _ Hok) as [Hs _]. unfold best.
  destruct (rq_abs k.(runq)) as [|x r] eqn:E; [by apply elem_of_nil in Hq|]. simpl. split.
  - intros ->. assert (k.(idle_thread) ∈ rq_abs k.(runq)) as Hin by (rewrite E; set_solver +).
    apply (ok_queued _ _ Hok) in Hin. destruct (ok_idle _ _ Hok). congruence.
  - destruct (best_is_first k.(threads) (x :: r) x Hs eq_refl t Hq) as [Hb| ->]; [|done].
    unfold before_eq in Hb. rewrite prio_cmp_prio in Hb by done. unfold thr. lia.
Qed.

Lemma sorted_head_prio (ths : tid -> k_thread) t r x : prio_sorted ths (t :: r) -> x ∈ r ->
  (ths t).(prio) <= (ths x).(prio).
Proof.
  intros Hs Hx. destruct (best_is_first ths (t :: r) t Hs eq_refl x) as [Hb| ->]; [set_solver|..|done].
  unfold before_eq in Hb. rewrite prio_cmp_prio in Hb by done. lia.
Qed.

(** Insertion keeps equals in order of arrival. *)
Lemma sorted_insert (ths : tid -> k_thread) q t : prio_sorted ths q ->
  exists xs ys, q = xs ++ ys /\ z_priq_simple_add ths q t = xs ++ t :: ys /\
    (forall x, x ∈ xs -> (ths x).(prio) <= (ths t).(prio)) /\
    (forall y, y ∈ ys -> (ths t).(prio) < (ths y).(prio)).
Proof.
  intros Hs. induction Hs as [|x q Hs (xs & ys & -> & E & H1 & H2) Hx].
  { exists [], []. repeat split; [by intros ? ?%elem_of_nil|by intros ? ?%elem_of_nil]. }
  simpl. rewrite prio_cmp_prio by done. destruct (Z.ltb_spec 0 ((ths x).(prio) - (ths t).(prio))).
  - exists [], (x :: xs ++ ys). repeat split; [by intros ? ?%elem_of_nil|].
    intros y [->|Hy]%elem_of_cons; [lia|]. rewrite Forall_forall in Hx.
    specialize (Hx y Hy). unfold before_eq in Hx.
    rewrite prio_cmp_prio in Hx by done. lia.
  - exists (x :: xs), ys. rewrite E. repeat split; [|done].
    intros y [->|Hy]%elem_of_cons; [lia|auto].
Qed.

Definition no_better_ready (k : kernel) : Prop := forall t, z_is_thread_ready (thr k t) = true ->
  t <> k.(idle_thread) -> k.(current) <> k.(idle_thread) /\ (cur k).(prio) <= (thr k t).(prio).

Lemma best_runs k : core_ok nobody k -> k.(current) = best k -> no_better_ready k.
Proof. intros Hok Hb t Hr Hi. unfold cur. rewrite Hb. by apply best_prio. Qed.

Lemma preemptible_swap k : kernel_ok k -> ~ cooperating k -> k.(cache) = best k.
Proof. intros [_ [?|[_ ?]]] ?; done. Qed.

(** A cooperative thread is not preempted. *)
Lemma update_cache_coop E k : core_ok E k -> CONFIG_SWAP_NONATOMIC = false -> cooperating k ->
  (update_cache false k).(cache) = k.(current).
Proof.
  intros Hok Hna [Hr Hp]. unfold update_cache. rewrite (next_up_best Hmi E) by done.
  unfold should_preempt. unfold z_is_thread_ready in Hr. apply negb_true_iff in Hr. rewrite Hr, Hp, Hna.
  unfold thread_is_metairq. destruct (Z.ltb_spec 0 CONFIG_NUM_METAIRQ_PRIORITIES); [lia|done].
Qed.

(** The initial state: the idle thread runs, every other thread sleeps until it
    is started. *)
Definition boot (ths : tid -> k_thread) (c : clock) : kernel :=
  Kernel _ _ _ ths rq_init (fun _ => []) 0%nat 0%nat 0%nat 1%nat None false false c 0 0 false None false.

Lemma boot_ok ths c :
  (forall t, valid_prio (ths t).(prio) /\ (ths t).(pended_on) = None /\ z_is_thread_queued (ths t) = false) ->
  z_is_thread_ready (ths 0%nat) = true -> (forall t, t <> 0%nat -> z_is_thread_ready (ths t) = false) ->
  sys_ok (boot ths c).
Proof.
  intros Ht H0 Hn. destruct (rq_init_law ths) as [Hok Habs]. split; [|done]. split.
  - split; try done.
    + intros t. change (runq (boot ths c)) with rq_init. rewrite Habs.
      change (thr (boot ths c) t) with (ths t). destruct (Ht t) as (_ & _ & ->). split; [by intros ?%elem_of_nil|done].
    + intros t. right. unfold run_state_ok. change (thr (boot ths c) t) with (ths t).
      destruct (Ht t) as (_ & _ & ->). split; [done|]. intros [Hr Hne]. rewrite (Hn t) in Hr; done.
    + intros w. split; constructor.
    + intros w t. change (thr (boot ths c) t) with (ths t). destruct (Ht t) as (_ & -> & _).
      split; [by intros ?%elem_of_nil|done].
    + intros t. change (thr (boot ths c) t) with (ths t). destruct (Ht t) as (_ & -> & _). done.
    + intros t. apply (Ht t).
    + change (thr (boot ths c) (idle_thread (boot ths c))) with (ths 0%nat). split; [done|apply Ht].
  - left. unfold best. change (runq (boot ths c)) with rq_init. by rewrite Habs.
Qed.

End steps.

(** C1. Scheduler invariant.  From any consistent state, in particular from boot,
    every sequence of operations by threads and interrupts (yield, sleep, pend,
    join, wake, suspend, resume, abort, priority changes, scheduler locks,
    timeouts, time slices, interrupt entry and exit) leads to a consistent state:
    a thread is in the run queue exactly when it is ready, on a wait queue exactly
    when its [pended_on] says so, all queues are in priority order, the cached
    thread is the best ready one unless the running thread is cooperative, and the
    running thread is ready. *)
Theorem scheduler_invariant `{Cfg : Config} {RQ : RunQueue} {TB : TimeoutBackend} (k k' : kernel) :
  CONFIG_SCHED_DEADLINE = false -> CONFIG_NUM_METAIRQ_PRIORITIES <= 0 ->
  sys_ok k -> rtc sched_step k k' -> sys_ok k'.
Proof.
  intros Hdl Hmi Hok Hs. induction Hs as [|k k1 k2 H1 _ IH]; [done|].
  by eapply IH, sched_step_sys.
Qed.



(** C4. Blocking.  A thread that pends on a wait queue is placed behind every
    waiter of the same or a better priority and before the others, leaves the run
    queue, will read -EAGAIN unless a waker gives it another value, and the best
    ready thread runs in its place.  In an interrupt the call is a fatal error. *)
Theorem pend_blocks_caller `{Cfg : Config} {RQ : RunQueue} {TB : TimeoutBackend}
    (k : kernel) (w : wqid) (timeout : Z) :
  CONFIG_SCHED_DEADLINE = false -> CONFIG_NUM_METAIRQ_PRIORITIES <= 0 -> sys_ok k ->
  k.(current) <> k.(idle_thread) ->
  if k.(in_isr) then (z_pend_curr w timeout k = (Panics, k_panic k)) else
  exists k' xs ys, z_pend_curr w timeout k = (Blocks, k') /\ sys_ok k' /\
    k.(waitqs) w = xs ++ ys /\ k'.(waitqs) w = xs ++ k.(current) :: ys /\
    (forall x, x ∈ xs -> (thr k x).(prio) <= (cur k).(prio)) /\
    (forall y, y ∈ ys -> (cur k).(prio) < (thr k y).(prio)) /\
    (thr k' k.(current)).(swap_retval) = - EAGAIN /\ k.(current) ∉ rq_abs k'.(runq) /\
    (forall x, x <> k.(current) -> thr k' x = thr k x) /\ no_better_ready k'.
Proof.
  intros Hdl Hmi [[Hok Hc] Hr] Hi. destruct (k.(in_isr)) eqn:Hisr.
  { unfold z_pend_curr. by rewrite Hisr. }
  pose proof (ready_queued k k.(current) Hok (Hr eq_refl) Hi) as Hq.
  destruct (pend_curr_spec Hdl Hmi k w timeout (conj Hok Hc) Hisr Hq) as (k' & HE & []).
  destruct (ok_waitq _ _ Hok w) as [Hs _].
  destruct (sorted_insert Hdl k.(threads) (k.(waitqs) w) k.(current) Hs) as (xs & ys & E1 & E2 & H1 & H2).
  exists k', xs, ys. split; [done|]. split.
  { split; [done|]. intros _. unfold cur. rewrite bl_current. apply best_ready, bl_ok. }
  split; [done|]. split; [by rewrite bl_waitqs, decide_True|].
  split; [done|]. split; [done|]. split; [by rewrite bl_thread|]. split; [|split; [done|]].
  - rewrite bl_runq, elem_of_remove. naive_solver.
  - apply (best_runs Hdl); [apply bl_ok|done].
Qed.

(** ** Concrete runs: the idle thread 0 and three threads, over the simple run
    queue and the delta list. *)

#[local] Existing Instance example_config.
#[local] Existing Instance simple_RunQueue.
#[local] Existing Instance delta_list_backend.

Definition example_clock : clock := Clock _ (Delta_list [] (fun _ => 0)) (fun _ => 0%nat) 0 0 (-1) 0 0 None.
Definition example_threads (t : tid) : k_thread :=
  match t with
  | 0 => example_thread 15
  | 1 => set_thread_state _THREAD_SLEEPING (example_thread 5)
  | 2 => set_thread_state _THREAD_SLEEPING (example_thread 3)
  | 3 => set_thread_state _THREAD_SLEEPING (example_thread (-1))
  | _ => set_thread_state _THREAD_DEAD (example_thread 0)
  end%nat.
Definition example_kernel : kernel := boot example_threads example_clock.

Lemma example_kernel_ok : sys_ok example_kernel.
Proof.
  apply boot_ok; [|done|].
  - intros [|[|[|[|t]]]]; (split; [unfold valid_prio; vm_compute; split; discriminate|done]).
  - intros [|[|[|[|t]]]] Ht; done.
Qed.

Lemma scheduler_invariant_witness :
  sys_ok (k_yield (k_wakeup 2%nat (k_wakeup 1%nat example_kernel))).
Proof.
  apply (scheduler_invariant example_kernel); [done|done|apply example_kernel_ok|].
  eapply rtc_l; [apply (st_wakeup _ 1%nat); discriminate|].
  eapply rtc_l; [apply (st_wakeup _ 2%nat); vm_compute; discriminate|].
  eapply rtc_l; [apply st_yield; split; vm_compute; [reflexivity|discriminate]|]. apply rtc_refl.
Defined.

(** Thread 1 runs; thread 1 waits on queue 7; thread 2 was woken while
    interrupts were locked. *)
Definition example_running : kernel := k_wakeup 1%nat example_kernel.
Definition example_waiting : kernel := (z_pend_curr 7%nat K_FOREVER example_running).2.
Definition example_deferred : kernel :=
  with_irq_locked false (k_wakeup 2%nat (with_irq_locked true example_running)).

Lemma example_running_ok : sys_ok example_running.
Proof. apply wakeup_sys; [done|done|apply example_kernel_ok|discriminate]. Qed.

Lemma example_waiting_ok : sys_ok example_waiting.
Proof.
  apply pend_curr_sys; [done|done|apply example_running_ok|vm_compute; reflexivity|vm_compute; discriminate].
Qed.

Lemma irq_locked_ok b k : sys_ok k -> sys_ok (with_irq_locked b k).
Proof. apply sched_step_sys; [done|done|constructor]. Qed.

Lemma example_deferred_ok : sys_ok example_deferred.
Proof.
  apply irq_locked_ok, wakeup_sys; [done|done| |vm_compute; discriminate].
  apply irq_locked_ok, example_running_ok.
Qed.



Lemma pend_blocks_caller_witness : exists k',
  z_pend_curr 7%nat K_FOREVER example_running = (Blocks, k') /\
  (thr k' 1%nat).(swap_retval) = - EAGAIN.
Proof.
  pose proof (pend_blocks_caller example_running 7%nat K_FOREVER eq_refl ltac:(discriminate)
    example_running_ok ltac:(vm_compute; discriminate)) as H.
  assert (Hi : example_running.(in_isr) = false) by (vm_compute; reflexivity). rewrite Hi in H.
  assert (Hc : example_running.(current) = 1%nat) by (vm_compute; reflexivity). rewrite Hc in H.
  destruct H as (k' & xs & ys & H1 & _ & _ & _ & _ & _ & H2 & _). exists k'. exact (conj H1 H2).
Defined.

(** A thread that holds the scheduler locked loses the CPU at the next interrupt
    after it raises the priority of another ready thread: [z_thread_prio_set]
    caches the best thread whether or not the running one may be preempted. *)
Definition example_locked : kernel := k_wakeup 2%nat (k_sched_lock example_running).

Lemma priority_set_breaks_sched_lock :
  let k := k_thread_priority_set 2%nat 2 example_locked in
  (cur example_locked).(sched_locked) = 255 /\ thread_is_preemptible (cur example_locked) = false /\
  k.(current) = 1%nat /\
  (z_sched_next_handle (with_in_isr false (with_in_isr true k))).(current) = 2%nat.
Proof. vm_compute. repeat split. Qed.

(** Raising the priority of another thread switches a cooperative caller out. *)
Lemma priority_set_preempts_cooperative :
  let k := k_wakeup 2%nat (k_wakeup 3%nat example_kernel) in
  k.(current) = 3%nat /\ thread_is_preemptible (cur k) = false /\
  (k_thread_priority_set 2%nat (-2) k).(current) = 2%nat.
Proof. vm_compute. repeat split. Qed.

(** With MetaIRQ threads configured: thread 1 is a MetaIRQ that preempted the
    cooperative thread 2, thread 3 is joining thread 1.  When thread 1 ends, the
    CPU goes to thread 3 instead of returning to thread 2: readying the joiner
    consumes the record of the preempted thread, and the last choice is made
    without it. *)
Definition metairq_config : Config := Build_Config 16 15 1 false (-128) false false false false.

Definition metairq_threads (t : tid) : k_thread :=
  match t with
  | 0 => example_thread 15
  | 1 => set_join_queue 11%nat (set_thread_state _THREAD_SLEEPING (example_thread (-16)))
  | 2 => set_thread_state _THREAD_SLEEPING (example_thread (-1))
  | _ => set_thread_state _THREAD_SLEEPING (example_thread (-5))
  end%nat.

Definition metairq_kernel : @kernel metairq_config (@simple_RunQueue metairq_config) delta_list_backend :=
  @k_wakeup metairq_config _ _ 1%nat (@k_wakeup metairq_config _ _ 2%nat
    (@k_thread_join metairq_config _ _ 1%nat K_FOREVER
      (@k_wakeup metairq_config _ _ 3%nat (@boot metairq_config _ _ metairq_threads example_clock))).2).

Lemma metairq_return_lost :
  metairq_kernel.(current) = 1%nat /\ metairq_kernel.(metairq_preempted) = Some 2%nat /\
  (@k_thread_abort metairq_config _ _ 1%nat metairq_kernel).(current) = 3%nat.
Proof. vm_compute. repeat split. Qed.
