(* ===== verification/Blocking.v ===== *)
(** What the scheduler promises to the kernel objects: waking the first waiter of
    a wait queue, waking all of them, and blocking the caller, each followed by
    the scheduling point the objects end with. *)

From S2P Require Import Prelude Thread PriorityQ Timeout Sched SchedOk SchedSpec ThreadApi ThreadSpec SchedProps.

#[local] Open Scope Z_scope.

Lemma triple_eta {A B C} (x : A * B * C) : x = (x.1.1, x.1.2, x.2).
Proof. by destruct x as [[]]. Qed.
Lemma quad_eta {A B C D} (x : A * B * C * D) : x = (x.1.1.1, x.1.1.2, x.1.2, x.2).
Proof. by destruct x as [[[]]]. Qed.

(** The loop [while (z_sched_wake(wait_q, retval, NULL))] of the objects: each
    round takes one thread off the queue, so the length of the queue bounds it.
    The count is the number of threads woken. *)
Fixpoint wake_all_loop `{Cfg : Config} {RQ : RunQueue} {TB : TimeoutBackend} (fuel : nat) (w : wqid)
    (v d : Z) (k : kernel) : nat * kernel :=
  match fuel with
  | O => (O, k)
  | S fuel =>
      match z_sched_wake w v d k with
      | (true, k1) => let '(n, k2) := wake_all_loop fuel w v d k1 in (S n, k2)
      | (false, k1) => (O, k1)
      end
  end.
Definition wake_all `{Cfg : Config} {RQ : RunQueue} {TB : TimeoutBackend} (w : wqid) (v d : Z)
    (k : kernel) : nat * kernel :=
  wake_all_loop (length (k.(waitqs) w)) w v d k.

(** What the rest of the system does between two operations of an object with the
    wait queue [w]: any step of the scheduler that makes no thread wait on [w]. *)
Definition env_step `{Cfg : Config} {RQ : RunQueue} {TB : TimeoutBackend} (w : wqid) (k k' : kernel) : Prop :=
  sched_step k k' /\ forall x, x ∈ k'.(waitqs) w -> x ∈ k.(waitqs) w.

Section blocking.
Context `{Cfg : Config} {RQ : RunQueue} {TB : TimeoutBackend}.
Context (Hdl : CONFIG_SCHED_DEADLINE = false) (Hmi : CONFIG_NUM_METAIRQ_PRIORITIES <= 0).

(** ** Scheduling points *)

(** [at_most_swapped k k']: [k'] is [k] after a possible context switch: the queues
    are those of [k], and only the return value of the thread that ran changes. *)
Record at_most_swapped (k k' : kernel) : Prop := {
  am_waitqs : k'.(waitqs) = k.(waitqs);
  am_runq : k'.(runq) = k.(runq);
  am_idle : k'.(idle_thread) = k.(idle_thread);
  am_isr : k'.(in_isr) = k.(in_isr);
  am_irq : k'.(irq_locked) = k.(irq_locked);
  am_others : forall x, x <> k.(current) -> thr k' x = thr k x;
  am_current : thr k' k.(current) = cur k \/ thr k' k.(current) = set_swap_retval (- EAGAIN) (cur k)
}.

Lemma reschedule_at_most k : at_most_swapped k (reschedule k).
Proof.
  unfold reschedule. destruct (_ && _); [|by split; try done; left].
  pose proof (do_swap_swapped k) as Hs. destruct (swapped_threads _ _ Hs) as [H1 H2].
  destruct Hs as [_ _ [_ Hr Hw Hi] Hisr Hirq]. split; try done. by right.
Qed.

(** A change of a thread that the scheduler does not look at. *)
Definition invisible (f : k_thread -> k_thread) : Prop := forall th, quiet th (f th) /\
  z_is_thread_ready (f th) = z_is_thread_ready th /\ thread_is_preemptible (f th) = thread_is_preemptible th.

Lemma invisible_sys k t f : sys_ok k -> invisible f -> sys_ok (on_thread t f k).
Proof.
  intros [[Hok Hc] Hr] Hf. destruct (Hf (thr k t)) as (HQ & H1 & H2).
  split; [split; [by apply core_silent|by apply cache_on_thread; [rewrite H1, H2|]]|].
  intros Hisr. unfold cur. change (current (on_thread t f k)) with k.(current).
  rewrite thr_upd. case_decide as E; [|by apply Hr]. rewrite E, H1 || rewrite H1. rewrite <- E. by apply Hr.
Qed.

(** [z_waitq_init] on a queue nobody waits on. *)
Lemma waitq_init_sys k w : sys_ok k -> k.(waitqs) w = [] -> sys_ok (on_waitq w (fun _ => []) k).
Proof.
  intros [[Hok Hc] Hr] Hw.
  assert (Hq : forall v, (on_waitq w (fun _ => []) k).(waitqs) v = k.(waitqs) v).
  { intros v. simpl. destruct (decide (v = w)) as [->|Hne]; [by rewrite upd_eq|by rewrite upd_ne]. }
  split; [|exact Hr]. split; [|exact Hc]. destruct Hok. split; try done.
  - intros v. rewrite Hq. apply ok_waitq.
  - intros v t. rewrite Hq. apply ok_pended.
Qed.

(** ** Waking one thread *)

(** A waiter that leaves its queue, changed by [f] on the way. *)
Definition let_through (f : k_thread -> k_thread) (th : k_thread) : k_thread := requeued (f (released th)).
Definition values (v d : Z) (th : k_thread) : k_thread := set_swap_data d (set_swap_retval v th).

(** [passed w t r f k k']: the waiter [t] left the queue [w]; [r] is what is left
    of the queue. *)
Record passed (w : wqid) (t : tid) (r : list tid) (f : k_thread -> k_thread) (k k' : kernel) : Prop := {
  ps_sys : sys_ok k';
  ps_queue : k'.(waitqs) w = r;
  ps_queues : forall w', w' <> w -> k'.(waitqs) w' = k.(waitqs) w';
  ps_thread : thr k' t = let_through f (thr k t);
  ps_others : forall x, x <> t -> x <> k.(current) -> thr k' x = thr k x;
  ps_current : t <> k.(current) -> exists v, thr k' k.(current) = set_swap_retval v (cur k);
  ps_idle : k'.(idle_thread) = k.(idle_thread);
  ps_isr : k'.(in_isr) = k.(in_isr);
  ps_irq : k'.(irq_locked) = k.(irq_locked);
  (* with interrupts locked the caller goes on running *)
  ps_locked : k.(irq_locked) = true -> k'.(current) = k.(current)
}.

(** [handed w t r v d k k']: [t] left with the values [v] and [d]. *)
Definition handed (w : wqid) (t : tid) (r : list tid) (v d : Z) : kernel -> kernel -> Prop :=
  passed w t r (values v d).

Lemma let_through_fields f th : let th' := let_through f th in let u := f (released th) in
  th'.(swap_retval) = u.(swap_retval) /\ th'.(swap_data) = u.(swap_data) /\ th'.(pended_on) = u.(pended_on) /\
  th'.(prio) = u.(prio) /\ th'.(held_mutexes) = u.(held_mutexes) /\ th'.(orig_prio) = u.(orig_prio) /\
  th'.(mutex_pended_on) = u.(mutex_pended_on).
Proof. unfold let_through, requeued. by destruct (z_is_thread_ready _). Qed.

Section handed.
Context {w t r v d k k'} (H : handed w t r v d k k').
Lemma hd_retval : (thr k' t).(swap_retval) = v.
Proof. rewrite (ps_thread _ _ _ _ _ _ H). apply (let_through_fields (values v d)). Qed.
Lemma hd_data : (thr k' t).(swap_data) = d.
Proof. rewrite (ps_thread _ _ _ _ _ _ H). apply (let_through_fields (values v d)). Qed.
Lemma hd_pended : (thr k' t).(pended_on) = None.
Proof. rewrite (ps_thread _ _ _ _ _ _ H). apply (let_through_fields (values v d)). Qed.
End handed.

Lemma waiter_not_current k w t r : sys_ok k -> k.(in_isr) = false -> k.(waitqs) w = t :: r -> t <> k.(current).
Proof.
  intros [[Hok _] Hr] Hisr Hw ->. destruct (waitq_head _ _ _ _ _ Hok Hw) as [Hp _].
  destruct (pended_not_queued k _ w Hok Hp) as [Hn _]. specialize (Hr Hisr). unfold cur in Hr. congruence.
Qed.

Lemma reschedule_in_isr k : k.(in_isr) = true -> reschedule k = k.
Proof. intros H. unfold reschedule, resched. by rewrite H, andb_false_r. Qed.
Lemma reschedule_irq_locked k : k.(irq_locked) = true -> reschedule k = k.
Proof. intros H. unfold reschedule, resched. by rewrite H. Qed.

Lemma wakes_passed k w t r f k1 : sys_ok k -> k.(waitqs) w = t :: r ->
  wakes w t (f (released (thr k t))) k k1 -> passed w t r f k (reschedule k1).
Proof.
  intros Hok Hw [W1 W2 W3 W4 W5 W6 _]. pose proof (proj1 (proj1 Hok)) as Hcore.
  destruct (waitq_head _ _ _ _ _ Hcore Hw) as [Hp Hr].
  destruct (pended_not_queued k t w Hcore Hp) as [Hn _].
  destruct (reschedule_at_most k1) as [A1 A2 A3 A4 A7 A5 A6]. pose proof (cpu_current _ _ W3) as Hc.
  split.
  - eapply wake_then_reschedule; [exact Hok|split; [done|apply W2; [apply Hok|done]]|done|].
    intros Hcur. rewrite W4; [done|]. intros Heq. unfold cur in Hcur. rewrite Heq in Hcur. congruence.
  - rewrite A1, W6. by rewrite decide_True.
  - intros w' Hne. rewrite A1, W6. by rewrite decide_False.
  - destruct (k1.(in_isr)) eqn:Hisr; [by rewrite reschedule_in_isr|]. rewrite A5; [done|].
    rewrite Hc. eapply waiter_not_current; [exact Hok| |exact Hw]. by rewrite <- (cpu_isr _ _ W3).
  - intros x H1 H2. rewrite A5 by congruence. auto.
  - intros Hne. rewrite Hc in A6. unfold cur in A6. rewrite Hc, W4 in A6 by done. unfold cur.
    destruct A6 as [->|E]; [exists (swap_retval (thr k k.(current))); by destruct (thr k k.(current))|by eexists].
  - rewrite A3. apply W3.
  - rewrite A4. apply W3.
  - rewrite A7. apply W3.
  - intros Hq. rewrite reschedule_irq_locked; [apply W3|]. by rewrite (cpu_irq _ _ W3).
Qed.

(** A waiter taken off its queue without its timeout. *)
Lemma unpend_passed k w t r k1 f : sys_ok k -> k.(waitqs) w = t :: r -> detached w t k k1 -> thr k1 t = f (released (thr k t)) ->
  passed w t r f k (reschedule (ready_thread t k1)).
Proof.
  intros Hok Hw HD Et. pose proof (proj1 (proj1 Hok)) as Hcore. destruct (waitq_head _ _ _ _ _ Hcore Hw) as [Hp _].
  apply wakes_passed; [done..|]. rewrite <- Et. apply (detached_wakes Hdl Hmi); [done|]. by apply (pended_not_idle _ _ _ _ Hcore Hp).
Qed.

Lemma wake_handed k w t r v d : sys_ok k -> k.(waitqs) w = t :: r ->
  exists k1, z_sched_wake w v d k = (true, k1) /\ handed w t r v d k (reschedule k1).
Proof.
  intros Hok Hw. pose proof (sched_wake_spec Hdl Hmi k w v d (proj1 (proj1 Hok))) as HW. rewrite Hw in HW.
  destruct HW as (k1 & E & _ & HW). exists k1. split; [done|]. by apply wakes_passed.
Qed.

Lemma wake_nobody k w v d : sys_ok k -> k.(waitqs) w = [] -> z_sched_wake w v d k = (false, k).
Proof.
  intros Hok Hw. pose proof (sched_wake_spec Hdl Hmi k w v d (proj1 (proj1 Hok))) as HW. by rewrite Hw in HW.
Qed.

(** ** Waking every thread *)

Definition woken (v d : Z) (th : k_thread) : k_thread :=
  let_through (values v d) th.

Lemma wake_all_loop_ok w v d fuel k : core_ok nobody k -> (length (k.(waitqs) w) <= fuel)%nat ->
  let '(n, k') := wake_all_loop fuel w v d k in
  n = length (k.(waitqs) w) /\ core_ok nobody k' /\ (cache_ok k -> cache_ok k') /\ same_cpu k k' /\
  (forall w', k'.(waitqs) w' = if decide (w' = w) then [] else k.(waitqs) w') /\
  (forall x, thr k' x = if decide (x ∈ k.(waitqs) w) then woken v d (thr k x) else thr k x).
Proof.
  revert k. induction fuel as [|fuel IH]; intros k Hok Hlen; simpl.
  - assert (Hw : k.(waitqs) w = []) by (destruct (k.(waitqs) w); [done|simpl in Hlen; lia]).
    rewrite Hw. split; [done|]. split; [done|]. split; [done|]. split; [done|].
    split; [intros w'; case_decide; congruence|]. intros x. by rewrite decide_False by set_solver +.
  - pose proof (sched_wake_spec Hdl Hmi k w v d Hok) as HW.
    destruct (k.(waitqs) w) as [|t r] eqn:Hw.
    { rewrite HW. split; [done|]. split; [done|]. split; [done|]. split; [done|].
      split; [intros w'; case_decide; congruence|]. intros x. by rewrite decide_False by set_solver +. }
    destruct HW as (k1 & -> & Hr & []). destruct (waitq_head _ _ _ _ _ Hok Hw) as [Hp _].
    pose proof (waitq_nodup _ _ w Hok) as Hnd. rewrite Hw in Hnd. apply NoDup_cons in Hnd as [Hnt _].
    specialize (IH k1 wk_ok). rewrite Hr in IH. simpl in Hlen. specialize (IH ltac:(lia)).
    destruct (wake_all_loop fuel w v d k1) as [n k2]. destruct IH as (-> & I1 & I2 & I3 & I4 & I5).
    split; [done|]. split; [done|]. split; [|split; [by etrans|split]].
    + intros Hc. apply I2, wk_cache; [done|]. by apply (pended_not_queued k t w).
    + intros w'. rewrite I4, wk_waitqs. by case_decide.
    + intros x. rewrite I5. destruct (decide (x = t)) as [->|Hne].
      * rewrite decide_False by done. rewrite decide_True by set_solver +. done.
      * rewrite wk_others by done. destruct (decide (x ∈ r));
          [by rewrite decide_True by set_solver|by rewrite decide_False by set_solver].
Qed.

(** [handed_all w v d k k']: every waiter of [w] left it with the values [v], [d]. *)
Record handed_all (w : wqid) (v d : Z) (k k' : kernel) : Prop := {
  ha_sys : sys_ok k';
  ha_queue : k'.(waitqs) w = [];
  ha_queues : forall w', w' <> w -> k'.(waitqs) w' = k.(waitqs) w';
  ha_woken : k.(in_isr) = false -> forall x, x ∈ k.(waitqs) w -> thr k' x = woken v d (thr k x);
  ha_others : forall x, x ∉ k.(waitqs) w -> x <> k.(current) -> thr k' x = thr k x
}.

Lemma wake_all_ok k w v d : sys_ok k ->
  exists k1, wake_all w v d k = (length (k.(waitqs) w), k1) /\ handed_all w v d k (reschedule k1).
Proof.
  intros Hok. pose proof (proj1 (proj1 Hok)) as Hcore.
  pose proof (wake_all_loop_ok w v d _ k Hcore (le_n _)) as HL. unfold wake_all.
  destruct (wake_all_loop _ w v d k) as [n k1]. destruct HL as (-> & H1 & H2 & H3 & H4 & H5).
  exists k1. split; [done|]. destruct (reschedule_at_most k1) as [A1 A2 A3 A4 A7 A5 A6].
  pose proof (cpu_current _ _ H3) as Hc. split.
  - eapply wake_then_reschedule; [exact Hok|split; [done|apply H2, Hok]|exact H3|]. intros Hcur.
    rewrite H5, decide_False; [done|]. rewrite (ok_pended _ _ Hcore). by rewrite (ready_unpended nobody).
  - rewrite A1, H4. by rewrite decide_True.
  - intros w' Hne. rewrite A1, H4. by rewrite decide_False.
  - intros Hisr x Hx. rewrite A5; [by rewrite H5, decide_True|]. rewrite Hc. intros ->.
    apply (ok_pended _ _ Hcore) in Hx. destruct (pended_not_queued k _ w Hcore Hx) as [Hn _].
    pose proof (proj2 Hok Hisr) as Hr. unfold cur in Hr. congruence.
  - intros x Hx Hne. rewrite A5, H5 by congruence. by rewrite decide_False.
Qed.

(** ** Waking one thread for each of several values *)

(** The values left when there are no more waiters. *)
Fixpoint wake_each (w : wqid) (ds : list Z) (k : kernel) : list Z * kernel :=
  match ds with
  | [] => ([], k)
  | d :: ds' =>
      match z_sched_wake w 0 d k with
      | (true, k1) => wake_each w ds' k1
      | (false, k1) => (ds, k1)
      end
  end.

Lemma wake_each_loop_ok w ds k : core_ok nobody k ->
  let n := Nat.min (length ds) (length (k.(waitqs) w)) in let '(rest, k') := wake_each w ds k in
  rest = drop n ds /\ core_ok nobody k' /\ (cache_ok k -> cache_ok k') /\ same_cpu k k' /\
  (forall w', k'.(waitqs) w' = if decide (w' = w) then drop n (k.(waitqs) w) else k.(waitqs) w') /\
  (forall x, x ∉ take n (k.(waitqs) w) -> thr k' x = thr k x) /\
  (forall i t d, k.(waitqs) w !! i = Some t -> ds !! i = Some d -> thr k' t = woken 0 d (thr k t)).
Proof.
  revert k. induction ds as [|d ds IH]; intros k Hok n; cbn [wake_each].
  { split_and!; try done. intros w'. case_decide as E; [by rewrite E|done]. }
  pose proof (sched_wake_spec Hdl Hmi k w 0 d Hok) as HW. destruct (k.(waitqs) w) as [|t r] eqn:Hw.
  { rewrite HW. subst n. rewrite Nat.min_0_r. split_and!; try done. intros w'. case_decide as E; [by rewrite E|done]. }
  destruct HW as (k1 & -> & Hr & []). destruct (waitq_head _ _ _ _ _ Hok Hw) as [Hp _].
  pose proof (waitq_nodup _ _ w Hok) as Hnd. rewrite Hw in Hnd. apply NoDup_cons in Hnd as [Hnt _].
  specialize (IH k1 wk_ok). cbv zeta in IH. rewrite Hr in IH. destruct (wake_each w ds k1) as [rest k2].
  destruct IH as (-> & I1 & I2 & I3 & I4 & I5 & I6). subst n. cbn [length Nat.min drop take].
  split; [done|]. split; [done|]. split; [|split; [by etrans|split; [|split]]].
  - intros Hc. apply I2, wk_cache; [done|]. by apply (pended_not_queued k t w).
  - intros w'. rewrite I4, wk_waitqs. by case_decide.
  - intros x Hx. rewrite I5 by set_solver. apply wk_others. set_solver.
  - intros [|i] t' d' Ht Hd; simpl in Ht, Hd.
    + simplify_eq. rewrite I5; [done|]. intros (j & Hj & _)%elem_of_take. apply Hnt. by eapply list_elem_of_lookup_2.
    + rewrite (I6 i t' d') by done. f_equal. apply wk_others. intros ->. apply Hnt. by eapply list_elem_of_lookup_2.
Qed.

(** [handed_each w ds k k']: the first waiters got one value each. *)
Record handed_each (w : wqid) (ds : list Z) (k k' : kernel) : Prop := {
  he_sys : sys_ok k';
  he_queue : k'.(waitqs) w = drop (Nat.min (length ds) (length (k.(waitqs) w))) (k.(waitqs) w);
  he_woken : forall i t d, k.(waitqs) w !! i = Some t -> ds !! i = Some d -> thr k' t = woken 0 d (thr k t)
}.

Lemma wake_each_ok k w ds : sys_ok k -> exists k1,
  wake_each w ds k = (drop (Nat.min (length ds) (length (k.(waitqs) w))) ds, k1) /\ handed_each w ds k (reschedule k1).
Proof.
  intros Hok. pose proof (proj1 (proj1 Hok)) as Hcore. pose proof (wake_each_loop_ok w ds k Hcore) as HL. cbv zeta in HL.
  destruct (wake_each w ds k) as [rest k1]. destruct HL as (-> & H1 & H2 & H3 & H4 & H5 & H6).
  exists k1. split; [done|]. destruct (reschedule_at_most k1) as [A1 A2 A3 A4 A7 A5 A6].
  pose proof (cpu_current _ _ H3) as Hc. split.
  - eapply wake_then_reschedule; [exact Hok|split; [done|apply H2, Hok]|exact H3|]. intros Hcur.
    rewrite H5; [done|]. intros (j & Hj & _)%elem_of_take. apply list_elem_of_lookup_2 in Hj as Hin. rewrite (ok_pended _ _ Hcore), (ready_unpended nobody) in Hin by done. done.
  - rewrite A1, H4. by rewrite decide_True.
  - intros i t d Ht Hd. rewrite <- (H6 i t d Ht Hd). destruct (k1.(in_isr)) eqn:Hisr; [by rewrite reschedule_in_isr|].
    apply A5. rewrite Hc. intros ->. apply list_elem_of_lookup_2, (ok_pended _ _ Hcore) in Ht.
    destruct (pended_not_queued k _ w Hcore Ht) as [Hn _]. rewrite (cpu_isr _ _ H3) in Hisr.
    pose proof (proj2 Hok Hisr) as Hr. unfold cur in Hr. congruence.
Qed.

(** ** Blocking the caller *)

(** [waits w k k']: the running thread of [k] was queued on [w] and another runs. *)
Record waits (w : wqid) (k k' : kernel) : Prop := {
  wt_sys : sys_ok k';
  wt_queue : k'.(waitqs) w = z_priq_simple_add k.(threads) (k.(waitqs) w) k.(current);
  wt_queues : forall w', w' <> w -> k'.(waitqs) w' = k.(waitqs) w';
  wt_thread : thr k' k.(current) = set_swap_retval (- EAGAIN)
    (set_pended_on (Some w) (z_mark_thread_as_pending (z_mark_thread_as_not_queued (cur k))));
  wt_others : forall x, x <> k.(current) -> thr k' x = thr k x;
  wt_idle : k'.(idle_thread) = k.(idle_thread);
  wt_isr : k'.(in_isr) = k.(in_isr)
}.

Lemma pend_waits k w timeout : sys_ok k -> k.(in_isr) = false -> k.(current) <> k.(idle_thread) ->
  exists k', z_pend_curr w timeout k = (Blocks, k') /\ waits w k k'.
Proof.
  intros Hok Hisr Hi. pose proof (pend_curr_sys Hdl Hmi k w timeout Hok Hisr Hi) as Hsys.
  destruct (pend_curr_spec Hdl Hmi k w timeout (proj1 Hok) Hisr) as (k' & E & []).
  { apply ready_queued; [apply Hok|by apply Hok|done]. }
  rewrite E in Hsys. exists k'. split; [done|]. split; try done.
  - rewrite bl_waitqs. by rewrite decide_True.
  - intros w' Hne. rewrite bl_waitqs. by rewrite decide_False.
Qed.

Lemma env_sys w k k' : env_step w k k' -> sys_ok k -> sys_ok k'.
Proof. intros [H _]. by apply sched_step_sys. Qed.

Lemma env_empty w k k' : env_step w k k' -> k.(waitqs) w = [] -> k'.(waitqs) w = [].
Proof.
  intros [_ H] E. destruct (k'.(waitqs) w) as [|x r]; [done|].
  specialize (H x ltac:(set_solver +)). rewrite E in H. by apply elem_of_nil in H.
Qed.

End blocking.
