(* ===== verification/Sem.v ===== *)
(** Counting semaphores: kernel/sem.c.

    A semaphore is its wait queue, its count and its limit; the operations pass it
    along with the scheduler's state.  [counter] is the specification: a bounded
    counter driven by what the operations report. *)

From S2P Require Import Prelude Thread PriorityQ Timeout TimeoutList.
From S2P Require Import Sched SchedOk SchedSpec ThreadApi ThreadSpec SchedProps Blocking.

#[local] Open Scope Z_scope.

Record k_sem := K_sem { sem_wait_q : wqid; sem_count : Z; sem_limit : Z }.
Definition set_sem_count (c : Z) (s : k_sem) : k_sem := K_sem s.(sem_wait_q) c s.(sem_limit).

Section sem.
Context `{Cfg : Config} {RQ : RunQueue} {TB : TimeoutBackend}.

Definition k_sem_init (s : k_sem) (initial_count limit : Z) (k : kernel) : Z * k_sem * kernel :=
  if (limit =? 0) || (limit <? initial_count) then (- EINVAL, s, k)
  else (0, K_sem s.(sem_wait_q) initial_count limit, on_waitq s.(sem_wait_q) (fun _ => []) k).

Definition k_sem_give (s : k_sem) (k : kernel) : k_sem * kernel :=
  match z_sched_wake s.(sem_wait_q) 0 0 k with
  | (true, k1) => (s, reschedule k1)
  | (false, k1) =>
      (set_sem_count (u32 (s.(sem_count) + if negb (s.(sem_count) =? s.(sem_limit)) then 1 else 0)) s, k1)
  end.

Definition k_sem_take (s : k_sem) (timeout : Z) (k : kernel) : outcome * k_sem * kernel :=
  if 0 <? s.(sem_count) then (Returns 0, set_sem_count (u32 (s.(sem_count) - 1)) s, k)
  else if timeout =? K_NO_WAIT then (Returns (- EBUSY), s, k)
  else let '(ret, k1) := z_pend_curr s.(sem_wait_q) timeout k in (ret, s, k1).

Definition k_sem_reset (s : k_sem) (k : kernel) : k_sem * kernel :=
  let '(n, k1) := wake_all s.(sem_wait_q) (- EAGAIN) 0 k in
  (set_sem_count 0 s, if (0 <? n)%nat then reschedule k1 else k1).

Definition k_sem_count_get (s : k_sem) : Z := s.(sem_count).

(** ** The invariant *)

(** Threads wait only while the count is zero. *)
Record sem_ok (s : k_sem) (k : kernel) : Prop := {
  sem_sys : sys_ok k;
  sem_range : 0 <= s.(sem_count) <= s.(sem_limit);
  sem_limit_range : 0 < s.(sem_limit) < 2 ^ 32;
  sem_idle : 0 < s.(sem_count) -> k.(waitqs) s.(sem_wait_q) = []
}.

(** ** The specification: what happened, and the counter it drives *)

Inductive sem_event :=
| Counted                    (* a give that raised the count *)
| Dropped                    (* a give at the limit *)
| Handed (t : tid)           (* a give to the waiter [t] *)
| Taken                      (* a take that lowered the count *)
| Refused                    (* a take that would have to wait *)
| Waits (t : tid)            (* a take by [t] that blocks *)
| Cleared (n : nat)          (* a reset that woke [n] waiters *)
| Quiet.                     (* a step of the rest of the system *)

Definition counter (limit : Z) (e : sem_event) (c : Z) : option Z :=
  match e with
  | Counted => if c <? limit then Some (c + 1) else None
  | Dropped => if c =? limit then Some c else None
  | Handed _ | Refused | Waits _ => if c =? 0 then Some c else None
  | Taken => if 0 <? c then Some (c - 1) else None
  | Cleared _ => Some 0
  | Quiet => Some c
  end.

Fixpoint counter_run (limit : Z) (es : list sem_event) (c : Z) : option Z :=
  match es with [] => Some c | e :: r => c' ← counter limit e c; counter_run limit r c' end.

Definition give_event (s : k_sem) (k : kernel) : sem_event :=
  match k.(waitqs) s.(sem_wait_q) with
  | t :: _ => Handed t
  | [] => if s.(sem_count) =? s.(sem_limit) then Dropped else Counted
  end.

Definition take_event (s : k_sem) (timeout : Z) (k : kernel) : sem_event :=
  match (k_sem_take s timeout k).1.1 with
  | Returns 0 => Taken
  | Blocks => Waits k.(current)
  | _ => Refused
  end.

Inductive sem_step : sem_event -> k_sem * kernel -> k_sem * kernel -> Prop :=
| ss_give s k : sem_step (give_event s k) (s, k) (k_sem_give s k)
| ss_take s k timeout o s' k' : k.(current) <> k.(idle_thread) -> k.(in_isr) = false \/ timeout = K_NO_WAIT ->
    k_sem_take s timeout k = (o, s', k') -> sem_step (take_event s timeout k) (s, k) (s', k')
| ss_reset s k : sem_step (Cleared (length (k.(waitqs) s.(sem_wait_q)))) (s, k) (k_sem_reset s k)
| ss_other s k k' : env_step s.(sem_wait_q) k k' -> sem_step Quiet (s, k) (s, k').

Inductive sem_run : list sem_event -> k_sem * kernel -> k_sem * kernel -> Prop :=
| sr_nil x : sem_run [] x x
| sr_cons e es x y z : sem_step e x y -> sem_run es y z -> sem_run (e :: es) x z.

(** ** Each operation *)

Context (Hdl : CONFIG_SCHED_DEADLINE = false) (Hmi : CONFIG_NUM_METAIRQ_PRIORITIES <= 0).

Lemma give_spec s k : sem_ok s k -> let '(s', k') := k_sem_give s k in
  match k.(waitqs) s.(sem_wait_q) with
  | t :: r => s' = s /\ handed s.(sem_wait_q) t r 0 0 k k'
  | [] => s' = set_sem_count (Z.min (s.(sem_count) + 1) s.(sem_limit)) s /\ k' = k
  end.
Proof.
  intros [Hs Hr Hl Hi]. unfold k_sem_give. destruct (k.(waitqs) _) as [|t r] eqn:Hw.
  - rewrite wake_nobody by done. split; [|done]. f_equal.
    destruct (Z.eqb_spec s.(sem_count) s.(sem_limit)); simpl; rewrite u32_small by lia; lia.
  - destruct (wake_handed Hdl Hmi k _ t r 0 0 Hs Hw) as (k1 & -> & Hh). done.
Qed.

Lemma give_ok s k : sem_ok s k -> let '(s', k') := k_sem_give s k in sem_ok s' k' /\
  counter s.(sem_limit) (give_event s k) s.(sem_count) = Some s'.(sem_count) /\
  s'.(sem_wait_q) = s.(sem_wait_q) /\ s'.(sem_limit) = s.(sem_limit).
Proof.
  intros Hok. pose proof (give_spec s k Hok) as H. destruct (k_sem_give s k) as [s' k'].
  destruct Hok as [Hs Hr Hl Hi]. unfold give_event. destruct (k.(waitqs) _) as [|t r] eqn:Hw.
  - destruct H as [-> ->]. split; [split; simpl; try done; lia|]. split; [|done].
    destruct (Z.eqb_spec s.(sem_count) s.(sem_limit)) as [E|E]; simpl.
    + rewrite (proj2 (Z.eqb_eq _ _) E). f_equal. lia.
    + rewrite (proj2 (Z.ltb_lt _ _)) by lia. f_equal. lia.
  - destruct H as [-> [hs hq]]. assert (s.(sem_count) = 0) as E.
    { destruct (Z_lt_le_dec 0 s.(sem_count)) as [Hp|]; [|lia]. specialize (Hi Hp). congruence. }
    split; [split; try done; lia|]. simpl. by rewrite E.
Qed.

Lemma take_ok s timeout k : sem_ok s k -> k.(current) <> k.(idle_thread) ->
  k.(in_isr) = false \/ timeout = K_NO_WAIT ->
  let '(o, s', k') := k_sem_take s timeout k in
  sem_ok s' k' /\ counter s.(sem_limit) (take_event s timeout k) s.(sem_count) = Some s'.(sem_count) /\
  s'.(sem_wait_q) = s.(sem_wait_q) /\ s'.(sem_limit) = s.(sem_limit).
Proof.
  intros [Hs Hr Hl Hi] Hc Hisr. unfold take_event, k_sem_take.
  destruct (Z.ltb_spec 0 s.(sem_count)) as [Hp|Hz].
  - rewrite u32_small by lia. simpl. rewrite (proj2 (Z.ltb_lt _ _) Hp).
    split; [split; simpl; try done; auto; lia|done].
  - assert (s.(sem_count) = 0) as E by lia. destruct (Z.eqb_spec timeout K_NO_WAIT).
    + simpl. rewrite E. split; [by split|done].
    + destruct (pend_waits Hdl Hmi k s.(sem_wait_q) timeout Hs) as (k' & -> & [W _]); [tauto|done|].
      simpl. rewrite E. split; [split; try done; lia|done].
Qed.

Lemma reset_spec s k : sem_ok s k -> let '(s', k') := k_sem_reset s k in
  s' = set_sem_count 0 s /\
  if decide (k.(waitqs) s.(sem_wait_q) = []) then k' = k else handed_all s.(sem_wait_q) (- EAGAIN) 0 k k'.
Proof.
  intros [Hs _ _ _]. unfold k_sem_reset.
  destruct (wake_all_ok Hdl Hmi k s.(sem_wait_q) (- EAGAIN) 0 Hs) as (k1 & E & Hh). rewrite E.
  split; [done|]. case_decide as Hw.
  - rewrite Hw. simpl. unfold wake_all in E. rewrite Hw in E. simpl in E. congruence.
  - destruct (k.(waitqs) _); [done|]. done.
Qed.

Lemma reset_ok s k : sem_ok s k -> let '(s', k') := k_sem_reset s k in sem_ok s' k' /\
  s'.(sem_count) = 0 /\ s'.(sem_wait_q) = s.(sem_wait_q) /\ s'.(sem_limit) = s.(sem_limit).
Proof.
  intros Hok. pose proof (reset_spec s k Hok) as H. destruct (k_sem_reset s k) as [s' k'].
  destruct Hok as [Hs Hr Hl Hi], H as [-> H]. split; [|done]. split; simpl; try lia.
  case_decide; [by subst|apply H].
Qed.

Lemma sem_step_ok e s k s' k' : sem_step e (s, k) (s', k') -> sem_ok s k -> sem_ok s' k' /\
  counter s.(sem_limit) e s.(sem_count) = Some s'.(sem_count) /\
  s'.(sem_wait_q) = s.(sem_wait_q) /\ s'.(sem_limit) = s.(sem_limit).
Proof.
  intros Hst Hok. inversion Hst as [?? E1 E2 E3|?????? Hc Hi Ht|?? E1 E2 E3|??? Henv]; subst.
  - pose proof (give_ok s k Hok) as H. by destruct (k_sem_give s k); simplify_eq.
  - pose proof (take_ok s timeout k Hok Hc Hi) as H. by rewrite Ht in H.
  - pose proof (reset_ok s k Hok) as H. destruct (k_sem_reset s k); simplify_eq.
    destruct H as (? & H & ? & ?). split; [done|]. split; [by rewrite H|done].
  - destruct Hok as [Hs Hr Hl Hw]. split; [|done]. split; try done; [by eapply env_sys|].
    intros Hp. eapply env_empty; eauto.
Qed.

(** What a run without resets adds to the count. *)
Definition balance (es : list sem_event) : Z :=
  foldr (fun e n => match e with Counted => 1 | Taken => -1 | _ => 0 end + n) 0 es.

Definition no_reset (e : sem_event) : bool := match e with Cleared _ => false | _ => true end.

Lemma counter_balance limit es c c' : counter_run limit es c = Some c' -> forallb no_reset es = true ->
  c' = c + balance es.
Proof.
  revert c. induction es as [|e es IH]; intros c; simpl.
  - intros [= ->] _. lia.
  - intros H [Hn Hes]%andb_true_iff. destruct (counter limit e c) as [c1|] eqn:E; [|done].
    simpl in H. rewrite (IH c1 H Hes).
    destruct e; simpl in *; repeat case_match; simplify_eq; lia.
Qed.

Lemma sem_run_ok es x y : sem_run es x y -> sem_ok x.1 x.2 -> sem_ok y.1 y.2 /\
  counter_run x.1.(sem_limit) es x.1.(sem_count) = Some y.1.(sem_count).
Proof.
  induction 1 as [x|e es [s k] [s1 k1] z Hs _ IH]; [done|]. simpl. intros Hok.
  destruct (sem_step_ok _ _ _ _ _ Hs Hok) as (Hok1 & Hc & _ & Hl).
  destruct (IH Hok1) as [Hz Hrun]. split; [done|]. rewrite Hc. simpl in *. by rewrite <- Hl.
Qed.

End sem.

(** Semaphore operations.  Giving a semaphore with waiters leaves the count
    alone and hands the unit to the first waiter, whose take returns 0; without
    waiters it raises the count, saturating at the limit.  A take returns 0 and
    lowers a positive count, is refused with -EBUSY when it may not wait, and
    otherwise blocks at its place in the queue to return -EAGAIN unless woken.  A
    reset zeroes the count and makes every waiter return -EAGAIN. *)
Theorem sem_operations `{Cfg : Config} {RQ : RunQueue} {TB : TimeoutBackend} (s : k_sem) (k : kernel) :
  CONFIG_SCHED_DEADLINE = false -> CONFIG_NUM_METAIRQ_PRIORITIES <= 0 -> sem_ok s k ->
  (let '(s', k') := k_sem_give s k in
   match k.(waitqs) s.(sem_wait_q) with
   | t :: r => s' = s /\ handed s.(sem_wait_q) t r 0 0 k k'
   | [] => s' = set_sem_count (Z.min (s.(sem_count) + 1) s.(sem_limit)) s /\ k' = k
   end) /\
  (forall timeout, k.(in_isr) = false -> k.(current) <> k.(idle_thread) ->
   let '(o, s', k') := k_sem_take s timeout k in
   if 0 <? s.(sem_count) then o = Returns 0 /\ s' = set_sem_count (s.(sem_count) - 1) s /\ k' = k
   else if timeout =? K_NO_WAIT then o = Returns (- EBUSY) /\ s' = s /\ k' = k
   else o = Blocks /\ s' = s /\ waits s.(sem_wait_q) k k') /\
  (let '(s', k') := k_sem_reset s k in
   s' = set_sem_count 0 s /\
   if decide (k.(waitqs) s.(sem_wait_q) = []) then k' = k else handed_all s.(sem_wait_q) (- EAGAIN) 0 k k').
Proof.
  intros Hdl Hmi Hok. split; [by apply give_spec|]. split; [|by apply reset_spec].
  intros timeout Hisr Hc. destruct Hok as [Hs Hr Hl _]. unfold k_sem_take.
  destruct (Z.ltb_spec 0 s.(sem_count)); [by rewrite u32_small by lia|].
  destruct (timeout =? K_NO_WAIT); [done|].
  by destruct (pend_waits Hdl Hmi k s.(sem_wait_q) timeout Hs Hisr Hc) as (k' & -> & HW).
Qed.


(** ** Concrete runs *)

#[local] Existing Instance example_config.
#[local] Existing Instance simple_RunQueue.
#[local] Existing Instance delta_list_backend.

Definition example_sem : k_sem := K_sem 7%nat 0 1.

Lemma example_sem_ok : sem_ok example_sem example_waiting.
Proof. split; [apply example_waiting_ok|vm_compute; split; discriminate|vm_compute; split; reflexivity|discriminate]. Qed.

Lemma sem_operations_witness :
  let '(s', k') := k_sem_give example_sem example_waiting in
  s'.(sem_count) = 0 /\ k'.(waitqs) 7%nat = [] /\ (thr k' 1%nat).(swap_retval) = 0.
Proof.
  destruct (sem_operations example_sem example_waiting eq_refl ltac:(discriminate) example_sem_ok) as [H _].
  assert (Hw : example_waiting.(waitqs) example_sem.(sem_wait_q) = [1%nat]) by (vm_compute; reflexivity).
  rewrite Hw in H. destruct (k_sem_give example_sem example_waiting) as [s' k'].
  destruct H as [-> H]. exact (conj eq_refl (conj (ps_queue _ _ _ _ _ _ H) (hd_retval H))).
Defined.

Definition given_once : k_sem * kernel := k_sem_give example_sem example_waiting.
Definition given_twice : k_sem * kernel := k_sem_give given_once.1 given_once.2.

Lemma two_gives `{Cfg : Config} {RQ : RunQueue} {TB : TimeoutBackend} s k s1 k1 s2 k2 :
  k_sem_give s k = (s1, k1) -> k_sem_give s1 k1 = (s2, k2) ->
  sem_run [give_event s k; give_event s1 k1] (s, k) (s2, k2).
Proof.
  intros E1 E2. eapply sr_cons; [apply ss_give|]. rewrite E1. eapply sr_cons; [apply ss_give|].
  rewrite E2. apply sr_nil.
Qed.

Lemma given_once_eq : k_sem_give example_sem example_waiting = (given_once.1, given_once.2).
Proof. unfold given_once. apply surjective_pairing. Qed.
Lemma given_twice_eq : k_sem_give given_once.1 given_once.2 = (given_twice.1, given_twice.2).
Proof. unfold given_twice. apply surjective_pairing. Qed.

