(* ===== verification/Stack.v ===== *)
(** LIFO stacks of words: kernel/stack.c.

    The buffer is a range of word addresses in [stack_mem]; the specification is a
    bounded list with the last word pushed first. *)

From S2P Require Import Prelude Thread PriorityQ Timeout TimeoutList.
From S2P Require Import Sched SchedOk SchedSpec ThreadApi ThreadSpec SchedProps Blocking.

#[local] Open Scope Z_scope.

(** [struct k_stack] and the words of memory it owns; an address is a word's. *)
Record k_stack := K_stack {
  stack_wait_q : wqid;
  stack_base : Z;
  stack_next : Z;
  stack_top : Z;
  stack_flags : Z;
  stack_mem : Z -> Z
}.
Definition K_STACK_FLAG_ALLOC : Z := 1.
Definition set_stack_next (n : Z) (s : k_stack) : k_stack :=
  K_stack s.(stack_wait_q) s.(stack_base) n s.(stack_top) s.(stack_flags) s.(stack_mem).
Definition set_stack_mem (m : Z -> Z) (s : k_stack) : k_stack :=
  K_stack s.(stack_wait_q) s.(stack_base) s.(stack_next) s.(stack_top) s.(stack_flags) m.
Definition set_stack_flags (f : Z) (s : k_stack) : k_stack :=
  K_stack s.(stack_wait_q) s.(stack_base) s.(stack_next) s.(stack_top) f s.(stack_mem).
Definition set_stack_base (b : Z) (s : k_stack) : k_stack :=
  K_stack s.(stack_wait_q) b s.(stack_next) s.(stack_top) s.(stack_flags) s.(stack_mem).

Section stack.
Context `{Cfg : Config} {RQ : RunQueue} {TB : TimeoutBackend}.

Definition k_stack_init (s : k_stack) (buffer num_entries : Z) (k : kernel) : k_stack * kernel :=
  (K_stack s.(stack_wait_q) buffer buffer (buffer + num_entries) s.(stack_flags) s.(stack_mem),
   on_waitq s.(stack_wait_q) (fun _ => []) k).

(** [malloc n] is the (word) address of a block of [n] bytes, or none.  A word
    is 4 bytes on a 32-bit target, where the size must fit 32 bits. *)
Definition k_stack_alloc_init (malloc : Z -> option Z) (s : k_stack) (num_entries : Z) (k : kernel)
    : Z * k_stack * kernel :=
  if 2 ^ 32 <=? 4 * num_entries then (- ENOMEM, s, k)
  else match malloc (4 * num_entries) with
       | Some buffer =>
           let '(s1, k1) := k_stack_init s buffer num_entries k in
           (0, set_stack_flags K_STACK_FLAG_ALLOC s1, k1)
       | None => (- ENOMEM, s, k)
       end.

(** The second result is the block handed to [k_free], if any. *)
Definition k_stack_cleanup (s : k_stack) (k : kernel) : Z * option Z * k_stack :=
  match k.(waitqs) s.(stack_wait_q) with
  | _ :: _ => (- EAGAIN, None, s)
  | [] =>
      if negb (Z.land s.(stack_flags) K_STACK_FLAG_ALLOC =? 0)
      then (0, Some s.(stack_base),
            set_stack_flags (Z.land s.(stack_flags) (u8 (Z.lnot K_STACK_FLAG_ALLOC))) (set_stack_base 0 s))
      else (0, None, s)
  end.

Definition k_stack_push (s : k_stack) (data : Z) (k : kernel) : Z * k_stack * kernel :=
  if s.(stack_next) =? s.(stack_top) then (- ENOMEM, s, k)
  else match z_sched_wake s.(stack_wait_q) 0 data k with
       | (true, k1) => (0, s, reschedule k1)
       | (false, k1) =>
           (0, set_stack_next (s.(stack_next) + 1) (set_stack_mem (upd s.(stack_next) data s.(stack_mem)) s), k1)
       end.

(** The call up to the point where it returns or blocks; [k_stack_pop_resume] is
    the rest of a call that blocked, in the thread that made it. *)
Definition k_stack_pop (s : k_stack) (timeout : Z) (k : kernel) : outcome * option Z * k_stack * kernel :=
  if s.(stack_base) <? s.(stack_next)
  then let s1 := set_stack_next (s.(stack_next) - 1) s in
       (Returns 0, Some (s1.(stack_mem) s1.(stack_next)), s1, k)
  else if timeout =? K_NO_WAIT then (Returns (- EBUSY), None, s, k)
  else let '(ret, k1) := z_pend_curr s.(stack_wait_q) timeout k in (ret, None, s, k1).

Definition k_stack_pop_resume (th : k_thread) : Z * option Z :=
  if th.(swap_retval) =? - EAGAIN then (- EAGAIN, None) else (0, Some th.(swap_data)).

(** ** The specification *)

Fixpoint words (m : Z -> Z) (a : Z) (n : nat) : list Z :=
  match n with O => [] | S n => m (a + Z.of_nat n) :: words m a n end.
(** The words on the stack, the last one pushed first. *)
Definition contents (s : k_stack) : list Z :=
  words s.(stack_mem) s.(stack_base) (Z.to_nat (s.(stack_next) - s.(stack_base))).
Definition capacity (s : k_stack) : nat := Z.to_nat (s.(stack_top) - s.(stack_base)).

Record stack_ok (s : k_stack) (k : kernel) : Prop := {
  stack_sys : sys_ok k;
  stack_bounds : s.(stack_base) <= s.(stack_next) <= s.(stack_top);
  stack_idle : s.(stack_base) < s.(stack_next) -> k.(waitqs) s.(stack_wait_q) = []
}.

Inductive stack_event :=
| Pushed (d : Z) | Passed (t : tid) (d : Z) | Full | Popped (d : Z) | Empty | Waiting (t : tid) | Idle.

Definition lifo (cap : nat) (e : stack_event) (l : list Z) : option (list Z) :=
  match e with
  | Pushed d => if (length l <? cap)%nat then Some (d :: l) else None
  | Passed _ _ | Empty | Waiting _ => match l with [] => Some [] | _ => None end
  | Full => if (length l =? cap)%nat then Some l else None
  | Popped d => match l with d' :: r => if d =? d' then Some r else None | [] => None end
  | Idle => Some l
  end.
Fixpoint lifo_run (cap : nat) (es : list stack_event) (l : list Z) : option (list Z) :=
  match es with [] => Some l | e :: r => l' ← lifo cap e l; lifo_run cap r l' end.

Definition push_event (s : k_stack) (d : Z) (k : kernel) : stack_event :=
  if (k_stack_push s d k).1.1 =? 0 then
    match k.(waitqs) s.(stack_wait_q) with t :: _ => Passed t d | [] => Pushed d end
  else Full.
Definition pop_event (s : k_stack) (timeout : Z) (k : kernel) : stack_event :=
  match (k_stack_pop s timeout k).1.1 with
  | (Returns _, Some d) => Popped d
  | (Blocks, _) => Waiting k.(current)
  | _ => Empty
  end.

Inductive stack_step : stack_event -> k_stack * kernel -> k_stack * kernel -> Prop :=
| ks_push s k d ret s' k' : k_stack_push s d k = (ret, s', k') -> stack_step (push_event s d k) (s, k) (s', k')
| ks_pop s k timeout o r s' k' : k.(current) <> k.(idle_thread) -> k.(in_isr) = false \/ timeout = K_NO_WAIT ->
    k_stack_pop s timeout k = (o, r, s', k') -> stack_step (pop_event s timeout k) (s, k) (s', k')
| ks_other s k k' : env_step s.(stack_wait_q) k k' -> stack_step Idle (s, k) (s, k').

Inductive stack_run : list stack_event -> k_stack * kernel -> k_stack * kernel -> Prop :=
| kr_nil x : stack_run [] x x
| kr_cons e es x y z : stack_step e x y -> stack_run es y z -> stack_run (e :: es) x z.

(** What the specification says of one step. *)
Record stack_stepped (e : stack_event) (s : k_stack) (s' : k_stack) (k' : kernel) : Prop := {
  sp_ok : stack_ok s' k';
  sp_lifo : lifo (capacity s) e (contents s) = Some (contents s');
  sp_capacity : capacity s' = capacity s;
  sp_passed : forall t d, e = Passed t d -> k_stack_pop_resume (thr k' t) = (0, Some d)
}.

(** ** Proofs *)

Context (Hdl : CONFIG_SCHED_DEADLINE = false) (Hmi : CONFIG_NUM_METAIRQ_PRIORITIES <= 0).

Lemma words_length m a n : length (words m a n) = n.
Proof. induction n; simpl; congruence. Qed.

Lemma words_ext m m' a n : (forall x, a <= x < a + Z.of_nat n -> m x = m' x) -> words m a n = words m' a n.
Proof.
  induction n as [|n IH]; [done|]. intros H. simpl. rewrite H by lia. f_equal. apply IH. intros. apply H. lia.
Qed.

Lemma stack_length s : stack_base s <= stack_next s ->
  Z.of_nat (length (contents s)) = stack_next s - stack_base s.
Proof. intros. unfold contents. rewrite words_length. lia. Qed.

Lemma contents_push s d : s.(stack_base) <= s.(stack_next) ->
  contents (set_stack_next (s.(stack_next) + 1) (set_stack_mem (upd s.(stack_next) d s.(stack_mem)) s)) =
  d :: contents s.
Proof.
  intros H. unfold contents. simpl.
  replace (Z.to_nat _) with (S (Z.to_nat (s.(stack_next) - s.(stack_base)))) by lia. simpl.
  rewrite Z2Nat.id by lia. f_equal; [rewrite <- (upd_eq s.(stack_next) d s.(stack_mem)) at 2; f_equal; lia|].
  apply words_ext. intros x Hx. rewrite upd_ne by lia. done.
Qed.

Lemma contents_pop s : s.(stack_base) < s.(stack_next) ->
  contents s = s.(stack_mem) (s.(stack_next) - 1) :: contents (set_stack_next (s.(stack_next) - 1) s).
Proof.
  intros H. unfold contents. simpl.
  replace (Z.to_nat (s.(stack_next) - s.(stack_base))) with (S (Z.to_nat (s.(stack_next) - 1 - s.(stack_base)))) by lia.
  simpl. do 2 f_equal. lia.
Qed.

Lemma contents_nil s : s.(stack_next) <= s.(stack_base) -> contents s = [].
Proof. intros. unfold contents. by replace (Z.to_nat _) with 0%nat by lia. Qed.

Lemma push_stepped s k d ret s' k' : stack_ok s k -> k_stack_push s d k = (ret, s', k') ->
  stack_stepped (push_event s d k) s s' k'.
Proof.
  intros [Hs Hb Hi] E. unfold push_event. rewrite E. unfold k_stack_push in E. cbn [fst snd].
  pose proof (stack_length s ltac:(lia)) as Hlen.
  destruct (Z.eqb_spec s.(stack_next) s.(stack_top)) as [Ef|Ef].
  { simplify_eq. simpl. split; [by split| |done|done]. simpl.
    rewrite (proj2 (Nat.eqb_eq _ _)); [done|unfold capacity; lia]. }
  destruct (k.(waitqs) s.(stack_wait_q)) as [|t r] eqn:Hw.
  - rewrite (wake_nobody Hdl Hmi) in E by done. simplify_eq. simpl. split; [|simpl|done|done].
    + split; simpl; [done|lia|auto].
    + rewrite contents_push by lia. rewrite (proj2 (Nat.ltb_lt _ _)); [done|unfold capacity; lia].
  - destruct (wake_handed Hdl Hmi k _ t r 0 d Hs Hw) as (k1 & E1 & Hh). rewrite E1 in E. simplify_eq.
    assert (s'.(stack_next) <= s'.(stack_base)) as Hn
      by (destruct (Z_lt_le_dec s'.(stack_base) s'.(stack_next)) as [Hp|]; [specialize (Hi Hp); congruence|done]).
    simpl. split; [split; [apply Hh|done|lia]| |done|].
    + simpl. by rewrite contents_nil.
    + intros ?? [= <- <-]. unfold k_stack_pop_resume. by rewrite (hd_retval Hh), (hd_data Hh).
Qed.

Lemma pop_stepped s k timeout o r s' k' : stack_ok s k -> k.(current) <> k.(idle_thread) ->
  k.(in_isr) = false \/ timeout = K_NO_WAIT -> k_stack_pop s timeout k = (o, r, s', k') ->
  stack_stepped (pop_event s timeout k) s s' k'.
Proof.
  intros [Hs Hb Hi] Hc Hisr E. unfold pop_event. rewrite E. unfold k_stack_pop in E. cbn [fst snd].
  destruct (Z.ltb_spec s.(stack_base) s.(stack_next)) as [Hp|Hz].
  - simplify_eq. split; [split; simpl; auto; lia| |done|done].
    simpl. rewrite (contents_pop s Hp). by rewrite Z.eqb_refl.
  - destruct (Z.eqb_spec timeout K_NO_WAIT).
    + simplify_eq. split; [by split|simpl; by rewrite contents_nil|done|done].
    + destruct (pend_waits Hdl Hmi k s.(stack_wait_q) timeout Hs) as (k1 & E1 & [W _]); [tauto|done|].
      rewrite E1 in E. simplify_eq. split; [split; [done|done|lia]|simpl; by rewrite contents_nil|done|done].
Qed.

Lemma stack_step_ok e s k s' k' : stack_step e (s, k) (s', k') -> stack_ok s k -> stack_stepped e s s' k'.
Proof.
  intros Hst Hok. inversion Hst as [?????? E|??????? Hc Hi E|??? Henv]; subst.
  - by eapply push_stepped.
  - by eapply pop_stepped.
  - destruct Hok as [Hs Hb Hi]. split; try done. split; [by eapply env_sys|done|].
    intros Hp. eapply env_empty; eauto.
Qed.

Lemma stack_run_ok es x y : stack_run es x y -> stack_ok x.1 x.2 -> stack_ok y.1 y.2 /\
  lifo_run (capacity x.1) es (contents x.1) = Some (contents y.1).
Proof.
  induction 1 as [x|e es [s k] [s1 k1] z Hs _ IH]; [done|]. simpl. intros Hok.
  destruct (stack_step_ok _ _ _ _ _ Hs Hok) as [Hok1 Hc Hcap _].
  destruct (IH Hok1) as [Hz Hrun]. split; [done|]. rewrite Hc. simpl in *. by rewrite <- Hcap.
Qed.

End stack.

(** C25. Stacks are LIFO.  However pushes and pops by threads and interrupts
    interleave with the rest of the system, the pointers stay inside the buffer,
    nobody waits while the stack holds a word, and the calls behave as a bounded
    list: a push adds a word in front or is refused when the buffer is full, a pop
    takes the word pushed last, and a push finding a waiter hands its word to the
    first one, whose pop then returns 0 with that word. *)
Theorem stack_is_lifo `{Cfg : Config} {RQ : RunQueue} {TB : TimeoutBackend}
    (es : list stack_event) (s s' : k_stack) (k k' : kernel) :
  CONFIG_SCHED_DEADLINE = false -> CONFIG_NUM_METAIRQ_PRIORITIES <= 0 -> stack_ok s k ->
  stack_run es (s, k) (s', k') ->
  stack_ok s' k' /\ lifo_run (capacity s) es (contents s) = Some (contents s') /\
  (forall e s2 k2, stack_step e (s', k') (s2, k2) -> stack_stepped e s' s2 k2).
Proof.
  intros Hdl Hmi Hok Hrun. destruct (stack_run_ok Hdl Hmi es _ _ Hrun Hok) as [H1 H2].
  split; [done|]. split; [done|]. intros. by eapply stack_step_ok.
Qed.

(** ** A concrete run: two pushes and a pop, then a push to a waiter *)

#[local] Existing Instance example_config.
#[local] Existing Instance simple_RunQueue.
#[local] Existing Instance delta_list_backend.

Definition example_stack : k_stack := K_stack 7%nat 100 100 102 0 (fun _ => 0).

Lemma example_stack_ok : stack_ok example_stack example_waiting.
Proof. split; [apply example_waiting_ok|vm_compute; split; discriminate|discriminate]. Qed.

Lemma run_push `{Cfg : Config} {RQ : RunQueue} {TB : TimeoutBackend} s k d x :
  k_stack_push s d k = x -> stack_run [push_event s d k] (s, k) (x.1.2, x.2).
Proof. intros <-. destruct (k_stack_push s d k) as [[ret s'] k'] eqn:E. by eapply kr_cons, kr_nil; econstructor. Qed.

Definition example_pushed : Z * k_stack * kernel := k_stack_push example_stack 42 example_waiting.
Lemma example_pushed_eq : k_stack_push example_stack 42 example_waiting = example_pushed.
Proof. unfold example_pushed. apply eq_refl. Qed.

Lemma stack_is_lifo_witness : stack_ok example_pushed.1.2 example_pushed.2 /\
  lifo_run 2 [Passed 1%nat 42] [] = Some (contents example_pushed.1.2).
Proof.
  destruct (stack_is_lifo (Cfg := example_config) _ _ _ _ _ eq_refl ltac:(discriminate) example_stack_ok
    (run_push _ _ _ _ example_pushed_eq)) as (H1 & H2 & _).
  split; [exact H1|]. rewrite <- H2. vm_compute. reflexivity.
Defined.
