(* ===== verification/Queue.v ===== *)
(** Queues, FIFOs and LIFOs: kernel/queue.c and the macros over it in
    include/zephyr/kernel.h.

    A queue links its items through their first word, in a flagged list: an item given
    by its address is linked itself, an item added with an [alloc] call through a
    wrapper that holds the pointer and that is freed when the item leaves.  The
    specification is a list of items; it shows who owns which words. *)

From S2P Require Import Prelude Thread PriorityQ Timeout TimeoutList.
From S2P Require Import Sched SchedOk SchedSpec ThreadApi ThreadSpec SchedProps Blocking Slist.

#[local] Open Scope Z_scope.
#[local] Existing Instance sfnode.

Record k_queue := K_queue { data_q : sys_list; queue_wait_q : wqid }.
Definition set_data_q (l : sys_list) (q : k_queue) : k_queue := K_queue l q.(queue_wait_q).

(** [struct alloc_node] is two words: the node and the pointer. *)
Definition alloc_data (anode : Z) : Z := anode + 4.

(** The data pointer, and the block handed to [k_free], if any. *)
Definition z_queue_node_peek (m : words) (node : Z) (needs_free : bool) : Z * option Z :=
  if negb (node =? NULL) && negb (sys_sfnode_flags_get m node =? 0)
  then (m (alloc_data node), if needs_free then Some node else None)
  else (node, None).

Section queue.
Context `{Cfg : Config} {RQ : RunQueue} {TB : TimeoutBackend}.

Definition k_queue_init (q : k_queue) (k : kernel) : k_queue * kernel :=
  (set_data_q sys_list_init q, on_waitq q.(queue_wait_q) (fun _ => []) k).

Definition k_queue_cancel_wait (q : k_queue) (k : kernel) : kernel :=
  match z_sched_wake q.(queue_wait_q) 0 NULL k with (true, k1) => reschedule k1 | (false, k1) => k1 end.

(** [malloc] is the address of a block of 8 bytes from the thread's resource pool, or none. *)
Definition queue_insert (malloc : option Z) (q : k_queue) (prev data : Z) (alloc is_append : bool) (m : words) (k : kernel)
    : Z * k_queue * words * kernel :=
  let prev := if is_append then peek_tail q.(data_q) else prev in
  match z_sched_wake q.(queue_wait_q) 0 data k with
  | (true, k1) => (0, q, m, reschedule k1)
  | (false, k1) =>
      if alloc then
        match malloc with
        | None => (- ENOMEM, q, m, k1)
        | Some anode =>
            let m := upd (alloc_data anode) data m in
            let m := sys_sfnode_init anode 1 m in
            let '(l, m) := insert q.(data_q) prev anode m in (0, set_data_q l q, m, k1)
        end
      else
        let m := sys_sfnode_init data 0 m in
        let '(l, m) := insert q.(data_q) prev data m in (0, set_data_q l q, m, k1)
  end.

Definition k_queue_insert (q : k_queue) (prev data : Z) := queue_insert None q prev data false false.
Definition k_queue_append (q : k_queue) (data : Z) := queue_insert None q NULL data false true.
Definition k_queue_prepend (q : k_queue) (data : Z) := queue_insert None q NULL data false false.
Definition k_queue_alloc_append (malloc : option Z) (q : k_queue) (data : Z) := queue_insert malloc q NULL data true true.
Definition k_queue_alloc_prepend (malloc : option Z) (q : k_queue) (data : Z) := queue_insert malloc q NULL data true false.

(** The loop of [k_queue_append_list]; [None] is a loop that did not end within the fuel. *)
Fixpoint append_loop (fuel : nat) (w : wqid) (head : Z) (resched : bool) (m : words) (k : kernel)
    : option (Z * bool * kernel) :=
  match fuel with
  | O => None
  | S fuel =>
      if negb (head =? NULL) then
        match z_sched_wake w 0 head k with
        | (true, k1) => append_loop fuel w (m head) true m k1
        | (false, k1) => Some (head, resched, k1)
        end
      else Some (head, resched, k)
  end.

Definition k_queue_append_list (fuel : nat) (q : k_queue) (head tail : Z) (m : words) (k : kernel)
    : option (Z * k_queue * words * kernel) :=
  if (head =? NULL) || (tail =? NULL) then Some (- EINVAL, q, m, k)
  else match append_loop fuel q.(queue_wait_q) head false m k with
       | None => None
       | Some (head, resched, k1) =>
           let '(l, m) := if negb (head =? NULL) then append_list q.(data_q) head tail m else (q.(data_q), m) in
           Some (0, set_data_q l q, m, if resched then reschedule k1 else k1)
       end.

Definition k_queue_merge_slist (fuel : nat) (q : k_queue) (list : sys_list) (m : words) (k : kernel)
    : option (Z * k_queue * sys_list * words * kernel) :=
  if is_empty list then Some (- EINVAL, q, list, m, k)
  else match k_queue_append_list fuel q list.(head) list.(tail) m k with
       | None => None
       | Some (ret, q', m', k') => Some (ret, q', if negb (ret =? 0) then list else sys_list_init, m', k')
       end.

(** The call up to the point where it returns or blocks, with the block it frees. *)
Definition k_queue_get (q : k_queue) (timeout : Z) (m : words) (k : kernel) : outcome * option Z * k_queue * kernel :=
  if negb (is_empty q.(data_q)) then
    let '(node, l) := get_not_empty q.(data_q) m in
    let '(data, freed) := z_queue_node_peek m node true in (Returns data, freed, set_data_q l q, k)
  else if timeout =? K_NO_WAIT then (Returns NULL, None, q, k)
  else let '(ret, k1) := z_pend_curr q.(queue_wait_q) timeout k in (ret, None, q, k1).

Definition k_queue_get_resume (th : k_thread) : Z :=
  if negb (th.(swap_retval) =? 0) then NULL else th.(swap_data).

(** The search of [k_queue_remove]: the item found, as its node and the node in front. *)
Fixpoint remove_loop (fuel : nat) (m : words) (prev node data : Z) : option (option (Z * Z)) :=
  match fuel with
  | O => None
  | S fuel =>
      if negb (node =? NULL) then
        if (z_queue_node_peek m node false).1 =? data then Some (Some (prev, node))
        else remove_loop fuel m node (peek_next m node) data
      else Some None
  end.

Definition k_queue_remove (fuel : nat) (q : k_queue) (data : Z) (m : words) : option (bool * option Z * k_queue * words) :=
  match remove_loop fuel m NULL (peek_head q.(data_q)) data with
  | None => None
  | Some None => Some (false, None, q, m)
  | Some (Some (prev, node)) =>
      let '(l, m) := remove q.(data_q) prev node m in
      Some (true, (z_queue_node_peek m node true).2, set_data_q l q, m)
  end.

(** [SYS_SFLIST_FOR_EACH_NODE] with the test of [k_queue_unique_append]. *)
Definition k_queue_unique_append (fuel : nat) (q : k_queue) (data : Z) (m : words) (k : kernel)
    : option (bool * k_queue * words * kernel) :=
  match find_loop fuel m (peek_head q.(data_q)) NULL data with
  | None => None
  | Some (true, _) => Some (false, q, m, k)
  | Some (false, _) => let '(_, q', m', k') := queue_insert None q NULL data false true m k in Some (true, q', m', k')
  end.

Definition k_queue_is_empty (q : k_queue) : Z := if is_empty q.(data_q) then 1 else 0.
Definition k_queue_peek_head (q : k_queue) (m : words) : Z := (z_queue_node_peek m (peek_head q.(data_q)) false).1.
Definition k_queue_peek_tail (q : k_queue) (m : words) : Z := (z_queue_node_peek m (peek_tail q.(data_q)) false).1.

(** ** The macros over queues *)

Definition k_fifo_init := k_queue_init.
Definition k_fifo_cancel_wait := k_queue_cancel_wait.
Definition k_fifo_put := k_queue_append.
Definition k_fifo_alloc_put := k_queue_alloc_append.
Definition k_fifo_put_list := k_queue_append_list.
Definition k_fifo_put_slist := k_queue_merge_slist.
Definition k_fifo_get := k_queue_get.
Definition k_fifo_is_empty := k_queue_is_empty.
Definition k_fifo_peek_head := k_queue_peek_head.
Definition k_fifo_peek_tail := k_queue_peek_tail.
Definition k_lifo_init := k_queue_init.
Definition k_lifo_put := k_queue_prepend.
Definition k_lifo_alloc_put := k_queue_alloc_prepend.
Definition k_lifo_get := k_queue_get.

(** ** The specification *)

(** A data pointer, with the wrapper that links it, if any. *)
Definition item : Type := Z * option Z.
Definition plain (d : Z) : item := (d, None).
Definition node_of (it : item) : Z := default it.1 it.2.
Definition owned (it : item) : list Z := match it.2 with None => [it.1] | Some n => [n; alloc_data n] end.
Definition item_at (m : words) (it : item) : Prop :=
  match it.2 with
  | None => sys_sfnode_flags_get m it.1 = 0
  | Some n => sys_sfnode_flags_get m n <> 0 /\ m (alloc_data n) = it.1
  end.

Record items_ok (q : k_queue) (m : words) (l : list item) : Prop := {
  io_linked : linked m q.(data_q) (node_of <$> l);
  io_at : Forall (item_at m) l;
  io_own : NoDup (l ≫= owned)
}.

Definition state : Type := k_queue * words * kernel.
Record queue_ok (x : state) (l : list item) : Prop := {
  qo_sys : sys_ok x.2;
  qo_items : items_ok x.1.1 x.1.2 l;
  qo_idle : l <> [] -> x.2.(waitqs) x.1.1.(queue_wait_q) = []
}.

Inductive queue_event :=
| Inserted (prev : Z) (it : item) | Appended (it : item) | Handed (t : tid) (d : Z) | NoMemory
| Spliced (ds : list Z) (n : nat) | Invalid | Took (it : item) | Nothing | Waits (t : tid)
| Removed (it : item) | Absent (d : Z) | Present (d : Z) | Cancelled | Elsewhere (m m' : words).

Definition insert_after (prev : Z) (it : item) (l : list item) : option (list item) :=
  match list_find (fun x => prev = node_of x) l with
  | Some (i, _) => Some (take (S i) l ++ it :: drop (S i) l)
  | None => None
  end.
Fixpoint remove_item (d : Z) (l : list item) : option (item * list item) :=
  match l with
  | [] => None
  | it :: r => if it.1 =? d then Some (it, r) else '(x, r') ← remove_item d r; Some (x, it :: r')
  end.

Definition seq (e : queue_event) (l : list item) : option (list item) :=
  match e with
  | Inserted prev it => if prev =? NULL then Some (it :: l) else insert_after prev it l
  | Appended it => Some (l ++ [it])
  | Handed _ _ | Nothing | Waits _ => match l with [] => Some [] | _ => None end
  | Spliced ds n => if decide (n = 0%nat \/ l = []) then Some (l ++ (plain <$> drop n ds)) else None
  | Took it => match l with x :: r => if decide (x = it) then Some r else None | [] => None end
  | Removed it => '(x, r) ← remove_item it.1 l; if decide (x = it) then Some r else None
  | Absent d => if decide (d ∈ l.*1) then None else Some l
  | Present d => if decide (d ∈ node_of <$> l) then Some l else None
  | NoMemory | Invalid | Cancelled | Elsewhere _ _ => Some l
  end.
Fixpoint seq_run (es : list queue_event) (l : list item) : option (list item) :=
  match es with [] => Some l | e :: r => l' ← seq e l; seq_run r l' end.

(** What the queue relies on: the words of a new item are free, an item to insert
    behind is in the queue, and nobody else writes the words of the queue. *)
Definition fresh (it : item) (l : list item) : Prop := aligned (node_of it) /\ NoDup (owned it ++ (l ≫= owned)).
Definition allowed (e : queue_event) (l : list item) : Prop :=
  match e with
  | Inserted prev it => fresh it l /\ (prev = NULL \/ prev ∈ node_of <$> l)
  | Appended it => fresh it l
  | Spliced ds n => NoDup ((l ++ (plain <$> drop n ds)) ≫= owned)
  | Elsewhere m m' => forall w, w ∈ l ≫= owned -> m' w = m w
  | _ => True
  end.
Fixpoint allowed_run (es : list queue_event) (l : list item) : Prop :=
  match es with
  | [] => True
  | e :: r => allowed e l /\ forall l', seq e l = Some l' -> allowed_run r l'
  end.

Definition insert_event (malloc : option Z) (prev data : Z) (alloc is_append : bool) (x : state) : queue_event :=
  let '(q, m, k) := x in
  if (queue_insert malloc q prev data alloc is_append m k).1.1.1 =? 0 then
    match k.(waitqs) q.(queue_wait_q) with
    | t :: _ => Handed t data
    | [] => let it := (data, if alloc then malloc else None) in if is_append then Appended it else Inserted prev it
    end
  else NoMemory.
Definition splice_event (ret : Z) (ds : list Z) (x : state) : queue_event :=
  if ret =? 0 then Spliced ds (Nat.min (length ds) (length (x.2.(waitqs) x.1.1.(queue_wait_q)))) else Invalid.
Definition get_event (timeout : Z) (x : state) : queue_event :=
  let '(q, m, k) := x in
  match (k_queue_get q timeout m k).1.1 with
  | (Returns d, freed) => if is_empty q.(data_q) then Nothing else Took (d, freed)
  | _ => Waits k.(current)
  end.

(** The items of a list to splice, linked as an slist. *)
Definition slist_of (m : words) (h : Z) (ds : list Z) : Prop := @chain snode m h ds NULL /\ Forall aligned ds.

Inductive queue_step : queue_event -> state -> state -> Prop :=
| qs_insert malloc prev data alloc is_append q m k ret q' m' k' :
    queue_insert malloc q prev data alloc is_append m k = (ret, q', m', k') ->
    queue_step (insert_event malloc prev data alloc is_append (q, m, k)) (q, m, k) (q', m', k')
| qs_append_list fuel h t ds q m k ret q' m' k' : slist_of m h ds -> t = default NULL (last ds) ->
    k_queue_append_list fuel q h t m k = Some (ret, q', m', k') ->
    queue_step (splice_event ret ds (q, m, k)) (q, m, k) (q', m', k')
| qs_merge fuel list list' ds q m k ret q' m' k' : slist_of m list.(head) ds -> list.(tail) = default NULL (last ds) ->
    k_queue_merge_slist fuel q list m k = Some (ret, q', list', m', k') ->
    queue_step (splice_event ret ds (q, m, k)) (q, m, k) (q', m', k')
| qs_get timeout q m k o freed q' k' : k.(current) <> k.(idle_thread) -> k.(in_isr) = false \/ timeout = K_NO_WAIT ->
    k_queue_get q timeout m k = (o, freed, q', k') -> queue_step (get_event timeout (q, m, k)) (q, m, k) (q', m, k')
| qs_remove fuel data q m k found freed q' m' : k_queue_remove fuel q data m = Some (found, freed, q', m') ->
    queue_step (if found then Removed (data, freed) else Absent data) (q, m, k) (q', m', k)
| qs_unique fuel data q m k added q' m' k' : k_queue_unique_append fuel q data m k = Some (added, q', m', k') ->
    queue_step (if added then insert_event None NULL data false true (q, m, k) else Present data) (q, m, k) (q', m', k')
| qs_cancel q m k : queue_step Cancelled (q, m, k) (q, m, k_queue_cancel_wait q k)
| qs_other q m m' k k' : env_step q.(queue_wait_q) k k' -> queue_step (Elsewhere m m') (q, m, k) (q, m', k').

Inductive queue_run : list queue_event -> state -> state -> Prop :=
| qr_nil x : queue_run [] x x
| qr_cons e es x y z : queue_step e x y -> queue_run es y z -> queue_run (e :: es) x z.

(** What the specification says of one step. *)
Record queue_stepped (e : queue_event) (l : list item) (x x' : state) : Prop := {
  qp_ok : exists l', seq e l = Some l' /\ queue_ok x' l';
  qp_handed : forall t d, e = Handed t d -> k_queue_get_resume (thr x'.2 t) = d;
  qp_spliced : forall ds n i t d, e = Spliced ds n -> x.2.(waitqs) x.1.1.(queue_wait_q) !! i = Some t -> ds !! i = Some d ->
    k_queue_get_resume (thr x'.2 t) = d;
  qp_cancelled : forall t r, e = Cancelled -> x.2.(waitqs) x.1.1.(queue_wait_q) = t :: r ->
    k_queue_get_resume (thr x'.2 t) = NULL
}.

(** ** Proofs: the items in memory *)

Lemma node_owned it : node_of it ∈ owned it.
Proof. destruct it as [d [n|]]; unfold node_of, owned; simpl; set_solver. Qed.

Lemma node_in_owned n l : n ∈ node_of <$> l -> n ∈ l ≫= owned.
Proof.
  intros (it & -> & Hin)%list_elem_of_fmap. apply list_elem_of_bind. exists it. split; [apply node_owned|done].
Qed.

Lemma item_at_ext m m' it : (forall w, w ∈ owned it -> m' w = m w) -> item_at m it -> item_at m' it.
Proof.
  destruct it as [d [n|]]; unfold item_at, owned; simpl; intros Hm.
  - unfold sys_sfnode_flags_get. rewrite !Hm by set_solver. done.
  - unfold sys_sfnode_flags_get. by rewrite Hm by set_solver.
Qed.

Lemma items_ext q m m' l : items_ok q m l -> (forall w, w ∈ l ≫= owned -> m' w = m w) -> items_ok q m' l.
Proof.
  intros [[H1 H2 H3] H4 H5] Hm. split; [split; [|done|done]| |done].
  - eapply chain_ext; [|exact H1]. intros x Hx. symmetry. by apply Hm, node_in_owned.
  - apply Forall_forall. intros it Hit. eapply item_at_ext; [|by eapply Forall_forall in H4].
    intros w Hw. apply Hm, list_elem_of_bind. eauto.
Qed.

(** An operation of the list that keeps the flags and writes only nodes. *)
Lemma items_relinked m m' l (ns : list Z) : NoDup (l ≫= owned) -> Forall (item_at m) l -> Forall aligned (node_of <$> l) ->
  flags_same m m' -> (forall x, x ∉ ns -> m' x = m x) -> (forall it, it ∈ l -> forall n, it.2 = Some n -> alloc_data n ∉ ns) ->
  Forall (item_at m') l.
Proof.
  intros Hnd Hat Hal Hfl Hm Hns. rewrite Forall_forall in Hat. rewrite Forall_forall in Hal. apply Forall_forall. intros it Hit. specialize (Hat it Hit).
  assert (Ha : aligned (node_of it)) by (apply Hal, list_elem_of_fmap; eauto). pose proof (Hfl (node_of it) Ha) as Hf.
  specialize (Hns it Hit). destruct it as [d [n|]]; unfold item_at, node_of in *; simpl in *.
  - rewrite Hm by (by apply Hns). cbn in Hf. rewrite Hf. done.
  - cbn in Hf. by rewrite Hf.
Qed.

(** The data word of a wrapper is no node. *)
Lemma data_not_node l it n : NoDup (l ≫= owned) -> it ∈ l -> it.2 = Some n -> alloc_data n ∉ node_of <$> l.
Proof.
  intros Hnd Hit Hn (it' & E & Hit')%list_elem_of_fmap. apply list_elem_of_split in Hit as (l1 & l2 & ->).
  rewrite bind_app, bind_cons in Hnd. apply NoDup_app in Hnd as (_ & H1 & Hnd). apply NoDup_app in Hnd as (H2 & H3 & _).
  destruct it as [d o]. simpl in Hn. subst o. unfold owned in H1, H2, H3 at 1. simpl in H1, H2, H3.
  assert (Hin : alloc_data n ∈ l1 ≫= owned \/ alloc_data n ∈ l2 ≫= owned \/ it' = (d, Some n)).
  { rewrite elem_of_app, elem_of_cons in Hit'. pose proof (node_owned it') as Ho. rewrite <- E in Ho.
    destruct Hit' as [Hi|[Hi|Hi]]; [left|right; right; done|right; left]; apply list_elem_of_bind; eauto. }
  destruct Hin as [Hi|[Hi|Hi]].
  - apply (H1 _ Hi). set_solver.
  - apply (H3 (alloc_data n)); [set_solver|done].
  - subst it'. unfold node_of, alloc_data in E. simpl in E. lia.
Qed.

Lemma fresh_node it l : NoDup (owned it ++ (l ≫= owned)) -> node_of it ∉ node_of <$> l.
Proof.
  intros (_ & H & _)%NoDup_app Hin. apply (H (node_of it)); [apply node_owned|by apply node_in_owned].
Qed.

Lemma fresh_insert i it l : NoDup (owned it ++ (l ≫= owned)) -> NoDup ((take i l ++ it :: drop i l) ≫= owned).
Proof.
  rewrite <- (take_drop i l) at 1. rewrite !bind_app, bind_cons. by rewrite Permutation_app_swap_app.
Qed.

Lemma store_ok q m l i it : items_ok q m l -> fresh it l -> item_at m it -> (i <= length l)%nat ->
  let r := insert q.(data_q) (default NULL (last (take i (node_of <$> l)))) (node_of it) m in
  items_ok (set_data_q r.1 q) r.2 (take i l ++ it :: drop i l).
Proof.
  intros [H1 H2 H3] [Ha Hf] Hit Hi. pose proof (fresh_node _ _ Hf) as Hn.
  pose proof (insert_at_ok m _ _ i (node_of it) H1 Ha Hn ltac:(by rewrite length_fmap)) as HI. cbv zeta in HI.
  destruct HI as (I1 & I2 & I3). pose proof (fresh_insert i it l Hf) as Hnd.
  assert (Hal : Forall aligned (node_of <$> (take i l ++ it :: drop i l))).
  { apply linked_nodes in I1. by rewrite fmap_app, fmap_cons, fmap_take, fmap_drop. }
  split; [by rewrite fmap_app, fmap_cons, fmap_take, fmap_drop| |done].
  eapply (items_relinked m _ _ (node_of <$> (take i l ++ it :: drop i l))); try done.
  - rewrite <- (take_drop i l) in H2. apply Forall_app in H2 as [H4 H5]. apply Forall_app. split; [done|]. by constructor.
  - intros x Hx. apply I3.
    + intros ->. apply Hx. apply list_elem_of_fmap. exists it. split; [done|set_solver].
    + intros Hx'. apply Hx. rewrite fmap_app, fmap_cons. rewrite <- (take_drop i l), fmap_app in Hx'. set_solver.
  - intros it' Hit' n. by apply data_not_node.
Qed.

(** Initialising the words of a new item. *)
Definition written (it : item) (m : words) : words :=
  match it.2 with
  | None => sys_sfnode_init it.1 0 m
  | Some n => sys_sfnode_init n 1 (upd (alloc_data n) it.1 m)
  end.

Lemma written_ne it m w : w ∉ owned it -> written it m w = m w.
Proof.
  destruct it as [d [n|]]; unfold written, owned, sys_sfnode_init; simpl; intros Hw; rewrite !upd_ne by set_solver; done.
Qed.

Lemma written_ok q m l it : items_ok q m l -> NoDup (owned it ++ (l ≫= owned)) ->
  items_ok q (written it m) l /\ item_at (written it m) it.
Proof.
  intros Hq (H1 & H2 & _)%NoDup_app. split.
  - eapply items_ext; [done|]. intros w Hw. apply written_ne. intros Ho. by apply (H2 w Ho).
  - destruct it as [d [n|]]; unfold item_at, written, sys_sfnode_init, sys_sfnode_flags_get; simpl.
    + rewrite upd_eq, upd_ne, upd_eq by (unfold alloc_data; lia). by vm_compute.
    + by rewrite upd_eq.
Qed.

Lemma insert_new_ok q m l i it : items_ok q m l -> fresh it l -> (i <= length l)%nat ->
  let r := insert q.(data_q) (default NULL (last (take i (node_of <$> l)))) (node_of it) (written it m) in
  items_ok (set_data_q r.1 q) r.2 (take i l ++ it :: drop i l).
Proof.
  intros Hq Hf Hi. destruct (written_ok q m l it Hq (proj2 Hf)) as [H1 H2]. by apply store_ok.
Qed.

Lemma node_peek_ok m it b : item_at m it -> aligned (node_of it) ->
  z_queue_node_peek m (node_of it) b = (it.1, if b then it.2 else None).
Proof.
  intros Hit [Hn _]. unfold z_queue_node_peek. rewrite (proj2 (Z.eqb_neq _ _) Hn). cbn [negb andb].
  destruct it as [d [n|]]; unfold item_at, node_of in *; simpl in *.
  - destruct Hit as [Hf <-]. by rewrite (proj2 (Z.eqb_neq _ _) Hf).
  - rewrite Hit. by destruct b.
Qed.

Lemma item_aligned q m l it : items_ok q m l -> it ∈ l -> aligned (node_of it).
Proof.
  intros [H _ _] Hit. apply linked_nodes in H. rewrite Forall_forall in H. apply H, list_elem_of_fmap. eauto.
Qed.

Lemma peek_item q m l it b : items_ok q m l -> it ∈ l -> z_queue_node_peek m (node_of it) b = (it.1, if b then it.2 else None).
Proof.
  intros Hq Hit. pose proof (io_at _ _ _ Hq) as Ha. rewrite Forall_forall in Ha. apply node_peek_ok; [by apply Ha|by eapply item_aligned].
Qed.

Lemma queue_empty_ok q m l : items_ok q m l -> is_empty q.(data_q) = bool_decide (l = []).
Proof. intros [H _ _]. rewrite (is_empty_ok _ _ _ H). apply bool_decide_ext. by destruct l. Qed.

Lemma take_item_ok q m it l : items_ok q m (it :: l) ->
  (get_not_empty q.(data_q) m).1 = node_of it /\ items_ok (set_data_q (get_not_empty q.(data_q) m).2 q) m l.
Proof.
  intros Hq. pose proof Hq as [H1 H2 H3]. rewrite fmap_cons in H1. pose proof (slist_get_ok _ _ _ _ H1) as HG.
  unfold get in HG. rewrite (queue_empty_ok _ _ _ Hq) in HG. destruct HG as [G1 G2]. split; [done|].
  split; [done|by apply Forall_cons in H2 as [_ H2]|]. rewrite bind_cons in H3. by apply NoDup_app in H3 as (_ & _ & H3).
Qed.

(** ** Proofs: searching and removing *)

Lemma remove_loop_ok m h l prev d fuel : chain m h (node_of <$> l) NULL -> Forall (item_at m) l -> (length l < fuel)%nat ->
  remove_loop fuel m prev h d =
    Some (match list_find (fun it : item => it.1 = d) l with
          | Some (i, it) => Some (default NULL (last (prev :: take i (node_of <$> l))), node_of it)
          | None => None
          end).
Proof.
  revert h prev fuel. induction l as [|it l IH]; intros h prev [|fuel] Hc Ha Hf; simpl in Hf; try lia.
  { simpl in Hc. by subst h. }
  rewrite fmap_cons in *. destruct Hc as (-> & Hx & Hc). apply Forall_cons in Ha as [Hit Ha]. cbn [remove_loop].
  pose proof (node_not_null _ Hx) as Hn. rewrite (proj2 (Z.eqb_neq _ _) Hn), node_peek_ok by done. cbn [negb fst].
  cbn [list_find]. destruct (Z.eqb_spec it.1 d) as [E|E]; [by rewrite decide_True|]. rewrite decide_False by done.
  unfold peek_next. rewrite (proj2 (Z.eqb_neq _ _) Hn). cbn [negb]. rewrite (IH _ (node_of it)) by (done || lia).
  by destruct (list_find _ l) as [[i z]|].
Qed.

Lemma remove_item_find d l : remove_item d l =
  match list_find (fun it : item => it.1 = d) l with Some (i, it) => Some (it, take i l ++ drop (S i) l) | None => None end.
Proof.
  induction l as [|it l IH]; [done|]. simpl. destruct (Z.eqb_spec it.1 d) as [E|E]; [by rewrite decide_True|].
  rewrite decide_False by done. rewrite IH. by destruct (list_find _ l) as [[i z]|].
Qed.

Lemma unlink_ok q m l1 it l2 : items_ok q m (l1 ++ it :: l2) ->
  let r := remove q.(data_q) (default NULL (last (node_of <$> l1))) (node_of it) m in
  items_ok (set_data_q r.1 q) r.2 (l1 ++ l2) /\ z_queue_node_peek r.2 (node_of it) true = it.
Proof.
  intros Hq. pose proof Hq as [H1 H2 H3]. rewrite fmap_app, fmap_cons in H1.
  destruct (slist_remove_ok _ _ _ _ _ H1) as (R1 & _ & R2). pose proof (remove_flags _ _ _ _ _ H1) as R3.
  assert (Hat : Forall (item_at (remove q.(data_q) (default NULL (last (node_of <$> l1))) (node_of it) m).2) (l1 ++ it :: l2)).
  { eapply (items_relinked m _ _ (node_of <$> (l1 ++ it :: l2))); try done.
    - apply linked_nodes in H1. by rewrite fmap_app, fmap_cons.
    - intros x Hx. apply R2. rewrite fmap_app, fmap_cons in Hx. set_solver.
    - intros it' Hit' n. by apply data_not_node. }
  cbv zeta. split.
  - apply Forall_app in Hat as [A1 A2]. apply Forall_cons in A2 as [_ A2]. split; [by rewrite fmap_app|by apply Forall_app|].
    rewrite bind_app, bind_cons in *. apply NoDup_app in H3 as (N1 & N2 & N3). apply NoDup_app in N3 as (_ & _ & N3).
    apply NoDup_app. split; [done|]. split; [|done]. intros x Hx Hx'. apply (N2 x Hx). set_solver.
  - rewrite Forall_forall in Hat. rewrite node_peek_ok; [by destruct it|apply Hat; set_solver|]. eapply item_aligned; [exact Hq|set_solver].
Qed.

(** ** Proofs: splicing *)

Lemma slist_flagged m h ds : slist_of m h ds ->
  chain m h ds NULL /\ Forall (fun d => sys_sfnode_flags_get m d = 0) ds.
Proof.
  intros [Hc Ha]. revert h Hc. induction Ha as [|d ds Hd Ha IH]; intros h; [done|]. intros (-> & _ & Hc).
  assert (Hn : aligned (m d) \/ m d = NULL).
  { destruct ds as [|y ds]; [by right|left]. destruct Hc as (E & _). cbn in E. unfold z_snode_next_peek in E. rewrite E. by apply Forall_cons in Ha as [Ha _]. }
  destruct (aligned_low _ Hn) as [L1 L2]. destruct (IH _ Hc) as [I1 I2]. split; [|by constructor].
  split; [done|]. split; [done|]. cbn. unfold z_sfnode_next_peek. unfold SYS_SFLIST_FLAGS_MASK. rewrite L2. exact I1.
Qed.

Lemma slist_drop m h ds n : slist_of m h ds -> slist_of m (default NULL (list.head (drop n ds))) (drop n ds).
Proof.
  intros [Hc Ha]. split; [|by apply Forall_drop]. rewrite <- (take_drop n ds) in Hc. apply schain_app in Hc as (h' & _ & Hc).
  by rewrite <- (chain_head _ _ _ Hc).
Qed.

Lemma last_drop_default (ds : list Z) n : drop n ds <> [] -> last (drop n ds) = last ds.
Proof.
  intros Hne. rewrite <- (take_drop n ds) at 2. rewrite last_app. destruct (last (drop n ds)) eqn:E; [done|]. by apply last_None in E.
Qed.

Lemma plain_nodes (ds : list Z) : node_of <$> (plain <$> ds) = ds.
Proof. induction ds as [|d ds IH]; [done|]. rewrite !fmap_cons, IH. done. Qed.

Lemma own_nodes l : NoDup (l ≫= owned) -> NoDup (node_of <$> l).
Proof.
  induction l as [|it l IH]; [constructor|]. rewrite fmap_cons, bind_cons. intros H. apply NoDup_cons.
  split; [by apply fresh_node|]. apply IH. by apply NoDup_app in H as (_ & _ & H).
Qed.

Lemma splice_ok q m l h ds : items_ok q m l -> slist_of m h ds -> ds <> [] -> NoDup ((l ++ (plain <$> ds)) ≫= owned) ->
  let r := append_list q.(data_q) h (default NULL (last ds)) m in
  items_ok (set_data_q r.1 q) r.2 (l ++ (plain <$> ds)).
Proof.
  intros [H1 H2 H3] Hs Hne Hnd. destruct (slist_flagged _ _ _ Hs) as [Hc Hfl]. pose proof (own_nodes _ Hnd) as Hnn.
  rewrite fmap_app, plain_nodes in Hnn. pose proof (append_list_ok m _ _ h ds H1 Hc Hne Hnn) as HA. cbv zeta in HA. destruct HA as [A1 A2].
  pose proof (append_list_flags m _ _ h (default NULL (last ds)) H1) as A3. cbv zeta.
  assert (A4 : flags_same m (append_list q.(data_q) h (default NULL (last ds)) m).2).
  { apply A3. destruct ds; [done|]. destruct Hc as (-> & ? & _). by left. }
  split; [by rewrite fmap_app, plain_nodes| |done].
  eapply (items_relinked m _ _ (node_of <$> l)); try done.
  - apply Forall_app. split; [done|]. apply Forall_fmap. exact Hfl.
  - rewrite fmap_app, plain_nodes. by apply linked_nodes in A1.
  - intros it Hit n Hn Hin. eapply data_not_node; [exact Hnd|exact Hit|exact Hn|]. rewrite fmap_app. set_solver.
Qed.

Lemma append_loop_ok w ds m h b k fuel : slist_of m h ds -> (length ds < fuel)%nat ->
  exists b', append_loop fuel w h b m k = Some (default NULL (list.head (wake_each w ds k).1), b', (wake_each w ds k).2) /\
    (b' = true \/ b' = b /\ wake_each w ds k = (ds, k)).
Proof.
  revert h b k fuel. induction ds as [|d ds IH]; intros h b k [|fuel] [Hc Ha] Hf; simpl in Hf; try lia.
  { simpl in Hc. subst h. exists b. simpl. tauto. }
  destruct Hc as (-> & Hn & Hc). apply Forall_cons in Ha as [Hd Ha]. cbn [append_loop wake_each].
  rewrite (proj2 (Z.eqb_neq d NULL)) by apply Hd. cbn [negb]. destruct (z_sched_wake w 0 d k) as [[|] k1] eqn:E.
  - destruct (IH (m d) true k1 fuel) as (b' & -> & Hb); [by split|lia|]. exists b'. split; [done|]. left. destruct Hb as [->|[-> _]]; done.
  - exists b. split; [done|]. right. split; [done|]. f_equal. unfold z_sched_wake in E. unfold z_unpend_first_thread_locked in E. revert E. destruct (_priq_wait_best w k); intros E; by simplify_eq.
Qed.

(** The searches end, and the queries answer. *)
Lemma queue_queries x l : queue_ok x l ->
  (forall data, k_queue_remove (S (length l)) x.1.1 data x.1.2 <> None) /\
  (forall data, k_queue_unique_append (S (length l)) x.1.1 data x.1.2 x.2 <> None) /\
  k_queue_is_empty x.1.1 = (if decide (l = []) then 1 else 0) /\
  k_queue_peek_head x.1.1 x.1.2 = default NULL (fst <$> list.head l) /\
  k_queue_peek_tail x.1.1 x.1.2 = default NULL (fst <$> last l).
Proof.
  destruct x as [[q m] k]. intros [_ Hi _]. cbn [fst snd] in *. pose proof Hi as [Hl Ha _]. pose proof (lk_chain _ _ _ Hl) as Hc. split_and!.
  - intros d. unfold k_queue_remove. rewrite (remove_loop_ok _ _ l) by (done || lia). destruct (list_find _ l) as [[i it]|]; [|done].
    by destruct (remove _ _ _ _).
  - intros d. unfold k_queue_unique_append. rewrite (find_loop_ok _ _ (node_of <$> l)) by (done || rewrite length_fmap; lia).
    destruct (list_find _ _) as [[i it]|]; [done|]. by destruct (queue_insert _ _ _ _ _ _ _ _) as [[[] ]].
  - unfold k_queue_is_empty. rewrite (queue_empty_ok _ _ _ Hi). by case_decide; [rewrite bool_decide_true|rewrite bool_decide_false].
  - unfold k_queue_peek_head, peek_head. rewrite (chain_head _ _ _ Hc). destruct l as [|it l]; [done|].
    change (default NULL (list.head (node_of <$> it :: l))) with (node_of it). by rewrite (peek_item _ _ _ it false Hi) by set_solver.
  - unfold k_queue_peek_tail, peek_tail. rewrite (lk_tail _ _ _ Hl), fmap_last. destruct (last l) as [it|] eqn:E; [|done].
    change (default NULL (node_of <$> Some it)) with (node_of it). rewrite (peek_item _ _ _ it false Hi); [done|].
    rewrite last_lookup in E. by eapply list_elem_of_lookup_2.
Qed.

Lemma append_list_ends fuel q h t ds m k : slist_of m h ds -> (length ds < fuel)%nat ->
  k_queue_append_list fuel q h t m k <> None.
Proof.
  intros Hs Hf. unfold k_queue_append_list. destruct (_ || _); [done|].
  destruct (append_loop_ok q.(queue_wait_q) ds m h false k fuel Hs Hf) as (b & -> & _). destruct (negb _); [by destruct (append_list _ _ _ _)|done].
Qed.

(** ** Proofs: the steps *)

Context (Hdl : CONFIG_SCHED_DEADLINE = false) (Hmi : CONFIG_NUM_METAIRQ_PRIORITIES <= 0).

Lemma waiters_empty x l t r : queue_ok x l -> x.2.(waitqs) x.1.1.(queue_wait_q) = t :: r -> l = [].
Proof. intros [_ _ H] E. destruct l; [done|]. rewrite H in E by done. done. Qed.

(** Where [queue_insert] puts a new item. *)
Lemma place_ok q m l prev it (is_append : bool) : items_ok q m l ->
  allowed (if is_append then Appended it else Inserted prev it) l ->
  exists i, (i <= length l)%nat /\ fresh it l /\
    (if is_append then peek_tail q.(data_q) else prev) = default NULL (last (take i (node_of <$> l))) /\
    seq (if is_append then Appended it else Inserted prev it) l = Some (take i l ++ it :: drop i l).
Proof.
  intros [H1 _ _]. destruct is_append; simpl.
  { intros Hf. exists (length l). rewrite !take_ge, drop_ge by (rewrite ?length_fmap; lia). split; [lia|]. split; [done|].
    split; [apply (lk_tail _ _ _ H1)|done]. }
  intros [Hf Hp]. destruct (Z.eqb_spec prev NULL) as [->|Hne].
  { exists 0%nat. split; [lia|]. by split. }
  destruct Hp as [|Hp]; [done|]. unfold insert_after. destruct (list_find (fun x => prev = node_of x) l) as [[i it']|] eqn:E.
  - apply list_find_Some in E as (E & -> & _). exists (S i). split; [by apply lookup_lt_Some in E|]. split; [done|].
    split; [|done]. rewrite <- fmap_take, fmap_last, (take_S_r _ _ it') by done. by rewrite last_snoc.
  - apply list_find_None in E. apply list_elem_of_fmap in Hp as (it' & -> & Hin). rewrite Forall_forall in E. by destruct (E it' Hin).
Qed.

Lemma insert_stepped malloc prev data alloc is_append q m k ret q' m' k' l : queue_ok (q, m, k) l ->
  queue_insert malloc q prev data alloc is_append m k = (ret, q', m', k') ->
  allowed (insert_event malloc prev data alloc is_append (q, m, k)) l ->
  queue_stepped (insert_event malloc prev data alloc is_append (q, m, k)) l (q, m, k) (q', m', k').
Proof.
  intros Hq E. pose proof Hq as [Hs Hi Hid]. cbn [fst snd] in *. unfold insert_event. rewrite E. unfold queue_insert in E. cbv zeta in E. cbn [fst].
  destruct (k.(waitqs) q.(queue_wait_q)) as [|t r] eqn:Hw.
  - rewrite (wake_nobody Hdl Hmi) in E by done. set (it := (data, if alloc then malloc else None)).
    destruct (alloc && bool_decide (malloc = None)) eqn:Ea.
    { apply andb_prop in Ea as [-> ->%bool_decide_eq_true]. simplify_eq. intros _. split; try done. exists l. by split. }
    assert (E2 : (0, set_data_q (insert q.(data_q) (if is_append then peek_tail q.(data_q) else prev) (node_of it) (written it m)).1 q,
      (insert q.(data_q) (if is_append then peek_tail q.(data_q) else prev) (node_of it) (written it m)).2, k) = (ret, q', m', k')).
    { rewrite <- E. subst it. destruct alloc; [destruct malloc as [n|]; [|done]|]; unfold written, node_of; simpl; by destruct (insert _ _ _ _). }
    clear E. simplify_eq. cbn [Z.eqb]. intros Ha. destruct (place_ok q m l prev it is_append Hi Ha) as (i & Hle & Hf & -> & Hsq).
    split; [|by destruct is_append..]. eexists. split; [exact Hsq|]. split; [done|by apply insert_new_ok|done].
  - destruct (wake_handed Hdl Hmi k _ t r 0 data Hs Hw) as (k1 & E1 & Hh). rewrite E1 in E. simplify_eq. intros _.
    pose proof (waiters_empty _ _ _ _ Hq Hw) as ->. split; [|intros ?? [= <- <-]|done|done].
    + exists []. split; [done|]. split; [apply Hh|done|done].
    + unfold k_queue_get_resume. simpl. by rewrite (hd_retval Hh), (hd_data Hh).
Qed.

Lemma queue_get_stepped timeout q m k o freed q' k' l : queue_ok (q, m, k) l -> k.(current) <> k.(idle_thread) ->
  k.(in_isr) = false \/ timeout = K_NO_WAIT -> k_queue_get q timeout m k = (o, freed, q', k') ->
  queue_stepped (get_event timeout (q, m, k)) l (q, m, k) (q', m, k').
Proof.
  intros [Hs Hi Hid] Hc Hisr E. cbn [fst snd] in *. unfold get_event. rewrite E. unfold k_queue_get in E. cbn [fst].
  rewrite (queue_empty_ok _ _ _ Hi) in *. destruct l as [|it l].
  - rewrite bool_decide_true in E |- * by done. cbn [negb] in E. destruct (Z.eqb_spec timeout K_NO_WAIT).
    + simplify_eq. split; try done. exists []. by split.
    + destruct (pend_waits Hdl Hmi k q.(queue_wait_q) timeout Hs) as (k1 & E1 & [W _]); [tauto|done|].
      rewrite E1 in E. simplify_eq. split; try done. exists []. by split.
  - rewrite bool_decide_false in E |- * by done. cbn [negb] in E. destruct (take_item_ok _ _ _ _ Hi) as [T1 T2].
    destruct (get_not_empty q.(data_q) m) as [n l']. simpl in T1, T2. subst n.
    rewrite (peek_item _ _ _ it true Hi) in E by set_solver. simplify_eq. split; try done. exists l. cbn [seq].
    rewrite decide_True by (by destruct it). split; [done|]. split; [done|done|]. intros _. by apply Hid.
Qed.

Lemma woken_resume d th : k_queue_get_resume (woken 0 d th) = d.
Proof. unfold k_queue_get_resume, woken. destruct (let_through_fields (values 0 d) th) as (E1 & E2 & _). by rewrite E1, E2. Qed.

(** More fuel changes nothing. *)
Lemma append_loop_more fuel fuel' w h b m k r : append_loop fuel w h b m k = Some r -> (fuel <= fuel')%nat ->
  append_loop fuel' w h b m k = Some r.
Proof.
  revert fuel' h b k. induction fuel as [|fuel IH]; intros [|fuel'] h b k E Hle; try done; [lia|]. cbn [append_loop] in *.
  destruct (negb _); [|done]. destruct (z_sched_wake w 0 h k) as [[|] k1]; [|done]. apply IH; [done|lia].
Qed.

Lemma append_loop_handed fuel w ds m h k h1 b k1 : sys_ok k -> slist_of m h ds -> ds <> [] ->
  append_loop fuel w h false m k = Some (h1, b, k1) ->
  h1 = default NULL (list.head (drop (Nat.min (length ds) (length (k.(waitqs) w))) ds)) /\
  handed_each w ds k (if b then reschedule k1 else k1).
Proof.
  intros Hs Hsl Hne EL. apply (append_loop_more _ (S (Nat.max (length ds) fuel))) in EL; [|lia].
  destruct (append_loop_ok w ds m h false k (S (Nat.max (length ds) fuel)) Hsl ltac:(lia)) as (b' & EL' & Hb).
  rewrite EL in EL'. destruct (wake_each_ok Hdl Hmi k w ds Hs) as (k2 & EW & HE). rewrite EW in EL', Hb. simpl in EL'.
  simplify_eq. split; [done|]. destruct Hb as [->|[-> [=H1 ->]]]; [done|].
  assert (Hn : Nat.min (length ds) (length (k.(waitqs) w)) = 0%nat).
  { apply (f_equal length) in H1. rewrite length_drop in H1. destruct ds; [done|]. simpl in *. lia. }
  split; [done|by rewrite Hn|]. intros i t d Ht. apply lookup_lt_Some in Ht. destruct ds; [done|]. cbn [length] in Hn. lia.
Qed.

Lemma append_list_stepped fuel h ds q m k ret q' m' k' l : queue_ok (q, m, k) l -> slist_of m h ds ->
  k_queue_append_list fuel q h (default NULL (last ds)) m k = Some (ret, q', m', k') ->
  allowed (splice_event ret ds (q, m, k)) l -> queue_stepped (splice_event ret ds (q, m, k)) l (q, m, k) (q', m', k').
Proof.
  intros [Hs Hi Hid] Hsl E. cbn [fst snd] in *. unfold k_queue_append_list in E. unfold splice_event. cbn [fst snd].
  pose proof (proj1 (slist_flagged _ _ _ Hsl)) as Hch. pose proof (chain_head _ _ _ Hch) as Hh. destruct (decide (ds = [])) as [->|Hne].
  { simpl in Hh. subst h. simpl in E. simplify_eq. intros _. split; try done. by exists l. }
  pose proof (tail_null _ (chain_nodes _ _ _ _ Hch)) as Htn. pose proof (head_null _ _ _ Hch) as Hhn.
  rewrite (proj2 (Z.eqb_neq h NULL)), (proj2 (Z.eqb_neq (default NULL (last ds)) NULL)) in E by tauto. cbn [orb] in E.
  destruct (append_loop fuel _ _ _ _ _) as [[[h1 b] k1]|] eqn:EL; [|done].
  destruct (append_loop_handed _ _ _ _ _ _ _ _ _ Hs Hsl Hne EL) as [-> HE]. clear EL.
  set (n := Nat.min (length ds) (length (k.(waitqs) q.(queue_wait_q)))) in *. set (k2 := if b then reschedule k1 else k1) in *.
  pose proof (slist_drop _ _ _ n Hsl) as Hsd. pose proof (head_null _ _ _ (proj1 (slist_flagged _ _ _ Hsd))) as Hdn.
  assert (Hcase : n = 0%nat \/ l = []) by (destruct l; [by right|left]; subst n; rewrite Hid by done; simpl; lia).
  assert (Hwq : l ++ (plain <$> drop n ds) <> [] -> waitqs k2 q.(queue_wait_q) = []).
  { intros Hl. rewrite (he_queue _ _ _ _ HE). fold n. destruct l as [|it l]; [|by rewrite Hid, drop_nil by done].
    apply drop_ge. destruct (drop n ds) eqn:Ed; [done|]. apply (f_equal length) in Ed. rewrite length_drop in Ed. simpl in Ed. lia. }
  assert (HK : ret = 0 /\ k' = k2 /\ queue_wait_q q' = queue_wait_q q /\
     (NoDup ((l ++ (plain <$> drop n ds)) ≫= owned) -> items_ok q' m' (l ++ (plain <$> drop n ds)))).
  { destruct (Z.eqb_spec (default NULL (list.head (drop n ds))) NULL) as [Hz|Hz]; simpl in E.
    - simplify_eq. split_and!; try done. intros _. rewrite (proj1 Hdn Hz). simpl. rewrite app_nil_r. by destruct q.
    - assert (Hdne : drop n ds <> []) by tauto. pose proof (splice_ok q m l _ _ Hi Hsd Hdne) as HS. cbv zeta in HS.
      rewrite last_drop_default in HS by done. destruct (append_list _ _ _ _) as [l' m1]. simplify_eq. split_and!; done. }
  destruct HK as (-> & -> & Hqw & HK). cbn [Z.eqb allowed]. intros Ha. split; try done.
  - eexists. cbn [seq]. rewrite decide_True by done. split; [done|].
    split; cbn [fst snd]; [apply HE|by apply HK|]. rewrite Hqw. exact Hwq.
  - intros ds' n' i t d [= <- _] Ht Hd. cbn [fst snd] in *. rewrite (he_woken _ _ _ _ HE i t d Ht Hd). apply woken_resume.
Qed.

Lemma merge_stepped fuel list list' ds q m k ret q' m' k' l : queue_ok (q, m, k) l -> slist_of m list.(head) ds ->
  list.(tail) = default NULL (last ds) -> k_queue_merge_slist fuel q list m k = Some (ret, q', list', m', k') ->
  allowed (splice_event ret ds (q, m, k)) l -> queue_stepped (splice_event ret ds (q, m, k)) l (q, m, k) (q', m', k').
Proof.
  intros Hq Hsl Ht E. unfold k_queue_merge_slist in E. destruct (is_empty list).
  - simplify_eq. intros _. split; try done. by exists l.
  - rewrite Ht in E. destruct (k_queue_append_list _ _ _ _ _ _) as [[[[ret1 q1] m1] k1]|] eqn:EA; [|done]. simplify_eq.
    by eapply append_list_stepped.
Qed.

Lemma remove_loop_more fuel fuel' m prev n d r : remove_loop fuel m prev n d = Some r -> (fuel <= fuel')%nat ->
  remove_loop fuel' m prev n d = Some r.
Proof.
  revert fuel' prev n. induction fuel as [|fuel IH]; intros [|fuel'] prev n E Hle; try done; [lia|]. cbn [remove_loop] in *.
  destruct (negb _); [|done]. destruct (_ =? d); [done|]. apply IH; [done|lia].
Qed.

Lemma remove_stepped fuel data q m k found freed q' m' l : queue_ok (q, m, k) l ->
  k_queue_remove fuel q data m = Some (found, freed, q', m') ->
  queue_stepped (if found then Removed (data, freed) else Absent data) l (q, m, k) (q', m', k).
Proof.
  intros [Hs Hi Hid] E. cbn [fst snd] in *. unfold k_queue_remove in E. pose proof Hi as [[Hc _ _] Ha _].
  destruct (remove_loop fuel _ _ _ _) as [r|] eqn:EL; [|done].
  apply (remove_loop_more _ (S (Nat.max (length l) fuel))) in EL; [|lia]. rewrite (remove_loop_ok _ _ l) in EL by (done || lia).
  destruct (list_find (fun it : item => it.1 = data) l) as [[i it]|] eqn:EF.
  - pose proof EF as (Hli & Hd & _)%list_find_Some. simplify_eq. change (peek_head (data_q q)) with (head (data_q q)) in E.
    pose proof (take_drop_middle _ _ _ Hli) as Hl. rewrite <- Hl in Hi. destruct (unlink_ok _ _ _ _ _ Hi) as [U1 U2].
    rewrite fmap_take in U1, U2. rewrite default_last in E. destruct (remove _ _ _ _) as [l' m1]. simpl in U1, U2. rewrite U2 in E. simplify_eq.
    split; try done. exists (take i l ++ drop (S i) l). cbn [seq fst]. rewrite remove_item_find, EF. simpl.
    rewrite decide_True by (by destruct it). split; [done|]. split; [done|done|]. intros Hne. apply Hid. intros ->. done.
  - simplify_eq. split; try done. exists l. cbn [seq]. rewrite decide_False; [done|]. apply list_find_None in EF. rewrite Forall_forall in EF.
    intros (it & E2 & Hin)%list_elem_of_fmap. by apply (EF it Hin).
Qed.

Lemma unique_stepped fuel data q m k added q' m' k' l : queue_ok (q, m, k) l ->
  k_queue_unique_append fuel q data m k = Some (added, q', m', k') ->
  let e := if added then insert_event None NULL data false true (q, m, k) else Present data in
  allowed e l -> queue_stepped e l (q, m, k) (q', m', k').
Proof.
  intros Hq E. pose proof Hq as [Hs Hi Hid]. cbn [fst snd] in *. unfold k_queue_unique_append in E. pose proof Hi as [[Hc _ _] _ _].
  destruct (find_loop fuel _ _ _ _) as [[b p]|] eqn:EL; [|done]. apply (find_loop_more _ (S (Nat.max (length l) fuel))) in EL; [|lia].
  rewrite (find_loop_ok _ _ (node_of <$> l)) in EL by (done || rewrite length_fmap; lia).
  destruct (list_find (data =.) (node_of <$> l)) as [[i x]|] eqn:EF; simplify_eq.
  - apply list_find_Some in EF as (EF & <- & _). intros _. split; try done. exists l. cbn [seq].
    rewrite decide_True by (by eapply list_elem_of_lookup_2). by split.
  - destruct (queue_insert _ _ _ _ _ _ _ _) as [[[ret q1] m1] k1] eqn:EI. simplify_eq. by eapply insert_stepped.
Qed.

Lemma cancel_stepped q m k l : queue_ok (q, m, k) l -> queue_stepped Cancelled l (q, m, k) (q, m, k_queue_cancel_wait q k).
Proof.
  intros Hq. pose proof Hq as [Hs Hi Hid]. cbn [fst snd] in *. unfold k_queue_cancel_wait.
  destruct (k.(waitqs) q.(queue_wait_q)) as [|t r] eqn:Hw.
  - rewrite (wake_nobody Hdl Hmi) by done. split; try done; cbn [fst snd]; [by exists l|]. rewrite Hw. done.
  - destruct (wake_handed Hdl Hmi k _ t r 0 NULL Hs Hw) as (k1 & -> & Hh). pose proof (waiters_empty _ _ _ _ Hq Hw) as ->.
    split; try done; cbn [fst snd].
    + exists []. split; [done|]. split; [apply Hh|done|done].
    + rewrite Hw. intros ?? _ [= <- <-]. unfold k_queue_get_resume. by rewrite (hd_retval Hh), (hd_data Hh).
Qed.

Lemma queue_step_ok e x y l : queue_step e x y -> queue_ok x l -> allowed e l -> queue_stepped e l x y.
Proof.
  intros Hst Hok. destruct Hst; intros Ha.
  - by eapply insert_stepped.
  - subst. by eapply append_list_stepped.
  - by eapply merge_stepped.
  - by eapply queue_get_stepped.
  - by eapply remove_stepped.
  - by eapply unique_stepped.
  - by eapply cancel_stepped.
  - destruct Hok as [Hs Hi Hid]. cbn [fst snd] in *. split; try done. exists l. split; [done|]. split; cbn [fst snd].
    + by eapply env_sys.
    + by eapply items_ext.
    + intros Hl. eapply env_empty; eauto.
Qed.

Lemma queue_run_ok es x y : queue_run es x y -> forall l, queue_ok x l -> allowed_run es l ->
  exists l', seq_run es l = Some l' /\ queue_ok y l'.
Proof.
  induction 1 as [x|e es x y z Hs _ IH]; intros l Hok Ha; [by exists l|]. destruct Ha as [Ha Har].
  destruct (queue_step_ok _ _ _ _ Hs Hok Ha) as [(l1 & E1 & Hok1) _ _ _]. destruct (IH l1 Hok1 (Har l1 E1)) as (l' & E' & Hok').
  exists l'. split; [|done]. simpl. by rewrite E1.
Qed.

(** ** Proofs: first in, first out *)

(** What the operations on a FIFO put in and hand out. *)
Definition put_in (e : queue_event) : list Z :=
  match e with Appended it => [it.1] | Handed _ d => [d] | Spliced ds _ => ds | _ => [] end.
Definition handed_out (e : queue_event) : list Z :=
  match e with Handed _ d => [d] | Spliced ds n => take n ds | Took it => [it.1] | _ => [] end.
(** The operations that take or add an item elsewhere. *)
Definition fifo_event (e : queue_event) : bool := match e with Inserted _ _ | Removed _ => false | _ => true end.

Lemma fifo_step e l l' : fifo_event e = true -> seq e l = Some l' -> l.*1 ++ put_in e = handed_out e ++ l'.*1.
Proof.
  destruct e as [prev it|it|t d| |ds n| |it| |t|it|d|d| |m m']; simpl; intros He E; simplify_option_eq; rewrite ?app_nil_r; try done.
  - by rewrite fmap_app.
  - by destruct l; simplify_eq.
  - rewrite fmap_app, <- list_fmap_compose. replace ((fst ∘ plain) <$> drop n ds) with (drop n ds) by (symmetry; apply list_fmap_id).
    destruct H as [->| ->]; [done|]. simpl. by rewrite take_drop.
  - destruct l as [|x l]; simplify_option_eq. done.
  - by destruct l; simplify_eq.
  - by destruct l; simplify_eq.
Qed.

Lemma fifo_run es l l' : forallb fifo_event es = true -> seq_run es l = Some l' ->
  l.*1 ++ (es ≫= put_in) = (es ≫= handed_out) ++ l'.*1.
Proof.
  revert l. induction es as [|e es IH]; intros l He E; simpl in E; [simplify_eq; simpl; by rewrite app_nil_r|].
  simpl in He. apply andb_prop in He as [He Hes]. destruct (seq e l) as [l1|] eqn:E1; [|done]. simpl in E.
  rewrite !bind_cons, <- !app_assoc, app_assoc, (fifo_step _ _ _ He E1), <- app_assoc. f_equal. by apply IH.
Qed.

End queue.

(** C23. Queues are sequences of items.  However insertions, removals, spliced lists and
    gets by threads and interrupts interleave with the rest of the system, as long as callers pass free
    items and leave the words of queued ones alone, the list stays linked, nobody waits while there is an item, and
    each operation does to the sequence what its name says: an insertion puts the item
    where it should or hands it to the first waiter, a spliced list serves the waiters
    in order and appends the rest, a get takes the first item, and a wrapper is freed exactly when its item
    leaves.  The searches end. *)
Theorem queue_refines_sequence `{Cfg : Config} {RQ : RunQueue} {TB : TimeoutBackend}
    (es : list queue_event) (x y : state) (l : list item) :
  CONFIG_SCHED_DEADLINE = false -> CONFIG_NUM_METAIRQ_PRIORITIES <= 0 -> queue_ok x l -> allowed_run es l ->
  queue_run es x y ->
  exists l', seq_run es l = Some l' /\ queue_ok y l' /\
  (forall e z, queue_step e y z -> allowed e l' -> queue_stepped e l' y z) /\
  (forall data, k_queue_remove (S (length l')) y.1.1 data y.1.2 <> None) /\
  (forall data, k_queue_unique_append (S (length l')) y.1.1 data y.1.2 y.2 <> None) /\
  (forall h t ds, slist_of y.1.2 h ds -> k_queue_append_list (S (length ds)) y.1.1 h t y.1.2 y.2 <> None) /\
  k_queue_is_empty y.1.1 = (if decide (l' = []) then 1 else 0) /\
  k_queue_peek_head y.1.1 y.1.2 = default NULL (fst <$> list.head l') /\
  k_queue_peek_tail y.1.1 y.1.2 = default NULL (fst <$> last l').
Proof.
  intros Hdl Hmi Hok Ha Hrun. destruct (queue_run_ok Hdl Hmi es _ _ Hrun l Hok Ha) as (l' & E & Hok').
  exists l'. split; [done|]. split; [done|]. split; [intros; by eapply queue_step_ok|].
  destruct (queue_queries _ _ Hok') as (Q1 & Q2 & Q3 & Q4 & Q5). split_and!; try done.
  intros h t ds Hs. eapply append_list_ends; [exact Hs|lia].
Qed.


(** ** A concrete run: an item for a waiter, then a wrapped item *)

#[local] Existing Instance example_config.
#[local] Existing Instance simple_RunQueue.
#[local] Existing Instance delta_list_backend.

Definition example_queue : state := (K_queue sys_list_init 7%nat, (fun _ => 0), example_waiting).

Lemma example_queue_ok : queue_ok example_queue [].
Proof. split; [apply example_waiting_ok| |done]. split; [apply init_linked|constructor|constructor]. Qed.

Definition example_after (r : Z * k_queue * words * kernel) : state := (r.1.1.2, r.1.2, r.2).

Lemma run_insert `{Cfg : Config} {RQ : RunQueue} {TB : TimeoutBackend} malloc prev data alloc is_append x r es z :
  queue_insert malloc x.1.1 prev data alloc is_append x.1.2 x.2 = r -> queue_run es (example_after r) z ->
  queue_run (insert_event malloc prev data alloc is_append x :: es) x z.
Proof.
  intros E Hr. destruct x as [[q m] k], r as [[[ret q'] m'] k']. eapply qr_cons; [|exact Hr]. by eapply qs_insert.
Qed.

Definition example_put : Z * k_queue * words * kernel :=
  queue_insert None example_queue.1.1 NULL 200 false true example_queue.1.2 example_queue.2.
Definition example_put2 : Z * k_queue * words * kernel :=
  queue_insert (Some 400) (example_after example_put).1.1 NULL 300 true true (example_after example_put).1.2 (example_after example_put).2.

Lemma example_put_eq : queue_insert None example_queue.1.1 NULL 200 false true example_queue.1.2 example_queue.2 = example_put.
Proof. unfold example_put. apply eq_refl. Qed.
Lemma example_put2_eq : queue_insert (Some 400) (example_after example_put).1.1 NULL 300 true true (example_after example_put).1.2 (example_after example_put).2 = example_put2.
Proof. unfold example_put2. apply eq_refl. Qed.

Definition example_queue_events : list queue_event :=
  [insert_event None NULL 200 false true example_queue; insert_event (Some 400) NULL 300 true true (example_after example_put)].
Lemma example_queue_events_eq : example_queue_events = [Handed 1%nat 200; Appended (300, Some 400)].
Proof. vm_compute. reflexivity. Qed.

Lemma example_queue_run : queue_run example_queue_events example_queue (example_after example_put2).
Proof.
  refine (run_insert None NULL 200 false true example_queue example_put _ _ example_put_eq _).
  refine (run_insert (Some 400) NULL 300 true true (example_after example_put) example_put2 _ _ example_put2_eq _). apply qr_nil.
Qed.

Lemma example_queue_allowed : allowed_run example_queue_events [].
Proof.
  rewrite example_queue_events_eq. simpl. split; [done|]. intros l' [= <-]. split; [|done]. split; [by vm_compute|].
  unfold owned, alloc_data. simpl. apply NoDup_cons. split; [set_solver|]. apply NoDup_singleton.
Qed.

Lemma queue_refines_sequence_witness : exists l', seq_run [Handed 1%nat 200; Appended (300, Some 400)] [] = Some l' /\
  queue_ok (example_after example_put2) l'.
Proof.
  destruct (queue_refines_sequence (Cfg := example_config) _ _ _ _ eq_refl ltac:(discriminate) example_queue_ok
    example_queue_allowed example_queue_run) as (l' & H1 & H2 & _).
  exists l'. split; [|exact H2]. rewrite <- example_queue_events_eq. exact H1.
Defined.


(** ** Findings *)

(** [k_queue_unique_append] compares its item with the nodes, and so does not see that the
    same pointer is already queued in a wrapper. *)
Lemma unique_append_wrapped :
  match k_queue_unique_append 5 (example_after example_put2).1.1 300 (example_after example_put2).1.2 (example_after example_put2).2 with
  | Some (added, q, m, _) => added = true /\ k_queue_peek_head q m = 300 /\ k_queue_peek_tail q m = 300 /\
      length_of 5 q.(data_q) m = Some 2%nat
  | None => False
  end.
Proof. vm_compute. done. Qed.
