(* ===== verification/Mutex.v ===== *)
(** Mutexes with priority inheritance: kernel/mutex.c.

    The mutexes are a store indexed by address; which mutexes a thread holds and
    waits for, and its priority before inheritance, are fields of the thread.
    [owner_chain] is the specification of the walk along the chain of owners. *)

From S2P Require Import Prelude Thread PriorityQ Timeout TimeoutList.
From S2P Require Import Sched SchedOk SchedSpec ThreadApi ThreadSpec SchedProps Blocking.

#[local] Open Scope Z_scope.

Record k_mutex := K_mutex { mutex_wait_q : wqid; owner : option tid; lock_count : Z }.
Definition mutexes := mid -> k_mutex.
Definition set_owner (o : option tid) (m : k_mutex) : k_mutex := K_mutex m.(mutex_wait_q) o m.(lock_count).
Definition set_lock_count (n : Z) (m : k_mutex) : k_mutex := K_mutex m.(mutex_wait_q) m.(owner) n.

Definition MUTEX_CHAIN_WALK_MAX_HOPS : nat := 16.

(** [sys_slist_find_and_remove] on the list of mutexes a thread holds. *)
Fixpoint sys_slist_find_and_remove (m : mid) (l : list mid) : list mid :=
  match l with
  | [] => []
  | x :: r => if bool_decide (x = m) then r else x :: sys_slist_find_and_remove m r
  end.

Lemma find_and_remove_elem m l x : NoDup l -> x ∈ sys_slist_find_and_remove m l <-> x <> m /\ x ∈ l.
Proof.
  induction 1 as [|y l Hy Hl IH]; simpl; [set_solver|]. case_bool_decide as E; [set_solver|].
  rewrite !elem_of_cons, IH. naive_solver.
Qed.
Lemma find_and_remove_nodup m l : NoDup l -> NoDup (sys_slist_find_and_remove m l).
Proof.
  induction 1 as [|y l Hy Hl IH]; simpl; [constructor|]. case_bool_decide; [done|].
  constructor; [|done]. rewrite find_and_remove_elem by done. naive_solver.
Qed.

Section mutex.
Context `{Cfg : Config} {RQ : RunQueue} {TB : TimeoutBackend}.

Definition Z_MUTEX_PI_ENABLED : bool := CONFIG_PRIORITY_CEILING <? CONFIG_NUM_PREEMPT_PRIORITIES.

Definition k_mutex_init (m : mid) (M : mutexes) (k : kernel) : Z * mutexes * kernel :=
  (0, upd m (K_mutex (M m).(mutex_wait_q) None 0) M, on_waitq (M m).(mutex_wait_q) (fun _ => []) k).

Definition new_prio_for_inheritance (target limit : Z) : Z :=
  z_get_new_prio_with_ceiling (if z_is_prio_higher target limit then target else limit).

(** [mutex->owner] is not NULL where this is called. *)
Definition adjust_owner_prio (M : mutexes) (m : mid) (new_prio : Z) (k : kernel) : bool * kernel :=
  match (M m).(owner) with
  | Some o => if negb ((thr k o).(prio) =? new_prio) then z_thread_prio_set o new_prio k else (false, k)
  | None => (false, k_panic k)
  end.

Definition held_mutexes_highest_waiter_prio (M : mutexes) (k : kernel) (t : tid) (floor_prio : Z) : Z :=
  foldl (fun prio m =>
    match z_priq_simple_best (k.(waitqs) (M m).(mutex_wait_q)) with
    | Some waiter =>
        let wprio := z_get_new_prio_with_ceiling (thr k waiter).(Thread.prio) in
        if z_is_prio_higher wprio prio then wprio else prio
    | None => prio
    end) floor_prio (thr k t).(held_mutexes).

(** The walk along the owners, at most [hops] more of them.  The first result says
    that a deadlock was found, which is a failed assertion. *)
Fixpoint chain_walk (hops : nat) (M : mutexes) (mutex : mid) (boost_prio : Z) (all_forever : bool)
    (chain_mutex : mid) (resched : bool) (k : kernel) : bool * bool * kernel :=
  match hops, (M chain_mutex).(owner) with
  | S hops', Some chain_owner =>
      let all_forever := all_forever && z_is_inactive_timeout k.(clk) (thread_timeout chain_owner) in
      if CONFIG_MUTEX_DEADLOCK_DETECT && all_forever &&
         match (thr k chain_owner).(mutex_pended_on) with
         | Some pm => z_is_thread_pending (thr k chain_owner) && bool_decide ((M pm).(owner) = Some k.(current))
         | None => false
         end
      then (true, resched, k)
      else
        let '(r, k1) := if z_is_prio_higher boost_prio (thr k chain_owner).(prio)
                        then adjust_owner_prio M chain_mutex boost_prio k else (false, k) in
        let resched := r || resched in
        match (thr k1 chain_owner).(mutex_pended_on) with
        | Some next =>
            if negb (z_is_thread_pending (thr k1 chain_owner)) then (false, resched, k1)
            else if bool_decide (next = mutex) || (hops' =? 0)%nat then (false, resched, k1)
            else chain_walk hops' M mutex boost_prio all_forever next resched k1
        | None => (false, resched, k1)
        end
  | _, _ => (false, resched, k)
  end.

(** Adding a mutex to the list of those a thread holds; the first one records the
    priority the thread has without inheritance. *)
Definition hold (m : mid) (th : k_thread) : k_thread :=
  set_held_mutexes (th.(held_mutexes) ++ [m])
    (match th.(held_mutexes) with [] => set_orig_prio th.(prio) th | _ => th end).

(** Up to the point where the call returns or blocks; the second result is the
    local variable [resched], which [k_mutex_lock_resume] uses. *)
Definition k_mutex_lock (m : mid) (timeout : Z) (M : mutexes) (k : kernel)
    : outcome * bool * mutexes * kernel :=
  let c := k.(current) in
  if ((M m).(lock_count) =? 0) || bool_decide ((M m).(owner) = Some c) then
    let n := u32 ((M m).(lock_count) + 1) in
    let M' := upd m (K_mutex (M m).(mutex_wait_q) (Some c) n) M in
    let k' :=
      if Z_MUTEX_PI_ENABLED && (n =? 1) then
        on_thread c (hold m) k
      else k in
    (Returns 0, false, M', k')
  else if timeout =? K_NO_WAIT then (Returns (- EBUSY), false, M, k)
  else
    match (M m).(owner) with
    | None => (Panics, false, M, k_panic k)
    | Some o =>
        let '(deadlock, resched, k2) :=
          if Z_MUTEX_PI_ENABLED then
            let k1 := on_thread c (set_mutex_pended_on (Some m)) k in
            chain_walk MUTEX_CHAIN_WALK_MAX_HOPS M m
              (new_prio_for_inheritance (thr k1 c).(prio) (thr k1 o).(prio)) (timeout =? K_FOREVER) m false k1
          else (false, false, k) in
        if deadlock then (Panics, resched, M, k_panic k2)
        else let '(ret, k3) := z_pend_curr (M m).(mutex_wait_q) timeout k2 in (ret, resched, M, k3)
    end.

(** The rest of a call that blocked, when its thread runs again. *)
Definition k_mutex_lock_resume (m : mid) (resched : bool) (M : mutexes) (k : kernel) : Z * kernel :=
  let got_mutex := (cur k).(swap_retval) in
  if Z_MUTEX_PI_ENABLED then
    let k1 := on_thread k.(current) (set_mutex_pended_on None) k in
    if got_mutex =? 0 then (0, k1)
    else
      let '(r, k2) :=
        match (M m).(owner) with
        | Some o =>
            adjust_owner_prio M m (held_mutexes_highest_waiter_prio M k1 o (thr k1 o).(orig_prio)) k1
        | None => (false, k1)
        end in
      (- EAGAIN, if r || resched then reschedule k2 else k2)
  else (got_mutex, k).

(** The new owner's fields. *)
Definition take_over (m : mid) (th : k_thread) : k_thread :=
  if Z_MUTEX_PI_ENABLED then
    set_mutex_pended_on None (hold m th)
  else th.

Definition k_mutex_unlock (m : mid) (M : mutexes) (k : kernel) : Z * mutexes * kernel :=
  let c := k.(current) in
  match (M m).(owner) with
  | None => (- EINVAL, M, k)
  | Some o =>
      if negb (o =? c)%nat then (- EPERM, M, k)
      else if 1 <? (M m).(lock_count) then (0, upd m (set_lock_count ((M m).(lock_count) - 1) (M m)) M, k)
      else
        let k1 :=
          if Z_MUTEX_PI_ENABLED then
            let k0 := on_thread c (fun th => set_held_mutexes (sys_slist_find_and_remove m th.(held_mutexes)) th) k in
            if negb ((thr k0 c).(prio) =? (thr k0 c).(orig_prio)) then
              (adjust_owner_prio M m (held_mutexes_highest_waiter_prio M k0 c (thr k0 c).(orig_prio)) k0).2
            else k0
          else k in
        match z_unpend_first_thread_locked (M m).(mutex_wait_q) k1 with
        | (Some new_owner, k2) =>
            (0, upd m (set_owner (Some new_owner) (M m)) M,
             reschedule (ready_thread new_owner
               (on_thread new_owner (fun th => set_swap_retval 0 (take_over m th)) k2)))
        | (None, k2) => (0, upd m (set_lock_count 0 (set_owner None (M m))) M, k2)
        end
  end.

(** ** The specification of the walk *)

(** The threads whose priority counts for the owner of [chain_mutex]: its owner,
    the owner of the mutex that one waits for, and so on. *)
Fixpoint owner_chain (hops : nat) (M : mutexes) (k : kernel) (mutex chain_mutex : mid) : list tid :=
  match hops, (M chain_mutex).(owner) with
  | S hops', Some o =>
      o :: match (thr k o).(mutex_pended_on) with
           | Some next =>
               if z_is_thread_pending (thr k o) && negb (bool_decide (next = mutex))
               then owner_chain hops' M k mutex next else []
           | None => []
           end
  | _, _ => []
  end.

(** ** Changes of priority *)

Context (Hdl : CONFIG_SCHED_DEADLINE = false) (Hmi : CONFIG_NUM_METAIRQ_PRIORITIES <= 0).

(** [reprio k k']: only priorities and the order of the queues changed. *)
Record reprio (k k' : kernel) : Prop := {
  rp_sys : sys_ok k';
  rp_cpu : same_cpu k k';
  rp_thread : forall x, exists st p, thr k' x = set_thread_state st (set_prio p (thr k x));
  rp_pending : forall x, z_is_thread_pending (thr k' x) = z_is_thread_pending (thr k x);
  rp_ready : forall x, z_is_thread_ready (thr k' x) = z_is_thread_ready (thr k x)
}.

Lemma reprio_refl k : sys_ok k -> reprio k k.
Proof.
  intros. split; try done. intros x. exists (thr k x).(thread_state), (thr k x).(prio). by destruct (thr k x).
Qed.

Lemma reprio_trans k1 k2 k3 : reprio k1 k2 -> reprio k2 k3 -> reprio k1 k3.
Proof.
  intros [A1 A2 A3 A4 A5] [B1 B2 B3 B4 B5]. split; [done|by etrans| | |].
  - intros x. destruct (A3 x) as (s1 & p1 & E1), (B3 x) as (s2 & p2 & E2). exists s2, p2. by rewrite E2, E1.
  - intros x. by rewrite B4.
  - intros x. by rewrite B5.
Qed.

Lemma reprio_fields k k' x : reprio k k' ->
  (thr k' x).(pended_on) = (thr k x).(pended_on) /\
  (thr k' x).(mutex_pended_on) = (thr k x).(mutex_pended_on) /\
  (thr k' x).(held_mutexes) = (thr k x).(held_mutexes) /\ (thr k' x).(orig_prio) = (thr k x).(orig_prio) /\
  (thr k' x).(swap_retval) = (thr k x).(swap_retval).
Proof. intros H. by destruct (rp_thread _ _ H x) as (st & p & ->). Qed.

Lemma reprio_waiters k k' w x : sys_ok k -> reprio k k' -> x ∈ k'.(waitqs) w <-> x ∈ k.(waitqs) w.
Proof.
  intros Hok HR. destruct (reprio_fields k k' x HR) as [E _].
  rewrite (ok_pended _ _ (proj1 (proj1 (rp_sys _ _ HR)))), (ok_pended _ _ (proj1 (proj1 Hok))). by rewrite E.
Qed.

Lemma reprio_set k t p : sys_ok k -> k.(in_isr) = false -> valid_prio p -> t <> k.(idle_thread) ->
  reprio k (z_thread_prio_set t p k).2 /\ (thr (z_thread_prio_set t p k).2 t).(prio) = p /\
  (forall x, x <> t -> thr (z_thread_prio_set t p k).2 x = thr k x).
Proof.
  intros Hok Hisr Hp Hi.
  assert (Hc : t = k.(current) -> z_is_thread_ready (thr k t) = true) by (intros ->; by apply Hok).
  destruct (prio_set_ok Hdl Hmi k t p (proj1 Hok) Hp Hi Hc) as (_ & HP & Hpr & Hx).
  destruct (prio_set_thread k t p) as (st & E1 & E2 & E3). split; [|done].
  split; [by apply prio_set_sys|done|..]; intros x; destruct (decide (x = t)) as [->|Hne]; rewrite ?Hx by done; try done.
  - by exists st, p.
  - exists (thr k x).(thread_state), (thr k x).(prio). by destruct (thr k x).
Qed.

(** Changing the priority of a ready thread leaves the wait queues alone. *)
Lemma prio_set_waitqs k t p : z_is_thread_ready (thr k t) = true ->
  (z_thread_prio_set t p k).2.(waitqs) = k.(waitqs).
Proof.
  intros Hr. unfold z_thread_prio_set. rewrite Hr. cbn [snd].
  set (k1 := queue_thread t _). destruct (update_cache_frame true k1) as [HC _]. by rewrite (sc_waitqs _ _ HC).
Qed.

(** ** The walk *)

Lemma owner_chain_reprio hops M k k' mutex m : reprio k k' ->
  owner_chain hops M k' mutex m = owner_chain hops M k mutex m.
Proof.
  intros HR. revert m. induction hops as [|hops IH]; intros m; [done|]. simpl.
  destruct (owner (M m)) as [o|]; [|done]. destruct (reprio_fields k k' o HR) as (_ & -> & _).
  f_equal. destruct (mutex_pended_on (thr k o)); [|done]. by rewrite (rp_pending _ _ HR), IH.
Qed.

Definition boosted (chain : list tid) (boost : Z) (k : kernel) (x : tid) : Z :=
  if decide (x ∈ chain) then Z.min boost (thr k x).(prio) else (thr k x).(prio).

Lemma boosted_cons o l boost k k' x : (thr k' o).(prio) = Z.min boost (thr k o).(prio) ->
  (forall y, y <> o -> thr k' y = thr k y) -> boosted l boost k' x = boosted (o :: l) boost k x.
Proof.
  intros Ho Hx. unfold boosted. destruct (decide (x = o)) as [->|Hne].
  - rewrite (decide_True (P := o ∈ o :: l)) by set_solver +. rewrite Ho. case_decide; lia.
  - rewrite Hx by done. destruct (decide (x ∈ l)).
    + by rewrite decide_True by set_solver.
    + by rewrite decide_False by set_solver.
Qed.

Lemma chain_walk_ok hops M mutex boost all_forever m rs k : sys_ok k -> k.(in_isr) = false -> valid_prio boost ->
  (forall m o, (M m).(owner) = Some o -> o <> k.(idle_thread)) ->
  let '(dl, _, k') := chain_walk hops M mutex boost all_forever m rs k in
  reprio k k' /\ (CONFIG_MUTEX_DEADLOCK_DETECT = false -> dl = false) /\
  (dl = false -> forall x, (thr k' x).(prio) = boosted (owner_chain hops M k mutex m) boost k x).
Proof.
  revert all_forever m rs k. induction hops as [|hops IH]; intros all_forever m rs k Hok Hisr Hb HM; simpl.
  { split; [by apply reprio_refl|done]. }
  destruct (owner (M m)) as [o|] eqn:Ho; [|by split; [by apply reprio_refl|done]].
  destruct (CONFIG_MUTEX_DEADLOCK_DETECT && _ && _) eqn:Edl.
  { split; [by apply reprio_refl|]. split; [|done]. intros Hd. by rewrite Hd in Edl. }
  destruct (if z_is_prio_higher _ _ then _ else _) as [r k1] eqn:E1.
  assert (reprio k k1 /\ (thr k1 o).(prio) = Z.min boost (thr k o).(prio) /\
    forall y, y <> o -> thr k1 y = thr k y) as (HR & Hpo & Hx).
  { revert E1. unfold adjust_owner_prio. rewrite Ho. unfold z_is_prio_higher, z_is_prio1_higher_than_prio2.
    destruct (Z.ltb_spec boost (thr k o).(prio)).
    - rewrite (proj2 (Z.eqb_neq _ _)) by lia. simpl. intros E1.
      destruct (reprio_set k o boost Hok Hisr Hb (HM _ _ Ho)) as (H1 & H2 & H3). rewrite E1 in *.
      split; [done|]. split; [|done]. simpl in H2. lia.
    - intros [= <- <-]. split; [by apply reprio_refl|]. split; [lia|done]. }
  assert (Hstop : forall x, (thr k1 x).(prio) = boosted [o] boost k x).
  { intros x. rewrite <- (boosted_cons o [] boost k k1 x Hpo Hx). unfold boosted.
    by rewrite decide_False by set_solver +. }
  destruct (reprio_fields k k1 o HR) as (_ & -> & _). rewrite (rp_pending _ _ HR).
  destruct (mutex_pended_on (thr k o)) as [next|]; [|done].
  destruct (z_is_thread_pending (thr k o)); simpl; [|done].
  destruct (bool_decide_reflect (next = mutex)); simpl; [done|].
  destruct (Nat.eqb_spec hops 0) as [->|_]; [done|].
  specialize (IH (all_forever && z_is_inactive_timeout k.(clk) (thread_timeout o)) next (r || rs) k1
    (rp_sys _ _ HR)).
  rewrite (cpu_isr _ _ (rp_cpu _ _ HR)), (cpu_idle _ _ (rp_cpu _ _ HR)) in IH. specialize (IH Hisr Hb HM).
  destruct (chain_walk hops M mutex boost _ next _ k1) as [[dl rs'] k2]. destruct IH as (I1 & I2 & I3).
  split; [by eapply reprio_trans|]. split; [done|]. intros Hd x.
  rewrite I3 by done. rewrite (owner_chain_reprio hops M k k1 mutex next HR). by apply boosted_cons.
Qed.

(** ** The invariant *)

Record mutex_ok (M : mutexes) (k : kernel) : Prop := {
  mo_sys : sys_ok k;
  mo_count : forall m, ((M m).(owner) = None <-> (M m).(lock_count) = 0) /\ 0 <= (M m).(lock_count) < 2 ^ 32;
  mo_free : forall m, (M m).(owner) = None -> k.(waitqs) (M m).(mutex_wait_q) = [];
  mo_held : forall m t, m ∈ (thr k t).(held_mutexes) <-> (M m).(owner) = Some t;
  mo_nodup : forall t, NoDup (thr k t).(held_mutexes);
  mo_self : forall m t, t ∈ k.(waitqs) (M m).(mutex_wait_q) -> (M m).(owner) <> Some t;
  mo_queue : forall m m', (M m).(mutex_wait_q) = (M m').(mutex_wait_q) -> m = m';
  mo_idle : forall m t, (M m).(owner) = Some t -> t <> k.(idle_thread);
  mo_orig : forall t, valid_prio (thr k t).(orig_prio)
}.

(** What the rest of the system does: it queues nobody on a mutex, and leaves the
    fields of threads that belong to mutex.c alone. *)
Definition mutex_env (M : mutexes) (k k' : kernel) : Prop :=
  sched_step k k' /\ k'.(idle_thread) = k.(idle_thread) /\
  (forall m x, x ∈ k'.(waitqs) (M m).(mutex_wait_q) -> x ∈ k.(waitqs) (M m).(mutex_wait_q)) /\
  (forall x, (thr k' x).(held_mutexes) = (thr k x).(held_mutexes) /\ (thr k' x).(orig_prio) = (thr k x).(orig_prio)).

(** Only the running thread, in its own context, uses mutexes; one more lock must
    not overflow the count. *)
Inductive mutex_step : mutexes * kernel -> mutexes * kernel -> Prop :=
| ms_lock m timeout M k o rs M' k' : in_thread k -> (M m).(lock_count) + 1 < 2 ^ 32 ->
    k_mutex_lock m timeout M k = (o, rs, M', k') -> o <> Panics -> mutex_step (M, k) (M', k')
| ms_resume m rs M k : in_thread k -> mutex_step (M, k) (M, (k_mutex_lock_resume m rs M k).2)
| ms_unlock m M k r M' k' : in_thread k -> k_mutex_unlock m M k = (r, M', k') -> mutex_step (M, k) (M', k')
| ms_other M k k' : mutex_env M k k' -> mutex_step (M, k) (M, k').

Context (Hpi : Z_MUTEX_PI_ENABLED = true).

Lemma ceiling_valid p : valid_prio p -> valid_prio (z_get_new_prio_with_ceiling p).
Proof.
  unfold z_get_new_prio_with_ceiling, z_is_under_prio_ceiling, valid_prio, K_LOWEST_THREAD_PRIO.
  intros Hp. apply Z.ltb_lt in Hpi. destruct (Z.leb_spec CONFIG_PRIORITY_CEILING p); [lia|].
  unfold K_HIGHEST_THREAD_PRIO in *. lia.
Qed.

Lemma inheritance_valid p q : valid_prio p -> valid_prio q -> valid_prio (new_prio_for_inheritance p q).
Proof. intros. unfold new_prio_for_inheritance. apply ceiling_valid. by destruct (z_is_prio_higher p q). Qed.

Lemma highest_waiter_valid M k t p : sys_ok k -> valid_prio p ->
  valid_prio (held_mutexes_highest_waiter_prio M k t p).
Proof.
  intros Hok. unfold held_mutexes_highest_waiter_prio. revert p.
  induction (held_mutexes (thr k t)) as [|m l IH]; intros p Hp; [done|]. simpl. apply IH.
  destruct (z_priq_simple_best _) as [x|]; [|done]. case_match; [|done].
  apply ceiling_valid, (ok_prio _ _ (proj1 (proj1 Hok))).
Qed.

Lemma mutex_frame M k k' : mutex_ok M k -> sys_ok k' -> k'.(idle_thread) = k.(idle_thread) ->
  (forall m x, x ∈ k'.(waitqs) (M m).(mutex_wait_q) -> x ∈ k.(waitqs) (M m).(mutex_wait_q) \/
     (M m).(owner) <> None /\ (M m).(owner) <> Some x) ->
  (forall x, (thr k' x).(held_mutexes) = (thr k x).(held_mutexes) /\
     (thr k' x).(orig_prio) = (thr k x).(orig_prio)) -> mutex_ok M k'.
Proof.
  intros [] Hs Hi Hw Hx. split; try done.
  - intros m Ho. destruct (k'.(waitqs) _) as [|x r] eqn:E; [done|].
    destruct (Hw m x) as [Hin|[? _]]; [rewrite E; set_solver +| |done].
    rewrite mo_free0 in Hin by done. by apply elem_of_nil in Hin.
  - intros m t. destruct (Hx t) as [-> _]. apply mo_held0.
  - intros t. destruct (Hx t) as [-> _]. apply mo_nodup0.
  - intros m t Ht. destruct (Hw m t Ht) as [?|[_ ?]]; [by apply mo_self0|done].
  - intros m t. rewrite Hi. apply mo_idle0.
  - intros t. destruct (Hx t) as [_ ->]. apply mo_orig0.
Qed.

Lemma mutex_reprio M k k' : mutex_ok M k -> reprio k k' -> mutex_ok M k'.
Proof.
  intros Hok HR. apply (mutex_frame M k); [done|apply HR|apply HR| |].
  - intros m x Hx. left. by apply (reprio_waiters k k'); [apply Hok|..].
  - intros x. destruct (reprio_fields k k' x HR) as (_ & _ & -> & -> & _). done.
Qed.

Lemma mutex_invisible M k t f : mutex_ok M k -> invisible f ->
  (forall th, (f th).(held_mutexes) = th.(held_mutexes) /\ (f th).(orig_prio) = th.(orig_prio)) ->
  mutex_ok M (on_thread t f k).
Proof.
  intros Hok Hf HF. apply (mutex_frame M k); [done|apply invisible_sys; [apply Hok|done]|done|auto|].
  intros x. rewrite thr_upd. case_decide as E; [|done]. rewrite E. apply HF.
Qed.

Lemma invisible_pended m : invisible (set_mutex_pended_on m).
Proof. intros th. split; [by split|done]. Qed.

(** ** Locking *)

(** What a call that blocks does: the caller joins the queue, and its priority
    is lent to the chain of owners. *)
Record lock_blocks (m : mid) (o : tid) (M : mutexes) (k k' : kernel) : Prop := {
  lb_sys : sys_ok k';
  lb_queue : forall x, x ∈ k'.(waitqs) (M m).(mutex_wait_q) <->
    x = k.(current) \/ x ∈ k.(waitqs) (M m).(mutex_wait_q);
  lb_queues : forall w x, w <> (M m).(mutex_wait_q) -> x ∈ k'.(waitqs) w <-> x ∈ k.(waitqs) w;
  lb_prio : let boost := new_prio_for_inheritance (cur k).(prio) (thr k o).(prio) in
    forall x, (thr k' x).(prio) = boosted (owner_chain MUTEX_CHAIN_WALK_MAX_HOPS M k m m) boost k x;
  lb_retval : (thr k' k.(current)).(swap_retval) = - EAGAIN;
  lb_fields : forall x, (thr k' x).(held_mutexes) = (thr k x).(held_mutexes) /\
    (thr k' x).(orig_prio) = (thr k x).(orig_prio);
  lb_idle : k'.(idle_thread) = k.(idle_thread)
}.

Lemma owner_chain_pended hops M k c p mutex m : z_is_thread_pending (thr k c) = false ->
  owner_chain hops M (on_thread c (set_mutex_pended_on p) k) mutex m = owner_chain hops M k mutex m.
Proof.
  intros Hc. revert m. induction hops as [|hops IH]; intros m; [done|]. cbn [owner_chain].
  destruct (owner (M m)) as [o|]; [|done]. f_equal. rewrite thr_upd. case_decide as E.
  - rewrite E in *. change (z_is_thread_pending (set_mutex_pended_on p (thr k c))) with (z_is_thread_pending (thr k c)).
    rewrite Hc. simpl. by destruct p, (mutex_pended_on (thr k c)).
  - destruct (mutex_pended_on (thr k o)); [|done]. by rewrite IH.
Qed.

Lemma lock_blocks_ok m timeout M k o dl rs k1 : mutex_ok M k -> in_thread k ->
  (M m).(owner) = Some o -> o <> k.(current) ->
  chain_walk MUTEX_CHAIN_WALK_MAX_HOPS M m (new_prio_for_inheritance (cur k).(prio) (thr k o).(prio))
    (timeout =? K_FOREVER) m false (on_thread k.(current) (set_mutex_pended_on (Some m)) k) = (dl, rs, k1) ->
  (CONFIG_MUTEX_DEADLOCK_DETECT = false -> dl = false) /\
  (dl = false -> exists k2, z_pend_curr (M m).(mutex_wait_q) timeout k1 = (Blocks, k2) /\ lock_blocks m o M k k2).
Proof.
  intros Hok [Hisr Hc] Ho Hne E. set (k0 := on_thread _ _ k) in *.
  pose proof (mo_sys _ _ Hok) as Hs. pose proof (proj1 (proj1 Hs)) as Hcore.
  assert (Hs0 : sys_ok k0) by (apply invisible_sys; [done|apply invisible_pended]).
  assert (Hf0 : forall x, (thr k0 x).(prio) = (thr k x).(prio) /\ (thr k0 x).(held_mutexes) = (thr k x).(held_mutexes) /\
    (thr k0 x).(orig_prio) = (thr k x).(orig_prio)).
  { intros x. unfold k0. rewrite thr_upd. case_decide as Ex; [by rewrite Ex|done]. }
  pose proof (chain_walk_ok MUTEX_CHAIN_WALK_MAX_HOPS M m
    (new_prio_for_inheritance (cur k).(prio) (thr k o).(prio)) (timeout =? K_FOREVER) m false k0 Hs0 Hisr
    (inheritance_valid _ _ (ok_prio _ _ Hcore _) (ok_prio _ _ Hcore _)) (mo_idle _ _ Hok)) as HW.
  rewrite E in HW. destruct HW as (HR & Hd & Hp). split; [done|]. intros Hdl0. specialize (Hp Hdl0).
  pose proof (cpu_current _ _ (rp_cpu _ _ HR)) as Hcur. pose proof (cpu_idle _ _ (rp_cpu _ _ HR)) as Hid.
  destruct (pend_waits Hdl Hmi k1 (M m).(mutex_wait_q) timeout (rp_sys _ _ HR)) as (k2 & Ep & [W1 W2 W3 W4 W5 W6 _]).
  { by rewrite (cpu_isr _ _ (rp_cpu _ _ HR)). } { by rewrite Hcur, Hid. }
  rewrite Hcur in *. change (current k0) with k.(current) in *.
  exists k2. split; [done|].
  assert (Hsame : forall x, (thr k2 x).(prio) = (thr k1 x).(prio) /\ (thr k2 x).(held_mutexes) = (thr k1 x).(held_mutexes) /\
    (thr k2 x).(orig_prio) = (thr k1 x).(orig_prio)).
  { intros x. destruct (decide (x = k.(current))) as [->|Hx]; [rewrite W4; unfold cur; rewrite Hcur|rewrite W5]; done. }
  split; [done|..].
  - intros x. rewrite W2, elem_of_add. by rewrite (reprio_waiters k0 k1).
  - intros w x Hw. rewrite W3 by done. by rewrite (reprio_waiters k0 k1).
  - intros boost x. destruct (Hsame x) as [-> _]. rewrite Hp. unfold k0. rewrite owner_chain_pended.
    + fold k0. unfold boosted. by destruct (Hf0 x) as [-> _].
    + apply ready_not_pending. by apply Hs.
  - by rewrite W4.
  - intros x. destruct (Hsame x) as (_ & -> & ->), (Hf0 x) as (_ & <- & <-), (reprio_fields k0 k1 x HR) as (_ & _ & -> & -> & _). done.
  - by rewrite W6.
Qed.

Lemma lock_spec m timeout M k : mutex_ok M k -> in_thread k ->
  let '(o, rs, M', k') := k_mutex_lock m timeout M k in
  if ((M m).(lock_count) =? 0) || bool_decide ((M m).(owner) = Some k.(current)) then
    o = Returns 0 /\ M' = upd m (K_mutex (M m).(mutex_wait_q) (Some k.(current)) (u32 ((M m).(lock_count) + 1))) M /\
    k' = if u32 ((M m).(lock_count) + 1) =? 1 then
           on_thread k.(current) (hold m) k
         else k
  else if timeout =? K_NO_WAIT then o = Returns (- EBUSY) /\ M' = M /\ k' = k
  else M' = M /\ (CONFIG_MUTEX_DEADLOCK_DETECT = false -> o = Blocks) /\
    exists own, (M m).(owner) = Some own /\ own <> k.(current) /\
      (o = Panics \/ o = Blocks /\ lock_blocks m own M k k').
Proof.
  intros Hok Hth. unfold k_mutex_lock. rewrite Hpi. cbv zeta. cbn [andb].
  destruct (_ || _) eqn:E; [done|]. apply orb_false_iff in E as [E1%Z.eqb_neq E2%bool_decide_eq_false].
  destruct (timeout =? K_NO_WAIT); [done|].
  destruct (owner (M m)) as [own|] eqn:Ho; [|exfalso; by apply E1, (mo_count _ _ Hok m)].
  assert (Hne : own <> k.(current)) by congruence.
  rewrite thr_eq, (thr_ne _ _ _ own Hne).
  change (prio (set_mutex_pended_on (Some m) (thr k k.(current)))) with (cur k).(prio).
  destruct (chain_walk _ _ _ _ _ _ _ _) as [[dl rs] k1] eqn:E.
  destruct (lock_blocks_ok _ _ _ _ _ _ _ _ Hok Hth Ho Hne E) as [Hd Hb].
  destruct dl.
  - split; [done|]. split; [by intros ?%Hd|]. exists own. auto.
  - destruct (Hb eq_refl) as (k2 & -> & HL). split; [done|]. split; [done|]. exists own. auto.
Qed.

Lemma invisible_hold m : invisible (hold m).
Proof. intros th. unfold hold. destruct (held_mutexes th); (split; [by split|done]). Qed.

Lemma hold_fields m th : (hold m th).(held_mutexes) = th.(held_mutexes) ++ [m] /\
  (valid_prio th.(prio) -> valid_prio th.(orig_prio) -> valid_prio (hold m th).(orig_prio)).
Proof. unfold hold. by destruct (held_mutexes th). Qed.

Lemma upd_mutex (M : mutexes) m v x : upd m v M x = if decide (x = m) then v else M x.
Proof. done. Qed.

(** A free mutex becomes the running thread's. *)
Lemma acquire_ok m M k : mutex_ok M k -> in_thread k -> (M m).(owner) = None ->
  mutex_ok (upd m (K_mutex (M m).(mutex_wait_q) (Some k.(current)) 1) M) (on_thread k.(current) (hold m) k).
Proof.
  intros Hok [Hisr Hc] Ho. destruct (hold_fields m (cur k)) as [Hh Hv].
  assert (Hwq : forall x, (upd m (K_mutex (M m).(mutex_wait_q) (Some k.(current)) 1) M x).(mutex_wait_q) =
    (M x).(mutex_wait_q)) by (intros x; rewrite upd_mutex; case_decide as E; [by rewrite E|done]).
  destruct Hok. split.
  - apply invisible_sys; [done|apply invisible_hold].
  - intros x. rewrite upd_mutex. case_decide; [simpl; split; [done|lia]|apply mo_count0].
  - intros x. rewrite Hwq, upd_mutex. case_decide; [done|apply mo_free0].
  - intros x t. rewrite upd_mutex, thr_upd. specialize (mo_held0 x t).
    destruct (decide (t = k.(current))) as [->|Ht]; destruct (decide (x = m)) as [->|Hx]; cbn iota.
    + change (thr k k.(current)) with (cur k). rewrite Hh. set_solver.
    + change (thr k k.(current)) with (cur k) in *. rewrite Hh. rewrite <- mo_held0. set_solver.
    + rewrite mo_held0, Ho. naive_solver.
    + done.
  - intros t. rewrite thr_upd. case_decide as E; [|apply mo_nodup0]. change (thr k k.(current)) with (cur k).
    rewrite Hh. apply NoDup_app. split; [apply mo_nodup0|]. split; [|apply NoDup_singleton].
    intros x Hx Hm%list_elem_of_singleton. subst x. apply mo_held0 in Hx. congruence.
  - intros x t. rewrite Hwq, upd_mutex. change (waitqs (on_thread _ _ k)) with k.(waitqs).
    case_decide as E; [|apply mo_self0]. rewrite E, mo_free0 by done. by intros ?%elem_of_nil.
  - intros x y. rewrite !Hwq. apply mo_queue0.
  - intros x t. rewrite upd_mutex. case_decide; [simpl; congruence|apply mo_idle0].
  - intros t. rewrite thr_upd. case_decide; [|apply mo_orig0].
    apply Hv; [apply (ok_prio _ _ (proj1 (proj1 mo_sys0)))|apply mo_orig0].
Qed.

(** Locking a mutex again, and unlocking it without releasing it. *)
Lemma recount_ok m M k n o : mutex_ok M k -> (M m).(owner) = Some o -> 0 < n < 2 ^ 32 ->
  mutex_ok (upd m (K_mutex (M m).(mutex_wait_q) (Some o) n) M) k.
Proof.
  intros [] Ho Hn.
  assert (Hwq : forall x, (upd m (K_mutex (M m).(mutex_wait_q) (Some o) n) M x).(mutex_wait_q) = (M x).(mutex_wait_q))
    by (intros x; rewrite upd_mutex; case_decide as E; [by rewrite E|done]).
  assert (Hown : forall x, (upd m (K_mutex (M m).(mutex_wait_q) (Some o) n) M x).(owner) = (M x).(owner))
    by (intros x; rewrite upd_mutex; case_decide as E; [by rewrite E|done]).
  split; try done.
  - intros x. rewrite Hown. rewrite upd_mutex. case_decide as E; [|apply mo_count0].
    rewrite E, Ho. simpl. split; [split; [done|lia]|lia].
  - intros x. rewrite Hwq, Hown. auto.
  - intros x t. rewrite Hown. auto.
  - intros x t. rewrite Hwq, Hown. auto.
  - intros x y. rewrite !Hwq. auto.
  - intros x t. rewrite Hown. eauto.
Qed.

Lemma lock_ok m timeout M k o rs M' k' : mutex_ok M k -> in_thread k -> (M m).(lock_count) + 1 < 2 ^ 32 ->
  k_mutex_lock m timeout M k = (o, rs, M', k') -> o <> Panics -> mutex_ok M' k'.
Proof.
  intros Hok Hth Hn E Hp. pose proof (lock_spec m timeout M k Hok Hth) as HS. rewrite E in HS.
  destruct (mo_count _ _ Hok m) as [Hcnt Hrange]. destruct (_ || _) eqn:Eb.
  - destruct HS as (_ & -> & ->). unfold u32. rewrite Z.mod_small by lia.
    destruct (Z.eqb_spec (lock_count (M m)) 0) as [E0|E0].
    + rewrite E0. simpl. apply acquire_ok; [done..|]. by apply Hcnt.
    + simpl in Eb. apply bool_decide_eq_true in Eb. rewrite (proj2 (Z.eqb_neq _ _)) by lia.
      apply recount_ok; [done..|lia].
  - destruct (timeout =? K_NO_WAIT); [by destruct HS as (_ & -> & ->)|].
    destruct HS as (-> & _ & own & Ho & Hne & [->|[_ []]]); [done|].
    apply (mutex_frame M k); [done|done|done| |done].
    intros x t Ht. destruct (decide (x = m)) as [->|Hx].
    + apply lb_queue0 in Ht as [->|Ht]; [right; split; congruence|by left].
    + left. apply lb_queues0; [|done]. intros Hq%(mo_queue _ _ Hok). done.
Qed.

Lemma mutex_reschedule M k : mutex_ok M k -> mutex_ok M (reschedule k).
Proof.
  intros Hok. destruct (reschedule_at_most k) as [A1 _ A3 _ _ A5 A6].
  apply (mutex_frame M k); [done|apply reschedule_sys; apply Hok|done|rewrite A1; auto|].
  intros x. destruct (decide (x = k.(current))) as [->|Hne]; [|by rewrite A5]. by destruct A6 as [-> | ->].
Qed.

Lemma adjust_ok M m o p k : mutex_ok M k -> k.(in_isr) = false -> (M m).(owner) = Some o -> valid_prio p ->
  reprio k (adjust_owner_prio M m p k).2 /\ (thr (adjust_owner_prio M m p k).2 o).(prio) = p /\
  (forall x, x <> o -> thr (adjust_owner_prio M m p k).2 x = thr k x) /\
  (z_is_thread_ready (thr k o) = true -> (adjust_owner_prio M m p k).2.(waitqs) = k.(waitqs)).
Proof.
  intros Hok Hisr Ho Hp. pose proof (mo_sys _ _ Hok) as Hs. unfold adjust_owner_prio. rewrite Ho.
  destruct (Z.eqb_spec (prio (thr k o)) p); simpl; [by split; [apply reprio_refl|]|].
  destruct (reprio_set k o p Hs Hisr Hp (mo_idle _ _ Hok _ _ Ho)) as (H1 & H2 & H3).
  split; [done|]. split; [done|]. split; [done|]. apply prio_set_waitqs.
Qed.

Lemma resume_ok m rs M k : mutex_ok M k -> in_thread k -> mutex_ok M (k_mutex_lock_resume m rs M k).2.
Proof.
  intros Hok [Hisr _]. unfold k_mutex_lock_resume. rewrite Hpi. cbv zeta.
  set (k1 := on_thread _ _ k).
  assert (Hok1 : mutex_ok M k1) by (by apply mutex_invisible; [|apply invisible_pended|]).
  destruct (_ =? 0); [done|]. destruct (owner (M m)) as [o|] eqn:Ho.
  - destruct (adjust_ok M m o (held_mutexes_highest_waiter_prio M k1 o (thr k1 o).(orig_prio)) k1 Hok1 Hisr Ho)
      as [HR _]; [apply highest_waiter_valid; apply Hok1|].
    destruct (adjust_owner_prio _ _ _ k1) as [r k2]. cbn [snd] in *. apply (mutex_reprio M) in HR; [|done].
    destruct (r || rs); [by apply mutex_reschedule|done].
  - simpl. destruct rs; [by apply mutex_reschedule|done].
Qed.

(** ** Unlocking *)

Definition remaining (m : mid) (k : kernel) : kernel :=
  on_thread k.(current) (fun th => set_held_mutexes (sys_slist_find_and_remove m th.(held_mutexes)) th) k.

(** [gives_up m M k k1]: the running thread no longer holds [m]; of its priority
    what the mutexes it still holds justify is left. *)
Record gives_up (m : mid) (M : mutexes) (k k1 : kernel) : Prop := {
  gu_sys : sys_ok k1;
  gu_cpu : same_cpu k k1;
  gu_waitqs : k1.(waitqs) = k.(waitqs);
  gu_others : forall x, x <> k.(current) -> thr k1 x = thr k x;
  gu_held : (thr k1 k.(current)).(held_mutexes) = sys_slist_find_and_remove m (cur k).(held_mutexes);
  gu_orig : (thr k1 k.(current)).(orig_prio) = (cur k).(orig_prio);
  gu_prio : (thr k1 k.(current)).(prio) =
    if (cur k).(prio) =? (cur k).(orig_prio) then (cur k).(prio)
    else held_mutexes_highest_waiter_prio M (remaining m k) k.(current) (cur k).(orig_prio)
}.

Lemma remaining_adjust m M k : sys_ok k -> in_thread k -> (M m).(owner) = Some k.(current) ->
  (forall t, valid_prio (thr k t).(orig_prio)) ->
  gives_up m M k
    (if negb ((thr (remaining m k) k.(current)).(prio) =? (thr (remaining m k) k.(current)).(orig_prio)) then
       (adjust_owner_prio M m (held_mutexes_highest_waiter_prio M (remaining m k) k.(current)
          (thr (remaining m k) k.(current)).(orig_prio)) (remaining m k)).2
     else remaining m k).
Proof.
  intros Hok [Hisr Hi] Ho Hv.
  assert (Hs : sys_ok (remaining m k)) by (apply invisible_sys; [done|intros th; split; [by split|done]]).
  set (k0 := remaining m k) in *.
  assert (Et : thr k0 k.(current) = set_held_mutexes (sys_slist_find_and_remove m (cur k).(held_mutexes)) (cur k))
    by (unfold k0, remaining; by rewrite thr_eq).
  assert (Hx : forall x, x <> k.(current) -> thr k0 x = thr k x) by (intros; by apply thr_ne).
  rewrite !Et. cbn [prio orig_prio set_held_mutexes].
  destruct (Z.eqb_spec (cur k).(prio) (cur k).(orig_prio)) as [E|E]; simpl negb; cbn iota.
  { split; rewrite ?Et; try done. by rewrite (proj2 (Z.eqb_eq _ _) E). }
  set (p := held_mutexes_highest_waiter_prio M k0 k.(current) (cur k).(orig_prio)).
  assert (Hp : valid_prio p) by (apply highest_waiter_valid; [done|apply Hv]).
  unfold adjust_owner_prio. rewrite Ho.
  assert (Hdone : forall k1, reprio k0 k1 -> (thr k1 k.(current)).(prio) = p ->
    (forall x, x <> k.(current) -> thr k1 x = thr k0 x) -> k1.(waitqs) = k0.(waitqs) -> gives_up m M k k1).
  { intros k1 HR H1 H2 H3. destruct (reprio_fields k0 k1 k.(current) HR) as (_ & _ & F1 & F2 & _).
    split; [apply HR|by destruct (rp_cpu _ _ HR); split|done| |by rewrite F1, Et|by rewrite F2, Et|].
    - intros x Hne. rewrite H2 by done. auto.
    - rewrite H1. by rewrite (proj2 (Z.eqb_neq _ _) E). }
  destruct (Z.eqb_spec (prio (thr k0 k.(current))) p); simpl; [apply Hdone; [by apply reprio_refl|done..]|].
  destruct (reprio_set k0 k.(current) p Hs Hisr Hp Hi) as (H1 & H2 & H3).
  apply Hdone; [done..|]. apply (prio_set_waitqs k0). exact (proj2 Hs Hisr).
Qed.

Lemma quiet_take_over m th : quiet th (set_swap_retval 0 (take_over m th)).
Proof. unfold take_over, hold. rewrite Hpi. by destruct (held_mutexes th). Qed.

Lemma unlock_spec m M k : mutex_ok M k -> in_thread k ->
  let '(r, M', k') := k_mutex_unlock m M k in
  match (M m).(owner) with
  | None => r = - EINVAL /\ M' = M /\ k' = k
  | Some o =>
      if decide (o <> k.(current)) then r = - EPERM /\ M' = M /\ k' = k
      else if 1 <? (M m).(lock_count) then
        r = 0 /\ M' = upd m (K_mutex (M m).(mutex_wait_q) (Some o) ((M m).(lock_count) - 1)) M /\ k' = k
      else r = 0 /\ exists k1, gives_up m M k k1 /\
        match k.(waitqs) (M m).(mutex_wait_q) with
        | [] => M' = upd m (K_mutex (M m).(mutex_wait_q) None 0) M /\ k' = k1
        | t :: rest => M' = upd m (K_mutex (M m).(mutex_wait_q) (Some t) 1) M /\
            passed (M m).(mutex_wait_q) t rest (fun th => set_swap_retval 0 (take_over m th)) k1 k'
        end
  end.
Proof.
  intros Hok Hth. unfold k_mutex_unlock. destruct (owner (M m)) as [o|] eqn:Ho; [|done].
  destruct (Nat.eqb_spec o k.(current)) as [->|Hne]; simpl negb; cbn iota; [|by destruct (decide _)].
  destruct (decide _) as [?|_]; [done|].
  destruct (Z.ltb_spec 1 (lock_count (M m))); [unfold set_lock_count; by rewrite Ho|].
  assert (Hcnt : lock_count (M m) = 1).
  { destruct (mo_count _ _ Hok m) as [Hc ?]. destruct (Z.eq_dec (lock_count (M m)) 0) as [E%Hc|]; [congruence|lia]. }
  rewrite Hpi. cbv zeta. fold (remaining m k).
  pose proof (remaining_adjust m M k (mo_sys _ _ Hok) Hth Ho (mo_orig _ _ Hok)) as HG.
  set (k1 := if negb _ then _ else _) in *.
  pose proof (proj1 (proj1 (gu_sys _ _ _ _ HG))) as Hcore. pose proof (gu_waitqs _ _ _ _ HG) as HW.
  destruct (k.(waitqs) (M m).(mutex_wait_q)) as [|t rest] eqn:Hw.
  - unfold z_unpend_first_thread_locked, _priq_wait_best, z_priq_simple_best. rewrite HW, Hw. simpl. by eauto.
  - rewrite <- HW in Hw.
    destruct (unpend_first_wakes Hdl Hmi k1 _ t rest _ Hcore Hw (quiet_take_over m)) as (k2 & -> & _ & _ & Hk).
    split; [done|]. exists k1. split; [done|]. split; [unfold set_owner; by rewrite Hcnt|].
    by apply wakes_passed; [apply HG|..].
Qed.

(** The new owner of [m] is [no], which alone of the other threads changed. *)
Lemma hand_over_ok m M k k' no : mutex_ok M k -> (M m).(owner) = Some k.(current) -> sys_ok k' ->
  k'.(idle_thread) = k.(idle_thread) -> no <> Some k.(current) -> no <> Some k.(idle_thread) ->
  (forall x, (thr k' x).(held_mutexes) =
     if decide (x = k.(current)) then sys_slist_find_and_remove m (cur k).(held_mutexes)
     else (thr k x).(held_mutexes) ++ (if decide (no = Some x) then [m] else [])) ->
  (forall x, valid_prio (thr k' x).(orig_prio)) ->
  (forall w x, x ∈ k'.(waitqs) w -> x ∈ k.(waitqs) w /\ (w = (M m).(mutex_wait_q) -> no <> Some x /\ no <> None)) ->
  mutex_ok (upd m (K_mutex (M m).(mutex_wait_q) no (if no is Some _ then 1 else 0)) M) k'.
Proof.
  intros [] Ho Hs Hid Hnc Hni Hh Hv Hw.
  assert (Hwq : forall x, (upd m (K_mutex (M m).(mutex_wait_q) no (if no is Some _ then 1 else 0)) M x).(mutex_wait_q) =
    (M x).(mutex_wait_q)) by (intros x; rewrite upd_mutex; case_decide as E; [by rewrite E|done]).
  split; try done.
  - intros x. rewrite upd_mutex. case_decide; [|apply mo_count0]. simpl. by destruct no.
  - intros x. rewrite Hwq, upd_mutex. case_decide as E; simpl; intros Hn;
      (destruct (k'.(waitqs) _) as [|y r] eqn:Eq; [done|]; destruct (Hw (M x).(mutex_wait_q) y) as [H1 H2];
       [rewrite Eq; set_solver +|]).
    + rewrite E in H2. by destruct (H2 eq_refl).
    + rewrite mo_free0 in H1 by done. by apply elem_of_nil in H1.
  - intros x t. rewrite upd_mutex, Hh. specialize (mo_held0 x).
    destruct (decide (t = k.(current))) as [->|Ht]; destruct (decide (x = m)) as [->|Hx]; cbn iota; cbn [owner].
    + rewrite find_and_remove_elem by apply mo_nodup0. naive_solver.
    + rewrite find_and_remove_elem by apply mo_nodup0. rewrite <- mo_held0. naive_solver.
    + rewrite elem_of_app, mo_held0, Ho. case_decide; set_solver.
    + rewrite elem_of_app, mo_held0. case_decide; set_solver.
  - intros t. rewrite Hh. destruct (decide (t = k.(current))) as [->|Ht]; [apply find_and_remove_nodup, mo_nodup0|].
    apply NoDup_app. split; [apply mo_nodup0|]. split; [|case_decide; [apply NoDup_singleton|constructor]].
    intros x Hx. apply mo_held0 in Hx. case_decide; [|by apply not_elem_of_nil].
    rewrite list_elem_of_singleton. intros ->. congruence.
  - intros x t. rewrite Hwq, upd_mutex. intros [H1 H2]%Hw. case_decide as E; [|by apply mo_self0].
    rewrite E in H2. by apply H2.
  - intros x y. rewrite !Hwq. apply mo_queue0.
  - intros x t. rewrite upd_mutex, Hid. case_decide; [simpl; congruence|apply mo_idle0].
Qed.

Lemma unlock_ok m M k r M' k' : mutex_ok M k -> in_thread k -> k_mutex_unlock m M k = (r, M', k') -> mutex_ok M' k'.
Proof.
  intros Hok Hth E. pose proof (unlock_spec m M k Hok Hth) as HS. rewrite E in HS.
  destruct (owner (M m)) as [o|] eqn:Ho; [|by destruct HS as (_ & -> & ->)].
  destruct (decide _) as [?|Hd]; [by destruct HS as (_ & -> & ->)|].
  destruct (Z.ltb_spec 1 (lock_count (M m))).
  { destruct HS as (_ & -> & ->). destruct (mo_count _ _ Hok m). apply recount_ok; [done..|lia]. }
  apply dec_stable in Hd as ->. destruct HS as (_ & k1 & [G1 G2 G3 G4 G5 G6 _] & HS).
  destruct (k.(waitqs) (M m).(mutex_wait_q)) as [|t rest] eqn:Hw.
  - destruct HS as [-> ->]. apply (hand_over_ok m M k k1 None); try done; [apply G2| | |].
    + intros x. case_decide as Ex; [by rewrite Ex|]. rewrite G4 by done. by rewrite app_nil_r.
    + intros x. destruct (decide (x = k.(current))) as [->|]; [rewrite G6|rewrite G4 by done]; apply Hok.
    + intros w x. rewrite G3. intros Hx. split; [done|]. intros ->. rewrite Hw in Hx. by apply elem_of_nil in Hx.
  - destruct HS as [-> [P1 P2 P3 P4 P5 P6 P7 _ _ _]]. pose proof (cpu_current _ _ G2) as Hcur.
    assert (Hnt : t <> k.(current)).
    { eapply waiter_not_current; [apply Hok|apply Hth|exact Hw]. }
    assert (Hnd : t ∉ rest).
    { pose proof (waitq_nodup _ _ (M m).(mutex_wait_q) (proj1 (proj1 (mo_sys _ _ Hok)))) as Hn.
      rewrite Hw in Hn. by apply NoDup_cons in Hn as [? _]. }
    destruct (P6 ltac:(congruence)) as [v Hc']. rewrite Hcur in Hc', P5. unfold cur in Hc'. rewrite Hcur in Hc'.
    destruct (let_through_fields (fun th => set_swap_retval 0 (take_over m th)) (thr k1 t)) as (_ & _ & _ & _ & F1 & F2 & _).
    rewrite <- P4, G4 in F1, F2 by done. cbn [set_swap_retval held_mutexes orig_prio] in F1, F2.
    unfold take_over in F1, F2. rewrite Hpi in F1, F2. cbn [set_mutex_pended_on held_mutexes orig_prio] in F1, F2.
    destruct (hold_fields m (released (thr k t))) as [Hh Hv].
    apply (hand_over_ok m M k k' (Some t)); try done; [rewrite P7; apply G2|congruence| | | |].
    + intros [= ->]. destruct (waitq_head _ _ _ _ _ (proj1 (proj1 (mo_sys _ _ Hok))) Hw) as [Hp _].
      by apply (pended_not_idle _ _ _ _ (proj1 (proj1 (mo_sys _ _ Hok))) Hp).
    + intros x. destruct (decide (x = k.(current))) as [->|Hx]; [by rewrite Hc'|].
      destruct (decide (Some t = Some x)) as [[= ->]|Hne]; [by rewrite F1, Hh|].
      rewrite P5, G4, app_nil_r by congruence. done.
    + intros x. destruct (decide (x = k.(current))) as [->|Hx]; [rewrite Hc'; simpl; rewrite G6; apply Hok|].
      destruct (decide (x = t)) as [->|Hne].
      * rewrite F2. apply Hv; [apply (ok_prio _ _ (proj1 (proj1 (mo_sys _ _ Hok))))|apply Hok].
      * rewrite P5, G4 by congruence. apply Hok.
    + intros w x. destruct (decide (w = (M m).(mutex_wait_q))) as [->|Hne].
      * rewrite P2. intros Hx. rewrite Hw. split; [set_solver|]. intros _. split; [|done]. intros [= ->]. done.
      * rewrite P3, G3 by done. done.
Qed.

Lemma mutex_step_ok x y : mutex_step x y -> mutex_ok x.1 x.2 -> mutex_ok y.1 y.2.
Proof.
  intros [m timeout M k o rs M' k' Hth Hn E Hp|m rs M k Hth|m M k r M' k' Hth E|M k k' (Hs & Hi & Hw & Hx)] Hok; simpl in *.
  - by eapply lock_ok.
  - by apply resume_ok.
  - by eapply unlock_ok.
  - apply (mutex_frame M k); [done| |done|intros; left; auto|done].
    eapply sched_step_sys; [done..|apply Hok].
Qed.

Lemma mutex_step_pair M k M' k' : mutex_step (M, k) (M', k') -> mutex_ok M k -> mutex_ok M' k'.
Proof. apply (mutex_step_ok (M, k) (M', k')). Qed.

(** Mutexes nobody has locked yet. *)
Lemma free_mutexes_ok (q : mid -> wqid) k : sys_ok k -> (forall m m', q m = q m' -> m = m') ->
  (forall m, k.(waitqs) (q m) = []) ->
  (forall t, (thr k t).(held_mutexes) = [] /\ valid_prio (thr k t).(orig_prio)) ->
  mutex_ok (fun m => K_mutex (q m) None 0) k.
Proof.
  intros Hs Hq Hw Ht. split; simpl; try done.
  - intros m t. destruct (Ht t) as [-> _]. split; [by intros ?%elem_of_nil|done].
  - intros t. destruct (Ht t) as [-> _]. constructor.
  - intros t. apply Ht.
Qed.

End mutex.


(** C9. Locking.  A free mutex, or one the caller owns already, is taken at once:
    the count goes up, and a first acquisition adds the mutex to the caller's held
    list and records the caller's own priority if it held none.  Otherwise the
    call fails with -EBUSY when it may not wait, or blocks: the caller is queued by
    priority, and every thread on the chain of owners (the owner, the owner of the
    mutex that one waits for, and so on for up to 16 of them) gets at least the
    caller's priority, limited by the ceiling; no other priority changes. *)
Theorem mutex_lock_inherits `{Cfg : Config} {RQ : RunQueue} {TB : TimeoutBackend}
    (m : mid) (timeout : Z) (M : mutexes) (k : kernel) :
  CONFIG_SCHED_DEADLINE = false -> CONFIG_NUM_METAIRQ_PRIORITIES <= 0 -> Z_MUTEX_PI_ENABLED = true ->
  mutex_ok M k -> in_thread k ->
  let '(o, rs, M', k') := k_mutex_lock m timeout M k in
  if ((M m).(lock_count) =? 0) || bool_decide ((M m).(owner) = Some k.(current)) then
    o = Returns 0 /\ M' = upd m (K_mutex (M m).(mutex_wait_q) (Some k.(current)) (u32 ((M m).(lock_count) + 1))) M /\
    k' = if u32 ((M m).(lock_count) + 1) =? 1 then on_thread k.(current) (hold m) k else k
  else if timeout =? K_NO_WAIT then o = Returns (- EBUSY) /\ M' = M /\ k' = k
  else M' = M /\ (CONFIG_MUTEX_DEADLOCK_DETECT = false -> o = Blocks) /\
    exists own, (M m).(owner) = Some own /\ own <> k.(current) /\
      (o = Panics \/ o = Blocks /\ lock_blocks m own M k k').
Proof. intros Hdl Hmi Hpi. by apply lock_spec. Qed.

(** C10. Unlocking.  A mutex nobody owns gives -EINVAL, somebody else's -EPERM, and
    nothing changes.  A nested unlock lowers the count.  The last one takes the
    mutex off the caller's held list, lowers a boosted caller to what the waiters
    of its other mutexes justify (never below its own priority), and passes the
    mutex to the first waiter, whose lock returns 0; with no waiter the mutex is
    free. *)
Theorem mutex_unlock_hands_over `{Cfg : Config} {RQ : RunQueue} {TB : TimeoutBackend}
    (m : mid) (M : mutexes) (k : kernel) :
  CONFIG_SCHED_DEADLINE = false -> CONFIG_NUM_METAIRQ_PRIORITIES <= 0 -> Z_MUTEX_PI_ENABLED = true ->
  mutex_ok M k -> in_thread k ->
  let '(r, M', k') := k_mutex_unlock m M k in
  match (M m).(owner) with
  | None => r = - EINVAL /\ M' = M /\ k' = k
  | Some o =>
      if decide (o <> k.(current)) then r = - EPERM /\ M' = M /\ k' = k
      else if 1 <? (M m).(lock_count) then
        r = 0 /\ M' = upd m (K_mutex (M m).(mutex_wait_q) (Some o) ((M m).(lock_count) - 1)) M /\ k' = k
      else r = 0 /\ exists k1, gives_up m M k k1 /\
        match k.(waitqs) (M m).(mutex_wait_q) with
        | [] => M' = upd m (K_mutex (M m).(mutex_wait_q) None 0) M /\ k' = k1
        | t :: rest => M' = upd m (K_mutex (M m).(mutex_wait_q) (Some t) 1) M /\
            passed (M m).(mutex_wait_q) t rest (fun th => set_swap_retval 0 (take_over m th)) k1 k'
        end
  end.
Proof. intros Hdl Hmi Hpi. by apply unlock_spec. Qed.

(** ** Concrete runs: thread 1 locks mutex 0, thread 2 waits for it *)

#[local] Existing Instance example_config.
#[local] Existing Instance simple_RunQueue.
#[local] Existing Instance delta_list_backend.

Definition example_mutexes : mutexes := fun m => K_mutex (20 + m)%nat None 0.

Lemma example_mutexes_ok : mutex_ok example_mutexes example_running.
Proof.
  apply free_mutexes_ok; [apply example_running_ok|lia|intros m; vm_compute; reflexivity|].
  intros [|[|[|[|t]]]]; (split; [vm_compute; reflexivity|vm_compute; split; discriminate]).
Qed.

Definition locked_once := k_mutex_lock 0 K_FOREVER example_mutexes example_running.

Lemma example_in_thread : in_thread example_running.
Proof. split; vm_compute; [reflexivity|discriminate]. Qed.

Lemma locked_once_eq : k_mutex_lock 0 K_FOREVER example_mutexes example_running =
  (locked_once.1.1.1, locked_once.1.1.2, locked_once.1.2, locked_once.2).
Proof. unfold locked_once. apply quad_eta. Qed.

Lemma locked_once_step : mutex_step (example_mutexes, example_running) (locked_once.1.2, locked_once.2).
Proof. eapply ms_lock; [apply example_in_thread|reflexivity|apply locked_once_eq|vm_compute; discriminate]. Qed.

Lemma locked_once_ok : mutex_ok locked_once.1.2 locked_once.2.
Proof. exact (mutex_step_pair eq_refl ltac:(discriminate) eq_refl _ _ _ _ locked_once_step example_mutexes_ok). Qed.


(** Thread 2 becomes ready, preempts thread 1 and tries to lock the mutex. *)
Definition contested : kernel := k_wakeup 2%nat locked_once.2.

Lemma contested_step : mutex_step (locked_once.1.2, locked_once.2) (locked_once.1.2, contested).
Proof.
  apply ms_other. split; [apply st_wakeup; vm_compute; discriminate|]. split; [vm_compute; reflexivity|]. split.
  - intros m x. vm_compute. auto.
  - intros [|[|[|[|t]]]]; vm_compute; split; reflexivity.
Qed.

Lemma contested_ok : mutex_ok locked_once.1.2 contested.
Proof. exact (mutex_step_pair eq_refl ltac:(discriminate) eq_refl _ _ _ _ contested_step locked_once_ok). Qed.

Lemma contested_in_thread : in_thread contested.
Proof. split; vm_compute; [reflexivity|discriminate]. Qed.

Definition inherited := k_mutex_lock 0 K_FOREVER locked_once.1.2 contested.

Lemma inherited_eq : k_mutex_lock 0 K_FOREVER locked_once.1.2 contested =
  (inherited.1.1.1, inherited.1.1.2, inherited.1.2, inherited.2).
Proof. unfold inherited. apply quad_eta. Qed.

Lemma mutex_lock_inherits_witness :
  contested.(current) = 2%nat /\ inherited.1.1.1 = Blocks /\ (thr inherited.2 1%nat).(prio) = 3.
Proof.
  pose proof (mutex_lock_inherits 0 K_FOREVER locked_once.1.2 contested eq_refl ltac:(discriminate) eq_refl
    contested_ok contested_in_thread) as H. rewrite inherited_eq in H.
  assert (Hl : ((lock_count (locked_once.1.2 0%nat) =? 0) ||
    bool_decide (owner (locked_once.1.2 0%nat) = Some contested.(current))) = false) by (vm_compute; reflexivity).
  rewrite Hl in H. change (K_FOREVER =? K_NO_WAIT) with false in H. destruct H as (_ & H & _).
  split; [vm_compute; reflexivity|]. split; [exact (H eq_refl)|vm_compute; reflexivity].
Defined.

Lemma inherited_ok : mutex_ok inherited.1.2 inherited.2.
Proof.
  eapply (lock_ok (Cfg := example_config) eq_refl ltac:(discriminate) eq_refl); [exact contested_ok|exact contested_in_thread| |
    exact inherited_eq|]; vm_compute; [reflexivity|discriminate].
Qed.

Lemma inherited_in_thread : in_thread inherited.2.
Proof. split; vm_compute; [reflexivity|discriminate]. Qed.

Definition handed_over := k_mutex_unlock 0 inherited.1.2 inherited.2.

Lemma handed_over_eq : k_mutex_unlock 0 inherited.1.2 inherited.2 =
  (handed_over.1.1, handed_over.1.2, handed_over.2).
Proof. unfold handed_over. apply triple_eta. Qed.

(** Thread 1 gives the mutex to thread 2 and falls back to its own priority. *)
Lemma mutex_unlock_hands_over_witness :
  inherited.2.(current) = 1%nat /\ handed_over.1.1 = 0 /\ handed_over.2.(current) = 2%nat /\
  (handed_over.1.2 0%nat).(owner) = Some 2%nat /\ (thr handed_over.2 1%nat).(prio) = 5.
Proof.
  pose proof (mutex_unlock_hands_over 0 inherited.1.2 inherited.2 eq_refl ltac:(discriminate) eq_refl
    inherited_ok inherited_in_thread) as H. rewrite handed_over_eq in H.
  assert (Ho : owner (inherited.1.2 0%nat) = Some 1%nat) by (vm_compute; reflexivity). rewrite Ho in H.
  assert (Hc : inherited.2.(current) = 1%nat) by (vm_compute; reflexivity). rewrite Hc in H.
  destruct (decide (1%nat <> 1%nat)) as [Hn|_]; [destruct (Hn eq_refl)|].
  assert (Hl : (1 <? lock_count (inherited.1.2 0%nat)) = false) by (vm_compute; reflexivity). rewrite Hl in H.
  destruct H as [H _]. split; [exact Hc|]. split; [exact H|].
  split; [vm_compute; reflexivity|]. split; vm_compute; reflexivity.
Defined.
