(* ===== verification/Condvar.v ===== *)
(** Condition variables: kernel/condvar.c, over the mutexes of Mutex.v.

    A condition variable is its wait queue. *)

From S2P Require Import Prelude Thread PriorityQ Timeout TimeoutList.
From S2P Require Import Sched SchedOk SchedSpec ThreadApi ThreadSpec SchedProps Blocking Mutex.

#[local] Open Scope Z_scope.

Section condvar.
Context `{Cfg : Config} {RQ : RunQueue} {TB : TimeoutBackend}.

Definition k_condvar_init (cv : wqid) (k : kernel) : Z * kernel := (0, on_waitq cv (fun _ => []) k).

Definition k_condvar_signal (cv : wqid) (k : kernel) : Z * kernel :=
  match z_sched_wake cv 0 0 k with
  | (true, k1) => (0, reschedule k1)
  | (false, k1) => (0, k1)
  end.

Definition k_condvar_broadcast (cv : wqid) (k : kernel) : Z * kernel :=
  let '(n, k1) := wake_all cv 0 0 k in
  (Z.of_nat n, if (n =? 0)%nat then k1 else reschedule k1).

(** The mutex is unlocked with the condition variable's spin lock held, that is
    with interrupts locked; [z_pend_curr] releases it. *)
Definition k_condvar_wait (cv : wqid) (m : mid) (timeout : Z) (M : mutexes) (k : kernel)
    : outcome * mutexes * kernel :=
  if timeout =? K_NO_WAIT then (Returns (- EAGAIN), M, k)
  else
    let '(_, M1, k1) := k_mutex_unlock m M (with_irq_locked true k) in
    let '(ret, k2) := z_pend_curr cv timeout (with_irq_locked k.(irq_locked) k1) in (ret, M1, k2).

(** The rest of a call that blocked: the value to return, and the outcome of
    locking the mutex again, after which it is returned. *)
Definition k_condvar_wait_resume (m : mid) (M : mutexes) (k : kernel) : Z * outcome * bool * mutexes * kernel :=
  let ret := (cur k).(swap_retval) in
  let '(o, rs, M1, k1) := k_mutex_lock m K_FOREVER M k in (ret, o, rs, M1, k1).

Context (Hdl : CONFIG_SCHED_DEADLINE = false) (Hmi : CONFIG_NUM_METAIRQ_PRIORITIES <= 0).

Lemma irq_sys b k : sys_ok k -> sys_ok (with_irq_locked b k).
Proof. by apply sched_step_sys; [..|constructor]. Qed.

Lemma irq_mutex_ok b M k : mutex_ok M k -> mutex_ok M (with_irq_locked b k).
Proof. intros Hok. apply (mutex_frame M k); [done|apply irq_sys, Hok|done|auto|done]. Qed.

Lemma irq_in_thread b k : in_thread k -> in_thread (with_irq_locked b k).
Proof. done. Qed.

Context (Hpi : Z_MUTEX_PI_ENABLED = true).

(** Unlocking with interrupts locked: the caller still runs afterwards. *)
Lemma unlock_locked m M k r M1 k1 : mutex_ok M k -> in_thread k -> k.(irq_locked) = true ->
  (M m).(owner) = Some k.(current) -> (M m).(lock_count) = 1 -> k_mutex_unlock m M k = (r, M1, k1) ->
  k1.(current) = k.(current) /\ in_thread k1 /\ (M1 m).(owner) = head (k.(waitqs) (M m).(mutex_wait_q)) /\
  (forall x, (M1 x).(mutex_wait_q) = (M x).(mutex_wait_q)) /\
  (forall w, w <> (M m).(mutex_wait_q) -> k1.(waitqs) w = k.(waitqs) w) /\
  (thr k1 k.(current)).(held_mutexes) = sys_slist_find_and_remove m (cur k).(held_mutexes).
Proof.
  intros Hok Hth Hirq Ho Hc E. pose proof (unlock_spec Hdl Hmi Hpi m M k Hok Hth) as HS. rewrite E, Ho, Hc in HS.
  destruct (decide _) as [?|_]; [done|]. destruct HS as (_ & k0 & HG & HS). destruct HG as [G1 G2 G3 G4 G5 _ _].
  assert (Hwq : forall o n x, (upd m (K_mutex (M m).(mutex_wait_q) o n) M x).(mutex_wait_q) = (M x).(mutex_wait_q))
    by (intros o n x; rewrite upd_mutex; case_decide as Ex; [by rewrite Ex|done]).
  destruct Hth as [Hisr Hi]. pose proof (cpu_current _ _ G2) as Hcur.
  destruct (k.(waitqs) _) as [|t r'] eqn:Hw.
  - destruct HS as [-> ->]. split; [done|]. split; [|split; [by rewrite upd_mutex, decide_True|]].
    + split; [by rewrite (cpu_isr _ _ G2)|]. by rewrite Hcur, (cpu_idle _ _ G2).
    + split; [done|]. split; [|done]. intros w _. by rewrite G3.
  - destruct HS as [-> [P1 P2 P3 P4 P5 P6 P7 P8 P9 P10]].
    rewrite (P10 ltac:(by rewrite (cpu_irq _ _ G2))). split; [done|].
    split; [|split; [by rewrite upd_mutex, decide_True|]].
    + split; [by rewrite P8, (cpu_isr _ _ G2)|].
      rewrite (P10 ltac:(by rewrite (cpu_irq _ _ G2))). by rewrite Hcur, P7, (cpu_idle _ _ G2).
    + split; [done|]. split; [intros w Hne; by rewrite P3, G3|].
      rewrite Hcur in P6. destruct P6 as [v Hv].
      * by eapply waiter_not_current; [apply Hok|..].
      * rewrite Hv. unfold cur at 1. rewrite Hcur. done.
Qed.

End condvar.

(** C26. Waiting on a condition variable releases the mutex and queues the caller in
    one step.  A call that may not wait returns -EAGAIN and keeps the mutex.
    Otherwise, when the owner of a mutex locked once waits, no other thread runs
    between the unlock and the wait: in the state the call leaves the caller is
    queued on the condition variable, does not hold the mutex, and the mutex
    belongs to its first waiter or is free, so a thread that locks the mutex and
    signals finds the caller waiting. *)
Theorem condvar_wait_atomic `{Cfg : Config} {RQ : RunQueue} {TB : TimeoutBackend}
    (cv : wqid) (m : mid) (timeout : Z) (M : mutexes) (k : kernel) :
  CONFIG_SCHED_DEADLINE = false -> CONFIG_NUM_METAIRQ_PRIORITIES <= 0 -> Z_MUTEX_PI_ENABLED = true ->
  mutex_ok M k -> in_thread k -> (M m).(owner) = Some k.(current) -> (M m).(lock_count) = 1 ->
  (forall x, (M x).(mutex_wait_q) <> cv) ->
  let '(o, M', k') := k_condvar_wait cv m timeout M k in
  if timeout =? K_NO_WAIT then o = Returns (- EAGAIN) /\ M' = M /\ k' = k
  else o = Blocks /\ mutex_ok M' k' /\
    (forall x, x ∈ k'.(waitqs) cv <-> x = k.(current) \/ x ∈ k.(waitqs) cv) /\
    (M' m).(owner) = head (k.(waitqs) (M m).(mutex_wait_q)) /\
    (m ∉ (thr k' k.(current)).(held_mutexes)) /\ k'.(current) <> k.(current).
Proof.
  intros Hdl Hmi Hpi Hok Hth Ho Hc Hcv. unfold k_condvar_wait. destruct (timeout =? K_NO_WAIT); [done|].
  destruct (k_mutex_unlock m M (with_irq_locked true k)) as [[r M1] k1] eqn:E.
  pose proof (irq_mutex_ok Hdl Hmi true M k Hok) as Hokl. pose proof (irq_in_thread true k Hth) as Hthl.
  pose proof (unlock_ok Hdl Hmi Hpi m M _ r M1 k1 Hokl Hthl E) as Hok1.
  destruct (unlock_locked Hdl Hmi Hpi m M _ r M1 k1 Hokl Hthl eq_refl Ho Hc E) as (Hcur & [Hi1 Hi2] & Hown & Hwq & Hq & Hh).
  change (current (with_irq_locked true k)) with k.(current) in *.
  set (k2 := with_irq_locked k.(irq_locked) k1).
  pose proof (irq_mutex_ok Hdl Hmi k.(irq_locked) M1 k1 Hok1) as Hok2. fold k2 in Hok2.
  destruct (pend_waits Hdl Hmi k2 cv timeout (mo_sys _ _ Hok2) Hi1 Hi2) as (k3 & E3 & [W1 W2 W3 W4 W5 W6 W7]).
  rewrite E3. change (current k2) with k1.(current) in *. rewrite Hcur in *.
  assert (Hf : forall x, (thr k3 x).(held_mutexes) = (thr k2 x).(held_mutexes) /\
    (thr k3 x).(orig_prio) = (thr k2 x).(orig_prio)).
  { intros x. destruct (decide (x = k.(current))) as [->|Hx]; [rewrite W4|by rewrite W5].
    unfold cur. change (current k2) with k1.(current). by rewrite Hcur. }
  split; [done|]. split; [|split; [|split; [done|split]]].
  - apply (mutex_frame M1 k2); [done..| |done]. intros x t Ht. left. rewrite W3 in Ht; [done|]. rewrite Hwq. auto.
  - intros x. rewrite W2, elem_of_add. change (waitqs k2 cv) with (k1.(waitqs) cv). rewrite Hq; [done|auto].
  - destruct (Hf k.(current)) as [-> _]. change (thr k2 k.(current)) with (thr k1 k.(current)). rewrite Hh.
    rewrite find_and_remove_elem; [naive_solver|exact (mo_nodup _ _ Hokl k.(current))].
  - intros Heq. pose proof (proj2 W1 ltac:(by rewrite W7)) as Hr. unfold cur in Hr. rewrite Heq, W4 in Hr.
    apply ready_not_pending in Hr.
    destruct (mark_pending_bits (z_mark_thread_as_not_queued (cur k2))) as (_ & Hp & _).
    change (z_is_thread_pending (z_mark_thread_as_pending (z_mark_thread_as_not_queued (cur k2))) = false) in Hr.
    congruence.
Qed.

(** Signalling.  [k_condvar_signal] wakes the first waiter, whose wait will
    return 0, and leaves the others; [k_condvar_broadcast] wakes all of them and
    returns how many there were.  Both do nothing when nobody waits. *)
Theorem condvar_signal_broadcast `{Cfg : Config} {RQ : RunQueue} {TB : TimeoutBackend} (cv : wqid) (k : kernel) :
  CONFIG_SCHED_DEADLINE = false -> CONFIG_NUM_METAIRQ_PRIORITIES <= 0 -> sys_ok k ->
  match k.(waitqs) cv with
  | [] => k_condvar_signal cv k = (0, k) /\ k_condvar_broadcast cv k = (0, k)
  | t :: r =>
      (exists k', k_condvar_signal cv k = (0, k') /\ handed cv t r 0 0 k k') /\
      (exists k', k_condvar_broadcast cv k = (Z.of_nat (S (length r)), k') /\ handed_all cv 0 0 k k')
  end.
Proof.
  intros Hdl Hmi Hok. unfold k_condvar_signal, k_condvar_broadcast.
  destruct (wake_all_ok Hdl Hmi k cv 0 0 Hok) as (k1 & E & Hh). rewrite E.
  destruct (k.(waitqs) cv) as [|t r] eqn:Hw.
  - rewrite (wake_nobody Hdl Hmi) by done. split; [done|]. unfold wake_all in E. rewrite Hw in E. injection E as <-. done.
  - destruct (wake_handed Hdl Hmi k cv t r 0 0 Hok Hw) as (k2 & -> & Hh2). split; [by eauto|]. simpl. eauto.
Qed.

(** ** Concrete runs *)

#[local] Existing Instance example_config.
#[local] Existing Instance simple_RunQueue.
#[local] Existing Instance delta_list_backend.

Definition cond_waits := k_condvar_wait 7%nat 0 K_FOREVER locked_once.1.2 locked_once.2.

Lemma cond_waits_eq : k_condvar_wait 7%nat 0 K_FOREVER locked_once.1.2 locked_once.2 =
  (cond_waits.1.1, cond_waits.1.2, cond_waits.2).
Proof. unfold cond_waits. apply triple_eta. Qed.

Lemma locked_once_in_thread : in_thread locked_once.2.
Proof. split; vm_compute; [reflexivity|discriminate]. Qed.

Lemma condvar_wait_atomic_witness : cond_waits.1.1 = Blocks /\ (cond_waits.1.2 0%nat).(owner) = None.
Proof.
  pose proof (condvar_wait_atomic 7%nat 0 K_FOREVER locked_once.1.2 locked_once.2 eq_refl ltac:(discriminate) eq_refl
    locked_once_ok locked_once_in_thread) as H.
  rewrite cond_waits_eq in H. change (K_FOREVER =? K_NO_WAIT) with false in H.
  destruct H as (H1 & _ & _ & H2 & _); [vm_compute; reflexivity|vm_compute; reflexivity| |].
  - intros [|x] Hx; vm_compute in Hx; discriminate Hx.
  - split; [exact H1|]. rewrite H2. vm_compute. reflexivity.
Defined.

Lemma condvar_signal_broadcast_witness : exists k',
  k_condvar_broadcast 7%nat example_waiting = (1, k') /\ k'.(waitqs) 7%nat = [].
Proof.
  pose proof (condvar_signal_broadcast 7%nat example_waiting eq_refl ltac:(discriminate) example_waiting_ok) as H.
  assert (Hw : example_waiting.(waitqs) 7%nat = [1%nat]) by (vm_compute; reflexivity).
  rewrite Hw in H. destruct H as [_ (k' & H1 & H2)]. exists k'. exact (conj H1 (ha_queue _ _ _ _ _ H2)).
Defined.
