(* ===== verification/Ring.v ===== *)
(** Circular sequences of slots, and copies of bytes: what the message queue, the
    ring buffer and the pipe share. *)

From S2P Require Import Prelude.
From Stdlib Require Import PeanoNat.

#[local] Open Scope nat_scope.

(** The [n] slots from slot [r] on, of [max] slots. *)
Definition ring (max r n : nat) : list nat := map (fun i => (r + i) mod max) (seq 0 n).

Section ring.
Context (max : nat) (Hmax : 0 < max).

Lemma ring_length r n : length (ring max r n) = n.
Proof. unfold ring. by rewrite length_map, length_seq. Qed.

Lemma ring_bound r n j : j ∈ ring max r n -> j < max.
Proof. intros (i & -> & _)%list_elem_of_fmap. apply Nat.mod_upper_bound. lia. Qed.

Lemma ring_snoc r n : ring max r (S n) = ring max r n ++ [(r + n) mod max].
Proof. unfold ring. by rewrite seq_S, map_app. Qed.

Lemma ring_shift r n : ring max (r mod max) n = ring max r n.
Proof. unfold ring. apply map_ext. intros i. by rewrite Nat.Div0.add_mod_idemp_l. Qed.

Lemma ring_cons r n : ring max r (S n) = r mod max :: ring max (S r) n.
Proof.
  unfold ring. simpl. rewrite Nat.add_0_r. f_equal. rewrite <- seq_shift, map_map.
  apply map_ext. intros i. f_equal. lia.
Qed.

(** The slot after the last one is none of them, unless the ring is full. *)
Lemma ring_fresh r n : n < max -> (r + n) mod max ∉ ring max r n.
Proof.
  intros Hn (i & E & Hi)%list_elem_of_fmap. apply elem_of_seq in Hi.
  assert (H : (r + n) mod max = (r + i) mod max) by done.
  assert ((r + n) / max = (r + i) / max \/ (r + n) / max = S ((r + i) / max)) as Hq.
  { assert ((r + i) / max <= (r + n) / max) by (apply Nat.Div0.div_le_mono; lia).
    assert ((r + n) / max <= (r + i + max) / max) by (apply Nat.Div0.div_le_mono; lia).
    replace (r + i + max) with (r + i + 1 * max) in * by lia. rewrite Nat.div_add in * by lia. lia. }
  pose proof (Nat.div_mod_eq (r + n) max). pose proof (Nat.div_mod_eq (r + i) max). nia.
Qed.

(** The slot before the first one likewise. *)
Lemma ring_fresh_front r n : n < max -> r < max -> (r + max - 1) mod max ∉ ring max r n.
Proof.
  intros Hn Hr (i & E & Hi)%list_elem_of_fmap. apply elem_of_seq in Hi.
  destruct (decide (r = 0)) as [->|].
  - replace (0 + max - 1) with (max - 1) in E by lia. rewrite !Nat.mod_small in E by lia. lia.
  - replace (r + max - 1) with ((r - 1) + 1 * max) in E by lia. rewrite Nat.Div0.mod_add in E.
    rewrite (Nat.mod_small (r - 1)) in E by lia.
    destruct (decide (r + i < max)).
    + rewrite Nat.mod_small in E by lia. lia.
    + replace (r + i) with ((r + i - max) + 1 * max) in E by lia. rewrite Nat.Div0.mod_add in E.
      rewrite Nat.mod_small in E by lia. lia.
Qed.

Lemma ring_front r n : r < max -> ring max ((r + max - 1) mod max) (S n) = (r + max - 1) mod max :: ring max r n.
Proof.
  intros Hr. rewrite ring_cons, Nat.Div0.mod_mod. f_equal.
  rewrite <- (ring_shift (S _)). f_equal.
  replace (S ((r + max - 1) mod max)) with ((r + max - 1) mod max + 1) by lia.
  rewrite Nat.Div0.add_mod_idemp_l. replace (r + max - 1 + 1) with (r + 1 * max) by lia.
  rewrite Nat.Div0.mod_add. apply Nat.mod_small. lia.
Qed.
End ring.

#[local] Open Scope Z_scope.

(** Bytes of memory. *)
Definition memory := Z -> Z.
Definition bytes (m : memory) (a : Z) (n : nat) : list Z := map (fun i => m (a + Z.of_nat i)) (seq 0 n).
Definition memcpy (dst src n : Z) (m : memory) : memory :=
  fun x => if (dst <=? x) && (x <? dst + n) then m (src + (x - dst)) else m x.

Definition apart (a n b l : Z) : Prop := a + n <= b \/ b + l <= a.

Lemma bytes_length m a n : length (bytes m a n) = n.
Proof. unfold bytes. by rewrite length_map, length_seq. Qed.

Lemma bytes_ext m m' a n : (forall x, a <= x < a + Z.of_nat n -> m x = m' x) -> bytes m a n = bytes m' a n.
Proof.
  intros H. unfold bytes. apply map_ext_in. intros i Hi%in_seq. apply H. lia.
Qed.

Lemma bytes_S m a n : bytes m a (S n) = m a :: bytes m (a + 1) n.
Proof.
  unfold bytes. simpl. rewrite Z.add_0_r. f_equal. rewrite <- seq_shift, map_map. apply map_ext. intros i. f_equal. lia.
Qed.

Lemma bytes_app m a n k : bytes m a (n + k) = bytes m a n ++ bytes m (a + Z.of_nat n) k.
Proof.
  revert a. induction n as [|n IH]; intros a; [by rewrite Z.add_0_r|].
  cbn [Nat.add]. rewrite !bytes_S, IH. cbn [app]. f_equal. f_equal. f_equal. lia.
Qed.

Lemma memcpy_out dst src n m x : ~ (dst <= x < dst + n) -> memcpy dst src n m x = m x.
Proof. unfold memcpy. intros. destruct (Z.leb_spec dst x), (Z.ltb_spec x (dst + n)); done || lia. Qed.

Lemma bytes_memcpy dst src n m : bytes (memcpy dst src (Z.of_nat n) m) dst n = bytes m src n.
Proof.
  unfold bytes. apply map_ext_in. intros i Hi%in_seq. unfold memcpy.
  rewrite (proj2 (Z.leb_le _ _)), (proj2 (Z.ltb_lt _ _)) by lia. simpl. f_equal. lia.
Qed.

Lemma bytes_apart dst src n m a l : apart dst n a (Z.of_nat l) -> bytes (memcpy dst src n m) a l = bytes m a l.
Proof. intros H. apply bytes_ext. intros x Hx. apply memcpy_out. unfold apart in H. lia. Qed.
