(* ===== verification/HeapMem.v ===== *)
(** The memory of a heap: lib/heap/heap.h.

    Chunks are headed by two fields of 2 or 4 bytes that a free chunk follows with its
    links; the fields are read and written in the bytes of the buffer.  A pointer has
    4 bytes. *)

From S2P Require Import Prelude MathExtras Ring.

#[local] Open Scope Z_scope.

(** The search of an allocation looks at one chunk at least. *)
Class HeapConfig := {
  CONFIG_SYS_HEAP_HARDENING_LEVEL : Z;
  CONFIG_SYS_HEAP_ALLOC_LOOPS : nat;
  CONFIG_SYS_HEAP_SMALL_ONLY : bool;
  CONFIG_SYS_HEAP_BIG_ONLY : bool;
  CONFIG_SYS_HEAP_RUNTIME_STATS : bool;
  CONFIG_SYS_HEAP_CANARIES_RANDOM : bool
}.

(** ** Fields of several bytes, the lowest first *)

Fixpoint ld (n : nat) (m : memory) (a : Z) : Z :=
  match n with O => 0 | S n => m a + 2 ^ 8 * ld n m (a + 1) end.
Fixpoint st (n : nat) (a v : Z) (m : memory) : memory :=
  match n with O => m | S n => st n (a + 1) (v .>> 8) (upd a (u8 v) m) end.

Lemma st_ne n a v m x : x < a \/ a + Z.of_nat n <= x -> st n a v m x = m x.
Proof.
  revert a v m. induction n as [|n IH]; intros a v m Hx; [done|]. cbn [st]. rewrite IH by lia. apply upd_ne. lia.
Qed.

Lemma ld_ext n m m' a : (forall x, a <= x < a + Z.of_nat n -> m' x = m x) -> ld n m' a = ld n m a.
Proof.
  revert a. induction n as [|n IH]; intros a Hm; [done|]. cbn [ld]. rewrite Hm by lia. rewrite IH; [done|]. intros. apply Hm. lia.
Qed.

Lemma ld_st_ne n n' a v m b : b + Z.of_nat n' <= a \/ a + Z.of_nat n <= b -> ld n' (st n a v m) b = ld n' m b.
Proof. intros H. apply ld_ext. intros x Hx. apply st_ne. lia. Qed.

Lemma ld_st_eq n a v m : 0 <= v < 2 ^ (8 * Z.of_nat n) -> ld n (st n a v m) a = v.
Proof.
  revert a v m. induction n as [|n IH]; intros a v m Hv; [simpl in *; lia|]. cbn [ld st].
  rewrite st_ne by lia. rewrite upd_eq. unfold u8. rewrite Z.shiftr_div_pow2 by lia. rewrite IH.
  - pose proof (Z.div_mod v (2 ^ 8) ltac:(lia)). lia.
  - split; [apply Z.div_pos; lia|]. apply Z.div_lt_upper_bound; [lia|]. rewrite <- Z.pow_add_r by lia.
    replace (8 + 8 * Z.of_nat n) with (8 * Z.of_nat (S n)) by lia. lia.
Qed.

(** ** The heap *)

Record z_heap := Z_heap {
  heap_base : Z;
  end_chunk : Z;
  avail_buckets : Z;
  free_bytes : Z;
  allocated_bytes : Z;
  max_allocated_bytes : Z;
  canary_base : Z;
  buckets : Z -> Z;
  hmem : memory
}.
Definition set_hmem (m : memory) (h : z_heap) : z_heap :=
  Z_heap h.(heap_base) h.(end_chunk) h.(avail_buckets) h.(free_bytes) h.(allocated_bytes) h.(max_allocated_bytes)
    h.(canary_base) h.(buckets) m.
Definition set_bucket (b c : Z) (h : z_heap) : z_heap :=
  Z_heap h.(heap_base) h.(end_chunk) h.(avail_buckets) h.(free_bytes) h.(allocated_bytes) h.(max_allocated_bytes)
    h.(canary_base) (upd b c h.(buckets)) h.(hmem).
Definition set_avail (x : Z) (h : z_heap) : z_heap :=
  Z_heap h.(heap_base) h.(end_chunk) x h.(free_bytes) h.(allocated_bytes) h.(max_allocated_bytes)
    h.(canary_base) h.(buckets) h.(hmem).
Definition set_stats (f a mx : Z) (h : z_heap) : z_heap :=
  Z_heap h.(heap_base) h.(end_chunk) h.(avail_buckets) f a mx h.(canary_base) h.(buckets) h.(hmem).

Definition CHUNK_UNIT : Z := 8.
Inductive chunk_fields := LEFT_SIZE | SIZE_AND_USED | FREE_PREV | FREE_NEXT.
Definition field_index (f : chunk_fields) : Z :=
  match f with LEFT_SIZE => 0 | SIZE_AND_USED => 1 | FREE_PREV => 2 | FREE_NEXT => 3 end.

Section heap_h.
Context `{HC : HeapConfig}.

Definition SYS_HEAP_HARDENING_BASIC : bool := 1 <=? CONFIG_SYS_HEAP_HARDENING_LEVEL.
Definition SYS_HEAP_HARDENING_MODERATE : bool := 2 <=? CONFIG_SYS_HEAP_HARDENING_LEVEL.
Definition SYS_HEAP_HARDENING_FULL : bool := 3 <=? CONFIG_SYS_HEAP_HARDENING_LEVEL.
Definition SYS_HEAP_HARDENING_EXTREME : bool := 4 <=? CONFIG_SYS_HEAP_HARDENING_LEVEL.
(** Canaries are selected by the levels from [SYS_HEAP_HARDENING_FULL] on. *)
Definition CONFIG_SYS_HEAP_CANARIES : bool := SYS_HEAP_HARDENING_FULL.
Definition CHUNK_TRAILER_SIZE : Z := if CONFIG_SYS_HEAP_CANARIES then 1 else 0.

Definition big_heap_chunks (chunks : Z) : bool :=
  if CONFIG_SYS_HEAP_SMALL_ONLY then false else if CONFIG_SYS_HEAP_BIG_ONLY then true else 32767 <? chunks.
Definition big_heap_bytes (bytes : Z) : bool := big_heap_chunks (bytes / CHUNK_UNIT).
Definition big_heap (h : z_heap) : bool := big_heap_chunks h.(end_chunk).

(** The width of a field, and the address of one. *)
Definition width (h : z_heap) : nat := if big_heap h then 4%nat else 2%nat.
Definition cell (h : z_heap) (c : Z) (f : chunk_fields) : Z :=
  h.(heap_base) + CHUNK_UNIT * c + Z.of_nat (width h) * field_index f.

Definition chunk_field (h : z_heap) (c : Z) (f : chunk_fields) : Z := ld (width h) h.(hmem) (cell h c f).
Definition chunk_set (c : Z) (f : chunk_fields) (val : Z) (h : z_heap) : z_heap :=
  set_hmem (st (width h) (cell h c f) val h.(hmem)) h.
Definition chunk_used (h : z_heap) (c : Z) : bool := negb (chunk_field h c SIZE_AND_USED .& 1 =? 0).
Definition chunk_size (h : z_heap) (c : Z) : Z := chunk_field h c SIZE_AND_USED .>> 1.
Definition set_chunk_used (c : Z) (used : bool) (h : z_heap) : z_heap :=
  chunk_set c SIZE_AND_USED
    (if used then chunk_field h c SIZE_AND_USED .| 1 else chunk_field h c SIZE_AND_USED .& Z.lnot 1) h.
Definition set_chunk_size (c size : Z) (h : z_heap) : z_heap := chunk_set c SIZE_AND_USED (u32 (size .<< 1)) h.
Definition prev_free_chunk (h : z_heap) (c : Z) : Z := chunk_field h c FREE_PREV.
Definition next_free_chunk (h : z_heap) (c : Z) : Z := chunk_field h c FREE_NEXT.
Definition set_prev_free_chunk (c prev : Z) (h : z_heap) : z_heap := chunk_set c FREE_PREV prev h.
Definition set_next_free_chunk (c next : Z) (h : z_heap) : z_heap := chunk_set c FREE_NEXT next h.
Definition left_chunk (h : z_heap) (c : Z) : Z := u32 (c - chunk_field h c LEFT_SIZE).
Definition right_chunk (h : z_heap) (c : Z) : Z := u32 (c + chunk_size h c).
Definition set_left_chunk_size (c size : Z) (h : z_heap) : z_heap := chunk_set c LEFT_SIZE size h.

Definition chunk_header_bytes (h : z_heap) : Z := if big_heap h then 8 else 4.
Definition heap_footer_bytes (size : Z) : Z := if big_heap_bytes size then 8 else 4.
Definition chunksz (bytes : Z) : Z := u32 (bytes + CHUNK_UNIT - 1) / CHUNK_UNIT.
Definition bytes_to_chunksz (h : z_heap) (bytes extra : Z) : Z :=
  let chunks := u32 (bytes / CHUNK_UNIT + extra / CHUNK_UNIT) in
  let oddments := u32 (bytes mod CHUNK_UNIT + extra mod CHUNK_UNIT + chunk_header_bytes h + CHUNK_UNIT - 1) / CHUNK_UNIT in
  Z.min (u32 (chunks + oddments + CHUNK_TRAILER_SIZE)) h.(end_chunk).
Definition min_chunk_size (h : z_heap) : Z := chunksz (chunk_header_bytes h + 1) + CHUNK_TRAILER_SIZE.
Definition undersized_chunk (h : z_heap) (c : Z) : bool :=
  (negb (CHUNK_TRAILER_SIZE =? 0) || big_heap h) && (chunk_size h c <? min_chunk_size h).
Definition chunk_usable_bytes (h : z_heap) (c : Z) : Z :=
  u32 (chunk_size h c * CHUNK_UNIT - chunk_header_bytes h - CHUNK_TRAILER_SIZE * CHUNK_UNIT).
Definition mem_align_gap (h : z_heap) (mem : Z) : Z :=
  if chunk_header_bytes h =? CHUNK_UNIT then 0 else u32 (mem - chunk_header_bytes h) .& (CHUNK_UNIT - 1).
Definition bucket_idx (h : z_heap) (sz : Z) : Z := 31 - u32_count_leading_zeros (u32 (sz - min_chunk_size h + 1)).

(** The loop of [get_alloc_info]; [None] is a loop that did not end within the fuel. *)
Fixpoint alloc_info_loop (fuel : nat) (h : z_heap) (c alloc free : Z) : option (Z * Z) :=
  match fuel with
  | O => None
  | S fuel =>
      if c <? h.(end_chunk) then
        if chunk_used h c then alloc_info_loop fuel h (right_chunk h c) (u32 (alloc + chunk_usable_bytes h c)) free
        else if negb (undersized_chunk h c)
        then alloc_info_loop fuel h (right_chunk h c) alloc (u32 (free + chunk_usable_bytes h c))
        else alloc_info_loop fuel h (right_chunk h c) alloc free
      else Some (alloc, free)
  end.
Definition get_alloc_info (fuel : nat) (h : z_heap) : option (Z * Z) := alloc_info_loop fuel h (right_chunk h 0) 0 0.

(** The trailer with the canary ends the chunk. *)
Definition chunk_trailer (h : z_heap) (c : Z) : Z :=
  h.(heap_base) + CHUNK_UNIT * (c + chunk_size h c - CHUNK_TRAILER_SIZE).

End heap_h.
