(* ===== verification/Heap.v ===== *)
(** The chunk allocator: lib/heap/heap.c, with its validator lib/heap/heap_validate.c
    and its statistics lib/heap/heap_stats.c.

    [None] is a call that does not return: it reached [k_panic], or the validator of
    the highest hardening level ran out of fuel.  The assertions ([CHECK],
    [__ASSERT]), listeners and sanitizer hooks are compiled out. *)

From S2P Require Import Prelude MathExtras Ring HeapMem.

#[local] Open Scope Z_scope.

(** [k_panic] unless the condition holds. *)
Definition or_panic (ok : bool) : option unit := if ok then Some tt else None.

Section heap.
Context `{HC : HeapConfig}.

(** ** The validator *)

Definition in_bounds (h : z_heap) (c : Z) : bool :=
  (right_chunk h 0 <=? c) && (c <? h.(end_chunk)) && (chunk_size h c <? h.(end_chunk)).

Definition valid_chunk (h : z_heap) (c : Z) : bool :=
  (0 <? chunk_size h c) && (u32 (c + chunk_size h c) <=? h.(end_chunk)) && in_bounds h c &&
  (right_chunk h (left_chunk h c) =? c) && (left_chunk h (right_chunk h c) =? c) &&
  (if chunk_used h c then negb (undersized_chunk h c)
   else chunk_used h (left_chunk h c) && chunk_used h (right_chunk h c) &&
        (if negb (undersized_chunk h c)
         then in_bounds h (prev_free_chunk h c) && in_bounds h (next_free_chunk h c) else true)).

(** The loops of [z_heap_full_check], in order.  [None] is a loop that did not end
    within the fuel; the first result tells whether the loop found the heap valid. *)
Fixpoint check_chunks (fuel : nat) (h : z_heap) (c : Z) : option bool :=
  match fuel with
  | O => None
  | S fuel =>
      if c <? h.(end_chunk) then
        if negb (valid_chunk h c) then Some false else check_chunks fuel h (right_chunk h c)
      else Some (c =? h.(end_chunk))
  end.

Fixpoint mark_list (fuel : nat) (c0 c n : Z) (h : z_heap) : option (bool * Z * z_heap) :=
  match fuel with
  | O => None
  | S fuel =>
      if negb (c =? 0) && ((n =? 0) || negb (c =? c0)) then
        if negb (valid_chunk h c) then Some (false, n, h)
        else let h := set_chunk_used c true h in mark_list fuel c0 (next_free_chunk h c) (u32 (n + 1)) h
      else Some (true, n, h)
  end.
Fixpoint mark_lists (fuel : nat) (bs : list Z) (h : z_heap) : option (bool * z_heap) :=
  match bs with
  | [] => Some (true, h)
  | b :: bs =>
      '(ok, n, h) ← mark_list fuel (h.(buckets) b) (h.(buckets) b) 0 h;
      let empty := h.(avail_buckets) .& bit b =? 0 in
      if negb ok then Some (false, h)
      else if negb (Bool.eqb empty (n =? 0)) then Some (false, h)
      else if empty && negb (h.(buckets) b =? 0) then Some (false, h)
      else mark_lists fuel bs h
  end.

Fixpoint unmark_chunks (fuel : nat) (c prev : Z) (h : z_heap) : option (bool * z_heap) :=
  match fuel with
  | O => None
  | S fuel =>
      if c <? h.(end_chunk) then
        if negb (chunk_used h c) && negb (undersized_chunk h c) then Some (false, h)
        else if negb (left_chunk h c =? prev) then Some (false, h)
        else let h := set_chunk_used c (undersized_chunk h c) h in unmark_chunks fuel (right_chunk h c) c h
      else Some (c =? h.(end_chunk), h)
  end.

Fixpoint remark_list (fuel : nat) (c0 c n : Z) (h : z_heap) : option (bool * z_heap) :=
  match fuel with
  | O => None
  | S fuel =>
      if (n =? 0) || negb (c =? c0) then
        if chunk_used h c then Some (false, h)
        else let h := set_chunk_used c true h in remark_list fuel c0 (next_free_chunk h c) (n + 1) h
      else Some (true, h)
  end.
Fixpoint remark_lists (fuel : nat) (bs : list Z) (h : z_heap) : option (bool * z_heap) :=
  match bs with
  | [] => Some (true, h)
  | b :: bs =>
      if h.(buckets) b =? 0 then remark_lists fuel bs h
      else '(ok, h) ← remark_list fuel (h.(buckets) b) (h.(buckets) b) 0 h;
           if negb ok then Some (false, h) else remark_lists fuel bs h
  end.

Fixpoint invert_chunks (fuel : nat) (c : Z) (h : z_heap) : option z_heap :=
  match fuel with
  | O => None
  | S fuel =>
      if c <? h.(end_chunk)
      then let h := set_chunk_used c (negb (chunk_used h c)) h in invert_chunks fuel (right_chunk h c) h
      else Some h
  end.

Definition all_buckets (h : z_heap) : list Z := seqZ 0 (bucket_idx h h.(end_chunk) + 1).
Definition z_heap_full_check (fuel : nat) (h : z_heap) : option (bool * z_heap) :=
  ok ← check_chunks fuel h (right_chunk h 0);
  if negb ok then Some (false, h) else
  '(ok, h) ← mark_lists fuel (all_buckets h) h;
  if negb ok then Some (false, h) else
  '(ok, h) ← unmark_chunks fuel (right_chunk h 0) 0 h;
  if negb ok then Some (false, h) else
  '(ok, h) ← remark_lists fuel (all_buckets h) h;
  if negb ok then Some (false, h) else
  h ← invert_chunks fuel (right_chunk h 0) h; Some (true, h).

(** [SYS_HEAP_HARDENING_EXTREME && !z_heap_full_check(h)]; a heap of [n] units has at most [n] chunks. *)
Definition check_fuel (h : z_heap) : nat := S (Z.to_nat h.(end_chunk)).
Definition full_check_or_panic (h : z_heap) : option z_heap :=
  if SYS_HEAP_HARDENING_EXTREME then
    '(ok, h) ← z_heap_full_check (check_fuel h) h; if negb ok then None else Some h
  else Some h.

(** ** Statistics *)

(** The heap a caller names: no [sys_heap], one without memory, or one with it. *)
Definition heap_arg := option (option z_heap).
Definition sys_heap_runtime_stats_get (heap : heap_arg) (stats : bool) : Z * option (Z * Z * Z) :=
  match heap with
  | Some (Some h) => if stats then (0, Some (h.(free_bytes), h.(allocated_bytes), h.(max_allocated_bytes))) else (- EINVAL, None)
  | _ => (- EINVAL, None)
  end.
(** [None] is the access to a heap that has no memory. *)
Definition sys_heap_runtime_stats_reset_max (heap : heap_arg) : option (Z * heap_arg) :=
  match heap with
  | None => Some (- EINVAL, None)
  | Some None => None
  | Some (Some h) => Some (0, Some (Some (set_stats h.(free_bytes) h.(allocated_bytes) h.(allocated_bytes) h)))
  end.

Definition sys_heap_validate (fuel : nat) (h : z_heap) : option (bool * z_heap) :=
  '(ok, h) ← z_heap_full_check fuel h;
  if negb ok then Some (false, h)
  else if CONFIG_SYS_HEAP_RUNTIME_STATS then
    '(alloc, free) ← get_alloc_info fuel h;
    Some (negb (negb (h.(allocated_bytes) =? alloc) || negb (h.(free_bytes) =? free)), h)
  else Some (true, h).

Definition increase_allocated_bytes (num_bytes : Z) (h : z_heap) : z_heap :=
  if CONFIG_SYS_HEAP_RUNTIME_STATS then
    let a := u32 (h.(allocated_bytes) + num_bytes) in set_stats h.(free_bytes) a (Z.max h.(max_allocated_bytes) a) h
  else h.
Definition decrease_allocated_bytes (num_bytes : Z) (h : z_heap) : z_heap :=
  if CONFIG_SYS_HEAP_RUNTIME_STATS
  then set_stats h.(free_bytes) (u32 (h.(allocated_bytes) - num_bytes)) h.(max_allocated_bytes) h else h.
Definition add_free_bytes (num_bytes : Z) (h : z_heap) : z_heap :=
  if CONFIG_SYS_HEAP_RUNTIME_STATS
  then set_stats (u32 (h.(free_bytes) + num_bytes)) h.(allocated_bytes) h.(max_allocated_bytes) h else h.

(** ** Canaries *)

Definition HEAP_CANARY_POISON : Z := 0xDEADBEEF.
Definition HEAP_CANARY_MAGIC (h : z_heap) : Z :=
  if CONFIG_SYS_HEAP_CANARIES_RANDOM then h.(canary_base) else 0x5A6B7C8D.
Definition compute_canary (h : z_heap) (c : Z) : Z :=
  (((c .>> 16) .| u32 (c .<< 16)) .^ chunk_size h c) .^ HEAP_CANARY_MAGIC h.
Definition canary_at (h : z_heap) (c : Z) : Z := ld 4 h.(hmem) (chunk_trailer h c).
Definition set_canary (c v : Z) (h : z_heap) : z_heap := set_hmem (st 4 (chunk_trailer h c) v h.(hmem)) h.
Definition set_chunk_canary (c : Z) (h : z_heap) : z_heap :=
  if CONFIG_SYS_HEAP_CANARIES then set_canary c (compute_canary h c) h else h.
Definition verify_chunk_canary (c : Z) (h : z_heap) : option unit :=
  if CONFIG_SYS_HEAP_CANARIES then or_panic (canary_at h c =? compute_canary h c) else Some tt.
Definition poison_chunk_canary (c : Z) (h : z_heap) : z_heap :=
  if CONFIG_SYS_HEAP_CANARIES then set_canary c HEAP_CANARY_POISON h else h.

(** ** Chunks and free lists *)

Definition chunk_mem (h : z_heap) (c : Z) : Z := h.(heap_base) + CHUNK_UNIT * c + chunk_header_bytes h.

Definition free_list_remove_bidx (c bidx : Z) (h : z_heap) : option z_heap :=
  h ← (if next_free_chunk h c =? c
       then Some (set_bucket bidx 0 (set_avail (h.(avail_buckets) .& u32 (Z.lnot (bit bidx))) h))
       else let first := prev_free_chunk h c in
            let second := next_free_chunk h c in
            _ ← or_panic (negb (SYS_HEAP_HARDENING_MODERATE &&
                  (negb (next_free_chunk h first =? c) || negb (prev_free_chunk h second =? c))));
            Some (set_prev_free_chunk second first (set_next_free_chunk first second (set_bucket bidx second h))));
  Some (add_free_bytes (- chunk_usable_bytes h c) h).

Definition free_list_remove (c : Z) (h : z_heap) : option z_heap :=
  if negb (undersized_chunk h c) then free_list_remove_bidx c (bucket_idx h (chunk_size h c)) h else Some h.

Definition free_list_add_bidx (c bidx : Z) (h : z_heap) : option z_heap :=
  h ← (if h.(buckets) bidx =? 0
       then Some (set_next_free_chunk c c (set_prev_free_chunk c c
              (set_bucket bidx c (set_avail (h.(avail_buckets) .| bit bidx) h))))
       else let second := h.(buckets) bidx in
            let first := prev_free_chunk h second in
            _ ← or_panic (negb (SYS_HEAP_HARDENING_MODERATE && negb (next_free_chunk h first =? second)));
            Some (set_prev_free_chunk second c (set_next_free_chunk first c
              (set_next_free_chunk c second (set_prev_free_chunk c first h)))));
  Some (add_free_bytes (chunk_usable_bytes h c) h).

Definition free_list_add (c : Z) (h : z_heap) : option z_heap :=
  if negb (undersized_chunk h c) then free_list_add_bidx c (bucket_idx h (chunk_size h c)) h else Some h.

Definition free_chunk_check (c : Z) (left_trusted : bool) (h : z_heap) : option unit :=
  _ ← or_panic (negb (SYS_HEAP_HARDENING_MODERATE &&
        (chunk_used h c || negb (left_chunk h (right_chunk h c) =? c) || negb (right_chunk h (left_chunk h c) =? c))));
  if SYS_HEAP_HARDENING_FULL && negb left_trusted then verify_chunk_canary (left_chunk h c) h else Some tt.

Definition split_chunks (lc rc : Z) (h : z_heap) : z_heap :=
  let sz0 := chunk_size h lc in
  let lsz := u32 (rc - lc) in
  let rsz := u32 (sz0 - lsz) in
  let h := set_chunk_size lc lsz h in
  let h := set_chunk_size rc rsz h in
  let h := set_left_chunk_size rc lsz h in
  set_left_chunk_size (right_chunk h rc) rsz h.

Definition merge_chunks (lc rc : Z) (h : z_heap) : z_heap :=
  let newsz := u32 (chunk_size h lc + chunk_size h rc) in
  let h := set_chunk_size lc newsz h in
  set_left_chunk_size (right_chunk h rc) newsz h.

Definition free_chunk (c : Z) (h : z_heap) : option z_heap :=
  let rc := right_chunk h c in
  h ← (if negb (chunk_used h rc) then
         _ ← free_chunk_check rc true h; h ← free_list_remove rc h; Some (merge_chunks c rc h)
       else Some h);
  let lc := left_chunk h c in
  '(c, h) ← (if negb (chunk_used h lc) then
               _ ← free_chunk_check lc false h; h ← free_list_remove lc h; Some (lc, merge_chunks lc c h)
             else _ ← (if SYS_HEAP_HARDENING_FULL then verify_chunk_canary lc h else Some tt); Some (c, h));
  let h := if SYS_HEAP_HARDENING_FULL then poison_chunk_canary c h else h in
  free_list_add c h.

Definition mem_to_chunkid (h : z_heap) (p : Z) : Z := u32 (p - chunk_header_bytes h - h.(heap_base)) / CHUNK_UNIT.

(** The checks of [sys_heap_free] and [inplace_realloc] on the chunk they get. *)
Definition used_chunk_check (c : Z) (h : z_heap) : option z_heap :=
  _ ← (if SYS_HEAP_HARDENING_FULL then verify_chunk_canary c h else Some tt);
  _ ← or_panic (negb (SYS_HEAP_HARDENING_BASIC && negb (chunk_used h c)));
  _ ← or_panic (negb (SYS_HEAP_HARDENING_BASIC && negb (left_chunk h (right_chunk h c) =? c)));
  _ ← or_panic (negb (SYS_HEAP_HARDENING_MODERATE && negb (right_chunk h (left_chunk h c) =? c)));
  full_check_or_panic h.

Definition sys_heap_free (mem : Z) (h : z_heap) : option z_heap :=
  if mem =? 0 then Some h else
  let c := mem_to_chunkid h mem in
  h ← used_chunk_check c h;
  let h := set_chunk_used c false h in
  let h := decrease_allocated_bytes (chunk_usable_bytes h c) h in
  free_chunk c h.

Definition sys_heap_usable_size (mem : Z) (h : z_heap) : option Z :=
  let c := mem_to_chunkid h mem in
  _ ← (if SYS_HEAP_HARDENING_FULL then verify_chunk_canary c h else Some tt);
  Some (u32 (chunk_usable_bytes h c - mem_align_gap h mem)).

(** The bounded search of the smallest bucket, [i] rounds of it: the chunk found, if any. *)
Fixpoint alloc_loop (i : nat) (first bi sz : Z) (h : z_heap) : option (Z * z_heap) :=
  match i with
  | O => Some (0, h)
  | S i =>
      let c := h.(buckets) bi in
      if sz <=? chunk_size h c then
        _ ← free_chunk_check c false h; h ← free_list_remove_bidx c bi h; Some (c, h)
      else
        let h := set_bucket bi (next_free_chunk h c) h in
        if h.(buckets) bi =? first then Some (0, h) else alloc_loop i first bi sz h
  end.

Definition alloc_chunk (sz : Z) (h : z_heap) : option (Z * z_heap) :=
  h ← full_check_or_panic h;
  let bi := bucket_idx h sz in
  '(c, h) ← (if negb (h.(buckets) bi =? 0) then alloc_loop CONFIG_SYS_HEAP_ALLOC_LOOPS (h.(buckets) bi) bi sz h
             else Some (0, h));
  if negb (c =? 0) then Some (c, h) else
  let bmask := h.(avail_buckets) .& u32 (Z.lnot (bit (bi + 1) - 1)) in
  if negb (bmask =? 0) then
    let minbucket := u32_count_trailing_zeros bmask in
    let c := h.(buckets) minbucket in
    _ ← free_chunk_check c false h; h ← free_list_remove_bidx c minbucket h; Some (c, h)
  else Some (0, h).

(** [set_chunk_used] with the canary, as every allocation ends. *)
Definition mark_used (c : Z) (h : z_heap) : z_heap :=
  let h := set_chunk_used c true h in if SYS_HEAP_HARDENING_FULL then set_chunk_canary c h else h.

(** The pointer, 0 when there is no memory. *)
Definition sys_heap_alloc (bytes : Z) (h : z_heap) : option (Z * z_heap) :=
  if bytes =? 0 then Some (0, h) else
  let chunk_sz := bytes_to_chunksz h bytes 0 in
  '(c, h) ← alloc_chunk chunk_sz h;
  if c =? 0 then Some (0, h) else
  h ← (if chunk_sz <? chunk_size h c
       then let h := split_chunks c (u32 (c + chunk_sz)) h in free_list_add (u32 (c + chunk_sz)) h else Some h);
  let h := mark_used c h in
  let mem := chunk_mem h c in
  Some (mem, increase_allocated_bytes (chunk_usable_bytes h c) h).

Definition sys_heap_noalign_alloc (align bytes : Z) (h : z_heap) : option (Z * z_heap) := sys_heap_alloc bytes h.

Definition ROUND_UP (x align : Z) : Z := u32 (x + (align - 1)) / align * align.
Definition ROUND_DOWN (x align : Z) : Z := x / align * align.

(** The over-allocated chunk [c0] is cut to the aligned block. *)
Definition aligned_cut (rew align bytes c0 : Z) (h : z_heap) : option (Z * z_heap) :=
  let mem := chunk_mem h c0 in
  let mem := ROUND_UP (mem + rew) align - rew in
  let end_ := ROUND_UP (mem + bytes) CHUNK_UNIT in
  let c := mem_to_chunkid h mem in
  let c_end := (end_ - h.(heap_base)) / CHUNK_UNIT + CHUNK_TRAILER_SIZE in
  h ← (if c0 <? c then let h := split_chunks c0 c h in free_list_add c0 h else Some h);
  h ← (if c_end <? right_chunk h c then let h := split_chunks c c_end h in free_list_add c_end h else Some h);
  let h := mark_used c h in
  Some (mem, increase_allocated_bytes (chunk_usable_bytes h c) h).

Definition sys_heap_aligned_alloc (align bytes : Z) (h : z_heap) : option (Z * z_heap) :=
  let rew := align .& u32 (- align) in
  if negb (align =? rew) || negb (align <=? chunk_header_bytes h) then
    let '(align, rew, gap) :=
      if negb (align =? rew) then (align - rew, rew, Z.min rew (chunk_header_bytes h))
      else (align, 0, chunk_header_bytes h) in
    if bytes =? 0 then Some (0, h) else
    let padded_sz := bytes_to_chunksz h bytes (u32 (align - gap)) in
    '(c0, h) ← alloc_chunk padded_sz h;
    if c0 =? 0 then Some (0, h) else aligned_cut rew align bytes c0 h
  else sys_heap_alloc bytes h.

Definition inplace_realloc (ptr bytes : Z) (h : z_heap) : option (bool * z_heap) :=
  let c := mem_to_chunkid h ptr in
  let align_gap := mem_align_gap h ptr in
  let chunks_need := bytes_to_chunksz h bytes align_gap in
  h ← used_chunk_check c h;
  if chunk_size h c =? chunks_need then Some (true, h)
  else if chunks_need <? chunk_size h c then
    let h := decrease_allocated_bytes (u32 ((chunk_size h c - chunks_need) * CHUNK_UNIT)) h in
    let h := split_chunks c (u32 (c + chunks_need)) h in
    let h := mark_used c h in
    let suffix := u32 (c + chunks_need) in
    let suffix_rc := right_chunk h suffix in
    h ← (if negb (chunk_used h suffix_rc) then
           _ ← free_chunk_check suffix_rc true h; h ← free_list_remove suffix_rc h; Some (merge_chunks suffix suffix_rc h)
         else Some h);
    h ← free_list_add suffix h; Some (true, h)
  else
    let rc := right_chunk h c in
    if negb (chunk_used h rc) && (chunks_need <=? u32 (chunk_size h c + chunk_size h rc)) then
      let split_size := u32 (chunks_need - chunk_size h c) in
      let h := increase_allocated_bytes (u32 (split_size * CHUNK_UNIT)) h in
      _ ← free_chunk_check rc true h;
      h ← free_list_remove rc h;
      h ← (if split_size <? chunk_size h rc
           then let h := split_chunks rc (u32 (rc + split_size)) h in free_list_add (u32 (rc + split_size)) h else Some h);
      let h := merge_chunks c rc h in
      Some (true, mark_used c h)
    else Some (false, h).

(** Copying a block to a new one that replaces it. *)
Definition realloc_copy (ptr ptr2 bytes : Z) (h : z_heap) : option (Z * z_heap) :=
  if ptr2 =? 0 then Some (0, h) else
  prev_size ← sys_heap_usable_size ptr h;
  let h := set_hmem (memcpy ptr2 ptr (Z.min prev_size bytes) h.(hmem)) h in
  h ← sys_heap_free ptr h; Some (ptr2, h).

Definition sys_heap_realloc (ptr bytes : Z) (h : z_heap) : option (Z * z_heap) :=
  if ptr =? 0 then sys_heap_alloc bytes h
  else if bytes =? 0 then h ← sys_heap_free ptr h; Some (0, h)
  else
    '(done, h) ← inplace_realloc ptr bytes h;
    if negb done then '(ptr2, h) ← sys_heap_alloc bytes h; realloc_copy ptr ptr2 bytes h
    else Some (ptr, h).

Definition sys_heap_aligned_realloc (ptr align bytes : Z) (h : z_heap) : option (Z * z_heap) :=
  if ptr =? 0 then sys_heap_aligned_alloc align bytes h
  else if bytes =? 0 then h ← sys_heap_free ptr h; Some (0, h)
  else
    '(done, h) ← (if (align =? 0) || (ptr .& u32 (align - 1) =? 0) then inplace_realloc ptr bytes h else Some (false, h));
    if negb done then '(ptr2, h) ← sys_heap_aligned_alloc align bytes h; realloc_copy ptr ptr2 bytes h
    else Some (ptr, h).

(** ** Initialisation *)

(** [sizeof(struct z_heap)], without the buckets. *)
Definition sizeof_z_heap : Z :=
  16 + (if CONFIG_SYS_HEAP_RUNTIME_STATS then 12 else 0) +
  (if CONFIG_SYS_HEAP_CANARIES && CONFIG_SYS_HEAP_CANARIES_RANDOM then 4 else 0).

(** The buffer of [bytes] bytes at [mem]; [random] is the value of [sys_rand_get] and [m]
    the memory. *)
Definition sys_heap_init (mem bytes random : Z) (m : memory) : option z_heap :=
  let bytes := bytes - heap_footer_bytes bytes in
  let addr := ROUND_UP mem CHUNK_UNIT in
  let end_ := ROUND_DOWN (mem + bytes) CHUNK_UNIT in
  let heap_sz := (end_ - addr) / CHUNK_UNIT in
  let h := Z_heap addr heap_sz 0 0 0 0 random (fun _ => 0) m in
  let nb_buckets := bucket_idx h heap_sz + 1 in
  let chunk0_size := chunksz (sizeof_z_heap + nb_buckets * 4) + CHUNK_TRAILER_SIZE in
  let h := set_chunk_size 0 chunk0_size h in
  let h := set_left_chunk_size 0 0 h in
  let h := mark_used 0 h in
  let h := set_chunk_size chunk0_size (heap_sz - chunk0_size) h in
  let h := set_left_chunk_size chunk0_size chunk0_size h in
  let h := set_chunk_size heap_sz 0 h in
  let h := set_left_chunk_size heap_sz (heap_sz - chunk0_size) h in
  let h := set_chunk_used heap_sz true h in
  free_list_add chunk0_size h.

End heap.
