(* ===== verification/HeapInv.v ===== *)
(** The invariant of a heap, and what the steps on chunks and free lists do to it.

    The chunks tile the buffer.  While an operation works on a chunk that is neither
    allocated nor on a free list, the chunk is in limbo.  Everything the heap keeps about a
    chunk besides its header lies in the body of the chunk, so a step that does not
    touch the body of a chunk changes nothing about it. *)

From S2P Require Import Prelude MathExtras Ring HeapMem Heap.

#[local] Open Scope Z_scope.

Inductive status := Used | Free | Limbo.
#[export] Instance status_eq_dec : EqDecision status.
Proof. solve_decision. Defined.
Record chunk := Chunk { pos : Z; size : Z; stat : status }.
#[export] Instance chunk_eq_dec : EqDecision chunk.
Proof. solve_decision. Defined.
Definition used_bit (c : chunk) : Z := if decide (c.(stat) = Used) then 1 else 0.

Section inv.
Context `{HC : HeapConfig}.

(** ** Bodies and fields *)

Definition W (h : z_heap) : Z := Z.of_nat (width h).
Definition body (h : z_heap) (c : chunk) (a : Z) : Prop :=
  h.(heap_base) + 8 * c.(pos) + 2 * W h <= a < h.(heap_base) + 8 * (c.(pos) + c.(size)).
Definition body_same (h h' : z_heap) (c : chunk) : Prop := forall a, body h c a -> h'.(hmem) a = h.(hmem) a.
(** The parts of a heap that never change. *)
Record same_heap (h h' : z_heap) : Prop := {
  sh_base : h'.(heap_base) = h.(heap_base);
  sh_end : h'.(end_chunk) = h.(end_chunk);
  sh_canary : h'.(canary_base) = h.(canary_base)
}.

Lemma width_cases h : W h = 4 /\ big_heap h = true \/ W h = 2 /\ big_heap h = false.
Proof. unfold W, width. destruct (big_heap h); auto. Qed.

Lemma header_width h : chunk_header_bytes h = 2 * W h.
Proof. unfold chunk_header_bytes, W, width. by destruct (big_heap h). Qed.

Lemma min_chunk_width h : 8 * min_chunk_size h = 4 * W h + 8 * CHUNK_TRAILER_SIZE.
Proof. unfold min_chunk_size, chunk_header_bytes, W, width. destruct (big_heap h);
  [change (chunksz (8 + 1)) with 2|change (chunksz (4 + 1)) with 1]; lia. Qed.

Lemma trailer_range : 0 <= CHUNK_TRAILER_SIZE <= 1.
Proof. unfold CHUNK_TRAILER_SIZE. destruct CONFIG_SYS_HEAP_CANARIES; lia. Qed.

Lemma same_width h h' : same_heap h h' -> width h' = width h.
Proof. intros [_ E _]. unfold width, big_heap. by rewrite E. Qed.

#[export] Instance same_heap_preorder : PreOrder same_heap.
Proof. split; [done|]. intros h1 h2 h3 [] []. split; congruence. Qed.

Lemma field_eq h c f v : 0 <= v < 2 ^ (8 * W h) -> chunk_field (chunk_set c f v h) c f = v.
Proof. intros Hv. unfold chunk_field. change (cell (chunk_set c f v h) c f) with (cell h c f). by apply ld_st_eq. Qed.

Lemma field_ne h c f v c' f' :
  8 * c + W h * field_index f + W h <= 8 * c' + W h * field_index f' \/
  8 * c' + W h * field_index f' + W h <= 8 * c + W h * field_index f ->
  chunk_field (chunk_set c f v h) c' f' = chunk_field h c' f'.
Proof.
  intros Hc. unfold chunk_field. change (cell (chunk_set c f v h) c' f') with (cell h c' f').
  change (width (chunk_set c f v h)) with (width h). simpl. apply ld_st_ne. unfold cell, CHUNK_UNIT. fold (W h). lia.
Qed.

Lemma field_other h c f v a : a < h.(heap_base) + 8 * c + W h * field_index f \/ h.(heap_base) + 8 * c + W h * field_index f + W h <= a ->
  hmem (chunk_set c f v h) a = hmem h a.
Proof. intros Ha. simpl. apply st_ne. unfold cell, CHUNK_UNIT. fold (W h). lia. Qed.

(** Fields are in bytes: equal bytes, equal fields. *)
Lemma field_ext h h' c f : same_heap h h' ->
  (forall a, h.(heap_base) + 8 * c + W h * field_index f <= a < h.(heap_base) + 8 * c + W h * field_index f + W h ->
    h'.(hmem) a = h.(hmem) a) -> chunk_field h' c f = chunk_field h c f.
Proof.
  intros Hs Hm. unfold chunk_field. rewrite (same_width _ _ Hs).
  assert (Hc : cell h' c f = cell h c f) by (unfold cell; by rewrite (same_width _ _ Hs), (sh_base _ _ Hs)).
  rewrite Hc. apply ld_ext. intros a Ha. apply Hm. unfold cell, CHUNK_UNIT in Ha. fold (W h) in Ha. lia.
Qed.

Lemma size_of_field h c s b : 0 <= b <= 1 -> 0 <= s -> chunk_field h c SIZE_AND_USED = 2 * s + b ->
  chunk_size h c = s /\ chunk_used h c = negb (b =? 0).
Proof.
  intros Hb Hs E. unfold chunk_size, chunk_used. rewrite E. split.
  - rewrite Z.shiftr_div_pow2 by lia. Z.to_euclidean_division_equations. lia.
  - do 2 f_equal. change 1 with (Z.ones 1) at 1. rewrite Z.land_ones by lia. Z.to_euclidean_division_equations. lia.
Qed.

(** ** Layouts *)

Fixpoint tiles (p : Z) (cs : list chunk) (e : Z) : Prop :=
  match cs with [] => p = e | c :: r => c.(pos) = p /\ 0 < c.(size) /\ tiles (p + c.(size)) r e end.

(** The headers of chunks that follow one of size [l], up to the end marker. *)
Fixpoint heads (h : z_heap) (l : Z) (cs : list chunk) (e : Z) : Prop :=
  match cs with
  | [] => chunk_field h e LEFT_SIZE = l /\ chunk_field h e SIZE_AND_USED = 1
  | c :: r => chunk_field h c.(pos) LEFT_SIZE = l /\
      chunk_field h c.(pos) SIZE_AND_USED = 2 * c.(size) + used_bit c /\ heads h c.(size) r e
  end.
Fixpoint heads_seg (h : z_heap) (l : Z) (cs : list chunk) : Prop :=
  match cs with
  | [] => True
  | c :: r => chunk_field h c.(pos) LEFT_SIZE = l /\
      chunk_field h c.(pos) SIZE_AND_USED = 2 * c.(size) + used_bit c /\ heads_seg h c.(size) r
  end.
Definition last_size (l : Z) (cs : list chunk) : Z := default l (size <$> last cs).
Definition start (cs : list chunk) (e : Z) : Z := match cs with [] => e | c :: _ => c.(pos) end.

Lemma tiles_app p a b e : tiles p (a ++ b) e <-> exists q, tiles p a q /\ tiles q b e.
Proof.
  revert p. induction a as [|c a IH]; intros p; simpl.
  - split; [eauto|]. by intros (q & -> & ?).
  - rewrite IH. split; [intros (H1 & H2 & q & H3 & H4)|intros (q & (H1 & H2 & H3) & H4)]; eauto 6.
Qed.

Lemma tiles_start p cs e : tiles p cs e -> start cs e = p.
Proof. destruct cs; simpl; [done|]. tauto. Qed.

Lemma tiles_bounds p cs e : tiles p cs e -> p <= e /\ forall c, c ∈ cs -> p <= c.(pos) /\ 0 < c.(size) /\ c.(pos) + c.(size) <= e.
Proof.
  revert p. induction cs as [|c cs IH]; intros p; simpl; [intros ->; split; [lia|set_solver]|]. intros (H1 & H2 & H3).
  destruct (IH _ H3) as [I1 I2]. split; [lia|]. intros x [->|Hx]%elem_of_cons; [lia|]. specialize (I2 x Hx). lia.
Qed.

Lemma tiles_sep p cs e x y : tiles p cs e -> x ∈ cs -> y ∈ cs ->
  x = y \/ x.(pos) + x.(size) <= y.(pos) \/ y.(pos) + y.(size) <= x.(pos).
Proof.
  revert p. induction cs as [|c cs IH]; intros p; [set_solver|]. intros (H1 & H2 & H3).
  destruct (tiles_bounds _ _ _ H3) as [_ HB]. intros [->|Hx]%elem_of_cons [->|Hy]%elem_of_cons; [by left|..|eauto].
  - specialize (HB y Hy). lia.
  - specialize (HB x Hx). lia.
Qed.

Lemma tiles_middle p a c b e : tiles p (a ++ c :: b) e ->
  tiles p a c.(pos) /\ 0 < c.(size) /\ tiles (c.(pos) + c.(size)) b e.
Proof. intros (q & H1 & H2 & H3 & H4)%tiles_app. by subst q. Qed.

Lemma tiles_nodup p cs e : tiles p cs e -> NoDup (pos <$> cs).
Proof.
  revert p. induction cs as [|c cs IH]; intros p; [constructor|]. intros (H1 & H2 & H3). simpl. constructor; [|eauto].
  intros (y & E & Hy)%list_elem_of_fmap. destruct (tiles_bounds _ _ _ H3) as [_ HB]. specialize (HB y Hy). lia.
Qed.

Lemma heads_app h l a b e : heads h l (a ++ b) e <-> heads_seg h l a /\ heads h (last_size l a) b e.
Proof.
  revert l. induction a as [|c a IH]; intros l; simpl; [tauto|]. rewrite IH.
  replace (last_size l (c :: a)) with (last_size c.(size) a); [tauto|].
  unfold last_size. rewrite last_cons. by destruct (last a).
Qed.

Lemma heads_seg_app h l a b : heads_seg h l (a ++ b) <-> heads_seg h l a /\ heads_seg h (last_size l a) b.
Proof.
  revert l. induction a as [|c a IH]; intros l; simpl; [tauto|]. rewrite IH.
  replace (last_size l (c :: a)) with (last_size c.(size) a); [tauto|].
  unfold last_size. rewrite last_cons. by destruct (last a).
Qed.

Lemma heads_seg_ext h h' l a : (forall c, c ∈ a -> chunk_field h' c.(pos) LEFT_SIZE = chunk_field h c.(pos) LEFT_SIZE /\
    chunk_field h' c.(pos) SIZE_AND_USED = chunk_field h c.(pos) SIZE_AND_USED) -> heads_seg h l a -> heads_seg h' l a.
Proof.
  revert l. induction a as [|c a IH]; intros l Hx; simpl; [done|]. destruct (Hx c) as [-> ->]; [set_solver|].
  intros (H1 & H2 & H3). split; [done|]. split; [done|]. apply IH; [|done]. intros. apply Hx. set_solver.
Qed.

Lemma heads_ext h h' l b e : (forall p, p ∈ (pos <$> b) \/ p = e -> chunk_field h' p LEFT_SIZE = chunk_field h p LEFT_SIZE /\
    chunk_field h' p SIZE_AND_USED = chunk_field h p SIZE_AND_USED) -> heads h l b e -> heads h' l b e.
Proof.
  revert l. induction b as [|c b IH]; intros l Hx; simpl; [destruct (Hx e) as [-> ->]; [by right|done]|].
  destruct (Hx c.(pos)) as [-> ->]; [left; set_solver|]. intros (H1 & H2 & H3). split; [done|]. split; [done|].
  apply IH; [|done]. intros p Hp. apply Hx. set_solver.
Qed.

(** The headers behind a chunk whose size changes to [l']. *)
Lemma heads_relink h h' l l' b e : chunk_field h' (start b e) LEFT_SIZE = l' ->
  chunk_field h' (start b e) SIZE_AND_USED = chunk_field h (start b e) SIZE_AND_USED ->
  (forall p, p ∈ (pos <$> tail b) \/ b <> [] /\ p = e -> chunk_field h' p LEFT_SIZE = chunk_field h p LEFT_SIZE /\
    chunk_field h' p SIZE_AND_USED = chunk_field h p SIZE_AND_USED) ->
  heads h l b e -> heads h' l' b e.
Proof.
  destruct b as [|c b]; simpl.
  - intros H1 H2 _ [_ H3]. by rewrite H2.
  - intros H1 H2 H3 (_ & H4 & H5). split; [done|]. split; [by rewrite H2|]. eapply heads_ext; [|exact H5].
    intros p [Hp| ->]; apply H3; [by left|by right].
Qed.

(** ** The invariant *)

Definition Zsum {A} (f : A -> Z) (l : list A) : Z := foldr (fun x acc => f x + acc) 0 l.
Lemma Zsum_app {A} (f : A -> Z) l k : Zsum f (l ++ k) = Zsum f l + Zsum f k.
Proof. induction l as [|x l IH]; simpl; [done|]. unfold Zsum in *. simpl. lia. Qed.
Lemma Zsum_cons {A} (f : A -> Z) x l : Zsum f (x :: l) = f x + Zsum f l.
Proof. done. Qed.

Definition usable (h : z_heap) (s : Z) : Z := 8 * s - 2 * W h - 8 * CHUNK_TRAILER_SIZE.
Definition listable (h : z_heap) (c : chunk) : Prop := c.(stat) = Free /\ min_chunk_size h <= c.(size).
#[export] Instance listable_dec h c : Decision (listable h c).
Proof. unfold listable. apply _. Defined.
Definition listed (h : z_heap) (b : Z) (cs : list chunk) : list chunk :=
  filter (fun c => listable h c /\ bucket_idx h c.(size) = b) cs.
Definition free_sum (h : z_heap) (cs : list chunk) : Z :=
  Zsum (fun c => if decide (listable h c) then usable h c.(size) else 0) cs.
Definition used_sum (h : z_heap) (cs : list chunk) : Z :=
  Zsum (fun c => if decide (c.(stat) = Used) then usable h c.(size) else 0) cs.

(** The links of a list of free chunks. *)
Fixpoint path (h : z_heap) (x : Z) (l : list Z) : Prop :=
  match l with [] => True | y :: r => next_free_chunk h x = y /\ prev_free_chunk h y = x /\ path h y r end.
Definition circle (h : z_heap) (l : list Z) : Prop := match l with [] => True | x :: r => path h x (r ++ [x]) end.
Definition bucket_ok (h : z_heap) (b : Z) (l : list Z) : Prop :=
  circle h l /\ h.(buckets) b = default 0 (head l) /\ Z.testbit h.(avail_buckets) b = bool_decide (l <> []).

Definition canary_val (h : z_heap) (p s : Z) : Z := (((p .>> 16) .| u32 (p .<< 16)) .^ s) .^ HEAP_CANARY_MAGIC h.
Definition canary_ok (h : z_heap) (c : chunk) : Prop :=
  ld 4 h.(hmem) (h.(heap_base) + 8 * (c.(pos) + c.(size) - CHUNK_TRAILER_SIZE)) = canary_val h c.(pos) c.(size).

Definition nb_buckets (h : z_heap) : Z := bucket_idx h h.(end_chunk) + 1.

Record heap_fits (h : z_heap) : Prop := {
  hf_base : 0 < h.(heap_base) /\ h.(heap_base) mod 8 = 0;
  hf_end : min_chunk_size h <= h.(end_chunk) /\ h.(heap_base) + 8 * h.(end_chunk) + 8 <= 2 ^ 32;
  hf_small : big_heap h = false -> h.(end_chunk) <= 32767;
  hf_canary : 0 <= h.(canary_base) < 2 ^ 32
}.

(** The chunks [cs] fill the heap, and [A] bytes count as allocated. *)
Record inv (h : z_heap) (A : Z) (cs : list chunk) : Prop := {
  iv_fits : heap_fits h;
  iv_tiles : tiles 0 cs h.(end_chunk);
  iv_heads : heads h 0 cs h.(end_chunk);
  iv_first : exists c0 r, cs = c0 :: r /\ c0.(stat) = Used;
  iv_min : forall c, c ∈ cs -> c.(stat) = Used -> min_chunk_size h <= c.(size);
  iv_lists : forall b, 0 <= b < nb_buckets h -> exists l, bucket_ok h b l /\ l ≡ₚ pos <$> listed h b cs;
  iv_avail : 0 <= h.(avail_buckets) < 2 ^ nb_buckets h;
  iv_canary : SYS_HEAP_HARDENING_FULL = true -> forall c, c ∈ cs -> c.(stat) = Used -> canary_ok h c;
  iv_free : CONFIG_SYS_HEAP_RUNTIME_STATS = true -> h.(free_bytes) = u32 (free_sum h cs);
  iv_alloc : CONFIG_SYS_HEAP_RUNTIME_STATS = true -> h.(allocated_bytes) = u32 A
}.

(** ** What a heap that fits computes *)

Lemma same_min h h' : same_heap h h' -> min_chunk_size h' = min_chunk_size h.
Proof. intros [_ E _]. unfold min_chunk_size, chunk_header_bytes, big_heap. by rewrite E. Qed.
Lemma same_bucket h h' s : same_heap h h' -> bucket_idx h' s = bucket_idx h s.
Proof. intros Hs. unfold bucket_idx. by rewrite (same_min _ _ Hs). Qed.
Lemma same_nb h h' : same_heap h h' -> nb_buckets h' = nb_buckets h.
Proof. intros Hs. unfold nb_buckets. by rewrite (same_bucket _ _ _ Hs), (sh_end _ _ Hs). Qed.
Lemma same_W h h' : same_heap h h' -> W h' = W h.
Proof. intros Hs. unfold W. by rewrite (same_width _ _ Hs). Qed.
Lemma same_listed h h' b cs : same_heap h h' -> listed h' b cs = listed h b cs.
Proof.
  intros Hs. unfold listed. apply list_filter_iff. intros c. unfold listable. by rewrite (same_min _ _ Hs), (same_bucket _ _ _ Hs).
Qed.
Lemma same_free_sum h h' cs : same_heap h h' -> free_sum h' cs = free_sum h cs.
Proof.
  intros Hs. unfold free_sum. induction cs as [|c cs IH]; [done|]. rewrite !Zsum_cons, IH. f_equal. unfold usable. rewrite (same_W _ _ Hs).
  apply decide_ext. unfold listable. by rewrite (same_min _ _ Hs).
Qed.
Lemma same_fits h h' : same_heap h h' -> heap_fits h -> heap_fits h'.
Proof.
  intros Hs [H1 H2 H3 H4]. split; rewrite ?(sh_base _ _ Hs), ?(sh_end _ _ Hs), ?(sh_canary _ _ Hs), ?(same_min _ _ Hs); try done.
  intros Hb. apply H3. unfold big_heap in *. by rewrite (sh_end _ _ Hs) in Hb.
Qed.

Section fits.
Context (h : z_heap) (Hf : heap_fits h).

Lemma end_range : 0 < h.(end_chunk) < 2 ^ 29.
Proof. destruct Hf as [[H1 _] [H2 H3] _ _]. pose proof (min_chunk_width h). pose proof trailer_range. destruct (width_cases h); lia. Qed.

Lemma field_fits s : 0 <= s <= h.(end_chunk) -> 2 * s + 1 < 2 ^ (8 * W h).
Proof.
  intros Hs. pose proof end_range. destruct (width_cases h) as [[-> _]|[-> Hb]]; [change (2 ^ (8 * 4)) with (2 ^ 32); lia|].
  pose proof (hf_small _ Hf Hb). change (2 ^ (8 * 2)) with 65536. lia.
Qed.

Lemma bucket_idx_log s : min_chunk_size h <= s < 2 ^ 31 -> bucket_idx h s = Z.log2 (s - min_chunk_size h + 1).
Proof.
  intros Hs. pose proof (min_chunk_width h). pose proof trailer_range. unfold bucket_idx. rewrite u32_small by (destruct (width_cases h); lia).
  rewrite u32_clz_spec by (destruct (width_cases h); lia). lia.
Qed.

Lemma bucket_idx_range s : min_chunk_size h <= s <= h.(end_chunk) -> 0 <= bucket_idx h s < nb_buckets h.
Proof.
  intros Hs. pose proof end_range. unfold nb_buckets. rewrite !bucket_idx_log by lia. split; [apply Z.log2_nonneg|].
  apply Z.lt_succ_r, Z.log2_le_mono. lia.
Qed.

Lemma nb_range : 0 < nb_buckets h <= 29.
Proof.
  pose proof end_range. pose proof (hf_end _ Hf) as [Hm _]. pose proof (bucket_idx_range h.(end_chunk) ltac:(lia)). split; [lia|].
  unfold nb_buckets. rewrite bucket_idx_log by lia. apply Z.le_succ_l, Z.log2_lt_pow2; [lia|].
  pose proof (min_chunk_width h). pose proof trailer_range. destruct (width_cases h); lia.
Qed.
End fits.

(** ** Reading chunks *)

Lemma used_bit_range c : 0 <= used_bit c <= 1.
Proof. unfold used_bit. case_decide; lia. Qed.
Lemma used_bit_bool c : negb (used_bit c =? 0) = bool_decide (c.(stat) = Used).
Proof. unfold used_bit. case_decide; [by rewrite bool_decide_true|by rewrite bool_decide_false]. Qed.

Section read.
Context {h : z_heap} {A : Z} {cs : list chunk} (Hi : inv h A cs).

Lemma chunk_range c : c ∈ cs -> 0 <= c.(pos) /\ 0 < c.(size) /\ c.(pos) + c.(size) <= h.(end_chunk).
Proof. intros Hc. by apply (tiles_bounds _ _ _ (iv_tiles _ _ _ Hi)). Qed.

Lemma chunk_head c : c ∈ cs -> chunk_field h c.(pos) SIZE_AND_USED = 2 * c.(size) + used_bit c.
Proof.
  intros (a & b & E)%list_elem_of_split. pose proof (iv_heads _ _ _ Hi) as H. rewrite E in H. apply heads_app in H as [_ H]. apply H.
Qed.

Lemma chunk_size_ok c : c ∈ cs -> chunk_size h c.(pos) = c.(size).
Proof.
  intros Hc. pose proof (chunk_range c Hc). by apply (size_of_field h c.(pos) c.(size) (used_bit c) (used_bit_range c) ltac:(lia)), chunk_head.
Qed.

Lemma chunk_used_ok c : c ∈ cs -> chunk_used h c.(pos) = bool_decide (c.(stat) = Used).
Proof.
  intros Hc. pose proof (chunk_range c Hc). rewrite <- used_bit_bool.
  by apply (size_of_field h c.(pos) c.(size) (used_bit c) (used_bit_range c) ltac:(lia)), chunk_head.
Qed.

Lemma end_used : chunk_used h h.(end_chunk) = true.
Proof.
  pose proof (iv_heads _ _ _ Hi) as H. rewrite <- (app_nil_r cs) in H. apply heads_app in H as [_ [_ H]].
  by destruct (size_of_field h h.(end_chunk) 0 1 ltac:(lia) ltac:(lia) H).
Qed.

Lemma right_chunk_ok c : c ∈ cs -> right_chunk h c.(pos) = c.(pos) + c.(size).
Proof.
  intros Hc. unfold right_chunk. rewrite (chunk_size_ok c Hc). pose proof (chunk_range c Hc). pose proof (end_range h (iv_fits _ _ _ Hi)).
  apply u32_small. lia.
Qed.

Lemma undersized_ok c : c ∈ cs -> undersized_chunk h c.(pos) = (c.(size) <? min_chunk_size h).
Proof.
  intros Hc. unfold undersized_chunk. rewrite (chunk_size_ok c Hc). pose proof (chunk_range c Hc). pose proof (min_chunk_width h).
  destruct (negb _ || _) eqn:E; [done|]. apply orb_false_iff in E as [E1 E2]. apply negb_false_iff, Z.eqb_eq in E1.
  destruct (width_cases h) as [[_ ?]|[? _]]; [congruence|]. symmetry. apply Z.ltb_ge. lia.
Qed.

Lemma usable_ok c : c ∈ cs -> chunk_usable_bytes h c.(pos) = u32 (usable h c.(size)).
Proof.
  intros Hc. unfold chunk_usable_bytes. rewrite (chunk_size_ok c Hc), header_width. f_equal. unfold usable, CHUNK_UNIT. lia.
Qed.

Lemma left_field a c b : cs = a ++ c :: b -> chunk_field h c.(pos) LEFT_SIZE = last_size 0 a.
Proof. intros E. pose proof (iv_heads _ _ _ Hi) as H. rewrite E in H. apply heads_app in H as [_ H]. apply H. Qed.

(** The neighbours of a chunk. *)
Lemma left_chunk_ok a x c b : cs = a ++ x :: c :: b -> left_chunk h c.(pos) = x.(pos).
Proof.
  intros E. unfold left_chunk. rewrite (left_field (a ++ [x]) c b) by (by rewrite E, <- app_assoc).
  unfold last_size. rewrite last_snoc. simpl. pose proof (iv_tiles _ _ _ Hi) as Ht. rewrite E in Ht.
  apply tiles_middle in Ht as (_ & Hx & Ht). simpl in Ht. pose proof (chunk_range x ltac:(rewrite E; set_solver)).
  pose proof (end_range h (iv_fits _ _ _ Hi)). rewrite u32_small; lia.
Qed.

Lemma right_left c : c ∈ cs -> left_chunk h (right_chunk h c.(pos)) = c.(pos).
Proof.
  intros Hc. rewrite right_chunk_ok by done. pose proof (chunk_range c Hc). pose proof (end_range h (iv_fits _ _ _ Hi)).
  apply list_elem_of_split in Hc as (a & b & E). pose proof (iv_tiles _ _ _ Hi) as Ht. pose proof (iv_heads _ _ _ Hi) as Hh.
  rewrite E in Ht, Hh. apply tiles_middle in Ht as (_ & Hx & Ht). apply heads_app in Hh as (_ & _ & _ & Hh). unfold left_chunk.
  assert (Hl : chunk_field h (pos c + size c) LEFT_SIZE = size c).
  { destruct b as [|y b]; [simpl in Ht; rewrite Ht; apply Hh|]. destruct Ht as (<- & _). apply Hh. }
  rewrite Hl, u32_small; lia.
Qed.

Lemma left_right a x c b : cs = a ++ x :: c :: b -> right_chunk h (left_chunk h c.(pos)) = c.(pos).
Proof.
  intros E. rewrite (left_chunk_ok a x c b E). rewrite right_chunk_ok by (rewrite E; set_solver).
  pose proof (iv_tiles _ _ _ Hi) as Ht. rewrite E in Ht. apply tiles_middle in Ht as (_ & Hx & Ht). simpl in Ht. lia.
Qed.

Lemma min_body c : c ∈ cs -> min_chunk_size h <= c.(size) -> 4 * W h + 8 * CHUNK_TRAILER_SIZE <= 8 * c.(size).
Proof. intros _ Hm. pose proof (min_chunk_width h). lia. Qed.

Lemma chunk_unique x y : x ∈ cs -> y ∈ cs -> x.(pos) = y.(pos) -> x = y.
Proof.
  intros Hx Hy E. pose proof (chunk_range x Hx). pose proof (chunk_range y Hy).
  destruct (tiles_sep _ _ _ x y (iv_tiles _ _ _ Hi) Hx Hy) as [|[|]]; [done|lia|lia].
Qed.
End read.

(** ** What a step leaves alone *)

(** A step that writes only in the bodies of the chunks [S]. *)
Definition in_bodies (h h' : z_heap) (S : list chunk) : Prop :=
  same_heap h h' /\ forall a, (forall x, x ∈ S -> ~ body h x a) -> h'.(hmem) a = h.(hmem) a.
(** A step that writes only the headers at [Q]. *)
Definition in_headers (h h' : z_heap) (Q : list Z) : Prop :=
  same_heap h h' /\ forall a, (forall q, q ∈ Q -> ~ h.(heap_base) + 8 * q <= a < h.(heap_base) + 8 * q + 2 * W h) -> h'.(hmem) a = h.(hmem) a.

Lemma in_bodies_field h h' S cs e p f : in_bodies h h' S -> tiles 0 cs e -> (forall x, x ∈ S -> x ∈ cs) ->
  p ∈ pos <$> cs \/ p = e -> f = LEFT_SIZE \/ f = SIZE_AND_USED -> chunk_field h' p f = chunk_field h p f.
Proof.
  intros [Hs Hm] Ht HS Hp Hf. apply field_ext; [done|]. intros a Ha. apply Hm. intros x Hx Hb. unfold body in Hb. apply HS in Hx.
  destruct (tiles_bounds _ _ _ Ht) as [_ HB]. pose proof (HB x Hx).
  assert (Ha' : h.(heap_base) + 8 * p <= a < h.(heap_base) + 8 * p + 2 * W h).
  { destruct (width_cases h) as [[Ew _]|[Ew _]]; destruct Hf as [-> | ->]; simpl in Ha; lia. }
  destruct (width_cases h) as [[Ew _]|[Ew _]]; rewrite Ew in *;
  (destruct Hp as [(y & -> & Hy)%list_elem_of_fmap| ->]; [|lia]; pose proof (HB y Hy);
   destruct (tiles_sep _ _ _ x y Ht Hx Hy) as [E|[|]]; [rewrite E in *; lia|lia|lia]).
Qed.

Lemma in_bodies_heads h h' S cs e l : in_bodies h h' S -> tiles 0 cs e -> (forall x, x ∈ S -> x ∈ cs) -> heads h l cs e -> heads h' l cs e.
Proof. intros Hb Ht HS. apply heads_ext. intros p Hp. split; eapply in_bodies_field; eauto. Qed.

Lemma in_bodies_body h h' S cs e y : in_bodies h h' S -> tiles 0 cs e -> (forall x, x ∈ S -> x ∈ cs) -> y ∈ cs -> y ∉ S -> body_same h h' y.
Proof.
  intros [Hs Hm] Ht HS Hy Hn a Ha. apply Hm. intros x Hx Hb. unfold body in *. pose proof (HS x Hx) as Hx'.
  destruct (tiles_sep _ _ _ x y Ht Hx' Hy) as [->|[|]]; [done|..]; destruct (width_cases h) as [[Ew _]|[Ew _]]; lia.
Qed.

Lemma in_headers_body h h' Q y : in_headers h h' Q -> (forall q, q ∈ Q -> q <= y.(pos) \/ y.(pos) + y.(size) <= q) -> body_same h h' y.
Proof.
  intros [Hs Hm] HQ a Ha. apply Hm. intros q Hq Hb. unfold body in *. pose proof (HQ q Hq). destruct (width_cases h) as [[Ew _]|[Ew _]]; lia.
Qed.

Lemma in_headers_set h c f v : f = LEFT_SIZE \/ f = SIZE_AND_USED -> in_headers h (chunk_set c f v h) [c].
Proof.
  intros Hf. split; [done|]. intros a Ha. apply field_other. specialize (Ha c ltac:(set_solver)).
  destruct (width_cases h) as [[Ew _]|[Ew _]]; destruct Hf as [-> | ->]; simpl; lia.
Qed.

Lemma in_headers_trans h1 h2 h3 Q R : in_headers h1 h2 Q -> in_headers h2 h3 R -> in_headers h1 h3 (Q ++ R).
Proof.
  intros [S1 M1] [S2 M2]. split; [by etrans|]. intros a Ha. rewrite M2, M1; [done|..].
  - intros q Hq. apply Ha. set_solver.
  - intros q Hq. rewrite (sh_base _ _ S1), (same_W _ _ S1). apply Ha. set_solver.
Qed.

(** ** Free lists as circles *)

Definition link_of (x : Z) (l : list Z) : Z := default x (last l).

Lemma path_snoc h x l y : path h x (l ++ [y]) <-> path h x l /\ next_free_chunk h (link_of x l) = y /\ prev_free_chunk h y = link_of x l.
Proof.
  revert x. induction l as [|z l IH]; intros x; simpl; [tauto|]. rewrite IH.
  replace (link_of x (z :: l)) with (link_of z l); [tauto|]. unfold link_of. rewrite last_cons. by destruct (last l).
Qed.

Lemma path_app h x l y r : path h x (l ++ y :: r) <-> path h x (l ++ [y]) /\ path h y r.
Proof. revert x. induction l as [|z l IH]; intros x; simpl; [tauto|]. rewrite IH. tauto. Qed.

Lemma circle_rotate h a b : circle h (a ++ b) -> circle h (b ++ a).
Proof.
  destruct a as [|x a], b as [|y b]; rewrite ?app_nil_r; simpl; try done.
  rewrite <- !app_assoc. simpl. rewrite (path_app h x a y (b ++ [x])), (path_app h y b x (a ++ [y])). tauto.
Qed.

Lemma path_ext h h' x l : NoDup (x :: l) ->
  (forall p, p ∈ x :: l -> p <> link_of x l -> next_free_chunk h' p = next_free_chunk h p) ->
  (forall p, p ∈ l -> prev_free_chunk h' p = prev_free_chunk h p) -> path h x l -> path h' x l.
Proof.
  revert x. induction l as [|y l IH]; intros x Hnd Hn Hp; [done|]. intros (H1 & H2 & H3).
  apply NoDup_cons in Hnd as [Hx Hnd]. apply NoDup_cons in Hnd as Hnd'. destruct Hnd' as [Hy Hnd'].
  assert (Hl : link_of x (y :: l) = link_of y l) by (unfold link_of; rewrite last_cons; by destruct (last l)).
  assert (Hin : link_of y l ∈ y :: l).
  { unfold link_of. destruct (last l) as [z|] eqn:E; simpl; [|set_solver]. rewrite last_lookup in E. apply list_elem_of_lookup_2 in E. set_solver. }
  split; [rewrite Hn; [done|set_solver|rewrite Hl; intros E; by rewrite <- E in Hin]|]. split; [rewrite Hp; [done|set_solver]|].
  apply IH; [done| | |done].
  - intros p Hq Hne. apply Hn; [set_solver|by rewrite Hl].
  - intros p Hq. apply Hp. set_solver.
Qed.

(** Links of different chunks are different cells. *)
Definition links_apart (h : z_heap) (p q : Z) : Prop := 8 * p + 4 * W h <= 8 * q \/ 8 * q + 4 * W h <= 8 * p.
Definition link_cells (h : z_heap) (ps : list Z) : Prop :=
  (forall p q, p ∈ ps -> q ∈ ps -> p = q \/ links_apart h p q) /\ forall p, p ∈ ps -> 0 <= p < 2 ^ (8 * W h).

Lemma next_set_next h p v q : links_apart h p q \/ p = q -> 0 <= v < 2 ^ (8 * W h) ->
  next_free_chunk (set_next_free_chunk p v h) q = if decide (q = p) then v else next_free_chunk h q.
Proof.
  intros Hpq Hv. unfold next_free_chunk, set_next_free_chunk. case_decide as E; [subst; by apply field_eq|].
  apply field_ne. destruct Hpq as [Hpq|]; [|congruence]. unfold links_apart in Hpq. destruct (width_cases h) as [[Ew _]|[Ew _]]; simpl; lia.
Qed.
Lemma prev_set_prev h p v q : links_apart h p q \/ p = q -> 0 <= v < 2 ^ (8 * W h) ->
  prev_free_chunk (set_prev_free_chunk p v h) q = if decide (q = p) then v else prev_free_chunk h q.
Proof.
  intros Hpq Hv. unfold prev_free_chunk, set_prev_free_chunk. case_decide as E; [subst; by apply field_eq|].
  apply field_ne. destruct Hpq as [Hpq|]; [|congruence]. unfold links_apart in Hpq. destruct (width_cases h) as [[Ew _]|[Ew _]]; simpl; lia.
Qed.
Lemma next_set_prev h p v q : links_apart h p q \/ p = q -> next_free_chunk (set_prev_free_chunk p v h) q = next_free_chunk h q.
Proof.
  intros Hpq. apply field_ne. unfold links_apart in Hpq. destruct (width_cases h) as [[Ew _]|[Ew _]]; simpl; lia.
Qed.
Lemma prev_set_next h p v q : links_apart h p q \/ p = q -> prev_free_chunk (set_next_free_chunk p v h) q = prev_free_chunk h q.
Proof.
  intros Hpq. apply field_ne. unfold links_apart in Hpq. destruct (width_cases h) as [[Ew _]|[Ew _]]; simpl; lia.
Qed.

Lemma link_of_elem x l : link_of x l ∈ x :: l.
Proof.
  unfold link_of. destruct (last l) as [z|] eqn:E; simpl; [|set_solver]. rewrite last_lookup in E. apply list_elem_of_lookup_2 in E. set_solver.
Qed.

(** Unlinking [c] from the circle it heads, and linking it in at the back. *)
Lemma circle_unlink h c y r : NoDup (c :: y :: r) -> link_cells h (c :: y :: r) -> circle h (c :: y :: r) ->
  next_free_chunk h c = y /\ prev_free_chunk h c = link_of y r /\ prev_free_chunk h y = c /\ next_free_chunk h (link_of y r) = c /\
  circle (set_prev_free_chunk y (link_of y r) (set_next_free_chunk (link_of y r) y h)) (y :: r).
Proof.
  intros Hnd [Hap Hrg] Hc. change (circle h (c :: y :: r)) with (path h c (y :: r ++ [c])) in Hc. destruct Hc as (H1 & H2 & H3).
  apply path_snoc in H3 as (H3 & H4 & H5). split_and!; try done. set (z := link_of y r) in *.
  assert (Hz : z ∈ y :: r) by apply link_of_elem. apply NoDup_cons in Hnd as [Hnc Hnd].
  assert (Hl : forall p q, p ∈ y :: r -> q ∈ y :: r -> links_apart h p q \/ p = q).
  { intros p q Hp Hq. destruct (Hap p q); [set_solver|set_solver|by right|by left]. }
  assert (Hy : y ∈ y :: r) by set_solver. pose proof (Hrg y ltac:(set_solver)) as Hry. pose proof (Hrg z ltac:(set_solver)) as Hrz.
  unfold circle. apply path_snoc. split; [|split].
  - eapply (path_ext h); [done|..|done]; intros p Hp.
    + intros Hpz. rewrite next_set_prev by (apply Hl; done). rewrite next_set_next by (done || apply Hl; done). rewrite decide_False; done.
    + rewrite prev_set_prev by (done || apply Hl; set_solver). rewrite decide_False by (apply NoDup_cons in Hnd; set_solver).
      apply prev_set_next, Hl; [done|set_solver].
  - rewrite next_set_prev by (apply Hl; done). rewrite next_set_next by (done || by right). by rewrite decide_True.
  - rewrite prev_set_prev by (done || by right). by rewrite decide_True.
Qed.

Lemma circle_link h c y r : NoDup (c :: y :: r) -> link_cells h (c :: y :: r) -> circle h (y :: r) ->
  prev_free_chunk h y = link_of y r /\ next_free_chunk h (link_of y r) = y /\
  circle (set_prev_free_chunk y c (set_next_free_chunk (link_of y r) c
    (set_next_free_chunk c y (set_prev_free_chunk c (link_of y r) h)))) (y :: r ++ [c]).
Proof.
  intros Hnd [Hap Hrg] Hc. unfold circle in Hc. apply path_snoc in Hc as (H3 & H4 & H5). split_and!; try done. set (z := link_of y r) in *.
  assert (Hz : z ∈ y :: r) by apply link_of_elem. apply NoDup_cons in Hnd as [Hnc Hnd].
  assert (Hl : forall p q, p ∈ c :: y :: r -> q ∈ c :: y :: r -> links_apart h p q \/ p = q).
  { intros p q Hp Hq. destruct (Hap p q); [done|done|by right|by left]. }
  assert (Hzc : z ∈ c :: y :: r) by set_solver. assert (Hyc : y ∈ c :: y :: r) by set_solver. assert (Hcc : c ∈ c :: y :: r) by set_solver.
  pose proof (Hrg _ Hyc) as Hry. pose proof (Hrg _ Hzc) as Hrz. pose proof (Hrg _ Hcc) as Hrc.
  assert (HN : forall p, p ∈ c :: y :: r -> next_free_chunk (set_prev_free_chunk y c (set_next_free_chunk z c
      (set_next_free_chunk c y (set_prev_free_chunk c z h)))) p = if decide (p = z) then c else if decide (p = c) then y else next_free_chunk h p).
  { intros p Hp. rewrite next_set_prev by (by apply Hl). rewrite !next_set_next by (done || by apply Hl). by rewrite next_set_prev by (by apply Hl). }
  assert (HP : forall p, p ∈ c :: y :: r -> prev_free_chunk (set_prev_free_chunk y c (set_next_free_chunk z c
      (set_next_free_chunk c y (set_prev_free_chunk c z h)))) p = if decide (p = y) then c else if decide (p = c) then z else prev_free_chunk h p).
  { intros p Hp. rewrite prev_set_prev by (done || by apply Hl). rewrite !prev_set_next by (by apply Hl). by rewrite prev_set_prev by (done || by apply Hl). }
  unfold circle. rewrite <- app_assoc. simpl. apply path_app. split; [apply path_snoc; fold z; split; [|split]|].
  - eapply (path_ext h); [done| | |done]; fold z.
    + intros p Hp Hpz. rewrite HN by (apply elem_of_cons; by right). rewrite !decide_False; [done|by intros ->|done].
    + intros p Hp. apply NoDup_cons in Hnd as [Hny _]. rewrite HP by (do 2 (apply elem_of_cons; right); done).
      rewrite !decide_False; [done|intros ->; apply Hnc, elem_of_cons; by right|by intros ->].
  - rewrite HN by done. by rewrite decide_True.
  - rewrite HP by done. rewrite decide_False by (intros E; apply Hnc; rewrite E; by left). by rewrite decide_True.
  - split; [|split; [|done]].
    + rewrite HN by done. rewrite decide_False by (by intros E; rewrite E in Hnc). by rewrite decide_True.
    + rewrite HP by done. by rewrite decide_True.
Qed.

End inv.
