(* ===== verification/HeapStep.v ===== *)
(** What the steps of the allocator do to the layout of a heap: putting chunks on the
    free lists and taking them off, splitting, merging and marking them. *)

From S2P Require Import Prelude MathExtras Ring HeapMem Heap HeapInv.

#[local] Open Scope Z_scope.

(** Side conditions on header fields. *)
Ltac hdr := first [done|by left|by right|left; lia].

Section step.
Context `{HC : HeapConfig}.

(** The allocated chunks keep their bodies. *)
Definition keeps (h h' : z_heap) (cs : list chunk) : Prop :=
  same_heap h h' /\ forall x, x ∈ cs -> x.(stat) = Used -> body_same h h' x.

Lemma body_same_trans h1 h2 h3 x : same_heap h1 h2 -> body_same h1 h2 x -> body_same h2 h3 x -> body_same h1 h3 x.
Proof.
  intros Hs H1 H2 a Ha. rewrite H2, H1; [done|done|]. unfold body. by rewrite (sh_base _ _ Hs), (same_W _ _ Hs).
Qed.

Lemma keeps_trans h1 h2 h3 cs cs' : keeps h1 h2 cs -> keeps h2 h3 cs' ->
  (forall x, x ∈ cs -> x.(stat) = Used -> x ∈ cs') -> keeps h1 h3 cs.
Proof.
  intros [S1 K1] [S2 K2] Hx. split; [by etrans|]. intros x Hin Hu. eapply body_same_trans; [done|by apply K1|]. apply K2; [by apply Hx|done].
Qed.

(** ** Lists of chunks and their sums *)

Lemma Zsum_perm {A} (f : A -> Z) l k : l ≡ₚ k -> Zsum f l = Zsum f k.
Proof. induction 1; rewrite ?Zsum_cons; lia. Qed.

Lemma free_sum_filter h cs : free_sum h cs = Zsum (fun c => usable h c.(size)) (filter (listable h) cs).
Proof.
  unfold free_sum. induction cs as [|c cs IH]; [done|]. rewrite Zsum_cons, IH, filter_cons. case_decide; [by rewrite Zsum_cons|lia].
Qed.

Lemma chunks_nodup p cs e : tiles p cs e -> NoDup cs.
Proof. intros H. eapply NoDup_fmap_1. by eapply tiles_nodup. Qed.

Lemma filter_perm (P : chunk -> Prop) `{!forall c, Decision (P c)} cs cs' : NoDup cs -> NoDup cs' ->
  (forall c, P c -> c ∈ cs <-> c ∈ cs') -> filter P cs ≡ₚ filter P cs'.
Proof.
  intros H1 H2 Hx. apply NoDup_Permutation; [by apply NoDup_filter|by apply NoDup_filter|].
  intros c. rewrite !list_elem_of_filter. split; intros [Hp Hc]; (split; [done|]; by apply Hx).
Qed.

(** ** Steps on headers *)

Lemma links_same h h' y : same_heap h h' -> body_same h h' y -> 4 * W h <= 8 * y.(size) ->
  next_free_chunk h' y.(pos) = next_free_chunk h y.(pos) /\ prev_free_chunk h' y.(pos) = prev_free_chunk h y.(pos).
Proof.
  intros Hs Hb Hm. split; apply field_ext; try done; intros a Ha; apply Hb; unfold body; simpl in Ha; lia.
Qed.

Lemma circle_ext h h' l : NoDup l -> (forall p, p ∈ l -> next_free_chunk h' p = next_free_chunk h p /\ prev_free_chunk h' p = prev_free_chunk h p) ->
  circle h l -> circle h' l.
Proof.
  destruct l as [|x l]; [done|]. intros Hnd Hl Hc. unfold circle in *. apply path_snoc in Hc as (H1 & H2 & H3). apply path_snoc. split.
  - eapply path_ext; [done|..|done]; intros p Hp; [intros _|]; apply Hl; [done|]. apply elem_of_cons. by right.
  - destruct (Hl (link_of x l)) as [-> _]; [apply link_of_elem|]. destruct (Hl x) as [_ ->]; [apply elem_of_cons; by left|]. done.
Qed.

Lemma listed_spec h b cs p : p ∈ pos <$> listed h b cs <-> exists c, c ∈ cs /\ listable h c /\ bucket_idx h c.(size) = b /\ p = c.(pos).
Proof.
  rewrite list_elem_of_fmap. unfold listed. split.
  - intros (c & -> & ([H1 H2] & H3)%list_elem_of_filter). by exists c.
  - intros (c & H1 & H2 & H3 & ->). exists c. split; [done|]. by apply list_elem_of_filter.
Qed.

Lemma listed_nodup h b cs p e : tiles p cs e -> NoDup (pos <$> listed h b cs).
Proof. intros Ht. unfold listed. eapply sublist_NoDup; [by eapply tiles_nodup|]. apply fmap_sublist, sublist_filter. Qed.

Lemma listable_links h c : listable h c -> 4 * W h <= 8 * c.(size).
Proof. intros [_ Hm]. pose proof (min_chunk_width h). pose proof trailer_range. lia. Qed.

(** The canary of a chunk is in its body. *)
Lemma canary_same h h' c : same_heap h h' -> SYS_HEAP_HARDENING_FULL = true -> min_chunk_size h <= c.(size) ->
  body_same h h' c -> canary_ok h c -> canary_ok h' c.
Proof.
  intros Hs Hf Hm Hb Hc. pose proof (min_chunk_width h) as Hw. unfold canary_ok, canary_val, HEAP_CANARY_MAGIC in *.
  rewrite (sh_base _ _ Hs), (sh_canary _ _ Hs), <- Hc. apply ld_ext. intros a Ha. apply Hb. unfold body.
  unfold CHUNK_TRAILER_SIZE, CONFIG_SYS_HEAP_CANARIES in *. rewrite Hf in *. destruct (width_cases h) as [[Ew _]|[Ew _]]; lia.
Qed.

(** Chunks in limbo may change in any way; a chunk may become allocated. *)
Lemma inv_step h h' A cs cs' : inv h A cs -> same_heap h h' -> h'.(buckets) = h.(buckets) ->
  h'.(avail_buckets) = h.(avail_buckets) -> h'.(free_bytes) = h.(free_bytes) -> h'.(allocated_bytes) = h.(allocated_bytes) ->
  tiles 0 cs' h.(end_chunk) -> heads h' 0 cs' h.(end_chunk) -> (exists c0 r, cs' = c0 :: r /\ c0.(stat) = Used) ->
  (forall y, y ∈ cs' -> y.(stat) = Free -> y ∈ cs /\ body_same h h' y) -> (forall y, y ∈ cs -> y.(stat) = Free -> y ∈ cs') ->
  (forall y, y ∈ cs' -> y.(stat) = Used -> y ∈ cs /\ body_same h h' y \/
    min_chunk_size h <= y.(size) /\ (SYS_HEAP_HARDENING_FULL = true -> canary_ok h' y)) ->
  inv h' A cs'.
Proof.
  intros Hi Hs E1 E2 E3 E4 Ht Hh Hf Hk Hfr Hus. pose proof (iv_tiles _ _ _ Hi) as Ht0.
  assert (Hex : forall c, listable h c -> c ∈ cs' <-> c ∈ cs).
  { intros c [Hl _]. split; intros Hc; [|by apply Hfr]. by apply Hk. }
  split; rewrite ?(sh_end _ _ Hs), ?(same_nb _ _ Hs), ?E1, ?E2, ?E3, ?E4; try done; try apply Hi.
  - eapply same_fits; [done|apply Hi].
  - intros c Hc Hu. rewrite (same_min _ _ Hs). destruct (Hus c Hc Hu) as [[Hc' _]|[Hm _]]; [by apply Hi|done].
  - intros b Hb. destruct (iv_lists _ _ _ Hi b Hb) as (l & [B1 [B2 B3]] & Hp).
    assert (Hperm : listed h b cs' ≡ₚ listed h b cs).
    { apply filter_perm; [by eapply chunks_nodup|by eapply chunks_nodup|]. intros c [Hl _]. by apply Hex. }
    exists l. rewrite (same_listed _ _ _ _ Hs), Hperm. split; [|done]. unfold bucket_ok. rewrite E1, E2. split; [|done].
    eapply circle_ext; [rewrite Hp; by eapply listed_nodup| |done]. intros p. rewrite Hp. intros (c & Hc & Hl & _ & ->)%listed_spec.
    apply links_same; [done| |by apply listable_links]. apply Hk; [by apply Hex|by apply Hl].
  - intros Hfull c Hc Hu. destruct (Hus c Hc Hu) as [[Hc' Hb]|[_ Hx]]; [|by apply Hx]. eapply canary_same; try done; by apply Hi.
  - intros Hst. rewrite (iv_free _ _ _ Hi Hst). f_equal. rewrite (same_free_sum _ _ _ Hs), !free_sum_filter.
    apply Zsum_perm, filter_perm; [by eapply chunks_nodup|by eapply chunks_nodup|]. intros c Hl. symmetry. by apply Hex.
Qed.

Lemma inv_header h h' A cs cs' : inv h A cs -> same_heap h h' -> h'.(buckets) = h.(buckets) ->
  h'.(avail_buckets) = h.(avail_buckets) -> h'.(free_bytes) = h.(free_bytes) -> h'.(allocated_bytes) = h.(allocated_bytes) ->
  tiles 0 cs' h.(end_chunk) -> heads h' 0 cs' h.(end_chunk) -> (exists c0 r, cs' = c0 :: r /\ c0.(stat) = Used) ->
  (forall y, y ∈ cs' -> y.(stat) <> Limbo -> y ∈ cs /\ body_same h h' y) -> (forall y, y ∈ cs -> y.(stat) = Free -> y ∈ cs') ->
  inv h' A cs'.
Proof.
  intros. eapply inv_step; try done.
  - intros y Hy Hs. apply H8; [done|]. by rewrite Hs.
  - intros y Hy Hs. left. apply H8; [done|]. by rewrite Hs.
Qed.

(** ** Splitting and merging *)

Definition is_header (f : chunk_fields) : Prop := f = LEFT_SIZE \/ f = SIZE_AND_USED.

Lemma header_ne h c f v c' f' : is_header f -> is_header f' -> c <> c' \/ f <> f' ->
  chunk_field (chunk_set c f v h) c' f' = chunk_field h c' f'.
Proof.
  intros [-> | ->] [-> | ->] Hne; apply field_ne; destruct (width_cases h) as [[Ew _]|[Ew _]]; rewrite Ew; simpl; destruct Hne; try done; lia.
Qed.

Lemma double_size h s : heap_fits h -> 0 <= s <= h.(end_chunk) -> u32 (s .<< 1) = 2 * s.
Proof. intros Hf Hs. pose proof (end_range h Hf). rewrite Z.shiftl_mul_pow2, u32_small by lia. lia. Qed.

Lemma double_fits h s : heap_fits h -> 0 <= s <= h.(end_chunk) -> 0 <= 2 * s < 2 ^ (8 * W h).
Proof. intros Hf Hs. pose proof (field_fits h Hf s Hs). lia. Qed.
Lemma size_fits h s : heap_fits h -> 0 <= s <= h.(end_chunk) -> 0 <= s < 2 ^ (8 * W h).
Proof. intros Hf Hs. pose proof (field_fits h Hf s Hs). lia. Qed.

(** A layout around a chunk, and its headers. *)
Lemma layout_mid h A a c b : inv h A (a ++ c :: b) ->
  heads_seg h 0 a /\ chunk_field h c.(pos) LEFT_SIZE = last_size 0 a /\ heads h c.(size) b h.(end_chunk) /\
  (forall x, x ∈ a -> 0 <= x.(pos) < c.(pos)) /\ (forall x, x ∈ b -> c.(pos) + c.(size) <= x.(pos) < h.(end_chunk)) /\
  start b h.(end_chunk) = c.(pos) + c.(size) /\ c.(pos) + c.(size) <= h.(end_chunk) /\ tiles 0 a c.(pos) /\
  tiles (c.(pos) + c.(size)) b h.(end_chunk).
Proof.
  intros Hi. pose proof (iv_heads _ _ _ Hi) as Hh. apply heads_app in Hh as (H1 & H2 & _ & H3).
  pose proof (iv_tiles _ _ _ Hi) as Ht. apply tiles_middle in Ht as (T1 & T2 & T3).
  destruct (tiles_bounds _ _ _ T1) as [_ B1]. destruct (tiles_bounds _ _ _ T3) as [B3 B2]. split_and!; try done.
  - intros x Hx. specialize (B1 x Hx). lia.
  - intros x Hx. specialize (B2 x Hx). lia.
  - by apply tiles_start in T3.
Qed.

Section at_chunk.
Context {h : z_heap} {A : Z} {cs : list chunk} {p s : Z} {st : status} (Hi : inv h A cs) (Hc : Chunk p s st ∈ cs).
Lemma range_at : 0 <= p /\ 0 < s /\ p + s <= h.(end_chunk).
Proof. exact (chunk_range Hi _ Hc). Qed.
Lemma size_at : chunk_size h p = s.
Proof. exact (chunk_size_ok Hi _ Hc). Qed.
Lemma used_at : chunk_used h p = bool_decide (st = Used).
Proof. exact (chunk_used_ok Hi _ Hc). Qed.
Lemma right_at : right_chunk h p = p + s.
Proof. exact (right_chunk_ok Hi _ Hc). Qed.
Lemma undersized_at : undersized_chunk h p = (s <? min_chunk_size h).
Proof. exact (undersized_ok Hi _ Hc). Qed.
Lemma usable_at : chunk_usable_bytes h p = u32 (usable h s).
Proof. exact (usable_ok Hi _ Hc). Qed.
Lemma head_at : chunk_field h p SIZE_AND_USED = 2 * s + (if decide (st = Used) then 1 else 0).
Proof. exact (chunk_head Hi _ Hc). Qed.
End at_chunk.

(** The headers in front of and behind a chunk, after writes at [p .. q]. *)
Lemma heads_around h h' a l l' b e p q : heads_seg h 0 a -> heads h l b e -> tiles q b e ->
  (forall x, x ∈ a -> 0 <= x.(pos) < p) ->
  (forall x f, is_header f -> x < p \/ q < x -> chunk_field h' x f = chunk_field h x f) ->
  chunk_field h' q LEFT_SIZE = l' -> chunk_field h' q SIZE_AND_USED = chunk_field h q SIZE_AND_USED ->
  heads_seg h' 0 a /\ heads h' l' b e.
Proof.
  intros Ha Hb Ht Hap Hx H1 H2. split.
  - eapply heads_seg_ext; [|exact Ha]. intros c Hc. specialize (Hap c Hc). split; apply Hx; first [by left|by right|left; lia].
  - pose proof (tiles_start _ _ _ Ht) as Hst. eapply heads_relink; [by rewrite Hst|by rewrite Hst| |exact Hb].
    intros r Hr. assert (q < r).
    { destruct (tiles_bounds _ _ _ Ht) as [_ B]. destruct b as [|c b]; [destruct Hr as [Hr|[? _]]; [by apply elem_of_nil in Hr|done]|].
      destruct Ht as (E & Hs & Ht). destruct (tiles_bounds _ _ _ Ht) as [B3 B2].
      destruct Hr as [(x & -> & Hxb)%list_elem_of_fmap|[_ ->]]; [specialize (B2 x Hxb)|]; lia. }
    split; apply Hx; first [by left|by right|right; lia].
Qed.

Lemma first_app a c b : (exists c0 r, a ++ c :: b = c0 :: r /\ c0.(stat) = Used) -> c.(stat) <> Used \/ a <> [] ->
  forall b', exists c0 r, a ++ b' = c0 :: r /\ c0.(stat) = Used.
Proof.
  intros (c0 & r & E & Hu) Hc b'. destruct a as [|x a]; simpl in E.
  - simplify_eq. destruct Hc; done.
  - simplify_eq. by exists c0, (a ++ b').
Qed.

Lemma split_eq h A a p s st b l : inv h A (a ++ Chunk p s st :: b) -> 0 < l < s ->
  split_chunks p (p + l) h = chunk_set (p + s) LEFT_SIZE (s - l) (chunk_set (p + l) LEFT_SIZE l
    (chunk_set (p + l) SIZE_AND_USED (2 * (s - l)) (chunk_set p SIZE_AND_USED (2 * l) h))).
Proof.
  intros Hi Hl. pose proof (iv_fits _ _ _ Hi) as Hf. pose proof (end_range h Hf).
  pose proof (chunk_range Hi (Chunk p s st) ltac:(set_solver)) as Hr. simpl in Hr. unfold split_chunks. cbv zeta.
  rewrite (size_at Hi (st := st) (s := s)) by set_solver. replace (p + l - p) with l by lia. rewrite (u32_small l), (u32_small (s - l)) by lia.
  unfold set_chunk_size, set_left_chunk_size. rewrite !(double_size h) by (done || lia).
  set (h3 := chunk_set (p + l) LEFT_SIZE l _). assert (E : chunk_field h3 (p + l) SIZE_AND_USED = 2 * (s - l) + 0).
  { unfold h3. rewrite header_ne by hdr. rewrite field_eq; [lia|]. apply (double_fits h); [done|lia]. }
  apply size_of_field in E as [E _]; [|lia|lia]. unfold right_chunk. rewrite E, u32_small by lia. by replace (p + l + (s - l)) with (p + s) by lia.
Qed.

Lemma in_headers_app h1 h2 c f v Q : in_headers h1 h2 Q -> is_header f -> in_headers h1 (chunk_set c f v h2) (Q ++ [c]).
Proof. intros H1 Hf. eapply in_headers_trans; [done|]. by apply in_headers_set. Qed.

Lemma split_ok h A a p s st b l : inv h A (a ++ Chunk p s st :: b) -> st <> Free -> st <> Used \/ a <> [] -> 0 < l < s ->
  let h' := split_chunks p (p + l) h in
  inv h' A (a ++ Chunk p l Limbo :: Chunk (p + l) (s - l) Limbo :: b) /\ in_headers h h' [p; p + l; p + l; p + s].
Proof.
  intros Hi Hst Ha Hl. cbv zeta. rewrite (split_eq h A a p s st b l Hi Hl). pose proof (iv_fits _ _ _ Hi) as Hf.
  destruct (layout_mid _ _ _ _ _ Hi) as (L1 & L2 & L3 & L4 & L5 & L6 & L7 & L8 & L9). cbn [pos size] in *.
  assert (Hp : 0 <= p) by (apply (chunk_range Hi (Chunk p s st)); set_solver).
  set (h1 := chunk_set p _ _ h). set (h2 := chunk_set (p + l) SIZE_AND_USED _ h1). set (h3 := chunk_set (p + l) LEFT_SIZE _ h2).
  set (h' := chunk_set (p + s) LEFT_SIZE _ h3).
  assert (Hin : in_headers h h' [p; p + l; p + l; p + s]).
  { apply (in_headers_app h h3 _ _ _ [p; p + l; p + l]); [|by left]. apply (in_headers_app h h2 _ _ _ [p; p + l]); [|by left].
    apply (in_headers_app h h1 _ _ _ [p]); [|by right]. apply in_headers_set. by right. }
  split; [|done].
  assert (Hx : forall x f, is_header f -> x < p \/ p + s < x -> chunk_field h' x f = chunk_field h x f).
  { intros x f Hh Hx. unfold h', h3, h2, h1. by rewrite !header_ne by hdr. }
  destruct (heads_around h h' a s (s - l) b h.(end_chunk) p (p + s) L1 L3 L9 L4 Hx) as [G1 G2].
  { unfold h'. apply field_eq. apply (size_fits h); [done|lia]. }
  { unfold h', h3, h2, h1. by rewrite !header_ne by hdr. }
  assert (F1 : chunk_field h' p LEFT_SIZE = last_size 0 a).
  { unfold h', h3, h2, h1. by rewrite !header_ne by hdr. }
  assert (F2 : chunk_field h' p SIZE_AND_USED = 2 * l).
  { unfold h', h3, h2. rewrite !header_ne by hdr.
    unfold h1. apply field_eq, (double_fits h); [done|lia]. }
  assert (F3 : chunk_field h' (p + l) LEFT_SIZE = l).
  { unfold h'. rewrite header_ne by hdr. unfold h3. apply field_eq, (size_fits h); [done|lia]. }
  assert (F4 : chunk_field h' (p + l) SIZE_AND_USED = 2 * (s - l)).
  { unfold h', h3. rewrite !header_ne by hdr. unfold h2. apply field_eq, (double_fits h); [done|lia]. }
  eapply (inv_header h h' A _ _ Hi); try done.
  - apply tiles_app. exists p. split; [done|]. simpl. split; [done|]. split; [lia|]. split; [done|]. split; [lia|].
    replace (p + l + (s - l)) with (p + s) by lia. done.
  - apply heads_app. split; [done|]. simpl. unfold used_bit. simpl. split_and!; (done || lia).
  - eapply first_app; [apply Hi|done].
  - intros y Hy Hny. assert (Hyc : y ∈ a \/ y ∈ b).
    { rewrite elem_of_app, !elem_of_cons in Hy. destruct Hy as [?|[->|[->|?]]]; try done; tauto. }
    split; [apply elem_of_app; destruct Hyc; [by left|right; apply elem_of_cons; by right]|].
    eapply in_headers_body; [exact Hin|]. intros q Hq.
    destruct (tiles_bounds _ _ _ L8) as [_ B8]. destruct Hyc as [Hya|Hyb]; [specialize (B8 y Hya)|specialize (L5 y Hyb)];
      (apply elem_of_cons in Hq as [->|[->|[->| ->%list_elem_of_singleton]%elem_of_cons]%elem_of_cons]; lia).
  - intros y Hy Hyf. rewrite elem_of_app, elem_of_cons in Hy. destruct Hy as [?|[->|?]]; [set_solver|done|set_solver].
Qed.

Lemma merge_eq h A a p s st t st2 b : inv h A (a ++ Chunk p s st :: Chunk (p + s) t st2 :: b) ->
  merge_chunks p (p + s) h = chunk_set (p + s + t) LEFT_SIZE (s + t) (chunk_set p SIZE_AND_USED (2 * (s + t)) h).
Proof.
  intros Hi. pose proof (iv_fits _ _ _ Hi) as Hf. pose proof (end_range h Hf). unfold merge_chunks. cbv zeta.
  assert (H1 : Chunk p s st ∈ a ++ Chunk p s st :: Chunk (p + s) t st2 :: b) by set_solver.
  assert (H2 : Chunk (p + s) t st2 ∈ a ++ Chunk p s st :: Chunk (p + s) t st2 :: b) by set_solver.
  pose proof (range_at Hi H1). pose proof (range_at Hi H2). rewrite (size_at Hi H1), (size_at Hi H2), u32_small by lia.
  unfold set_chunk_size, set_left_chunk_size. rewrite (double_size h) by (done || lia). unfold right_chunk, chunk_size.
  rewrite header_ne by hdr. fold (chunk_size h (p + s)). rewrite (size_at Hi H2), u32_small by lia. done.
Qed.

Lemma merge_ok h A a p s st t b : inv h A (a ++ Chunk p s st :: Chunk (p + s) t Limbo :: b) -> st <> Free -> st <> Used \/ a <> [] ->
  let h' := merge_chunks p (p + s) h in
  inv h' A (a ++ Chunk p (s + t) Limbo :: b) /\ in_headers h h' [p; p + s + t].
Proof.
  intros Hi Hst Ha. cbv zeta. rewrite (merge_eq _ _ _ _ _ _ _ _ _ Hi). pose proof (iv_fits _ _ _ Hi) as Hf.
  assert (M1 : Chunk p s st ∈ a ++ Chunk p s st :: Chunk (p + s) t Limbo :: b) by set_solver.
  assert (M2 : Chunk (p + s) t Limbo ∈ a ++ Chunk p s st :: Chunk (p + s) t Limbo :: b) by set_solver.
  pose proof (range_at Hi M1) as R1. pose proof (range_at Hi M2) as R2.
  destruct (layout_mid _ _ _ _ _ Hi) as (L1 & L2 & _ & L4 & L5 & _ & _ & L8 & L9). cbn [pos size] in *.
  assert (Hi2 : inv h A ((a ++ [Chunk p s st]) ++ Chunk (p + s) t Limbo :: b)) by (by rewrite <- app_assoc).
  destruct (layout_mid _ _ _ _ _ Hi2) as (_ & _ & K3 & _ & K5 & _ & _ & _ & K9). cbn [pos size] in *.
  set (h1 := chunk_set p _ _ h). set (h' := chunk_set (p + s + t) LEFT_SIZE _ h1).
  assert (Hin : in_headers h h' [p; p + s + t]).
  { apply (in_headers_app h h1 _ _ _ [p]); [|by left]. apply in_headers_set. by right. }
  split; [|done].
  assert (Hx : forall x f, is_header f -> x < p \/ p + s + t < x -> chunk_field h' x f = chunk_field h x f).
  { intros x f Hh Hx. unfold h', h1. by rewrite !header_ne by hdr. }
  destruct (heads_around h h' a t (s + t) b h.(end_chunk) p (p + s + t) L1 K3 K9 L4 Hx) as [G1 G2].
  { unfold h'. apply field_eq. apply (size_fits h); [done|lia]. }
  { unfold h', h1. by rewrite !header_ne by hdr. }
  assert (F1 : chunk_field h' p LEFT_SIZE = last_size 0 a) by (unfold h', h1; by rewrite !header_ne by hdr).
  assert (F2 : chunk_field h' p SIZE_AND_USED = 2 * (s + t)).
  { unfold h'. rewrite header_ne by hdr. unfold h1. apply field_eq, (double_fits h); [done|lia]. }
  eapply (inv_header h h' A _ _ Hi); try done.
  - apply tiles_app. exists p. split; [done|]. simpl. split; [done|]. split; [lia|]. by replace (p + (s + t)) with (p + s + t) by lia.
  - apply heads_app. split; [done|]. simpl. unfold used_bit. simpl. split_and!; (done || lia).
  - eapply first_app; [apply Hi|done].
  - intros y Hy Hny. assert (Hyc : y ∈ a \/ y ∈ b) by (rewrite elem_of_app, elem_of_cons in Hy; destruct Hy as [?|[->|?]]; try done; tauto).
    split; [apply elem_of_app; destruct Hyc; [by left|right; by do 2 (apply elem_of_cons; right)]|].
    eapply in_headers_body; [exact Hin|]. intros q Hq. destruct (tiles_bounds _ _ _ L8) as [_ B8].
    apply elem_of_cons in Hq as [->| ->%list_elem_of_singleton]; (destruct Hyc as [Hya|Hyb]; [specialize (B8 y Hya)|specialize (K5 y Hyb)]; lia).
  - intros y [?|[->|[->|?]%elem_of_cons]%elem_of_cons]%elem_of_app Hyf; [apply elem_of_app; by left|done|done|apply elem_of_app; right; apply elem_of_cons; by right].
Qed.

(** ** Marking *)

Lemma lor_one_even x : (2 * x) .| 1 = 2 * x + 1.
Proof.
  pose proof (lor_shiftl_add 1 1 x ltac:(lia) ltac:(lia)) as E. rewrite Z.shiftl_mul_pow2, Z.lor_comm in E by lia.
  change (2 ^ 1) with 2 in E. rewrite (Z.mul_comm x 2) in E. lia.
Qed.
Lemma lor_one_odd x : (2 * x + 1) .| 1 = 2 * x + 1.
Proof. rewrite <- (lor_one_even x). by rewrite <- Z.lor_assoc. Qed.
Lemma clear_one_even x : (2 * x) .& Z.lnot 1 = 2 * x.
Proof.
  rewrite <- Z.ldiff_land. change 1 with (Z.ones 1). rewrite Z.ldiff_ones_r, Z.shiftr_div_pow2, Z.shiftl_mul_pow2 by lia.
  Z.to_euclidean_division_equations. lia.
Qed.
Lemma clear_one_odd x : (2 * x + 1) .& Z.lnot 1 = 2 * x.
Proof.
  rewrite <- Z.ldiff_land. change 1 with (Z.ones 1) at 2. rewrite Z.ldiff_ones_r, Z.shiftr_div_pow2, Z.shiftl_mul_pow2 by lia.
  Z.to_euclidean_division_equations. lia.
Qed.

Lemma mark_eq h A a p s st b (u : bool) : inv h A (a ++ Chunk p s st :: b) ->
  set_chunk_used p u h = chunk_set p SIZE_AND_USED (2 * s + (if u then 1 else 0)) h.
Proof.
  intros Hi. unfold set_chunk_used. rewrite (head_at Hi (st := st) (s := s)) by set_solver. f_equal.
  pose proof (range_at Hi (st := st) (s := s) (p := p) ltac:(set_solver)).
  assert (Hv : (if decide (st = Used) then 1 else 0) = 0 \/ (if decide (st = Used) then 1 else 0) = 1) by (case_decide; lia).
  set (v := if decide (st = Used) then 1 else 0) in *. clearbody v. destruct u.
  - destruct Hv as [-> | ->]; [rewrite Z.add_0_r; apply lor_one_even|apply lor_one_odd].
  - destruct Hv as [-> | ->]; rewrite ?Z.add_0_r; [apply clear_one_even|apply clear_one_odd].
Qed.

(** The headers of a layout after a change of the mark of one chunk. *)
Lemma heads_marked h A a p s st b st' h' : inv h A (a ++ Chunk p s st :: b) ->
  (forall x f, is_header f -> x <> p -> chunk_field h' x f = chunk_field h x f) ->
  chunk_field h' p LEFT_SIZE = chunk_field h p LEFT_SIZE ->
  chunk_field h' p SIZE_AND_USED = 2 * s + used_bit (Chunk p s st') ->
  heads h' 0 (a ++ Chunk p s st' :: b) h.(end_chunk).
Proof.
  intros Hi Hx H1 H2. destruct (layout_mid _ _ _ _ _ Hi) as (L1 & L2 & L3 & L4 & L5 & _ & L7 & _ & _). cbn [pos size] in *.
  pose proof (range_at Hi (st := st) (s := s) (p := p) ltac:(set_solver)).
  apply heads_app. split; [|simpl; split; [congruence|split; [done|]]].
  - eapply heads_seg_ext; [|exact L1]. intros c Hc. specialize (L4 c Hc). split; apply Hx; first [by left|by right|lia].
  - eapply heads_ext; [|exact L3]. intros x Hxb. assert (x <> p).
    { destruct Hxb as [(y & -> & Hy)%list_elem_of_fmap| ->]; [specialize (L5 y Hy)|]; lia. }
    split; apply Hx; first [by left|by right|done].
Qed.

Lemma tiles_marked h A a p s st b st' : inv h A (a ++ Chunk p s st :: b) -> tiles 0 (a ++ Chunk p s st' :: b) h.(end_chunk).
Proof. intros Hi. pose proof (iv_tiles _ _ _ Hi) as Ht. apply tiles_app in Ht as (q & T1 & T2). apply tiles_app. by exists q. Qed.

Lemma unuse_ok h A a p s b : inv h A (a ++ Chunk p s Used :: b) -> a <> [] ->
  let h' := set_chunk_used p false h in inv h' A (a ++ Chunk p s Limbo :: b) /\ in_headers h h' [p].
Proof.
  intros Hi Ha. cbv zeta. rewrite (mark_eq _ _ _ _ _ _ _ false Hi), Z.add_0_r. pose proof (iv_fits _ _ _ Hi) as Hf.
  pose proof (range_at Hi (st := Used) (s := s) (p := p) ltac:(set_solver)). pose proof (iv_tiles _ _ _ Hi) as Ht.
  set (h' := chunk_set p SIZE_AND_USED (2 * s) h). assert (Hin : in_headers h h' [p]) by (apply in_headers_set; by right).
  split; [|done]. eapply (inv_header h h' A _ _ Hi); try done.
  - by eapply tiles_marked.
  - eapply heads_marked; [exact Hi|..].
    + intros x f Hh Hx. unfold h'. apply header_ne; [by right|done|left; lia].
    + unfold h'. by rewrite header_ne by hdr.
    + unfold h', used_bit. simpl. rewrite field_eq; [lia|]. apply (double_fits h); [done|lia].
  - eapply first_app; [apply Hi|by right].
  - intros y [Hy|[->|Hy]%elem_of_cons]%elem_of_app Hny; try done; (split; [set_solver|]); (eapply in_headers_body; [exact Hin|]);
      (intros q ->%list_elem_of_singleton); destruct (layout_mid _ _ _ _ _ Hi) as (_ & _ & _ & _ & L5 & _ & _ & L8 & _);
      cbn [pos size] in *; [right; by apply (tiles_bounds _ _ _ L8)|left; specialize (L5 y Hy); lia].
  - intros y [Hy|[->|Hy]%elem_of_cons]%elem_of_app Hyf; [set_solver|done|set_solver].
Qed.

(** A write in the body of a chunk in limbo. *)
Lemma limbo_write h h' A a p s b : inv h A (a ++ Chunk p s Limbo :: b) -> in_bodies h h' [Chunk p s Limbo] ->
  h'.(buckets) = h.(buckets) -> h'.(avail_buckets) = h.(avail_buckets) -> h'.(free_bytes) = h.(free_bytes) ->
  h'.(allocated_bytes) = h.(allocated_bytes) -> inv h' A (a ++ Chunk p s Limbo :: b).
Proof.
  intros Hi Hb E1 E2 E3 E4. pose proof (iv_tiles _ _ _ Hi) as Ht. eapply (inv_header h h' A _ _ Hi); try done; try apply Hi; [apply Hb|..].
  - eapply in_bodies_heads; [exact Hb|exact Ht| |apply Hi]. intros x ->%list_elem_of_singleton. set_solver.
  - intros y Hy Hny. split; [done|]. eapply in_bodies_body; [exact Hb|exact Ht|..].
    + intros x ->%list_elem_of_singleton. set_solver.
    + done.
    + intros ->%list_elem_of_singleton. done.
Qed.

Definition trailer_at (h : z_heap) (p s : Z) : Z := h.(heap_base) + 8 * (p + s - CHUNK_TRAILER_SIZE).

Lemma trailer_eq h A a p s st b : inv h A (a ++ Chunk p s st :: b) -> chunk_trailer h p = trailer_at h p s.
Proof. intros Hi. unfold chunk_trailer. by rewrite (size_at Hi (st := st) (s := s)) by set_solver. Qed.

Lemma trailer_in_body h p s u v a : SYS_HEAP_HARDENING_FULL = true -> min_chunk_size h <= s ->
  ~ body h (Chunk p s u) a -> st 4 (trailer_at h p s) v h.(hmem) a = h.(hmem) a.
Proof.
  intros Hf Hm Ha. apply st_ne. unfold body, trailer_at in *. simpl in *. pose proof (min_chunk_width h) as Hw.
  unfold CHUNK_TRAILER_SIZE, CONFIG_SYS_HEAP_CANARIES in *. rewrite Hf in *. destruct (width_cases h) as [[Ew _]|[Ew _]]; lia.
Qed.

Lemma poison_ok h A a p s b : inv h A (a ++ Chunk p s Limbo :: b) -> min_chunk_size h <= s ->
  let h' := if SYS_HEAP_HARDENING_FULL then poison_chunk_canary p h else h in
  inv h' A (a ++ Chunk p s Limbo :: b) /\ in_bodies h h' [Chunk p s Limbo].
Proof.
  intros Hi Hm. cbv zeta. destruct SYS_HEAP_HARDENING_FULL eqn:Hf; [|by split; [|split]].
  unfold poison_chunk_canary, CONFIG_SYS_HEAP_CANARIES. rewrite Hf. unfold set_canary. rewrite (trailer_eq _ _ _ _ _ _ _ Hi).
  assert (Hb : in_bodies h (set_hmem (st 4 (trailer_at h p s) HEAP_CANARY_POISON (hmem h)) h) [Chunk p s Limbo]).
  { split; [done|]. intros x Hx. simpl. apply (trailer_in_body h p s Limbo); [done|done|]. apply Hx. set_solver. }
  split; [|done]. by eapply limbo_write.
Qed.

(** The bytes a user may write. *)
Definition user_bytes (h : z_heap) (p s a : Z) : Prop :=
  h.(heap_base) + 8 * p + 2 * W h <= a < h.(heap_base) + 8 * (p + s) - 8 * CHUNK_TRAILER_SIZE.

Lemma canary_val_range h p s : heap_fits h -> 0 <= p <= h.(end_chunk) -> 0 <= s <= h.(end_chunk) ->
  0 <= canary_val h p s < 2 ^ 32.
Proof.
  intros Hf Hp Hs. pose proof (end_range h Hf). pose proof (hf_canary h Hf). unfold canary_val. apply lxor_bound; [lia| |].
  - apply lxor_bound; [lia| |lia]. apply lor_bound; [lia| |apply u32_range]. rewrite Z.shiftr_div_pow2 by lia.
    split; [apply Z.div_pos; lia|]. apply Z.div_lt_upper_bound; lia.
  - unfold HEAP_CANARY_MAGIC. by destruct CONFIG_SYS_HEAP_CANARIES_RANDOM.
Qed.

Lemma mark_used_eq h A a p s u b : inv h A (a ++ Chunk p s u :: b) ->
  mark_used p h = let h1 := chunk_set p SIZE_AND_USED (2 * s + 1) h in
    if SYS_HEAP_HARDENING_FULL then set_hmem (st 4 (trailer_at h p s) (canary_val h p s) h1.(hmem)) h1 else h1.
Proof.
  intros Hi. unfold mark_used. rewrite (mark_eq _ _ _ _ _ _ _ true Hi). cbv zeta. destruct SYS_HEAP_HARDENING_FULL eqn:Hf; [|done].
  unfold set_chunk_canary, CONFIG_SYS_HEAP_CANARIES. rewrite Hf. unfold set_canary, chunk_trailer, compute_canary.
  pose proof (iv_fits _ _ _ Hi) as Hfit. pose proof (range_at Hi (st := u) (s := s) (p := p) ltac:(set_solver)).
  assert (E : chunk_size (chunk_set p SIZE_AND_USED (2 * s + 1) h) p = s).
  { apply (size_of_field _ _ s 1); [lia|lia|]. apply field_eq. pose proof (field_fits h Hfit s). lia. }
  by rewrite E.
Qed.

Lemma mark_used_ok h A a p s b : inv h A (a ++ Chunk p s Limbo :: b) -> min_chunk_size h <= s ->
  let h' := mark_used p h in
  inv h' A (a ++ Chunk p s Used :: b) /\ same_heap h h' /\ (forall x, x ∈ a ++ b -> body_same h h' x) /\
  (forall x, user_bytes h p s x -> h'.(hmem) x = h.(hmem) x).
Proof.
  intros Hi Hm. cbv zeta. rewrite (mark_used_eq _ _ _ _ _ _ _ Hi). cbv zeta. set (h1 := chunk_set p SIZE_AND_USED (2 * s + 1) h).
  set (h' := if SYS_HEAP_HARDENING_FULL then _ else h1). pose proof (iv_fits _ _ _ Hi) as Hf. pose proof (iv_tiles _ _ _ Hi) as Ht.
  pose proof (range_at Hi (st := Limbo) (s := s) (p := p) ltac:(set_solver)) as Hr.
  assert (Hs : same_heap h h') by (unfold h'; by destruct SYS_HEAP_HARDENING_FULL).
  assert (Hin1 : in_headers h h1 [p]) by (apply in_headers_set; by right).
  assert (Hb1 : in_bodies h1 h' [Chunk p s Used]).
  { unfold h'. destruct SYS_HEAP_HARDENING_FULL eqn:HF; [|done]. split; [done|]. intros x Hx. simpl.
    apply (trailer_in_body h1 p s Used); [done|done|]. apply Hx. set_solver. }
  pose proof (tiles_marked _ _ _ _ _ _ _ Used Hi) as Ht'. destruct (layout_mid _ _ _ _ _ Hi) as (_ & _ & _ & _ & L5 & _ & _ & L8 & _). cbn [pos size] in *.
  assert (Hbody : forall x, x ∈ a ++ b -> body_same h h' x).
  { intros x Hx. eapply (body_same_trans h h1 h'); [done|..].
    - eapply in_headers_body; [exact Hin1|]. intros q ->%list_elem_of_singleton. apply elem_of_app in Hx as [Hx|Hx].
      + right. by apply (tiles_bounds _ _ _ L8).
      + left. specialize (L5 x Hx). lia.
    - eapply (in_bodies_body h1 h' _ _ _ x); [exact Hb1|exact Ht'|intros y ->%list_elem_of_singleton; set_solver|set_solver|].
      intros ->%list_elem_of_singleton. apply chunks_nodup in Ht'. apply NoDup_app in Ht' as (_ & N1 & N2). apply NoDup_cons in N2 as [N2 _].
      apply elem_of_app in Hx as [Hx|Hx]; [|done]. apply (N1 _ Hx). set_solver. }
  assert (Hhd : heads h' 0 (a ++ Chunk p s Used :: b) h.(end_chunk)).
  { eapply in_bodies_heads; [exact Hb1|exact Ht'|intros y ->%list_elem_of_singleton; set_solver|].
    eapply (heads_marked h A a p s Limbo b Used h1 Hi).
    - intros x f Hh Hx. unfold h1. apply header_ne; [by right|done|left; lia].
    - unfold h1. by rewrite header_ne by hdr.
    - unfold h1, used_bit. simpl. rewrite field_eq; [lia|]. pose proof (field_fits h Hf s). lia. }
  split; [|split; [done|split; [done|]]].
  - eapply (inv_step h h' A _ _ Hi); try done; try (unfold h'; by destruct SYS_HEAP_HARDENING_FULL).
    + eapply first_app; [apply Hi|by left].
    + intros y [Hy|[->|Hy]%elem_of_cons]%elem_of_app Hyf; [|done|]; (split; [set_solver|apply Hbody; set_solver]).
    + intros y [Hy|[->|Hy]%elem_of_cons]%elem_of_app Hyf; [set_solver|done|set_solver].
    + intros y [Hy|[->|Hy]%elem_of_cons]%elem_of_app Hyu; [left; split; [set_solver|apply Hbody; set_solver]|right|left; split; [set_solver|apply Hbody; set_solver]].
      split; [done|]. intros HF. unfold canary_ok, h'. rewrite HF.
      apply (ld_st_eq 4 (trailer_at h p s) (canary_val h p s) h1.(hmem)). apply (canary_val_range h p s); [done|lia|lia].
  - intros x Hx. unfold user_bytes in Hx. transitivity (h1.(hmem) x); [|apply Hin1; intros q ->%list_elem_of_singleton; lia].
    unfold h'. destruct SYS_HEAP_HARDENING_FULL; [|done]. apply (st_ne 4 (trailer_at h p s)). unfold trailer_at. lia.
Qed.

End step.
