(* ===== verification/HeapList.v ===== *)
(** Taking chunks off the free lists of a heap and putting them on. *)

From S2P Require Import Prelude MathExtras Ring HeapMem Heap HeapInv HeapStep.

#[local] Open Scope Z_scope.

Lemma u32_add_idemp x y : u32 (u32 x + y) = u32 (x + y).
Proof. unfold u32. by rewrite Zplus_mod_idemp_l. Qed.
Lemma u32_add_idemp_r x y : u32 (x + u32 y) = u32 (x + y).
Proof. unfold u32. by rewrite Zplus_mod_idemp_r. Qed.
Lemma u32_opp_idemp x y : u32 (x + - u32 y) = u32 (x - y).
Proof. unfold u32. rewrite Z.add_opp_r. by rewrite Zminus_mod_idemp_r. Qed.

Section lists.
Context `{HC : HeapConfig}.

(** A step that only moves a chunk between limbo and a free list. *)
Lemma inv_restat h h' A a p s u u' b : inv h A (a ++ Chunk p s u :: b) -> u <> Used -> u' <> Used -> same_heap h h' ->
  heads h' 0 (a ++ Chunk p s u :: b) h.(end_chunk) ->
  (forall i, 0 <= i < nb_buckets h -> exists l, bucket_ok h' i l /\ l ≡ₚ pos <$> listed h i (a ++ Chunk p s u' :: b)) ->
  0 <= h'.(avail_buckets) < 2 ^ nb_buckets h -> keeps h h' (a ++ Chunk p s u :: b) ->
  (CONFIG_SYS_HEAP_RUNTIME_STATS = true -> h'.(free_bytes) = u32 (free_sum h (a ++ Chunk p s u' :: b))) ->
  h'.(allocated_bytes) = h.(allocated_bytes) -> inv h' A (a ++ Chunk p s u' :: b).
Proof.
  intros Hi Hu Hu' Hs Hh Hl Ha [_ Hk] Hfr Hal.
  assert (Hused : forall c, c ∈ a ++ Chunk p s u' :: b -> c.(stat) = Used -> c ∈ a ++ Chunk p s u :: b).
  { intros c [Hc|[->|Hc]%elem_of_cons]%elem_of_app Hcu; [set_solver|done|set_solver]. }
  constructor; rewrite ?(sh_end _ _ Hs), ?(same_nb _ _ Hs).
  - eapply same_fits; [done|apply Hi].
  - by eapply tiles_marked.
  - apply heads_app in Hh as [H1 H2]. apply heads_app. split; [done|]. simpl in *. unfold used_bit in *. simpl in *.
    rewrite !decide_False in * by done. done.
  - eapply first_app; [apply Hi|by left].
  - intros c Hc Hcu. rewrite (same_min _ _ Hs). apply Hi; [|done]. by apply Hused.
  - intros i Hbi. destruct (Hl i Hbi) as (l & L1 & L2). exists l. by rewrite (same_listed _ _ _ _ Hs).
  - exact Ha.
  - intros Hf c Hc Hcu. eapply canary_same; [done|done|apply Hi; [by apply Hused|done]|apply Hk; [by apply Hused|done]|apply Hi; [done|by apply Hused|done]].
  - intros Hst. by rewrite (same_free_sum _ _ _ Hs), Hfr.
  - intros Hst. rewrite Hal. by apply Hi.
Qed.

(** The chunks of one bucket that are not allocated. *)
Definition bucket_set (h : z_heap) (bi : Z) (cs : list chunk) : list chunk :=
  filter (fun y => y.(stat) <> Used /\ min_chunk_size h <= y.(size) /\ bucket_idx h y.(size) = bi) cs.

Lemma bucket_set_sub h bi cs x : x ∈ bucket_set h bi cs -> x ∈ cs.
Proof. unfold bucket_set. rewrite list_elem_of_filter. tauto. Qed.

Lemma listed_bucket h bi cs c : c ∈ listed h bi cs -> c ∈ bucket_set h bi cs.
Proof. unfold listed, bucket_set. rewrite !list_elem_of_filter. intros [[[H1 H2] H3] H4]. split; [|done]. by rewrite H1. Qed.

Lemma bucket_keeps h h' A bi cs : inv h A cs -> in_bodies h h' (bucket_set h bi cs) -> keeps h h' cs.
Proof.
  intros Hi Hb. split; [apply Hb|]. intros x Hx Hu. eapply in_bodies_body; [exact Hb|apply Hi|apply bucket_set_sub|done|].
  unfold bucket_set. rewrite list_elem_of_filter. tauto.
Qed.

Lemma in_bodies_link h bi cs c f v : c ∈ bucket_set h bi cs -> f = FREE_PREV \/ f = FREE_NEXT ->
  in_bodies h (chunk_set c.(pos) f v h) (bucket_set h bi cs).
Proof.
  intros Hc Hf. split; [done|]. intros a Ha. apply field_other. specialize (Ha c Hc). unfold body in Ha.
  unfold bucket_set in Hc. rewrite list_elem_of_filter in Hc. destruct Hc as [(_ & Hm & _) _].
  pose proof (min_chunk_width h). pose proof trailer_range. destruct Hf as [-> | ->]; simpl; lia.
Qed.

Lemma in_bodies_trans h1 h2 h3 S : in_bodies h1 h2 S -> in_bodies h2 h3 S -> in_bodies h1 h3 S.
Proof.
  intros [S1 M1] [S2 M2]. split; [by etrans|]. intros a Ha. rewrite M2, M1; [done|done|].
  intros x Hx. unfold body. rewrite (sh_base _ _ S1), (same_W _ _ S1). by apply Ha.
Qed.

Lemma same_bucket_set h h' bi cs : same_heap h h' -> bucket_set h' bi cs = bucket_set h bi cs.
Proof.
  intros Hs. unfold bucket_set. apply list_filter_iff. intros c. by rewrite (same_min _ _ Hs), (same_bucket _ _ _ Hs).
Qed.

(** Another link in the same bucket. *)
Lemma in_bodies_link2 h h1 bi cs c f v : in_bodies h h1 (bucket_set h bi cs) -> c ∈ bucket_set h bi cs -> f = FREE_PREV \/ f = FREE_NEXT ->
  in_bodies h (chunk_set c.(pos) f v h1) (bucket_set h bi cs).
Proof.
  intros Hb Hc Hf. eapply in_bodies_trans; [done|]. rewrite <- (same_bucket_set h h1) by apply Hb. apply in_bodies_link; [|done].
  by rewrite (same_bucket_set h h1) by apply Hb.
Qed.

(** The lists of the other buckets. *)
Lemma other_buckets h h' A cs cs' bi : inv h A cs -> in_bodies h h' (bucket_set h bi cs) ->
  (forall i, i <> bi -> h'.(buckets) i = h.(buckets) i) ->
  (forall i, 0 <= i < nb_buckets h -> i <> bi -> Z.testbit h'.(avail_buckets) i = Z.testbit h.(avail_buckets) i) ->
  (forall i, i <> bi -> listed h i cs' = listed h i cs) ->
  forall i, 0 <= i < nb_buckets h -> i <> bi -> exists l, bucket_ok h' i l /\ l ≡ₚ pos <$> listed h i cs'.
Proof.
  intros Hi Hb B1 B2 Hl i Hr Hne. destruct (iv_lists _ _ _ Hi i Hr) as (l & (C1 & C2 & C3) & Hp). exists l. rewrite Hl by done. split; [|done].
  split; [|split; [by rewrite B1|by rewrite B2]]. eapply circle_ext; [rewrite Hp; eapply listed_nodup, Hi| |done].
  intros p. rewrite Hp. intros (c & -> & Hc)%list_elem_of_fmap. pose proof Hc as Hc'. unfold listed in Hc'. rewrite list_elem_of_filter in Hc'.
  destruct Hc' as [[Hlb Hbi] Hcs]. apply links_same; [apply Hb| |by apply listable_links].
  eapply in_bodies_body; [exact Hb|apply Hi|apply bucket_set_sub|done|]. unfold bucket_set. rewrite list_elem_of_filter. intros [(_ & _ & E) _]. congruence.
Qed.

(** ** The list a chunk is on *)

Lemma listed_mid h i a p s u b : listed h i (a ++ Chunk p s u :: b) =
  listed h i a ++ (if decide (listable h (Chunk p s u) /\ bucket_idx h s = i) then [Chunk p s u] else []) ++ listed h i b.
Proof. unfold listed. rewrite filter_app, filter_cons. simpl. by case_decide. Qed.

Lemma listed_limbo h i a p s b : listed h i (a ++ Chunk p s Limbo :: b) = listed h i a ++ listed h i b.
Proof. rewrite listed_mid, decide_False; [done|]. by intros [[? _] _]. Qed.

Lemma listed_free h i a p s b : min_chunk_size h <= s -> bucket_idx h s = i ->
  pos <$> listed h i (a ++ Chunk p s Free :: b) ≡ₚ p :: (pos <$> listed h i (a ++ Chunk p s Limbo :: b)).
Proof.
  intros Hm Hi. rewrite listed_limbo, listed_mid, decide_True by done. rewrite !fmap_app. simpl. by rewrite Permutation_middle.
Qed.

Lemma listed_elsewhere h i a p s b : bucket_idx h s <> i -> listed h i (a ++ Chunk p s Limbo :: b) = listed h i (a ++ Chunk p s Free :: b).
Proof. intros Hi. rewrite listed_limbo, listed_mid, decide_False; [done|]. tauto. Qed.

Lemma free_sum_free h a p s b : min_chunk_size h <= s ->
  free_sum h (a ++ Chunk p s Free :: b) = usable h s + free_sum h (a ++ Chunk p s Limbo :: b).
Proof.
  intros Hm. unfold free_sum. rewrite !Zsum_app, !Zsum_cons. rewrite (decide_True (P := listable h (Chunk p s Free))) by done.
  rewrite (decide_False (P := listable h (Chunk p s Limbo))); [simpl; lia|]. by intros [? _].
Qed.

(** The chunks of a heap besides the first are not at 0. *)
Lemma later_pos h A cs c : inv h A cs -> c ∈ cs -> c.(stat) <> Used -> 0 < c.(pos).
Proof.
  intros Hi Hc Hu. destruct (iv_first _ _ _ Hi) as (c0 & r & E & Hc0). subst cs. pose proof (iv_tiles _ _ _ Hi) as (T1 & T2 & T3).
  apply elem_of_cons in Hc as [->|Hc]; [done|]. destruct (tiles_bounds _ _ _ T3) as [_ B]. specialize (B c Hc). lia.
Qed.

(** The cells of the chunks of one bucket. *)
Lemma bucket_cells h A cs bi ps : inv h A cs -> (forall p, p ∈ ps -> exists c, c ∈ bucket_set h bi cs /\ p = c.(pos)) -> link_cells h ps.
Proof.
  intros Hi Hps. split.
  - intros p q Hp Hq. destruct (Hps p Hp) as (c & Hc & ->). destruct (Hps q Hq) as (d & Hd & ->).
    pose proof (bucket_set_sub _ _ _ _ Hc) as Hc'. pose proof (bucket_set_sub _ _ _ _ Hd) as Hd'.
    unfold bucket_set in Hc, Hd. rewrite list_elem_of_filter in Hc, Hd. destruct Hc as [(_ & Hcm & _) _], Hd as [(_ & Hdm & _) _].
    pose proof (min_chunk_width h). pose proof trailer_range. unfold links_apart.
    destruct (tiles_sep _ _ _ c d (iv_tiles _ _ _ Hi) Hc' Hd') as [->|[|]]; [by left|right; lia|right; lia].
  - intros p Hp. destruct (Hps p Hp) as (c & Hc & ->). apply bucket_set_sub in Hc. pose proof (chunk_range Hi c Hc).
    apply (size_fits h); [apply Hi|lia].
Qed.

Lemma bucket_member h bi a p s u b : u <> Used -> min_chunk_size h <= s -> bucket_idx h s = bi ->
  Chunk p s u ∈ bucket_set h bi (a ++ Chunk p s u :: b).
Proof. intros Hu Hm Hb. unfold bucket_set. rewrite list_elem_of_filter. split; [done|]. apply elem_of_app. right. apply elem_of_cons. by left. Qed.

(** The list with [c] in front, as the code finds it from [c] on. *)
Lemma circle_from h l c : c ∈ l -> circle h l -> exists r, l ≡ₚ c :: r /\ circle h (c :: r).
Proof.
  intros (l1 & l2 & ->)%list_elem_of_split Hc. exists (l2 ++ l1). split.
  - rewrite Permutation_app_comm. done.
  - by apply (circle_rotate h l1 (c :: l2)) in Hc.
Qed.

Lemma circle_single h c : circle h [c] <-> next_free_chunk h c = c /\ prev_free_chunk h c = c.
Proof. simpl. tauto. Qed.

(** ** Taking a chunk off its list *)

Lemma chunk_size_frame h h' A cs S p s u : inv h A cs -> Chunk p s u ∈ cs -> in_bodies h h' S -> (forall x, x ∈ S -> x ∈ cs) ->
  chunk_usable_bytes h' p = u32 (usable h s).
Proof.
  intros Hi Hc Hb HS. rewrite <- (usable_at Hi Hc). unfold chunk_usable_bytes, chunk_size.
  rewrite (in_bodies_field h h' S cs h.(end_chunk) p SIZE_AND_USED); [|done|apply Hi|done| |by right].
  - unfold chunk_header_bytes, big_heap. by rewrite (sh_end _ _ (proj1 Hb)).
  - left. apply list_elem_of_fmap. by exists (Chunk p s u).
Qed.

Lemma add_free_fields x h : let h' := add_free_bytes x h in
  same_heap h h' /\ h'.(hmem) = h.(hmem) /\ h'.(buckets) = h.(buckets) /\ h'.(avail_buckets) = h.(avail_buckets) /\
  h'.(allocated_bytes) = h.(allocated_bytes) /\ (CONFIG_SYS_HEAP_RUNTIME_STATS = true -> h'.(free_bytes) = u32 (h.(free_bytes) + x)).
Proof. unfold add_free_bytes. destruct CONFIG_SYS_HEAP_RUNTIME_STATS; simpl; split_and!; done. Qed.

Lemma circle_ext_all h h' l : (forall p, next_free_chunk h' p = next_free_chunk h p /\ prev_free_chunk h' p = prev_free_chunk h p) ->
  circle h l -> circle h' l.
Proof.
  intros Hx. destruct l as [|x l]; [done|]. unfold circle. generalize (l ++ [x]). intros k. revert x. induction k as [|y k IH]; intros x; [done|].
  simpl. destruct (Hx x) as [-> _], (Hx y) as [_ ->]. intros (H1 & H2 & H3). split_and!; try done. by apply IH.
Qed.

Lemma relist_ok h h1 A a p s u u' b l' y : inv h A (a ++ Chunk p s u :: b) -> u <> Used -> u' <> Used -> min_chunk_size h <= s ->
  in_bodies h h1 (bucket_set h (bucket_idx h s) (a ++ Chunk p s u :: b)) ->
  (forall i, i <> bucket_idx h s -> h1.(buckets) i = h.(buckets) i) ->
  (forall i, 0 <= i < nb_buckets h -> i <> bucket_idx h s -> Z.testbit h1.(avail_buckets) i = Z.testbit h.(avail_buckets) i) ->
  0 <= h1.(avail_buckets) < 2 ^ nb_buckets h -> bucket_ok h1 (bucket_idx h s) l' ->
  l' ≡ₚ pos <$> listed h (bucket_idx h s) (a ++ Chunk p s u' :: b) ->
  h1.(free_bytes) = h.(free_bytes) -> h1.(allocated_bytes) = h.(allocated_bytes) ->
  u32 (free_sum h (a ++ Chunk p s u :: b) + y) = u32 (free_sum h (a ++ Chunk p s u' :: b)) ->
  let h' := add_free_bytes y h1 in
  inv h' A (a ++ Chunk p s u' :: b) /\ keeps h h' (a ++ Chunk p s u :: b).
Proof.
  intros Hi Hu Hu' Hm Hb B1 B2 B3 Hok Hp Ef Ea Hy. cbv zeta. destruct (add_free_fields y h1) as (S1 & M1 & K1 & V1 & L1 & F1).
  set (h' := add_free_bytes y h1) in *. assert (Hs : same_heap h h') by (etrans; [apply Hb|done]).
  assert (Hlk : forall q, next_free_chunk h' q = next_free_chunk h1 q /\ prev_free_chunk h' q = prev_free_chunk h1 q)
    by (intros q; split; apply field_ext; try done; intros x _; by rewrite M1).
  assert (Hb' : in_bodies h h' (bucket_set h (bucket_idx h s) (a ++ Chunk p s u :: b))).
  { split; [done|]. intros x Hx. rewrite M1. by apply Hb. }
  pose proof (bucket_keeps _ _ _ _ _ Hi Hb') as Hk. split; [|done].
  eapply (inv_restat h h' A a p s u u' b Hi); try done.
  - eapply in_bodies_heads; [exact Hb'|apply Hi|apply bucket_set_sub|apply Hi].
  - intros i Hri. destruct (decide (i = bucket_idx h s)) as [->|Hne].
    + exists l'. split; [|done]. destruct Hok as (O1 & O2 & O3). split; [by eapply circle_ext_all|]. by rewrite K1, V1.
    + eapply (other_buckets h h' A (a ++ Chunk p s u :: b)); try done.
      * intros j Hj. rewrite K1. by apply B1.
      * intros j Hj1 Hj2. rewrite V1. by apply B2.
      * intros j Hj. rewrite !listed_mid. by rewrite !decide_False by (intros [_ ?]; congruence).
  - by rewrite V1.
  - intros Hst. rewrite F1 by done. rewrite Ef, (iv_free _ _ _ Hi Hst), u32_add_idemp. done.
  - by rewrite L1.
Qed.

Lemma free_list_remove_bidx_ok h A a p s b : inv h A (a ++ Chunk p s Free :: b) -> min_chunk_size h <= s ->
  exists h', free_list_remove_bidx p (bucket_idx h s) h = Some h' /\
    inv h' A (a ++ Chunk p s Limbo :: b) /\ keeps h h' (a ++ Chunk p s Free :: b).
Proof.
  intros Hi Hm. set (cs := a ++ Chunk p s Free :: b) in *. set (bi := bucket_idx h s).
  assert (Hc : Chunk p s Free ∈ cs) by (unfold cs; set_solver). pose proof (range_at Hi Hc) as Hr. pose proof (iv_fits _ _ _ Hi) as Hf.
  pose proof (bucket_idx_range h Hf s ltac:(lia)) as Hbi. fold bi in Hbi. pose proof (nb_range h Hf) as Hnb.
  destruct (iv_lists _ _ _ Hi bi Hbi) as (l & (C1 & C2 & C3) & Hp).
  assert (Hpl : p ∈ l) by (rewrite Hp; apply listed_spec; by exists (Chunk p s Free)).
  destruct (circle_from h l p Hpl C1) as (r & Hlr & Hcirc). rewrite Hlr in Hp.
  assert (Hnd : NoDup (p :: r)) by (rewrite Hp; eapply listed_nodup, Hi).
  assert (Hmem : forall q, q ∈ p :: r -> exists c, c ∈ bucket_set h bi cs /\ q = c.(pos)).
  { intros q. rewrite Hp. intros (c & -> & Hq)%list_elem_of_fmap. exists c. split; [by apply listed_bucket|done]. }
  pose proof (bucket_cells h A cs bi (p :: r) Hi Hmem) as Hcells. unfold cs in Hp. rewrite (listed_free h bi) in Hp by done.
  apply Permutation_cons_inv in Hp. assert (Hsum : forall x, x = u32 (usable h s) -> u32 (free_sum h cs + - x) = u32 (free_sum h (a ++ Chunk p s Limbo :: b))).
  { intros x ->. rewrite u32_opp_idemp. f_equal. unfold cs. rewrite free_sum_free by done. lia. }
  unfold free_list_remove_bidx. destruct r as [|y r].
  - apply circle_single in Hcirc as [Hn _]. rewrite Hn, Z.eqb_refl. simpl.
    set (h1 := set_bucket bi 0 _). eexists. split; [done|]. eapply (relist_ok h h1 A a p s Free Limbo b []); try done.
    + intros i Hne. simpl. by rewrite upd_ne.
    + intros i Hri Hne. simpl. rewrite Z.land_spec. unfold u32. rewrite Z.mod_pow2_bits_low by lia. rewrite Z.lnot_spec by lia.
      unfold bit. rewrite Z.shiftl_1_l, Z.pow2_bits_false by (fold bi in Hne; lia). apply andb_true_r.
    + simpl. apply land_bound; [lia|]. apply Hi.
    + split; [done|]. simpl. rewrite upd_eq. split; [done|]. rewrite Z.land_spec. unfold u32. rewrite Z.mod_pow2_bits_low by lia.
      rewrite Z.lnot_spec by lia. unfold bit. rewrite Z.shiftl_1_l, Z.pow2_bits_true by lia. by rewrite andb_false_r.
    + apply Hsum. apply (usable_at Hi Hc).
  - destruct (circle_unlink h p y r Hnd Hcells Hcirc) as (U1 & U2 & U3 & U4 & U5). set (z := link_of y r) in *.
    rewrite U1. assert (Hyp : y <> p) by (intros ->; apply NoDup_cons in Hnd as [Hnd _]; set_solver). rewrite (proj2 (Z.eqb_neq y p)) by done.
    rewrite U2, U4, U3, !Z.eqb_refl. cbn [negb orb]. rewrite andb_false_r. simpl.
    assert (Hzr : z ∈ p :: y :: r) by (apply elem_of_cons; right; apply link_of_elem).
    destruct (Hmem y ltac:(set_solver)) as (cy & Hcy & Ey). destruct (Hmem z Hzr) as (cz & Hcz & Ez).
    set (h1 := set_prev_free_chunk y z (set_next_free_chunk z y (set_bucket bi y h))).
    assert (Hb1 : in_bodies h h1 (bucket_set h bi cs)).
    { unfold h1, set_prev_free_chunk, set_next_free_chunk. rewrite Ey, Ez.
      apply in_bodies_link2; [|done|by left]. apply in_bodies_link2; [|done|by right]. by split. }
    eexists. split; [done|]. eapply (relist_ok h h1 A a p s Free Limbo b (y :: r)); try done.
    + intros i Hne. simpl. by rewrite upd_ne.
    + apply Hi.
    + split; [|split].
      * eapply circle_ext_all; [|exact U5]. intros q. split; apply field_ext; done.
      * simpl. by rewrite upd_eq.
      * etrans; [exact C3|]. apply bool_decide_ext. split; [done|]. intros _ ->. apply Permutation_nil_l in Hlr. done.
    + apply Hsum. eapply chunk_size_frame; [exact Hi|exact Hc|exact Hb1|apply bucket_set_sub].
Qed.

(** Chunks too small for a list. *)
Lemma relabel_small h A a p s u u' b : inv h A (a ++ Chunk p s u :: b) -> u <> Used -> u' <> Used -> s < min_chunk_size h ->
  inv h A (a ++ Chunk p s u' :: b).
Proof.
  intros Hi Hu Hu' Hs. assert (Hn : forall v, ~ listable h (Chunk p s v)) by (intros v [_ ?]; simpl in *; lia).
  eapply (inv_restat h h A a p s u u' b Hi); try done; try apply Hi.
  - intros i Hri. destruct (iv_lists _ _ _ Hi i Hri) as (l & L1 & L2). exists l. split; [done|]. rewrite L2, !listed_mid.
    rewrite !decide_False by (intros [? _]; by eapply Hn). done.
  - intros Hst. rewrite (iv_free _ _ _ Hi Hst). f_equal. unfold free_sum. rewrite !Zsum_app, !Zsum_cons. rewrite !decide_False by apply Hn. done.
Qed.

Lemma keeps_refl h cs : keeps h h cs.
Proof. split; [done|]. intros x _ _ a _. done. Qed.

Lemma free_list_remove_ok h A a p s b : inv h A (a ++ Chunk p s Free :: b) ->
  exists h', free_list_remove p h = Some h' /\ inv h' A (a ++ Chunk p s Limbo :: b) /\ keeps h h' (a ++ Chunk p s Free :: b).
Proof.
  intros Hi. unfold free_list_remove. assert (Hc : Chunk p s Free ∈ a ++ Chunk p s Free :: b) by set_solver.
  rewrite (undersized_at Hi Hc), (size_at Hi Hc). destruct (Z.ltb_spec s (min_chunk_size h)) as [Hs|Hs]; cbn [negb].
  - exists h. split; [done|]. split; [by eapply relabel_small|apply keeps_refl].
  - by apply free_list_remove_bidx_ok.
Qed.

(** ** Putting a chunk on its list *)

Lemma free_list_add_bidx_ok h A a p s b : inv h A (a ++ Chunk p s Limbo :: b) -> min_chunk_size h <= s ->
  exists h', free_list_add_bidx p (bucket_idx h s) h = Some h' /\
    inv h' A (a ++ Chunk p s Free :: b) /\ keeps h h' (a ++ Chunk p s Limbo :: b).
Proof.
  intros Hi Hm. set (cs := a ++ Chunk p s Limbo :: b) in *. set (bi := bucket_idx h s).
  assert (Hc : Chunk p s Limbo ∈ cs) by (unfold cs; set_solver). pose proof (range_at Hi Hc) as Hr. pose proof (iv_fits _ _ _ Hi) as Hf.
  pose proof (bucket_idx_range h Hf s ltac:(lia)) as Hbi. fold bi in Hbi. pose proof (nb_range h Hf) as Hnb.
  destruct (iv_lists _ _ _ Hi bi Hbi) as (l & (C1 & C2 & C3) & Hp).
  assert (Hcb : Chunk p s Limbo ∈ bucket_set h bi cs) by (by apply bucket_member).
  assert (Hmem : forall q, q ∈ p :: l -> exists c, c ∈ bucket_set h bi cs /\ q = c.(pos)).
  { intros q [->|Hq]%elem_of_cons; [by exists (Chunk p s Limbo)|]. rewrite Hp in Hq. apply list_elem_of_fmap in Hq as (c & -> & Hq).
    exists c. split; [by apply listed_bucket|done]. }
  pose proof (bucket_cells h A cs bi (p :: l) Hi Hmem) as Hcells.
  assert (Hp' : p :: l ≡ₚ pos <$> listed h bi (a ++ Chunk p s Free :: b)) by (rewrite listed_free by done; by rewrite Hp).
  assert (Hnd : NoDup (p :: l)) by (rewrite Hp'; eapply listed_nodup, tiles_marked, Hi).
  assert (Hsum : forall x, x = u32 (usable h s) -> u32 (free_sum h cs + x) = u32 (free_sum h (a ++ Chunk p s Free :: b))).
  { intros x ->. rewrite u32_add_idemp_r. f_equal. unfold cs. rewrite free_sum_free by done. lia. }
  assert (Hlp : links_apart h p p \/ p = p) by (by right). assert (Hpr : 0 <= p < 2 ^ (8 * W h)) by (apply Hcells; set_solver).
  unfold free_list_add_bidx. destruct l as [|y r].
  - simpl in C2. rewrite C2. simpl. set (h0 := set_bucket bi p _). set (h1 := set_next_free_chunk p p (set_prev_free_chunk p p h0)).
    assert (Hb1 : in_bodies h h1 (bucket_set h bi cs)).
    { unfold h1, set_prev_free_chunk, set_next_free_chunk. change p with (Chunk p s Limbo).(pos).
      apply in_bodies_link2; [|done|by right]. apply in_bodies_link2; [|done|by left]. by split. }
    eexists. split; [done|]. eapply (relist_ok h h1 A a p s Limbo Free b [p]); try done.
    + intros i Hne. simpl. by rewrite upd_ne.
    + intros i Hri Hne. simpl. rewrite testbit_set by lia. by rewrite (proj2 (Z.eqb_neq _ _)), orb_false_r by (fold bi in Hne; congruence).
    + simpl. apply lor_bound; [lia|apply Hi|]. apply bit_bound. lia.
    + split; [apply circle_single; unfold h1|split].
      * rewrite next_set_next by done. rewrite decide_True by done. split; [done|]. rewrite prev_set_next by done. rewrite prev_set_prev by done. by rewrite decide_True.
      * simpl. by rewrite upd_eq.
      * simpl. rewrite testbit_set by lia. by rewrite Z.eqb_refl, orb_true_r.
    + apply Hsum. eapply chunk_size_frame; [exact Hi|exact Hc|exact Hb1|apply bucket_set_sub].
  - change (default 0 (head (y :: r))) with y in C2. rewrite C2. destruct (circle_link h p y r Hnd Hcells C1) as (U1 & U2 & U3). set (z := link_of y r) in *.
    assert (Hzr : z ∈ p :: y :: r) by (apply elem_of_cons; right; apply link_of_elem).
    destruct (Hmem y ltac:(set_solver)) as (cy & Hcy & Ey). destruct (Hmem z Hzr) as (cz & Hcz & Ez).
    assert (Hy0 : y <> 0).
    { rewrite Ey. pose proof (bucket_set_sub _ _ _ _ Hcy) as Hin. unfold bucket_set in Hcy. rewrite list_elem_of_filter in Hcy.
      destruct Hcy as [[Hu _] _]. pose proof (later_pos _ _ _ _ Hi Hin Hu). lia. }
    rewrite (proj2 (Z.eqb_neq y 0)) by done. rewrite U1, U2, Z.eqb_refl. cbn [negb]. rewrite andb_false_r. simpl.
    set (h1 := set_prev_free_chunk y p _).
    assert (Hb1 : in_bodies h h1 (bucket_set h bi cs)).
    { unfold h1, set_prev_free_chunk, set_next_free_chunk. rewrite Ey, Ez. change p with (Chunk p s Limbo).(pos).
      apply in_bodies_link2; [|done|by left]. apply in_bodies_link2; [|done|by right]. apply in_bodies_link2; [|done|by right].
      apply in_bodies_link; [done|by left]. }
    eexists. split; [done|]. eapply (relist_ok h h1 A a p s Limbo Free b (y :: r ++ [p])); try done.
    + apply Hi.
    + etrans; [|exact Hp']. change (y :: r ++ [p]) with ((y :: r) ++ [p]). by rewrite Permutation_app_comm.
    + apply Hsum. eapply chunk_size_frame; [exact Hi|exact Hc|exact Hb1|apply bucket_set_sub].
Qed.

Lemma free_list_add_ok h A a p s b : inv h A (a ++ Chunk p s Limbo :: b) ->
  exists h', free_list_add p h = Some h' /\ inv h' A (a ++ Chunk p s Free :: b) /\ keeps h h' (a ++ Chunk p s Limbo :: b).
Proof.
  intros Hi. unfold free_list_add. assert (Hc : Chunk p s Limbo ∈ a ++ Chunk p s Limbo :: b) by set_solver.
  rewrite (undersized_at Hi Hc), (size_at Hi Hc). destruct (Z.ltb_spec s (min_chunk_size h)) as [Hs|Hs]; cbn [negb].
  - exists h. split; [done|]. split; [by eapply relabel_small|apply keeps_refl].
  - by apply free_list_add_bidx_ok.
Qed.

End lists.
