(* ===== verification/HeapCheck.v ===== *)
(** The validator accepts the heaps that satisfy the invariant, and leaves them as they
    were: lib/heap/heap_validate.c on the layouts of HeapInv. *)

From S2P Require Import Prelude MathExtras Ring HeapMem Heap HeapInv HeapStep HeapList.

#[local] Open Scope Z_scope.

Section check.
Context `{HC : HeapConfig}.

(** ** Chunks of a layout *)

Lemma start_outside p0 cs e q y : tiles p0 cs e -> q ∈ pos <$> cs \/ q = e -> y ∈ cs -> q <= y.(pos) \/ y.(pos) + y.(size) <= q.
Proof.
  intros Ht [(x & -> & Hx)%list_elem_of_fmap| ->] Hy; destruct (tiles_bounds _ _ _ Ht) as [_ B]; pose proof (B y Hy); [|lia].
  pose proof (B x Hx). destruct (tiles_sep _ _ _ x y Ht Hx Hy) as [->|[|]]; lia.
Qed.

Lemma elem_mid_l {A} (x : A) a b c : x ∈ a -> x ∈ a ++ c :: b.
Proof. intros. apply elem_of_app. by left. Qed.
Lemma elem_mid_r {A} (x : A) a b c : x ∈ b -> x ∈ a ++ c :: b.
Proof. intros. apply elem_of_app. right. apply elem_of_cons. by right. Qed.
Lemma elem_mid {A} (x : A) a b : x ∈ a ++ x :: b.
Proof. apply elem_of_app. right. apply elem_of_cons. by left. Qed.
Lemma elem_mid_inv {A} (x : A) a b c : x ∈ a ++ c :: b -> x = c \/ x ∈ a ++ b.
Proof. intros [H|[H|H]%elem_of_cons]%elem_of_app; [right|left; done|right]; apply elem_of_app; tauto. Qed.
Lemma elem_sides {A} (x : A) a b c : x ∈ a ++ b -> x ∈ a ++ c :: b.
Proof. intros [H|H]%elem_of_app; [by apply elem_mid_l|by apply elem_mid_r]. Qed.

(** Where a chunk starts, and where it ends, is a header. *)
Lemma start_here p0 a c b e : tiles p0 (a ++ c :: b) e -> c.(pos) ∈ pos <$> a ++ c :: b \/ c.(pos) = e.
Proof. intros _. left. apply list_elem_of_fmap. exists c. split; [done|apply elem_mid]. Qed.

Lemma start_after p0 a c b e : tiles p0 (a ++ c :: b) e -> c.(pos) + c.(size) ∈ pos <$> a ++ c :: b \/ c.(pos) + c.(size) = e.
Proof.
  intros Ht. apply tiles_middle in Ht as (_ & _ & Ht). apply tiles_start in Ht. destruct b as [|z b]; [by right|].
  left. apply list_elem_of_fmap. exists z. split; [done|]. apply elem_mid_r, elem_of_cons. by left.
Qed.

(** ** Heaps between operations *)

Definition is_used (c : chunk) : Prop := c.(stat) = Used.
#[export] Instance is_used_dec c : Decision (is_used c).
Proof. unfold is_used. apply _. Defined.
(** The allocated chunks, the heap's own first. *)
Definition used_of (cs : list chunk) : list chunk := filter is_used cs.
Definition alloc_sum (h : z_heap) (cs : list chunk) : Z := Zsum (fun c => usable h c.(size)) (tail (used_of cs)).
(** Nothing free at the head of a list of chunks, or at its end. *)
Definition starts_used (b : list chunk) : Prop := match b with [] => True | y :: _ => y.(stat) = Used end.
Definition ends_used (a : list chunk) : Prop := match last a with None => True | Some x => x.(stat) = Used end.
(** No two free chunks in a row. *)
Fixpoint coalesced (cs : list chunk) : Prop :=
  match cs with [] => True | x :: r => (x.(stat) = Used \/ starts_used r) /\ coalesced r end.

Record heap_ok (h : z_heap) (cs : list chunk) : Prop := {
  ho_inv : inv h (alloc_sum h cs) cs;
  ho_limbo : forall c, c ∈ cs -> c.(stat) <> Limbo;
  ho_coalesced : coalesced cs
}.

Lemma coalesced_app a b : coalesced (a ++ b) <-> coalesced a /\ coalesced b /\ (ends_used a \/ starts_used b).
Proof.
  induction a as [|x a IH]; simpl; [unfold ends_used; simpl; tauto|]. rewrite IH. unfold ends_used. rewrite last_cons.
  destruct a as [|y a]; simpl; [tauto|]. destruct (last (y :: a)) eqn:E; [tauto|by apply last_None in E].
Qed.

Lemma ends_used_snoc a x : ends_used (a ++ [x]) <-> x.(stat) = Used.
Proof. unfold ends_used. by rewrite last_snoc. Qed.

Lemma same_usable h h' s : same_heap h h' -> usable h' s = usable h s.
Proof. intros Hs. unfold usable. by rewrite (same_W _ _ Hs). Qed.
Lemma same_alloc_sum h h' cs : same_heap h h' -> alloc_sum h' cs = alloc_sum h cs.
Proof. intros Hs. unfold alloc_sum. induction (tail (used_of cs)) as [|c l IH]; [done|]. rewrite !Zsum_cons, IH, (same_usable _ _ _ Hs). done. Qed.

(** Heaps that are equal up to the bytes between chunks, of which there are none. *)
Record heap_eq (cs : list chunk) (h h' : z_heap) : Prop := {
  he_same : same_heap h h';
  he_avail : h'.(avail_buckets) = h.(avail_buckets);
  he_free : h'.(free_bytes) = h.(free_bytes);
  he_alloc : h'.(allocated_bytes) = h.(allocated_bytes);
  he_buckets : h'.(buckets) = h.(buckets);
  he_head : forall p f, is_header f -> p ∈ pos <$> cs \/ p = h.(end_chunk) -> chunk_field h' p f = chunk_field h p f;
  he_body : forall c, c ∈ cs -> body_same h h' c
}.

Lemma eq_refl' cs h : heap_eq cs h h.
Proof. split; try done. Qed.

Lemma eq_inv h h' A cs : heap_eq cs h h' -> inv h A cs -> inv h' A cs.
Proof.
  intros He Hi. destruct He as [Hs H1 H2 H3 H4 H5 H6]. eapply (inv_header h h' A cs cs Hi); try done; try apply Hi.
  - eapply heads_ext; [|apply Hi]. intros p Hp. split; apply H5; first [done|by left|by right].
  - intros y Hy _. split; [done|]. by apply H6.
Qed.

Lemma eq_keeps h h' cs : heap_eq cs h h' -> keeps h h' cs.
Proof. intros He. split; [apply He|]. intros x Hx _. by apply He. Qed.

Lemma eq_ok h h' cs : heap_eq cs h h' -> heap_ok h cs -> heap_ok h' cs.
Proof. intros He [H1 H2 H3]. split; try done. rewrite (same_alloc_sum h h') by apply He. by eapply eq_inv. Qed.

(** ** Heaps with other used bits *)

(** [h'] is [h] with the used bits [f]. *)
Record marks (h : z_heap) (cs : list chunk) (f : chunk -> bool) (h' : z_heap) : Prop := {
  mk_same : same_heap h h';
  mk_avail : h'.(avail_buckets) = h.(avail_buckets);
  mk_free : h'.(free_bytes) = h.(free_bytes);
  mk_alloc : h'.(allocated_bytes) = h.(allocated_bytes);
  mk_buckets : h'.(buckets) = h.(buckets);
  mk_left : forall p, p ∈ pos <$> cs \/ p = h.(end_chunk) -> chunk_field h' p LEFT_SIZE = chunk_field h p LEFT_SIZE;
  mk_size : forall c, c ∈ cs -> chunk_field h' c.(pos) SIZE_AND_USED = 2 * c.(size) + Z.b2z (f c);
  mk_end : chunk_field h' h.(end_chunk) SIZE_AND_USED = chunk_field h h.(end_chunk) SIZE_AND_USED;
  mk_body : forall c, c ∈ cs -> body_same h h' c
}.

Section marked.
Context (h : z_heap) (A : Z) (cs : list chunk) (Hi : inv h A cs).

Lemma marks_start : marks h cs (fun c => bool_decide (c.(stat) = Used)) h.
Proof. split; try done. intros c Hc. rewrite (chunk_head Hi c Hc). unfold used_bit. destruct (decide (stat c = Used)); [by rewrite bool_decide_true|by rewrite bool_decide_false]. Qed.

Lemma marks_back h' : marks h cs (fun c => bool_decide (c.(stat) = Used)) h' -> heap_eq cs h h'.
Proof.
  intros Hm. split; try apply Hm. intros p f Hf Hp. destruct Hf as [-> | ->]; [by apply Hm|].
  destruct Hp as [(c & -> & Hc)%list_elem_of_fmap| ->]; [|apply Hm]. by rewrite (mk_size _ _ _ _ Hm c Hc), (mk_size _ _ _ _ marks_start c Hc).
Qed.

Lemma marks_ext f g h' : (forall c, c ∈ cs -> f c = g c) -> marks h cs f h' -> marks h cs g h'.
Proof. intros Hx [H1 H2 H3 H4 H5 H6 H7 H8 H9]. split; try done. intros c Hc. rewrite <- Hx by done. by apply H7. Qed.

Section reads.
Context {f : chunk -> bool} {h' : z_heap} (Hm : marks h cs f h').

Lemma m_size c : c ∈ cs -> chunk_size h' c.(pos) = c.(size) /\ chunk_used h' c.(pos) = f c.
Proof.
  intros Hc. pose proof (chunk_range Hi c Hc). destruct (size_of_field h' c.(pos) c.(size) (Z.b2z (f c))) as [-> ->];
    [destruct (f c); simpl; lia|lia|by apply Hm|]. split; [done|]. by destruct (f c).
Qed.

Lemma m_right c : c ∈ cs -> right_chunk h' c.(pos) = c.(pos) + c.(size).
Proof. intros Hc. pose proof (right_chunk_ok Hi c Hc) as H. unfold right_chunk in *. by rewrite (chunk_size_ok Hi c Hc) in H; destruct (m_size c Hc) as [-> _]. Qed.

Lemma m_left p : p ∈ pos <$> cs \/ p = h.(end_chunk) -> left_chunk h' p = left_chunk h p.
Proof. intros Hp. unfold left_chunk. by rewrite (mk_left _ _ _ _ Hm). Qed.

Lemma m_undersized c : c ∈ cs -> undersized_chunk h' c.(pos) = (c.(size) <? min_chunk_size h).
Proof.
  intros Hc. rewrite <- (undersized_ok Hi c Hc). unfold undersized_chunk. destruct (m_size c Hc) as [-> _].
  rewrite (chunk_size_ok Hi c Hc), (same_min h h') by apply Hm. unfold big_heap. by rewrite (sh_end h h') by apply Hm.
Qed.

Lemma m_end : chunk_used h' h.(end_chunk) = true.
Proof. unfold chunk_used. rewrite (mk_end _ _ _ _ Hm). apply (end_used Hi). Qed.

Lemma m_links c : c ∈ cs -> min_chunk_size h <= c.(size) ->
  next_free_chunk h' c.(pos) = next_free_chunk h c.(pos) /\ prev_free_chunk h' c.(pos) = prev_free_chunk h c.(pos).
Proof. intros Hc Hs. apply links_same; [apply Hm|by apply Hm|]. pose proof (min_chunk_width h). pose proof trailer_range. lia. Qed.

Lemma marks_set c (b : bool) : c ∈ cs -> marks h cs (fun x => if bool_decide (x.(pos) = c.(pos)) then b else f x) (set_chunk_used c.(pos) b h').
Proof.
  intros Hc. pose proof (chunk_range Hi c Hc) as Hr. pose proof (field_fits h (iv_fits _ _ _ Hi) c.(size) ltac:(lia)) as Hfit.
  assert (E : set_chunk_used c.(pos) b h' = chunk_set c.(pos) SIZE_AND_USED (2 * c.(size) + Z.b2z b) h').
  { unfold set_chunk_used. rewrite (mk_size _ _ _ _ Hm c Hc). f_equal. destruct b, (f c); simpl; rewrite ?Z.add_0_r;
      auto using lor_one_even, lor_one_odd, clear_one_even, clear_one_odd. }
  rewrite E. destruct Hm as [H1 H2 H3 H4 H5 H6 H7 H8 H9]. split; try done.
  - by etrans.
  - intros p Hp. rewrite header_ne by hdr. by apply H6.
  - intros x Hx. case_bool_decide as Ex.
    + rewrite Ex, field_eq by (rewrite (same_W _ _ H1); destruct b; simpl; lia). by rewrite (chunk_unique Hi x c Hx Hc Ex).
    + rewrite header_ne by hdr. by apply H7.
  - rewrite header_ne by hdr. done.
  - intros x Hx a Ha. rewrite <- H9 by done. apply field_other. rewrite (sh_base _ _ H1), (same_W _ _ H1). unfold body in Ha. simpl.
    pose proof (start_outside 0 cs h.(end_chunk) c.(pos) x (iv_tiles _ _ _ Hi) (or_introl (list_elem_of_fmap_2 pos cs c Hc)) Hx).
    destruct (width_cases h); lia.
Qed.

Lemma in_bounds_ok c : c ∈ cs -> 0 < c.(pos) -> in_bounds h' c.(pos) = true.
Proof.
  intros Hc Hp. unfold in_bounds. destruct (m_size c Hc) as [-> _]. pose proof (chunk_range Hi c Hc) as Hr.
  destruct (iv_first _ _ _ Hi) as (c0 & r & E & _). pose proof (iv_tiles _ _ _ Hi) as Ht. rewrite E in Ht. destruct Ht as (T1 & T2 & _).
  assert (H0 : c0 ∈ cs) by (rewrite E; apply elem_of_cons; by left). rewrite <- T1, (m_right c0 H0), (sh_end h h') by apply Hm.
  rewrite !andb_true_iff, Z.leb_le, !Z.ltb_lt. destruct (tiles_sep _ _ _ c c0 (iv_tiles _ _ _ Hi) Hc H0) as [->|[|]]; lia.
Qed.
End reads.

(** The links of a free chunk lead to free chunks. *)
Lemma circle_links l p : circle h l -> p ∈ l -> next_free_chunk h p ∈ l /\ prev_free_chunk h p ∈ l.
Proof.
  intros Hc Hp. destruct (circle_from _ _ _ Hp Hc) as (r & Hpm & Hr). rewrite !Hpm. clear Hc Hp Hpm. unfold circle in Hr. split.
  - destruct r as [|q r]; simpl in Hr; destruct Hr as [-> _]; [by left|right; by left].
  - apply path_snoc in Hr as (_ & _ & ->). apply link_of_elem.
Qed.

Lemma free_links c : c ∈ cs -> listable h c -> exists x y, x ∈ cs /\ y ∈ cs /\ 0 < x.(pos) /\ 0 < y.(pos) /\
  next_free_chunk h c.(pos) = x.(pos) /\ prev_free_chunk h c.(pos) = y.(pos).
Proof.
  intros Hc Hl. pose proof (chunk_range Hi c Hc). destruct (iv_lists _ _ _ Hi (bucket_idx h c.(size))) as (l & (Hci & _) & Hp).
  { apply bucket_idx_range; [apply Hi|]. destruct Hl. lia. }
  destruct (circle_links l c.(pos) Hci) as [Hn Hv]; [rewrite Hp, listed_spec; eauto|]. rewrite Hp, listed_spec in Hn, Hv.
  destruct Hn as (x & Hx & [Lx _] & _ & ->), Hv as (y & Hy & [Ly _] & _ & ->). exists x, y. split_and!; try done.
  - apply (later_pos h A cs x Hi Hx). by rewrite Lx.
  - apply (later_pos h A cs y Hi Hy). by rewrite Ly.
Qed.

(** Every chunk is valid as long as only chunks big enough are marked. *)
Lemma valid_marked f h' c : marks h cs f h' -> (forall x, x ∈ cs -> x.(stat) <> Limbo) -> coalesced cs ->
  (forall x, x ∈ cs -> x.(stat) = Used -> f x = true) -> (forall x, x ∈ cs -> f x = true -> min_chunk_size h <= x.(size)) ->
  c ∈ cs -> 0 < c.(pos) -> valid_chunk h' c.(pos) = true.
Proof.
  intros Hm Hnl Hco F1 F2 Hc Hp. pose proof (chunk_range Hi c Hc) as Hr. pose proof (end_range h (iv_fits _ _ _ Hi)) as He.
  pose proof (list_elem_of_split _ _ Hc) as (a & b & E). assert (Ha : a <> []).
  { intros ->. pose proof (iv_tiles _ _ _ Hi) as Ht. rewrite E in Ht. destruct Ht as [Ht _]. lia. }
  destruct (exists_last Ha) as (a' & x & ->). rewrite <- app_assoc in E. cbn [app] in E.
  assert (Hx : x ∈ cs) by (rewrite E; apply elem_mid). destruct (m_size Hm c Hc) as [Es Eu], (m_size Hm x Hx) as [_ Ex].
  assert (El : left_chunk h' c.(pos) = x.(pos)).
  { rewrite (m_left Hm) by (left; by apply list_elem_of_fmap_2). by eapply (left_chunk_ok Hi). }
  pose proof (right_chunk_ok Hi c Hc) as Er'. pose proof (m_right Hm c Hc) as Er. pose proof (start_after 0 (a' ++ [x]) c b h.(end_chunk)) as Hn.
  rewrite <- app_assoc in Hn. cbn [app] in Hn. rewrite <- E in Hn. specialize (Hn (iv_tiles _ _ _ Hi)).
  assert (Elr : left_chunk h' (c.(pos) + c.(size)) = c.(pos)) by (rewrite (m_left Hm) by done; rewrite <- Er'; by apply (right_left Hi)).
  assert (Exc : x.(pos) + x.(size) = c.(pos)).
  { pose proof (iv_tiles _ _ _ Hi) as Ht. rewrite E in Ht. apply tiles_middle in Ht as (_ & _ & Ht & _). done. }
  unfold valid_chunk. rewrite Es, Eu, El, Er, Elr, (m_right Hm x Hx), Exc, Ex, !Z.eqb_refl, (in_bounds_ok Hm c Hc Hp), (m_undersized Hm c Hc).
  rewrite u32_small, (sh_end h h') by (lia || apply Hm). destruct (Z.ltb_spec 0 c.(size)); [|lia].
  destruct (Z.leb_spec (c.(pos) + c.(size)) h.(end_chunk)); [|lia]. cbn [andb].
  destruct (f c) eqn:Ef; [specialize (F2 c Hc Ef); by apply negb_true_iff, Z.ltb_ge|].
  assert (c.(stat) = Free) as Hfr by (destruct (stat c) eqn:Est; [by rewrite F1 in Ef|done|by destruct (Hnl c Hc)]).
  rewrite E in Hco. change (a' ++ x :: c :: b) with (a' ++ [x] ++ c :: b) in Hco. apply coalesced_app in Hco as (_ & Hco & _). destruct Hco as [[Hxu|Hcu] [[Hcu'|Hb] _]]; [congruence| |simpl in Hcu; congruence|simpl in Hcu; congruence].
  rewrite (F1 x Hx Hxu). assert (Hnu : chunk_used h' (c.(pos) + c.(size)) = true).
  { destruct b as [|y b].
    - pose proof (iv_tiles _ _ _ Hi) as Ht. rewrite E in Ht. apply tiles_middle in Ht as (_ & _ & _ & _ & Ht). simpl in Ht.
      replace (pos c + size c) with (end_chunk h) by lia. apply (m_end Hm).
    - pose proof (iv_tiles _ _ _ Hi) as Ht. rewrite E in Ht. apply tiles_middle in Ht as (_ & _ & _ & _ & Ey & _).
      replace (pos c + size c) with (pos y) by lia.
      assert (Hy : y ∈ cs) by (rewrite E; apply elem_mid_r; right; by left). destruct (m_size Hm y Hy) as [_ ->]. by apply F1. }
  rewrite Hnu. cbn [andb]. destruct (Z.ltb_spec c.(size) (min_chunk_size h)); [done|]. cbn [negb].
  destruct (m_links Hm c Hc) as [-> ->]; [lia|]. destruct (free_links c Hc) as (u & v & Hu & Hv & Pu & Pv & -> & ->); [by split|].
  by rewrite !(in_bounds_ok Hm) by done.
Qed.

Lemma tiles_length p l e : tiles p l e -> p + Z.of_nat (length l) <= e.
Proof. revert p. induction l as [|c l IH]; intros p; simpl; [lia|]. intros (_ & H1 & H2). specialize (IH _ H2). lia. Qed.

Lemma chunks_bound : Z.of_nat (length cs) <= h.(end_chunk) < 2 ^ 29.
Proof. pose proof (tiles_length _ _ _ (iv_tiles _ _ _ Hi)). pose proof (end_range h (iv_fits _ _ _ Hi)). lia. Qed.

(** *** The walks over the chunks *)

Lemma check_walk f h' b : marks h cs f h' -> forall p fuel, tiles p b h.(end_chunk) ->
  (forall c, c ∈ b -> c ∈ cs /\ valid_chunk h' c.(pos) = true) -> (length b < fuel)%nat -> check_chunks fuel h' p = Some true.
Proof.
  intros Hm. pose proof (sh_end h h' (mk_same _ _ _ _ Hm)) as Ee. induction b as [|c b IH]; intros p fuel Ht Hb Hl.
  - destruct fuel; [simpl in Hl; lia|]. simpl in *. by rewrite Ee, Ht, Z.ltb_irrefl, Z.eqb_refl.
  - destruct fuel as [|fuel]; [simpl in Hl; lia|]. destruct Ht as (<- & Hs & Ht). destruct (Hb c ltac:(by left)) as [Hc Hv].
    pose proof (chunk_range Hi c Hc). simpl. destruct (Z.ltb_spec c.(pos) h'.(end_chunk)); [|lia]. rewrite Hv. cbn [negb].
    rewrite (m_right Hm c Hc). apply IH; [done| |simpl in Hl; lia]. intros y Hy. apply Hb. by right.
Qed.

(** The bits of a walk that has come to [cur]. *)
Definition walked (old new : chunk -> bool) (cur : Z) (c : chunk) : bool :=
  if (0 <? c.(pos)) && (c.(pos) <? cur) then new c else old c.

Lemma walked_next old new c h' : c ∈ cs -> 0 < c.(pos) -> marks h cs (walked old new c.(pos)) h' ->
  walked old new c.(pos) c = old c /\ marks h cs (walked old new (c.(pos) + c.(size))) (set_chunk_used c.(pos) (new c) h').
Proof.
  intros Hc Hp Hm. split; [unfold walked; by rewrite Z.ltb_irrefl, andb_false_r|].
  eapply marks_ext; [|by apply (marks_set Hm c (new c) Hc)]. intros x Hx. simpl. case_bool_decide as E.
  - rewrite (chunk_unique Hi x c Hx Hc E). unfold walked. pose proof (chunk_range Hi c Hc).
    destruct (Z.ltb_spec 0 c.(pos)), (Z.ltb_spec c.(pos) (c.(pos) + c.(size))); try lia. done.
  - unfold walked. pose proof (chunk_range Hi c Hc). pose proof (chunk_range Hi x Hx).
    destruct (tiles_sep _ _ _ x c (iv_tiles _ _ _ Hi) Hx Hc) as [->|[|]]; [done|..];
      destruct (Z.ltb_spec x.(pos) c.(pos)), (Z.ltb_spec x.(pos) (c.(pos) + c.(size))); try lia; done.
Qed.

Lemma unmark_walk old b : (forall c, c ∈ cs -> old c = true \/ c.(size) < min_chunk_size h) -> forall a x fuel h',
  cs = a ++ x :: b -> marks h cs (walked old (fun c => c.(size) <? min_chunk_size h) (x.(pos) + x.(size))) h' -> (length b < fuel)%nat ->
  exists h'', unmark_chunks fuel (x.(pos) + x.(size)) x.(pos) h' = Some (true, h'') /\
    marks h cs (walked old (fun c => c.(size) <? min_chunk_size h) h.(end_chunk)) h''.
Proof.
  intros Hold. induction b as [|c b IH]; intros a x fuel h' E Hm Hl; (destruct fuel as [|fuel]; [simpl in Hl; lia|]);
    pose proof (iv_tiles _ _ _ Hi) as Ht; rewrite E in Ht; apply tiles_middle in Ht as (_ & Hx & Ht); cbn [unmark_chunks];
    rewrite (sh_end h h') by apply Hm.
  - simpl in Ht. rewrite Ht, Z.ltb_irrefl, Z.eqb_refl. exists h'. split; [done|]. by rewrite Ht in Hm.
  - destruct Ht as (Ex & Hs & Ht). rewrite <- Ex in *. assert (Hc : c ∈ cs) by (rewrite E; apply elem_mid_r; by left).
    assert (Hxc : x ∈ cs) by (rewrite E; apply elem_mid). pose proof (chunk_range Hi c Hc). pose proof (chunk_range Hi x Hxc).
    destruct (Z.ltb_spec c.(pos) h.(end_chunk)); [|lia]. destruct (walked_next _ _ c h' Hc ltac:(lia) Hm) as [Eo Hm'].
    destruct (m_size Hm c Hc) as [_ ->]. rewrite Eo, (m_undersized Hm c Hc), (m_left Hm) by (left; by apply list_elem_of_fmap_2).
    rewrite (left_chunk_ok Hi a x c b E), Z.eqb_refl. cbn [negb]. replace (negb (old c) && negb (c.(size) <? min_chunk_size h)) with false.
    + cbv zeta. rewrite (m_right Hm' c Hc). apply (IH (a ++ [x])); [by rewrite <- app_assoc|done|simpl in Hl; lia].
    + destruct (Hold c Hc) as [->|Hlt]; [done|]. apply Z.ltb_lt in Hlt. by rewrite Hlt, andb_false_r.
Qed.

Lemma invert_walk old b : forall a x fuel h', cs = a ++ x :: b ->
  marks h cs (walked old (fun c => negb (old c)) (x.(pos) + x.(size))) h' -> (length b < fuel)%nat ->
  exists h'', invert_chunks fuel (x.(pos) + x.(size)) h' = Some h'' /\ marks h cs (walked old (fun c => negb (old c)) h.(end_chunk)) h''.
Proof.
  induction b as [|c b IH]; intros a x fuel h' E Hm Hl; (destruct fuel as [|fuel]; [simpl in Hl; lia|]);
    pose proof (iv_tiles _ _ _ Hi) as Ht; rewrite E in Ht; apply tiles_middle in Ht as (_ & Hx & Ht); cbn [invert_chunks];
    rewrite (sh_end h h') by apply Hm.
  - simpl in Ht. rewrite Ht, Z.ltb_irrefl. exists h'. split; [done|]. by rewrite Ht in Hm.
  - destruct Ht as (Ex & Hs & Ht). rewrite <- Ex in *. assert (Hc : c ∈ cs) by (rewrite E; apply elem_mid_r; by left).
    assert (Hxc : x ∈ cs) by (rewrite E; apply elem_mid). pose proof (chunk_range Hi c Hc). pose proof (chunk_range Hi x Hxc).
    destruct (Z.ltb_spec c.(pos) h.(end_chunk)); [|lia]. destruct (walked_next _ _ c h' Hc ltac:(lia) Hm) as [Eo Hm'].
    destruct (m_size Hm c Hc) as [_ ->]. rewrite Eo. cbv zeta. rewrite (m_right Hm' c Hc).
    apply (IH (a ++ [x])); [by rewrite <- app_assoc|done|simpl in Hl; lia].
Qed.

(** *** The walks over the lists *)

(** The chunk behind one on a list. *)
Lemma circle_next d q r : circle h (d ++ q :: r) -> next_free_chunk h q = default (default q (head d)) (head r).
Proof.
  intros Hc. apply circle_rotate in Hc. cbn [app circle] in Hc. destruct r as [|y r]; [|by destruct Hc].
  destruct d as [|y d]; by destruct Hc.
Qed.

(** The chunks of one bucket. *)
Definition bucket_chunks (b : Z) (l : list Z) : Prop := circle h l /\ l ≡ₚ pos <$> listed h b cs.

Lemma bucket_chunk b l p : bucket_chunks b l -> p ∈ l -> exists c, c ∈ cs /\ listable h c /\ p = c.(pos) /\ 0 < p.
Proof.
  intros [_ Hp]. rewrite Hp, listed_spec. intros (c & Hc & Hl & _ & ->). exists c. split_and!; try done.
  apply (later_pos h A cs c Hi Hc). destruct Hl as [-> _]. done.
Qed.

Lemma bucket_length b l : bucket_chunks b l -> NoDup l /\ (length l <= length cs)%nat.
Proof.
  intros [_ Hp]. split; [rewrite Hp; eapply listed_nodup, Hi|]. rewrite Hp, length_fmap. apply length_filter.
Qed.

(** The bits of a walk over a list that has passed [d]. *)
Definition passed (old : chunk -> bool) (d : list Z) (c : chunk) : bool := old c || bool_decide (c.(pos) ∈ d).

Lemma passed_next old d c h' : c ∈ cs -> marks h cs (passed old d) h' -> marks h cs (passed old (d ++ [c.(pos)])) (set_chunk_used c.(pos) true h').
Proof.
  intros Hc Hm. eapply marks_ext; [|by apply (marks_set Hm c true Hc)]. intros x Hx. simpl. unfold passed. case_bool_decide as E.
  - rewrite bool_decide_true; [by rewrite orb_true_r|]. apply elem_of_app. right. by apply list_elem_of_singleton.
  - f_equal. apply bool_decide_ext. rewrite elem_of_app, list_elem_of_singleton. tauto.
Qed.

(** Where a walk over a list is: at the first chunk again when it has passed all. *)
Lemma walk_at l d q r : NoDup l -> l = d ++ q :: r -> (Z.of_nat (length d) =? 0) || negb (q =? default 0 (head l)) = true.
Proof.
  intros Hnd ->. destruct d as [|y d]; [done|]. simpl. apply negb_true_iff, Z.eqb_neq.
  apply NoDup_cons in Hnd as [Hy _]. intros ->. apply Hy, elem_mid.
Qed.

Lemma walk_next l d q r h' old : circle h l -> l = d ++ q :: r -> (exists c, c ∈ cs /\ listable h c /\ q = c.(pos)) -> marks h cs old h' ->
  next_free_chunk h' q = default (default 0 (head l)) (head r).
Proof.
  intros Hc E (c & Hcs & Hl & ->) Hm. destruct (m_links Hm c Hcs) as [-> _]; [apply Hl|]. rewrite E in Hc. rewrite (circle_next _ _ _ Hc), E.
  by destruct r, d.
Qed.

Lemma mark_walk b l old : bucket_chunks b l -> l <> [] -> (forall x, x ∈ cs -> x.(stat) <> Limbo) -> coalesced cs ->
  (forall x, x ∈ cs -> x.(stat) = Used -> old x = true) -> (forall x, x ∈ cs -> old x = true -> min_chunk_size h <= x.(size)) ->
  forall r d fuel h', l = d ++ r -> marks h cs (passed old d) h' -> (length r < fuel)%nat ->
  exists h'', mark_list fuel (default 0 (head l)) (default (default 0 (head l)) (head r)) (Z.of_nat (length d)) h' =
    Some (true, Z.of_nat (length l), h'') /\ marks h cs (passed old l) h''.
Proof.
  intros Hb Hne Hnl Hco F1 F2. destruct (bucket_length _ _ Hb) as [Hnd Hlen]. induction r as [|q r IH]; intros d fuel h' E Hm Hl;
    (destruct fuel as [|fuel]; [simpl in Hl; lia|]); cbn [mark_list].
  - rewrite app_nil_r in E. subst d. exists h'. split; [|done]. simpl. rewrite Z.eqb_refl. destruct l; [done|]. simpl. by rewrite andb_false_r.
  - destruct (bucket_chunk b l q Hb) as (c & Hc & Hlc & Eq & Hq); [rewrite E; apply elem_mid|]. cbn [head].
    change (default (default 0 (head l)) (Some q)) with q. rewrite (walk_at l d q r Hnd E). destruct (Z.eqb_spec q 0); [lia|]. cbn [negb andb].
    rewrite Eq, (valid_marked _ _ c Hm Hnl Hco); [|..|done|lia].
    + cbn [negb]. pose proof (passed_next _ _ _ _ Hc Hm) as Hm'. rewrite <- Eq in *. 
      rewrite (walk_next l d q r _ (passed old (d ++ [q])) (proj1 Hb) E); [|eauto|done].
      rewrite u32_small by (pose proof chunks_bound; rewrite E, length_app in Hlen; simpl in Hlen; lia).
      replace (Z.of_nat (length d) + 1) with (Z.of_nat (length (d ++ [q]))) by (rewrite length_app; simpl; lia).
      apply IH; [by rewrite <- app_assoc|done|simpl in Hl; lia].
    + intros x Hx Hu. unfold passed. by rewrite F1.
    + intros x Hx. unfold passed. intros [Ho|Hd%bool_decide_eq_true]%orb_true_iff; [by apply F2|].
      destruct (bucket_chunk b l x.(pos) Hb) as (y & Hy & [_ Hly] & Exy & _); [rewrite E; apply elem_of_app; by left|]. by rewrite (chunk_unique Hi x y).
Qed.

Lemma remark_walk b l old : bucket_chunks b l -> l <> [] -> (forall c, c ∈ cs -> c.(pos) ∈ l -> old c = false) ->
  forall r d fuel h', l = d ++ r -> marks h cs (passed old d) h' -> (length r < fuel)%nat ->
  exists h'', remark_list fuel (default 0 (head l)) (default (default 0 (head l)) (head r)) (Z.of_nat (length d)) h' = Some (true, h'') /\
    marks h cs (passed old l) h''.
Proof.
  intros Hb Hne Hold. destruct (bucket_length _ _ Hb) as [Hnd _]. induction r as [|q r IH]; intros d fuel h' E Hm Hl;
    (destruct fuel as [|fuel]; [simpl in Hl; lia|]); cbn [remark_list].
  - rewrite app_nil_r in E. subst d. exists h'. split; [|done]. simpl. rewrite Z.eqb_refl. by destruct l.
  - assert (Hql : q ∈ l) by (rewrite E; apply elem_mid). destruct (bucket_chunk b l q Hb Hql) as (c & Hc & Hlc & Eq & Hq). cbn [head].
    change (default (default 0 (head l)) (Some q)) with q. rewrite (walk_at l d q r Hnd E), Eq.
    destruct (m_size Hm c Hc) as [_ ->]. rewrite Eq in Hql. replace (passed old d c) with false.
    + pose proof (passed_next _ _ _ _ Hc Hm) as Hm'. rewrite <- Eq in *.
      rewrite (walk_next l d q r _ (passed old (d ++ [q])) (proj1 Hb) E); [|eauto|done].
      replace (Z.of_nat (length d) + 1) with (Z.of_nat (length (d ++ [q]))) by (rewrite length_app; simpl; lia).
      apply IH; [by rewrite <- app_assoc|done|simpl in Hl; lia].
    + unfold passed. rewrite (Hold c Hc Hql), bool_decide_false; [done|]. rewrite E in Hnd. apply NoDup_app in Hnd as (_ & Hnd & _).
      rewrite <- Eq. intros Hd. apply (Hnd q Hd). by left.
Qed.

(** The lists of the buckets below [b]. *)
Definition below (old : chunk -> bool) (b : Z) (c : chunk) : bool := old c || bool_decide (listable h c /\ bucket_idx h c.(size) < b).

Lemma below_next b l old h' : 0 <= b -> bucket_chunks b l -> marks h cs (passed (below old b) l) h' -> marks h cs (below old (b + 1)) h'.
Proof.
  intros Hb [_ Hl]. apply marks_ext. intros c Hc. unfold passed, below. rewrite <- orb_assoc. f_equal.
  rewrite <- bool_decide_or. apply bool_decide_ext. rewrite Hl, listed_spec. split.
  - intros [[H1 H2]|(x & Hx & H1 & H2 & E)]; [split; [done|lia]|]. rewrite (chunk_unique Hi c x Hc Hx E). split; [done|lia].
  - intros [H1 H2]. destruct (decide (bucket_idx h c.(size) < b)); [by left|]. right. exists c. split_and!; try done. lia.
Qed.

Lemma land_bit x n : 0 <= n -> (x .& bit n =? 0) = negb (Z.testbit x n).
Proof.
  intros Hn. unfold bit. rewrite Z.shiftl_1_l. destruct (Z.testbit x n) eqn:E; simpl.
  - apply Z.eqb_neq. intros H. assert (F : Z.testbit (x .& 2 ^ n) n = false) by (rewrite H; apply Z.bits_0).
    by rewrite Z.land_spec, Z.pow2_bits_true, E in F.
  - apply Z.eqb_eq, Z.bits_inj'. intros k Hk. rewrite Z.land_spec, Z.bits_0, Z.pow2_bits_eqb by done.
    destruct (Z.eqb_spec n k) as [<-|]; [by rewrite E|apply andb_false_r].
Qed.

Lemma mark_lists_walk old fuel : (forall x, x ∈ cs -> x.(stat) <> Limbo) -> coalesced cs ->
  (forall x, x ∈ cs -> x.(stat) = Used -> old x = true) -> (forall x, x ∈ cs -> old x = true -> min_chunk_size h <= x.(size)) ->
  (length cs < fuel)%nat -> forall (n : nat) b h', 0 <= b -> b + Z.of_nat n = nb_buckets h -> marks h cs (below old b) h' ->
  exists h'', mark_lists fuel (seqZ b (Z.of_nat n)) h' = Some (true, h'') /\ marks h cs (below old (nb_buckets h)) h''.
Proof.
  intros Hnl Hco F1 F2 Hf. induction n as [|n IH]; intros b h' Hb Hn Hm.
  { exists h'. split; [done|]. by replace (nb_buckets h) with b by lia. }
  rewrite seqZ_cons by lia. replace (Z.pred (Z.of_nat (S n))) with (Z.of_nat n) by lia. cbn [mark_lists].
  destruct (iv_lists _ _ _ Hi b) as (l & (B1 & B2 & B3) & Hl); [lia|]. assert (Hbc : bucket_chunks b l) by done.
  assert (Hw : exists h'', mark_list fuel (h'.(buckets) b) (h'.(buckets) b) 0 h' = Some (true, Z.of_nat (length l), h'') /\
      marks h cs (passed (below old b) l) h'').
  { rewrite (mk_buckets _ _ _ _ Hm), B2. destruct (decide (l = [])) as [->|Hne].
    - exists h'. split; [by destruct fuel; [lia|]|]. eapply marks_ext; [|exact Hm]. intros c _. unfold passed. by rewrite orb_false_r.
    - destruct (bucket_length _ _ Hbc) as [_ Hlen]. destruct (mark_walk b l (below old b) Hbc Hne Hnl Hco) with (r := l) (d := @nil Z) (fuel := fuel) (h' := h')
        as (h'' & Hx & Hm''); [..|done| |lia|].
      + intros x Hx Hu. unfold below. by rewrite F1.
      + intros x Hx. unfold below. intros [?|[[_ ?] _]%bool_decide_eq_true]%orb_true_iff; [by apply F2|done].
      + eapply marks_ext; [|exact Hm]. intros c _. unfold passed. by rewrite orb_false_r.
      + exists h''. split; [|done]. rewrite <- Hx. by destruct l. }
  destruct Hw as (h1 & -> & Hm1). pose proof (below_next _ _ _ _ Hb Hbc Hm1) as Hm2. simpl.
  rewrite (mk_avail _ _ _ _ Hm2), (mk_buckets _ _ _ _ Hm2), land_bit, B3, B2 by lia. destruct l as [|q l]; simpl.
  - apply IH; [lia|lia|done].
  - apply IH; [lia|lia|done].
Qed.

Lemma remark_lists_walk old fuel : (forall x, x ∈ cs -> listable h x -> old x = false) ->
  (length cs < fuel)%nat -> forall (n : nat) b h', 0 <= b -> b + Z.of_nat n = nb_buckets h -> marks h cs (below old b) h' ->
  exists h'', remark_lists fuel (seqZ b (Z.of_nat n)) h' = Some (true, h'') /\ marks h cs (below old (nb_buckets h)) h''.
Proof.
  intros Hold Hf. induction n as [|n IH]; intros b h' Hb Hn Hm.
  { exists h'. split; [done|]. by replace (nb_buckets h) with b by lia. }
  rewrite seqZ_cons by lia. replace (Z.pred (Z.of_nat (S n))) with (Z.of_nat n) by lia. cbn [remark_lists].
  destruct (iv_lists _ _ _ Hi b) as (l & (B1 & B2 & B3) & Hl); [lia|]. assert (Hbc : bucket_chunks b l) by done.
  assert (Hm0 : marks h cs (passed (below old b) []) h').
  { eapply marks_ext; [|exact Hm]. intros c _. unfold passed. by rewrite orb_false_r. }
  rewrite (mk_buckets _ _ _ _ Hm), B2. destruct (decide (l = [])) as [->|Hne].
  { simpl. apply IH; [lia|lia|]. by eapply below_next. }
  destruct (Z.eqb_spec (default 0 (head l)) 0) as [E|_].
  { destruct l as [|q l]; [done|]. simpl in E. destruct (bucket_chunk b (q :: l) q Hbc) as (c & _ & _ & _ & ?); [by left|lia]. }
  destruct (bucket_length _ _ Hbc) as [_ Hlen].
  destruct (remark_walk b l (below old b) Hbc Hne) with (r := l) (d := @nil Z) (fuel := fuel) (h' := h') as (h'' & Hx & Hm''); [|done|done|lia|].
  - intros c Hc Hp. destruct (Hbc) as [_ Hpm]. rewrite Hpm, listed_spec in Hp. destruct Hp as (x & Hx & Hlx & Hbx & E).
    rewrite (chunk_unique Hi c x Hc Hx E). unfold below. rewrite (Hold x Hx Hlx), bool_decide_false; [done|]. lia.
  - destruct l as [|q l]; [done|]. change (default (default 0 (head (q :: l))) (head (q :: l))) with (default 0 (head (q :: l))) in Hx.
    change (Z.of_nat (length (@nil Z))) with 0 in Hx. rewrite Hx. simpl. apply IH; [lia|lia|]. by eapply below_next.
Qed.

Lemma listable_bucket c : c ∈ cs -> listable h c -> 0 <= bucket_idx h c.(size) < nb_buckets h.
Proof. intros Hc [_ Hm]. apply bucket_idx_range; [apply Hi|]. pose proof (chunk_range Hi c Hc). lia. Qed.

Lemma below_0 old c : c ∈ cs -> below old 0 c = old c.
Proof.
  intros Hc. unfold below. rewrite bool_decide_false; [apply orb_false_r|]. intros [Hl Hb]. pose proof (listable_bucket c Hc Hl). lia.
Qed.
Lemma below_all old c : c ∈ cs -> below old (nb_buckets h) c = old c || bool_decide (listable h c).
Proof.
  intros Hc. unfold below. f_equal. apply bool_decide_ext. split; [tauto|]. intros Hl. split; [done|]. by apply listable_bucket.
Qed.

Lemma later_chunks c0 r c : cs = c0 :: r -> c ∈ cs -> 0 < c.(pos) \/ c = c0 /\ c.(pos) = 0.
Proof.
  intros E Hc. pose proof (iv_tiles _ _ _ Hi) as Ht. rewrite E in *. destruct Ht as (P0 & S0 & Ht).
  apply elem_of_cons in Hc as [->|Hc]; [by right|]. left. destruct (tiles_bounds _ _ _ Ht) as [_ B]. specialize (B c Hc). lia.
Qed.

(** The bits of the second walk, and of the last. *)
Definition bits1 (c : chunk) : bool := bool_decide (c.(stat) = Used) || bool_decide (listable h c).
Definition bits2 : chunk -> bool := walked bits1 (fun c => c.(size) <? min_chunk_size h) h.(end_chunk).
Definition bits3 (c : chunk) : bool := bits2 c || bool_decide (listable h c).

Lemma bits2_later c : c ∈ cs -> 0 < c.(pos) -> bits2 c = (c.(size) <? min_chunk_size h).
Proof.
  intros Hc Hp. unfold bits2, walked. pose proof (chunk_range Hi c Hc). destruct (Z.ltb_spec 0 c.(pos)), (Z.ltb_spec c.(pos) h.(end_chunk)); try lia. done.
Qed.

Lemma bits_back c0 r c : cs = c0 :: r -> c0.(stat) = Used -> (forall x, x ∈ cs -> x.(stat) <> Limbo) -> c ∈ cs ->
  walked bits3 (fun c => negb (bits3 c)) h.(end_chunk) c = bool_decide (c.(stat) = Used).
Proof.
  intros E Hu Hnl Hc. unfold walked. pose proof (chunk_range Hi c Hc). destruct (later_chunks c0 r c E Hc) as [Hp|[-> Hp]].
  - destruct (Z.ltb_spec 0 c.(pos)), (Z.ltb_spec c.(pos) h.(end_chunk)); try lia. simpl. unfold bits3. rewrite bits2_later by done.
    destruct (Z.ltb_spec c.(size) (min_chunk_size h)); simpl.
    + symmetry. apply bool_decide_eq_false. intros Hx. pose proof (iv_min _ _ _ Hi c Hc Hx). lia.
    + rewrite <- bool_decide_not. apply bool_decide_ext. unfold listable. pose proof (Hnl c Hc). destruct (stat c); naive_solver.
  - rewrite Hp. simpl. unfold bits3, bits2, walked, bits1. rewrite Hp. simpl. by rewrite (bool_decide_true (stat c0 = Used)).
Qed.

Lemma bind_some {X Y} (x : X) (f : X -> option Y) : (Some x ≫= f) = f x.
Proof. done. Qed.

(** A walk that has not started. *)
Lemma walked_start old new c0 r c : cs = c0 :: r -> c ∈ cs -> walked old new (c0.(pos) + c0.(size)) c = old c.
Proof.
  intros E Hc. unfold walked. destruct (later_chunks c0 r c E Hc) as [Hp|[-> Hp]]; [|by rewrite Hp].
  assert (H0 : c0 ∈ cs) by (rewrite E; by left). pose proof (chunk_range Hi c Hc). pose proof (chunk_range Hi c0 H0).
  destruct (Z.ltb_spec c.(pos) (c0.(pos) + c0.(size))); [|by rewrite andb_false_r].
  destruct (later_chunks c0 r c0 E H0) as [Hp0|[_ Hp0]]; [pose proof (iv_tiles _ _ _ Hi) as Ht; rewrite E in Ht; destruct Ht as [Ht _]; lia|].
  destruct (tiles_sep _ _ _ c c0 (iv_tiles _ _ _ Hi) Hc H0) as [->|[|]]; lia.
Qed.

(** The whole check: every bit comes back. *)
Lemma full_check_marks fuel : (forall x, x ∈ cs -> x.(stat) <> Limbo) -> coalesced cs -> (length cs < fuel)%nat ->
  exists h', z_heap_full_check fuel h = Some (true, h') /\ heap_eq cs h h'.
Proof.
  intros Hnl Hco Hf. destruct (iv_first _ _ _ Hi) as (c0 & r & E & Hu0). pose proof (iv_tiles _ _ _ Hi) as Ht. rewrite E in Ht.
  destruct Ht as (P0 & S0 & Ht). assert (H0 : c0 ∈ cs) by (rewrite E; by left). assert (Hlr : (length r < fuel)%nat) by (rewrite E in Hf; simpl in Hf; lia).
  assert (R0 : forall f h', marks h cs f h' -> right_chunk h' 0 = c0.(pos) + c0.(size)) by (intros f h' Hm; rewrite <- P0 at 1; by apply (m_right Hm)).
  set (used := fun c => bool_decide (c.(stat) = Used)).
  assert (U1 : forall x, x ∈ cs -> x.(stat) = Used -> used x = true) by (intros x _ Hx; by apply bool_decide_eq_true).
  assert (U2 : forall x, x ∈ cs -> used x = true -> min_chunk_size h <= x.(size)) by (intros x Hx H%bool_decide_eq_true; by apply Hi).
  pose proof (nb_range h (iv_fits _ _ _ Hi)) as Hnb. unfold z_heap_full_check, all_buckets.
  rewrite (check_walk _ _ r marks_start); [|by rewrite (R0 _ _ marks_start), P0| |done].
  2: { intros c Hc. assert (c ∈ cs) by (rewrite E; by right). split; [done|]. apply (valid_marked _ _ c marks_start); try done.
       destruct (tiles_bounds _ _ _ Ht) as [_ B]. specialize (B c Hc). lia. }
  rewrite bind_some. cbn [negb]. fold (nb_buckets h). rewrite <- (Z2Nat.id (nb_buckets h)) by lia.
  destruct (mark_lists_walk used fuel Hnl Hco U1 U2 Hf (Z.to_nat (nb_buckets h)) 0 h) as (h1 & -> & M1); [lia|lia| |].
  { eapply marks_ext; [|exact marks_start]. intros c Hc. by rewrite below_0. }
  eapply (marks_ext _ bits1) in M1; [|by apply below_all]. rewrite bind_some. cbn [negb]. rewrite (R0 _ _ M1).
  destruct (unmark_walk bits1 r) with (a := @nil chunk) (x := c0) (fuel := fuel) (h' := h1) as (h2 & Hw2 & M2); [|done| |done|].
  { intros c Hc. destruct (decide (c.(size) < min_chunk_size h)); [by right|]. left. unfold bits1. pose proof (Hnl c Hc).
    apply orb_true_iff. rewrite !bool_decide_eq_true. unfold listable. destruct (stat c); [by left|right; split; [done|lia]|done]. }
  { eapply marks_ext; [|exact M1]. intros c Hc. symmetry. by eapply walked_start. }
  fold bits2 in M2. rewrite P0 in Hw2 at 2. rewrite Hw2, bind_some. cbn [negb]. fold (nb_buckets h2).
  rewrite (same_nb h h2) by apply M2. rewrite <- (Z2Nat.id (nb_buckets h)) by lia.
  destruct (remark_lists_walk bits2 fuel) with (n := Z.to_nat (nb_buckets h)) (b := 0) (h' := h2) as (h3 & -> & M3); [|done|lia|lia| |].
  { intros c Hc Hl. rewrite bits2_later; [apply Z.ltb_ge, Hl|done|]. apply (later_pos h A cs c Hi Hc). destruct Hl as [-> _]. done. }
  { eapply marks_ext; [|exact M2]. intros c Hc. by rewrite below_0. }
  eapply (marks_ext _ bits3) in M3; [|by apply below_all]. rewrite bind_some. cbn [negb]. rewrite (R0 _ _ M3).
  destruct (invert_walk bits3 r [] c0 fuel h3 E) as (h4 & -> & M4); [|done|].
  { eapply marks_ext; [|exact M3]. intros c Hc. symmetry. by eapply walked_start. }
  exists h4. split; [done|]. apply marks_back. eapply marks_ext; [|exact M4]. intros c Hc. by eapply bits_back.
Qed.

End marked.

Lemma full_check_ok h cs fuel : heap_ok h cs -> (Z.to_nat h.(end_chunk) < fuel)%nat ->
  exists h', z_heap_full_check fuel h = Some (true, h') /\ heap_eq cs h h'.
Proof.
  intros [Hi Hl Hco] Hf. eapply full_check_marks; [exact Hi|done|done|]. pose proof (chunks_bound _ _ _ Hi). lia.
Qed.

Lemma full_check_panic_ok h cs : heap_ok h cs -> exists h', full_check_or_panic h = Some h' /\ heap_eq cs h h'.
Proof.
  intros Ho. unfold full_check_or_panic. destruct SYS_HEAP_HARDENING_EXTREME; [|exists h; split; [done|apply eq_refl']].
  destruct (full_check_ok h cs (check_fuel h) Ho) as (h' & -> & He); [unfold check_fuel; lia|]. by exists h'.
Qed.

(** ** The statistics *)

Lemma alloc_info_walk h A cs b : inv h A cs -> (forall x, x ∈ cs -> x.(stat) <> Limbo) -> forall a x fuel al fr,
  cs = a ++ x :: b -> (length b < fuel)%nat ->
  alloc_info_loop fuel h (x.(pos) + x.(size)) (u32 al) (u32 fr) =
    Some (u32 (al + Zsum (fun c => usable h c.(size)) (used_of b)), u32 (fr + free_sum h b)).
Proof.
  intros Hi Hnl. induction b as [|c b IH]; intros a x fuel al fr E Hl; (destruct fuel as [|fuel]; [simpl in Hl; lia|]);
    pose proof (iv_tiles _ _ _ Hi) as Ht; rewrite E in Ht; apply tiles_middle in Ht as (_ & Hx & Ht); cbn [alloc_info_loop].
  - simpl in Ht. rewrite Ht, Z.ltb_irrefl. unfold free_sum. simpl. by rewrite !Z.add_0_r.
  - destruct Ht as (Ex & Hs & Ht). rewrite <- Ex in *. assert (Hc : c ∈ cs) by (rewrite E; apply elem_mid_r; by left).
    pose proof (chunk_range Hi c Hc) as Hr. destruct (Z.ltb_spec c.(pos) h.(end_chunk)); [|lia].
    assert (IH' := fun al fr => IH (a ++ [x]) c fuel al fr ltac:(by rewrite <- app_assoc) ltac:(simpl in Hl; lia)).
    rewrite (chunk_used_ok Hi c Hc), (undersized_ok Hi c Hc), (right_chunk_ok Hi c Hc), (usable_ok Hi c Hc).
    unfold free_sum. rewrite Zsum_cons. destruct c as [cp cz u]. cbn [pos size stat] in *. pose proof (Hnl _ Hc) as Hcl. cbn [stat] in Hcl. destruct u; [| |done].
    + rewrite bool_decide_true by done. rewrite u32_add_idemp, u32_add_idemp_r, IH'. rewrite (decide_False (P := listable h _)) by (by intros [? _]).
      unfold used_of at 2. rewrite filter_cons_True by done. rewrite Zsum_cons. fold (used_of b). cbn [size]. f_equal. f_equal; f_equal; unfold free_sum; lia.
    + rewrite bool_decide_false by done. unfold used_of at 1. rewrite filter_cons_False by done. fold (used_of b).
      destruct (Z.ltb_spec cz (min_chunk_size h)); cbn [negb].
      * rewrite IH', (decide_False (P := listable h _)) by (intros [_ ?]; simpl in *; lia). done.
      * rewrite u32_add_idemp, u32_add_idemp_r, IH', (decide_True (P := listable h _)) by (split; simpl; done || lia). cbn [size]. f_equal. f_equal. f_equal. unfold free_sum. lia.
Qed.

Lemma alloc_info_ok h cs fuel : heap_ok h cs -> (Z.to_nat h.(end_chunk) < fuel)%nat ->
  get_alloc_info fuel h = Some (u32 (alloc_sum h cs), u32 (free_sum h cs)).
Proof.
  intros [Hi Hnl _] Hf. destruct (iv_first _ _ _ Hi) as (c0 & r & E & Hu). pose proof (iv_tiles _ _ _ Hi) as Ht. rewrite E in Ht. destruct Ht as (P0 & _).
  assert (H0 : c0 ∈ cs) by (rewrite E; by left). unfold get_alloc_info. rewrite <- P0 at 1. rewrite (right_chunk_ok Hi c0 H0).
  pose proof (alloc_info_walk h _ cs r Hi Hnl [] c0 fuel 0 0 E) as Hw. change (u32 0) with 0 in Hw. rewrite Hw.
  - unfold alloc_sum, used_of. rewrite E, filter_cons_True by done. cbn [tail]. do 3 f_equal. unfold free_sum. rewrite Zsum_cons, decide_False; [lia|]. intros [? _]. congruence.
  - pose proof (chunks_bound _ _ _ Hi) as Hb. rewrite E in Hb. simpl in Hb. lia.
Qed.

(** A good heap is valid. *)
Lemma validate_ok h cs fuel : heap_ok h cs -> (Z.to_nat h.(end_chunk) < fuel)%nat ->
  exists h', sys_heap_validate fuel h = Some (true, h') /\ heap_eq cs h h'.
Proof.
  intros Ho Hf. unfold sys_heap_validate. destruct (full_check_ok h cs fuel Ho Hf) as (h' & -> & He). exists h'. simpl.
  destruct CONFIG_SYS_HEAP_RUNTIME_STATS eqn:Est; [|done]. pose proof (eq_ok _ _ _ He Ho) as Ho'.
  rewrite (alloc_info_ok h' cs fuel Ho') by (by rewrite (sh_end h h') by apply He). simpl.
  by rewrite (iv_alloc _ _ _ (ho_inv _ _ Ho') Est), (iv_free _ _ _ (ho_inv _ _ Ho') Est), !Z.eqb_refl.
Qed.

End check.
