(* ===== verification/HeapOps.v ===== *)
(** The operations of the allocator on the layout of a heap. *)

From S2P Require Import Prelude MathExtras Ring HeapMem Heap HeapInv HeapStep HeapList HeapCheck.

#[local] Open Scope Z_scope.

Section ops.
Context `{HC : HeapConfig}.

(** ** The checks pass *)

Lemma verify_ok h A a p s b : inv h A (a ++ Chunk p s Used :: b) -> SYS_HEAP_HARDENING_FULL = true -> verify_chunk_canary p h = Some tt.
Proof.
  intros Hi Hf. unfold verify_chunk_canary, CONFIG_SYS_HEAP_CANARIES. rewrite Hf. unfold canary_at, compute_canary.
  rewrite (trailer_eq _ _ _ _ _ _ _ Hi), (size_at Hi (st := Used) (s := s)) by set_solver.
  pose proof (iv_canary _ _ _ Hi Hf (Chunk p s Used) ltac:(set_solver) eq_refl) as Hc. unfold canary_ok in Hc. cbn [pos size] in Hc.
  unfold trailer_at. rewrite Hc, Z.eqb_refl. done.
Qed.

Lemma verify_if_ok h A a p s b : inv h A (a ++ Chunk p s Used :: b) ->
  (if SYS_HEAP_HARDENING_FULL then verify_chunk_canary p h else Some tt) = Some tt.
Proof. intros Hi. destruct SYS_HEAP_HARDENING_FULL eqn:Hf; [|done]. by eapply verify_ok. Qed.

(** A chunk that is not allocated, behind an allocated one or a trusted one. *)
Lemma free_chunk_check_ok h A a x p s u b (left_trusted : bool) : inv h A (a ++ x :: Chunk p s u :: b) -> u <> Used ->
  left_trusted = true \/ x.(stat) = Used -> free_chunk_check p left_trusted h = Some tt.
Proof.
  intros Hi Hu Hx. unfold free_chunk_check. assert (Hc : Chunk p s u ∈ a ++ x :: Chunk p s u :: b) by set_solver.
  pose proof (right_left Hi _ Hc) as H1. pose proof (left_right Hi a x _ b eq_refl) as H2. pose proof (left_chunk_ok Hi a x _ b eq_refl) as H3.
  cbn [pos] in H1, H2, H3. rewrite (used_at Hi Hc), bool_decide_false, H1, H2, Z.eqb_refl by done. cbn [negb orb]. rewrite andb_false_r. simpl.
  destruct left_trusted; [by rewrite andb_false_r|]. destruct Hx as [|Hx]; [done|]. rewrite andb_true_r, H3.
  destruct x as [xp xs xst]. simpl in *. subst xst. by eapply verify_if_ok.
Qed.

Lemma used_of_app a b : used_of (a ++ b) = used_of a ++ used_of b.
Proof. apply filter_app. Qed.
Lemma used_of_free p s u b : u <> Used -> used_of (Chunk p s u :: b) = used_of b.
Proof. intros Hu. unfold used_of. by rewrite filter_cons_False. Qed.
Lemma used_of_used p s b : used_of (Chunk p s Used :: b) = Chunk p s Used :: used_of b.
Proof. unfold used_of. by rewrite filter_cons_True. Qed.

Lemma tail_app {A} (a b : list A) : a <> [] -> tail (a ++ b) = tail a ++ b.
Proof. by destruct a. Qed.

(** The chunk in front of one that is not the first. *)
Lemma front_chunk h A a c b : inv h A (a ++ c :: b) -> a <> [] -> exists a' x, a = a' ++ [x] /\
  left_chunk h c.(pos) = x.(pos) /\ c.(pos) = x.(pos) + x.(size).
Proof.
  intros Hi Hne. destruct (exists_last Hne) as (a' & x & ->). exists a', x. split; [done|].
  rewrite <- app_assoc in Hi. split; [by apply (left_chunk_ok Hi a' x c b)|].
  pose proof (iv_tiles _ _ _ Hi) as Ht. apply tiles_middle in Ht as (_ & _ & Ht & _). done.
Qed.

Lemma not_first h A a c b : inv h A (a ++ c :: b) -> c.(stat) <> Used -> a <> [].
Proof. intros Hi Hu ->. destruct (iv_first _ _ _ Hi) as (c0 & r & [= <- <-] & Hc). done. Qed.

(** ** Freeing *)

(** A step on headers of chunks keeps the allocated ones. *)
Lemma headers_keep h h' p0 cs e Q ks : in_headers h h' Q -> tiles p0 cs e -> (forall q, q ∈ Q -> q ∈ pos <$> cs \/ q = e) ->
  (forall x, x ∈ ks -> x.(stat) = Used -> x ∈ cs) -> keeps h h' ks.
Proof.
  intros Hh Ht HQ Hk. split; [apply Hh|]. intros x Hx Hu. eapply in_headers_body; [exact Hh|]. intros q Hq.
  eapply start_outside; [exact Ht|by apply HQ|by apply Hk].
Qed.

Lemma mid_used {p s u} {a b : list chunk} {x} : x ∈ a ++ Chunk p s u :: b -> x.(stat) = Used -> u <> Used -> x ∈ a ++ b.
Proof. intros [->|]%elem_mid_inv ? ?; [done|done]. Qed.

(** Merging two chunks touches none of the others. *)
Lemma merge_keep h h' p0 a p s u t v b e ks : in_headers h h' [p; p + s + t] ->
  tiles p0 (a ++ Chunk p s u :: Chunk (p + s) t v :: b) e ->
  (forall x, x ∈ ks -> x.(stat) = Used -> x ∈ a ++ Chunk p s u :: Chunk (p + s) t v :: b) -> keeps h h' ks.
Proof.
  intros Hh Ht Hk. eapply (headers_keep _ _ _ _ _ _ _ Hh Ht); [|done]. intros q [->| ->%list_elem_of_singleton]%elem_of_cons.
  - apply (start_here _ _ _ _ _ Ht).
  - change (a ++ Chunk p s u :: Chunk (p + s) t v :: b) with (a ++ [Chunk p s u] ++ Chunk (p + s) t v :: b) in Ht |- *.
    rewrite app_assoc in Ht |- *. apply (start_after _ _ _ _ _ Ht).
Qed.

Lemma right_merge_ok h A a p s b : inv h A (a ++ Chunk p s Limbo :: b) -> (forall c, c ∈ b -> c.(stat) <> Limbo) ->
  (forall y r, b = y :: r -> y.(stat) = Free -> starts_used r) ->
  let rc := right_chunk h p in
  exists h' s' b', (if negb (chunk_used h rc) then
      _ ← free_chunk_check rc true h; h ← free_list_remove rc h; Some (merge_chunks p rc h) else Some h) = Some h' /\
    inv h' A (a ++ Chunk p s' Limbo :: b') /\ keeps h h' (a ++ b) /\ used_of b' = used_of b /\ s <= s' /\ starts_used b' /\ b' `suffix_of` b.
Proof.
  intros Hi Hnl Hst rc. assert (Hc : Chunk p s Limbo ∈ a ++ Chunk p s Limbo :: b) by apply elem_mid. unfold rc. rewrite (right_at Hi Hc).
  pose proof (iv_tiles _ _ _ Hi) as Ht. apply tiles_middle in Ht as (_ & _ & Ht). cbn [pos size] in Ht.
  destruct b as [|[yp ys yst] b].
  { simpl in Ht. rewrite Ht, (end_used Hi). exists h, s, []. split_and!; done. }
  destruct Ht as (Ey & _ & Ht). cbn [pos size] in *. subst yp.
  assert (Hy : Chunk (p + s) ys yst ∈ a ++ Chunk p s Limbo :: Chunk (p + s) ys yst :: b) by (apply elem_mid_r; set_solver).
  rewrite (used_at Hi Hy). destruct (decide (yst = Used)) as [->|Hyu].
  { rewrite bool_decide_true by done. exists h, s, (Chunk (p + s) ys Used :: b). split_and!; done. }
  assert (yst = Free) as -> by (pose proof (Hnl (Chunk (p + s) ys yst) ltac:(set_solver)); by destruct yst). rewrite bool_decide_false by done. cbn [negb].
  rewrite (free_chunk_check_ok h A a (Chunk p s Limbo) (p + s) ys Free b true Hi) by (done || by left). simpl.
  assert (Hi2 : inv h A ((a ++ [Chunk p s Limbo]) ++ Chunk (p + s) ys Free :: b)) by (by rewrite <- app_assoc).
  destruct (free_list_remove_ok _ _ _ _ _ _ Hi2) as (h1 & -> & Hi3 & Hk1). rewrite <- app_assoc in Hi3. cbn [app] in Hi3. simpl.
  destruct (merge_ok _ _ _ _ _ _ _ _ Hi3) as [Hi4 Hh]; [done|by left|]. eexists _, (s + ys), b.
  pose proof (range_at Hi Hy). split; [done|]. split; [done|]. split_and!; try done.
  - eapply (keeps_trans h h1 _ (a ++ Chunk (p + s) ys Free :: b)).
    + split; [apply Hk1|]. intros x Hx. apply Hk1. rewrite <- app_assoc. apply elem_of_app in Hx as [Hx|Hx]; apply elem_of_app; [by left|right; by right].
    + eapply (merge_keep h1 _ _ _ _ _ _ _ _ _ _ (a ++ Chunk (p + s) ys Free :: b) Hh (iv_tiles _ _ _ Hi3)).
      intros x Hx Hxu. apply (mid_used Hx) in Hxu; [|done]. apply elem_of_app in Hxu as [?|?]; [by apply elem_mid_l|].
      apply elem_mid_r. by right.
    + intros x Hx _. exact Hx.
  - lia.
  - by apply (Hst _ _ eq_refl).
  - by exists [Chunk (p + s) ys Free].
Qed.

Lemma bodies_apart h p0 cs e x y a : tiles p0 cs e -> x ∈ cs -> y ∈ cs -> x <> y -> body h x a -> ~ body h y a.
Proof.
  intros Ht Hx Hy Hne Hb Hb'. unfold body in *. pose proof (width_cases h). destruct (tiles_sep _ _ _ x y Ht Hx Hy) as [->|[|]]; [done|lia|lia].
Qed.

Lemma bodies_keep h h' p0 cs e y ks : in_bodies h h' [y] -> tiles p0 cs e -> y ∈ cs -> y.(stat) <> Used ->
  (forall x, x ∈ ks -> x.(stat) = Used -> x ∈ cs) -> keeps h h' ks.
Proof.
  intros [Hs Hm] Ht Hy Hyu Hk. split; [done|]. intros x Hx Hu b Hb. apply Hm. intros z ->%list_elem_of_singleton.
  eapply bodies_apart; [exact Ht|by apply Hk|exact Hy|congruence|exact Hb].
Qed.

Lemma keeps_weaken h h' cs ks : keeps h h' cs -> (forall x, x ∈ ks -> x.(stat) = Used -> x ∈ cs) -> keeps h h' ks.
Proof. intros [Hs Hk] H. split; [done|]. intros x Hx Hu. apply Hk; auto. Qed.

Lemma used_in x cs cs' : used_of cs = used_of cs' -> x ∈ cs -> x.(stat) = Used -> x ∈ cs'.
Proof.
  intros E Hx Hu. assert (H : x ∈ used_of cs) by (by apply list_elem_of_filter). rewrite E in H. by apply list_elem_of_filter in H as [_ ?].
Qed.

(** A chunk off the lists is poisoned and listed. *)
Lemma release_ok h A a p s b : inv h A (a ++ Chunk p s Limbo :: b) -> min_chunk_size h <= s ->
  exists h', free_list_add p (if SYS_HEAP_HARDENING_FULL then poison_chunk_canary p h else h) = Some h' /\
    inv h' A (a ++ Chunk p s Free :: b) /\ keeps h h' (a ++ b).
Proof.
  intros Hi Hm. destruct (poison_ok _ _ _ _ _ _ Hi Hm) as [Hi2 Hb2]. destruct (free_list_add_ok _ _ _ _ _ _ Hi2) as (h3 & -> & Hi3 & Hk3).
  exists h3. split; [done|]. split; [done|].
  eapply (keeps_trans h _ h3 (a ++ b) (a ++ Chunk p s Limbo :: b)); [|exact Hk3|by intros; apply elem_sides].
  eapply bodies_keep; [exact Hb2|apply Hi|apply elem_mid|done|by intros; apply elem_sides].
Qed.

(** The merge with the chunk in front. *)
Lemma left_merge_ok h A a p s b : inv h A (a ++ Chunk p s Limbo :: b) -> (forall c, c ∈ a -> c.(stat) <> Limbo) -> coalesced a ->
  let lc := left_chunk h p in
  exists h' q s' a', (if negb (chunk_used h lc) then
      _ ← free_chunk_check lc false h; h ← free_list_remove lc h; Some (lc, merge_chunks lc p h)
    else _ ← (if SYS_HEAP_HARDENING_FULL then verify_chunk_canary lc h else Some tt); Some (p, h)) = Some (q, h') /\
    inv h' A (a' ++ Chunk q s' Limbo :: b) /\ keeps h h' (a ++ b) /\ used_of a' = used_of a /\ s <= s' /\ ends_used a' /\ a' `prefix_of` a.
Proof.
  intros Hi Hnl Hco lc. pose proof (not_first _ _ _ _ _ Hi ltac:(done)) as Hane.
  destruct (front_chunk _ _ _ _ _ Hi Hane) as (a' & [xp xs xst] & -> & El & Ep). cbn [pos size] in El, Ep. subst p. unfold lc. rewrite El.
  rewrite <- app_assoc in Hi. cbn [app] in Hi.
  assert (Hx : Chunk xp xs xst ∈ a' ++ Chunk xp xs xst :: Chunk (xp + xs) s Limbo :: b) by apply elem_mid. rewrite (used_at Hi Hx).
  destruct (decide (xst = Used)) as [->|Hxu].
  { rewrite bool_decide_true by done. cbn [negb]. rewrite (verify_if_ok _ _ _ _ _ _ Hi). exists h, (xp + xs), s, (a' ++ [Chunk xp xs Used]).
    rewrite <- app_assoc. split_and!; try done. by apply ends_used_snoc. }
  assert (xst = Free) as -> by (pose proof (Hnl (Chunk xp xs xst) ltac:(apply elem_mid)); by destruct xst).
  rewrite bool_decide_false by done. cbn [negb]. apply coalesced_app in Hco as (Ca & _ & [Cu|Cu]); [|done].
  destruct (front_chunk _ _ _ _ _ Hi (not_first _ _ _ _ _ Hi ltac:(done))) as (w & y & -> & _ & _). apply ends_used_snoc in Cu.
  rewrite <- app_assoc in Hi. cbn [app] in Hi. rewrite (free_chunk_check_ok _ _ _ _ _ _ _ _ false Hi) by (done || by right). simpl.
  change (w ++ y :: Chunk xp xs Free :: Chunk (xp + xs) s Limbo :: b) with (w ++ [y] ++ Chunk xp xs Free :: Chunk (xp + xs) s Limbo :: b) in Hi.
  rewrite app_assoc in Hi. destruct (free_list_remove_ok _ _ _ _ _ _ Hi) as (h1 & -> & Hi3 & Hk1). simpl.
  destruct (merge_ok _ _ _ _ _ _ _ _ Hi3) as [Hi4 Hh]; [done|by left|]. pose proof (range_at Hi Hx) as Hr.
  exists (merge_chunks xp (xp + xs) h1), xp, (xs + s), (w ++ [y]). split; [done|]. split; [done|]. split_and!.
  - apply (keeps_weaken _ _ ((w ++ [y]) ++ Chunk xp xs Free :: Chunk (xp + xs) s Limbo :: b)).
    + eapply (keeps_trans h h1 _ _ _ Hk1); [eapply (merge_keep h1 _ _ _ _ _ _ _ _ _ _ _ Hh (iv_tiles _ _ _ Hi3)); eauto|].
      intros x Hxm Hu. by apply elem_sides, (mid_used Hxm Hu).
    + intros x Hxm _. apply elem_of_app in Hxm as [Hxm|Hxm]; [|by apply elem_mid_r; right].
      apply elem_of_app in Hxm as [Hxm| ->%list_elem_of_singleton]; [by apply elem_mid_l|apply elem_mid].
  - by rewrite (used_of_app (w ++ [y])), used_of_free, app_nil_r by done.
  - lia.
  - by apply ends_used_snoc.
  - by eexists.
Qed.

(** The layout that freeing a chunk leads to. *)
Lemma free_chunk_ok h A a p s b : inv h A (a ++ Chunk p s Limbo :: b) -> min_chunk_size h <= s ->
  (forall c, c ∈ a ++ b -> c.(stat) <> Limbo) -> coalesced (a ++ Chunk p s Used :: b) ->
  exists h' cs', free_chunk p h = Some h' /\ inv h' A cs' /\ keeps h h' (a ++ b) /\ used_of cs' = used_of a ++ used_of b /\
    (forall c, c ∈ cs' -> c.(stat) <> Limbo) /\ coalesced cs'.
Proof.
  intros Hi Hm Hnl Hco. apply coalesced_app in Hco as (Ca & [_ Cb] & _). unfold free_chunk. cbv zeta.
  destruct (right_merge_ok h A a p s b Hi) as (h1 & s1 & b1 & -> & Hi1 & Hk1 & Hu1 & Hs1 & Hst1 & [kb ->]).
  { intros c Hc. apply Hnl, elem_of_app. by right. }
  { intros y r -> Hy. simpl in Cb. destruct Cb as [[Hy'|?] _]; [congruence|done]. }
  simpl. destruct (left_merge_ok _ _ _ _ _ _ Hi1) as (h2 & q & s2 & a2 & -> & Hi2 & Hk2 & Hu2 & Hs2 & Hen2 & [ka ->]);
    [intros c Hc; apply Hnl, elem_of_app; by left|done|].
  simpl. destruct (release_ok _ _ _ _ _ _ Hi2) as (h3 & -> & Hi3 & Hk3).
  { rewrite (same_min h h2); [lia|]. etrans; [apply Hk1|apply Hk2]. }
  exists h3, (a2 ++ Chunk q s2 Free :: b1). split; [done|]. split; [done|]. split_and!.
  - eapply (keeps_trans h h1 h3 _ (a2 ++ ka ++ b1)); [exact Hk1| |].
    + rewrite app_assoc. eapply (keeps_trans h1 h2 h3); [exact Hk2|exact Hk3|]. intros x. apply used_in. rewrite (used_of_app (a2 ++ ka)), (used_of_app a2 b1). by rewrite Hu2.
    + intros x. apply used_in. rewrite (app_assoc a2), !(used_of_app (a2 ++ ka)). by rewrite Hu1.
  - by rewrite used_of_app, used_of_free, Hu1, Hu2 by done.
  - intros c Hc. apply elem_mid_inv in Hc as [->|Hc]; [done|]. apply Hnl. rewrite !elem_of_app in *. tauto.
  - apply coalesced_app in Ca as (Ca & _). apply coalesced_app in Cb as (_ & Cb & _). apply coalesced_app. simpl. tauto.
Qed.

(** ** [sys_heap_free] *)

Lemma stats_inv f al mx h A B cs : inv h A cs -> (CONFIG_SYS_HEAP_RUNTIME_STATS = true -> f = h.(free_bytes) /\ al = u32 B) ->
  inv (set_stats f al mx h) B cs.
Proof.
  intros [H1 H2 H3 H4 H5 H6 H7 H8 H9 H10] Hs. assert (Hsm : same_heap h (set_stats f al mx h)) by done. constructor.
  - by eapply same_fits.
  - exact H2.
  - eapply heads_ext; [|exact H3]. intros p _. by split.
  - exact H4.
  - exact H5.
  - rewrite (same_nb _ _ Hsm). intros b Hb. destruct (H6 b Hb) as (l & (B1 & B2 & B3) & Hp). exists l. rewrite (same_listed _ _ _ _ Hsm). split; [|done].
    split; [|done]. eapply circle_ext_all; [|exact B1]. intros p. by split.
  - rewrite (same_nb _ _ Hsm). exact H7.
  - exact H8.
  - intros E. destruct (Hs E) as [-> _]. rewrite (same_free_sum _ _ _ Hsm). by apply H9.
  - intros E. by destruct (Hs E).
Qed.

Lemma stats_keep f al mx h cs : keeps h (set_stats f al mx h) cs.
Proof. split; [done|]. intros x _ _ a _. done. Qed.

Lemma decrease_ok x h A cs : inv h A cs -> inv (decrease_allocated_bytes (u32 x) h) (A - x) cs /\ keeps h (decrease_allocated_bytes (u32 x) h) cs.
Proof.
  intros Hi. unfold decrease_allocated_bytes. destruct CONFIG_SYS_HEAP_RUNTIME_STATS eqn:E; (split; [|first [apply stats_keep|apply keeps_refl]]).
  - apply (stats_inv _ _ _ _ A); [done|]. intros _. split; [done|]. rewrite (iv_alloc _ _ _ Hi E).
    by rewrite <- Z.add_opp_r, u32_opp_idemp, <- Z.add_opp_r, u32_add_idemp, Z.add_opp_r.
  - destruct Hi. split; try done. congruence.
Qed.
Lemma increase_ok x h A cs : inv h A cs -> inv (increase_allocated_bytes (u32 x) h) (A + x) cs /\ keeps h (increase_allocated_bytes (u32 x) h) cs.
Proof.
  intros Hi. unfold increase_allocated_bytes. destruct CONFIG_SYS_HEAP_RUNTIME_STATS eqn:E; (split; [|first [apply stats_keep|apply keeps_refl]]).
  - apply (stats_inv _ _ _ _ A); [done|]. intros _. split; [done|]. by rewrite (iv_alloc _ _ _ Hi E), u32_add_idemp, u32_add_idemp_r.
  - destruct Hi. split; try done. congruence.
Qed.

Lemma alloc_sum_split h a p s b : a <> [] -> (exists c0 r, a ++ Chunk p s Used :: b = c0 :: r /\ c0.(stat) = Used) ->
  alloc_sum h (a ++ Chunk p s Used :: b) = usable h s + Zsum (fun c => usable h c.(size)) (tail (used_of a ++ used_of b)).
Proof.
  intros Ha (c0 & r & E & Hu). destruct a as [|x a]; [done|]. cbn [app] in E. simplify_eq. unfold alloc_sum.
  rewrite used_of_app, used_of_used. unfold used_of. rewrite filter_cons_True by done. cbn [app tail]. rewrite !Zsum_app, Zsum_cons. simpl. lia.
Qed.

(** What the caller of a deallocation holds: the address of an allocated chunk, possibly
    moved on by an alignment gap. *)
Definition points_to (h : z_heap) (mem p : Z) : Prop := exists g, 0 <= g < 8 /\ mem = chunk_mem h p + g.

Lemma points_chunk h A a p s u b mem : inv h A (a ++ Chunk p s u :: b) -> points_to h mem p -> mem <> 0 /\ mem_to_chunkid h mem = p.
Proof.
  intros Hi (g & Hg & ->). pose proof (range_at Hi (elem_mid _ _ _)) as Hr. pose proof (hf_base _ (iv_fits _ _ _ Hi)) as [Hb _].
  pose proof (hf_end _ (iv_fits _ _ _ Hi)) as [_ He]. unfold chunk_mem, CHUNK_UNIT. pose proof (header_width h) as Hw. pose proof (width_cases h).
  split; [lia|]. unfold mem_to_chunkid, CHUNK_UNIT. rewrite u32_small by lia. Z.to_euclidean_division_equations. lia.
Qed.

Lemma used_chunk_check_ok h cs a p s b : heap_ok h cs -> cs = a ++ Chunk p s Used :: b -> a <> [] ->
  exists h', used_chunk_check p h = Some h' /\ heap_eq cs h h'.
Proof.
  intros Ho E Ha. pose proof (ho_inv _ _ Ho) as Hi. rewrite E in Hi. unfold used_chunk_check. rewrite (verify_if_ok _ _ _ _ _ _ Hi). simpl.
  assert (Hc : Chunk p s Used ∈ a ++ Chunk p s Used :: b) by apply elem_mid. rewrite (used_at Hi Hc), bool_decide_true by done. cbn [negb].
  rewrite andb_false_r. simpl. pose proof (right_left Hi _ Hc) as H1. cbn [pos] in H1. rewrite H1, Z.eqb_refl, andb_false_r. simpl.
  destruct (exists_last Ha) as (a' & x & ->). pose proof (left_right Hi a' x (Chunk p s Used) b) as H2. cbn [pos] in H2.
  rewrite H2, Z.eqb_refl, andb_false_r by (by rewrite <- app_assoc). simpl. by apply full_check_panic_ok.
Qed.

Lemma sys_heap_free_ok h cs a p s b mem : heap_ok h cs -> cs = a ++ Chunk p s Used :: b -> a <> [] -> points_to h mem p ->
  exists h' cs', sys_heap_free mem h = Some h' /\ heap_ok h' cs' /\ used_of cs' = used_of a ++ used_of b /\ keeps h h' (a ++ b).
Proof.
  intros Ho E Ha Hp. pose proof (ho_inv _ _ Ho) as Hi. rewrite E in Hi. destruct (points_chunk _ _ _ _ _ _ _ _ Hi Hp) as [Hm Hid].
  unfold sys_heap_free. destruct (Z.eqb_spec mem 0); [done|]. rewrite Hid.
  destruct (used_chunk_check_ok h cs a p s b Ho E Ha) as (h1 & -> & He1). rewrite E in *. pose proof (eq_inv _ _ _ _ He1 Hi) as Hi1. simpl.
  destruct (unuse_ok _ _ _ _ _ _ Hi1 Ha) as [Hi2 Hh2]. rewrite (usable_at Hi2 (elem_mid _ _ _)).
  set (h2 := set_chunk_used p false h1) in *. destruct (decrease_ok (usable h2 s) h2 _ _ Hi2) as [Hi3 Hk3].
  set (h3 := decrease_allocated_bytes (u32 (usable h2 s)) h2) in *.
  assert (Hsm : same_heap h h3) by (etrans; [apply He1|]; etrans; [apply Hh2|apply Hk3]).
  destruct (free_chunk_ok _ _ _ _ _ _ Hi3) as (h4 & cs' & -> & Hi4 & Hk4 & Hu4 & Hl4 & Hc4).
  - rewrite (same_min _ _ Hsm). apply (iv_min _ _ _ Hi (Chunk p s Used)); [apply elem_mid|done].
  - intros c Hc. apply (ho_limbo _ _ Ho). by apply elem_sides.
  - apply Ho.
  - exists h4, cs'. split; [done|]. assert (Hsm4 : same_heap h h4) by (etrans; [done|apply Hk4]). split_and!; try done.
    + split; try done. rewrite (same_alloc_sum _ _ _ Hsm4). replace (alloc_sum h cs') with (alloc_sum h (a ++ Chunk p s Used :: b) - usable h2 s); [done|].
      rewrite (alloc_sum_split h a p s b Ha (iv_first _ _ _ Hi)). unfold alloc_sum. rewrite Hu4, (same_usable h h2); [lia|]. etrans; [apply He1|apply Hh2].
    + eapply (keeps_trans h h1 _ (a ++ b) (a ++ b)); [|..|done].
      { eapply keeps_weaken; [by apply eq_keeps|]. by intros; apply elem_sides. }
      eapply (keeps_trans h1 h2 _ (a ++ b) (a ++ b)); [|..|done].
      { eapply headers_keep; [exact Hh2|apply Hi2| |by intros; apply elem_sides]. intros q ->%list_elem_of_singleton.
        apply (start_here 0 a (Chunk p s Limbo) b _ (iv_tiles _ _ _ Hi2)). }
      eapply (keeps_trans h2 h3 _ (a ++ b) (a ++ b)); [|exact Hk4|done]. eapply keeps_weaken; [exact Hk3|]. by intros; apply elem_sides.
Qed.

End ops.
