(* ===== verification/HeapAlloc.v ===== *)
(** Allocation: the search for a chunk and the cuts of [sys_heap_alloc] and
    [sys_heap_aligned_alloc] on the layout of a heap. *)

From S2P Require Import Prelude MathExtras Ring HeapMem Heap HeapInv HeapStep HeapList HeapCheck HeapOps.

#[local] Open Scope Z_scope.

Section alloc.
Context `{HC : HeapConfig}.

(** ** The free lists *)

(** A bucket whose list starts one chunk on. *)
Lemma rotate_ok h A cs bi c r : inv h A cs -> 0 <= bi < nb_buckets h -> bucket_ok h bi (c :: r) -> c :: r ≡ₚ pos <$> listed h bi cs ->
  let h' := set_bucket bi (next_free_chunk h c) h in inv h' A cs /\ bucket_ok h' bi (r ++ [c]) /\ keeps h h' cs.
Proof.
  intros [H1 H2 H3 H4 H5 H6 H7 H8 H9 H10] Hb (B1 & B2 & B3) Hp h'. assert (Hsm : same_heap h h') by done.
  assert (Hc : forall l, circle h l -> circle h' l) by (intros l; apply circle_ext_all; intros p; by split).
  assert (Hbo : bucket_ok h' bi (r ++ [c])).
  { split; [|split].
    - apply Hc. by apply (circle_rotate h [c] r).
    - unfold h'. simpl. rewrite upd_eq. destruct r as [|q r]; simpl in *; tauto.
    - unfold h'. simpl. rewrite B3. apply bool_decide_ext. by destruct r. }
  split; [|split; [done|split; [done|by intros x _ _ a _]]]. constructor.
  - by eapply same_fits.
  - exact H2.
  - eapply heads_ext; [|exact H3]. intros p _. by split.
  - exact H4.
  - exact H5.
  - rewrite (same_nb _ _ Hsm). intros i Hir. rewrite (same_listed _ _ _ _ Hsm). destruct (decide (i = bi)) as [->|Hne].
    + exists (r ++ [c]). split; [done|]. by rewrite <- Hp, Permutation_app_comm.
    + destruct (H6 i Hir) as (l & (C1 & C2 & C3) & Hl). exists l. split; [|done]. split; [by apply Hc|]. split; [|done]. unfold h'. simpl. by rewrite upd_ne.
  - rewrite (same_nb _ _ Hsm). exact H7.
  - exact H8.
  - intros E. rewrite (same_free_sum _ _ _ Hsm). by apply H9.
  - exact H10.
Qed.

(** Taking a free chunk. *)
Lemma take_chunk_ok h A cs x : inv h A cs -> (forall c, c ∈ cs -> c.(stat) <> Limbo) -> coalesced cs -> x ∈ cs -> listable h x ->
  exists h' a b, (_ ← free_chunk_check x.(pos) false h; h ← free_list_remove_bidx x.(pos) (bucket_idx h x.(size)) h; Some (x.(pos), h)) = Some (x.(pos), h') /\
    keeps h h' cs /\ cs = a ++ Chunk x.(pos) x.(size) Free :: b /\ inv h' A (a ++ Chunk x.(pos) x.(size) Limbo :: b).
Proof.
  intros Hi Hnl Hco Hx Hl. destruct x as [p s u], Hl as [Hu Hm]. cbn [pos size stat] in *. subst u.
  apply list_elem_of_split in Hx as (a & b & E). rewrite E in *. destruct (front_chunk _ _ _ _ _ Hi) as (a' & y & -> & _); [by eapply not_first|].
  assert (Hy : y.(stat) = Used).
  { apply coalesced_app in Hco as (_ & _ & [Hco|Hco]); [by apply ends_used_snoc in Hco|done]. }
  pose proof Hi as Hi'. rewrite <- app_assoc in Hi'. cbn [app] in Hi'. rewrite (free_chunk_check_ok _ _ _ _ _ _ _ _ false Hi') by (done || by right). simpl.
  destruct (free_list_remove_bidx_ok _ _ _ _ _ _ Hi Hm) as (h' & -> & Hi2 & Hk). exists h', (a' ++ [y]), b. done.
Qed.

(** The first chunk of a bucket. *)
Lemma bucket_head h A cs bi c r : inv h A cs -> 0 <= bi < nb_buckets h -> bucket_ok h bi (c :: r) -> c :: r ≡ₚ pos <$> listed h bi cs ->
  exists x, x ∈ cs /\ listable h x /\ bucket_idx h x.(size) = bi /\ c = x.(pos) /\ h.(buckets) bi = c /\ 0 < c.
Proof.
  intros Hi Hb (_ & B2 & _) Hp. assert (Hc : c ∈ pos <$> listed h bi cs) by (rewrite <- Hp; by left).
  apply listed_spec in Hc as (x & Hx & Hl & Hbx & ->). exists x. split_and!; try done. apply (later_pos h A cs x Hi Hx). by destruct Hl as [-> _].
Qed.

(** What a search for [sz] units leads to. *)
Definition taken (h' : z_heap) (A : Z) (cs : list chunk) (c sz : Z) : Prop :=
  exists a s b, cs = a ++ Chunk c s Free :: b /\ 0 < c /\ sz <= s /\ inv h' A (a ++ Chunk c s Limbo :: b).
(** No chunk of bucket [bi] has [sz] units, or the bucket has too many to look at. *)
Definition none_in (h : z_heap) (cs : list chunk) (bi sz : Z) : Prop :=
  (forall x, x ∈ cs -> listable h x -> bucket_idx h x.(size) = bi -> x.(size) < sz) \/
  (CONFIG_SYS_HEAP_ALLOC_LOOPS <= length (listed h bi cs))%nat.

Lemma alloc_loop_ok A cs bi sz i : (forall c, c ∈ cs -> c.(stat) <> Limbo) -> coalesced cs -> forall h d r,
  inv h A cs -> 0 <= bi < nb_buckets h -> bucket_ok h bi (r ++ d) -> r ++ d ≡ₚ pos <$> listed h bi cs -> r <> [] ->
  (forall x, x ∈ cs -> x.(pos) ∈ d -> x.(size) < sz) ->
  exists c h', alloc_loop i (default 0 (head (d ++ r))) bi sz h = Some (c, h') /\ keeps h h' cs /\
    (taken h' A cs c sz \/ c = 0 /\ inv h' A cs /\
      ((forall x, x ∈ cs -> listable h x -> bucket_idx h x.(size) = bi -> x.(size) < sz) \/ (i + length d <= length (listed h bi cs))%nat)).
Proof.
  intros Hnl Hco. induction i as [|i IH]; intros h d r Hi Hb Hbo Hp Hr Hd.
  - exists 0, h. split; [done|]. split; [apply keeps_refl|]. right. split_and!; [done|done|]. right.
    rewrite <- (length_fmap pos (listed h bi cs)), <- Hp, length_app. lia.
  - destruct r as [|c r]; [done|]. cbn [app] in Hbo, Hp. destruct (bucket_head _ _ _ _ _ _ Hi Hb Hbo Hp) as (x & Hx & Hl & Hbx & Ec & Eh & Hc0).
    cbn [alloc_loop]. rewrite Eh, Ec, (chunk_size_ok Hi x Hx). destruct (Z.leb_spec sz x.(size)) as [Hs|Hs].
    + destruct (take_chunk_ok h A cs x Hi Hnl Hco Hx Hl) as (h' & a & b & Ht & Hk & E & Hi'). rewrite Hbx in Ht. rewrite Ht.
      exists x.(pos), h'. split; [done|]. split; [done|]. left. exists a, x.(size), b. split_and!; try done. lia.
    + destruct (rotate_ok h A cs bi c (r ++ d) Hi Hb Hbo Hp) as (Hi' & Hbo' & Hk'). rewrite Ec in Hi', Hbo', Hk'. rewrite <- Ec in *.
      set (h1 := set_bucket bi (next_free_chunk h c) h) in *. 
      assert (Hd' : forall y, y ∈ cs -> y.(pos) ∈ d ++ [c] -> y.(size) < sz).
      { intros y Hy [?|E%list_elem_of_singleton]%elem_of_app; [by apply Hd|]. rewrite (chunk_unique Hi y x); congruence. }
      destruct Hbo' as (B1 & B2 & B3). cbv zeta. rewrite B2. destruct r as [|q r].
      * cbn [app] in *. rewrite Z.eqb_refl.
        exists 0, h1. split; [done|]. split; [done|]. right. split_and!; [done|done|]. left. intros y Hy Hly Hby. apply Hd'; [done|].
        rewrite Permutation_app_comm. cbn [app]. rewrite Hp. apply listed_spec. eauto.
      * assert (Hnd : NoDup (c :: (q :: r) ++ d)) by (rewrite Hp; eapply listed_nodup, Hi). cbn [app head].
        change (default 0 (Some q)) with q. destruct (Z.eqb_spec q (default 0 (head (d ++ c :: q :: r)))) as [E|_].
        { exfalso. apply NoDup_cons in Hnd as [Hnc Hnd]. cbn [app] in Hnd. apply NoDup_cons in Hnd as [Hnq _]. destruct d as [|y d]; simpl in E; subst q.
          - apply Hnc. by left.
          - apply Hnq. apply elem_of_app. right. by left. }
        destruct (IH h1 (d ++ [c]) (q :: r)) as (c' & h' & Hal & Hk & Hres);
          [exact Hi'|by rewrite (same_nb h h1)|..|done|exact Hd'|].
        { split; [by rewrite app_assoc|]. by rewrite app_assoc. }
        { rewrite (same_listed h h1) by done. by rewrite app_assoc, Permutation_app_comm. }
        rewrite <- app_assoc in Hal. exists c', h'. split; [exact Hal|]. split; [by eapply keeps_trans|].
        destruct Hres as [?|(? & ? & Hn)]; [by left|right]. split; [done|]. split; [done|]. destruct Hn as [Hn|Hn].
        { left. intros y. unfold listable. rewrite <- (same_min h h1), <- (same_bucket h h1) by done. apply Hn. }
        right. rewrite (same_listed h h1), length_app in Hn by done. simpl in Hn. lia.
Qed.

(** ** [alloc_chunk] *)

(** Nothing to be found for [sz] units: a free chunk big enough can only be overlooked in
    the bucket of [sz], and only when that holds more chunks than the search looks at. *)
Definition no_room (h : z_heap) (cs : list chunk) (sz : Z) : Prop := forall x, x ∈ cs -> x.(stat) = Free ->
  x.(size) < sz \/ bucket_idx h x.(size) = bucket_idx h sz /\ (CONFIG_SYS_HEAP_ALLOC_LOOPS <= length (listed h (bucket_idx h sz) cs))%nat.

Lemma higher_bits h bi k : heap_fits h -> 0 <= h.(avail_buckets) < 2 ^ nb_buckets h -> 0 <= bi < nb_buckets h -> 0 <= k ->
  Z.testbit (h.(avail_buckets) .& u32 (Z.lnot (bit (bi + 1) - 1))) k = Z.testbit h.(avail_buckets) k && (bi <? k).
Proof.
  intros Hf Ha Hb Hk. pose proof (nb_range h Hf). rewrite Z.land_spec. destruct (Z_lt_ge_dec k 32) as [Hk32|Hk32].
  - unfold u32. rewrite Z.mod_pow2_bits_low, Z.lnot_spec by lia. f_equal. unfold bit. rewrite Z.shiftl_1_l.
    replace (2 ^ (bi + 1) - 1) with (Z.ones (bi + 1)) by (rewrite Z.ones_equiv; lia). rewrite Z.testbit_ones_nonneg by lia.
    destruct (Z.ltb_spec k (bi + 1)), (Z.ltb_spec bi k); lia || done.
  - rewrite (bounded_bits h.(avail_buckets) (nb_buckets h)) by lia. done.
Qed.

(** A chunk of a higher bucket is bigger. *)
Lemma bucket_bigger h s t : min_chunk_size h <= s < 2 ^ 31 -> min_chunk_size h <= t < 2 ^ 31 -> bucket_idx h s < bucket_idx h t -> s < t.
Proof.
  intros Hs Ht. rewrite !bucket_idx_log by done. intros Hl. pose proof (Z.log2_lt_cancel _ _ Hl). lia.
Qed.

(** The search of the higher buckets. *)
Lemma higher_ok h A cs bi sz : inv h A cs -> (forall c, c ∈ cs -> c.(stat) <> Limbo) -> coalesced cs -> bi = bucket_idx h sz ->
  min_chunk_size h <= sz <= h.(end_chunk) ->
  let bmask := h.(avail_buckets) .& u32 (Z.lnot (bit (bi + 1) - 1)) in
  exists c h', (if negb (bmask =? 0) then
    let minbucket := u32_count_trailing_zeros bmask in let c := h.(buckets) minbucket in
    _ ← free_chunk_check c false h; h ← free_list_remove_bidx c minbucket h; Some (c, h) else Some (0, h)) = Some (c, h') /\ keeps h h' cs /\
    (taken h' A cs c sz \/ c = 0 /\ inv h' A cs /\ forall x, x ∈ cs -> listable h x -> bucket_idx h x.(size) <= bi).
Proof.
  intros Hi Hnl Hco Ebi Hsz bmask. pose proof (iv_fits _ _ _ Hi) as Hf. pose proof (end_range h Hf) as He. pose proof (nb_range h Hf) as Hnb.
  pose proof (bucket_idx_range h Hf sz Hsz) as Hbi. rewrite <- Ebi in Hbi.
  assert (Hbits : forall k, 0 <= k -> Z.testbit bmask k = Z.testbit h.(avail_buckets) k && (bi <? k)).
  { intros k Hk. apply higher_bits; [done|apply Hi|done|done]. }
  assert (Hbm : 0 <= bmask < 2 ^ 32).
  { apply land_bound; [lia|]. pose proof (iv_avail _ _ _ Hi). assert (nb_buckets h <= 32) as Hle by (clear Hbits; lia).
    pose proof (Z.pow_le_mono_r 2 (nb_buckets h) 32 eq_refl Hle). lia. }
  clearbody bmask.
  destruct (Z.eqb_spec bmask 0) as [E|E]; cbn [negb].
  - exists 0, h. split; [done|]. split; [apply keeps_refl|]. right. split; [done|]. split; [done|]. intros x Hx Hl.
    destruct (Z_le_gt_dec (bucket_idx h x.(size)) bi) as [|Hgt]; [done|]. exfalso. pose proof (listable_bucket h A cs Hi x Hx Hl) as Hb.
    pose proof (Hbits (bucket_idx h x.(size)) (proj1 Hb)) as Hbx. destruct (iv_lists _ _ _ Hi _ Hb) as (l & (_ & _ & B3) & Hp).
    rewrite E, Z.bits_0, B3, bool_decide_true in Hbx; [destruct (Z.ltb_spec bi (bucket_idx h x.(size))); [done|lia]|].
    intros ->. assert (Hin : x.(pos) ∈ pos <$> listed h (bucket_idx h x.(size)) cs) by (apply listed_spec; eauto). rewrite <- Hp in Hin. by apply elem_of_nil in Hin.
  - destruct (u32_ctz_spec bmask) as [Hm [Hlow _]]; [lia|]. set (m := u32_count_trailing_zeros bmask) in *.
    rewrite Hbits in Hlow by lia. apply andb_true_iff in Hlow as [Ham Hlt%Z.ltb_lt].
    assert (Hmn : m < nb_buckets h).
    { destruct (Z_lt_ge_dec m (nb_buckets h)); [done|]. rewrite (bounded_bits _ (nb_buckets h)) in Ham; [done|lia|apply Hi|lia]. }
    destruct (iv_lists _ _ _ Hi m) as (l & Hbo & Hp); [lia|]. destruct l as [|c r].
    { destruct Hbo as (_ & _ & B3). by rewrite Ham in B3. }
    destruct (bucket_head h A cs m c r Hi ltac:(lia) Hbo Hp) as (x & Hx & Hl & Hbx & Ec & Eh & Hc0). cbv zeta. rewrite Eh, Ec.
    destruct (take_chunk_ok h A cs x Hi Hnl Hco Hx Hl) as (h' & a & b & Ht & Hk & Ecs & Hi'). rewrite Hbx in Ht. rewrite Ht.
    exists x.(pos), h'. split; [done|]. split; [done|]. left. exists a, x.(size), b. split_and!; try done; [lia|].
    pose proof (chunk_range Hi x Hx). destruct Hl as [_ Hlm]. enough (sz < x.(size)) by lia.
    apply (bucket_bigger h); lia.
Qed.

Lemma no_room_intro h A cs sz : inv h A cs -> min_chunk_size h <= sz <= h.(end_chunk) -> none_in h cs (bucket_idx h sz) sz ->
  (forall x, x ∈ cs -> listable h x -> bucket_idx h x.(size) <= bucket_idx h sz) -> no_room h cs sz.
Proof.
  intros Hi Hsz Hn Hx x Hin Hfr. destruct (Z_lt_ge_dec x.(size) sz); [by left|right]. pose proof (end_range h (iv_fits _ _ _ Hi)).
  pose proof (chunk_range Hi x Hin). assert (Hl : listable h x) by (split; [done|lia]). specialize (Hx x Hin Hl).
  assert (Hge : bucket_idx h sz <= bucket_idx h x.(size)) by (rewrite !bucket_idx_log by lia; apply Z.log2_le_mono; lia).
  split; [lia|]. destruct Hn as [Hn|]; [|done]. specialize (Hn x Hin Hl ltac:(lia)). lia.
Qed.

Lemma none_in_same h h' cs bi sz : same_heap h h' -> none_in h' cs bi sz -> none_in h cs bi sz.
Proof.
  intros Hs. unfold none_in. rewrite (same_listed _ _ _ _ Hs). intros [H|H]; [left|by right]. intros x Hx Hl Hb.
  apply H; [done| |by rewrite (same_bucket _ _ _ Hs)]. unfold listable. by rewrite (same_min _ _ Hs).
Qed.

Lemma alloc_chunk_ok h cs sz : heap_ok h cs -> min_chunk_size h <= sz <= h.(end_chunk) ->
  exists c h', alloc_chunk sz h = Some (c, h') /\ keeps h h' cs /\
    (taken h' (alloc_sum h cs) cs c sz \/ c = 0 /\ inv h' (alloc_sum h cs) cs /\ no_room h cs sz).
Proof.
  intros Ho Hsz. unfold alloc_chunk. destruct (full_check_panic_ok h cs Ho) as (h1 & -> & He). rewrite bind_some. cbv zeta.
  pose proof (eq_inv _ _ _ _ He (ho_inv _ _ Ho)) as Hi. pose proof (eq_keeps _ _ _ He) as Hk1. pose proof (he_same _ _ _ He) as Hs1.
  rewrite <- (same_min _ _ Hs1), <- (sh_end _ _ Hs1) in Hsz. set (bi := bucket_idx h1 sz).
  pose proof (bucket_idx_range h1 (iv_fits _ _ _ Hi) sz Hsz) as Hb. fold bi in Hb. pose proof (end_range h1 (iv_fits _ _ _ Hi)) as Hend.
  assert (Hs : exists c h2, (if negb (h1.(buckets) bi =? 0) then alloc_loop CONFIG_SYS_HEAP_ALLOC_LOOPS (h1.(buckets) bi) bi sz h1 else Some (0, h1)) = Some (c, h2) /\
    keeps h1 h2 cs /\ (taken h2 (alloc_sum h cs) cs c sz \/ c = 0 /\ inv h2 (alloc_sum h cs) cs /\ none_in h1 cs bi sz)).
  { destruct (iv_lists _ _ _ Hi bi Hb) as (l & Hbo & Hp). destruct l as [|c r].
    - destruct Hbo as (_ & B2 & _). rewrite B2. exists 0, h1. split; [done|]. split; [apply keeps_refl|]. right. split; [done|]. split; [done|].
      left. intros x Hx Hl Hbx. assert (Hin : x.(pos) ∈ pos <$> listed h1 bi cs) by (apply listed_spec; eauto). rewrite <- Hp in Hin. by apply elem_of_nil in Hin.
    - destruct (bucket_head _ _ _ _ _ _ Hi Hb Hbo Hp) as (x & _ & _ & _ & _ & Eh & Hc0). rewrite Eh. destruct (Z.eqb_spec c 0); [lia|]. cbn [negb].
      destruct (alloc_loop_ok (alloc_sum h cs) cs bi sz CONFIG_SYS_HEAP_ALLOC_LOOPS (ho_limbo _ _ Ho) (ho_coalesced _ _ Ho) h1 [] (c :: r))
        as (c' & h2 & Hal & Hk & Hres); [done|done|by rewrite app_nil_r|by rewrite app_nil_r|done|by intros ? ? ?%elem_of_nil|].
      exists c', h2. split; [exact Hal|]. split; [done|]. destruct Hres as [?|(? & ? & Hn)]; [by left|right]. split; [done|]. split; [done|].
      destruct Hn as [Hn|Hn]; [by left|right]. simpl in Hn. lia. }
  destruct Hs as (c & h2 & -> & Hk2 & [Ht|(-> & Hi2 & Hn)]); rewrite bind_some.
  - destruct Ht as (a & s & b & E & Hc & Ht). destruct (Z.eqb_spec c 0); [lia|]. cbn [negb]. exists c, h2. split; [done|].
    split; [by eapply keeps_trans|]. left. by exists a, s, b.
  - cbn [negb Z.eqb]. pose proof (same_bucket h1 h2 sz ltac:(apply Hk2)) as Eb. fold bi in Eb. rewrite <- Eb in *.
    destruct (higher_ok h2 (alloc_sum h cs) cs _ sz Hi2 (ho_limbo _ _ Ho) (ho_coalesced _ _ Ho) eq_refl) as (c & h3 & Hc & Hk3 & Hres).
    { by rewrite (same_min h1 h2), (sh_end h1 h2) by apply Hk2. }
    exists c, h3. split; [exact Hc|]. split; [by eapply keeps_trans; [by eapply keeps_trans|..]|].
    destruct Hres as [?|(-> & Hi3 & Hx)]; [by left|right]. split; [done|]. split; [done|].
    assert (Hs2 : same_heap h h2) by (etrans; [exact Hs1|apply Hk2]). eapply no_room_intro; [apply Ho|..].
    + by rewrite <- (same_min _ _ Hs1), <- (sh_end _ _ Hs1).
    + rewrite <- (same_bucket _ _ _ Hs2). apply (none_in_same h h1); [exact Hs1|exact Hn].
    + intros x Hxc Hl. rewrite <- !(same_bucket _ _ _ Hs2). apply Hx; [done|]. unfold listable. by rewrite (same_min _ _ Hs2).
Qed.

(** ** Cutting a chunk *)

(** At most one chunk, a free one. *)
Definition one_free (l : list chunk) : Prop := l = [] \/ exists p s, l = [Chunk p s Free].

Lemma split_keep h h' p0 a p l t u v b e ks : in_headers h h' [p; p + l; p + l; p + (l + t)] ->
  tiles p0 (a ++ Chunk p l u :: Chunk (p + l) t v :: b) e ->
  (forall x, x ∈ ks -> x.(stat) = Used -> x ∈ a ++ Chunk p l u :: Chunk (p + l) t v :: b) -> keeps h h' ks.
Proof.
  intros Hh Ht Hk. eapply (headers_keep _ _ _ _ _ _ _ Hh Ht); [|done].
  pose proof Ht as Ht2. change (a ++ Chunk p l u :: Chunk (p + l) t v :: b) with (a ++ [Chunk p l u] ++ Chunk (p + l) t v :: b) in Ht2.
  rewrite app_assoc in Ht2. pose proof (start_here _ _ _ _ _ Ht2) as H1. pose proof (start_after _ _ _ _ _ Ht2) as H2.
  rewrite <- app_assoc in H1, H2. cbn [app pos size] in H1, H2. replace (p + l + t) with (p + (l + t)) in H2 by lia.
  intros q Hq. repeat (apply elem_of_cons in Hq as [->|Hq]); [..|by apply elem_of_nil in Hq]; try done. apply (start_here _ _ _ _ _ Ht).
Qed.

Lemma cut_after h A a p s b l : inv h A (a ++ Chunk p s Limbo :: b) -> 0 < l <= s ->
  exists h' post, (if l <? s then free_list_add (p + l) (split_chunks p (p + l) h) else Some h) = Some h' /\
    inv h' A (a ++ Chunk p l Limbo :: post ++ b) /\ keeps h h' (a ++ b) /\ one_free post.
Proof.
  intros Hi Hl. destruct (Z.ltb_spec l s) as [Hlt|Hge].
  - destruct (split_ok h A a p s Limbo b l Hi) as [Hi1 Hh1]; [done|by left|lia|]. set (h1 := split_chunks p (p + l) h) in *.
    pose proof Hi1 as Hi1'. change (a ++ Chunk p l Limbo :: Chunk (p + l) (s - l) Limbo :: b) with (a ++ [Chunk p l Limbo] ++ Chunk (p + l) (s - l) Limbo :: b) in Hi1'.
    rewrite app_assoc in Hi1'. destruct (free_list_add_ok _ _ _ _ _ _ Hi1') as (h2 & -> & Hi2 & Hk2). exists h2, [Chunk (p + l) (s - l) Free].
    split; [done|]. rewrite <- app_assoc in Hi2. split; [exact Hi2|]. split; [|right; eauto].
    replace (p + s) with (p + (l + (s - l))) in Hh1 by lia. eapply (keeps_trans h h1 h2 (a ++ b)); [|exact Hk2|].
    + eapply (split_keep h h1 _ _ _ _ _ _ _ _ _ _ Hh1 (iv_tiles _ _ _ Hi1)). intros x [?|?]%elem_of_app _; [by apply elem_mid_l|]. apply elem_mid_r. by right.
    + intros x Hx _. apply elem_sides. apply elem_of_app in Hx as [Hx|Hx]; apply elem_of_app; [left; apply elem_of_app; by left|by right].
  - exists h, []. replace l with s by lia. split; [done|]. split; [done|]. split; [apply keeps_refl|by left].
Qed.

Lemma cut_before h A a p s b k : inv h A (a ++ Chunk p s Limbo :: b) -> 0 <= k < s ->
  exists h' pre, (if p <? p + k then free_list_add p (split_chunks p (p + k) h) else Some h) = Some h' /\
    inv h' A ((a ++ pre) ++ Chunk (p + k) (s - k) Limbo :: b) /\ keeps h h' (a ++ b) /\ one_free pre.
Proof.
  intros Hi Hk. destruct (Z.ltb_spec p (p + k)) as [Hlt|Hge].
  - destruct (split_ok h A a p s Limbo b k Hi) as [Hi1 Hh1]; [done|by left|lia|]. set (h1 := split_chunks p (p + k) h) in *.
    destruct (free_list_add_ok _ _ _ _ _ _ Hi1) as (h2 & -> & Hi2 & Hk2). exists h2, [Chunk p k Free].
    split; [done|]. split; [by rewrite <- app_assoc|]. split; [|right; eauto].
    replace (p + s) with (p + (k + (s - k))) in Hh1 by lia. eapply (keeps_trans h h1 h2 (a ++ b)); [|exact Hk2|].
    + eapply (split_keep h h1 _ _ _ _ _ _ _ _ _ _ Hh1 (iv_tiles _ _ _ Hi1)). intros x [?|?]%elem_of_app _; [by apply elem_mid_l|]. apply elem_mid_r. by right.
    + intros x [?|?]%elem_of_app _; [by apply elem_mid_l|]. apply elem_mid_r. by right.
  - exists h, []. replace k with 0 by lia. rewrite Z.add_0_r, Z.sub_0_r, app_nil_r. split; [done|]. split; [done|]. split; [apply keeps_refl|by left].
Qed.

(** ** The allocated chunk *)

Lemma one_free_used l : one_free l -> used_of l = [].
Proof. intros [->|(p & s & ->)]; [done|]. by rewrite used_of_free. Qed.

(** A free chunk of a heap made into an allocated one with at most a free chunk on each side. *)
Lemma placed_ok h h' a c s b pre p l post cs : heap_ok h cs -> cs = a ++ Chunk c s Free :: b -> one_free pre -> one_free post -> same_heap h h' ->
  inv h' (alloc_sum h cs + usable h l) ((a ++ pre) ++ Chunk p l Used :: post ++ b) ->
  heap_ok h' ((a ++ pre) ++ Chunk p l Used :: post ++ b) /\ a ++ pre <> [] /\ used_of cs = used_of (a ++ pre) ++ used_of (post ++ b).
Proof.
  intros Ho E Hpre Hpost Hs Hi. assert (Ha : a <> []) by (pose proof (ho_inv _ _ Ho) as H; rewrite E in H; by eapply not_first).
  assert (Hne : a ++ pre <> []) by (by destruct a). assert (Hu : used_of cs = used_of (a ++ pre) ++ used_of (post ++ b)).
  { rewrite E, !used_of_app, (one_free_used pre), (one_free_used post), used_of_free, app_nil_r by done. done. }
  split; [|done]. pose proof (ho_coalesced _ _ Ho) as Hco. rewrite E in Hco. apply coalesced_app in Hco as (Ca & [[?|Cs] Cb] & [Ce|?]); [done|done| |done].
  split.
  - rewrite (same_alloc_sum _ _ _ Hs). rewrite (alloc_sum_split h (a ++ pre) p l (post ++ b) Hne (iv_first _ _ _ Hi)).
    rewrite <- Hu. fold (alloc_sum h cs). by rewrite Z.add_comm.
  - intros x Hx. apply elem_mid_inv in Hx as [->|Hx]; [done|]. assert (Hx' : x ∈ a ++ b \/ x.(stat) = Free).
    { rewrite !elem_of_app in Hx. destruct Hx as [[?|Hx]|[Hx|?]]; [left; apply elem_of_app; by left|..|left; apply elem_of_app; by right]; right.
      - destruct Hpre as [->|(q & t & ->)]; [by apply elem_of_nil in Hx|by apply list_elem_of_singleton in Hx as ->].
      - destruct Hpost as [->|(q & t & ->)]; [by apply elem_of_nil in Hx|by apply list_elem_of_singleton in Hx as ->]. }
    destruct Hx' as [Hx'|Hx']; [|by rewrite Hx']. apply (ho_limbo _ _ Ho). rewrite E. by apply elem_sides.
  - apply coalesced_app. split_and!.
    + apply coalesced_app. split; [done|]. split; [|by left]. destruct Hpre as [->|(q & t & ->)]; simpl; tauto.
    + simpl. split; [by left|]. destruct Hpost as [->|(q & t & ->)]; simpl; tauto.
    + by right.
Qed.

Lemma finish_alloc_ok h A a p l b : inv h A (a ++ Chunk p l Limbo :: b) -> min_chunk_size h <= l ->
  let h1 := mark_used p h in let h2 := increase_allocated_bytes (chunk_usable_bytes h1 p) h1 in
  inv h2 (A + usable h l) (a ++ Chunk p l Used :: b) /\ keeps h h2 (a ++ b).
Proof.
  intros Hi Hm. destruct (mark_used_ok _ _ _ _ _ _ Hi Hm) as (Hi1 & Hs1 & Hb1 & _). cbv zeta. rewrite (usable_at Hi1 (elem_mid _ _ _)).
  rewrite (same_usable _ _ _ Hs1). destruct (increase_ok (usable h l) _ _ _ Hi1) as [Hi2 Hk2]. split; [done|].
  eapply (keeps_trans h (mark_used p h) _ (a ++ b) (a ++ b)); [|..|done].
  - split; [done|]. intros x Hx _. by apply Hb1.
  - eapply keeps_weaken; [exact Hk2|]. by intros; apply elem_sides.
Qed.

(** ** [sys_heap_alloc] *)

Lemma bytes_to_chunksz_eq h bytes extra : 0 <= bytes < 2 ^ 32 -> 0 <= extra < 2 ^ 32 ->
  bytes_to_chunksz h bytes extra = Z.min ((bytes + extra + chunk_header_bytes h + 7) / 8 + CHUNK_TRAILER_SIZE) h.(end_chunk).
Proof.
  intros Hb He. unfold bytes_to_chunksz, CHUNK_UNIT. pose proof trailer_range. pose proof (header_width h) as Hw. pose proof (width_cases h) as Hc.
  assert (Hh : chunk_header_bytes h = 8 \/ chunk_header_bytes h = 4) by lia. generalize (chunk_header_bytes h) Hh. intros k Hk. f_equal.
  assert (0 <= bytes / 8 < 2 ^ 29 /\ 0 <= extra / 8 < 2 ^ 29) by (Z.to_euclidean_division_equations; lia).
  assert (0 <= bytes mod 8 < 8 /\ 0 <= extra mod 8 < 8) by (split; apply Z.mod_pos_bound; lia).
  rewrite (u32_small (bytes / 8 + extra / 8)) by lia. rewrite (u32_small (bytes mod 8 + _ + _ + _ - 1)) by lia.
  assert (0 <= (bytes mod 8 + extra mod 8 + k + 8 - 1) / 8 <= 4) by (Z.to_euclidean_division_equations; lia).
  rewrite u32_small by lia. f_equal. Z.to_euclidean_division_equations. lia.
Qed.

Lemma header_cases h : chunk_header_bytes h = 8 \/ chunk_header_bytes h = 4.
Proof. unfold chunk_header_bytes. destruct (big_heap h); auto. Qed.

Lemma gap_divides h c k gap : chunk_header_bytes h = gap * k -> h.(heap_base) mod 8 = 0 -> exists n, chunk_mem h c = gap * n.
Proof.
  intros Ek Hb. unfold chunk_mem, CHUNK_UNIT. apply Z.mod_divide in Hb as [b Eb]; [|done]. rewrite Eb.
  destruct (header_cases h) as [E|E]; rewrite E in *; [exists (k * (b + c + 1))|exists (k * (2 * b + 2 * c + 1))];
    rewrite Z.mul_assoc, <- Ek; lia.
Qed.

Lemma request_range h bytes extra : heap_fits h -> 1 <= bytes < 2 ^ 32 -> 0 <= extra < 2 ^ 32 ->
  min_chunk_size h <= bytes_to_chunksz h bytes extra <= h.(end_chunk).
Proof.
  intros Hf Hb He. rewrite bytes_to_chunksz_eq by lia. pose proof (hf_end _ Hf) as [Hm _]. pose proof (min_chunk_width h) as Hw.
  pose proof (header_width h). pose proof (header_cases h). assert (2 * W h / 4 <= (bytes + extra + chunk_header_bytes h + 7) / 8).
  { destruct (width_cases h) as [[E _]|[E _]]; rewrite E in *; Z.to_euclidean_division_equations; lia. }
  split; [|lia]. apply Z.min_glb; [|done]. destruct (width_cases h) as [[E _]|[E _]]; rewrite E in *; Z.to_euclidean_division_equations; lia.
Qed.

(** A chunk is smaller than the heap. *)
Lemma chunk_small h A a p s u b : inv h A (a ++ Chunk p s u :: b) -> 0 < p -> s < h.(end_chunk).
Proof. intros Hi Hp. pose proof (range_at Hi (elem_mid _ _ _)). lia. Qed.

(** The outcome of a request of [bytes] bytes that is a search for [sz] units: no chunk, or
    one that was not allocated before, with the block inside. *)
Definition granted (h h' : z_heap) (cs : list chunk) (mem bytes sz : Z) : Prop :=
  mem = 0 /\ heap_ok h' cs /\ no_room h cs sz \/
  exists a p s b, heap_ok h' (a ++ Chunk p s Used :: b) /\ a <> [] /\ used_of cs = used_of a ++ used_of b /\
    points_to h mem p /\ mem + bytes <= h.(heap_base) + 8 * (p + s) - 8 * CHUNK_TRAILER_SIZE.

Lemma refused_ok h h' cs bytes sz : heap_ok h cs -> keeps h h' cs -> inv h' (alloc_sum h cs) cs -> no_room h cs sz -> granted h h' cs 0 bytes sz.
Proof.
  intros Ho Hk Hi Hn. left. split; [done|]. split; [|done]. split; [|apply Ho|apply Ho]. by rewrite (same_alloc_sum h h') by apply Hk.
Qed.

Lemma sys_heap_alloc_ok h cs bytes : heap_ok h cs -> 1 <= bytes < 2 ^ 32 ->
  exists mem h', sys_heap_alloc bytes h = Some (mem, h') /\ keeps h h' cs /\ granted h h' cs mem bytes (bytes_to_chunksz h bytes 0) /\
    mem mod chunk_header_bytes h = 0.
Proof.
  intros Ho Hb. unfold sys_heap_alloc. destruct (Z.eqb_spec bytes 0); [lia|]. cbv zeta. pose proof (ho_inv _ _ Ho) as Hi0.
  pose proof (request_range h bytes 0 (iv_fits _ _ _ Hi0) Hb ltac:(lia)) as Hsz. set (sz := bytes_to_chunksz h bytes 0) in *.
  destruct (alloc_chunk_ok h cs sz Ho Hsz) as (c & h1 & -> & Hk1 & [(a & s & b & E & Hc & Hs & Hi)|(-> & Hi & Hn)]); rewrite bind_some; cbv beta iota.
  2: { exists 0, h1. split; [done|]. split; [done|]. split; [by apply refused_ok|]. apply Z.mod_0_l. destruct (header_cases h) as [-> | ->]; done. }
  destruct (Z.eqb_spec c 0); [lia|]. rewrite (size_at Hi (elem_mid _ _ _)). pose proof (range_at Hi (elem_mid _ _ _)) as Hr.
  pose proof (end_range h1 (iv_fits _ _ _ Hi)) as He. pose proof (chunk_small _ _ _ _ _ _ _ Hi Hc) as Hlt.
  pose proof (min_chunk_width h) as Hmin. pose proof trailer_range as Htr. pose proof (width_cases h) as Hwc. rewrite u32_small by lia.
  destruct (cut_after h1 _ a c s b sz Hi) as (h2 & post & -> & Hi2 & Hk2 & Hpost); [lia|]. rewrite bind_some. cbv zeta beta.
  assert (Hs2 : same_heap h h2) by (etrans; [apply Hk1|apply Hk2]). destruct (finish_alloc_ok _ _ _ _ _ _ Hi2) as [Hi3 Hk3]; [rewrite (same_min _ _ Hs2); lia|].
  set (h3 := increase_allocated_bytes _ _) in *. assert (Hs3 : same_heap h h3) by (etrans; [exact Hs2|apply Hk3]).
  exists (chunk_mem (mark_used c h2) c), h3. split; [done|]. rewrite (same_usable _ _ _ Hs2) in Hi3.
  destruct (placed_ok h h3 a c s b [] c sz post cs Ho E) as (Ho3 & Hne & Hu); [by left|done|done|by rewrite app_nil_r|]. rewrite app_nil_r in Ho3, Hne, Hu.
  assert (Hsm : same_heap h (mark_used c h2)).
  { etrans; [exact Hs2|]. unfold mark_used, set_chunk_canary. by destruct SYS_HEAP_HARDENING_FULL, CONFIG_SYS_HEAP_CANARIES. }
  assert (Emem : chunk_mem (mark_used c h2) c = chunk_mem h c).
  { unfold chunk_mem. rewrite !header_width, (sh_base _ _ Hsm), (same_W _ _ Hsm). done. }
  split_and!.
  - eapply (keeps_trans h h1 h3 cs (a ++ b) Hk1); [eapply (keeps_trans h1 h2 h3 (a ++ b) (a ++ post ++ b) Hk2 Hk3)|].
    + intros x [?|?]%elem_of_app _; [apply elem_of_app; by left|]. apply elem_of_app; right. apply elem_of_app. by right.
    + intros x Hx Hux. rewrite E in Hx. by apply (mid_used Hx Hux).
  - right. exists a, c, sz, (post ++ b). rewrite Emem. split_and!; try done.
    + exists 0. split; [lia|]. lia.
    + unfold chunk_mem, CHUNK_UNIT. unfold sz in *. rewrite bytes_to_chunksz_eq in * by lia. rewrite (sh_end h h1) in Hlt by apply Hk1.
      pose proof (header_cases h). Z.to_euclidean_division_equations. lia.
  - rewrite Emem. destruct (gap_divides h c 1 (chunk_header_bytes h)) as [k ->]; [lia|apply Hi0|]. rewrite Z.mul_comm.
    apply Z.mod_mul. destruct (header_cases h) as [-> | ->]; done.
Qed.

(** ** [sys_heap_aligned_alloc] *)

Lemma ROUND_UP_ok x align gap n k : 0 < gap -> 1 <= n -> align = gap * n -> x = gap * k -> 0 <= x -> x + align - 1 < 2 ^ 32 ->
  ROUND_UP x align mod align = 0 /\ x <= ROUND_UP x align <= x + (align - gap).
Proof.
  intros Hg Hn Ea Ex Hx Hw. assert (Hal : 0 < align) by nia. unfold ROUND_UP. rewrite u32_small by lia. split; [by apply Z.mod_mul; lia|].
  pose proof (Z.div_mod (x + (align - 1)) align ltac:(lia)) as Hd. pose proof (Z.mod_pos_bound (x + (align - 1)) align ltac:(lia)) as Hm.
  set (q := (x + (align - 1)) / align) in *. split; [nia|]. assert (n * q - k < n) by nia. nia.
Qed.

(** The units of an aligned block of [bytes] bytes [off] behind the start of the chunk at [c0]. *)
Lemma aligned_units hdr base c0 off pad bytes T : hdr = 8 \/ hdr = 4 -> base mod 8 = 0 -> 0 <= off <= pad -> 1 <= bytes ->
  let mem := base + 8 * c0 + hdr + off in
  let c := (mem - hdr - base) / 8 in let ce := ((mem + bytes + 7) / 8 * 8 - base) / 8 + T in
  c0 <= c /\ 0 <= mem - (base + 8 * c + hdr) < 8 /\ ce <= c0 + ((bytes + pad + hdr + 7) / 8 + T) /\
  c + ((hdr + 8) / 8 + T) <= ce /\ mem + bytes <= base + 8 * ce - 8 * T.
Proof. intros Hh Hb Ho Hby. cbv zeta. Z.to_euclidean_division_equations. lia. Qed.

Lemma min_chunk_header h : min_chunk_size h = (chunk_header_bytes h + 8) / 8 + CHUNK_TRAILER_SIZE.
Proof. unfold min_chunk_size, chunksz, CHUNK_UNIT. destruct (header_cases h) as [-> | ->]; done. Qed.

Lemma ltb_add c x y : (c + x <? c + y) = (x <? y).
Proof. destruct (Z.ltb_spec (c + x) (c + y)), (Z.ltb_spec x y); lia || done. Qed.

(** The units [c] to [ce] of a chunk taken off its list. *)
Lemma place_block_ok h h1 cs a c0 s b c ce (mem : Z) : heap_ok h cs -> cs = a ++ Chunk c0 s Free :: b -> keeps h h1 cs ->
  inv h1 (alloc_sum h cs) (a ++ Chunk c0 s Limbo :: b) -> c0 <= c -> c + min_chunk_size h <= ce -> ce <= c0 + s ->
  exists h3, (h ← (if c0 <? c then let h := split_chunks c0 c h1 in free_list_add c0 h else Some h1);
      h ← (if ce <? right_chunk h c then let h := split_chunks c ce h in free_list_add ce h else Some h);
      let h := mark_used c h in Some (mem, increase_allocated_bytes (chunk_usable_bytes h c) h)) = Some (mem, h3) /\ keeps h h3 cs /\
    exists a' b', heap_ok h3 (a' ++ Chunk c (ce - c) Used :: b') /\ a' <> [] /\ used_of cs = used_of a' ++ used_of b'.
Proof.
  intros Ho E Hk1 Hi H1 H2 H3. pose proof (min_chunk_width h) as Hmin. pose proof trailer_range as Htr. pose proof (width_cases h) as Hwc.
  destruct (cut_before h1 _ a c0 s b (c - c0) Hi) as (h2 & pre & Hcut & Hi2 & Hk2 & Hpre); [lia|].
  replace (c0 + (c - c0)) with c in * by lia. cbv zeta. rewrite Hcut, bind_some.
  rewrite (right_at Hi2 (elem_mid _ _ _)). assert (exists l, ce = c + l) as [l ->] by (exists (ce - c); lia).
  replace (c + l - c) with l by lia. rewrite ltb_add.
  destruct (cut_after h2 _ (a ++ pre) c (s - (c - c0)) b l Hi2) as (h3 & post & -> & Hi3 & Hk3 & Hpost); [lia|]. rewrite bind_some.
  assert (Hs3 : same_heap h h3) by (etrans; [apply Hk1|]; etrans; [apply Hk2|apply Hk3]).
  destruct (finish_alloc_ok _ _ _ _ _ _ Hi3) as [Hi4 Hk4]; [rewrite (same_min _ _ Hs3); lia|]. set (h4 := increase_allocated_bytes _ _) in *.
  rewrite (same_usable _ _ _ Hs3) in Hi4. assert (Hs4 : same_heap h h4) by (etrans; [exact Hs3|apply Hk4]).
  exists h4. split; [done|]. split; [|exists (a ++ pre), (post ++ b); by eapply placed_ok].
  eapply (keeps_trans h h1 h4 cs (a ++ b) Hk1); [eapply (keeps_trans h1 h2 h4 (a ++ b) ((a ++ pre) ++ b) Hk2);
    [eapply (keeps_trans h2 h3 h4 _ ((a ++ pre) ++ post ++ b) Hk3 Hk4)|]|].
  - intros x Hx _. rewrite !elem_of_app in *. tauto.
  - intros x Hx _. rewrite !elem_of_app in *. tauto.
  - intros x Hx Hux. rewrite E in Hx. by apply (mid_used Hx Hux).
Qed.

Lemma aligned_cut_ok h h1 cs a c0 s b rew align gap n kh kr bytes : heap_ok h cs -> cs = a ++ Chunk c0 s Free :: b -> 0 < c0 ->
  keeps h h1 cs -> inv h1 (alloc_sum h cs) (a ++ Chunk c0 s Limbo :: b) -> 1 <= bytes < 2 ^ 32 ->
  0 < gap -> 1 <= n -> align = gap * n -> align < 2 ^ 32 -> chunk_header_bytes h = gap * kh -> rew = gap * kr -> 0 <= rew ->
  h.(heap_base) + 8 * h.(end_chunk) + 8 + rew <= 2 ^ 32 -> bytes_to_chunksz h bytes (align - gap) <= s ->
  exists mem h', aligned_cut rew align bytes c0 h1 = Some (mem, h') /\ keeps h h' cs /\
    granted h h' cs mem bytes (bytes_to_chunksz h bytes (align - gap)) /\ (mem + rew) mod align = 0.
Proof.
  intros Ho E Hc0 Hk1 Hi Hb Hg Hn Ea Ha Eh Er Hr0 Htop Hsz. assert (Hpad : 0 <= align - gap) by (clear - Hg Hn Ea; nia).
  assert (Hs1 := proj1 Hk1). pose proof (ho_inv _ _ Ho) as Hi0. pose proof (iv_fits _ _ _ Hi0) as Hf.
  pose proof (range_at Hi (elem_mid _ _ _)) as Hr. pose proof (chunk_small _ _ _ _ _ _ _ Hi Hc0) as Hlt. rewrite (sh_end _ _ Hs1) in Hr, Hlt.
  destruct (hf_base _ Hf) as [Hbp Hbm]. destruct (hf_end _ Hf) as [_ Hend]. pose proof (bytes_to_chunksz_eq h bytes (align - gap) ltac:(lia) ltac:(lia)) as Eq. rewrite Eq in *. rewrite Z.min_l in Hsz by lia.
  pose proof (header_cases h) as Hhc. pose proof trailer_range as Htr. destruct (gap_divides h c0 kh gap Eh Hbm) as [k0 Ek0].
  assert (Em0 : chunk_mem h1 c0 = chunk_mem h c0) by (unfold chunk_mem; by rewrite !header_width, (sh_base _ _ Hs1), (same_W _ _ Hs1)).
  assert (Hfit : 8 * c0 + chunk_header_bytes h + (align - gap) + bytes <= 8 * h.(end_chunk)) by (Z.to_euclidean_division_equations; lia).
  assert (Hgap : gap <= 8).
  { clear - Hhc Eh Hg. assert (0 < gap * kh <= 8) by lia. assert (0 < kh) by nia. nia. }
  assert (Emem : chunk_mem h c0 = h.(heap_base) + 8 * c0 + chunk_header_bytes h) by done.
  destruct (ROUND_UP_ok (chunk_mem h c0 + rew) align gap n (k0 + kr)) as [Hmod Hup]; [done|done|done|lia|lia|lia|].
  unfold aligned_cut. rewrite Em0. set (mem := ROUND_UP (chunk_mem h c0 + rew) align - rew) in *. cbv zeta.
  destruct (aligned_units (chunk_header_bytes h) h.(heap_base) c0 (mem - chunk_mem h c0) (align - gap) bytes CHUNK_TRAILER_SIZE Hhc Hbm)
    as (U1 & U2 & U3 & U4 & U5); [lia|lia|]. rewrite <- Emem in U1, U2, U3, U4, U5. replace (chunk_mem h c0 + (mem - chunk_mem h c0)) with mem in * by lia.
  unfold mem_to_chunkid. rewrite (sh_base _ _ Hs1), !header_width, (same_W _ _ Hs1), <- header_width. unfold CHUNK_UNIT.
  rewrite u32_small by lia.
  replace (ROUND_UP (mem + bytes) 8) with ((mem + bytes + 7) / 8 * 8) by (unfold ROUND_UP; rewrite u32_small by lia; do 2 f_equal; lia).
  set (c := (mem - chunk_header_bytes h - heap_base h) / 8) in *. set (ce := ((mem + bytes + 7) / 8 * 8 - heap_base h) / 8 + CHUNK_TRAILER_SIZE) in *.
  rewrite <- min_chunk_header in U4.
  destruct (place_block_ok h h1 cs a c0 s b c ce mem Ho E Hk1 Hi U1 U4) as (h3 & Hpl & Hk3 & a' & b' & Ho3 & Hne & Hu); [lia|].
  exists mem, h3. split; [exact Hpl|]. split; [done|]. split; [|by replace (mem + rew) with (ROUND_UP (chunk_mem h c0 + rew) align) by (unfold mem; lia)].
  right. exists a', c, (ce - c), b'. split_and!; try done.
  - exists (mem - chunk_mem h c). unfold chunk_mem, CHUNK_UNIT. lia.
  - lia.
Qed.

(** The lowest bit of a word. *)
Lemma lowest_odd m : (2 * m + 1) .& (- (2 * m + 1)) = 1.
Proof.
  replace (- (2 * m + 1)) with (Z.lnot (2 * m)) by (unfold Z.lnot; lia). apply Z.bits_inj'. intros i Hi. rewrite Z.land_spec, Z.lnot_spec by done.
  destruct (Z.eq_dec i 0) as [->|Hne]; [by rewrite Z.testbit_odd_0, Z.testbit_even_0|].
  replace i with (Z.succ (i - 1)) by lia. rewrite Z.testbit_odd_succ, Z.testbit_even_succ by lia. rewrite andb_negb_r.
  symmetry. change 1 with (2 ^ 0). apply Z.pow2_bits_false. lia.
Qed.

Lemma lowest_bit_of j m x : 0 <= j -> 0 <= x < 2 ^ 32 -> x = 2 ^ j * (2 * m + 1) -> x .& u32 (- x) = 2 ^ j.
Proof.
  intros Hj Hx E. unfold u32. rewrite <- Z.land_ones by lia. rewrite (Z.land_comm (- x)), Z.land_assoc, Z.land_ones, Z.mod_small by lia.
  replace x with (Z.shiftl (2 * m + 1) j) by (rewrite Z.shiftl_mul_pow2 by lia; lia).
  replace (- Z.shiftl (2 * m + 1) j) with (Z.shiftl (- (2 * m + 1)) j) by (rewrite !Z.shiftl_mul_pow2 by lia; lia).
  rewrite <- Z.shiftl_land, lowest_odd. apply Z.shiftl_1_l.
Qed.

Lemma header_pow h : exists i, 2 <= i <= 3 /\ chunk_header_bytes h = 2 ^ i.
Proof. destruct (header_cases h) as [-> | ->]; [by exists 3|by exists 2]. Qed.

(** A search with padding, and the cut. *)
Lemma padded_ok h cs rew align gap n kh kr bytes : heap_ok h cs -> 1 <= bytes < 2 ^ 32 ->
  0 < gap -> 1 <= n -> align = gap * n -> align < 2 ^ 32 -> chunk_header_bytes h = gap * kh -> rew = gap * kr -> 0 <= rew ->
  h.(heap_base) + 8 * h.(end_chunk) + 8 + rew <= 2 ^ 32 ->
  exists mem h', ('(c0, h) ← alloc_chunk (bytes_to_chunksz h bytes (u32 (align - gap))) h;
      if c0 =? 0 then Some (0, h) else aligned_cut rew align bytes c0 h) = Some (mem, h') /\ keeps h h' cs /\
    granted h h' cs mem bytes (bytes_to_chunksz h bytes (align - gap)) /\ (mem = 0 \/ (mem + rew) mod align = 0).
Proof.
  intros Ho Hb Hg Hn Ea Hal Eh Er Hr Htop. assert (0 <= align - gap) by (clear - Hg Hn Ea; nia). rewrite u32_small by lia.
  pose proof (request_range h bytes (align - gap) (iv_fits _ _ _ (ho_inv _ _ Ho)) Hb ltac:(lia)) as Hsz.
  destruct (alloc_chunk_ok h cs _ Ho Hsz) as (c & h1 & -> & Hk1 & [(a & s & b & E & Hc & Hs & Hi)|(-> & Hi & Hn')]); rewrite bind_some; cbv beta iota.
  - destruct (Z.eqb_spec c 0); [lia|].
    destruct (aligned_cut_ok h h1 cs a c s b rew align gap n kh kr bytes Ho E Hc Hk1 Hi) as (mem & h' & ? & ? & ? & ?); try done. eauto 10.
  - exists 0, h1. split; [done|]. split; [done|]. split; [by apply refused_ok|by left].
Qed.

(** The alignments that can be asked for: none, a power of two, or one with a rewind; the
    block then is [rew] bytes in front of a multiple of [al]. *)
Definition align_request (align al rew : Z) : Prop := align < 2 ^ 32 /\
  (align = 0 /\ al = 1 /\ rew = 0 \/ (exists k, 0 <= k /\ align = 2 ^ k /\ al = align /\ rew = 0) \/
   exists j k, 0 <= j < k /\ al = 2 ^ k /\ rew = 2 ^ j /\ align = al + rew).

Lemma aligned_alloc_ok h cs align al rew bytes : heap_ok h cs -> 1 <= bytes < 2 ^ 32 -> align_request align al rew ->
  h.(heap_base) + 8 * h.(end_chunk) + 8 + rew <= 2 ^ 32 ->
  exists mem h' pad, sys_heap_aligned_alloc align bytes h = Some (mem, h') /\ keeps h h' cs /\ 0 <= pad < al /\
    granted h h' cs mem bytes (bytes_to_chunksz h bytes pad) /\ (mem = 0 \/ (mem + rew) mod al = 0).
Proof.
  intros Ho Hb [H32 Hreq] Htop. unfold sys_heap_aligned_alloc. cbv zeta. destruct (header_pow h) as (i & Hi & Eh).
  destruct Hreq as [(-> & -> & ->)|[(k & Hk & -> & -> & ->)|(j & k & Hj & -> & -> & ->)]].
  - rewrite Z.land_0_l. cbn [Z.eqb negb orb]. destruct (Z.leb_spec 0 (chunk_header_bytes h)); [|pose proof (header_cases h); lia]. cbn [negb].
    destruct (sys_heap_alloc_ok h cs bytes Ho Hb) as (mem & h' & -> & Hk & Hgr & Hm). exists mem, h', 0. split_and!; try done.
    right. apply Z.mod_1_r.
  - assert (0 < 2 ^ k) by (apply Z.pow_pos_nonneg; lia). rewrite (lowest_bit_of k 0) by lia. rewrite Z.eqb_refl. cbn [negb orb].
    destruct (Z.leb_spec (2 ^ k) (chunk_header_bytes h)) as [Hle|Hgt]; cbn [negb].
    + destruct (sys_heap_alloc_ok h cs bytes Ho Hb) as (mem & h' & -> & Hke & Hgr & Hm). exists mem, h', 0. split_and!; try done. right.
      rewrite Z.add_0_r. rewrite Eh in *. apply Z.pow_le_mono_r_iff in Hle; [|lia|lia]. apply Z.mod_divide; [lia|].
      apply Z.mod_divide in Hm; [|pose proof (Z.pow_pos_nonneg 2 i); lia]. etrans; [|exact Hm]. exists (2 ^ (i - k)). rewrite <- Z.pow_add_r by lia. f_equal. lia.
    + destruct (Z.eqb_spec bytes 0); [lia|]. rewrite Eh in *. apply Z.pow_lt_mono_r_iff in Hgt; [|lia|lia].
      assert (Hp : 2 ^ k = 2 ^ i * 2 ^ (k - i)) by (rewrite <- Z.pow_add_r by lia; f_equal; lia).
      assert (0 < 2 ^ i) by (apply Z.pow_pos_nonneg; lia). assert (0 < 2 ^ (k - i)) by (apply Z.pow_pos_nonneg; lia).
      destruct (padded_ok h cs 0 (2 ^ k) (2 ^ i) (2 ^ (k - i)) 1 0 bytes Ho Hb) as (mem & h' & Hp1 & Hp2 & Hp3 & Hp4); try lia.
      exists mem, h', (2 ^ k - 2 ^ i). split; [exact Hp1|]. split_and!; try done; [apply Z.le_0_sub, Z.pow_le_mono_r; lia|lia].
  - assert (0 < 2 ^ j) by (apply Z.pow_pos_nonneg; lia). assert (0 < 2 ^ k) by (apply Z.pow_pos_nonneg; lia).
    assert (Hjk : 2 ^ k = 2 ^ j * (2 * 2 ^ (k - j - 1))).
    { rewrite <- (Z.pow_succ_r 2) by lia. rewrite <- Z.pow_add_r by lia. f_equal. lia. }
    rewrite (lowest_bit_of j (2 ^ (k - j - 1))) by lia. destruct (Z.eqb_spec (2 ^ k + 2 ^ j) (2 ^ j)); [lia|]. cbn [negb orb].
    destruct (Z.eqb_spec bytes 0); [lia|]. replace (2 ^ k + 2 ^ j - 2 ^ j) with (2 ^ k) by lia. set (g := Z.min j i).
    assert (Eg : Z.min (2 ^ j) (chunk_header_bytes h) = 2 ^ g).
    { rewrite Eh. unfold g. destruct (Z.min_spec j i) as [[? ->]|[? ->]]; [apply Z.min_l|apply Z.min_r]; apply Z.pow_le_mono_r; lia. }
    rewrite Eg. assert (Hpow : forall e, g <= e -> 2 ^ e = 2 ^ g * 2 ^ (e - g)) by (intros e He; rewrite <- Z.pow_add_r by lia; f_equal; lia).
    assert (0 < 2 ^ g) by (apply Z.pow_pos_nonneg; lia). assert (0 < 2 ^ (k - g)) by (apply Z.pow_pos_nonneg; lia).
    destruct (padded_ok h cs (2 ^ j) (2 ^ k) (2 ^ g) (2 ^ (k - g)) (2 ^ (i - g)) (2 ^ (j - g)) bytes Ho Hb) as (mem & h' & Hp1 & Hp2 & Hp3 & Hp4); try lia;
      [apply Hpow; lia|rewrite Eh; apply Hpow; lia|apply Hpow; lia|].
    exists mem, h', (2 ^ k - 2 ^ g). split; [exact Hp1|]. split_and!; try done; [apply Z.le_0_sub, Z.pow_le_mono_r; lia|lia].
Qed.

End alloc.
