(* ===== verification/HeapRealloc.v ===== *)
(** Resizing: [inplace_realloc], [sys_heap_realloc] and [sys_heap_aligned_realloc] on the
    layout of a heap, and what users may write. *)

From S2P Require Import Prelude MathExtras Ring HeapMem Heap HeapInv HeapStep HeapList HeapCheck HeapOps HeapAlloc.

#[local] Open Scope Z_scope.

Section realloc.
Context `{HC : HeapConfig}.

(** ** Resizing in place *)

(** Units that come or go. *)
Lemma resized_ok h h' a p s b s' b' : heap_ok h (a ++ Chunk p s Used :: b) -> a <> [] -> same_heap h h' ->
  inv h' (alloc_sum h (a ++ Chunk p s Used :: b) + 8 * (s' - s)) (a ++ Chunk p s' Used :: b') -> used_of b' = used_of b ->
  (forall c, c ∈ b' -> c.(stat) <> Limbo) -> coalesced b' -> heap_ok h' (a ++ Chunk p s' Used :: b').
Proof.
  intros Ho Ha Hs Hi Hu Hnl Hco. pose proof (ho_coalesced _ _ Ho) as Hc0. apply coalesced_app in Hc0 as (Ca & _ & _). split.
  - rewrite (same_alloc_sum _ _ _ Hs), (alloc_sum_split h a p s' b' Ha (iv_first _ _ _ Hi)), Hu.
    rewrite (alloc_sum_split h a p s b Ha (iv_first _ _ _ (ho_inv _ _ Ho))) in Hi. replace (usable h s') with (usable h s + 8 * (s' - s)) by (unfold usable; lia).
    by replace (usable h s + 8 * (s' - s) + _) with (usable h s + Zsum (fun c => usable h (size c)) (tail (used_of a ++ used_of b)) + 8 * (s' - s)) by lia.
  - intros c Hc. apply elem_mid_inv in Hc as [->|Hc]; [done|]. apply elem_of_app in Hc as [Hc|Hc]; [|by apply Hnl]. apply (ho_limbo _ _ Ho). by apply elem_mid_l.
  - apply coalesced_app. split; [done|]. split; [|by right]. split; [by left|done].
Qed.

Lemma user_in_body h p s u x : user_bytes h p s x -> body h (Chunk p s u) x.
Proof. unfold user_bytes, body. cbn [pos size]. pose proof trailer_range. lia. Qed.

Lemma same_user h h' p s x : same_heap h h' -> user_bytes h p s x -> user_bytes h' p s x.
Proof. intros Hs. unfold user_bytes. by rewrite (sh_base _ _ Hs), (same_W _ _ Hs). Qed.

Lemma keeps_user h h' cs p s x : keeps h h' cs -> Chunk p s Used ∈ cs -> user_bytes h p s x -> h'.(hmem) x = h.(hmem) x.
Proof. intros [_ Hk] Hc Hx. apply (Hk _ Hc eq_refl). by apply user_in_body. Qed.

(** The outcome: the chunk at [p] has [s'] units now, and the bytes of both are the same. *)
Definition resized (h h' : z_heap) (a : list chunk) (p s : Z) (b : list chunk) (s' : Z) : Prop :=
  keeps h h' (a ++ b) /\ exists b', heap_ok h' (a ++ Chunk p s' Used :: b') /\ used_of b' = used_of b /\
    forall x, user_bytes h p (Z.min s s') x -> h'.(hmem) x = h.(hmem) x.

Lemma shrink_ok h a p s b l : heap_ok h (a ++ Chunk p s Used :: b) -> a <> [] -> min_chunk_size h <= l < s ->
  let h2 := mark_used p (split_chunks p (p + l) (decrease_allocated_bytes (u32 (8 * (s - l))) h)) in
  let rc := right_chunk h2 (p + l) in
  exists h', (h ← (if negb (chunk_used h2 rc) then
           _ ← free_chunk_check rc true h2; h ← free_list_remove rc h2; Some (merge_chunks (p + l) rc h) else Some h2);
    h ← free_list_add (p + l) h; Some (true, h)) = Some (true, h') /\ resized h h' a p s b l.
Proof.
  intros Ho Ha Hl. pose proof (ho_inv _ _ Ho) as Hi. pose proof (range_at Hi (elem_mid _ _ _)) as Hr. pose proof (min_chunk_width h) as Hmin.
  pose proof trailer_range as Htr. pose proof (width_cases h) as Hwc. destruct (decrease_ok (8 * (s - l)) h _ _ Hi) as [Hi0 Hk0].
  set (h0 := decrease_allocated_bytes (u32 (8 * (s - l))) h) in *. destruct (split_ok h0 _ a p s Used b l Hi0) as [Hi1 Hh1]; [done|by right|lia|].
  set (h1 := split_chunks p (p + l) h0) in *. cbv zeta. assert (Hs1 : same_heap h h1) by (etrans; [apply Hk0|apply Hh1]).
  destruct (mark_used_ok h1 _ a p l _ Hi1) as (Hi2 & Hs2 & Hb2 & Hub2); [rewrite (same_min _ _ Hs1); lia|]. set (h2 := mark_used p h1) in *.
  change (a ++ Chunk p l Used :: Chunk (p + l) (s - l) Limbo :: b) with (a ++ [Chunk p l Used] ++ Chunk (p + l) (s - l) Limbo :: b) in Hi2. rewrite app_assoc in Hi2.
  pose proof (ho_coalesced _ _ Ho) as Hco. apply coalesced_app in Hco as (_ & [_ Cb] & _).
  destruct (right_merge_ok h2 _ _ _ _ _ Hi2) as (h3 & t & b' & -> & Hi3 & Hk3 & Hu3 & Ht & Hst & [kb ->]).
  { intros c Hc. apply (ho_limbo _ _ Ho). by apply elem_mid_r. }
  { intros y r -> Hy. simpl in Cb. destruct Cb as [[?|?] _]; [congruence|done]. }
  rewrite bind_some. destruct (free_list_add_ok _ _ _ _ _ _ Hi3) as (h4 & -> & Hi4 & Hk4). rewrite bind_some. exists h4. split; [done|].
  apply coalesced_app in Cb as (_ & Cb & _). assert (Hs4 : same_heap h h4) by (etrans; [exact Hs1|]; etrans; [exact Hs2|]; etrans; [apply Hk3|apply Hk4]).
  assert (Hk01 : keeps h h1 (a ++ kb ++ b')).
  { eapply (keeps_trans h h0 h1 _ (a ++ kb ++ b')); [|..|done].
    - eapply keeps_weaken; [exact Hk0|]. by intros; apply elem_sides.
    - replace (p + s) with (p + (l + (s - l))) in Hh1 by lia. eapply (split_keep h0 h1 _ _ _ _ _ _ _ _ _ _ Hh1 (iv_tiles _ _ _ Hi1)).
      intros x [?|?]%elem_of_app _; [by apply elem_mid_l|]. apply elem_mid_r. by right. }
  assert (Hk24 : keeps h2 h4 ((a ++ [Chunk p l Used]) ++ kb ++ b')).
  { eapply (keeps_trans h2 h3 h4 _ _ Hk3 Hk4). intros x Hx Hxu. apply elem_sides. revert Hx Hxu. apply used_in. by rewrite !(used_of_app (a ++ [Chunk p l Used])), Hu3. }
  split.
  - eapply (keeps_trans h h1 h4 _ (a ++ kb ++ b') Hk01); [|done]. eapply (keeps_trans h1 h2 h4 _ ((a ++ [Chunk p l Used]) ++ kb ++ b')); [|exact Hk24|].
    + split; [done|]. intros x Hx _. apply Hb2. by apply elem_sides.
    + intros x Hx _. rewrite !elem_of_app in *. tauto.
  - exists (Chunk (p + l) t Free :: b'). rewrite <- app_assoc in Hi4. cbn [app] in Hi4. split_and!.
    + eapply (resized_ok h h4 a p s (kb ++ b') l); try done.
      * replace (alloc_sum h _ + 8 * (l - s)) with (alloc_sum h (a ++ Chunk p s Used :: kb ++ b') - 8 * (s - l)) by lia. done.
      * intros c [->|Hc]%elem_of_cons; [done|]. apply (ho_limbo _ _ Ho). apply elem_mid_r, elem_of_app. by right.
      * split; [by right|done].
    + by rewrite used_of_free, Hu3 by done.
    + rewrite Z.min_r by lia. intros x Hx. rewrite (keeps_user h2 h4 _ p l x Hk24); [|by apply elem_of_app; left; apply elem_mid|].
      2: { eapply same_user; [exact Hs2|]. by eapply same_user. }
      rewrite Hub2 by (by eapply same_user). destruct Hh1 as [_ Hh1]. assert (E0 : hmem h0 = hmem h).
      { unfold h0, decrease_allocated_bytes. by destruct CONFIG_SYS_HEAP_RUNTIME_STATS. }
      rewrite Hh1, E0; [done|]. unfold user_bytes in Hx. rewrite (sh_base h h0), (same_W h h0) by apply Hk0. intros q Hq.
      repeat (apply elem_of_cons in Hq as [->|Hq]); [..|by apply elem_of_nil in Hq]; lia.
Qed.

Lemma grow_ok h a p s t b k : heap_ok h (a ++ Chunk p s Used :: Chunk (p + s) t Free :: b) -> a <> [] -> 0 < k <= t ->
  let h0 := increase_allocated_bytes (u32 (8 * k)) h in
  exists h', (_ ← free_chunk_check (p + s) true h0; h ← free_list_remove (p + s) h0;
      h ← (if k <? chunk_size h (p + s) then free_list_add (p + s + k) (split_chunks (p + s) (p + s + k) h) else Some h);
      Some (true, mark_used p (merge_chunks p (p + s) h))) = Some (true, h') /\ resized h h' a p s (Chunk (p + s) t Free :: b) (s + k).
Proof.
  intros Ho Ha Hk. pose proof (ho_inv _ _ Ho) as Hi. cbv zeta. destruct (increase_ok (8 * k) h _ _ Hi) as [Hi0 Hk0].
  set (h0 := increase_allocated_bytes (u32 (8 * k)) h) in *. rewrite (free_chunk_check_ok _ _ _ _ _ _ _ _ true Hi0) by (done || by left). rewrite bind_some.
  pose proof (iv_min _ _ _ Hi (Chunk p s Used) (elem_mid _ _ _) eq_refl) as Hm. cbn [size] in Hm.
  set (a1 := a ++ [Chunk p s Used]). assert (Hi0' : inv h0 (alloc_sum h (a ++ Chunk p s Used :: Chunk (p + s) t Free :: b) + 8 * k) (a1 ++ Chunk (p + s) t Free :: b))
    by (unfold a1; by rewrite <- app_assoc).
  destruct (free_list_remove_ok _ _ _ _ _ _ Hi0') as (h1 & -> & Hi1 & Hk1). rewrite bind_some, (size_at Hi1 (elem_mid _ _ _)).
  destruct (cut_after h1 _ a1 (p + s) t b k Hi1 Hk) as (h2 & post & -> & Hi2 & Hk2 & Hpost). rewrite bind_some.
  unfold a1 in Hi2. rewrite <- app_assoc in Hi2. cbn [app] in Hi2. destruct (merge_ok _ _ _ _ _ _ _ _ Hi2) as [Hi3 Hh3]; [done|by right|].
  set (h3 := merge_chunks p (p + s) h2) in *. assert (Hs2 : same_heap h h2) by (etrans; [apply Hk0|]; etrans; [apply Hk1|apply Hk2]).
  assert (Hs3 : same_heap h h3) by (etrans; [exact Hs2|apply Hh3]).
  destruct (mark_used_ok h3 _ a p (s + k) _ Hi3) as (Hi4 & Hs4 & Hb4 & Hub4); [rewrite (same_min _ _ Hs3); lia|]. set (h4 := mark_used p h3) in *.
  exists h4. split; [done|]. pose proof (ho_coalesced _ _ Ho) as Hco. apply coalesced_app in Hco as (_ & [_ [[?|Cs] Cb]] & _); [done|].
  assert (Hk02 : keeps h h2 (a1 ++ b)).
  { eapply (keeps_trans h h0 h2 _ (a1 ++ b)); [|eapply (keeps_trans h0 h1 h2 _ (a1 ++ b)); [|exact Hk2|done]|done]; (eapply keeps_weaken; [first [exact Hk0|exact Hk1]|]).
    - unfold a1. intros x Hx _. rewrite <- app_assoc in Hx. rewrite !elem_of_app, !elem_of_cons, elem_of_nil in *. tauto.
    - intros. by apply elem_sides. }
  pose proof trailer_range as Htr. split.
  - apply (keeps_weaken h h4 (a ++ b)); [|by intros x Hx Hu; apply (mid_used Hx Hu)].
    eapply (keeps_trans h h2 h4 (a ++ b) (a ++ b)); [eapply keeps_weaken; [exact Hk02|]|eapply (keeps_trans h2 h3 h4 (a ++ b) (a ++ post ++ b))|done].
    + unfold a1. intros x Hx _. rewrite !elem_of_app in *. tauto.
    + eapply (merge_keep h2 h3 _ _ _ _ _ _ _ _ _ _ Hh3 (iv_tiles _ _ _ Hi2)). intros x Hx _. rewrite !elem_of_app, !elem_of_cons, elem_of_app in *. tauto.
    + split; [done|]. intros x Hx _. by apply Hb4.
    + intros x Hx _. rewrite !elem_of_app in *. tauto.
  - assert (Hu : used_of (post ++ b) = used_of (Chunk (p + s) t Free :: b)) by (by rewrite used_of_app, one_free_used, used_of_free).
    exists (post ++ b). split; [|split; [done|]].
    + eapply (resized_ok h h4 a p s (Chunk (p + s) t Free :: b) (s + k) (post ++ b) Ho Ha); [by etrans| |exact Hu|..].
      * replace (s + k - s) with k by lia. exact Hi4.
      * intros c [Hc|Hc]%elem_of_app; [|apply (ho_limbo _ _ Ho); apply elem_mid_r; by right].
        destruct Hpost as [->|(q & r & ->)]; [by apply elem_of_nil in Hc|by apply list_elem_of_singleton in Hc as ->].
      * destruct Hpost as [->|(q & r & ->)]; [done|]. split; [by right|done].
    + rewrite Z.min_l by lia. intros x Hx. rewrite Hub4.
      * rewrite <- (keeps_user h h2 _ p s x Hk02); [|by unfold a1; apply elem_of_app; left; apply elem_mid|done]. apply (proj2 Hh3).
        unfold user_bytes in Hx. rewrite (sh_base _ _ Hs2), (same_W _ _ Hs2).
        intros q [->| ->%list_elem_of_singleton]%elem_of_cons; lia.
      * apply (same_user _ _ _ _ _ Hs3). unfold user_bytes in *. lia.
Qed.

(** [inplace_realloc] *)
Definition gap_ok (h : z_heap) (mem p : Z) : Prop := mem = chunk_mem h p + mem_align_gap h mem.

Lemma gap_range h mem : 0 <= mem_align_gap h mem < 8.
Proof.
  unfold mem_align_gap, CHUNK_UNIT. destruct (Z.eqb_spec (chunk_header_bytes h) 8); [lia|]. change (8 - 1) with (Z.ones 3).
  rewrite Z.land_ones by lia. apply Z.mod_pos_bound. lia.
Qed.

Lemma gap_points h mem p : gap_ok h mem p -> points_to h mem p.
Proof. intros Hg. exists (mem_align_gap h mem). split; [apply gap_range|done]. Qed.

(** With the smaller headers the gap is what the address says. *)
Lemma gap_small h A a p s u b mem : inv h A (a ++ Chunk p s u :: b) -> big_heap h = false -> points_to h mem p -> gap_ok h mem p.
Proof.
  intros Hi Hb (g & Hg & E). unfold gap_ok, mem_align_gap, CHUNK_UNIT. pose proof (range_at Hi (elem_mid _ _ _)) as Hr.
  assert (Eh : chunk_header_bytes h = 4) by (unfold chunk_header_bytes; by rewrite Hb). rewrite Eh. destruct (Z.eqb_spec 4 8); [done|].
  change (8 - 1) with (Z.ones 3). destruct (hf_base _ (iv_fits _ _ _ Hi)) as [B1 B2]. destruct (hf_end _ (iv_fits _ _ _ Hi)) as [_ B3].
  rewrite Z.land_ones by lia. unfold chunk_mem, CHUNK_UNIT in *. rewrite Eh in *. change (2 ^ 3) with 8. rewrite u32_small by lia.
  Z.to_euclidean_division_equations. lia.
Qed.

Lemma pos_later h A a c b : inv h A (a ++ c :: b) -> a <> [] -> 0 < c.(pos).
Proof.
  intros Hi Ha. pose proof (iv_tiles _ _ _ Hi) as Ht. apply tiles_middle in Ht as (Ht & _). apply tiles_length in Ht. destruct a; [done|]. simpl in Ht. lia.
Qed.

Lemma resized_eq h h1 h' a p s b s' : heap_eq (a ++ Chunk p s Used :: b) h h1 -> resized h1 h' a p s b s' -> resized h h' a p s b s'.
Proof.
  intros He (Hk & b' & Ho & Hu & Hx). pose proof (eq_keeps _ _ _ He) as Hk1. split.
  - eapply (keeps_trans h h1 h' _ (a ++ b)); [|exact Hk|done]. eapply keeps_weaken; [exact Hk1|]. by intros; apply elem_sides.
  - exists b'. split; [done|]. split; [done|]. intros x Hux. rewrite Hx by (eapply same_user; [apply He|done]).
    eapply (keeps_user h h1 _ p s x Hk1 (elem_mid _ _ _)). unfold user_bytes in *. lia.
Qed.

Lemma resized_same h h1 a p s b : heap_ok h (a ++ Chunk p s Used :: b) -> heap_eq (a ++ Chunk p s Used :: b) h h1 -> resized h h1 a p s b s.
Proof.
  intros Ho He. eapply resized_eq; [exact He|]. split; [apply keeps_refl|]. exists b. split; [by eapply eq_ok|]. done.
Qed.

Lemma inplace_ok h a p s b ptr bytes : heap_ok h (a ++ Chunk p s Used :: b) -> a <> [] -> gap_ok h ptr p -> 1 <= bytes < 2 ^ 32 ->
  exists ok h', inplace_realloc ptr bytes h = Some (ok, h') /\
    (ok = false /\ heap_eq (a ++ Chunk p s Used :: b) h h' \/
     ok = true /\ exists s', resized h h' a p s b s' /\ ptr + bytes <= h.(heap_base) + 8 * (p + s') - 8 * CHUNK_TRAILER_SIZE).
Proof.
  intros Ho Ha Hg Hb. pose proof (gap_range h ptr) as Hgr. pose proof (ho_inv _ _ Ho) as Hi. pose proof (gap_points _ _ _ Hg) as Hpt.
  destruct (points_chunk _ _ _ _ _ _ _ _ Hi Hpt) as [_ Hid]. unfold inplace_realloc. cbv zeta. rewrite Hid.
  assert (Hgr' : 0 <= mem_align_gap h ptr < 2 ^ 32).
  { clear - Hgr. lia. }
  pose proof (request_range h bytes (mem_align_gap h ptr) (iv_fits _ _ _ Hi) Hb Hgr') as Hrq.
  pose proof (range_at Hi (elem_mid _ _ _)) as Hr.
  destruct (used_chunk_check_ok h _ a p s b Ho eq_refl Ha) as (h1 & -> & He). rewrite bind_some. pose proof (eq_ok _ _ _ He Ho) as Ho1.
  pose proof (ho_inv _ _ Ho1) as Hi1. rewrite (size_at Hi1 (elem_mid _ _ _)). 
  pose proof (pos_later _ _ _ _ _ Hi Ha) as Hp. cbn [pos] in Hp. pose proof (end_range h (iv_fits _ _ _ Hi)) as Hend. pose proof (he_same _ _ _ He) as Hs1.
  set (need := bytes_to_chunksz h bytes (mem_align_gap h ptr)) in *.
  assert (Hfit : forall s', need <= s' -> p + s' <= h.(end_chunk) -> ptr + bytes <= h.(heap_base) + 8 * (p + s') - 8 * CHUNK_TRAILER_SIZE).
  { intros s' Hs' He'. unfold need in Hs'. rewrite bytes_to_chunksz_eq in Hs' by (done || lia). unfold gap_ok, chunk_mem, CHUNK_UNIT in Hg.
    pose proof (header_cases h). set (g := mem_align_gap h ptr) in *. clearbody g. Z.to_euclidean_division_equations. lia. }
  assert (Hmin : 0 < min_chunk_size h) by (pose proof (min_chunk_width h); pose proof trailer_range; destruct (width_cases h); lia).
  destruct (Z.eqb_spec s need) as [->|Hne]; [|destruct (Z.ltb_spec need s) as [Hlt|Hge]].
  - exists true, h1. split; [done|]. right. split; [done|]. exists need. split; [by apply resized_same|]. apply Hfit; lia.
  - rewrite (u32_small (p + need)) by lia. unfold CHUNK_UNIT. rewrite (Z.mul_comm (s - need) 8).
    destruct (shrink_ok h1 a p s b need Ho1 Ha) as (h' & Hsh & Hres); [rewrite (same_min _ _ Hs1); lia|].
    exists true, h'. split; [exact Hsh|]. right. split; [done|]. exists need. split; [by eapply resized_eq|]. apply Hfit; lia.
  - rewrite (right_at Hi1 (elem_mid _ _ _)). pose proof (iv_tiles _ _ _ Hi1) as Ht. apply tiles_middle in Ht as (_ & _ & Ht). cbn [pos size] in Ht.
    assert (Hrefuse : exists ok h', Some (false, h1) = Some (ok, h') /\ (ok = false /\ heap_eq (a ++ Chunk p s Used :: b) h h' \/ ok = true /\
      exists s', resized h h' a p s b s' /\ ptr + bytes <= h.(heap_base) + 8 * (p + s') - 8 * CHUNK_TRAILER_SIZE)) by (exists false, h1; split; [done|by left]).
    destruct b as [|[q t u] b].
    { simpl in Ht. rewrite Ht, (end_used Hi1). exact Hrefuse. }
    destruct Ht as (Eq & Ht0 & _). cbn [pos size] in Eq, Ht0. subst q. assert (Hq : Chunk (p + s) t u ∈ a ++ Chunk p s Used :: Chunk (p + s) t u :: b)
      by (apply elem_mid_r; by left). pose proof (range_at Hi Hq) as Hrq'. rewrite (used_at Hi1 Hq), (size_at Hi1 Hq), (u32_small (s + t)) by lia.
    assert (Hul : u <> Limbo) by (by apply (ho_limbo _ _ Ho _ Hq)).
    destruct u; [rewrite bool_decide_true by done; exact Hrefuse| |done]. rewrite bool_decide_false by done. cbn [negb andb].
    destruct (Z.leb_spec need (s + t)) as [Hle|Hgt]; [|exact Hrefuse]. rewrite (u32_small (need - s)) by lia. unfold CHUNK_UNIT.
    rewrite (Z.mul_comm (need - s) 8), (u32_small (p + s + (need - s))) by lia.
    destruct (grow_ok h1 a p s t b (need - s) Ho1 Ha) as (h' & Hgrw & Hres); [lia|]. exists true, h'. split; [exact Hgrw|].
    right. split; [done|]. replace (s + (need - s)) with need in Hres by lia. exists need. split; [by eapply resized_eq|]. apply Hfit; lia.
Qed.

(** ** What users write *)

(** Writes in the block of an allocated chunk. *)
Lemma user_write_ok h a p s b m : heap_ok h (a ++ Chunk p s Used :: b) -> (forall x, ~ user_bytes h p s x -> m x = h.(hmem) x) ->
  heap_ok (set_hmem m h) (a ++ Chunk p s Used :: b) /\ keeps h (set_hmem m h) (a ++ b).
Proof.
  intros Ho Hm. pose proof (ho_inv _ _ Ho) as Hi. set (h' := set_hmem m h). assert (Hs : same_heap h h') by done.
  assert (Hb : in_bodies h h' [Chunk p s Used]).
  { split; [done|]. intros x Hx. apply Hm. intros Hu. apply (Hx _ ltac:(by left)). by apply user_in_body. }
  assert (Hin : forall x, x ∈ [Chunk p s Used] -> x ∈ a ++ Chunk p s Used :: b) by (intros x ->%list_elem_of_singleton; apply elem_mid).
  assert (Hbs : forall x, x ∈ a ++ Chunk p s Used :: b -> x <> Chunk p s Used -> body_same h h' x).
  { intros x Hx Hne y Hy. apply Hm. intros Hu. apply (bodies_apart h 0 _ _ x (Chunk p s Used) y (iv_tiles _ _ _ Hi) Hx (elem_mid _ _ _) Hne Hy). by apply user_in_body. }
  pose proof (chunks_nodup _ _ _ (iv_tiles _ _ _ Hi)) as Hnd. split.
  - split; [|apply Ho|apply Ho]. rewrite (same_alloc_sum _ _ _ Hs). eapply (inv_step h h' _ _ _ Hi); try done; try apply Hi.
    + eapply in_bodies_heads; [exact Hb|apply Hi|exact Hin|apply Hi].
    + intros y Hy Hyf. split; [done|]. apply Hbs; [done|]. intros ->. done.
    + intros y Hy Hyu. destruct (decide (y = Chunk p s Used)) as [->|Hne]; [right|left; split; [done|by apply Hbs]].
      split; [by apply (iv_min _ _ _ Hi _ Hy)|]. intros HF. pose proof (iv_canary _ _ _ Hi HF _ Hy Hyu) as Hc. unfold canary_ok in *. cbn [pos size] in *.
      etrans; [|exact Hc]. apply (ld_ext 4). intros x Hx. apply Hm. unfold user_bytes. lia.
  - split; [done|]. intros x Hx Hxu. apply Hbs; [by apply elem_sides|]. intros ->. apply NoDup_app in Hnd as (_ & N1 & N2). apply NoDup_cons in N2 as [N2 _].
    apply elem_of_app in Hx as [Hx|Hx]; [|done]. apply (N1 _ Hx). by left.
Qed.

(** ** [sys_heap_usable_size] and the copy *)

(** The block of an allocated chunk: its address and its end. *)
Definition block_end (h : z_heap) (p s : Z) : Z := h.(heap_base) + 8 * (p + s) - 8 * CHUNK_TRAILER_SIZE.

Lemma same_block_end h h' p s : same_heap h h' -> block_end h' p s = block_end h p s.
Proof. intros Hs. unfold block_end. by rewrite (sh_base _ _ Hs). Qed.
Lemma same_gap h h' mem p : same_heap h h' -> gap_ok h mem p -> gap_ok h' mem p.
Proof.
  intros Hs. unfold gap_ok, chunk_mem, mem_align_gap. by rewrite !header_width, (sh_base _ _ Hs), (same_W _ _ Hs).
Qed.
Lemma same_points h h' mem p : same_heap h h' -> points_to h mem p -> points_to h' mem p.
Proof. intros Hs. unfold points_to, chunk_mem. by rewrite !header_width, (sh_base _ _ Hs), (same_W _ _ Hs). Qed.

Lemma usable_size_ok h A a p s b ptr : inv h A (a ++ Chunk p s Used :: b) -> gap_ok h ptr p -> ptr <= block_end h p s ->
  sys_heap_usable_size ptr h = Some (block_end h p s - ptr).
Proof.
  intros Hi Hg Hle. destruct (points_chunk _ _ _ _ _ _ _ _ Hi (gap_points _ _ _ Hg)) as [_ Hid]. unfold sys_heap_usable_size. rewrite Hid.
  rewrite (verify_if_ok _ _ _ _ _ _ Hi), bind_some. rewrite (usable_at Hi (elem_mid _ _ _)). f_equal. pose proof (range_at Hi (elem_mid _ _ _)) as Hr.
  pose proof (gap_range h ptr) as Hgr. pose proof (end_range h (iv_fits _ _ _ Hi)) as He. pose proof (width_cases h) as Hw. pose proof trailer_range as Ht.
  pose proof (header_width h) as Hh. unfold gap_ok, chunk_mem, block_end, usable, CHUNK_UNIT in *. rewrite (u32_small (8 * s - _ - _)) by lia.
  rewrite u32_small; lia.
Qed.

(** The block of a chunk is in its user bytes. *)
Lemma block_user h mem p s n x : points_to h mem p -> mem + n <= block_end h p s -> mem <= x < mem + n -> user_bytes h p s x.
Proof.
  intros (g & Hg & ->) Hn Hx. unfold user_bytes, block_end, chunk_mem, CHUNK_UNIT in *. rewrite header_width in *. lia.
Qed.

Lemma mid_once {p0 e a} {c : chunk} {b} : tiles p0 (a ++ c :: b) e -> c ∉ a ++ b.
Proof.
  intros Hnd%chunks_nodup. apply NoDup_app in Hnd as (_ & N1 & N2). apply NoDup_cons in N2 as [N2 _].
  intros [Hx|Hx]%elem_of_app; [|done]. apply (N1 _ Hx). by left.
Qed.

Lemma used_elem x cs : x ∈ used_of cs <-> x.(stat) = Used /\ x ∈ cs.
Proof. unfold used_of. by rewrite list_elem_of_filter. Qed.

(** Copying the old block to the new one, and freeing the old one. *)
Lemma realloc_copy_ok h us p s a' q t b' ptr ptr2 bytes : heap_ok h (a' ++ Chunk q t Used :: b') ->
  used_of a' ++ used_of b' ≡ₚ Chunk p s Used :: us -> 0 < p -> gap_ok h ptr p -> ptr <= block_end h p s ->
  ptr2 <> 0 -> points_to h ptr2 q -> 0 <= bytes -> ptr2 + bytes <= block_end h q t ->
  exists h' cs', realloc_copy ptr ptr2 bytes h = Some (ptr2, h') /\ heap_ok h' cs' /\ used_of cs' ≡ₚ Chunk q t Used :: us /\ keeps h h' us /\
    forall i, 0 <= i < Z.min (block_end h p s - ptr) bytes -> h'.(hmem) (ptr2 + i) = h.(hmem) (ptr + i).
Proof.
  intros Ho Hu Hp0 Hg Hle Hp2 Hpt2 Hb Hend. pose proof (ho_inv _ _ Ho) as Hi. unfold realloc_copy. destruct (Z.eqb_spec ptr2 0); [done|].
  assert (Hp : Chunk p s Used ∈ a' ++ b').
  { assert (Hin : Chunk p s Used ∈ used_of (a' ++ b')) by (rewrite used_of_app, Hu; by left). by apply used_elem in Hin as [_ ?]. }
  assert (Hqp : Chunk q t Used <> Chunk p s Used) by (intros E; rewrite <- E in Hp; by apply (mid_once (iv_tiles _ _ _ Hi))).
  assert (Hpc : Chunk p s Used ∈ a' ++ Chunk q t Used :: b') by (by apply elem_sides). apply list_elem_of_split in Hpc as Hpc'. destruct Hpc' as (a2 & b2 & E2).
  rewrite E2 in Hi. rewrite (usable_size_ok _ _ _ _ _ _ _ Hi Hg Hle), bind_some. cbv zeta. set (len := Z.min (block_end h p s - ptr) bytes).
  destruct (user_write_ok h a' q t b' (memcpy ptr2 ptr len h.(hmem)) Ho) as [Ho1 Hk1].
  { intros x Hx. apply memcpy_out. intros Hr. apply Hx. eapply (block_user h ptr2 q t len); [done|lia|lia]. }
  set (h1 := set_hmem (memcpy ptr2 ptr len (hmem h)) h) in *. assert (Hs1 : same_heap h h1) by done.
  assert (Ha2 : a2 <> []) by (intros ->; pose proof (iv_tiles _ _ _ Hi) as [Ht _]; simpl in Ht; lia).
  destruct (sys_heap_free_ok h1 _ a2 p s b2 ptr Ho1 E2 Ha2) as (h2 & cs2 & -> & Ho2 & Hu2 & Hk2); [by apply (same_points h), gap_points|].
  rewrite bind_some. assert (Hperm : used_of cs2 ≡ₚ Chunk q t Used :: us).
  { rewrite Hu2. apply (Permutation_cons_inv (a := Chunk p s Used)). rewrite (Permutation_middle (used_of a2)), <- used_of_used, <- used_of_app, <- E2.
    rewrite used_of_app, used_of_used, <- Permutation_middle, Hu. apply Permutation_swap. }
  assert (Hus : forall x, x ∈ us -> x.(stat) = Used /\ x ∈ a' ++ b' /\ x ∈ a2 ++ b2).
  { intros x Hx. assert (Hx2 : x ∈ used_of (a2 ++ b2)) by (rewrite used_of_app, <- Hu2, Hperm; by right). apply used_elem in Hx2 as [Hxu Hx2].
    split; [done|]. split; [|done]. assert (Hx1 : x ∈ used_of (a' ++ b')) by (rewrite used_of_app, Hu; by right). by apply used_elem in Hx1 as [_ ?]. }
  exists h2, cs2. split; [done|]. split; [done|]. split; [done|]. split.
  - eapply (keeps_trans h h1 h2 us us); [eapply keeps_weaken; [exact Hk1|]|eapply keeps_weaken; [exact Hk2|]|done]; intros x Hx _; by apply Hus.
  - intros i Hin. assert (Hq2 : Chunk q t Used ∈ a2 ++ b2).
    { assert (Hq : Chunk q t Used ∈ a2 ++ Chunk p s Used :: b2) by (rewrite <- E2; apply elem_mid). by apply elem_mid_inv in Hq as [?|]. }
    rewrite (keeps_user h1 h2 _ q t (ptr2 + i) Hk2 Hq2) by (apply (same_user h _ _ _ _ Hs1), (block_user h ptr2 q t bytes); done || lia).
    unfold h1. simpl. unfold memcpy. destruct (Z.leb_spec ptr2 (ptr2 + i)), (Z.ltb_spec (ptr2 + i) (ptr2 + len)); try lia. simpl. f_equal. lia.
Qed.

(** ** [sys_heap_realloc] *)

(** A live block of the heap: its chunk is allocated and not the heap's own. *)
Definition live (h : z_heap) (p s mem len : Z) : Prop :=
  0 < p /\ points_to h mem p /\ mem <> 0 /\ mem + len <= block_end h p s.

(** The outcome of a resize to [bytes] bytes of the block at [ptr] in the chunk [p], [us] being
    the other allocated chunks. *)
Definition moved (h h' : z_heap) (us : list chunk) (p s ptr bytes mem : Z) : Prop :=
  (mem = 0 /\ exists cs', heap_ok h' cs' /\ used_of cs' ≡ₚ Chunk p s Used :: us /\ keeps h h' (Chunk p s Used :: us)) \/
  exists q t cs', live h q t mem bytes /\ heap_ok h' cs' /\ used_of cs' ≡ₚ Chunk q t Used :: us /\ keeps h h' us /\
    forall i, 0 <= i < Z.min (block_end h p s - ptr) bytes -> h'.(hmem) (mem + i) = h.(hmem) (ptr + i).

Lemma used_mid a c b : c.(stat) = Used -> used_of (a ++ c :: b) ≡ₚ c :: used_of a ++ used_of b.
Proof. intros Hc. destruct c as [p s u]. simpl in Hc. subst u. by rewrite used_of_app, used_of_used, Permutation_middle. Qed.

Lemma keeps_used h h' cs : keeps h h' cs -> keeps h h' (used_of cs).
Proof. intros Hk. eapply keeps_weaken; [exact Hk|]. by intros x [_ ?]%used_elem _. Qed.

(** The block found for it is another one. *)
Lemma move_ok h h1 cs us p s ptr bytes mem sz : heap_ok h cs -> used_of cs ≡ₚ Chunk p s Used :: us -> 0 < p -> gap_ok h ptr p -> ptr <= block_end h p s ->
  1 <= bytes -> keeps h h1 cs -> granted h h1 cs mem bytes sz ->
  exists h', realloc_copy ptr mem bytes h1 = Some (mem, h') /\ moved h h' us p s ptr bytes mem.
Proof.
  intros Ho Hu Hp Hg Hle Hb Hk Hgr. pose proof (proj1 Hk) as Hs. pose proof (keeps_used _ _ _ Hk) as Hku.
  assert (Hkp : keeps h h1 (Chunk p s Used :: us)) by (eapply keeps_weaken; [exact Hku|]; intros x Hx _; by rewrite Hu).
  destruct Hgr as [(-> & Ho1 & _)|(a & q & t & b & Ho1 & Ha & Hub & Hpt & Hend)].
  - exists h1. split; [done|]. left. split; [done|]. by exists cs.
  - assert (Hq : 0 < q) by (apply (pos_later _ _ _ _ _ (ho_inv _ _ Ho1) Ha)). assert (Hm : mem <> 0).
    { destruct Hpt as (g & Hgr & ->). unfold chunk_mem, CHUNK_UNIT. pose proof (hf_base _ (iv_fits _ _ _ (ho_inv _ _ Ho))) as [Hbp _]. pose proof (header_cases h). lia. }
    destruct (realloc_copy_ok h1 us p s a q t b ptr mem bytes) as (h2 & cs2 & Hc & Ho2 & Hu2 & Hk2 & Hx); try done.
    + by rewrite <- Hub.
    + by eapply same_gap.
    + by rewrite (same_block_end _ _ _ _ Hs).
    + by eapply same_points.
    + lia.
    + by rewrite (same_block_end _ _ _ _ Hs).
    + exists h2. split; [done|]. right. exists q, t, cs2. split; [done|]. split; [done|]. split; [done|]. split.
      * eapply (keeps_trans h h1 h2 us us); [eapply keeps_weaken; [exact Hkp|]|exact Hk2|done]. intros x Hxu _. by right.
      * intros i Hi. rewrite Hx by (by rewrite (same_block_end _ _ _ _ Hs)). apply (keeps_user h h1 _ p s (ptr + i) Hkp); [by left|].
        apply (block_user h ptr p s (block_end h p s - ptr)); [by apply gap_points|lia|lia].
Qed.

Lemma inplace_moved h h' a p s b s' ptr bytes us : resized h h' a p s b s' -> us ≡ₚ used_of a ++ used_of b -> 0 < p -> gap_ok h ptr p ->
  ptr <> 0 -> ptr + bytes <= block_end h p s' -> moved h h' us p s ptr bytes ptr.
Proof.
  intros (Hk & b' & Ho & Hu & Hx) Hus Hp Hg Hp0 Hend. right. exists p, s', (a ++ Chunk p s' Used :: b'). split; [split_and!; try done; by apply gap_points|].
  split; [done|]. split; [by rewrite (used_mid a (Chunk p s' Used)), Hus, Hu by done|]. split.
  - eapply keeps_weaken; [exact Hk|]. intros x Hxu Hst. rewrite Hus, <- used_of_app in Hxu. by apply used_elem in Hxu as [_ ?].
  - intros i Hi. apply Hx. destruct (Z.min_spec s s') as [[_ ->]|[_ ->]].
    + apply (block_user h ptr p s (block_end h p s - ptr)); [by apply gap_points|lia|lia].
    + apply (block_user h ptr p s' bytes); [by apply gap_points|lia|lia].
Qed.

Lemma heap_eq_moved h h1 h' cs us p s ptr bytes mem : heap_eq cs h h1 -> used_of cs ≡ₚ Chunk p s Used :: us -> gap_ok h ptr p -> ptr <= block_end h p s ->
  moved h1 h' us p s ptr bytes mem -> moved h h' us p s ptr bytes mem.
Proof.
  intros He Hu Hg Hle Hm. pose proof (he_same _ _ _ He) as Hs. pose proof (keeps_used _ _ _ (eq_keeps _ _ _ He)) as Hk.
  assert (Hk1 : keeps h h1 (Chunk p s Used :: us)) by (eapply keeps_weaken; [exact Hk|]; intros x Hx _; by rewrite Hu).
  destruct Hm as [(-> & cs' & Ho & Hu' & Hk')|(q & t & cs' & (L1 & L2 & L3 & L4) & Ho & Hu' & Hk' & Hx)].
  - left. split; [done|]. exists cs'. split; [done|]. split; [done|]. by eapply keeps_trans.
  - right. exists q, t, cs'. split; [split_and!; try done|].
    + destruct L2 as (g & Hgr & E). exists g. split; [done|]. rewrite E. unfold chunk_mem. by rewrite !header_width, (sh_base _ _ Hs), (same_W _ _ Hs).
    + by rewrite <- (same_block_end _ _ _ _ Hs).
    + split; [done|]. split; [done|]. split; [eapply keeps_trans; [eapply keeps_weaken; [exact Hk1|]|exact Hk'|done]; by intros; right|].
      intros i Hi. rewrite Hx by (by rewrite (same_block_end _ _ _ _ Hs)). apply (keeps_user h h1 _ p s (ptr + i) Hk1); [by left|].
      apply (block_user h ptr p s (block_end h p s - ptr)); [by apply gap_points|lia|lia].
Qed.

Lemma move_eq_ok h h1 h2 cs us p s ptr bytes mem sz : heap_ok h cs -> heap_eq cs h h1 -> used_of cs ≡ₚ Chunk p s Used :: us -> 0 < p -> gap_ok h ptr p ->
  ptr <= block_end h p s -> 1 <= bytes -> keeps h1 h2 cs -> granted h1 h2 cs mem bytes sz ->
  exists h', realloc_copy ptr mem bytes h2 = Some (mem, h') /\ moved h h' us p s ptr bytes mem.
Proof.
  intros Ho He Hu Hp Hg Hle Hb Hk Hgr. pose proof (he_same _ _ _ He) as Hs. assert (Hle1 : ptr <= block_end h1 p s) by (by rewrite (same_block_end _ _ _ _ Hs)).
  destruct (move_ok h1 h2 cs us p s ptr bytes mem sz (eq_ok _ _ _ He Ho) Hu Hp (same_gap _ _ _ _ Hs Hg) Hle1 Hb Hk Hgr) as (h' & -> & Hm).
  exists h'. split; [done|]. by eapply heap_eq_moved.
Qed.

Lemma sys_heap_realloc_ok h cs us p s ptr bytes : heap_ok h cs -> used_of cs ≡ₚ Chunk p s Used :: us -> 0 < p -> gap_ok h ptr p -> ptr <= block_end h p s ->
  1 <= bytes < 2 ^ 32 -> exists mem h', sys_heap_realloc ptr bytes h = Some (mem, h') /\ moved h h' us p s ptr bytes mem.
Proof.
  intros Ho Hu Hp Hg Hle Hb. assert (Hin : Chunk p s Used ∈ used_of cs) by (rewrite Hu; by left). apply used_elem in Hin as [_ Hin].
  apply list_elem_of_split in Hin as (a & b & E). rewrite E in *. pose proof (ho_inv _ _ Ho) as Hi. assert (Ha : a <> []).
  { intros ->. pose proof (iv_tiles _ _ _ Hi) as [Ht _]. simpl in Ht. lia. }
  destruct (points_chunk _ _ _ _ _ _ _ _ Hi (gap_points _ _ _ Hg)) as [Hp0 _]. unfold sys_heap_realloc. destruct (Z.eqb_spec ptr 0); [done|].
  destruct (Z.eqb_spec bytes 0); [lia|]. assert (Hus : us ≡ₚ used_of a ++ used_of b).
  { apply (Permutation_cons_inv (a := Chunk p s Used)). by rewrite <- Hu, (used_mid a (Chunk p s Used)). }
  destruct (inplace_ok h a p s b ptr bytes Ho Ha Hg Hb) as (ok & h1 & -> & [[-> He]|[-> (s' & Hres & Hend)]]); rewrite bind_some; cbv beta iota; cbn [negb].
  - pose proof (eq_ok _ _ _ He Ho) as Ho1. destruct (sys_heap_alloc_ok h1 _ bytes Ho1 Hb) as (mem & h2 & -> & Hk2 & Hgr & _). rewrite bind_some. cbv beta iota.
    destruct (move_eq_ok h h1 h2 _ us p s ptr bytes mem _ Ho He Hu Hp Hg Hle (proj1 Hb) Hk2 Hgr) as (h3 & -> & Hm).
    exists mem, h3. done.
  - exists ptr, h1. split; [done|]. by eapply inplace_moved.
Qed.

(** ** [sys_heap_aligned_realloc] *)

Lemma aligned_test ptr k : 0 <= ptr -> 0 <= k < 32 -> (ptr .& u32 (2 ^ k - 1) =? 0) = true -> ptr mod 2 ^ k = 0.
Proof.
  intros Hp Hk. pose proof (Z.pow_lt_mono_r 2 k 32 ltac:(lia) ltac:(lia) ltac:(lia)). assert (0 < 2 ^ k) by (apply Z.pow_pos_nonneg; lia). rewrite u32_small by lia.
  replace (2 ^ k - 1) with (Z.ones k) by (rewrite Z.ones_equiv; lia). rewrite Z.land_ones by lia. by intros ->%Z.eqb_eq.
Qed.

Lemma aligned_realloc_ok h cs us p s ptr align bytes : heap_ok h cs -> used_of cs ≡ₚ Chunk p s Used :: us -> 0 < p -> gap_ok h ptr p -> ptr <= block_end h p s ->
  1 <= bytes < 2 ^ 32 -> align = 0 \/ (exists k, 0 <= k < 32 /\ align = 2 ^ k) ->
  exists mem h', sys_heap_aligned_realloc ptr align bytes h = Some (mem, h') /\ moved h h' us p s ptr bytes mem /\ (align = 0 \/ mem mod align = 0).
Proof.
  intros Ho Hu Hp Hg Hle Hb Hal. assert (Hin : Chunk p s Used ∈ used_of cs) by (rewrite Hu; by left). apply used_elem in Hin as [_ Hin].
  apply list_elem_of_split in Hin as (a & b & E). rewrite E in *. pose proof (ho_inv _ _ Ho) as Hi. assert (Ha : a <> []).
  { intros ->. pose proof (iv_tiles _ _ _ Hi) as [Ht _]. simpl in Ht. lia. }
  destruct (points_chunk _ _ _ _ _ _ _ _ Hi (gap_points _ _ _ Hg)) as [Hp0 _]. unfold sys_heap_aligned_realloc. destruct (Z.eqb_spec ptr 0); [done|].
  destruct (Z.eqb_spec bytes 0); [lia|]. assert (Hus : us ≡ₚ used_of a ++ used_of b).
  { apply (Permutation_cons_inv (a := Chunk p s Used)). by rewrite <- Hu, (used_mid a (Chunk p s Used)). }
  assert (Hmove : forall h1, heap_eq (a ++ Chunk p s Used :: b) h h1 -> exists mem h', ('(ptr2, h) ← sys_heap_aligned_alloc align bytes h1; realloc_copy ptr ptr2 bytes h) = Some (mem, h') /\
      moved h h' us p s ptr bytes mem /\ (align = 0 \/ mem mod align = 0)).
  { intros h1 He. pose proof (eq_ok _ _ _ He Ho) as Ho1. pose proof (hf_end _ (iv_fits _ _ _ (ho_inv _ _ Ho1))) as [_ Hend].
    destruct (aligned_alloc_ok h1 _ align (Z.max align 1) 0 bytes Ho1 Hb) as (mem & h2 & pad & -> & Hk2 & _ & Hgr & Hmod); [|lia|].
    - destruct Hal as [->|(k & Hk & ->)]; [split; [lia|by left]|]. assert (0 < 2 ^ k) by (apply Z.pow_pos_nonneg; lia). split; [apply Z.pow_lt_mono_r; lia|].
      right; left. exists k. split_and!; try done; lia.
    - rewrite bind_some. cbv beta iota.
      destruct (move_eq_ok h h1 h2 _ us p s ptr bytes mem _ Ho He Hu Hp Hg Hle (proj1 Hb) Hk2 Hgr) as (h3 & -> & Hm).
      exists mem, h3. split; [done|]. split; [done|]. destruct Hal as [->|(k & Hk & ->)]; [by left|right].
      assert (0 < 2 ^ k) by (apply Z.pow_pos_nonneg; lia). destruct Hmod as [->|Hmod]; [apply Z.mod_0_l; lia|]. by rewrite Z.add_0_r, Z.max_l in Hmod by lia. }
  destruct ((align =? 0) || _) eqn:Ec; [|rewrite bind_some; cbv beta iota; cbn [negb]; apply Hmove, eq_refl'].
  destruct (inplace_ok h a p s b ptr bytes Ho Ha Hg Hb) as (ok & h1 & -> & [[-> He]|[-> (s' & Hres & Hend)]]); rewrite bind_some; cbv beta iota; cbn [negb].
  - by apply Hmove.
  - exists ptr, h1. split; [done|]. split; [by eapply inplace_moved|]. destruct Hal as [->|(k & Hk & ->)]; [by left|right].
    assert (0 < 2 ^ k) by (apply Z.pow_pos_nonneg; lia). destruct (Z.eqb_spec (2 ^ k) 0); [lia|]. apply aligned_test; [|done|done].
    destruct (gap_points _ _ _ Hg) as (g & Hgr & ->). unfold chunk_mem, CHUNK_UNIT. pose proof (hf_base _ (iv_fits _ _ _ Hi)) as [Hbp _]. pose proof (header_cases h). lia.
Qed.

End realloc.
