(* ===== verification/HeapInit.v ===== *)
(** [sys_heap_init] establishes the invariant. *)

From S2P Require Import Prelude MathExtras Ring HeapMem Heap HeapInv HeapStep HeapList HeapCheck HeapOps.

#[local] Open Scope Z_scope.

Section init.
Context `{HC : HeapConfig}.

(** The heap in a buffer, and the size of the chunk that holds its own data. *)
Definition init_base (mem : Z) : Z := ROUND_UP mem CHUNK_UNIT.
Definition init_end (mem bytes : Z) : Z := (ROUND_DOWN (mem + (bytes - heap_footer_bytes bytes)) CHUNK_UNIT - init_base mem) / CHUNK_UNIT.
Definition init_heap (mem bytes random : Z) (m : memory) : z_heap := Z_heap (init_base mem) (init_end mem bytes) 0 0 0 0 random (fun _ => 0) m.
Definition init_chunk0 (h : z_heap) : Z := chunksz (sizeof_z_heap + nb_buckets h * 4) + CHUNK_TRAILER_SIZE.

(** What [sys_heap_init] asserts of the buffer, and that it lies in the address space. *)
Record buffer_ok (mem bytes random : Z) : Prop := {
  bf_mem : 0 < mem /\ 8 <= bytes /\ mem + bytes <= 2 ^ 32;
  bf_size : let h := init_heap mem bytes random (fun _ => 0) in init_chunk0 h + min_chunk_size h <= h.(end_chunk);
  bf_small : CONFIG_SYS_HEAP_SMALL_ONLY = true -> bytes / CHUNK_UNIT <= 32767;
  bf_random : 0 <= random < 2 ^ 32
}.

Section start.
Context (h : z_heap) (c0 : Z) (Hf : heap_fits h) (Hc0 : min_chunk_size h <= c0 < h.(end_chunk)).

Definition init_headers : z_heap :=
  let h1 := mark_used 0 (set_left_chunk_size 0 0 (set_chunk_size 0 c0 h)) in
  let h2 := set_left_chunk_size c0 c0 (set_chunk_size c0 (h.(end_chunk) - c0) h1) in
  set_chunk_used h.(end_chunk) true (set_left_chunk_size h.(end_chunk) (h.(end_chunk) - c0) (set_chunk_size h.(end_chunk) 0 h2)).

Lemma init_mark : mark_used 0 (set_left_chunk_size 0 0 (set_chunk_size 0 c0 h)) =
  let h1 := chunk_set 0 SIZE_AND_USED (2 * c0 + 1) (chunk_set 0 LEFT_SIZE 0 (chunk_set 0 SIZE_AND_USED (2 * c0) h)) in
  if SYS_HEAP_HARDENING_FULL then set_hmem (st 4 (trailer_at h 0 c0) (canary_val h 0 c0) h1.(hmem)) h1 else h1.
Proof.
  pose proof (end_range h Hf). pose proof (min_chunk_width h). pose proof trailer_range. pose proof (width_cases h).
  pose proof (field_fits h Hf c0 ltac:(lia)) as Hfit. unfold mark_used, set_left_chunk_size, set_chunk_size. rewrite (double_size h) by (done || lia).
  set (h0 := chunk_set 0 LEFT_SIZE 0 (chunk_set 0 SIZE_AND_USED (2 * c0) h)).
  assert (E0 : chunk_field h0 0 SIZE_AND_USED = 2 * c0) by (unfold h0; rewrite header_ne by hdr; apply field_eq; lia).
  unfold set_chunk_used. rewrite E0, lor_one_even. cbv zeta. destruct SYS_HEAP_HARDENING_FULL eqn:HF; [|done].
  unfold set_chunk_canary, CONFIG_SYS_HEAP_CANARIES. rewrite HF. unfold set_canary, chunk_trailer, compute_canary.
  set (h1 := chunk_set 0 SIZE_AND_USED (2 * c0 + 1) h0). assert (E1 : chunk_size h1 0 = c0).
  { apply (size_of_field h1 0 c0 1); [lia|lia|]. unfold h1. apply field_eq. change (W h0) with (W h). lia. }
  by rewrite E1.
Qed.

(** All the headers, one write each. *)
Definition init_writes (h1 : z_heap) : z_heap :=
  let n := h.(end_chunk) in
  chunk_set n SIZE_AND_USED 1 (chunk_set n LEFT_SIZE (n - c0) (chunk_set n SIZE_AND_USED 0
    (chunk_set c0 LEFT_SIZE c0 (chunk_set c0 SIZE_AND_USED (2 * (n - c0)) h1)))).

Lemma init_headers_eq : init_headers = init_writes (mark_used 0 (set_left_chunk_size 0 0 (set_chunk_size 0 c0 h))).
Proof.
  pose proof (end_range h Hf). pose proof (min_chunk_width h). pose proof trailer_range. pose proof (width_cases h).
  unfold init_headers. cbv zeta. set (h1 := mark_used 0 _). assert (Hs1 : same_heap h h1).
  { unfold h1. rewrite init_mark. cbv zeta. by destruct SYS_HEAP_HARDENING_FULL. }
  unfold set_left_chunk_size, set_chunk_size. rewrite !(double_size h) by (done || lia). unfold init_writes. cbv zeta. unfold set_chunk_used at 1.
  rewrite header_ne by hdr. rewrite field_eq; [done|]. split; [lia|]. apply Z.pow_pos_nonneg; [lia|]. unfold W. lia.
Qed.

Lemma init_headers_ok A : h.(avail_buckets) = 0 -> h.(free_bytes) = 0 -> h.(allocated_bytes) = 0 -> (forall i, h.(buckets) i = 0) -> A = 0 ->
  inv init_headers A [Chunk 0 c0 Used; Chunk c0 (h.(end_chunk) - c0) Limbo].
Proof.
  intros Eav Efr Eal Ebu ->. pose proof (end_range h Hf) as He. pose proof (min_chunk_width h) as Hmin. pose proof trailer_range as Htr. pose proof (width_cases h) as Hw.
  rewrite init_headers_eq, init_mark. cbv zeta. set (h0 := chunk_set 0 SIZE_AND_USED (2 * c0 + 1) _).
  set (h1 := if SYS_HEAP_HARDENING_FULL then _ else h0). assert (Hs1 : same_heap h h1) by (unfold h1; by destruct SYS_HEAP_HARDENING_FULL).
  pose proof (field_fits h Hf c0 ltac:(lia)) as F0. pose proof (field_fits h Hf (h.(end_chunk) - c0) ltac:(lia)) as F1.
  assert (H0 : forall f, is_header f -> chunk_field h1 0 f = chunk_field h0 0 f).
  { intros f Hfh. apply field_ext; [unfold h1; by destruct SYS_HEAP_HARDENING_FULL|]. change (W h0) with (W h). change (heap_base h0) with (heap_base h).
    intros a Ha. unfold h1. destruct SYS_HEAP_HARDENING_FULL eqn:HF; [|done]. apply (st_ne 4).
    unfold trailer_at, CHUNK_TRAILER_SIZE, CONFIG_SYS_HEAP_CANARIES in *. rewrite HF in *. destruct Hfh as [-> | ->]; simpl in Ha; destruct Hw as [[E _]|[E _]]; rewrite E in *; lia. }
  set (h' := init_writes h1). assert (Hs : same_heap h h') by (etrans; [exact Hs1|done]).
  assert (Hout : forall a, a < h.(heap_base) + 8 * c0 -> h'.(hmem) a = h1.(hmem) a).
  { intros a Ha. unfold h', init_writes. cbv zeta. rewrite !field_other; try done; left; simpl;
      try change (heap_base (chunk_set _ _ _ _)) with (heap_base h1); rewrite (sh_base _ _ Hs1); change (W (chunk_set _ _ _ _)) with (W h1); rewrite ?(same_W _ _ Hs1); destruct Hw as [[-> _]|[-> _]]; lia. }
  assert (Hfe : forall hh c f v, same_heap h hh -> 0 <= v < 2 ^ (8 * W h) -> chunk_field (chunk_set c f v hh) c f = v).
  { intros hh c f v Hsh Hv. apply field_eq. by rewrite (same_W _ _ Hsh). }
  constructor.
  - by eapply same_fits.
  - rewrite (sh_end _ _ Hs). simpl. split_and!; try done; lia.
  - rewrite (sh_end _ _ Hs). cbn [heads pos size]. unfold used_bit. cbn [stat]. rewrite decide_True, decide_False by done. unfold h', init_writes. cbv zeta. split_and!.
    + rewrite !header_ne by hdr. rewrite H0 by hdr. unfold h0. rewrite header_ne by hdr. apply Hfe; [done|]. lia.
    + rewrite !header_ne by hdr. rewrite H0 by hdr. unfold h0. apply Hfe; [done|]. lia.
    + rewrite !header_ne by hdr. apply Hfe; [by etrans|lia].
    + rewrite !header_ne by hdr. rewrite Hfe; [lia|done|lia].
    + rewrite !header_ne by hdr. apply Hfe; [by etrans|lia].
    + apply Hfe; [by etrans|]. lia.
  - by eexists _, _.
  - intros c Hc Hu. rewrite (same_min _ _ Hs). rewrite !elem_of_cons, elem_of_nil in Hc. destruct Hc as [->|[->|[]]]; [simpl; lia|done].
  - rewrite (same_nb _ _ Hs). intros b Hb. exists []. split; [|done]. split; [done|]. assert (E1 : h'.(buckets) = h.(buckets) /\ h'.(avail_buckets) = h.(avail_buckets))
      by (unfold h', init_writes, h1; by destruct SYS_HEAP_HARDENING_FULL). destruct E1 as [-> ->]. by rewrite Ebu, Eav, Z.bits_0.
  - rewrite (same_nb _ _ Hs). assert (E1 : h'.(avail_buckets) = h.(avail_buckets)) by (unfold h', init_writes, h1; by destruct SYS_HEAP_HARDENING_FULL).
    rewrite E1, Eav. pose proof (nb_range h Hf). split; [done|]. apply Z.pow_pos_nonneg; lia.
  - intros HF c Hc Hu. rewrite !elem_of_cons, elem_of_nil in Hc. destruct Hc as [->|[->|[]]]; [|done]. unfold canary_ok. cbn [pos size].
    unfold CHUNK_TRAILER_SIZE, CONFIG_SYS_HEAP_CANARIES in *. rewrite HF in *. rewrite (sh_base _ _ Hs).
    rewrite (ld_ext 4 h1.(hmem)) by (intros x Hx; apply Hout; lia). unfold h1, canary_val, HEAP_CANARY_MAGIC. rewrite (sh_canary _ _ Hs). cbn [hmem set_hmem].
    unfold trailer_at, CHUNK_TRAILER_SIZE, CONFIG_SYS_HEAP_CANARIES. rewrite HF. apply (ld_st_eq 4). apply (canary_val_range h 0 c0 Hf); lia.
  - intros Hst. assert (E1 : h'.(free_bytes) = h.(free_bytes)) by (unfold h', init_writes, h1; by destruct SYS_HEAP_HARDENING_FULL). rewrite E1, Efr. unfold free_sum.
    rewrite !Zsum_cons. rewrite !(decide_False (P := listable h' _)) by (by intros [? _]). done.
  - intros Hst. assert (E1 : h'.(allocated_bytes) = h.(allocated_bytes)) by (unfold h', init_writes, h1; by destruct SYS_HEAP_HARDENING_FULL). by rewrite E1, Eal.
Qed.

End start.

Lemma init_range mem bytes : 0 < mem -> 8 <= bytes -> mem + bytes <= 2 ^ 32 -> 0 < init_end mem bytes ->
  0 < init_base mem /\ init_base mem mod 8 = 0 /\ init_base mem + 8 * init_end mem bytes + 8 <= 2 ^ 32 /\ init_end mem bytes <= bytes / CHUNK_UNIT.
Proof.
  intros Hm Hb Ht. unfold init_end, init_base, ROUND_UP, ROUND_DOWN, CHUNK_UNIT, heap_footer_bytes. rewrite u32_small by lia.
  destruct (big_heap_bytes bytes); Z.to_euclidean_division_equations; lia.
Qed.

Lemma init_eq mem bytes random m : let h := init_heap mem bytes random m in
  sys_heap_init mem bytes random m = free_list_add (init_chunk0 h) (init_headers h (init_chunk0 h)).
Proof.
  unfold sys_heap_init, init_headers, init_chunk0, nb_buckets, init_heap, init_end, init_base. cbv zeta. cbn [end_chunk]. reflexivity.
Qed.

(** A new heap: its own chunk, and one free chunk. *)
Lemma sys_heap_init_ok mem bytes random m : buffer_ok mem bytes random ->
  exists h, sys_heap_init mem bytes random m = Some h /\ h.(heap_base) = init_base mem /\ h.(end_chunk) = init_end mem bytes /\
    let c0 := init_chunk0 (init_heap mem bytes random m) in heap_ok h [Chunk 0 c0 Used; Chunk c0 (init_end mem bytes - c0) Free].
Proof.
  intros [(Hm1 & Hb8 & Hm2) Hsz Hsm Hrnd]. set (hz := init_heap mem bytes random m).
  set (hz0 := init_heap mem bytes random (fun _ => 0)) in Hsz. assert (Hs0 : same_heap hz0 hz) by done. cbv zeta in Hsz.
  assert (Ec : init_chunk0 hz = init_chunk0 hz0) by (unfold init_chunk0; by rewrite (same_nb _ _ Hs0)).
  rewrite <- Ec, <- (same_min _ _ Hs0), <- (sh_end _ _ Hs0) in Hsz. clear Ec. clearbody hz0. set (c0 := init_chunk0 hz) in *.
  assert (En : hz.(end_chunk) = init_end mem bytes) by done. pose proof (min_chunk_width hz) as Hmin. pose proof trailer_range as Htr. pose proof (width_cases hz) as Hw.
  assert (Hc : 0 <= c0).
  { unfold c0, init_chunk0, chunksz, CHUNK_UNIT. pose proof (u32_range (sizeof_z_heap + nb_buckets hz * 4 + 8 - 1)). Z.to_euclidean_division_equations. lia. }
  destruct (init_range mem bytes Hm1 Hb8 Hm2) as (R1 & R2 & R3 & R4); [rewrite <- En; lia|].
  assert (Hf : heap_fits hz).
  { split; [done|split; [lia|exact R3]| |done]. change (end_chunk hz) with (init_end mem bytes). unfold big_heap, big_heap_chunks. change (end_chunk hz) with (init_end mem bytes).
    destruct CONFIG_SYS_HEAP_SMALL_ONLY; [intros _; specialize (Hsm eq_refl); lia|]. destruct CONFIG_SYS_HEAP_BIG_ONLY; [done|]. by intros ?%Z.ltb_ge. }
  assert (Hc0 : min_chunk_size hz <= c0 < hz.(end_chunk)).
  { split; [|lia]. pose proof (nb_range hz Hf) as Hnb. unfold c0, init_chunk0, chunksz, CHUNK_UNIT, sizeof_z_heap.
    assert (16 <= 16 + (if CONFIG_SYS_HEAP_RUNTIME_STATS then 12 else 0) + (if CONFIG_SYS_HEAP_CANARIES && CONFIG_SYS_HEAP_CANARIES_RANDOM then 4 else 0) <= 32) as Hsz0
      by (destruct CONFIG_SYS_HEAP_RUNTIME_STATS, (CONFIG_SYS_HEAP_CANARIES && CONFIG_SYS_HEAP_CANARIES_RANDOM); lia).
    set (z := 16 + _ + _) in *. clearbody z. rewrite u32_small by lia. assert (2 <= (z + nb_buckets hz * 4 + 8 - 1) / 8) by (Z.to_euclidean_division_equations; lia). lia. }
  pose proof (init_headers_ok hz c0 Hf Hc0 0 eq_refl eq_refl eq_refl (fun _ => eq_refl) eq_refl) as Hi.
  change [Chunk 0 c0 Used; Chunk c0 (end_chunk hz - c0) Limbo] with ([Chunk 0 c0 Used] ++ [Chunk c0 (end_chunk hz - c0) Limbo]) in Hi.
  destruct (free_list_add_ok _ _ _ _ _ _ Hi) as (h & Ha & Hi' & Hk). exists h. rewrite init_eq. split; [exact Ha|].
  assert (Hsm' : same_heap hz h).
  { etrans; [|apply Hk]. rewrite (init_headers_eq _ _ Hf Hc0). etrans; [|unfold init_writes; done]. rewrite (init_mark _ _ Hf Hc0). cbv zeta. by destruct SYS_HEAP_HARDENING_FULL. }
  split; [apply (sh_base _ _ Hsm')|]. split; [apply (sh_end _ _ Hsm')|]. cbv zeta. fold hz. fold c0. split.
  - exact Hi'.
  - intros c Hin. rewrite !elem_of_cons, elem_of_nil in Hin. destruct Hin as [->|[->|[]]]; done.
  - simpl. tauto.
Qed.

End init.
