(* ===== verification/HeapProps.v ===== *)
(** What the users of a heap can rely on. *)

From S2P Require Import Prelude MathExtras Ring HeapMem Heap HeapInv HeapStep HeapList HeapCheck HeapOps HeapAlloc HeapRealloc HeapInit.

#[local] Open Scope Z_scope.

(** ** Users *)

(** A block a user holds, with the bytes the user expects in it. *)
Record block := Block { addr : Z; data : list Z }.
Inductive request :=
| RAlloc (n : Z)
| RAligned (align n : Z)
| RFree (i : nat)
| RRealloc (i : nat) (n : Z)
| RAlignedRealloc (i : nat) (align n : Z)
| RWrite (i off : nat) (v : Z).

Section props.
Context `{HC : HeapConfig}.

(** The blocks after a request, the one it was about first.  A new block has the bytes found
    there, a resized one those of the old as far as both go. *)
Definition granted_block (n mem : Z) (m : memory) (B : list block) : list block :=
  if mem =? 0 then B else Block mem (bytes m mem (Z.to_nat n)) :: B.
Definition resized_block (b : block) (n mem : Z) (m : memory) : block :=
  let k := Nat.min (length b.(data)) (Z.to_nat n) in
  Block mem (take k b.(data) ++ bytes m (mem + Z.of_nat k) (Z.to_nat n - k)).
Definition resized_blocks (i : nat) (b : block) (n mem : Z) (m : memory) (B : list block) : list block :=
  if n =? 0 then delete i B else if mem =? 0 then B else resized_block b n mem m :: delete i B.

(** A request served by the heap. *)
Definition serve (r : request) (h : z_heap) (B : list block) : option (z_heap * list block) :=
  match r with
  | RAlloc n => '(mem, h) ← sys_heap_alloc n h; Some (h, granted_block n mem h.(hmem) B)
  | RAligned align n => '(mem, h) ← sys_heap_aligned_alloc align n h; Some (h, granted_block n mem h.(hmem) B)
  | RFree i => b ← B !! i; h ← sys_heap_free b.(addr) h; Some (h, delete i B)
  | RRealloc i n => b ← B !! i; '(mem, h) ← sys_heap_realloc b.(addr) n h; Some (h, resized_blocks i b n mem h.(hmem) B)
  | RAlignedRealloc i align n =>
      b ← B !! i; '(mem, h) ← sys_heap_aligned_realloc b.(addr) align n h; Some (h, resized_blocks i b n mem h.(hmem) B)
  | RWrite i off v =>
      b ← B !! i; Some (set_hmem (upd (b.(addr) + Z.of_nat off) v h.(hmem)) h, Block b.(addr) (<[off := v]> b.(data)) :: delete i B)
  end.

(** The gap of [mem_align_gap] is the one the address has. *)
Definition gap_exact (h : z_heap) (mem : Z) : Prop := mem_align_gap h mem = (mem - chunk_header_bytes h - h.(heap_base)) mod 8.
(** What the users owe: sizes that are [size_t]s, alignments as documented, blocks they hold. *)
Definition allowed (r : request) (h : z_heap) (B : list block) : Prop :=
  match r with
  | RAlloc n => 0 <= n < 2 ^ 32
  | RAligned align n => 0 <= n < 2 ^ 32 /\ exists al rew, align_request align al rew /\ h.(heap_base) + 8 * h.(end_chunk) + 8 + rew <= 2 ^ 32
  | RFree i => (i < length B)%nat
  | RRealloc i n => 0 <= n < 2 ^ 32 /\ exists b, B !! i = Some b /\ gap_exact h b.(addr)
  | RAlignedRealloc i align n => 0 <= n < 2 ^ 32 /\ (exists b, B !! i = Some b /\ gap_exact h b.(addr)) /\
      (align = 0 \/ exists k, 0 <= k < 32 /\ align = 2 ^ k)
  | RWrite i off v => exists b, B !! i = Some b /\ (off < length b.(data))%nat
  end.

Inductive heap_run (h0 : z_heap) : list request -> z_heap -> list block -> Prop :=
| run_start : heap_run h0 [] h0 []
| run_serve rs r h B h' B' : heap_run h0 rs h B -> allowed r h B -> serve r h B = Some (h', B') -> heap_run h0 (rs ++ [r]) h' B'.

(** The blocks lie in the heap, apart from each other, and hold what was written to them. *)
Definition sound (h : z_heap) (B : list block) : Prop :=
  (forall b, b ∈ B -> h.(heap_base) < b.(addr) /\ b.(addr) + Z.of_nat (length b.(data)) <= h.(heap_base) + 8 * h.(end_chunk) /\
    bytes h.(hmem) b.(addr) (length b.(data)) = b.(data)) /\
  forall i j b c, i <> j -> B !! i = Some b -> B !! j = Some c ->
    apart b.(addr) (Z.of_nat (length b.(data))) c.(addr) (Z.of_nat (length c.(data))).

(** ** The invariant *)

Definition holds (h : z_heap) (c : chunk) (b : block) : Prop :=
  c.(stat) = Used /\ live h c.(pos) c.(size) b.(addr) (Z.of_nat (length b.(data))) /\ bytes h.(hmem) b.(addr) (length b.(data)) = b.(data).
(** The heap [h] that [hz] has become, its own chunk [c0] and the blocks. *)
Definition rep (hz : z_heap) (c0 : chunk) (h : z_heap) (B : list block) : Prop :=
  same_heap hz h /\ c0.(pos) = 0 /\ exists cs us, heap_ok h cs /\ used_of cs ≡ₚ c0 :: us /\ Forall2 (holds h) us B.

Lemma holds_keep h h' us c b : keeps h h' us -> c ∈ us -> holds h c b -> holds h' c b.
Proof.
  intros Hk Hc (Hu & (L1 & L2 & L3 & L4) & Hd). pose proof (proj1 Hk) as Hs. destruct c as [p s u]. cbn [pos size stat] in *. subst u.
  split; [done|]. split.
  - split; [done|]. split; [by eapply same_points|]. split; [done|]. by rewrite (same_block_end _ _ _ _ Hs).
  - etrans; [|exact Hd]. apply bytes_ext. intros x Hx. apply (keeps_user h h' us p s x Hk Hc). by eapply block_user.
Qed.

Lemma held_keep h h' us B : keeps h h' us -> Forall2 (holds h) us B -> Forall2 (holds h') us B.
Proof.
  intros Hk Hf. apply Forall2_same_length_lookup in Hf as [Hl Hf]. apply Forall2_same_length_lookup. split; [done|].
  intros i c b Hc Hb. eapply (holds_keep h); [exact Hk|by apply list_elem_of_lookup_2 in Hc|by eapply Hf].
Qed.

Lemma rep_keep hz c0 h h' cs us B : same_heap hz h -> c0.(pos) = 0 -> heap_ok h' cs -> used_of cs ≡ₚ c0 :: us -> keeps h h' (c0 :: us) -> Forall2 (holds h) us B -> rep hz c0 h' B.
Proof.
  intros Hz H0 Ho Hu Hk Hf. split; [etrans; [exact Hz|apply Hk]|]. split; [done|]. exists cs, us. split; [done|]. split; [done|]. eapply held_keep; [|exact Hf].
  eapply keeps_weaken; [exact Hk|]. by intros; right.
Qed.

(** *** Allocation *)

Lemma granted_rep hz c0 h h' cs us B n mem sz : same_heap hz h -> c0.(pos) = 0 -> heap_ok h cs -> used_of cs ≡ₚ c0 :: us -> Forall2 (holds h) us B -> 1 <= n ->
  keeps h h' cs -> granted h h' cs mem n sz -> rep hz c0 h' (granted_block n mem h'.(hmem) B).
Proof.
  intros Hz H0 Ho Hu Hf Hn Hk Hg. assert (Hku : keeps h h' (c0 :: us)).
  { eapply keeps_weaken; [by apply keeps_used|]. intros x Hx _. by rewrite Hu. }
  unfold granted_block. destruct Hg as [(-> & Ho' & _)|(a & p & s & b & Ho' & Ha & Hua & Hpt & Hend)]; [by eapply rep_keep|].
  pose proof (proj1 Hk) as Hs. pose proof (pos_later _ _ _ _ _ (ho_inv _ _ Ho') Ha) as Hp. cbn [pos] in Hp.
  assert (Hm : mem <> 0) by (eapply points_chunk; [apply Ho'|by eapply same_points]). destruct (Z.eqb_spec mem 0); [done|].
  split; [by etrans|]. split; [done|]. exists (a ++ Chunk p s Used :: b), (Chunk p s Used :: us). split; [done|]. split.
  - rewrite (used_mid a (Chunk p s Used)), <- Hua, Hu by done. apply Permutation_swap.
  - constructor; [|eapply held_keep; [|exact Hf]; eapply keeps_weaken; [exact Hku|]; by intros; right]. split; [done|]. cbn [addr data pos size].
    rewrite bytes_length. split; [|done]. rewrite Z2Nat.id by lia. split; [done|]. split; [by eapply same_points|]. split; [done|].
    by rewrite (same_block_end _ _ _ _ Hs).
Qed.

(** *** Blocks that are given back or resized *)

Lemma held_block h us B i b : Forall2 (holds h) us B -> B !! i = Some b ->
  exists p s us', us ≡ₚ Chunk p s Used :: us' /\ Forall2 (holds h) us' (delete i B) /\ holds h (Chunk p s Used) b.
Proof.
  intros Hf Hb. destruct (Forall2_lookup_r _ _ _ _ _ Hf Hb) as ([p s u] & Hc & Hh). pose proof Hh as [Hu _]. cbn [stat] in Hu. subst u.
  exists p, s, (delete i us). split; [by apply delete_Permutation|]. split; [by apply Forall2_delete|done].
Qed.

Lemma exact_gap h mem p : points_to h mem p -> gap_exact h mem -> gap_ok h mem p.
Proof.
  intros (g & Hg & E) He. unfold gap_ok. rewrite He, E. unfold chunk_mem, CHUNK_UNIT in *.
  replace (heap_base h + 8 * p + chunk_header_bytes h + g - chunk_header_bytes h - heap_base h) with (p * 8 + g) by lia.
  rewrite (Z.add_comm (p * 8) g), Z.mod_add, Z.mod_small by lia. lia.
Qed.

Lemma free_rep hz c0 h B i b : rep hz c0 h B -> B !! i = Some b -> exists h', sys_heap_free b.(addr) h = Some h' /\ rep hz c0 h' (delete i B).
Proof.
  intros (Hz & H0 & cs & us & Ho & Hu & Hf) Hb. destruct (held_block _ _ _ _ _ Hf Hb) as (p & s & us' & Hus & Hfd & (_ & (L1 & L2 & _) & _)). cbn [pos size] in *.
  assert (Hin : Chunk p s Used ∈ used_of cs) by (rewrite Hu, Hus; right; by left). apply used_elem in Hin as [_ Hin]. apply list_elem_of_split in Hin as (a & b' & E).
  assert (Ha : a <> []). { intros ->. pose proof (iv_tiles _ _ _ (ho_inv _ _ Ho)) as Ht. rewrite E in Ht. destruct Ht as [Ht _]. simpl in Ht. lia. }
  destruct (sys_heap_free_ok h cs a p s b' b.(addr) Ho E Ha L2) as (h' & cs' & -> & Ho' & Hu' & Hk). exists h'. split; [done|].
  assert (Hpm : used_of cs' ≡ₚ c0 :: us').
  { rewrite Hu'. apply (Permutation_cons_inv (a := Chunk p s Used)). rewrite <- (used_mid a (Chunk p s Used)), <- E, Hu, Hus by done. apply Permutation_swap. }
  eapply (rep_keep hz c0 h h' cs' us'); try done. eapply keeps_weaken; [exact Hk|]. intros x Hx _.
  rewrite <- Hpm, Hu', <- used_of_app in Hx. by apply used_elem in Hx as [_ ?].
Qed.

Lemma moved_rep hz c0 h h' us us' B i b p s n mem : same_heap hz h -> c0.(pos) = 0 -> Forall2 (holds h) us B -> us ≡ₚ Chunk p s Used :: us' ->
  Forall2 (holds h) us' (delete i B) -> holds h (Chunk p s Used) b -> 1 <= n -> moved h h' (c0 :: us') p s b.(addr) n mem -> rep hz c0 h' (resized_blocks i b n mem h'.(hmem) B).
Proof.
  intros Hz H0 Hf Hus Hfd (_ & (M1 & M2 & M3 & M4) & Hd) Hn Hm. cbn [pos size] in *. unfold resized_blocks. destruct (Z.eqb_spec n 0); [lia|].
  destruct Hm as [(-> & cs' & Ho' & Hu' & Hk)|(q & t & cs' & (L1 & L2 & L3 & L4) & Ho' & Hu' & Hk & Hx)].
  - cbn [Z.eqb]. eapply (rep_keep hz c0 h h' cs' us); try done; [rewrite Hu', Hus; apply Permutation_swap|]. eapply keeps_weaken; [exact Hk|].
    intros x Hx _. rewrite !elem_of_cons in *. destruct Hx as [->|Hx]; [tauto|]. rewrite Hus, elem_of_cons in Hx. tauto.
  - destruct (Z.eqb_spec mem 0); [done|]. split; [etrans; [exact Hz|apply Hk]|]. split; [done|]. exists cs', (Chunk q t Used :: us'). split; [done|]. split; [rewrite Hu'; apply Permutation_swap|].
    pose proof (proj1 Hk) as Hs. constructor; [|eapply held_keep; [|exact Hfd]; eapply keeps_weaken; [exact Hk|]; by intros; right].
    set (k := Nat.min (length (data b)) (Z.to_nat n)). assert (Hlen : length (data (resized_block b n mem (hmem h'))) = Z.to_nat n).
    { unfold resized_block. cbn [data]. rewrite length_app, length_take, bytes_length. lia. }
    split; [done|]. rewrite Hlen, Z2Nat.id by lia. cbn [addr resized_block pos size]. split.
    + split; [done|]. split; [by eapply same_points|]. split; [done|]. by rewrite (same_block_end _ _ _ _ Hs).
    + unfold resized_block. cbn [data]. fold k. replace (Z.to_nat n) with (k + (Z.to_nat n - k))%nat at 1 by lia. rewrite bytes_app. f_equal.
      rewrite <- Hd at 1. replace (length (data b)) with (k + (length (data b) - k))%nat by lia. rewrite bytes_app, take_app_length' by (by rewrite bytes_length).
      unfold bytes. apply map_ext_in. intros j Hj%in_seq. rewrite (Hx (Z.of_nat j)); [done|lia].
Qed.

Lemma bytes_lookup m a n j : (j < n)%nat -> bytes m a n !! j = Some (m (a + Z.of_nat j)).
Proof. intros Hj. unfold bytes. rewrite list_lookup_fmap, lookup_seq_lt by done. done. Qed.

Lemma bytes_upd m a n off v : (off < n)%nat -> bytes (upd (a + Z.of_nat off) v m) a n = <[off := v]> (bytes m a n).
Proof.
  intros Ho. apply (list_eq_same_length _ _ n); [by rewrite length_insert, bytes_length|by rewrite bytes_length|].
  intros j x y Hj Hx Hy. rewrite bytes_lookup in Hx by done. simplify_eq. destruct (decide (j = off)) as [->|Hne].
  - rewrite list_lookup_insert_eq in Hy by (by rewrite bytes_length). simplify_eq. apply upd_eq.
  - rewrite list_lookup_insert_ne, bytes_lookup in Hy by done. simplify_eq. apply upd_ne. lia.
Qed.

(** Whatever a user writes to a block. *)
Lemma stores_rep hz c0 h B i b m : rep hz c0 h B -> B !! i = Some b ->
  (forall x, ~ (b.(addr) <= x < b.(addr) + Z.of_nat (length b.(data))) -> m x = h.(hmem) x) ->
  rep hz c0 (set_hmem m h) (Block b.(addr) (bytes m b.(addr) (length b.(data))) :: delete i B).
Proof.
  intros (Hz & H0 & cs & us & Ho & Hu & Hf) Hb Hm. destruct (held_block _ _ _ _ _ Hf Hb) as (p & s & us' & Hus & Hfd & (_ & (L1 & L2 & L3 & L4) & Hd)). cbn [pos size] in *.
  assert (Hin : Chunk p s Used ∈ used_of cs) by (rewrite Hu, Hus; right; by left). apply used_elem in Hin as [_ Hin]. apply list_elem_of_split in Hin as (a & b' & E).
  rewrite E in Ho. destruct (user_write_ok h a p s b' m Ho) as [Ho' Hk].
  { intros x Hx. apply Hm. intros Hin. apply Hx. by eapply block_user. }
  set (h' := set_hmem _ h) in *. split; [by etrans|]. split; [done|]. exists (a ++ Chunk p s Used :: b'), (Chunk p s Used :: us'). split; [done|].
  rewrite E in Hu. split; [by rewrite Hu, Hus|]. constructor.
  - split; [done|]. cbn [addr data pos size]. by rewrite bytes_length.
  - eapply held_keep; [|exact Hfd]. eapply keeps_weaken; [exact Hk|]. intros x Hx Hxu. assert (Hx' : x ∈ used_of (a ++ Chunk p s Used :: b')).
    { rewrite Hu, Hus. do 2 right. done. }
    apply used_elem in Hx' as [_ Hx']. apply elem_mid_inv in Hx' as [->|]; [|done]. exfalso.
    assert (Hnd : NoDup (c0 :: Chunk p s Used :: us')).
    { rewrite <- Hus, <- Hu. apply NoDup_filter. eapply chunks_nodup, (ho_inv _ _ Ho). }
    apply NoDup_cons in Hnd as [_ Hnd]. by apply NoDup_cons in Hnd as [Hnd _].
Qed.

Lemma write_rep hz c0 h B i b off v : rep hz c0 h B -> B !! i = Some b -> (off < length b.(data))%nat ->
  rep hz c0 (set_hmem (upd (b.(addr) + Z.of_nat off) v h.(hmem)) h) (Block b.(addr) (<[off := v]> b.(data)) :: delete i B).
Proof.
  intros Hr Hb Hoff. assert (Hd : bytes h.(hmem) b.(addr) (length b.(data)) = b.(data)).
  { destruct Hr as (_ & _ & cs & us & _ & _ & Hf). by destruct (held_block _ _ _ _ _ Hf Hb) as (p & s & us' & _ & _ & (_ & _ & Hd)). }
  pose proof (stores_rep hz c0 h B i b (upd (b.(addr) + Z.of_nat off) v h.(hmem)) Hr Hb) as H. rewrite bytes_upd, Hd in H by done.
  apply H. intros x Hx. apply upd_ne. lia.
Qed.

Lemma aligned_alloc_zero align h : sys_heap_aligned_alloc align 0 h = Some (0, h).
Proof. unfold sys_heap_aligned_alloc. cbv zeta. destruct (negb _ || _); [|done]. by destruct (negb _). Qed.

(** Every request that is allowed is served, and leaves the blocks as they should be. *)
Lemma serve_ok hz c0 h B r : rep hz c0 h B -> allowed r h B -> exists h' B', serve r h B = Some (h', B') /\ rep hz c0 h' B'.
Proof.
  intros Hr Ha. pose proof Hr as (Hz & H0 & cs & us & Ho & Hu & Hf). destruct r as [n|align n|i|i n|i align n|i off v]; cbn [serve allowed] in *.
  - destruct (decide (n = 0)) as [->|Hn]; [by exists h, B|]. destruct (sys_heap_alloc_ok h cs n Ho) as (mem & h' & -> & Hk & Hg & _); [lia|].
    eexists _, _. split; [done|]. eapply granted_rep; try done. lia.
  - destruct Ha as (Hn0 & al & rew & Hal & Htop). destruct (decide (n = 0)) as [->|Hn]; [exists h, B; by rewrite aligned_alloc_zero|].
    destruct (aligned_alloc_ok h cs align al rew n Ho) as (mem & h' & pad & -> & Hk & _ & Hg & _); [lia|done|done|].
    eexists _, _. split; [done|]. eapply granted_rep; try done. lia.
  - apply lookup_lt_is_Some in Ha as [b Hb]. rewrite Hb. simpl. destruct (free_rep hz c0 h B i b Hr Hb) as (h' & -> & Hr'). by exists h', (delete i B).
  - destruct Ha as (Hn0 & b & Hb & Hg). rewrite Hb. cbn [mbind option_bind]. 
    destruct (held_block _ _ _ _ _ Hf Hb) as (p & s & us' & Hus & Hfd & Hh). pose proof Hh as (_ & (L1 & L2 & L3 & L4) & _). cbn [pos size] in *.
    destruct (decide (n = 0)) as [->|Hn].
    + unfold sys_heap_realloc. destruct (Z.eqb_spec (addr b) 0); [done|]. destruct (free_rep hz c0 h B i b Hr Hb) as (h' & E & Hr'). cbn [Z.eqb]. rewrite E. by exists h', (delete i B).
    + destruct (sys_heap_realloc_ok h cs (c0 :: us') p s (addr b) n Ho) as (mem & h' & -> & Hm); try done; [by rewrite Hu, Hus, Permutation_swap|by apply exact_gap|lia|lia|].
      eexists _, _. split; [done|]. eapply moved_rep; try done. lia.
  - destruct Ha as (Hn0 & (b & Hb & Hg) & Hal). rewrite Hb. cbn [mbind option_bind].
    destruct (held_block _ _ _ _ _ Hf Hb) as (p & s & us' & Hus & Hfd & Hh). pose proof Hh as (_ & (L1 & L2 & L3 & L4) & _). cbn [pos size] in *.
    destruct (decide (n = 0)) as [->|Hn].
    + unfold sys_heap_aligned_realloc. destruct (Z.eqb_spec (addr b) 0); [done|]. destruct (free_rep hz c0 h B i b Hr Hb) as (h' & E & Hr'). cbn [Z.eqb]. rewrite E. by exists h', (delete i B).
    + destruct (aligned_realloc_ok h cs (c0 :: us') p s (addr b) align n Ho) as (mem & h' & -> & Hm & _); try done; [by rewrite Hu, Hus, Permutation_swap|by apply exact_gap|lia|lia|].
      eexists _, _. split; [done|]. eapply moved_rep; try done. lia.
  - destruct Ha as (b & Hb & Hoff). rewrite Hb. eexists _, _. split; [done|]. by apply write_rep.
Qed.

Lemma rep_sound hz c0 h B : rep hz c0 h B -> sound h B.
Proof.
  intros (_ & H0 & cs & us & Ho & Hu & Hf). pose proof (ho_inv _ _ Ho) as Hi.
  assert (Hmem : forall c, c ∈ us -> c ∈ cs) by (intros c Hc; assert (Hc' : c ∈ used_of cs) by (rewrite Hu; by right); by apply used_elem in Hc' as [_ ?]).
  assert (Hnd : NoDup us).
  { assert (Hnd : NoDup (c0 :: us)) by (rewrite <- Hu; apply NoDup_filter; eapply chunks_nodup, Hi). by apply NoDup_cons in Hnd as [_ ?]. }
  assert (Hspan : forall c b, c ∈ us -> holds h c b -> h.(heap_base) + 8 * c.(pos) < b.(addr) /\ b.(addr) + Z.of_nat (length (data b)) <= h.(heap_base) + 8 * (c.(pos) + c.(size))).
  { intros c b Hc (_ & (L1 & (g & Hg & E) & _ & L4) & _). unfold chunk_mem, CHUNK_UNIT, block_end in *. pose proof (header_cases h). pose proof trailer_range. lia. }
  apply Forall2_same_length_lookup in Hf as [Hl Hf]. split.
  - intros b Hb. apply list_elem_of_lookup in Hb as [i Hb]. destruct (lookup_lt_is_Some_2 us i) as [c Hc]; [rewrite Hl; by eapply lookup_lt_Some|].
    pose proof (Hf i c b Hc Hb) as Hh. pose proof (list_elem_of_lookup_2 _ _ _ Hc) as Hcin. destruct (Hspan c b Hcin Hh) as [S1 S2].
    pose proof (chunk_range Hi c (Hmem c Hcin)). split; [lia|]. split; [lia|]. apply Hh.
  - intros i j b c Hij Hb Hc. destruct (lookup_lt_is_Some_2 us i) as [x Hx]; [rewrite Hl; by eapply lookup_lt_Some|].
    destruct (lookup_lt_is_Some_2 us j) as [y Hy]; [rewrite Hl; by eapply lookup_lt_Some|].
    pose proof (list_elem_of_lookup_2 _ _ _ Hx) as Hxin. pose proof (list_elem_of_lookup_2 _ _ _ Hy) as Hyin.
    destruct (Hspan x b Hxin (Hf _ _ _ Hx Hb)) as [S1 S2]. destruct (Hspan y c Hyin (Hf _ _ _ Hy Hc)) as [S3 S4].
    destruct (tiles_sep _ _ _ x y (iv_tiles _ _ _ Hi) (Hmem x Hxin) (Hmem y Hyin)) as [->|[|]]; [|left; lia|right; lia].
    destruct Hij. by eapply NoDup_lookup.
Qed.

Lemma run_rep mem bytes random m h0 rs h B : buffer_ok mem bytes random -> sys_heap_init mem bytes random m = Some h0 -> heap_run h0 rs h B ->
  rep h0 (Chunk 0 (init_chunk0 (init_heap mem bytes random m)) Used) h B /\ h0.(heap_base) = init_base mem /\ h0.(end_chunk) = init_end mem bytes.
Proof.
  intros Hb Hi Hr. destruct (sys_heap_init_ok mem bytes random m Hb) as (h1 & E & B1 & B2 & Ho). rewrite E in Hi. simplify_eq. split; [|done].
  induction Hr as [|rs r h B h' B' Hr IH Hal Hs].
  - split; [done|]. split; [done|]. eexists _, []. split; [exact Ho|]. split; [|constructor]. by rewrite used_of_used, used_of_free.
  - destruct (serve_ok _ _ _ _ _ IH Hal) as (h2 & B2' & E2 & Hrep). by simplify_eq.
Qed.

Lemma init_inside mem bytes random : buffer_ok mem bytes random ->
  mem <= init_base mem /\ init_base mem + 8 * init_end mem bytes <= mem + bytes.
Proof.
  intros [(H1 & H2 & H3) _ _ _]. unfold init_end, init_base, ROUND_UP, ROUND_DOWN, CHUNK_UNIT. rewrite u32_small by lia.
  unfold heap_footer_bytes. destruct (big_heap_bytes bytes); Z.to_euclidean_division_equations; lia.
Qed.


(** C19. The validator ends within as many rounds of each loop as the heap has units, accepts
    every heap that its users can reach, statistics included, and puts back every bit
    it changes. *)
Theorem validator_accepts mem bytes random m h0 rs h B fuel : buffer_ok mem bytes random -> sys_heap_init mem bytes random m = Some h0 -> heap_run h0 rs h B ->
  (Z.to_nat h.(end_chunk) < fuel)%nat -> exists h' cs, sys_heap_validate fuel h = Some (true, h') /\ heap_ok h cs /\ heap_eq cs h h'.
Proof.
  intros Hb Hi Hr Hf. destruct (run_rep _ _ _ _ _ _ _ _ Hb Hi Hr) as ((_ & _ & cs & us & Ho & _) & _ & _).
  destruct (validate_ok h cs fuel Ho Hf) as (h' & E & He). eauto.
Qed.

(** When nothing is allocated besides the heap's own chunk there is one free chunk. *)
Lemma empty_layout h cs c0 : heap_ok h cs -> c0.(pos) = 0 -> c0.(size) < h.(end_chunk) -> used_of cs ≡ₚ [c0] ->
  cs = [c0; Chunk c0.(size) (h.(end_chunk) - c0.(size)) Free].
Proof.
  intros Ho H0 Hlt Hu. pose proof (ho_inv _ _ Ho) as Hi. destruct (iv_first _ _ _ Hi) as (x & r & E & Hx). pose proof (iv_tiles _ _ _ Hi) as Ht.
  pose proof (ho_coalesced _ _ Ho) as Hco. pose proof (ho_limbo _ _ Ho) as Hnl. subst cs. unfold used_of in Hu. rewrite filter_cons_True in Hu by done.
  apply Permutation_singleton_r in Hu. injection Hu as -> Hr. destruct Ht as (_ & _ & Ht). destruct Hco as [_ Hco].
  assert (Hfree : forall y, y ∈ r -> y.(stat) = Free).
  { intros y Hy. destruct (stat y) eqn:Ey; [|done|by destruct (Hnl y ltac:(by right))]. exfalso.
    assert (Hin : y ∈ filter is_used r) by (by apply list_elem_of_filter). rewrite Hr in Hin. by apply elem_of_nil in Hin. }
  destruct r as [|y r]; [simpl in Ht; lia|]. destruct Ht as (Ey & _ & Ht). destruct Hco as [[Hu|Hs] _]; [by rewrite Hfree in Hu by (by left)|].
  destruct r as [|z r]; [|simpl in Hs; by rewrite Hfree in Hs by (right; by left)]. simpl in Ht. specialize (Hfree y ltac:(by left)).
  destruct y as [q t u]. cbn [pos size stat] in *. subst u. do 2 f_equal. f_equal; lia.
Qed.

(** C17. When the users have given back every block, the free chunks have merged again: the
    heap consists of its own chunk and one free chunk, as after [sys_heap_init], with
    the same counts of free and allocated bytes. *)
Theorem free_all_restores mem bytes random m h0 rs h : buffer_ok mem bytes random -> sys_heap_init mem bytes random m = Some h0 -> heap_run h0 rs h [] ->
  let c0 := init_chunk0 (init_heap mem bytes random m) in let cs := [Chunk 0 c0 Used; Chunk c0 (init_end mem bytes - c0) Free] in
  heap_ok h0 cs /\ heap_ok h cs /\
  (CONFIG_SYS_HEAP_RUNTIME_STATS = true -> h.(free_bytes) = h0.(free_bytes) /\ h.(allocated_bytes) = 0).
Proof.
  intros Hb Hi Hr c0 cs. destruct (run_rep _ _ _ _ _ _ _ _ Hb Hi Hr) as ((Hz & H0 & cs' & us & Ho & Hu & Hf) & B1 & B2).
  destruct (sys_heap_init_ok mem bytes random m Hb) as (h1 & E & _ & _ & Ho0). rewrite E in Hi. simplify_eq. fold c0 in Ho0, Hu. fold cs in Ho0.
  apply Forall2_nil_inv_r in Hf. subst us. pose proof (ho_inv _ _ Ho0) as Hi0. assert (Hlt : c0 < h.(end_chunk)).
  { pose proof (chunk_range Hi0 (Chunk c0 (init_end mem bytes - c0) Free) ltac:(right; by left)) as Hr'. cbn [pos size] in Hr'. rewrite (sh_end _ _ Hz). lia. }
  pose proof (empty_layout h cs' _ Ho H0 Hlt Hu) as Ec. cbn [size] in Ec. rewrite (sh_end _ _ Hz), B2 in Ec. subst cs'. fold cs in Ho.
  split; [done|]. split; [done|]. intros Hst. split.
  - rewrite (iv_free _ _ _ (ho_inv _ _ Ho) Hst), (iv_free _ _ _ Hi0 Hst). by rewrite (same_free_sum _ _ _ Hz).
  - by rewrite (iv_alloc _ _ _ (ho_inv _ _ Ho) Hst).
Qed.

(** C18. An allocation gives a block with the alignment and rewind asked for.  It gives none only
    when every free chunk is too small for the request and its padding, or hides in the
    one bucket of that size behind as many chunks as the search looks at. *)
Theorem aligned_alloc_contract mem bytes random m h0 rs h B align al rew n : buffer_ok mem bytes random -> sys_heap_init mem bytes random m = Some h0 ->
  heap_run h0 rs h B -> 1 <= n < 2 ^ 32 -> align_request align al rew -> h.(heap_base) + 8 * h.(end_chunk) + 8 + rew <= 2 ^ 32 ->
  exists ptr h' cs, sys_heap_aligned_alloc align n h = Some (ptr, h') /\ heap_ok h cs /\ (ptr <> 0 -> (ptr + rew) mod al = 0) /\
    (ptr = 0 -> exists pad, 0 <= pad < al /\ no_room h cs (bytes_to_chunksz h n pad)).
Proof.
  intros Hb Hi Hr Hn Hal Htop. destruct (run_rep _ _ _ _ _ _ _ _ Hb Hi Hr) as ((_ & _ & cs & us & Ho & _) & _ & _).
  destruct (aligned_alloc_ok h cs align al rew n Ho Hn Hal Htop) as (ptr & h' & pad & E & _ & Hp & Hg & Hmod). exists ptr, h', cs. split; [done|]. split; [done|]. split.
  - intros Hne. by destruct Hmod.
  - intros ->. exists pad. split; [done|]. destruct Hg as [(_ & _ & Hg)|(a & p & s & b & Ho' & _ & _ & Hpt & _)]; [done|]. exfalso.
    destruct Hpt as (g & Hgr & E0). unfold chunk_mem, CHUNK_UNIT in E0. pose proof (range_at (ho_inv _ _ Ho') (elem_mid _ _ _)) as Hrg.
    pose proof (hf_base _ (iv_fits _ _ _ (ho_inv _ _ Ho))) as [Hbp _]. pose proof (header_cases h). lia.
Qed.

(** ** Hardening *)

Lemma free_chunk_freed h A a p s b : inv h A (a ++ Chunk p s Free :: b) -> SYS_HEAP_HARDENING_BASIC = true -> used_chunk_check p h = None.
Proof.
  intros Hi Hl. unfold used_chunk_check. destruct (if SYS_HEAP_HARDENING_FULL then _ else _) as [[]|]; [|done]. rewrite bind_some.
  rewrite (used_at Hi (elem_mid _ _ _)), bool_decide_false, Hl by done. done.
Qed.

(** The check of a chunk whose canary was overwritten. *)
Lemma canary_broken h A a p s b m : inv h A (a ++ Chunk p s Used :: b) -> SYS_HEAP_HARDENING_FULL = true ->
  (forall x, h.(heap_base) + 8 * p <= x < h.(heap_base) + 8 * p + 2 * W h -> m x = h.(hmem) x) ->
  ld 4 m (trailer_at h p s) <> ld 4 h.(hmem) (trailer_at h p s) -> used_chunk_check p (set_hmem m h) = None.
Proof.
  intros Hi HF Hm Hne. set (h' := set_hmem m h). assert (Hs : same_heap h h') by done. pose proof (iv_canary _ _ _ Hi HF _ (elem_mid _ _ _) eq_refl) as Hc.
  assert (Es : chunk_size h' p = s).
  { rewrite <- (size_at Hi (elem_mid _ _ _)). unfold chunk_size. f_equal. apply field_ext; [done|]. intros x Hx. apply Hm. simpl in Hx. lia. }
  unfold used_chunk_check. rewrite HF. unfold verify_chunk_canary, CONFIG_SYS_HEAP_CANARIES. rewrite HF. unfold canary_at, compute_canary, chunk_trailer. rewrite Es.
  change (heap_base h' + CHUNK_UNIT * (p + s - CHUNK_TRAILER_SIZE)) with (trailer_at h p s). change (HEAP_CANARY_MAGIC h') with (HEAP_CANARY_MAGIC h).
  unfold canary_ok in Hc. cbn [pos size] in Hc. fold (trailer_at h p s) in Hc. rewrite Hc in Hne. unfold canary_val in Hne. change (hmem h') with m.
  destruct (Z.eqb_spec (ld 4 m (trailer_at h p s)) (((p .>> 16) .| u32 (p .<< 16)) .^ s .^ HEAP_CANARY_MAGIC h)); [done|done].
Qed.


End props.

(** ** Examples *)

(** Every check, statistics and random canaries, a search of three chunks. *)
Definition example_heap_config : HeapConfig := {|
  CONFIG_SYS_HEAP_HARDENING_LEVEL := 4; CONFIG_SYS_HEAP_ALLOC_LOOPS := 3; CONFIG_SYS_HEAP_SMALL_ONLY := false;
  CONFIG_SYS_HEAP_BIG_ONLY := false; CONFIG_SYS_HEAP_RUNTIME_STATS := true; CONFIG_SYS_HEAP_CANARIES_RANDOM := true
|}.

Section example.
#[local] Existing Instance example_heap_config.

Definition ex_h0 : z_heap := default (init_heap 4100 700 0 (fun _ => 0)) (sys_heap_init 4100 700 0x1234567 (fun _ => 0)).
Definition ex_step (r : request) (x : z_heap * list block) : z_heap * list block := default x (serve r x.1 x.2).

Lemma ex_some {X} (o : option X) d : bool_decide (is_Some o) = true -> o = Some (default d o).
Proof. by destruct o. Qed.

Lemma ex_buffer : buffer_ok 4100 700 0x1234567.
Proof. split; [vm_compute; split_and!; discriminate || reflexivity|vm_compute; discriminate|done|vm_compute; split; discriminate || reflexivity]. Qed.

Lemma ex_init_eq : sys_heap_init 4100 700 0x1234567 (fun _ => 0) = Some ex_h0.
Proof. unfold ex_h0. apply ex_some. vm_compute. reflexivity. Qed.

Lemma ex_serve rs r x rs' x' : heap_run ex_h0 rs x.1 x.2 -> allowed r x.1 x.2 -> x' = ex_step r x -> bool_decide (is_Some (serve r x.1 x.2)) = true ->
  rs' = rs ++ [r] -> heap_run ex_h0 rs' x'.1 x'.2.
Proof.
  intros Hr Ha -> Hs ->. eapply run_serve; [exact Hr|exact Ha|]. rewrite (ex_some _ x Hs). unfold ex_step. by destruct (default x _).
Qed.

(** Two allocations, one of them with a rewind, a write, a resize and a deallocation. *)
Definition ex_1 := ex_step (RAlloc 20) (ex_h0, []).
Definition ex_2 := ex_step (RAligned 20 8) ex_1.
Definition ex_3 := ex_step (RWrite 1 3 77) ex_2.
Definition ex_4 := ex_step (RRealloc 0 100) ex_3.
Definition ex_5 := ex_step (RFree 1) ex_4.
Definition ex_6 := ex_step (RFree 0) ex_5.

Definition ex_rs4 := [RAlloc 20; RAligned 20 8; RWrite 1 3 77; RRealloc 0 100].

Lemma ex_run2 : heap_run ex_h0 [RAlloc 20; RAligned 20 8] ex_2.1 ex_2.2.
Proof.
  apply (ex_serve [RAlloc 20] (RAligned 20 8) ex_1).
  - apply (ex_serve [] (RAlloc 20) (ex_h0, [])).
    + cbn [fst snd]. apply run_start.
    + cbn [allowed]. lia.
    + unfold ex_1. reflexivity.
    + vm_compute. reflexivity.
    + reflexivity.
  - split; [lia|]. exists 16, 4. split; [split; [lia|]; right; right; exists 2, 4; split_and!; done || lia|]. vm_compute. discriminate.
  - unfold ex_2. reflexivity.
  - vm_compute. reflexivity.
  - reflexivity.
Qed.

Lemma ex_run4 : heap_run ex_h0 ex_rs4 ex_4.1 ex_4.2.
Proof.
  apply (ex_serve [RAlloc 20; RAligned 20 8; RWrite 1 3 77] (RRealloc 0 100) ex_3).
  - apply (ex_serve [RAlloc 20; RAligned 20 8] (RWrite 1 3 77) ex_2); [exact ex_run2| |unfold ex_3; reflexivity|vm_compute; reflexivity|reflexivity].
    eexists. split; [vm_compute; reflexivity|]. simpl. lia.
  - split; [lia|]. eexists. split; [vm_compute; reflexivity|]. vm_compute. reflexivity.
  - unfold ex_4. reflexivity.
  - vm_compute. reflexivity.
  - reflexivity.
Qed.

Lemma ex_run6 : heap_run ex_h0 (ex_rs4 ++ [RFree 1; RFree 0]) ex_6.1 ex_6.2.
Proof.
  apply (ex_serve (ex_rs4 ++ [RFree 1]) (RFree 0) ex_5); [|vm_compute; lia|unfold ex_6; reflexivity|vm_compute; reflexivity|reflexivity].
  apply (ex_serve ex_rs4 (RFree 1) ex_4); [exact ex_run4|vm_compute; lia|unfold ex_5; reflexivity|vm_compute; reflexivity|reflexivity].
Qed.


Lemma validator_accepts_witness : exists h' cs, sys_heap_validate 100 ex_4.1 = Some (true, h') /\ heap_ok ex_4.1 cs /\ heap_eq cs ex_4.1 h'.
Proof.
  apply (validator_accepts 4100 700 0x1234567 (fun _ => 0) ex_h0 _ _ _ 100 ex_buffer ex_init_eq ex_run4). vm_compute. lia.
Defined.

Lemma ex_empty : ex_6.2 = [].
Proof. vm_compute. reflexivity. Qed.
Lemma ex_run_empty : heap_run ex_h0 (ex_rs4 ++ [RFree 1; RFree 0]) ex_6.1 [].
Proof. pose proof ex_run6 as H. by rewrite ex_empty in H. Qed.

Lemma free_all_restores_witness : ex_6.1.(free_bytes) = ex_h0.(free_bytes) /\ ex_6.1.(allocated_bytes) = 0.
Proof. apply (free_all_restores 4100 700 0x1234567 (fun _ => 0) ex_h0 _ _ ex_buffer ex_init_eq ex_run_empty). reflexivity. Defined.

(** Too much is asked for, and a block with a rewind. *)
Lemma aligned_alloc_contract_witness :
  (exists ptr h' cs, sys_heap_aligned_alloc 0 10000 ex_4.1 = Some (ptr, h') /\ heap_ok ex_4.1 cs /\ (ptr <> 0 -> (ptr + 0) mod 1 = 0) /\
    (ptr = 0 -> exists pad, 0 <= pad < 1 /\ no_room ex_4.1 cs (bytes_to_chunksz ex_4.1 10000 pad))) /\
  exists ptr h' cs, sys_heap_aligned_alloc 36 10 ex_4.1 = Some (ptr, h') /\ heap_ok ex_4.1 cs /\ (ptr <> 0 -> (ptr + 4) mod 32 = 0) /\
    (ptr = 0 -> exists pad, 0 <= pad < 32 /\ no_room ex_4.1 cs (bytes_to_chunksz ex_4.1 10 pad)).
Proof.
  split; apply (aligned_alloc_contract 4100 700 0x1234567 (fun _ => 0) ex_h0 _ _ _ _ _ _ _ ex_buffer ex_init_eq ex_run4); try lia.
  - split; [lia|by left].
  - vm_compute. discriminate.
  - split; [lia|]. right; right. exists 2, 5. split_and!; done || lia.
  - vm_compute. discriminate.
Defined.

Lemma ex_layout : heap_ok ex_h0 [Chunk 0 9 Used; Chunk 9 77 Free].
Proof.
  destruct (sys_heap_init_ok 4100 700 0x1234567 (fun _ => 0) ex_buffer) as (h & E & _ & _ & Ho). rewrite ex_init_eq in E. apply Some_inj in E. subst h. cbv zeta in Ho.
  replace (init_chunk0 _) with 9 in Ho by (vm_compute; reflexivity). replace (init_end 4100 700) with 86 in Ho by (vm_compute; reflexivity). exact Ho.
Qed.

(** The free chunk of a new heap is freed, and the canary of the first chunk overwritten. *)
Lemma ex_free_at : points_to ex_h0 4180 9.
Proof. exists 0. split; [lia|]. vm_compute. reflexivity. Qed.
Lemma ex_first_at : points_to ex_h0 4108 0.
Proof. exists 0. split; [lia|]. vm_compute. reflexivity. Qed.


End example.

(** ** The alignment gap of large heaps *)

(** Headers of 8 bytes, and the basic checks. *)
Definition big_heap_config : HeapConfig := {|
  CONFIG_SYS_HEAP_HARDENING_LEVEL := 2; CONFIG_SYS_HEAP_ALLOC_LOOPS := 3; CONFIG_SYS_HEAP_SMALL_ONLY := false;
  CONFIG_SYS_HEAP_BIG_ONLY := true; CONFIG_SYS_HEAP_RUNTIME_STATS := false; CONFIG_SYS_HEAP_CANARIES_RANDOM := false
|}.

(** A block of 8 bytes in front of a multiple of 16 with a rewind of 4 starts 4 bytes behind its
    header, where [mem_align_gap] sees no gap: its usable size counts 4 bytes that are
    the next chunk's, and a resize to the size it has makes the chunk end within it. *)
Lemma rewind_gap_lost : let H := big_heap_config in
  (h0 ← sys_heap_init 4096 512 0 (fun _ => 0); '(ptr, h1) ← sys_heap_aligned_alloc 20 8 h0; n ← sys_heap_usable_size ptr h1;
   '(ptr2, h2) ← sys_heap_realloc ptr 8 h1;
   Some (mem_to_chunkid h1 ptr, ptr + n, h1.(heap_base) + 8 * right_chunk h1 6, ptr2 + 8, h2.(heap_base) + 8 * right_chunk h2 6)) =
  Some (6, 4172, 4168, 4164, 4160).
Proof. vm_compute. reflexivity. Qed.
