(* ===== verification/RingBuf.v ===== *)
(** The ring buffer: lib/utils/ring_buffer.c and sys/ring_buffer.h.

    Head, tail and base are indices of [W] bits that count bytes and wrap around;
    the offset into the buffer is recovered from the base.  The proofs follow the
    positions that never wrap: bytes [gt] to [pt] of the stream are in the buffer,
    [gt] to [gh] are claimed for reading and [pt] to [ph] for writing. *)

From S2P Require Import Prelude Ring.

#[local] Open Scope Z_scope.

Definition EMSGSIZE : Z := 122.

Record ring_buf_index := Ring_buf_index { head : Z; tail : Z; base : Z }.
Record ring_buf := Ring_buf { buffer : Z; put : ring_buf_index; get : ring_buf_index; size : Z }.
Definition set_put (i : ring_buf_index) (b : ring_buf) : ring_buf := Ring_buf b.(buffer) i b.(get) b.(size).
Definition set_get (i : ring_buf_index) (b : ring_buf) : ring_buf := Ring_buf b.(buffer) b.(put) i b.(size).

Section ring_buf.
(** The width of [ring_buf_idx_t]: 16, or 32 with CONFIG_RING_BUFFER_LARGE. *)
Context (W : Z).
Definition idx (x : Z) : Z := x mod 2 ^ W.
Definition RING_BUFFER_MAX_SIZE : Z := (2 ^ W - 1) / 2.

Definition ring_buf_internal_reset (value : Z) (b : ring_buf) : ring_buf :=
  set_put (Ring_buf_index value value value) (set_get (Ring_buf_index value value value) b).
Definition ring_buf_init (sz data : Z) : ring_buf :=
  ring_buf_internal_reset 0 (Ring_buf data (Ring_buf_index 0 0 0) (Ring_buf_index 0 0 0) sz).
Definition ring_buf_item_init (sz data : Z) : ring_buf := ring_buf_init (u32 (4 * sz)) data.
Definition ring_buf_is_empty (b : ring_buf) : bool := b.(get).(head) =? b.(put).(tail).
Definition ring_buf_reset (b : ring_buf) : ring_buf := ring_buf_internal_reset 0 b.
Definition ring_buf_space_get (b : ring_buf) : Z := u32 (b.(size) - idx (b.(put).(head) - b.(get).(tail))).
Definition ring_buf_item_space_get (b : ring_buf) : Z := ring_buf_space_get b / 4.
Definition ring_buf_capacity_get (b : ring_buf) : Z := b.(size).
Definition ring_buf_size_get (b : ring_buf) : Z := idx (b.(put).(tail) - b.(get).(head)).

(** The size claimed, the address of the area and the new index. *)
Definition ring_buf_area_claim (b : ring_buf) (ring : ring_buf_index) (sz : Z) : Z * Z * ring_buf_index :=
  let head_offset := idx (ring.(head) - ring.(base)) in
  let head_offset := if b.(size) <=? head_offset then idx (head_offset - b.(size)) else head_offset in
  let wrap_size := idx (b.(size) - head_offset) in
  let sz := Z.min sz wrap_size in
  (sz, b.(buffer) + head_offset, Ring_buf_index (idx (ring.(head) + sz)) ring.(tail) ring.(base)).

Definition ring_buf_area_finish (b : ring_buf) (ring : ring_buf_index) (sz : Z) : Z * ring_buf_index :=
  let claimed_size := idx (ring.(head) - ring.(tail)) in
  if claimed_size <? sz then (- EINVAL, ring)
  else
    let t := idx (ring.(tail) + sz) in
    let tail_offset := idx (t - ring.(base)) in
    (0, Ring_buf_index t t (if b.(size) <=? tail_offset then idx (ring.(base) + b.(size)) else ring.(base))).

Definition ring_buf_put_claim (b : ring_buf) (sz : Z) : Z * Z * ring_buf :=
  let space := ring_buf_space_get b in
  let '(n, a, ring) := ring_buf_area_claim b b.(put) (Z.min sz space) in (n, a, set_put ring b).
Definition ring_buf_put_finish (b : ring_buf) (sz : Z) : Z * ring_buf :=
  let '(r, ring) := ring_buf_area_finish b b.(put) sz in (r, set_put ring b).
Definition ring_buf_get_claim (b : ring_buf) (sz : Z) : Z * Z * ring_buf :=
  let buf_size := ring_buf_size_get b in
  let '(n, a, ring) := ring_buf_area_claim b b.(get) (Z.min sz buf_size) in (n, a, set_get ring b).
Definition ring_buf_get_finish (b : ring_buf) (sz : Z) : Z * ring_buf :=
  let '(r, ring) := ring_buf_area_finish b b.(get) sz in (r, set_get ring b).

(** The loops: every round claims at least one byte or stops, so one more round
    than there are bytes to copy is enough. *)
Fixpoint put_loop (fuel : nat) (b : ring_buf) (data sz total : Z) (m : memory) : ring_buf * Z * memory :=
  match fuel with
  | O => (b, total, m)
  | S fuel =>
      let '(partial_size, dst, b1) := ring_buf_put_claim b sz in
      if partial_size =? 0 then (b1, total, m)
      else
        let m1 := memcpy dst data partial_size m in
        let total := u32 (total + partial_size) in
        let sz := u32 (sz - partial_size) in
        if sz =? 0 then (b1, total, m1) else put_loop fuel b1 (data + partial_size) sz total m1
  end.

Definition ring_buf_put (b : ring_buf) (data sz : Z) (m : memory) : Z * ring_buf * memory :=
  let '(b1, total_size, m1) := put_loop (S (Z.to_nat sz)) b data sz 0 m in
  let '(_, b2) := ring_buf_put_finish b1 total_size in (total_size, b2, m1).

(** [data] is [None] to discard the bytes. *)
Fixpoint get_loop (fuel : nat) (b : ring_buf) (data : option Z) (sz total : Z) (m : memory)
    : ring_buf * Z * memory :=
  match fuel with
  | O => (b, total, m)
  | S fuel =>
      let '(partial_size, src, b1) := ring_buf_get_claim b sz in
      if partial_size =? 0 then (b1, total, m)
      else
        let '(data, m1) := match data with
                           | Some d => (Some (d + partial_size), memcpy d src partial_size m)
                           | None => (None, m)
                           end in
        let total := u32 (total + partial_size) in
        let sz := u32 (sz - partial_size) in
        if sz =? 0 then (b1, total, m1) else get_loop fuel b1 data sz total m1
  end.

Definition ring_buf_get (b : ring_buf) (data : option Z) (sz : Z) (m : memory) : Z * ring_buf * memory :=
  let '(b1, total_size, m1) := get_loop (S (Z.to_nat sz)) b data sz 0 m in
  let '(_, b2) := ring_buf_get_finish b1 total_size in (total_size, b2, m1).

Definition ring_buf_peek (b : ring_buf) (data sz : Z) (m : memory) : Z * ring_buf * memory :=
  let '(b1, total_size, m1) := get_loop (S (Z.to_nat sz)) b (Some data) sz 0 m in
  let '(_, b2) := ring_buf_get_finish b1 0 in (total_size, b2, m1).

(** Direct access: the size and the address of an area, without claiming it. *)
Definition ring_buf_put_ptr (b : ring_buf) (offset : Z) : Z * Z :=
  let head_offset := idx (b.(put).(head) - b.(put).(base) + offset) in
  let head_offset := if b.(size) <=? head_offset then idx (head_offset - b.(size)) else head_offset in
  let space := idx (ring_buf_space_get b - offset) in
  let wrap_size := idx (b.(size) - head_offset) in
  (Z.min space wrap_size, b.(buffer) + head_offset).
Definition ring_buf_get_ptr (b : ring_buf) (offset : Z) : Z * Z :=
  let head_offset := idx (b.(get).(head) - b.(get).(base) + offset) in
  let head_offset := if b.(size) <=? head_offset then idx (head_offset - b.(size)) else head_offset in
  let sz := idx (ring_buf_size_get b - offset) in
  let wrap_size := idx (b.(size) - head_offset) in
  (Z.min sz wrap_size, b.(buffer) + head_offset).

Definition advance (b : ring_buf) (ring : ring_buf_index) (sz : Z) : ring_buf_index :=
  let t := idx (ring.(tail) + sz) in
  let tail_offset := idx (t - ring.(base)) in
  Ring_buf_index t t (if b.(size) <=? tail_offset then idx (ring.(base) + b.(size)) else ring.(base)).
Definition ring_buf_commit (b : ring_buf) (sz : Z) : ring_buf := set_put (advance b b.(put) sz) b.
Definition ring_buf_consume (b : ring_buf) (sz : Z) : ring_buf := set_get (advance b b.(get) sz) b.

(** Items: a header word (little-endian bit fields) and [size32] data words. *)
Definition store4 (a b0 b1 b2 b3 : Z) (m : memory) : memory :=
  upd a b0 (upd (a + 1) b1 (upd (a + 2) b2 (upd (a + 3) b3 m))).

Definition ring_buf_item_put (b : ring_buf) (type value data32 size32 : Z) (m : memory) : Z * ring_buf * memory :=
  let space := ring_buf_space_get b in
  let sz := size32 * 4 in
  if space <? sz + 4 then (- EMSGSIZE, b, m)
  else
    let '(_, dst, b1) := ring_buf_put_claim b 4 in
    let m1 := store4 dst (u8 type) (u8 (type / 256)) size32 value m in
    let '(b2, total_size, m2) := put_loop (S (Z.to_nat sz)) b1 data32 sz 4 m1 in
    let '(_, b3) := ring_buf_put_finish b2 total_size in (0, b3, m2).

(** Result, type, value and [*size32]. *)
Definition ring_buf_item_get (b : ring_buf) (data32 : option Z) (size32 : Z) (m : memory)
    : Z * (Z * Z * Z) * ring_buf * memory :=
  if ring_buf_is_empty b then (- EAGAIN, (0, 0, size32), b, m)
  else
    let '(_, src, b1) := ring_buf_get_claim b 4 in
    let type := m src + 256 * m (src + 1) in
    let length := m (src + 2) in
    let value := m (src + 3) in
    if match data32 with Some _ => size32 <? length | None => false end then
      let '(_, b2) := ring_buf_get_finish b1 0 in (- EMSGSIZE, (0, 0, length), b2, m)
    else
      let '(b2, total_size, m1) := get_loop (S (Z.to_nat (length * 4))) b1 data32 (length * 4) 4 m in
      let '(_, b3) := ring_buf_get_finish b2 total_size in (0, (type, value, length), b3, m1).

(** ** Positions *)

Context (HW : W = 16 \/ W = 32).

Record positions := Positions { gt : Z; gh : Z; pt : Z; ph : Z }.

Record ring_ok (b : ring_buf) (p : positions) : Prop := {
  ro_size : 0 < b.(size) <= RING_BUFFER_MAX_SIZE;
  ro_order : 0 <= p.(gt) <= p.(gh) /\ p.(gh) <= p.(pt) <= p.(ph) /\ p.(ph) <= p.(gt) + b.(size);
  ro_put : b.(put) = Ring_buf_index (idx p.(ph)) (idx p.(pt)) (idx (p.(pt) - p.(pt) mod b.(size)));
  ro_get : b.(get) = Ring_buf_index (idx p.(gh)) (idx p.(gt)) (idx (p.(gt) - p.(gt) mod b.(size)))
}.

(** The address of the byte at a position. *)
Definition at_pos (b : ring_buf) (i : Z) : Z := b.(buffer) + i mod b.(size).

Lemma size_small s : 0 < s <= RING_BUFFER_MAX_SIZE -> 2 * s < 2 ^ W /\ s < 2 ^ 31 /\ 2 ^ W <= 2 ^ 32.
Proof.
  unfold RING_BUFFER_MAX_SIZE. destruct HW as [-> | ->].
  - change ((2 ^ 16 - 1) / 2) with 32767. lia.
  - change ((2 ^ 32 - 1) / 2) with 2147483647. lia.
Qed.

Lemma idx_sub a b : 0 <= a - b < 2 ^ W -> idx (idx a - idx b) = a - b.
Proof. intros H. unfold idx. rewrite Zminus_mod_idemp_l, Zminus_mod_idemp_r. by apply Z.mod_small. Qed.

Lemma idx_add a b : idx (idx a + b) = idx (a + b).
Proof. unfold idx. by rewrite Zplus_mod_idemp_l. Qed.

Lemma idx_small a : 0 <= a < 2 ^ W -> idx a = a.
Proof. apply Z.mod_small. Qed.

(** Less than two rounds past the base, the offset is found with one subtraction. *)
Lemma wrap_once s t h : 0 < s -> t <= h <= t + s -> let o := h - (t - t mod s) in
  0 <= o < 2 * s /\ h mod s = if s <=? o then o - s else o.
Proof.
  intros Hs Hh o. pose proof (Z.mod_pos_bound t s Hs) as Ht. split; [unfold o; lia|].
  assert (Hb : h = o + s * (t / s)) by (unfold o; pose proof (Z.div_mod t s ltac:(lia)); lia).
  destruct (Z.leb_spec s o) as [Ho|Ho].
  - rewrite Hb. replace (o + s * (t / s)) with (o - s + (t / s + 1) * s) by lia.
    rewrite Z.mod_add by lia. apply Z.mod_small. unfold o in *. lia.
  - rewrite Hb. rewrite (Z.mul_comm s), Z.mod_add by lia. apply Z.mod_small. unfold o in *. lia.
Qed.

Lemma area_claim_ok b t h n : 0 < b.(size) <= RING_BUFFER_MAX_SIZE -> t <= h <= t + b.(size) ->
  let n' := Z.min n (b.(size) - h mod b.(size)) in
  ring_buf_area_claim b (Ring_buf_index (idx h) (idx t) (idx (t - t mod b.(size)))) n =
    (n', at_pos b h, Ring_buf_index (idx (h + n')) (idx t) (idx (t - t mod b.(size)))).
Proof.
  intros Hs Hh n'. destruct (size_small _ Hs) as (H1 & _). unfold ring_buf_area_claim. cbn [head base tail].
  destruct (wrap_once b.(size) t h ltac:(lia) Hh) as [Ho Hm]. set (o := h - (t - t mod size b)) in *.
  rewrite idx_sub by lia. fold o.
  assert (E : (if b.(size) <=? o then idx (o - b.(size)) else o) = h mod b.(size)).
  { rewrite Hm. destruct (Z.leb_spec b.(size) o); [apply idx_small; lia|done]. }
  rewrite E. pose proof (Z.mod_pos_bound h b.(size) ltac:(lia)). rewrite (idx_small (_ - _)) by lia.
  fold n'. by rewrite idx_add.
Qed.

Lemma ring_advance_ok b t n : 0 < b.(size) <= RING_BUFFER_MAX_SIZE -> 0 <= n <= b.(size) ->
  forall h, advance b (Ring_buf_index h (idx t) (idx (t - t mod b.(size)))) n =
    Ring_buf_index (idx (t + n)) (idx (t + n)) (idx ((t + n) - (t + n) mod b.(size))).
Proof.
  intros Hs Hn h. destruct (size_small _ Hs) as (H1 & _). unfold advance. cbn [tail base]. rewrite idx_add.
  destruct (wrap_once b.(size) t (t + n) ltac:(lia) ltac:(lia)) as [Ho Hm]. set (o := t + n - (t - t mod size b)) in *.
  rewrite idx_sub by lia. fold o. f_equal. rewrite Hm.
  destruct (Z.leb_spec b.(size) o); [rewrite idx_add|]; f_equal; unfold o; lia.
Qed.

Lemma area_finish_ok b t h n : 0 < b.(size) <= RING_BUFFER_MAX_SIZE -> t <= h <= t + b.(size) ->
  ring_buf_area_finish b (Ring_buf_index (idx h) (idx t) (idx (t - t mod b.(size)))) n =
    if h - t <? n then (- EINVAL, Ring_buf_index (idx h) (idx t) (idx (t - t mod b.(size))))
    else (0, advance b (Ring_buf_index (idx h) (idx t) (idx (t - t mod b.(size)))) n).
Proof.
  intros Hs Hh. destruct (size_small _ Hs) as (H1 & _). unfold ring_buf_area_finish. cbn [head tail base].
  rewrite idx_sub by lia. done.
Qed.

Lemma space_ok b p : ring_ok b p -> ring_buf_space_get b = b.(size) - (p.(ph) - p.(gt)).
Proof.
  intros [H1 H2 H3 H4]. destruct (size_small _ H1) as (H5 & H6 & H7). unfold ring_buf_space_get. rewrite H3, H4. cbn [head tail].
  rewrite idx_sub by lia. unfold u32. apply Z.mod_small. lia.
Qed.

Lemma size_ok b p : ring_ok b p -> ring_buf_size_get b = p.(pt) - p.(gh).
Proof.
  intros [H1 H2 H3 H4]. destruct (size_small _ H1) as (H5 & H6 & H7). unfold ring_buf_size_get. rewrite H3, H4. cbn [head tail].
  apply idx_sub. lia.
Qed.

Lemma empty_ok b p : ring_ok b p -> ring_buf_is_empty b = (p.(pt) =? p.(gh)).
Proof.
  intros Hok. pose proof (size_ok b p Hok) as Hs. destruct Hok as [H1 H2 H3 H4].
  destruct (size_small _ H1) as (H5 & _). unfold ring_buf_is_empty. rewrite H3, H4. cbn [head tail].
  destruct (Z.eqb_spec (idx p.(gh)) (idx p.(pt))) as [E|E], (Z.eqb_spec p.(pt) p.(gh)) as [E'|E']; try done.
  - pose proof (idx_sub p.(pt) p.(gh) ltac:(lia)) as Hx. rewrite E, Z.sub_diag in Hx.
    rewrite idx_small in Hx by lia. lia.
  - by rewrite E' in E.
Qed.

Definition set_ph (x : Z) (p : positions) : positions := Positions p.(gt) p.(gh) p.(pt) x.
Definition set_gh (x : Z) (p : positions) : positions := Positions p.(gt) x p.(pt) p.(ph).

Lemma put_claim_ok b p n : ring_ok b p -> 0 <= n ->
  let n' := Z.min (Z.min n (b.(size) - (p.(ph) - p.(gt)))) (b.(size) - p.(ph) mod b.(size)) in
  exists b', ring_buf_put_claim b n = (n', at_pos b p.(ph), b') /\ ring_ok b' (set_ph (p.(ph) + n') p) /\
    b'.(size) = b.(size) /\ b'.(buffer) = b.(buffer).
Proof.
  intros Hok Hn n'. pose proof (space_ok b p Hok) as Hs. destruct Hok as [H1 H2 H3 H4].
  unfold ring_buf_put_claim. rewrite Hs, H3, area_claim_ok by (done || lia). eexists. split; [done|]. split; [|done].
  pose proof (Z.mod_pos_bound p.(ph) b.(size) ltac:(lia)). split; simpl; try done. lia.
Qed.

Lemma get_claim_ok b p n : ring_ok b p -> 0 <= n ->
  let n' := Z.min (Z.min n (p.(pt) - p.(gh))) (b.(size) - p.(gh) mod b.(size)) in
  exists b', ring_buf_get_claim b n = (n', at_pos b p.(gh), b') /\ ring_ok b' (set_gh (p.(gh) + n') p) /\
    b'.(size) = b.(size) /\ b'.(buffer) = b.(buffer).
Proof.
  intros Hok Hn n'. pose proof (size_ok b p Hok) as Hs. destruct Hok as [H1 H2 H3 H4].
  unfold ring_buf_get_claim. rewrite Hs, H4, area_claim_ok by (done || lia). eexists. split; [done|]. split; [|done].
  pose proof (Z.mod_pos_bound p.(gh) b.(size) ltac:(lia)). split; simpl; try done. lia.
Qed.

Lemma put_finish_ok b p n : ring_ok b p -> 0 <= n ->
  exists b', ring_buf_put_finish b n = (if p.(ph) - p.(pt) <? n then - EINVAL else 0, b') /\
    ring_ok b' (if p.(ph) - p.(pt) <? n then p else Positions p.(gt) p.(gh) (p.(pt) + n) (p.(pt) + n)) /\
    b'.(size) = b.(size) /\ b'.(buffer) = b.(buffer).
Proof.
  intros [H1 H2 H3 H4] Hn. unfold ring_buf_put_finish. rewrite H3, area_finish_ok by (done || lia).
  destruct (Z.ltb_spec (ph p - pt p) n); (eexists; split; [done|]; split; [|done]); [by split|].
  rewrite ring_advance_ok by (done || lia). split; simpl; try done. lia.
Qed.

Lemma get_finish_ok b p n : ring_ok b p -> 0 <= n ->
  exists b', ring_buf_get_finish b n = (if p.(gh) - p.(gt) <? n then - EINVAL else 0, b') /\
    ring_ok b' (if p.(gh) - p.(gt) <? n then p else Positions (p.(gt) + n) (p.(gt) + n) p.(pt) p.(ph)) /\
    b'.(size) = b.(size) /\ b'.(buffer) = b.(buffer).
Proof.
  intros [H1 H2 H3 H4] Hn. unfold ring_buf_get_finish. rewrite H4, area_finish_ok by (done || lia).
  destruct (Z.ltb_spec (gh p - gt p) n); (eexists; split; [done|]; split; [|done]); [by split|].
  rewrite ring_advance_ok by (done || lia). split; simpl; try done. lia.
Qed.

(** ** Bytes at positions *)

Lemma at_pos_run b i j : 0 < b.(size) -> 0 <= j < b.(size) - i mod b.(size) -> at_pos b (i + j) = at_pos b i + j.
Proof.
  intros Hs Hj. unfold at_pos. pose proof (Z.mod_pos_bound i b.(size) Hs).
  rewrite <- Zplus_mod_idemp_l, (Z.mod_small (_ + j)) by lia. lia.
Qed.

Lemma at_pos_in b i : 0 < b.(size) -> b.(buffer) <= at_pos b i < b.(buffer) + b.(size).
Proof. intros Hs. unfold at_pos. pose proof (Z.mod_pos_bound i b.(size) Hs). lia. Qed.

Lemma at_pos_inj b i j : 0 < b.(size) -> - b.(size) < i - j < b.(size) -> at_pos b i = at_pos b j -> i = j.
Proof.
  intros Hs Hd E. unfold at_pos in E. assert (Hm : i mod b.(size) = j mod b.(size)) by lia.
  pose proof (Z.div_mod i b.(size) ltac:(lia)). pose proof (Z.div_mod j b.(size) ltac:(lia)).
  assert (- 1 < i / b.(size) - j / b.(size) < 1) by nia. nia.
Qed.

Lemma at_pos_same b b' i : b'.(size) = b.(size) -> b'.(buffer) = b.(buffer) -> at_pos b' i = at_pos b i.
Proof. intros H1 H2. unfold at_pos. by rewrite H1, H2. Qed.

Definition copied (b : ring_buf) (i data k : Z) (m m' : memory) : Prop :=
  (forall j, 0 <= j < k -> m' (at_pos b (i + j)) = m (data + j)) /\
  (forall x, (forall j, 0 <= j < k -> x <> at_pos b (i + j)) -> m' x = m x).

Lemma copied_memcpy b i data k m : 0 < b.(size) -> k <= b.(size) - i mod b.(size) ->
  copied b i data k m (memcpy (at_pos b i) data k m).
Proof.
  intros Hs Hk. split.
  - intros j Hj. rewrite at_pos_run by lia. unfold memcpy.
    rewrite (proj2 (Z.leb_le _ _)), (proj2 (Z.ltb_lt _ _)) by lia. simpl. f_equal. lia.
  - intros x Hx. apply memcpy_out. intros H. apply (Hx (x - at_pos b i)); [lia|]. rewrite at_pos_run by lia. lia.
Qed.

Lemma copied_more b i data k l m m1 m2 : 0 < b.(size) -> 0 <= k -> 0 <= l -> k + l <= b.(size) ->
  apart data (k + l) b.(buffer) b.(size) ->
  copied b i data k m m1 -> copied b (i + k) (data + k) l m1 m2 -> copied b i data (k + l) m m2.
Proof.
  intros Hs Hk Hl Hb Hap [H1 H2] [H3 H4]. unfold apart in Hap. split.
  - intros j Hj. destruct (Z.ltb_spec j k) as [Hjk|Hjk].
    + rewrite H4; [apply H1; lia|]. intros j' Hj' E. apply at_pos_inj in E; lia.
    + replace (i + j) with (i + k + (j - k)) by lia. rewrite H3 by lia.
      replace (data + k + (j - k)) with (data + j) by lia. apply H2.
      intros j' Hj' E. pose proof (at_pos_in b (i + j') Hs). lia.
  - intros x Hx. rewrite H4; [apply H2|]; intros j Hj E.
    + apply (Hx j); [lia|done].
    + apply (Hx (k + j)); [lia|]. by rewrite Z.add_assoc.
Qed.

Lemma copied_same b b' i data k m m' : b'.(size) = b.(size) -> b'.(buffer) = b.(buffer) ->
  copied b' i data k m m' -> copied b i data k m m'.
Proof. intros H1 H2. unfold copied. by setoid_rewrite (at_pos_same b b' _ H1 H2). Qed.

Lemma put_loop_ok fuel b p data sz total m : ring_ok b p -> 0 <= sz < Z.of_nat fuel -> 0 <= total ->
  total + sz < 2 ^ 32 -> apart data sz b.(buffer) b.(size) ->
  let k := Z.min sz (b.(size) - (p.(ph) - p.(gt))) in
  exists b' m', put_loop fuel b data sz total m = (b', total + k, m') /\ ring_ok b' (set_ph (p.(ph) + k) p) /\
    b'.(size) = b.(size) /\ b'.(buffer) = b.(buffer) /\ copied b p.(ph) data k m m'.
Proof.
  revert b p data sz total m. induction fuel as [|fuel IH]; [lia|]. intros b p data sz total m Hok Hsz Ht Hts Hap k.
  cbn [put_loop]. destruct (put_claim_ok b p sz Hok ltac:(lia)) as (b1 & E & Hok1 & Hs1 & Hb1). rewrite E.
  set (c := Z.min (Z.min sz (size b - (ph p - gt p))) (size b - ph p mod size b)) in *. cbn iota beta.
  destruct Hok as [H1 H2 H3 H4]. pose proof (Z.mod_pos_bound p.(ph) b.(size) ltac:(lia)) as Hm.
  assert (Hc : copied b (ph p) data c m (memcpy (at_pos b (ph p)) data c m)) by (apply copied_memcpy; lia).
  destruct (Z.eqb_spec c 0) as [Hc0|Hc0].
  - exists b1, m. replace k with 0 by lia. rewrite !Z.add_0_r. rewrite Hc0, Z.add_0_r in Hok1.
    split_and!; try done. split; intros; [lia|done].
  - unfold u32. rewrite !Z.mod_small by lia. destruct (Z.eqb_spec (sz - c) 0) as [Hz|Hz].
    + exists b1, (memcpy (at_pos b (ph p)) data c m). replace k with c by lia. done.
    + destruct (IH b1 _ (data + c) (sz - c) (total + c) (memcpy (at_pos b (ph p)) data c m) Hok1)
        as (b2 & m2 & E2 & Hok2 & Hs2 & Hb2 & Hc2); try lia.
      { unfold apart in *. rewrite Hs1, Hb1. lia. }
      simpl in *. rewrite Hs1 in *. exists b2, m2. rewrite E2.
      set (c2 := Z.min (sz - c) (size b - (ph p + c - gt p))) in *. replace k with (c + c2) by lia.
      split; [f_equal; f_equal; lia|]. split; [by rewrite Z.add_assoc|].
      split; [congruence|]. split; [congruence|].
      eapply copied_more; [lia..| |exact Hc|by eapply copied_same; [..|exact Hc2]]. unfold apart in *. lia.
Qed.

(** The memory after [k] bytes from position [i] on were delivered at [data]. *)
Definition delivered (b : ring_buf) (i : Z) (data : option Z) (k : Z) (m m' : memory) : Prop :=
  forall x, m' x = match data with
                   | Some d => if (d <=? x) && (x <? d + k) then m (at_pos b (i + (x - d))) else m x
                   | None => m x
                   end.

Definition clear_of (b : ring_buf) (data : option Z) (sz : Z) : Prop :=
  match data with Some d => apart d sz b.(buffer) b.(size) | None => True end.

Lemma get_loop_ok fuel b p data sz total m : ring_ok b p -> 0 <= sz < Z.of_nat fuel -> 0 <= total ->
  total + sz < 2 ^ 32 -> clear_of b data sz ->
  let k := Z.min sz (p.(pt) - p.(gh)) in
  exists b' m', get_loop fuel b data sz total m = (b', total + k, m') /\ ring_ok b' (set_gh (p.(gh) + k) p) /\
    b'.(size) = b.(size) /\ b'.(buffer) = b.(buffer) /\ delivered b p.(gh) data k m m'.
Proof.
  revert b p data sz total m. induction fuel as [|fuel IH]; [lia|]. intros b p data sz total m Hok Hsz Ht Hts Hap k.
  cbn [get_loop]. destruct (get_claim_ok b p sz Hok ltac:(lia)) as (b1 & E & Hok1 & Hs1 & Hb1). rewrite E.
  set (c := Z.min (Z.min sz (pt p - gh p)) (size b - gh p mod size b)) in *. cbn iota beta.
  destruct Hok as [H1 H2 H3 H4]. pose proof (Z.mod_pos_bound p.(gh) b.(size) ltac:(lia)) as Hm.
  destruct (Z.eqb_spec c 0) as [Hc0|Hc0].
  - exists b1, m. replace k with 0 by lia. rewrite !Z.add_0_r. rewrite Hc0, Z.add_0_r in Hok1.
    split_and!; try done. intros x. destruct data as [d|]; [|done].
    destruct (Z.leb_spec d x), (Z.ltb_spec x (d + 0)); simpl; done || lia.
  - destruct (match data with Some d => _ | None => _ end) as [data' m1] eqn:Ed.
    assert (Hd : delivered b (gh p) data c m m1).
    { intros x. destruct data as [d|]; [|by injection Ed as <- <-]. injection Ed as <- <-. unfold memcpy.
      destruct (Z.leb_spec d x), (Z.ltb_spec x (d + c)); simpl; try done. f_equal. symmetry. apply at_pos_run; lia. }
    unfold u32. rewrite !Z.mod_small by lia. destruct (Z.eqb_spec (sz - c) 0) as [Hz|Hz].
    + exists b1, m1. replace k with c by lia. done.
    + destruct (IH b1 _ data' (sz - c) (total + c) m1 Hok1) as (b2 & m2 & E2 & Hok2 & Hs2 & Hb2 & Hd2); try lia.
      { unfold clear_of, apart in *. destruct data; injection Ed as <- <-; [|done]. rewrite Hs1, Hb1. lia. }
      simpl in *. exists b2, m2. rewrite E2.
      set (c2 := Z.min (sz - c) (pt p - (gh p + c))) in *. replace k with (c + c2) by lia.
      split; [f_equal; f_equal; lia|]. split; [by rewrite Z.add_assoc|].
      split; [congruence|]. split; [congruence|].
      intros x. rewrite (Hd2 x). destruct data as [d|]; injection Ed as <- _; [|apply Hd].
      rewrite (at_pos_same b b1) by done. rewrite !Hd.
      pose proof (at_pos_in b (gh p + c + (x - (d + c))) ltac:(lia)). unfold clear_of, apart in Hap.
      replace (gh p + c + (x - (d + c))) with (gh p + (x - d)) in * by lia.
      repeat match goal with
             | |- context [?u <=? ?v] => destruct (Z.leb_spec u v)
             | |- context [?u <? ?v] => destruct (Z.ltb_spec u v)
             end; simpl; lia || done.
Qed.

Lemma put_ok b p data sz m : ring_ok b p -> p.(ph) = p.(pt) -> 0 <= sz < 2 ^ 32 ->
  apart data sz b.(buffer) b.(size) -> let k := Z.min sz (b.(size) - (p.(pt) - p.(gt))) in
  exists b' m', ring_buf_put b data sz m = (k, b', m') /\
    ring_ok b' (Positions p.(gt) p.(gh) (p.(pt) + k) (p.(pt) + k)) /\
    b'.(size) = b.(size) /\ b'.(buffer) = b.(buffer) /\ copied b p.(pt) data k m m'.
Proof.
  intros Hok Hp Hsz Hap k. unfold ring_buf_put.
  destruct (put_loop_ok (S (Z.to_nat sz)) b p data sz 0 m Hok) as (b1 & m1 & E & Hok1 & Hs1 & Hb1 & Hc); try (done || lia).
  rewrite Hp in *. fold k in E, Hok1, Hc. rewrite E, Z.add_0_l. pose proof (ro_order _ _ Hok).
  destruct (put_finish_ok b1 _ k Hok1 ltac:(lia)) as (b2 & E2 & Hok2 & Hs2 & Hb2). simpl in *.
  rewrite E2. rewrite (proj2 (Z.ltb_ge _ _)) in Hok2 by lia. exists b2, m1. split_and!; congruence || done.
Qed.

Lemma get_ok b p data sz m : ring_ok b p -> p.(gh) = p.(gt) -> 0 <= sz < 2 ^ 32 -> clear_of b data sz ->
  let k := Z.min sz (p.(pt) - p.(gt)) in
  exists b' m', ring_buf_get b data sz m = (k, b', m') /\
    ring_ok b' (Positions (p.(gt) + k) (p.(gt) + k) p.(pt) p.(ph)) /\
    b'.(size) = b.(size) /\ b'.(buffer) = b.(buffer) /\ delivered b p.(gt) data k m m'.
Proof.
  intros Hok Hp Hsz Hap k. unfold ring_buf_get.
  destruct (get_loop_ok (S (Z.to_nat sz)) b p data sz 0 m Hok) as (b1 & m1 & E & Hok1 & Hs1 & Hb1 & Hc); try (done || lia).
  rewrite Hp in *. fold k in E, Hok1, Hc. rewrite E, Z.add_0_l. pose proof (ro_order _ _ Hok).
  destruct (get_finish_ok b1 _ k Hok1 ltac:(lia)) as (b2 & E2 & Hok2 & Hs2 & Hb2). simpl in *.
  rewrite E2. rewrite (proj2 (Z.ltb_ge _ _)) in Hok2 by lia. exists b2, m1. split_and!; congruence || done.
Qed.

Lemma peek_ok b p data sz m : ring_ok b p -> p.(gh) = p.(gt) -> 0 <= sz < 2 ^ 32 -> clear_of b (Some data) sz ->
  let k := Z.min sz (p.(pt) - p.(gt)) in
  exists b' m', ring_buf_peek b data sz m = (k, b', m') /\ ring_ok b' p /\
    b'.(size) = b.(size) /\ b'.(buffer) = b.(buffer) /\ delivered b p.(gt) (Some data) k m m'.
Proof.
  intros Hok Hp Hsz Hap k. unfold ring_buf_peek.
  destruct (get_loop_ok (S (Z.to_nat sz)) b p (Some data) sz 0 m Hok) as (b1 & m1 & E & Hok1 & Hs1 & Hb1 & Hc); try (done || lia).
  rewrite Hp in *. fold k in E, Hok1, Hc. rewrite E, Z.add_0_l. pose proof (ro_order _ _ Hok).
  destruct (get_finish_ok b1 _ 0 Hok1 ltac:(lia)) as (b2 & E2 & Hok2 & Hs2 & Hb2). simpl in *.
  rewrite E2. rewrite (proj2 (Z.ltb_ge _ _)), !Z.add_0_r in Hok2 by lia. exists b2, m1.
  split_and!; try (congruence || done). destruct p; simpl in *. by rewrite <- Hp in Hok2 |- *.
Qed.

Lemma ptr_ok b t h off : 0 < b.(size) <= RING_BUFFER_MAX_SIZE -> t <= h -> 0 <= off -> h + off <= t + b.(size) ->
  let o := idx (idx h - idx (t - t mod b.(size)) + off) in
  (if b.(size) <=? o then idx (o - b.(size)) else o) = (h + off) mod b.(size).
Proof.
  intros Hs Ht Ho Hh o. destruct (size_small _ Hs) as (H1 & _).
  destruct (wrap_once b.(size) t (h + off) ltac:(lia) ltac:(lia)) as [Hw Hm].
  assert (E : o = h + off - (t - t mod b.(size))).
  { unfold o. replace (idx h - idx (t - t mod size b) + off) with (idx h + off - idx (t - t mod size b)) by lia.
    unfold idx. rewrite Zminus_mod_idemp_r. rewrite <- Zminus_mod_idemp_l, Zplus_mod_idemp_l, Zminus_mod_idemp_l.
    apply Z.mod_small. lia. }
  rewrite Hm, E. destruct (Z.leb_spec b.(size) (h + off - (t - t mod b.(size)))); [apply idx_small; lia|done].
Qed.

Lemma put_ptr_ok b p off : ring_ok b p -> 0 <= off <= b.(size) - (p.(ph) - p.(gt)) ->
  ring_buf_put_ptr b off =
    (Z.min (b.(size) - (p.(ph) - p.(gt)) - off) (b.(size) - (p.(ph) + off) mod b.(size)), at_pos b (p.(ph) + off)).
Proof.
  intros Hok Ho. pose proof (space_ok b p Hok) as Hs. destruct Hok as [H1 H2 H3 H4]. destruct (size_small _ H1) as (H5 & _).
  unfold ring_buf_put_ptr. rewrite Hs, H3. cbn [head base]. rewrite ptr_ok by (done || lia).
  pose proof (Z.mod_pos_bound (ph p + off) b.(size) ltac:(lia)). by rewrite !idx_small by lia.
Qed.

Lemma get_ptr_ok b p off : ring_ok b p -> 0 <= off <= p.(pt) - p.(gh) ->
  ring_buf_get_ptr b off =
    (Z.min (p.(pt) - p.(gh) - off) (b.(size) - (p.(gh) + off) mod b.(size)), at_pos b (p.(gh) + off)).
Proof.
  intros Hok Ho. pose proof (size_ok b p Hok) as Hs. destruct Hok as [H1 H2 H3 H4]. destruct (size_small _ H1) as (H5 & _).
  unfold ring_buf_get_ptr. rewrite Hs, H4. cbn [head base]. rewrite ptr_ok by (done || lia).
  pose proof (Z.mod_pos_bound (gh p + off) b.(size) ltac:(lia)). by rewrite !idx_small by lia.
Qed.

Lemma commit_ok b p n : ring_ok b p -> 0 <= n <= b.(size) - (p.(pt) - p.(gt)) ->
  ring_ok (ring_buf_commit b n) (Positions p.(gt) p.(gh) (p.(pt) + n) (p.(pt) + n)).
Proof.
  intros [H1 H2 H3 H4] Hn. unfold ring_buf_commit. rewrite H3, ring_advance_ok by (done || lia). split; simpl; try done. lia.
Qed.

Lemma consume_ok b p n : ring_ok b p -> 0 <= n <= p.(pt) - p.(gt) ->
  ring_ok (ring_buf_consume b n) (Positions (p.(gt) + n) (p.(gt) + n) p.(pt) p.(ph)).
Proof.
  intros [H1 H2 H3 H4] Hn. unfold ring_buf_consume. rewrite H4, ring_advance_ok by (done || lia). split; simpl; try done. lia.
Qed.

Lemma ring_init_ok sz data : 0 < sz <= RING_BUFFER_MAX_SIZE -> ring_ok (ring_buf_init sz data) (Positions 0 0 0 0).
Proof.
  intros H. pose proof (size_small sz H). split; simpl; try done; [lia|..];
    rewrite Z.mod_0_l, idx_small by lia; done.
Qed.

Lemma ring_reset_ok b p : ring_ok b p -> ring_ok (ring_buf_reset b) (Positions 0 0 0 0).
Proof. intros H. exact (ring_init_ok b.(size) b.(buffer) (ro_size _ _ H)). Qed.

(** ** The byte stream a client sees *)

Definition load (m : memory) (a n : Z) : list Z := m <$> seqZ a n.

(** A client holds the areas it has claimed, for writing and for reading. *)
Record client := Client { rb : ring_buf; mem : memory; wareas : list (Z * Z); rareas : list (Z * Z) }.
Definition cells (l : list (Z * Z)) : list Z := concat (map (fun '(a, n) => seqZ a n) l).

(** The whole free space, and all the bytes not claimed for reading, as the two
    areas that the pointer operations return. *)
Definition free_areas (b : ring_buf) : list (Z * Z) :=
  let '(n1, a1) := ring_buf_put_ptr b 0 in
  let '(n2, a2) := ring_buf_put_ptr b n1 in [(a1, n1); (a2, n2)].
Definition data_areas (b : ring_buf) : list (Z * Z) :=
  let '(n1, a1) := ring_buf_get_ptr b 0 in
  let '(n2, a2) := ring_buf_get_ptr b n1 in [(a1, n1); (a2, n2)].

Inductive rb_event :=
| RPut (d : list Z) (r : Z)
| RGet (n r : Z) (d : option (list Z))
| RPeek (n r : Z) (d : list Z)
| RPutClaim (n r : Z)
| RPutFinish (n r : Z) (d : list Z)
| RGetClaim (n r : Z) (d : list Z)
| RGetFinish (n r : Z)
| RCommit (d : list Z)
| RConsume (d : list Z)
| RAsk (space sz : Z) (is_empty : bool)
| RReset
| RWrite.

Inductive rb_step : client -> rb_event -> client -> Prop :=
| rs_put c data sz r b m : c.(wareas) = [] -> 0 <= sz < 2 ^ 32 -> apart data sz c.(rb).(buffer) c.(rb).(size) ->
    ring_buf_put c.(rb) data sz c.(mem) = (r, b, m) ->
    rb_step c (RPut (load c.(mem) data sz) r) (Client b m [] c.(rareas))
| rs_get c data sz r b m : c.(rareas) = [] -> 0 <= sz < 2 ^ 32 -> clear_of c.(rb) data sz ->
    ring_buf_get c.(rb) data sz c.(mem) = (r, b, m) ->
    rb_step c (RGet sz r ((fun d => load m d r) <$> data)) (Client b m c.(wareas) [])
| rs_peek c data sz r b m : c.(rareas) = [] -> 0 <= sz < 2 ^ 32 -> clear_of c.(rb) (Some data) sz ->
    ring_buf_peek c.(rb) data sz c.(mem) = (r, b, m) ->
    rb_step c (RPeek sz r (load m data r)) (Client b m c.(wareas) [])
| rs_put_claim c n r a b : 0 <= n < 2 ^ 32 -> ring_buf_put_claim c.(rb) n = (r, a, b) ->
    rb_step c (RPutClaim n r) (Client b c.(mem) (c.(wareas) ++ [(a, r)]) c.(rareas))
| rs_put_finish c n r b : 0 <= n < 2 ^ 32 -> ring_buf_put_finish c.(rb) n = (r, b) ->
    rb_step c (RPutFinish n r (c.(mem) <$> take (Z.to_nat n) (cells c.(wareas))))
      (Client b c.(mem) (if r =? 0 then [] else c.(wareas)) c.(rareas))
| rs_get_claim c n r a b : 0 <= n < 2 ^ 32 -> ring_buf_get_claim c.(rb) n = (r, a, b) ->
    rb_step c (RGetClaim n r (load c.(mem) a r)) (Client b c.(mem) c.(wareas) (c.(rareas) ++ [(a, r)]))
| rs_get_finish c n r b : 0 <= n < 2 ^ 32 -> ring_buf_get_finish c.(rb) n = (r, b) ->
    rb_step c (RGetFinish n r) (Client b c.(mem) c.(wareas) (if r =? 0 then [] else c.(rareas)))
| rs_commit c n : c.(wareas) = [] -> 0 <= n <= ring_buf_space_get c.(rb) ->
    rb_step c (RCommit (c.(mem) <$> take (Z.to_nat n) (cells (free_areas c.(rb)))))
      (Client (ring_buf_commit c.(rb) n) c.(mem) [] c.(rareas))
| rs_consume c n : c.(rareas) = [] -> 0 <= n <= ring_buf_size_get c.(rb) ->
    rb_step c (RConsume (c.(mem) <$> take (Z.to_nat n) (cells (data_areas c.(rb)))))
      (Client (ring_buf_consume c.(rb) n) c.(mem) c.(wareas) [])
| rs_ask c : rb_step c (RAsk (ring_buf_space_get c.(rb)) (ring_buf_size_get c.(rb)) (ring_buf_is_empty c.(rb))) c
| rs_reset c : rb_step c RReset (Client (ring_buf_reset c.(rb)) c.(mem) [] [])
| rs_write c m :
    (forall x, c.(rb).(buffer) <= x < c.(rb).(buffer) + c.(rb).(size) ->
      x ∉ cells c.(wareas) -> x ∉ cells (free_areas c.(rb)) -> m x = c.(mem) x) ->
    rb_step c RWrite (Client c.(rb) m c.(wareas) c.(rareas)).

Inductive rb_run : client -> list rb_event -> client -> Prop :=
| rr_nil c : rb_run c [] c
| rr_snoc c l c1 e c2 : rb_run c l c1 -> rb_step c1 e c2 -> rb_run c (l ++ [e]) c2.

(** The abstract buffer: the bytes stored, how many of them are claimed for
    reading, and how many more are claimed for writing. *)
Record fifo := Fifo { stored : list Z; reading : Z; writing : Z }.
Definition len (l : list Z) : Z := Z.of_nat (length l).

Definition fifo_step (cap : Z) (q : fifo) (e : rb_event) (q' : fifo) : Prop :=
  let used := len q.(stored) in
  match e with
  | RPut d r => r = Z.min (len d) (cap - used) /\
      q' = Fifo (q.(stored) ++ take (Z.to_nat r) d) q.(reading) 0
  | RGet n r d => r = Z.min n used /\ q' = Fifo (drop (Z.to_nat r) q.(stored)) 0 q.(writing) /\
      (forall d', d = Some d' -> d' = take (Z.to_nat r) q.(stored))
  | RPeek n r d => r = Z.min n used /\ q' = q /\ d = take (Z.to_nat r) q.(stored)
  | RPutClaim n r => let room := cap - used - q.(writing) in
      0 <= r <= Z.min n room /\ (0 < n -> 0 < room -> 0 < r) /\
      q' = Fifo q.(stored) q.(reading) (q.(writing) + r)
  | RPutFinish n r d =>
      if n <=? q.(writing) then r = 0 /\ len d = n /\ q' = Fifo (q.(stored) ++ d) q.(reading) 0
      else r = - EINVAL /\ q' = q
  | RGetClaim n r d => let rest := used - q.(reading) in
      0 <= r <= Z.min n rest /\ (0 < n -> 0 < rest -> 0 < r) /\
      d = take (Z.to_nat r) (drop (Z.to_nat q.(reading)) q.(stored)) /\
      q' = Fifo q.(stored) (q.(reading) + r) q.(writing)
  | RGetFinish n r =>
      if n <=? q.(reading) then r = 0 /\ q' = Fifo (drop (Z.to_nat n) q.(stored)) 0 q.(writing)
      else r = - EINVAL /\ q' = q
  | RCommit d => used + len d <= cap /\ q' = Fifo (q.(stored) ++ d) q.(reading) 0
  | RConsume d => exists rest, q.(stored) = d ++ rest /\ q' = Fifo rest 0 q.(writing)
  | RAsk space sz e => space = cap - used - q.(writing) /\ sz = used - q.(reading) /\ e = (sz =? 0) /\ q' = q
  | RReset => q' = Fifo [] 0 0
  | RWrite => q' = q
  end.

Inductive fifo_run (cap : Z) : fifo -> list rb_event -> fifo -> Prop :=
| fr_nil q : fifo_run cap q [] q
| fr_snoc q l q1 e q2 : fifo_run cap q l q1 -> fifo_step cap q1 e q2 -> fifo_run cap q (l ++ [e]) q2.

(** ** Refinement *)

Definition addrs (b : ring_buf) (i n : Z) : list Z := at_pos b <$> seqZ i n.

Record refines (c : client) (p : positions) (q : fifo) : Prop := {
  rf_ok : ring_ok c.(rb) p;
  rf_stored : q.(stored) = c.(mem) <$> addrs c.(rb) p.(gt) (p.(pt) - p.(gt));
  rf_reading : q.(reading) = p.(gh) - p.(gt);
  rf_writing : q.(writing) = p.(ph) - p.(pt);
  rf_wareas : cells c.(wareas) = addrs c.(rb) p.(pt) (p.(ph) - p.(pt));
  rf_rareas : cells c.(rareas) = addrs c.(rb) p.(gt) (p.(gh) - p.(gt))
}.

Lemma addrs_len b i n : 0 <= n -> Z.of_nat (length (addrs b i n)) = n.
Proof. intros. unfold addrs. rewrite length_fmap, length_seqZ. lia. Qed.

Lemma addrs_app b i n k : 0 <= n -> 0 <= k -> addrs b i (n + k) = addrs b i n ++ addrs b (i + n) k.
Proof. intros. unfold addrs. by rewrite seqZ_app, fmap_app by lia. Qed.

Lemma addrs_take b i n k : 0 <= k <= n -> take (Z.to_nat k) (addrs b i n) = addrs b i k.
Proof.
  intros. replace n with (k + (n - k)) by lia. rewrite addrs_app by lia. apply take_app_length'.
  unfold addrs. by rewrite length_fmap, length_seqZ.
Qed.

Lemma addrs_drop b i n k : 0 <= k <= n -> drop (Z.to_nat k) (addrs b i n) = addrs b (i + k) (n - k).
Proof.
  intros. replace n with (k + (n - k)) at 1 by lia. rewrite addrs_app by lia. apply drop_app_length'.
  unfold addrs. by rewrite length_fmap, length_seqZ.
Qed.

Lemma addrs_same b b' i n : b'.(size) = b.(size) -> b'.(buffer) = b.(buffer) -> addrs b' i n = addrs b i n.
Proof. intros H1 H2. unfold addrs. apply list_fmap_ext. intros. by apply at_pos_same. Qed.

Lemma addrs_area b i n : 0 < b.(size) -> n <= b.(size) - i mod b.(size) -> seqZ (at_pos b i) n = addrs b i n.
Proof.
  intros Hs Hn. unfold addrs. apply list_eq. intros j. rewrite list_lookup_fmap.
  destruct (decide (Z.of_nat j < n)) as [Hj|Hj].
  - rewrite !lookup_seqZ_lt by lia. simpl. f_equal. rewrite at_pos_run by lia. done.
  - by rewrite !lookup_seqZ_ge by lia.
Qed.

Lemma elem_addrs b i n x : x ∈ addrs b i n <-> exists j, 0 <= j < n /\ x = at_pos b (i + j).
Proof.
  unfold addrs. rewrite list_elem_of_fmap. setoid_rewrite elem_of_seqZ. split.
  - intros (j & -> & Hj). exists (j - i). split; [lia|]. f_equal. lia.
  - intros (j & Hj & ->). exists (i + j). split; [done|lia].
Qed.

Lemma cells_nil b i n : 0 <= n -> cells [] = addrs b i n -> n = 0.
Proof. intros Hn H%(f_equal (fun l => Z.of_nat (length l))). rewrite addrs_len in H by done. done. Qed.

Lemma cells_snoc l a n : cells (l ++ [(a, n)]) = cells l ++ seqZ a n.
Proof. unfold cells. rewrite map_app, concat_app. simpl. by rewrite app_nil_r. Qed.

Lemma fmap_same (m m' : memory) (l : list Z) : (forall x, x ∈ l -> m' x = m x) -> m' <$> l = m <$> l.
Proof. intros H. apply list_fmap_ext. intros i x Hx. apply H. by eapply list_elem_of_lookup_2. Qed.

Lemma copied_load b i data k m m' : copied b i data k m m' -> m' <$> addrs b i k = load m data k.
Proof.
  intros [H _]. unfold load, addrs. apply list_eq. intros j. rewrite !list_lookup_fmap.
  destruct (decide (Z.of_nat j < k)); [|by rewrite !lookup_seqZ_ge by lia].
  rewrite !lookup_seqZ_lt by lia. simpl. f_equal. apply H. lia.
Qed.

Lemma copied_other b i data k m m' i' n : 0 < b.(size) -> copied b i data k m m' -> i' + n <= i -> i + k <= i' + b.(size) ->
  m' <$> addrs b i' n = m <$> addrs b i' n.
Proof.
  intros Hs [_ H] H1 H2. apply fmap_same. intros x (j & Hj & ->)%elem_addrs. apply H. intros j' Hj' E.
  apply at_pos_inj in E; lia.
Qed.

Lemma delivered_load b i d k m m' : delivered b i (Some d) k m m' -> load m' d k = m <$> addrs b i k.
Proof.
  intros H. unfold load, addrs. apply list_eq. intros j. rewrite !list_lookup_fmap.
  destruct (decide (Z.of_nat j < k)); [|by rewrite !lookup_seqZ_ge by lia].
  rewrite !lookup_seqZ_lt by lia. simpl. f_equal. rewrite H.
  rewrite (proj2 (Z.leb_le _ _)), (proj2 (Z.ltb_lt _ _)) by lia. simpl. f_equal. f_equal. lia.
Qed.

Lemma delivered_other b i data sz k m m' i' n : 0 < b.(size) -> delivered b i data k m m' -> clear_of b data sz -> k <= sz ->
  m' <$> addrs b i' n = m <$> addrs b i' n.
Proof.
  intros Hs H Hc Hk. apply fmap_same. intros x (j & Hj & ->)%elem_addrs. rewrite H.
  pose proof (at_pos_in b (i' + j) Hs). destruct data as [d|]; [|done]. unfold clear_of, apart in Hc.
  destruct (Z.leb_spec d (at_pos b (i' + j))), (Z.ltb_spec (at_pos b (i' + j)) (d + k)); simpl; done || lia.
Qed.

Lemma stored_len c p q : refines c p q -> len q.(stored) = p.(pt) - p.(gt).
Proof.
  intros H. unfold len. rewrite (rf_stored _ _ _ H), length_fmap. apply addrs_len.
  pose proof (ro_order _ _ (rf_ok _ _ _ H)). lia.
Qed.

Lemma load_len m a n : 0 <= n -> len (load m a n) = n.
Proof. intros. unfold len, load. rewrite length_fmap, length_seqZ. lia. Qed.

Lemma load_take m a n k : 0 <= k <= n -> take (Z.to_nat k) (load m a n) = load m a k.
Proof.
  intros. unfold load. replace n with (k + (n - k)) by lia. rewrite seqZ_app, fmap_app by lia.
  apply take_app_length'. by rewrite length_fmap, length_seqZ.
Qed.

Definition simulated (c : client) (q : fifo) (e : rb_event) (c' : client) : Prop :=
  exists p' q', fifo_step c.(rb).(size) q e q' /\ refines c' p' q' /\
    c'.(rb).(size) = c.(rb).(size) /\ c'.(rb).(buffer) = c.(rb).(buffer).

Lemma sim_put c p q data sz r b m : refines c p q -> c.(wareas) = [] -> 0 <= sz < 2 ^ 32 ->
  apart data sz c.(rb).(buffer) c.(rb).(size) -> ring_buf_put c.(rb) data sz c.(mem) = (r, b, m) ->
  simulated c q (RPut (load c.(mem) data sz) r) (Client b m [] c.(rareas)).
Proof.
  intros Hr Hw Hsz Hap E. pose proof (stored_len _ _ _ Hr) as Hl. destruct Hr as [H1 H2 H3 H4 H5 H6].
  pose proof (ro_order _ _ H1). pose proof (ro_size _ _ H1). rewrite Hw in H5. apply cells_nil in H5; [|lia].
  destruct (put_ok c.(rb) p data sz c.(mem) H1) as (b' & m' & E' & Hok & Hs & Hb & Hc); try (done || lia).
  rewrite E in E'. injection E' as -> -> ->. set (k := Z.min sz _) in *.
  eexists _, _. split; [|split; [|done]].
  - simpl. rewrite Hl, load_len by lia. split; [done|reflexivity].
  - split; try exact Hok; simpl; try done.
    + rewrite !(addrs_same c.(rb) b') by done. replace (pt p + k - gt p) with (pt p - gt p + k) by lia.
      rewrite addrs_app, fmap_app by lia. rewrite (copied_other c.(rb) p.(pt) data k c.(mem)) by (done || lia).
      rewrite H2, load_take by lia. f_equal. symmetry. replace (gt p + (pt p - gt p)) with (pt p) by lia. by apply copied_load.
    + lia.
    + by rewrite Z.sub_diag.
    + by rewrite (addrs_same c.(rb) b').
Qed.

Lemma sim_get c p q data sz r b m : refines c p q -> c.(rareas) = [] -> 0 <= sz < 2 ^ 32 ->
  clear_of c.(rb) data sz -> ring_buf_get c.(rb) data sz c.(mem) = (r, b, m) ->
  simulated c q (RGet sz r ((fun d => load m d r) <$> data)) (Client b m c.(wareas) []).
Proof.
  intros Hr Hw Hsz Hap E. pose proof (stored_len _ _ _ Hr) as Hl. destruct Hr as [H1 H2 H3 H4 H5 H6].
  pose proof (ro_order _ _ H1). pose proof (ro_size _ _ H1). rewrite Hw in H6. apply cells_nil in H6; [|lia].
  destruct (get_ok c.(rb) p data sz c.(mem) H1) as (b' & m' & E' & Hok & Hs & Hb & Hc); try (done || lia).
  rewrite E in E'. injection E' as -> -> ->. set (k := Z.min sz _) in *.
  eexists _, _. split; [|split; [|done]].
  - simpl. rewrite Hl. split; [done|]. split; [reflexivity|]. intros d' Hd'. destruct data as [d|]; [|done].
    injection Hd' as <-. rewrite (delivered_load _ _ _ _ _ _ Hc), H2, <- fmap_take, addrs_take by lia. done.
  - split; try exact Hok; simpl; try done.
    + rewrite (addrs_same c.(rb) b') by done. rewrite (delivered_other c.(rb) p.(gt) data sz k c.(mem)) by (done || lia).
      rewrite H2, <- fmap_drop, addrs_drop by lia. f_equal. f_equal. lia.
    + lia.
    + by rewrite (addrs_same c.(rb) b').
    + by rewrite Z.sub_diag.
Qed.

Lemma sim_peek c p q data sz r b m : refines c p q -> c.(rareas) = [] -> 0 <= sz < 2 ^ 32 ->
  clear_of c.(rb) (Some data) sz -> ring_buf_peek c.(rb) data sz c.(mem) = (r, b, m) ->
  simulated c q (RPeek sz r (load m data r)) (Client b m c.(wareas) []).
Proof.
  intros Hr Hw Hsz Hap E. pose proof (stored_len _ _ _ Hr) as Hl. destruct Hr as [H1 H2 H3 H4 H5 H6].
  pose proof (ro_order _ _ H1). pose proof (ro_size _ _ H1). rewrite Hw in H6. apply cells_nil in H6 as H7; [|lia].
  destruct (peek_ok c.(rb) p data sz c.(mem) H1) as (b' & m' & E' & Hok & Hs & Hb & Hc); try (done || lia).
  rewrite E in E'. injection E' as -> -> ->. set (k := Z.min sz _) in *.
  eexists _, _. split; [|split; [|done]].
  - simpl. rewrite Hl. split; [done|]. split; [reflexivity|].
    rewrite (delivered_load _ _ _ _ _ _ Hc), H2, <- fmap_take, addrs_take by lia. done.
  - split; try exact Hok; simpl; rewrite ?(addrs_same c.(rb) b') by done; try done.
    by rewrite (delivered_other c.(rb) p.(gt) (Some data) sz k c.(mem)) by (done || lia).
Qed.

Lemma two_areas b i n : 0 < b.(size) -> 0 <= n <= b.(size) -> let n1 := Z.min (n - 0) (b.(size) - (i + 0) mod b.(size)) in
  let n2 := Z.min (n - n1) (b.(size) - (i + n1) mod b.(size)) in
  cells [(at_pos b (i + 0), n1); (at_pos b (i + n1), n2)] = addrs b i n.
Proof.
  intros Hs Hn n1 n2. unfold cells. simpl. rewrite app_nil_r, (addrs_area b (i + 0)), (addrs_area b (i + n1)) by (done || apply Z.le_min_r).
  pose proof (Z.mod_pos_bound i b.(size) Hs) as Hm. unfold n2. clear n2. unfold n1. clear n1. rewrite !Z.add_0_r, Z.sub_0_r.
  destruct (Z.leb_spec n (b.(size) - i mod b.(size))) as [Hc|Hc].
  - rewrite !Z.min_l by lia. rewrite Z.sub_diag. pose proof (Z.mod_pos_bound (i + n) b.(size) Hs).
    rewrite Z.min_l by lia. apply app_nil_r.
  - rewrite (Z.min_r n) by lia. set (n1 := size b - i mod size b) in *.
    assert (E : (i + n1) mod b.(size) = 0).
    { unfold n1. rewrite <- Zplus_mod_idemp_l. replace (i mod size b + (size b - i mod size b)) with (1 * size b) by lia.
      apply Z.mod_mul. lia. }
    rewrite E, Z.min_l, <- addrs_app by lia. f_equal. lia.
Qed.

Lemma free_areas_ok b p : ring_ok b p -> cells (free_areas b) = addrs b p.(ph) (b.(size) - (p.(ph) - p.(gt))).
Proof.
  intros H. pose proof (ro_order _ _ H). pose proof (ro_size _ _ H). unfold free_areas.
  rewrite (put_ptr_ok b p 0 H) by lia. pose proof (Z.mod_pos_bound (ph p + 0) b.(size) ltac:(lia)).
  rewrite (put_ptr_ok b p _ H) by lia. apply two_areas; lia.
Qed.

Lemma data_areas_ok b p : ring_ok b p -> cells (data_areas b) = addrs b p.(gh) (p.(pt) - p.(gh)).
Proof.
  intros H. pose proof (ro_order _ _ H). pose proof (ro_size _ _ H). unfold data_areas.
  rewrite (get_ptr_ok b p 0 H) by lia. pose proof (Z.mod_pos_bound (gh p + 0) b.(size) ltac:(lia)).
  rewrite (get_ptr_ok b p _ H) by lia. apply two_areas; lia.
Qed.

(** What every simulation proof starts from. *)
Ltac open_refines Hr := pose proof (stored_len _ _ _ Hr) as Hl; destruct Hr as [H1 H2 H3 H4 H5 H6];
  pose proof (ro_order _ _ H1); pose proof (ro_size _ _ H1).

Lemma sim_put_claim c p q n r a b : refines c p q -> 0 <= n < 2 ^ 32 -> ring_buf_put_claim c.(rb) n = (r, a, b) ->
  simulated c q (RPutClaim n r) (Client b c.(mem) (c.(wareas) ++ [(a, r)]) c.(rareas)).
Proof.
  intros Hr Hn E. open_refines Hr.
  destruct (put_claim_ok c.(rb) p n H1 ltac:(lia)) as (b' & E' & Hok & Hs & Hb).
  rewrite E in E'. injection E' as -> -> ->. set (k := Z.min (Z.min _ _) _) in *.
  pose proof (Z.mod_pos_bound (ph p) c.(rb).(size) ltac:(lia)).
  eexists _, _. split; [|split; [|done]].
  - cbn zeta. simpl. rewrite Hl, H4. split; [lia|]. split; [lia|reflexivity].
  - split; try exact Hok; simpl; rewrite ?(addrs_same c.(rb) b') by done; try done; [lia|].
    rewrite cells_snoc, H5, addrs_area by lia. replace (ph p + k - pt p) with (ph p - pt p + k) by lia.
    rewrite addrs_app by lia. f_equal. f_equal. lia.
Qed.

Lemma sim_get_claim c p q n r a b : refines c p q -> 0 <= n < 2 ^ 32 -> ring_buf_get_claim c.(rb) n = (r, a, b) ->
  simulated c q (RGetClaim n r (load c.(mem) a r)) (Client b c.(mem) c.(wareas) (c.(rareas) ++ [(a, r)])).
Proof.
  intros Hr Hn E. open_refines Hr.
  destruct (get_claim_ok c.(rb) p n H1 ltac:(lia)) as (b' & E' & Hok & Hs & Hb).
  rewrite E in E'. injection E' as -> -> ->. set (k := Z.min (Z.min _ _) _) in *.
  pose proof (Z.mod_pos_bound (gh p) c.(rb).(size) ltac:(lia)).
  eexists _, _. split; [|split; [|done]].
  - cbn zeta. simpl. rewrite Hl, H3. split; [lia|]. split; [lia|]. split; [|reflexivity].
    unfold load. rewrite addrs_area, H2, <- fmap_drop, <- fmap_take, addrs_drop, addrs_take by lia.
    f_equal. f_equal. lia.
  - split; try exact Hok; simpl; rewrite ?(addrs_same c.(rb) b') by done; try done; [lia|].
    rewrite cells_snoc, H6, addrs_area by lia. replace (gh p + k - gt p) with (gh p - gt p + k) by lia.
    rewrite addrs_app by lia. f_equal. f_equal. lia.
Qed.

Lemma sim_put_finish c p q n r b : refines c p q -> 0 <= n < 2 ^ 32 -> ring_buf_put_finish c.(rb) n = (r, b) ->
  simulated c q (RPutFinish n r (c.(mem) <$> take (Z.to_nat n) (cells c.(wareas))))
    (Client b c.(mem) (if r =? 0 then [] else c.(wareas)) c.(rareas)).
Proof.
  intros Hr Hn E. open_refines Hr.
  destruct (put_finish_ok c.(rb) p n H1 ltac:(lia)) as (b' & E' & Hok & Hs & Hb). rewrite E in E'. injection E' as -> ->.
  destruct (Z.ltb_spec (ph p - pt p) n) as [Hc|Hc].
  - eexists _, q. split; [|split; [|done]].
    + simpl. rewrite H4, (proj2 (Z.leb_gt _ _)) by lia. done.
    + split; try exact Hok; simpl; rewrite ?(addrs_same c.(rb) b') by done; done.
  - eexists _, _. split; [|split; [|done]].
    + simpl. rewrite H4, (proj2 (Z.leb_le _ _)), H5, addrs_take by lia. split; [done|]. split; [|reflexivity].
      unfold len. rewrite length_fmap. apply addrs_len. lia.
    + split; try exact Hok; simpl; rewrite ?(addrs_same c.(rb) b') by done; try done.
      * replace (pt p + n - gt p) with (pt p - gt p + n) by lia. rewrite addrs_app, fmap_app, H2 by lia.
        f_equal. f_equal. f_equal. lia.
      * lia.
      * by rewrite Z.sub_diag.
Qed.

Lemma sim_get_finish c p q n r b : refines c p q -> 0 <= n < 2 ^ 32 -> ring_buf_get_finish c.(rb) n = (r, b) ->
  simulated c q (RGetFinish n r) (Client b c.(mem) c.(wareas) (if r =? 0 then [] else c.(rareas))).
Proof.
  intros Hr Hn E. open_refines Hr.
  destruct (get_finish_ok c.(rb) p n H1 ltac:(lia)) as (b' & E' & Hok & Hs & Hb). rewrite E in E'. injection E' as -> ->.
  destruct (Z.ltb_spec (gh p - gt p) n) as [Hc|Hc].
  - eexists _, q. split; [|split; [|done]].
    + simpl. rewrite H3, (proj2 (Z.leb_gt _ _)) by lia. done.
    + split; try exact Hok; simpl; rewrite ?(addrs_same c.(rb) b') by done; done.
  - eexists _, _. split; [|split; [|done]].
    + simpl. rewrite H3, (proj2 (Z.leb_le _ _)) by lia. split; [done|reflexivity].
    + split; try exact Hok; simpl; rewrite ?(addrs_same c.(rb) b') by done; try done.
      * rewrite H2, <- fmap_drop, addrs_drop by lia. f_equal. f_equal. lia.
      * lia.
      * by rewrite Z.sub_diag.
Qed.

Lemma sim_commit c p q n : refines c p q -> c.(wareas) = [] -> 0 <= n <= ring_buf_space_get c.(rb) ->
  simulated c q (RCommit (c.(mem) <$> take (Z.to_nat n) (cells (free_areas c.(rb)))))
    (Client (ring_buf_commit c.(rb) n) c.(mem) [] c.(rareas)).
Proof.
  intros Hr Hw Hn. open_refines Hr. rewrite (space_ok _ p H1) in Hn. rewrite Hw in H5. apply cells_nil in H5; [|lia].
  pose proof (commit_ok c.(rb) p n H1 ltac:(lia)) as Hok. rewrite (free_areas_ok _ p H1), addrs_take by lia.
  eexists _, _. split; [|split; [|done]].
  - simpl. split; [|reflexivity]. rewrite Hl. unfold len. rewrite length_fmap, addrs_len by lia. lia.
  - split; try exact Hok; simpl; rewrite ?(addrs_same c.(rb) (ring_buf_commit c.(rb) n)) by done; try done.
    + replace (pt p + n - gt p) with (pt p - gt p + n) by lia. rewrite addrs_app, fmap_app, H2 by lia.
      f_equal. f_equal. f_equal. lia.
    + lia.
    + by rewrite Z.sub_diag.
Qed.

Lemma sim_consume c p q n : refines c p q -> c.(rareas) = [] -> 0 <= n <= ring_buf_size_get c.(rb) ->
  simulated c q (RConsume (c.(mem) <$> take (Z.to_nat n) (cells (data_areas c.(rb)))))
    (Client (ring_buf_consume c.(rb) n) c.(mem) c.(wareas) []).
Proof.
  intros Hr Hw Hn. open_refines Hr. rewrite (size_ok _ p H1) in Hn. rewrite Hw in H6. apply cells_nil in H6; [|lia].
  pose proof (consume_ok c.(rb) p n H1 ltac:(lia)) as Hok. rewrite (data_areas_ok _ p H1), addrs_take by lia.
  eexists _, _. split; [|split; [|done]].
  - simpl. exists (c.(mem) <$> addrs c.(rb) (gh p + n) (pt p - gh p - n)). split; [|reflexivity].
    rewrite H2, <- fmap_app, <- addrs_app by lia. f_equal. f_equal; lia.
  - split; try exact Hok; simpl; rewrite ?(addrs_same c.(rb) (ring_buf_consume c.(rb) n)) by done; try done.
    + f_equal. f_equal; lia.
    + lia.
    + by rewrite Z.sub_diag.
Qed.

Lemma sim_write c p q m : refines c p q ->
  (forall x, c.(rb).(buffer) <= x < c.(rb).(buffer) + c.(rb).(size) ->
    x ∉ cells c.(wareas) -> x ∉ cells (free_areas c.(rb)) -> m x = c.(mem) x) ->
  simulated c q RWrite (Client c.(rb) m c.(wareas) c.(rareas)).
Proof.
  intros Hr Hm. open_refines Hr. rewrite H5, (free_areas_ok _ p H1) in Hm.
  exists p, q. split; [done|]. split; [|done]. split; try done. simpl. rewrite H2. symmetry. apply fmap_same.
  intros x (j & Hj & ->)%elem_addrs. apply Hm; [apply at_pos_in; lia|..];
    intros (j' & Hj' & E)%elem_addrs; apply at_pos_inj in E; lia.
Qed.

Lemma step_simulated c p q e c' : refines c p q -> rb_step c e c' -> simulated c q e c'.
Proof.
  intros Hr Hs. destruct Hs; eauto using sim_put, sim_get, sim_peek, sim_put_claim, sim_put_finish,
    sim_get_claim, sim_get_finish, sim_commit, sim_consume, sim_write.
  - open_refines Hr. exists p, q. split; [|done]. simpl.
    rewrite (space_ok _ p H1), (size_ok _ p H1), (empty_ok _ p H1), Hl, H3, H4.
    split_and!; try lia. destruct (Z.eqb_spec (pt p) (gh p)), (Z.eqb_spec (pt p - gh p) 0); done || lia.
  - open_refines Hr. eexists _, _. split; [reflexivity|]. split; [|done].
    split; try exact (ring_reset_ok _ p H1); done.
Qed.

Lemma run_simulated c p q l c' : refines c p q -> rb_run c l c' ->
  exists p' q', fifo_run c.(rb).(size) q l q' /\ refines c' p' q' /\
    c'.(rb).(size) = c.(rb).(size) /\ c'.(rb).(buffer) = c.(rb).(buffer).
Proof.
  intros Hr Hrun. induction Hrun as [c|c l c1 e c2 _ IH Hs].
  - exists p, q. split; [constructor|done].
  - destruct (IH Hr) as (p1 & q1 & Hf & Hr1 & Hz & Hb). destruct (step_simulated _ _ _ _ _ Hr1 Hs) as (p2 & q2 & H1 & H2 & H3 & H4).
    exists p2, q2. split; [|split; [done|split; congruence]]. eapply fr_snoc; [done|]. by rewrite <- Hz.
Qed.

(** ** Items *)

Record item := Item { ity : Z; ival : Z; idata : list Z }.
Definition isize (it : item) : Z := len it.(idata) / 4.
Definition encode (it : item) : list Z := [u8 it.(ity); u8 (it.(ity) / 256); isize it; it.(ival)] ++ it.(idata).

Inductive item_event :=
| IPut (it : item) (r : Z)
(** The words there is room for ([None]: discard the data), the result, [*size32], and
    what is delivered on success. *)
| IGet (room : option Z) (r : Z) (sz32 : Z) (type value : Z) (d : option (list Z)).

Inductive item_step : ring_buf * memory -> item_event -> ring_buf * memory -> Prop :=
| is_put b m type value data32 size32 r b' m' : 0 <= type < 2 ^ 16 -> 0 <= value < 256 -> 0 <= size32 < 256 ->
    apart data32 (size32 * 4) b.(buffer) b.(size) -> ring_buf_item_put b type value data32 size32 m = (r, b', m') ->
    item_step (b, m) (IPut (Item type value (load m data32 (size32 * 4))) r) (b', m')
| is_get b m data32 size32 r type value n b' m' : 0 <= size32 < 256 -> clear_of b data32 (size32 * 4) ->
    ring_buf_item_get b data32 size32 m = (r, (type, value, n), b', m') ->
    item_step (b, m) (IGet ((fun _ => size32) <$> data32) r n type value ((fun d => load m' d (n * 4)) <$> data32)) (b', m').

Inductive item_run : ring_buf * memory -> list item_event -> ring_buf * memory -> Prop :=
| ir_nil c : item_run c [] c
| ir_snoc c l c1 e c2 : item_run c l c1 -> item_step c1 e c2 -> item_run c (l ++ [e]) c2.

Definition item_spec (cap : Z) (q : list item) (e : item_event) (q' : list item) : Prop :=
  match e with
  | IPut it r =>
      if cap - len (concat (encode <$> q)) <? len (encode it) then r = - EMSGSIZE /\ q' = q
      else r = 0 /\ q' = q ++ [it]
  | IGet room r n type value d =>
      match q with
      | [] => r = - EAGAIN /\ q' = []
      | it :: rest =>
          n = isize it /\
          if match room with Some size32 => size32 <? isize it | None => false end then r = - EMSGSIZE /\ q' = q
          else r = 0 /\ q' = rest /\ type = it.(ity) /\ value = it.(ival) /\
               (forall d', d = Some d' -> d' = it.(idata))
      end
  end.

Inductive item_spec_run (cap : Z) : list item -> list item_event -> list item -> Prop :=
| isr_nil q : item_spec_run cap q [] q
| isr_snoc q l q1 e q2 : item_spec_run cap q l q1 -> item_spec cap q1 e q2 -> item_spec_run cap q (l ++ [e]) q2.

Record item_ok (it : item) : Prop := {
  io_type : 0 <= it.(ity) < 2 ^ 16; io_size : 0 <= isize it < 256; io_len : len it.(idata) = isize it * 4 }.

Record irefines (c : ring_buf * memory) (p : positions) (q : list item) : Prop := {
  ir_ok : ring_ok c.1 p;
  ir_claims : p.(gh) = p.(gt) /\ p.(ph) = p.(pt);
  ir_aligned : (4 | c.1.(size)) /\ (4 | p.(gt)) /\ (4 | p.(pt));
  ir_items : Forall item_ok q;
  ir_stored : c.2 <$> addrs c.1 p.(gt) (p.(pt) - p.(gt)) = concat (encode <$> q)
}.

Lemma aligned_room b i : 0 < b.(size) -> (4 | b.(size)) -> (4 | i) -> 4 <= b.(size) - i mod b.(size).
Proof.
  intros Hs [s Hd] [x Hx]. pose proof (Z.mod_pos_bound i b.(size) Hs). pose proof (Z.div_mod i b.(size) ltac:(lia)) as E.
  assert (E2 : b.(size) - i mod b.(size) = 4 * (s + s * (i / b.(size)) - x)) by nia. lia.
Qed.

Lemma encode_len it : item_ok it -> len (encode it) = 4 + isize it * 4.
Proof. intros H. unfold encode, len. rewrite length_app. pose proof (io_len _ H) as E. unfold len in E. simpl. lia. Qed.

Lemma stored_items_len c p q : irefines c p q -> len (concat (encode <$> q)) = p.(pt) - p.(gt).
Proof.
  intros H. rewrite <- (ir_stored _ _ _ H). unfold len. rewrite length_fmap. apply addrs_len.
  pose proof (ro_order _ _ (ir_ok _ _ _ H)). lia.
Qed.

Lemma seqZ_4 a : seqZ a 4 = [a; a + 1; a + 2; a + 3].
Proof.
  apply list_eq. intros i.
  do 4 (destruct i as [|i]; [by rewrite lookup_seqZ_lt by lia; simpl; f_equal; lia|]).
  by rewrite lookup_seqZ_ge by lia.
Qed.

Lemma store4_at b i b0 b1 b2 b3 m : 0 < b.(size) -> 4 <= b.(size) - i mod b.(size) ->
  store4 (at_pos b i) b0 b1 b2 b3 m <$> addrs b i 4 = [b0; b1; b2; b3] /\
  (forall x, (forall j, 0 <= j < 4 -> x <> at_pos b (i + j)) -> store4 (at_pos b i) b0 b1 b2 b3 m x = m x).
Proof.
  intros Hs Hr. pose proof (at_pos_run b i) as Hp. split.
  - rewrite <- addrs_area, seqZ_4 by lia. unfold store4, upd. cbn [fmap list_fmap].
    repeat (case_decide; try lia). done.
  - intros x Hx. unfold store4, upd.
    pose proof (Hx 0 ltac:(lia)). pose proof (Hx 1 ltac:(lia)). pose proof (Hx 2 ltac:(lia)). pose proof (Hx 3 ltac:(lia)).
    rewrite !Hp in * by lia. repeat case_decide; try done; lia.
Qed.

Lemma put_claim_header b p : ring_ok b p -> p.(ph) = p.(pt) -> (4 | b.(size)) -> (4 | p.(pt)) ->
  4 <= b.(size) - (p.(pt) - p.(gt)) ->
  exists b', ring_buf_put_claim b 4 = (4, at_pos b p.(pt), b') /\ ring_ok b' (set_ph (p.(pt) + 4) p) /\
    b'.(size) = b.(size) /\ b'.(buffer) = b.(buffer).
Proof.
  intros Hok Hp Ha1 Ha2 Hr. pose proof (ro_size _ _ Hok). pose proof (aligned_room b p.(pt) ltac:(lia) Ha1 Ha2).
  destruct (put_claim_ok b p 4 Hok ltac:(lia)) as (b' & E & Hc). rewrite Hp in *.
  rewrite !Z.min_l in E, Hc by lia. by exists b'.
Qed.

Lemma get_claim_header b p : ring_ok b p -> p.(gh) = p.(gt) -> (4 | b.(size)) -> (4 | p.(gt)) ->
  4 <= p.(pt) - p.(gt) ->
  exists b', ring_buf_get_claim b 4 = (4, at_pos b p.(gt), b') /\ ring_ok b' (set_gh (p.(gt) + 4) p) /\
    b'.(size) = b.(size) /\ b'.(buffer) = b.(buffer).
Proof.
  intros Hok Hp Ha1 Ha2 Hr. pose proof (ro_size _ _ Hok). pose proof (aligned_room b p.(gt) ltac:(lia) Ha1 Ha2).
  destruct (get_claim_ok b p 4 Hok ltac:(lia)) as (b' & E & Hc). rewrite Hp in *.
  rewrite !Z.min_l in E, Hc by lia. by exists b'.
Qed.

(** An item that fits: the header and the data follow the bytes stored. *)
Lemma item_put_ok b p type value data32 size32 m : ring_ok b p -> p.(ph) = p.(pt) -> (4 | b.(size)) -> (4 | p.(pt)) ->
  0 <= size32 < 256 -> apart data32 (size32 * 4) b.(buffer) b.(size) ->
  4 + size32 * 4 <= b.(size) - (p.(pt) - p.(gt)) -> let k := 4 + size32 * 4 in
  exists b' m', ring_buf_item_put b type value data32 size32 m = (0, b', m') /\
    ring_ok b' (Positions p.(gt) p.(gh) (p.(pt) + k) (p.(pt) + k)) /\ b'.(size) = b.(size) /\ b'.(buffer) = b.(buffer) /\
    m' <$> addrs b p.(pt) k = [u8 type; u8 (type / 256); size32; value] ++ load m data32 (size32 * 4) /\
    m' <$> addrs b p.(gt) (p.(pt) - p.(gt)) = m <$> addrs b p.(gt) (p.(pt) - p.(gt)).
Proof.
  intros Hok Hp Ha1 Ha2 Hz Hap Hfit k. pose proof (ro_size _ _ Hok). pose proof (ro_order _ _ Hok).
  unfold ring_buf_item_put. rewrite (space_ok b p Hok), Hp, (proj2 (Z.ltb_ge _ _)) by lia.
  destruct (put_claim_header b p Hok Hp Ha1 Ha2 ltac:(lia)) as (b1 & E1 & Hok1 & Hs1 & Hb1). rewrite E1.
  destruct (store4_at b p.(pt) (u8 type) (u8 (type / 256)) size32 value m) as [Hh Ho];
    [lia|apply aligned_room; (done || lia)|]. set (m1 := store4 _ _ _ _ _ _) in *.
  destruct (put_loop_ok (S (Z.to_nat (size32 * 4))) b1 _ data32 (size32 * 4) 4 m1 Hok1)
    as (b2 & m2 & E2 & Hok2 & Hs2 & Hb2 & Hc); try lia; [by rewrite Hs1, Hb1|].
  cbn [ph gt gh pt set_ph set_gh] in E2, Hok2, Hc. rewrite Hs1, Z.min_l in E2, Hok2, Hc by lia. apply (copied_same b) in Hc; [|done..]. rewrite E2. fold k.
  destruct (put_finish_ok b2 _ k Hok2 ltac:(lia)) as (b3 & E3 & Hok3 & Hs3 & Hb3). simpl in E3, Hok3.
  rewrite (proj2 (Z.ltb_ge _ _)) in Hok3 by lia. rewrite E3. exists b3, m2.
  split; [done|]. split; [done|]. split; [congruence|]. split; [congruence|]. split.
  - unfold k. rewrite addrs_app, fmap_app by lia. f_equal.
    + rewrite <- Hh. eapply copied_other; (done || lia).
    + rewrite (copied_load _ _ _ _ _ _ Hc). unfold load. apply fmap_same. intros x [Hx1 Hx2]%elem_of_seqZ. apply Ho.
      intros j Hj ->. pose proof (at_pos_in b (p.(pt) + j) ltac:(lia)). unfold apart in Hap. lia.
  - rewrite (copied_other b (p.(pt) + 4) data32 (size32 * 4) m1) by (done || lia). apply fmap_same.
    intros x (j & Hj & ->)%elem_addrs. apply Ho. intros j' Hj' E. apply at_pos_inj in E; lia.
Qed.

(** Taking an item whose header is the next four bytes. *)
Lemma item_get_ok b p data32 size32 m b0 b1 n v : ring_ok b p -> p.(gh) = p.(gt) -> (4 | b.(size)) -> (4 | p.(gt)) ->
  m <$> addrs b p.(gt) 4 = [b0; b1; n; v] -> 0 <= n < 256 -> 4 + n * 4 <= p.(pt) - p.(gt) ->
  clear_of b data32 (size32 * 4) ->
  exists b' m' t,
    b'.(size) = b.(size) /\ b'.(buffer) = b.(buffer) /\
    if match data32 with Some _ => size32 <? n | None => false end then
      ring_buf_item_get b data32 size32 m = (- EMSGSIZE, t, b', m') /\ t.2 = n /\ ring_ok b' p /\ m' = m
    else
      ring_buf_item_get b data32 size32 m = (0, (b0 + 256 * b1, v, n), b', m') /\
      ring_ok b' (Positions (p.(gt) + (4 + n * 4)) (p.(gt) + (4 + n * 4)) p.(pt) p.(ph)) /\
      delivered b (p.(gt) + 4) data32 (n * 4) m m'.
Proof.
  intros Hok Hp Ha1 Ha2 Hh Hn Hfit Hcl. pose proof (ro_size _ _ Hok). pose proof (ro_order _ _ Hok).
  unfold ring_buf_item_get. rewrite (empty_ok b p Hok), Hp, (proj2 (Z.eqb_neq _ _)) by lia.
  destruct (get_claim_header b p Hok Hp Ha1 Ha2 ltac:(lia)) as (b1' & E1 & Hok1 & Hs1 & Hb1). rewrite E1.
  rewrite <- addrs_area, seqZ_4 in Hh by (lia || (apply aligned_room; (done || lia))). injection Hh as E4 E5 E6 E7.
  rewrite E4, E5, E6, E7. cbn zeta.
  destruct (match data32 with Some _ => size32 <? n | None => false end) eqn:Em.
  - destruct (get_finish_ok b1' _ 0 Hok1 ltac:(lia)) as (b3 & E3 & Hok3 & Hs3 & Hb3). simpl in E3, Hok3.
    rewrite (proj2 (Z.ltb_ge _ _)) in Hok3 by lia. rewrite E3. exists b3, m, (0, 0, n).
    split_and!; try (congruence || done). destruct p; simpl in *. rewrite Z.add_0_r in Hok3. by subst.
  - destruct (get_loop_ok (S (Z.to_nat (n * 4))) b1' _ data32 (n * 4) 4 m Hok1)
      as (b2 & m2 & E2 & Hok2 & Hs2 & Hb2 & Hc); try lia.
    { unfold clear_of, apart in *. destruct data32; [|done]. apply Z.ltb_ge in Em. rewrite Hs1, Hb1. lia. }
    cbn [ph gt gh pt set_ph set_gh] in E2, Hok2, Hc. rewrite Z.min_l in E2, Hok2, Hc by lia. rewrite E2.
    destruct (get_finish_ok b2 _ (4 + n * 4) Hok2 ltac:(lia)) as (b3 & E3 & Hok3 & Hs3 & Hb3). simpl in E3, Hok3.
    rewrite (proj2 (Z.ltb_ge _ _)) in Hok3 by lia. rewrite E3. exists b3, m2, (0, 0, 0).
    split_and!; try (congruence || done). intros x. rewrite Hc. destruct data32; [|done]. by rewrite (at_pos_same b b1').
Qed.

Lemma len_app l l' : len (l ++ l') = len l + len l'.
Proof. unfold len. rewrite length_app. lia. Qed.

Lemma isize_load type value m d n : 0 <= n -> isize (Item type value (load m d (n * 4))) = n.
Proof. intros. unfold isize. simpl. rewrite load_len by lia. by apply Z.div_mul. Qed.

Lemma sim_item_put b m p q type value data32 size32 r b' m' : irefines (b, m) p q ->
  0 <= type < 2 ^ 16 -> 0 <= size32 < 256 -> apart data32 (size32 * 4) b.(buffer) b.(size) ->
  ring_buf_item_put b type value data32 size32 m = (r, b', m') ->
  exists p' q', item_spec b.(size) q (IPut (Item type value (load m data32 (size32 * 4))) r) q' /\
    irefines (b', m') p' q' /\ b'.(size) = b.(size).
Proof.
  intros Hr Ht Hz Hap E. pose proof (stored_items_len _ _ _ Hr) as Hl. set (it := Item _ _ _).
  assert (Hsz : isize it = size32) by (apply isize_load; lia).
  assert (Hit : item_ok it).
  { split; [done|by rewrite Hsz|]. rewrite Hsz. apply load_len. lia. }
  destruct Hr as [H1 [H2 H3] (H4 & H5 & H6) H7 H8]. cbn [fst snd] in *. unfold item_spec. rewrite Hl, encode_len, Hsz by done.
  destruct (Z.ltb_spec (b.(size) - (p.(pt) - p.(gt))) (4 + size32 * 4)) as [Hc|Hc].
  - unfold ring_buf_item_put in E. rewrite (space_ok b p H1), H3, (proj2 (Z.ltb_lt _ _)) in E by lia.
    injection E as <- <- <-. exists p, q. split; [done|]. split; [|done]. by split.
  - destruct (item_put_ok b p type value data32 size32 m H1) as (b1 & m1 & E' & Hok & Hs & Hb & Hn & Ho); try done.
    rewrite E in E'. injection E' as -> -> ->. pose proof (ro_order _ _ H1). eexists _, _. split; [done|]. split; [|done].
    split; cbn [fst snd]; try exact Hok; simpl; try done.
    + rewrite Hs. split; [done|]. split; [done|]. destruct H6 as [x ->]. exists (x + 1 + size32). lia.
    + by apply Forall_app_2; [|apply Forall_singleton].
    + rewrite !(addrs_same b b1) by done.
      replace (pt p + (4 + size32 * 4) - gt p) with (pt p - gt p + (4 + size32 * 4)) by lia.
      rewrite addrs_app, fmap_app, Ho, H8, fmap_app, concat_app by lia. f_equal.
      replace (gt p + (pt p - gt p)) with (pt p) by lia. rewrite Hn. simpl. rewrite app_nil_r, Hsz. done.
Qed.

Lemma header_type it : item_ok it -> u8 it.(ity) + 256 * u8 (it.(ity) / 256) = it.(ity).
Proof.
  intros [H _ _]. unfold u8. change (2 ^ 16) with (256 * 256) in H. change (2 ^ 8) with 256.
  pose proof (Z.div_mod it.(ity) 256 ltac:(lia)).
  rewrite (Z.mod_small (_ / _)); [lia|]. split; [apply Z.div_pos; lia|apply Z.div_lt_upper_bound; lia].
Qed.

Lemma sim_item_get b m p q data32 size32 r type value n b' m' : irefines (b, m) p q -> 0 <= size32 < 256 ->
  clear_of b data32 (size32 * 4) -> ring_buf_item_get b data32 size32 m = (r, (type, value, n), b', m') ->
  exists p' q', item_spec b.(size) q (IGet ((fun _ => size32) <$> data32) r n type value ((fun d => load m' d (n * 4)) <$> data32)) q' /\
    irefines (b', m') p' q' /\ b'.(size) = b.(size).
Proof.
  intros Hr Hz Hcl E. pose proof (stored_items_len _ _ _ Hr) as Hl.
  destruct Hr as [H1 [H2 H3] (H4 & H5 & H6) H7 H8]. cbn [fst snd] in *. pose proof (ro_order _ _ H1). pose proof (ro_size _ _ H1).
  destruct q as [|it rest].
  - unfold ring_buf_item_get in E. change (0 = pt p - gt p) in Hl. rewrite (empty_ok b p H1), (proj2 (Z.eqb_eq _ _)) in E by lia.
    injection E as <- <- <- <- <- <-. exists p, []. split; [done|]. split; [by split|done].
  - apply Forall_cons in H7 as [Hit H7]. pose proof (encode_len it Hit) as He. pose proof (io_size _ Hit). pose proof (io_len _ Hit) as Hil.
    assert (Hlr : p.(pt) - p.(gt) = 4 + isize it * 4 + len (concat (encode <$> rest))).
    { rewrite <- Hl, <- He. apply len_app. }
    assert (Hhd : m <$> addrs b p.(gt) (4 + isize it * 4) = encode it).
    { rewrite <- (addrs_take b (gt p) (pt p - gt p)), fmap_take, H8 by (unfold len in Hlr; lia).
      change (concat (encode <$> it :: rest)) with (encode it ++ concat (encode <$> rest)).
      rewrite <- He. unfold len. rewrite Nat2Z.id. apply take_app_length. }
    assert (Htl : m <$> addrs b (p.(gt) + (4 + isize it * 4)) (p.(pt) - (p.(gt) + (4 + isize it * 4))) = concat (encode <$> rest)).
    { replace (pt p - (gt p + (4 + isize it * 4))) with (pt p - gt p - (4 + isize it * 4)) by lia.
      rewrite <- addrs_drop, fmap_drop, H8 by (unfold len in Hlr; lia).
      change (concat (encode <$> it :: rest)) with (encode it ++ concat (encode <$> rest)).
      rewrite <- He. unfold len. rewrite Nat2Z.id. apply drop_app_length. }
    rewrite addrs_app, fmap_app in Hhd by lia. unfold encode in Hhd.
    apply app_inj_1 in Hhd as [Hhd Hdata]; [|rewrite length_fmap; unfold addrs; by rewrite length_fmap, length_seqZ].
    destruct (item_get_ok b p data32 size32 m _ _ _ _ H1 H2 H4 H5 Hhd) as (b1 & m1 & t & Hs & Hb & Hres);
      [done|unfold len in Hlr; lia|done|].
    replace (match data32 with Some _ => size32 <? isize it | None => false end)
      with (match (fun _ : Z => size32) <$> data32 with Some s => s <? isize it | None => false end) in Hres by (by destruct data32).
    unfold item_spec. destruct (match _ with Some s => _ | None => _ end) eqn:Em.
    + destruct Hres as (E' & Ht & Hok & ->). rewrite E in E'. injection E' as -> <- -> ->. simpl in Ht. subst n.
      exists p, (it :: rest). split; [done|]. split; [|done]. split; simpl; try done; [by rewrite Hs|by constructor|].
      by rewrite (addrs_same b b1).
    + destruct Hres as (E' & Hok & Hd). rewrite E in E'. injection E' as -> -> -> -> -> ->.
      eexists _, rest. split; [|split; [|exact Hs]].
      * split; [done|]. split; [done|]. split; [done|]. split; [by apply header_type|]. split; [done|].
        intros d' Hd'. destruct data32 as [d|]; [|done]. injection Hd' as <-. rewrite <- Hdata. by apply delivered_load.
      * split; cbn [fst snd]; try exact Hok; simpl; try done.
        -- rewrite Hs. split; [done|]. split; [|done]. destruct H5 as [x ->]. exists (x + 1 + isize it). lia.
        -- rewrite (addrs_same b b1) by done.
           rewrite <- Htl. eapply (delivered_other b _ data32 (isize it * 4)); [lia|exact Hd| |lia].
           destruct data32 as [d|]; [|done]. simpl in Em. apply Z.ltb_ge in Em. unfold clear_of, apart in *. lia.
Qed.

Lemma item_run_simulated c p q l c' : irefines c p q -> item_run c l c' ->
  exists p' q', item_spec_run c.1.(size) q l q' /\ irefines c' p' q' /\ c'.1.(size) = c.1.(size).
Proof.
  intros Hr Hrun. induction Hrun as [c|c l c1 e c2 _ IH Hs].
  - exists p, q. split; [constructor|done].
  - destruct (IH Hr) as (p1 & q1 & Hf & Hr1 & Hz).
    assert (exists p2 q2, item_spec c1.1.(size) q1 e q2 /\ irefines c2 p2 q2 /\ c2.1.(size) = c1.1.(size)) as (p2 & q2 & H1 & H2 & H3).
    { destruct Hs; [eapply sim_item_put|eapply sim_item_get]; eauto. }
    exists p2, q2. split; [|split; [done|congruence]]. eapply isr_snoc; [done|]. by rewrite <- Hz.
Qed.

Lemma init_refines sz data m : 0 < sz <= RING_BUFFER_MAX_SIZE ->
  refines (Client (ring_buf_init sz data) m [] []) (Positions 0 0 0 0) (Fifo [] 0 0).
Proof. intros H. split; try done. by apply ring_init_ok. Qed.

Lemma item_init_refines n data m : 0 < n -> 4 * n <= RING_BUFFER_MAX_SIZE ->
  irefines (ring_buf_item_init n data, m) (Positions 0 0 0 0) [].
Proof.
  intros H1 H2. destruct (size_small (4 * n) ltac:(lia)) as (_ & H3 & _).
  assert (E : u32 (4 * n) = 4 * n) by (apply Z.mod_small; lia).
  unfold ring_buf_item_init. rewrite E. split; try done; [apply ring_init_ok; lia|]. simpl.
  split; [exists n; lia|]. split; by exists 0.
Qed.
End ring_buf.

(** C27. The ring buffer is a queue of bytes, for indices of 16 and of 32 bits and whatever number of
    bytes has passed through it (the indices wrap around): along every sequence of put, get, peek,
    claims and finishes, commits and consumes through the pointers, resets, queries, and writes by the client in the
    areas it was given, the bytes read are the bytes written, in order; a put takes exactly the bytes
    that fit and a get exactly those stored; finishing more than was claimed gives -EINVAL and changes nothing. *)
Theorem ring_buf_is_byte_fifo (W : Z) (HW : W = 16 \/ W = 32) (sz data : Z) (m : memory) (l : list rb_event) (c : client)
    (Hsz : 0 < sz <= RING_BUFFER_MAX_SIZE W) (Hrun : rb_run W (Client (ring_buf_init sz data) m [] []) l c) :
  exists q, fifo_run sz (Fifo [] 0 0) l q /\ len q.(stored) + q.(writing) <= sz /\ 0 <= q.(reading) <= len q.(stored).
Proof.
  destruct (run_simulated W HW _ _ _ _ _ (init_refines W HW sz data m Hsz) Hrun) as (p & q & Hf & Hr & Hz & _).
  exists q. split; [done|]. pose proof (stored_len W _ _ _ Hr). destruct Hr as [H1 _ H3 H4 _ _].
  pose proof (ro_order _ _ _ H1). simpl in Hz. lia.
Qed.

(** C28. The ring buffer never leaves its storage: after any sequence of operations the areas that a claim or
    a pointer operation returns lie inside the buffer and are no larger than asked for, a put writes
    only inside the buffer, and a get writes only the bytes it reports at the destination. *)
Theorem ring_buf_in_bounds (W : Z) (HW : W = 16 \/ W = 32) (sz data : Z) (m : memory) (l : list rb_event) (c : client)
    (Hsz : 0 < sz <= RING_BUFFER_MAX_SIZE W) (Hrun : rb_run W (Client (ring_buf_init sz data) m [] []) l c) :
  let inside a n := data <= a /\ a + n <= data + sz in
  (forall n r a b, 0 <= n -> ring_buf_put_claim W c.(rb) n = (r, a, b) -> 0 <= r <= n /\ inside a r) /\
  (forall n r a b, 0 <= n -> ring_buf_get_claim W c.(rb) n = (r, a, b) -> 0 <= r <= n /\ inside a r) /\
  (forall off r a, 0 <= off <= ring_buf_space_get W c.(rb) -> ring_buf_put_ptr W c.(rb) off = (r, a) -> 0 <= r /\ inside a r) /\
  (forall off r a, 0 <= off <= ring_buf_size_get W c.(rb) -> ring_buf_get_ptr W c.(rb) off = (r, a) -> 0 <= r /\ inside a r) /\
  (forall src n r b m', c.(wareas) = [] -> 0 <= n < 2 ^ 32 -> apart src n data sz ->
    ring_buf_put W c.(rb) src n c.(mem) = (r, b, m') ->
    0 <= r <= n /\ forall x, ~ (data <= x < data + sz) -> m' x = c.(mem) x) /\
  (forall dst n r b m', c.(rareas) = [] -> 0 <= n < 2 ^ 32 -> apart dst n data sz ->
    ring_buf_get W c.(rb) (Some dst) n c.(mem) = (r, b, m') ->
    0 <= r <= n /\ forall x, ~ (dst <= x < dst + r) -> m' x = c.(mem) x).
Proof.
  intros inside.
  destruct (run_simulated W HW _ _ _ _ _ (init_refines W HW sz data m Hsz) Hrun) as (p & q & Hf & Hr & Hz & Hb).
  destruct Hr as [H1 _ H3 H4 H5 H6]. simpl in Hz, Hb. pose proof (ro_order _ _ _ H1) as Ho. rewrite Hz in Ho.
  rewrite (space_ok W HW _ p H1), (size_ok W HW _ p H1). rewrite Hz.
  assert (Hin : forall i n, n <= sz - i mod sz -> inside (at_pos c.(rb) i) n).
  { intros i n Hn. unfold inside, at_pos. rewrite Hz, Hb. pose proof (Z.mod_pos_bound i sz ltac:(lia)). lia. }
  assert (Hm : forall i, 0 <= i mod sz < sz) by (intros; apply Z.mod_pos_bound; lia).
  split_and!.
  - intros n r a b Hn E. destruct (put_claim_ok W HW _ p n H1 Hn) as (b' & E' & _). rewrite E in E'.
    injection E' as -> -> _. rewrite Hz. pose proof (Hm p.(ph)). split; [lia|]. apply Hin. lia.
  - intros n r a b Hn E. destruct (get_claim_ok W HW _ p n H1 Hn) as (b' & E' & _). rewrite E in E'.
    injection E' as -> -> _. rewrite Hz. pose proof (Hm p.(gh)). split; [lia|]. apply Hin. lia.
  - intros off r a Hoff E. rewrite (put_ptr_ok W HW _ p off H1) in E by (rewrite Hz; lia). injection E as <- <-.
    rewrite Hz. pose proof (Hm (p.(ph) + off)). split; [lia|]. apply Hin. lia.
  - intros off r a Hoff E. rewrite (get_ptr_ok W HW _ p off H1) in E by lia. injection E as <- <-.
    rewrite Hz. pose proof (Hm (p.(gh) + off)). split; [lia|]. apply Hin. lia.
  - intros src n r b m' Hw Hn Hap E. rewrite Hw in H5. apply cells_nil in H5; [|lia].
    destruct (put_ok W HW _ p src n c.(mem) H1 ltac:(lia) Hn) as (b1 & m1 & E' & _ & _ & _ & Hc); [by rewrite Hz, Hb|].
    rewrite E in E'. injection E' as -> -> ->. rewrite Hz in Hc |- *. split; [lia|]. intros x Hx. apply Hc.
    intros j Hj ->. pose proof (at_pos_in c.(rb) (p.(pt) + j) ltac:(lia)). lia.
  - intros dst n r b m' Hw Hn Hap E. rewrite Hw in H6. apply cells_nil in H6; [|lia].
    destruct (get_ok W HW _ p (Some dst) n c.(mem) H1 ltac:(lia) Hn) as (b1 & m1 & E' & _ & _ & _ & Hc);
      [unfold clear_of; by rewrite Hz, Hb|].
    rewrite E in E'. injection E' as -> -> ->. split; [lia|]. intros x Hx. rewrite Hc.
    destruct (Z.leb_spec dst x), (Z.ltb_spec x (dst + Z.min n (p.(pt) - p.(gt)))); simpl; done || lia.
Qed.

(** C29. The items of a ring buffer come back as they were put: along every sequence of item puts and
    gets, a get returns the type, the value and the data of the oldest item not yet taken; an item
    that does not fit is refused with -EMSGSIZE and one larger than the destination stays, its size reported; an
    empty buffer gives -EAGAIN. *)
Theorem ring_buf_items_round_trip (W : Z) (HW : W = 16 \/ W = 32) (n data : Z) (m : memory) (l : list item_event)
    (c : ring_buf * memory) (Hn : 0 < n) (Hsz : 4 * n <= RING_BUFFER_MAX_SIZE W)
    (Hrun : item_run W (ring_buf_item_init n data, m) l c) :
  exists q, item_spec_run (4 * n) [] l q /\ len (concat (encode <$> q)) <= 4 * n /\
    len (concat (encode <$> q)) = ring_buf_size_get W c.1.
Proof.
  pose proof (item_init_refines W HW n data m Hn Hsz) as H0.
  destruct (item_run_simulated W HW _ _ _ _ _ H0 Hrun) as (p & q & Hf & Hr & Hz).
  destruct (size_small W HW (4 * n) ltac:(lia)) as (_ & H3 & _).
  assert (E : (ring_buf_item_init n data).(size) = 4 * n) by (apply Z.mod_small; lia).
  simpl fst in *. rewrite E in *. exists q. split; [done|].
  rewrite (stored_items_len W _ _ _ Hr), (size_ok W HW _ p (ir_ok _ _ _ _ Hr)).
  pose proof (ro_order _ _ _ (ir_ok _ _ _ _ Hr)). pose proof (ir_claims _ _ _ _ Hr). lia.
Qed.

(** One more put or get after a run. *)
Lemma bytes_run_put W c l c1 data sz : rb_run W c l c1 -> c1.(wareas) = [] -> 0 <= sz < 2 ^ 32 ->
  apart data sz c1.(rb).(buffer) c1.(rb).(size) -> let r := ring_buf_put W c1.(rb) data sz c1.(mem) in
  rb_run W c (l ++ [RPut (load c1.(mem) data sz) r.1.1]) (Client r.1.2 r.2 [] c1.(rareas)).
Proof. intros H1 H2 H3 H4 r. eapply rr_snoc; [done|]. apply rs_put; try done. by destruct (ring_buf_put _ _ _ _ _) as [[]]. Qed.

Lemma bytes_run_get W c l c1 data sz : rb_run W c l c1 -> c1.(rareas) = [] -> 0 <= sz < 2 ^ 32 ->
  clear_of c1.(rb) data sz -> let r := ring_buf_get W c1.(rb) data sz c1.(mem) in
  rb_run W c (l ++ [RGet sz r.1.1 ((fun d => load r.2 d r.1.1) <$> data)]) (Client r.1.2 r.2 c1.(wareas) []).
Proof. intros H1 H2 H3 H4 r. eapply rr_snoc; [done|]. apply rs_get; try done. by destruct (ring_buf_get _ _ _ _ _) as [[]]. Qed.

Lemma items_put W c l b m type value data32 size32 : item_run W c l (b, m) -> 0 <= type < 2 ^ 16 -> 0 <= value < 256 ->
  0 <= size32 < 256 -> apart data32 (size32 * 4) b.(buffer) b.(size) ->
  let r := ring_buf_item_put W b type value data32 size32 m in
  item_run W c (l ++ [IPut (Item type value (load m data32 (size32 * 4))) r.1.1]) (r.1.2, r.2).
Proof.
  intros H1 H2 H3 H4 H5 r. eapply ir_snoc; [done|]. apply is_put; try done.
  by destruct (ring_buf_item_put _ _ _ _ _ _ _) as [[]].
Qed.

Lemma items_get W c l b m data32 size32 : item_run W c l (b, m) -> 0 <= size32 < 256 -> clear_of b data32 (size32 * 4) ->
  let r := ring_buf_item_get W b data32 size32 m in
  item_run W c (l ++ [IGet ((fun _ => size32) <$> data32) r.1.1.1 r.1.1.2.2 r.1.1.2.1.1 r.1.1.2.1.2
    ((fun d => load r.2 d (r.1.1.2.2 * 4)) <$> data32)]) (r.1.2, r.2).
Proof.
  intros H1 H2 H3 r. eapply ir_snoc; [done|]. apply is_get; try done.
  by destruct (ring_buf_item_get _ _ _ _ _) as [[[? [[]]]]].
Qed.

(** A buffer of three bytes at address 100: two bytes in, one out, two more in (the second
    wraps around), all three out. *)
Module Example.
Definition m0 : memory := fun x => x + 7.
Definition c0 : client := Client (ring_buf_init 3 100) m0 [] [].
Definition r1 := ring_buf_put 16 c0.(rb) 0 2 c0.(mem).
Definition c1 : client := Client r1.1.2 r1.2 [] [].
Definition r2 := ring_buf_get 16 c1.(rb) (Some 50) 1 c1.(mem).
Definition c2 : client := Client r2.1.2 r2.2 [] [].
Definition r3 := ring_buf_put 16 c2.(rb) 10 2 c2.(mem).
Definition c3 : client := Client r3.1.2 r3.2 [] [].
Definition r4 := ring_buf_get 16 c3.(rb) (Some 60) 9 c3.(mem).
Definition c4 : client := Client r4.1.2 r4.2 [] [].
Definition events : list rb_event :=
  ((([] ++ [RPut (load m0 0 2) r1.1.1]) ++ [RGet 1 r2.1.1 (Some (load r2.2 50 r2.1.1))]) ++
    [RPut (load r2.2 10 2) r3.1.1]) ++ [RGet 9 r4.1.1 (Some (load r4.2 60 r4.1.1))].

Lemma run : rb_run 16 c0 events c4.
Proof.
  unfold events.
  apply (bytes_run_get 16 _ _ c3 (Some 60) 9); [|done|lia|left; vm_compute; congruence].
  apply (bytes_run_put 16 _ _ c2 10 2); [|done|lia|left; vm_compute; congruence].
  apply (bytes_run_get 16 _ _ c1 (Some 50) 1); [|done|lia|left; vm_compute; congruence].
  apply (bytes_run_put 16 _ _ c0 0 2); [constructor|done|lia|left; vm_compute; congruence].
Qed.

Definition i0 : ring_buf * memory := (ring_buf_item_init 2 100, m0).
Definition i1 := ring_buf_item_put 16 i0.1 1000 9 0 1 m0.
Definition i2 := ring_buf_item_get 16 i1.1.2 (Some 50) 1 i1.2.
Definition item_events : list item_event :=
  ([] ++ [IPut (Item 1000 9 (load m0 0 4)) i1.1.1]) ++
    [IGet (Some 1) i2.1.1.1 i2.1.1.2.2 i2.1.1.2.1.1 i2.1.1.2.1.2 (Some (load i2.2 50 (i2.1.1.2.2 * 4)))].

Lemma items : item_run 16 i0 item_events (i2.1.2, i2.2).
Proof.
  unfold item_events.
  apply (items_get 16 _ _ i1.1.2 i1.2 (Some 50) 1); [|lia|left; vm_compute; congruence].
  apply (items_put 16 _ _ i0.1 m0 1000 9 0 1); [constructor|lia|lia|lia|left; vm_compute; congruence].
Qed.
End Example.

Lemma ring_buf_is_byte_fifo_witness :
  Example.events = [RPut [7; 8] 2; RGet 1 1 (Some [7]); RPut [17; 18] 2; RGet 9 3 (Some [8; 17; 18])] /\
  exists q, fifo_run 3 (Fifo [] 0 0) Example.events q /\ len q.(stored) + q.(writing) <= 3 /\
    0 <= q.(reading) <= len q.(stored).
Proof.
  split; [vm_compute; reflexivity|].
  apply (ring_buf_is_byte_fifo 16 (or_introl eq_refl) 3 100 Example.m0 Example.events Example.c4);
    [vm_compute; split; congruence|exact Example.run].
Defined.

Lemma ring_buf_in_bounds_witness :
  ring_buf_put_claim 16 Example.c4.(rb) 9 = (2, 101, set_put (Ring_buf_index 6 4 3) Example.c4.(rb)) /\
  0 <= 2 <= 9 /\ 100 <= 101 /\ 101 + 2 <= 100 + 3.
Proof.
  assert (E : ring_buf_put_claim 16 Example.c4.(rb) 9 = (2, 101, set_put (Ring_buf_index 6 4 3) Example.c4.(rb)))
    by (vm_compute; reflexivity).
  split; [exact E|].
  exact (proj1 (ring_buf_in_bounds 16 (or_introl eq_refl) 3 100 Example.m0 Example.events Example.c4
    ltac:(vm_compute; split; congruence) Example.run) 9 2 101 _ ltac:(lia) E).
Defined.

Lemma ring_buf_items_round_trip_witness :
  Example.item_events = [IPut (Item 1000 9 [7; 8; 9; 10]) 0; IGet (Some 1) 0 1 1000 9 (Some [7; 8; 9; 10])] /\
  exists q, item_spec_run (4 * 2) [] Example.item_events q /\ len (concat (encode <$> q)) <= 4 * 2 /\
    len (concat (encode <$> q)) = ring_buf_size_get 16 (Example.i2.1.2, Example.i2.2).1.
Proof.
  split; [vm_compute; reflexivity|].
  apply (ring_buf_items_round_trip 16 (or_introl eq_refl) 2 100 Example.m0 Example.item_events
    (Example.i2.1.2, Example.i2.2)); [lia|vm_compute; congruence|exact Example.items].
Defined.
