(* ===== verification/Hex.v ===== *)
(** Hexadecimal and decimal text: lib/utils/hex.c and lib/utils/dec.c.

    The functions work on a byte-addressed memory.  [size_t] is 32 bits wide. *)

From S2P Require Import Prelude Ring.

#[local] Open Scope Z_scope.

Definition char2hex (c : Z) : option Z :=
  if (48 <=? c) && (c <=? 57) then Some (c - 48)
  else if (97 <=? c) && (c <=? 102) then Some (c - 97 + 10)
  else if (65 <=? c) && (c <=? 70) then Some (c - 65 + 10)
  else None.

Definition hex2char (x : Z) : option Z :=
  if x <=? 9 then Some (x + 48) else if x <=? 15 then Some (x - 10 + 97) else None.

(** [hex2char] writes only when it succeeds. *)
Definition put_char (x : Z) (a : Z) (m : memory) : memory :=
  match hex2char x with Some c => upd a c m | None => m end.

Fixpoint bin2hex_loop (k : nat) (i buf hex : Z) (m : memory) : memory :=
  match k with
  | O => m
  | S k =>
      let m := put_char (Z.shiftr (m (buf + i)) 4) (hex + 2 * i) m in
      let m := put_char (Z.land (m (buf + i)) 15) (hex + (2 * i + 1)) m in
      bin2hex_loop k (i + 1) buf hex m
  end.

Definition bin2hex (buf buflen hex hexlen : Z) (m : memory) : Z * memory :=
  if hexlen <? u32 (buflen * 2 + 1) then (0, m)
  else
    let m := bin2hex_loop (Z.to_nat buflen) 0 buf hex m in
    (u32 (2 * buflen), upd (hex + 2 * buflen) 0 m).

(** [false]: a character is not a digit. *)
Fixpoint hex2bin_loop (k : nat) (i hex buf : Z) (m : memory) : bool * memory :=
  match k with
  | O => (true, m)
  | S k =>
      match char2hex (m (hex + 2 * i)) with
      | None => (false, m)
      | Some dec =>
          let m := upd (buf + i) (u8 (Z.shiftl dec 4)) m in
          match char2hex (m (hex + (2 * i + 1))) with
          | None => (false, m)
          | Some dec => hex2bin_loop k (i + 1) hex buf (upd (buf + i) (u8 (m (buf + i) + dec)) m)
          end
      end
  end.

Definition hex2bin (hex hexlen buf buflen : Z) (m : memory) : Z * memory :=
  if buflen <? hexlen / 2 + hexlen mod 2 then (0, m)
  else
    let finish (r : bool * memory) := (if r.1 then hexlen / 2 + hexlen mod 2 else 0, r.2) in
    if hexlen mod 2 =? 0 then finish (hex2bin_loop (Z.to_nat (hexlen / 2)) 0 hex buf m)
    else
      match char2hex (m hex) with
      | None => (0, m)
      | Some dec => finish (hex2bin_loop (Z.to_nat (hexlen / 2)) 0 (hex + 1) (buf + 1) (upd buf dec m))
      end.

(** The divisor takes the values 100, 10, 1 and 0. *)
Fixpoint u8_to_dec_loop (fuel : nat) (buf buflen value divisor num_digits : Z) (m : memory) : Z * Z * Z * memory :=
  match fuel with
  | O => (buf, buflen, num_digits, m)
  | S fuel =>
      if (0 <? buflen) && (0 <? divisor) then
        let digit := value / divisor in
        let value' := u8 (value - digit * divisor) in
        if negb (digit =? 0) || (divisor =? 1) || negb (num_digits =? 0) then
          u8_to_dec_loop fuel (buf + 1) (u8 (buflen - 1)) value' (divisor / 10) (u8 (num_digits + 1))
            (upd buf (u8 (digit + 48)) m)
        else u8_to_dec_loop fuel buf buflen value' (divisor / 10) num_digits m
      else (buf, buflen, num_digits, m)
  end.

Definition u8_to_dec (buf buflen value : Z) (m : memory) : Z * memory :=
  let '(buf, buflen, num_digits, m) := u8_to_dec_loop 4 buf buflen value 100 0 m in
  (num_digits, if negb (buflen =? 0) then upd buf 0 m else m).

(** ** Decoding *)

Fixpoint pair_up (l : list Z) : list Z :=
  match l with a :: b :: l => (16 * a + b) :: pair_up l | _ => [] end.

(** The bytes that a text stands for; an odd number of digits has a leading zero. *)
Definition hex_value (text : list Z) : option (list Z) :=
  ds ← mapM char2hex text; Some (pair_up (if Nat.even (length text) then ds else 0 :: ds)).

Lemma char2hex_range c d : char2hex c = Some d -> 0 <= d < 16.
Proof.
  unfold char2hex. intros H.
  repeat match type of H with context [?a <=? ?b] => destruct (Z.leb_spec a b) end; simpl in H;
    injection H as <- || discriminate H; lia.
Qed.

Lemma bytes_snoc m a n : bytes m a (S n) = bytes m a n ++ [m (a + Z.of_nat n)].
Proof. unfold bytes. by rewrite seq_S, map_app. Qed.

Lemma nibbles d e : 0 <= d < 16 -> 0 <= e < 16 -> u8 (u8 (Z.shiftl d 4) + e) = 16 * d + e.
Proof. intros. unfold u8. rewrite Z.shiftl_mul_pow2 by lia. change (2 ^ 4) with 16. rewrite !Z.mod_small by (rewrite ?Z.mod_small; lia). lia. Qed.

(** What the digit pairs from index [i] on give; nothing but the destination changes. *)
Lemma hex2bin_loop_ok k i hex buf m : 0 <= i -> apart (hex + 2 * i) (2 * Z.of_nat k) (buf + i) (Z.of_nat k) ->
  let '(ok, m') := hex2bin_loop k i hex buf m in
  (forall x, ~ (buf + i <= x < buf + i + Z.of_nat k) -> m' x = m x) /\
  match mapM char2hex (bytes m (hex + 2 * i) (2 * k)) with
  | Some ds => ok = true /\ bytes m' (buf + i) k = pair_up ds
  | None => ok = false
  end.
Proof.
  revert i m. induction k as [|k IH]; intros i m Hi Hap; [done|]. cbn [hex2bin_loop].
  replace (2 * S k)%nat with (S (S (2 * k))) by lia. rewrite !bytes_S. cbn [mapM].
  unfold apart in Hap. destruct (char2hex (m (hex + 2 * i))) as [d|] eqn:Ed; [|done].
  rewrite upd_ne by lia. replace (hex + (2 * i + 1)) with (hex + 2 * i + 1) by lia.
  destruct (char2hex (m (hex + 2 * i + 1))) as [e|] eqn:Ee; cbn [mbind option_bind].
  2:{ split; [|done]. intros x Hx. rewrite upd_ne by lia. done. }
  set (m1 := upd (buf + i) _ (upd (buf + i) _ m)). specialize (IH (i + 1) m1 ltac:(lia) ltac:(unfold apart; lia)).
  destruct (hex2bin_loop k (i + 1) hex buf m1) as [ok m2]. destruct IH as [Ho IH].
  assert (Hm : bytes m1 (hex + 2 * (i + 1)) (2 * k) = bytes m (hex + 2 * i + 1 + 1) (2 * k)).
  { replace (hex + 2 * (i + 1)) with (hex + 2 * i + 1 + 1) by lia. apply bytes_ext. intros x Hx. unfold m1. rewrite !upd_ne by lia. done. }
  rewrite Hm in IH. split.
  - intros x Hx. rewrite Ho by lia. unfold m1. rewrite !upd_ne by lia. done.
  - destruct (mapM char2hex _) as [ds|]; simpl; [|done]. destruct IH as [-> IH]. split; [done|].
    rewrite bytes_S, <- Z.add_assoc, IH. f_equal. rewrite Ho by lia. unfold m1. rewrite !upd_eq.
    apply nibbles; by eapply char2hex_range.
Qed.

Lemma hex2bin_ok hex hexlen buf buflen m : 0 <= hexlen -> hexlen / 2 + hexlen mod 2 <= buflen ->
  apart hex hexlen buf (hexlen / 2 + hexlen mod 2) ->
  let n := hexlen / 2 + hexlen mod 2 in
  let '(r, m') := hex2bin hex hexlen buf buflen m in
  (forall x, ~ (buf <= x < buf + n) -> m' x = m x) /\
  match hex_value (bytes m hex (Z.to_nat hexlen)) with
  | Some v => r = n /\ bytes m' buf (Z.to_nat n) = v
  | None => r = 0
  end.
Proof.
  intros Hl Hb Hap n. unfold hex2bin, hex_value. rewrite (proj2 (Z.ltb_ge _ _)), bytes_length by lia. cbn zeta. fold n.
  pose proof (Z.div_mod hexlen 2 ltac:(lia)) as Hd. pose proof (Z.mod_pos_bound hexlen 2 ltac:(lia)).
  set (k := Z.to_nat (hexlen / 2)). assert (Hk : Z.of_nat k = hexlen / 2) by (unfold k; lia).
  destruct (Z.eqb_spec (hexlen mod 2) 0) as [E|E].
  - replace (Z.to_nat hexlen) with (2 * k)%nat by lia. replace (Z.to_nat n) with k by lia.
    rewrite (proj2 (Nat.even_spec _)) by (by exists k).
    pose proof (hex2bin_loop_ok k 0 hex buf m ltac:(lia)) as H1. rewrite Z.mul_0_r, !Z.add_0_r in H1.
    destruct (hex2bin_loop k 0 hex buf m) as [ok m']. destruct H1 as [Ho H1]; [unfold apart in *; lia|]. simpl.
    split; [intros x Hx; apply Ho; lia|]. destruct (mapM char2hex _) as [ds|]; simpl; [|by rewrite H1].
    by destruct H1 as [-> H1].
  - replace (Z.to_nat hexlen) with (S (2 * k)) by lia. replace (Z.to_nat n) with (S k) by lia.
    assert (Ev : Nat.even (S (2 * k)) = false) by (rewrite Nat.even_succ, <- Nat.negb_even; by rewrite (proj2 (Nat.even_spec _)) by (by exists k)).
    rewrite Ev, bytes_S. cbn [mapM]. destruct (char2hex (m hex)) as [d|] eqn:Ed; simpl; [|done].
    pose proof (hex2bin_loop_ok k 0 (hex + 1) (buf + 1) (upd buf d m) ltac:(lia)) as H1. rewrite Z.mul_0_r, !Z.add_0_r in H1.
    destruct (hex2bin_loop k 0 (hex + 1) (buf + 1) (upd buf d m)) as [ok m']. destruct H1 as [Ho H1]; [unfold apart in *; lia|].
    replace (bytes (upd buf d m) (hex + 1) (2 * k)) with (bytes m (hex + 1) (2 * k)) in H1.
    2:{ apply bytes_ext. intros x Hx. unfold apart in Hap. rewrite upd_ne by lia. done. }
    simpl. split; [intros x Hx; rewrite Ho by lia; rewrite upd_ne by lia; done|].
    replace (bytes m (hex + 1) (k + (k + 0))) with (bytes m (hex + 1) (2 * k)) by done.
    destruct (mapM char2hex _) as [ds|]; cbn [mbind option_bind]; [|by rewrite H1]. destruct H1 as [-> H1].
    split; [done|]. rewrite bytes_S, H1. simpl. f_equal. rewrite Ho by lia. apply upd_eq.
Qed.

(** ** Encoding *)

Definition digit (x : Z) : Z := if x <=? 9 then x + 48 else x + 87.
Definition hex_text (l : list Z) : list Z := concat (map (fun b => [digit (b / 16); digit (b mod 16)]) l).
Definition byte_list (l : list Z) : Prop := Forall (fun b => 0 <= b < 256) l.

Lemma char2hex_digit x : 0 <= x < 16 -> char2hex (digit x) = Some x.
Proof.
  intros Hx. unfold char2hex, digit. destruct (Z.leb_spec x 9).
  all: repeat match goal with |- context [?a <=? ?b] => destruct (Z.leb_spec a b); try lia end; simpl; f_equal; lia.
Qed.

Lemma put_char_digit x a m : 0 <= x < 16 -> put_char x a m = upd a (digit x) m.
Proof.
  intros Hx. unfold put_char, hex2char, digit. destruct (Z.leb_spec x 9); [done|].
  rewrite (proj2 (Z.leb_le x 15)) by lia. f_equal. lia.
Qed.

Lemma hex_text_digits l : byte_list l ->
  exists ds, mapM char2hex (hex_text l) = Some ds /\ pair_up ds = l /\ length (hex_text l) = (2 * length l)%nat.
Proof.
  induction 1 as [|b l Hb _ (ds & E & Hp & Hl)]; [by exists []|].
  assert (0 <= b / 16 < 16) by (split; [apply Z.div_pos|apply Z.div_lt_upper_bound]; lia).
  pose proof (Z.mod_pos_bound b 16 ltac:(lia)). exists (b / 16 :: b mod 16 :: ds). cbn [hex_text concat map app mapM].
  rewrite !char2hex_digit by lia. fold (hex_text l). cbn [mbind option_bind]. rewrite E. split; [done|]. split.
  - simpl. rewrite Hp. f_equal. symmetry. apply Z.div_mod. lia.
  - simpl. unfold hex_text in *. lia.
Qed.

Lemma hex_value_text l : byte_list l -> hex_value (hex_text l) = Some l.
Proof.
  intros H. destruct (hex_text_digits l H) as (ds & E & Hp & Hl). unfold hex_value. rewrite E, Hl.
  rewrite (proj2 (Nat.even_spec _)) by (by exists (length l)). simpl. by rewrite Hp.
Qed.

Lemma bin2hex_loop_ok k i buf hex m : 0 <= i -> apart (buf + i) (Z.of_nat k) (hex + 2 * i) (2 * Z.of_nat k) ->
  byte_list (bytes m (buf + i) k) -> let m' := bin2hex_loop k i buf hex m in
  (forall x, ~ (hex + 2 * i <= x < hex + 2 * i + 2 * Z.of_nat k) -> m' x = m x) /\
  bytes m' (hex + 2 * i) (2 * k) = hex_text (bytes m (buf + i) k).
Proof.
  revert i m. induction k as [|k IH]; intros i m Hi Hap Hb; [done|]. cbn [bin2hex_loop]. cbv zeta.
  rewrite bytes_S in Hb. apply Forall_cons in Hb as [Hx Hb]. unfold apart in Hap.
  set (b := m (buf + i)) in *.
  assert (Hs : Z.shiftr b 4 = b / 16) by (by rewrite Z.shiftr_div_pow2 by lia).
  assert (Hl : Z.land b 15 = b mod 16) by (apply (Z.land_ones b 4); lia).
  assert (0 <= b / 16 < 16) by (split; [apply Z.div_pos|apply Z.div_lt_upper_bound]; lia).
  pose proof (Z.mod_pos_bound b 16 ltac:(lia)).
  rewrite Hs, (put_char_digit (b / 16)), upd_ne by lia. fold b. rewrite Hl, put_char_digit by lia.
  set (m1 := upd _ (digit (b mod 16)) _).
  assert (Hm1 : forall x, ~ (hex + 2 * i <= x < hex + 2 * i + 2) -> m1 x = m x).
  { intros x Hn. unfold m1. rewrite !upd_ne by lia. done. }
  assert (Hs1 : bytes m1 (buf + (i + 1)) k = bytes m (buf + i + 1) k).
  { rewrite Z.add_assoc. apply bytes_ext. intros x Hn. apply Hm1. lia. }
  destruct (IH (i + 1) m1 ltac:(lia)) as [Ho He]; [unfold apart; lia|by rewrite Hs1|]. split.
  - intros x Hn. rewrite Ho by lia. apply Hm1. lia.
  - replace (2 * S k)%nat with (2 + 2 * k)%nat by lia. rewrite bytes_app, bytes_S, !bytes_S. fold b.
    replace (hex + 2 * i + Z.of_nat 2) with (hex + 2 * (i + 1)) by lia. rewrite He, Hs1. cbn [hex_text map concat].
    rewrite !Ho by lia. unfold m1. rewrite upd_ne, upd_eq by lia.
    replace (hex + 2 * i + 1) with (hex + (2 * i + 1)) by lia. by rewrite upd_eq.
Qed.

Lemma bin2hex_ok buf buflen hex hexlen m : 0 <= buflen -> 2 * buflen + 1 < 2 ^ 32 -> 2 * buflen + 1 <= hexlen ->
  apart buf buflen hex (2 * buflen + 1) -> byte_list (bytes m buf (Z.to_nat buflen)) ->
  let '(r, m') := bin2hex buf buflen hex hexlen m in
  r = 2 * buflen /\ (forall x, ~ (hex <= x < hex + (2 * buflen + 1)) -> m' x = m x) /\
  bytes m' hex (Z.to_nat r) = hex_text (bytes m buf (Z.to_nat buflen)) /\ m' (hex + r) = 0.
Proof.
  intros H1 H2 H3 Hap Hb. unfold bin2hex, u32. rewrite !Z.mod_small by lia. rewrite (proj2 (Z.ltb_ge _ _)) by lia.
  destruct (bin2hex_loop_ok (Z.to_nat buflen) 0 buf hex m) as [Ho He]; [done|..].
  { unfold apart in *. lia. }
  { by rewrite Z.add_0_r. }
  rewrite Z.mul_0_r, !Z.add_0_r in *. set (m1 := bin2hex_loop _ _ _ _ _) in *. split; [done|]. split.
  - intros x Hx. rewrite upd_ne by lia. apply Ho. lia.
  - split; [|apply upd_eq]. rewrite <- He. replace (Z.to_nat (2 * buflen)) with (2 * Z.to_nat buflen)%nat by lia.
    apply bytes_ext. intros x Hx. rewrite upd_ne by lia. done.
Qed.

Definition dec_text (v : Z) : list Z :=
  if v <? 10 then [v + 48] else if v <? 100 then [v / 10 + 48; v mod 10 + 48]
  else [v / 100 + 48; v mod 100 / 10 + 48; v mod 10 + 48].

(** One round of the loop, for each kind of digit. *)
Lemma dec_round fuel buf buflen value divisor n m : 0 < buflen < 256 -> 0 < divisor -> 0 <= value < 256 -> value / divisor < 10 ->
  0 <= n < 255 ->
  u8_to_dec_loop (S fuel) buf buflen value divisor n m =
    if negb (value / divisor =? 0) || (divisor =? 1) || negb (n =? 0) then
      u8_to_dec_loop fuel (buf + 1) (buflen - 1) (value mod divisor) (divisor / 10) (n + 1) (upd buf (value / divisor + 48) m)
    else u8_to_dec_loop fuel buf buflen (value mod divisor) (divisor / 10) n m.
Proof.
  intros Hb Hd Hv Hq Hn. cbn [u8_to_dec_loop]. rewrite (proj2 (Z.ltb_lt 0 buflen)), (proj2 (Z.ltb_lt 0 divisor)) by lia.
  pose proof (Z.div_mod value divisor ltac:(lia)). pose proof (Z.mod_pos_bound value divisor Hd).
  pose proof (Z.div_pos value divisor ltac:(lia) Hd). cbn [andb]. cbv zeta.
  assert (E : u8 (value - value / divisor * divisor) = value mod divisor).
  { unfold u8. rewrite Z.mod_small; [lia|]. change (2 ^ 8) with 256. nia. }
  rewrite E. unfold u8. change (2 ^ 8) with 256.
  rewrite (Z.mod_small (buflen - 1)), (Z.mod_small (n + 1)), (Z.mod_small (_ + 48)) by lia. done.
Qed.

Lemma dec_stop fuel buf buflen value n m : u8_to_dec_loop fuel buf buflen value 0 n m = (buf, buflen, n, m).
Proof. destruct fuel; [done|]. simpl. by destruct (0 <? buflen). Qed.

(** Reads back the digits written. *)
Ltac dec_digits H := cbn [negb length]; rewrite ?bytes_S, <- ?Z.add_assoc;
  repeat (rewrite upd_eq || rewrite upd_ne by lia); rewrite ?H; done.

(** With room for the digits, the number is written without leading zeros and terminated. *)
Lemma u8_to_dec_ok buf buflen value m : 0 <= value < 256 -> 4 <= buflen < 256 ->
  let '(r, m') := u8_to_dec buf buflen value m in
  r = Z.of_nat (length (dec_text value)) /\ bytes m' buf (length (dec_text value)) = dec_text value /\ m' (buf + r) = 0.
Proof.
  intros Hv Hb. unfold u8_to_dec, dec_text.
  assert (value / 100 < 10) by (apply Z.div_lt_upper_bound; lia). rewrite dec_round by lia. change (100 / 10) with 10.
  pose proof (Z.mod_pos_bound value 100 ltac:(lia)). assert (value mod 100 / 10 < 10) by (apply Z.div_lt_upper_bound; lia).
  assert (E10 : (value mod 100) mod 10 = value mod 10) by (apply (Z.mod_mod_divide value 100 10); by exists 10).
  pose proof (Z.mod_pos_bound value 10 ltac:(lia)). pose proof (Z.div_1_r (value mod 10)).
  destruct (Z.eqb_spec (value / 100) 0) as [E|E]; cbn [negb orb Z.eqb Pos.eqb].
  - assert (Hs : value < 100) by (apply Z.div_small_iff in E; lia). rewrite (proj2 (Z.ltb_lt value 100)) by lia.
    rewrite (Z.mod_small value 100) in * by lia. rewrite dec_round by lia. change (10 / 10) with 1.
    destruct (Z.eqb_spec (value / 10) 0) as [E'|E']; cbn [negb orb Z.eqb Pos.eqb].
    + assert (value < 10) by (apply Z.div_small_iff in E'; lia). rewrite (proj2 (Z.ltb_lt value 10)) by lia.
      rewrite (Z.mod_small value 10) in * by lia. rewrite dec_round by lia. cbn [negb Z.eqb Pos.eqb]. rewrite orb_true_r. cbn [orb].
      change (1 / 10) with 0. rewrite dec_stop, (proj2 (Z.eqb_neq _ 0)) by lia. dec_digits H3.
    + destruct (Z.ltb_spec value 10); [by rewrite Z.div_small in E' by lia|].
      rewrite dec_round by lia. rewrite orb_true_r. change (1 / 10) with 0. rewrite dec_stop, (proj2 (Z.eqb_neq _ 0)) by lia. dec_digits H3.
  - destruct (Z.ltb_spec value 100); [by rewrite Z.div_small in E by lia|].
    rewrite (proj2 (Z.ltb_ge value 10)) by lia.
    rewrite dec_round by lia. rewrite orb_true_r. change (10 / 10) with 1. rewrite E10, dec_round by lia. rewrite orb_true_r.
    change (1 / 10) with 0. rewrite dec_stop, (proj2 (Z.eqb_neq _ 0)) by lia. dec_digits H3.
Qed.


