(* ===== verification/Base64.v ===== *)
(** Base64 text: lib/utils/base64.c.

    Source and destination do not overlap, so a text is a list of bytes and what is
    written, one byte after the other from [dst] on, is a list.  [size_t] is 32 bits wide. *)

From S2P Require Import Prelude.

#[local] Open Scope Z_scope.

Definition base64_enc_map : list Z :=
  [65; 66; 67; 68; 69; 70; 71; 72; 73; 74; 75; 76; 77; 78; 79; 80; 81; 82; 83; 84; 85; 86; 87; 88; 89; 90;
   97; 98; 99; 100; 101; 102; 103; 104; 105; 106; 107; 108; 109; 110; 111; 112; 113; 114; 115; 116; 117; 118;
   119; 120; 121; 122; 48; 49; 50; 51; 52; 53; 54; 55; 56; 57; 43; 47].

Definition base64_dec_map : list Z :=
  [127; 127; 127; 127; 127; 127; 127; 127; 127; 127;
   127; 127; 127; 127; 127; 127; 127; 127; 127; 127;
   127; 127; 127; 127; 127; 127; 127; 127; 127; 127;
   127; 127; 127; 127; 127; 127; 127; 127; 127; 127;
   127; 127; 127; 62; 127; 127; 127; 63; 52; 53;
   54; 55; 56; 57; 58; 59; 60; 61; 127; 127;
   127; 64; 127; 127; 127; 0; 1; 2; 3; 4;
   5; 6; 7; 8; 9; 10; 11; 12; 13; 14;
   15; 16; 17; 18; 19; 20; 21; 22; 23; 24;
   25; 127; 127; 127; 127; 127; 127; 26; 27; 28;
   29; 30; 31; 32; 33; 34; 35; 36; 37; 38;
   39; 40; 41; 42; 43; 44; 45; 46; 47; 48;
   49; 50; 51; 127; 127; 127; 127; 127].

Definition enc (v : Z) : Z := nth (Z.to_nat (Z.land v 63)) base64_enc_map 0.
Definition dec (c : Z) : Z := nth (Z.to_nat c) base64_dec_map 0.
Definition BASE64_SIZE_T_MAX : Z := 2 ^ 32 - 1.

(** The last one or two bytes. *)
Definition encode_tail (C1 : Z) (more : option Z) : list Z :=
  let C2 := default 0 more in
  [enc (Z.shiftr C1 2); enc (Z.shiftl (Z.land C1 3) 4 + Z.shiftr C2 4);
   if more is Some _ then enc (Z.shiftl (Z.land C2 15) 2) else 61; 61].

Fixpoint encode_loop (src : list Z) : list Z :=
  match src with
  | C1 :: C2 :: C3 :: src =>
      enc (Z.shiftr C1 2) :: enc (Z.shiftl (Z.land C1 3) 4 + Z.shiftr C2 4) ::
      enc (Z.shiftl (Z.land C2 15) 2 + Z.shiftr C3 6) :: enc C3 :: encode_loop src
  | [C1; C2] => encode_tail C1 (Some C2)
  | [C1] => encode_tail C1 None
  | [] => []
  end.

(** The result, [*olen] and the bytes written.  [dst] is [false] for NULL. *)
Definition base64_encode (dst : bool) (dlen : Z) (src : list Z) : Z * Z * list Z :=
  let slen := Z.of_nat (length src) in
  if slen =? 0 then (0, 0, [])
  else
    let n := slen / 3 + (if slen mod 3 =? 0 then 0 else 1) in
    if (BASE64_SIZE_T_MAX - 1) / 4 <? n then (- ENOMEM, BASE64_SIZE_T_MAX, [])
    else
      let n := n * 4 in
      if (dlen <? n + 1) || negb dst then (- ENOMEM, n + 1, [])
      else let out := encode_loop src in (0, Z.of_nat (length out), out ++ [0]).

(** The first pass: [x] spaces were skipped in this round, [n] characters counted, [j] of
    them the padding sign. *)
Fixpoint check_text (src : list Z) (x n j : Z) : option (Z * Z) :=
  match src with
  | [] => Some (n, j)
  | c :: rest =>
      if c =? 32 then check_text rest (x + 1) n j
      else if (c =? 13) && (if rest is c' :: _ then c' =? 10 else false) then check_text rest 0 n j
      else if c =? 10 then check_text rest 0 n j
      else if negb (x =? 0) then None
      else
        let j := if c =? 61 then j + 1 else j in
        if (c =? 61) && (2 <? j) then None
        else if (127 <? c) || (dec c =? 127) then None
        else if (dec c <? 64) && negb (j =? 0) then None
        else check_text rest 0 (n + 1) j
  end.

(** The second pass: the counters, the bits gathered and what has been written. *)
Fixpoint decode_text (src : list Z) (n j x : Z) (out : list Z) : list Z :=
  match src with
  | [] => out
  | c :: rest =>
      if (c =? 13) || (c =? 10) || (c =? 32) then decode_text rest n j x out
      else
        let j := u32 (j - (if dec c =? 64 then 1 else 0)) in
        let x := Z.lor (u32 (Z.shiftl x 6)) (Z.land (dec c) 63) in
        if n + 1 =? 4 then
          decode_text rest 0 j x (out ++ (if 0 <? j then [u8 (Z.shiftr x 16)] else []) ++
            (if 1 <? j then [u8 (Z.shiftr x 8)] else []) ++ (if 2 <? j then [u8 x] else []))
        else decode_text rest (n + 1) j x out
  end.

Definition decoded_size (n : Z) : Z := 6 * Z.shiftr n 3 + Z.shiftr (6 * Z.land n 7 + 7) 3.

(** The result, [*olen] when it is set, and the bytes written. *)
Definition base64_decode (dst : bool) (dlen : Z) (src : list Z) : Z * option Z * list Z :=
  match check_text src 0 0 0 with
  | None => (- EINVAL, None, [])
  | Some (n, j) =>
      if n =? 0 then (0, Some 0, [])
      else
        let n := u32 (decoded_size n - j) in
        if negb dst || (dlen <? n) then (- ENOMEM, Some n, [])
        else let out := decode_text src 0 3 0 [] in (0, Some (Z.of_nat (length out)), out)
  end.

(** ** The character tables *)

Lemma enc_range v : 0 <= v < 64 -> 0 <= enc v < 128 /\ enc v <> 61 /\ enc v <> 32 /\ enc v <> 13 /\ enc v <> 10 /\ dec (enc v) = v.
Proof.
  intros Hv. assert (Hc : forallb (fun v => let c := enc (Z.of_nat v) in (0 <=? c) && (c <? 128) && negb (c =? 61) && negb (c =? 32) &&
    negb (c =? 13) && negb (c =? 10) && (dec c =? Z.of_nat v)) (seq 0 64) = true) by (vm_compute; reflexivity).
  rewrite forallb_forall in Hc. specialize (Hc (Z.to_nat v)). rewrite in_seq, Z2Nat.id in Hc by lia.
  specialize (Hc ltac:(lia)). cbv zeta in Hc. lia.
Qed.

Lemma dec_cases c : 0 <= c < 128 ->
  dec c = 127 \/ (dec c = 64 /\ c = 61) \/ (0 <= dec c < 64 /\ c <> 61 /\ c <> 13 /\ c <> 10 /\ c <> 32).
Proof.
  intros Hc. assert (H : forallb (fun c => let c := Z.of_nat c in (dec c =? 127) || ((dec c =? 64) && (c =? 61)) ||
    ((0 <=? dec c) && (dec c <? 64) && negb (c =? 61) && negb (c =? 13) && negb (c =? 10) && negb (c =? 32)))
    (seq 0 128) = true) by (vm_compute; reflexivity).
  rewrite forallb_forall in H. specialize (H (Z.to_nat c)). rewrite in_seq, Z2Nat.id in H by lia.
  specialize (H ltac:(lia)). cbv zeta in H. lia.
Qed.

Lemma size_formula n : 0 <= n -> decoded_size n = (3 * n + 3) / 4.
Proof.
  intros Hn. unfold decoded_size. rewrite !Z.shiftr_div_pow2 by lia.
  replace (Z.land n 7) with (n mod 8) by (symmetry; apply (Z.land_ones n 3); lia). change (2 ^ 3) with 8. Z.to_euclidean_division_equations. lia.
Qed.

(** ** Room for what is written *)

(** After [c] characters, [k] of them padding, in the second pass. *)
Definition counted (c k : Z) (n j : Z) (len : nat) : Prop :=
  exists q s, 0 <= q /\ 0 <= s <= 3 /\ 0 <= k <= 2 /\ c = 4 * q + s + k /\ j = 3 - k /\ n = (s + k) mod 4 /\
    Z.of_nat len = 3 * q + (if 4 <=? s + k then s - 1 else 0).

Definition emit (j x : Z) : list Z :=
  (if 0 <? j then [u8 (Z.shiftr x 16)] else []) ++ (if 1 <? j then [u8 (Z.shiftr x 8)] else []) ++ (if 2 <? j then [u8 x] else []).

Lemma emit_len j x : 0 <= j <= 3 -> Z.of_nat (length (emit j x)) = j.
Proof.
  intros Hj. unfold emit. destruct (Z.ltb_spec 0 j), (Z.ltb_spec 1 j), (Z.ltb_spec 2 j); simpl; lia.
Qed.

(** One more character, padding or not. *)
Lemma counted_step c k n j out x (pad : bool) : counted c k n j (length out) ->
  (if pad then k <= 1 else k = 0) ->
  let p := if pad then 1 else 0 in let j' := u32 (j - p) in
  if n + 1 =? 4 then counted (c + 1) (k + p) 0 j' (length (out ++ emit j' x))
  else counted (c + 1) (k + p) (n + 1) j' (length out).
Proof.
  intros (q & s & Hq & Hs & Hk & -> & -> & -> & Hl) Hp p j'.
  assert (Hj : j' = 3 - k - p) by (unfold j', u32; apply Z.mod_small; destruct pad; subst p; lia).
  rewrite length_app. unfold counted. destruct (Z.eqb_spec ((s + k) mod 4 + 1) 4) as [E|E].
  - assert (s + k = 3) by (Z.to_euclidean_division_equations; destruct pad; lia).
    rewrite (proj2 (Z.leb_gt _ _)) in Hl by lia. pose proof (emit_len j' x ltac:(destruct pad; lia)).
    destruct pad; subst p.
    + exists q, s. split_and!; try lia; [by replace (s + (k + 1)) with 4 by lia|].
      rewrite (proj2 (Z.leb_le _ _)) by lia. lia.
    + exists (q + 1), 0. split_and!; try lia; [by replace k with 0 by lia|].
      rewrite (proj2 (Z.leb_gt _ _)) by lia. lia.
  - destruct pad; subst p.
    + exists q, s. split_and!; try lia; [Z.to_euclidean_division_equations; lia|]. rewrite Hl.
      destruct (Z.leb_spec 4 (s + k)), (Z.leb_spec 4 (s + (k + 1))); try lia.
      exfalso. assert (s + k = 3) by lia. by replace (s + k) with 3 in E by lia.
    + exists q, (s + 1). assert (s <> 3) by (intros ->; by rewrite Hp in E).
      split_and!; try lia; [Z.to_euclidean_division_equations; lia|].
      rewrite (proj2 (Z.leb_gt _ _)) in Hl by lia. rewrite (proj2 (Z.leb_gt _ _)) by lia. lia.
Qed.

Lemma decode_text_len src y c k c' k' n j x out : Forall (fun b => 0 <= b) src ->
  check_text src y c k = Some (c', k') -> counted c k n j (length out) ->
  exists n' j', counted c' k' n' j' (length (decode_text src n j x out)).
Proof.
  intros Hpos. revert y c k n j x out. induction Hpos as [|b src Hb _ IH]; intros y c k n j x out Hc Hcnt.
  { injection Hc as <- <-. eauto. }
  cbn [check_text decode_text] in *.
  destruct (Z.eqb_spec b 32) as [->|N32]; [by eapply IH|].
  destruct (Z.eqb_spec b 13) as [->|N13].
  { cbn [andb orb] in *. destruct (if src is c' :: _ then _ else _); [by eapply IH|]. cbn in Hc.
    by destruct (negb (y =? 0)). }
  cbn [andb orb] in Hc |- *. destruct (Z.eqb_spec b 10) as [->|N10]; [by eapply IH|]. cbn [orb].
  destruct (negb (y =? 0)); [done|].
  destruct (Z.ltb_spec 127 b); [by destruct ((b =? 61) && _)|].
  destruct (dec_cases b) as [E|[[E ->]|(E & E1 & _)]]; [lia| | |].
  - rewrite E in Hc. by destruct ((b =? 61) && _).
  - rewrite E in Hc |- *. cbn [Z.eqb Pos.eqb andb orb] in Hc |- *.
    destruct (Z.ltb_spec 2 (k + 1)); [done|]. rewrite (proj2 (Z.ltb_ge 64 64)) in Hc by lia. cbn [andb] in Hc.
    pose proof (counted_step _ _ _ _ _ (Z.lor (u32 (Z.shiftl x 6)) (Z.land 64 63)) true Hcnt ltac:(cbn; lia)) as H1.
    unfold emit in H1. cbv zeta in H1 |- *. destruct (n + 1 =? 4); by eapply IH.
  - rewrite (proj2 (Z.eqb_neq b 61)), (proj2 (Z.eqb_neq _ 127)), (proj2 (Z.ltb_lt _ 64)) in Hc by lia. cbn [andb orb] in Hc.
    destruct (Z.eqb_spec k 0); [|done]. rewrite (proj2 (Z.eqb_neq _ 64)) by lia. cbn [negb] in Hc.
    pose proof (counted_step _ _ _ _ _ (Z.lor (u32 (Z.shiftl x 6)) (Z.land (dec b) 63)) false Hcnt ltac:(done)) as H1.
    unfold emit in H1. cbv zeta in H1 |- *. rewrite Z.add_0_r in H1. destruct (n + 1 =? 4); by eapply IH.
Qed.

Lemma check_text_counts src y c k c' k' : check_text src y c k = Some (c', k') -> c <= c' <= c + Z.of_nat (length src).
Proof.
  revert y c k. induction src as [|b src IH]; intros y c k H; [injection H as <- <-; simpl; lia|].
  cbn [check_text length] in *. rewrite Nat2Z.inj_succ.
  repeat match type of H with
         | (if ?b then _ else _) = _ => destruct b
         | check_text _ _ _ _ = _ => apply IH in H; lia
         | _ => discriminate H
         end.
Qed.

(** ** Decoding what was encoded *)

Definition low24 (x : Z) : Z := x mod 2 ^ 24.
Definition next (x v : Z) : Z := Z.lor (u32 (Z.shiftl x 6)) (Z.land v 63).

Lemma gather x v : 0 <= v < 64 -> low24 (next x v) = low24 (64 * low24 x + v).
Proof.
  intros Hv. unfold next. replace (Z.land v 63) with v by (symmetry; change 63 with (Z.ones 6); rewrite Z.land_ones by lia; by apply Z.mod_small).
  rewrite Z.shiftl_mul_pow2 by lia. change (2 ^ 6) with 64. unfold u32, low24.
  change (2 ^ 32) with (64 * 2 ^ 26). rewrite (Z.mul_comm x), Z.mul_mod_distr_l by lia.
  assert (E : Z.lor (64 * (x mod 2 ^ 26)) v = 64 * (x mod 2 ^ 26) + v).
  { symmetry. apply Z.add_nocarry_lor. apply Z.bits_inj'. intros i Hi. rewrite Z.land_spec, Z.bits_0.
    destruct (Z.ltb_spec i 6).
    - rewrite (Z.mul_comm 64), (Z.mul_pow2_bits_low _ 6) by lia. done.
    - rewrite <- (Z.mod_small v (2 ^ 6)), Z.mod_pow2_bits_high, andb_false_r by (change (2 ^ 6) with 64; lia). done. }
  rewrite E. rewrite <- (Zplus_mod_idemp_l (64 * (x mod 2 ^ 24))), <- (Zplus_mod_idemp_l (64 * (x mod 2 ^ 26))).
  rewrite !Zmult_mod_idemp_r. rewrite <- (Zmult_mod_idemp_r (x mod 2 ^ 26)), Z.mod_mod_divide by (exists 4; done).
  by rewrite Zmult_mod_idemp_r.
Qed.

Lemma low24_bytes x : u8 (Z.shiftr x 16) = low24 x / 2 ^ 16 /\ u8 (Z.shiftr x 8) = low24 x / 2 ^ 8 mod 256 /\ u8 x = low24 x mod 256.
Proof.
  unfold u8, low24. rewrite !Z.shiftr_div_pow2 by lia.
  change (2 ^ 8) with 256. change (2 ^ 16) with 65536. change (2 ^ 24) with 16777216.
  Z.to_euclidean_division_equations. lia.
Qed.

Lemma sextet v : Z.land v 63 = v mod 64.
Proof. apply (Z.land_ones v 6). lia. Qed.

Lemma dec_enc v : 0 <= v < 64 -> dec (enc v) = v.
Proof. intros H. by destruct (enc_range v H) as (_ & _ & _ & _ & _ & ?). Qed.

(** One character of the second pass. *)
Lemma decode_enc v rest n j x out : 0 <= v < 64 -> 0 <= j < 2 ^ 32 ->
  decode_text (enc v :: rest) n j x out =
    if n + 1 =? 4 then decode_text rest 0 j (next x v) (out ++ emit j (next x v)) else decode_text rest (n + 1) j (next x v) out.
Proof.
  intros Hv Hj. destruct (enc_range v Hv) as (H1 & H2 & H3 & H4 & H5 & H6). cbn [decode_text].
  rewrite (proj2 (Z.eqb_neq _ 13)), (proj2 (Z.eqb_neq _ 10)), (proj2 (Z.eqb_neq _ 32)), H6 by lia. cbn [orb].
  rewrite (proj2 (Z.eqb_neq v 64)), Z.sub_0_r by lia. by rewrite (u32_small j) by lia.
Qed.

Lemma decode_pad rest n j x out : 0 < j < 2 ^ 32 ->
  decode_text (61 :: rest) n j x out =
    if n + 1 =? 4 then decode_text rest 0 (j - 1) (next x 0) (out ++ emit (j - 1) (next x 0))
    else decode_text rest (n + 1) (j - 1) (next x 0) out.
Proof.
  intros Hj. cbn [decode_text]. change (dec 61) with 64. cbn [Z.eqb Pos.eqb orb]. unfold next.
  change (Z.land 64 63) with (Z.land 0 63). by rewrite (u32_small (j - 1)) by lia.
Qed.

Lemma check_enc v rest n : 0 <= v < 64 -> check_text (enc v :: rest) 0 n 0 = check_text rest 0 (n + 1) 0.
Proof.
  intros Hv. destruct (enc_range v Hv) as (H1 & H2 & H3 & H4 & H5 & H6). cbn [check_text].
  rewrite (proj2 (Z.eqb_neq _ 32)), (proj2 (Z.eqb_neq _ 13)), (proj2 (Z.eqb_neq _ 10)), (proj2 (Z.eqb_neq _ 61)), H6 by lia.
  cbn [orb andb negb Z.eqb]. rewrite (proj2 (Z.ltb_ge 127 _)), (proj2 (Z.eqb_neq v 127)) by lia. cbn [orb]. by rewrite andb_false_r.
Qed.

Lemma enc_mod v : enc v = enc (v mod 64).
Proof. unfold enc. by rewrite !sextet, Zmod_mod. Qed.

Definition byte (b : Z) : Prop := 0 <= b < 256.

(** The four sextets of three bytes. *)
Lemma sextets a b c : byte a -> byte b -> byte c ->
  0 <= Z.shiftr a 2 < 64 /\ 0 <= Z.shiftl (Z.land a 3) 4 + Z.shiftr b 4 < 64 /\
  0 <= Z.shiftl (Z.land b 15) 2 + Z.shiftr c 6 < 64 /\
  64 * (64 * (64 * Z.shiftr a 2 + (Z.shiftl (Z.land a 3) 4 + Z.shiftr b 4)) + (Z.shiftl (Z.land b 15) 2 + Z.shiftr c 6)) + c mod 64 =
    65536 * a + 256 * b + c.
Proof.
  unfold byte. intros. rewrite !Z.shiftr_div_pow2, !Z.shiftl_mul_pow2 by lia.
  rewrite (Z.land_ones a 2 : _ -> Z.land a 3 = _), (Z.land_ones b 4 : _ -> Z.land b 15 = _) by lia.
  change (2 ^ 2) with 4. change (2 ^ 4) with 16. change (2 ^ 6) with 64. Z.to_euclidean_division_equations. lia.
Qed.

Lemma low24_quad x v1 v2 v3 v4 : 0 <= v1 < 64 -> 0 <= v2 < 64 -> 0 <= v3 < 64 -> 0 <= v4 < 64 ->
  low24 (next (next (next (next x v1) v2) v3) v4) = 64 * (64 * (64 * v1 + v2) + v3) + v4.
Proof.
  intros H1 H2 H3 H4. rewrite !gather by done. unfold low24.
  change (2 ^ 24) with 16777216. Z.to_euclidean_division_equations. lia.
Qed.

Lemma emit_bytes x a b c : byte a -> byte b -> byte c -> low24 x = 65536 * a + 256 * b + c ->
  emit 3 x = [a; b; c] /\ emit 2 x = [a; b] /\ emit 1 x = [a].
Proof.
  intros Ha Hb Hc E. unfold emit, byte in *. destruct (low24_bytes x) as (B1 & B2 & B3). rewrite B1, B2, B3, E.
  change (2 ^ 16) with 65536. change (2 ^ 8) with 256.
  assert ((65536 * a + 256 * b + c) / 65536 = a) as -> by (Z.to_euclidean_division_equations; lia).
  assert ((65536 * a + 256 * b + c) / 256 mod 256 = b) as -> by (Z.to_euclidean_division_equations; lia).
  assert ((65536 * a + 256 * b + c) mod 256 = c) as -> by (Z.to_euclidean_division_equations; lia). done.
Qed.

(** Rewrites with the characters of one group. *)
Ltac decode_chars := repeat (first [rewrite decode_enc by lia | rewrite decode_pad by lia]; cbn [Z.add Z.eqb Pos.eqb Pos.add Pos.succ]).

Lemma decode_quad a b c rest x out : byte a -> byte b -> byte c -> exists x',
  decode_text (encode_loop [a; b; c] ++ rest) 0 3 x out = decode_text rest 0 3 x' (out ++ [a; b; c]).
Proof.
  intros Ha Hb Hc. destruct (sextets a b c Ha Hb Hc) as (H1 & H2 & H3 & H4). cbn [encode_loop app]. rewrite (enc_mod c).
  assert (0 <= c mod 64 < 64) by (apply Z.mod_pos_bound; lia).
  pose proof (low24_quad x _ _ _ _ H1 H2 H3 H) as E. rewrite H4 in E.
  destruct (emit_bytes _ a b c Ha Hb Hc E) as (E3 & _). decode_chars. rewrite E3. eauto.
Qed.

Lemma decode_tail a more x out : byte a -> (forall b, more = Some b -> byte b) ->
  decode_text (encode_tail a more) 0 3 x out = out ++ a :: option_list more.
Proof.
  intros Ha Hm. assert (Hb : byte (default 0 more)) by (destruct more; simpl; [by apply Hm|done]).
  destruct (sextets a (default 0 more) 0 Ha Hb ltac:(done)) as (H1 & H2 & H3 & H4). change (Z.shiftr 0 6) with 0 in *.
  change (0 mod 64) with 0 in H4. rewrite Z.add_0_r in H3. rewrite (Z.add_0_r (Z.shiftl (Z.land _ 15) 2)) in H4.
  pose proof (low24_quad x _ _ _ 0 H1 H2 H3 ltac:(lia)) as E. rewrite H4 in E.
  destruct (emit_bytes _ a (default 0 more) 0 Ha Hb ltac:(done) E) as (_ & E2 & E1). unfold encode_tail. cbv zeta.
  destruct more as [b|]; simpl default in *; decode_chars.
  - change (3 - 1) with 2. by rewrite E2.
  - change (3 - 1 - 1) with 1. change (Z.shiftl (Z.land 0 15) 2) with 0 in E1. by rewrite E1.
Qed.

(** Induction on the groups of three bytes. *)
Lemma triple_ind (P : list Z -> Prop) : P [] -> (forall a, P [a]) -> (forall a b, P [a; b]) ->
  (forall a b c l, P l -> P (a :: b :: c :: l)) -> forall l, P l.
Proof.
  intros H0 H1 H2 H3. fix IH 1. intros [|a [|b [|c l]]]; [done|apply H1|apply H2|apply H3, IH].
Qed.

Lemma decode_encode src x out : Forall byte src -> decode_text (encode_loop src) 0 3 x out = out ++ src.
Proof.
  revert x out. induction src as [|a|a b|a b c src IH] using triple_ind; intros x out H.
  - by rewrite app_nil_r.
  - apply Forall_cons in H as [Ha _]. by apply (decode_tail a None).
  - apply Forall_cons in H as [Ha H]. apply Forall_cons in H as [Hb _]. apply (decode_tail a (Some b)); [done|]. by intros ? [= <-].
  - apply Forall_cons in H as [Ha H]. apply Forall_cons in H as [Hb H]. apply Forall_cons in H as [Hc H].
    destruct (decode_quad a b c (encode_loop src) x out Ha Hb Hc) as [x' E].
    change (encode_loop (a :: b :: c :: src)) with (encode_loop [a; b; c] ++ encode_loop src).
    rewrite E, IH by done. by rewrite <- app_assoc.
Qed.

Lemma encode_loop_len src : length (encode_loop src) = (4 * ((length src + 2) / 3))%nat.
Proof.
  induction src as [|a|a b|a b c src IH] using triple_ind; [done|done|done|]. cbn [encode_loop length]. rewrite IH.
  replace (S (S (S (length src))) + 2)%nat with (length src + 2 + 1 * 3)%nat by lia. rewrite Nat.div_add by lia. lia.
Qed.

(** The padding of the last group. *)
Definition pads (n : nat) : Z := Z.of_nat ((3 - n mod 3) mod 3).

Lemma check_encode src n : Forall byte src ->
  check_text (encode_loop src) 0 n 0 = Some (n + Z.of_nat (length (encode_loop src)), pads (length src)).
Proof.
  revert n. induction src as [|a|a b|a b c src IH] using triple_ind; intros n H.
  - by rewrite Z.add_0_r.
  - apply Forall_cons in H as [Ha _]. destruct (sextets a 0 0 Ha ltac:(done) ltac:(done)) as (H1 & H2 & _).
    cbn [encode_loop]. unfold encode_tail. cbn [default]. rewrite !check_enc by done.
    cbn. f_equal. f_equal. lia.
  - apply Forall_cons in H as [Ha H]. apply Forall_cons in H as [Hb _].
    destruct (sextets a b 0 Ha Hb ltac:(done)) as (H1 & H2 & H3 & _). change (Z.shiftr 0 6) with 0 in H3. rewrite Z.add_0_r in H3.
    cbn [encode_loop]. unfold encode_tail. cbn [default]. rewrite !check_enc by done.
    cbn. f_equal. f_equal. lia.
  - apply Forall_cons in H as [Ha H]. apply Forall_cons in H as [Hb H]. apply Forall_cons in H as [Hc H].
    destruct (sextets a b c Ha Hb Hc) as (H1 & H2 & H3 & _). cbn [encode_loop]. rewrite (enc_mod c).
    rewrite !check_enc by (done || apply Z.mod_pos_bound; lia). rewrite IH by done. f_equal. f_equal.
    + cbn [length]. lia.
    + unfold pads. cbn [length]. replace (S (S (S (length src)))) with (length src + 1 * 3)%nat by lia.
      by rewrite Nat.Div0.mod_add.
Qed.

Lemma decoded_size_encode src : decoded_size (Z.of_nat (length (encode_loop src))) - pads (length src) = Z.of_nat (length src).
Proof.
  rewrite size_formula, encode_loop_len by lia. unfold pads. rewrite Nat2Z.inj_mul, Nat2Z.inj_div, Nat2Z.inj_mod.
  set (n := length src). rewrite Nat2Z.inj_sub by (pose proof (Nat.mod_upper_bound n 3); lia). rewrite Nat2Z.inj_mod, Nat2Z.inj_add.
  change (Z.of_nat 4) with 4. change (Z.of_nat 2) with 2. change (Z.of_nat 3) with 3.
  Z.to_euclidean_division_equations. lia.
Qed.

(** C32. Base64 text decodes to the bytes that were encoded: [base64_encode] with room for the text writes
    four characters for every three bytes begun, terminated, or asks for exactly that room; [base64_decode] of
    that text with room for the bytes gives them back. *)
Theorem base64_round_trip (src : list Z) (dlen dlen' : Z)
    (Hsrc : Forall (fun b => 0 <= b < 256) src) (Hlen : 4 * ((Z.of_nat (length src) + 2) / 3) + 1 < 2 ^ 32)
    (Hd' : Z.of_nat (length src) <= dlen') :
  let n := 4 * ((Z.of_nat (length src) + 2) / 3) in
  let '(r, olen, out) := base64_encode true dlen src in
  if (0 <? n) && (dlen <? n + 1) then r = - ENOMEM /\ olen = n + 1 /\ out = []
  else r = 0 /\ olen = n /\ exists text, (src = [] /\ text = out \/ out = text ++ [0]) /\ Z.of_nat (length text) = n /\
    base64_decode true dlen' text = (0, Some (Z.of_nat (length src)), src).
Proof.
  intros n. unfold base64_encode. destruct src as [|b src']; [split; [done|]; split; [done|]; by exists []; split; [left|]|].
  set (src := b :: src') in *. set (slen := Z.of_nat (length src)) in *.
  assert (Hs : 0 < slen) by (unfold slen, src; simpl; lia). rewrite (proj2 (Z.eqb_neq slen 0)) by lia.
  assert (En : slen / 3 + (if slen mod 3 =? 0 then 0 else 1) = (slen + 2) / 3).
  { destruct (Z.eqb_spec (slen mod 3) 0); Z.to_euclidean_division_equations; lia. }
  rewrite En. assert (Hn : 0 < n) by (unfold n; Z.to_euclidean_division_equations; lia).
  rewrite (proj2 (Z.ltb_ge _ _)) by (unfold BASE64_SIZE_T_MAX; change ((2 ^ 32 - 1 - 1) / 4) with 1073741823; lia).
  rewrite (Z.mul_comm _ 4), orb_false_r, (proj2 (Z.ltb_lt 0 n)) by lia. fold n. cbn [andb].
  destruct (Z.ltb_spec dlen (n + 1)) as [Hd|Hd]; [done|].
  assert (El : Z.of_nat (length (encode_loop src)) = n).
  { rewrite encode_loop_len, Nat2Z.inj_mul, Nat2Z.inj_div, Nat2Z.inj_add. done. }
  split; [done|]. split; [done|]. exists (encode_loop src). split; [by right|]. split; [done|].
  unfold base64_decode. rewrite check_encode, Z.add_0_l by done.
  rewrite decoded_size_encode, (proj2 (Z.eqb_neq _ 0)) by lia.
  rewrite u32_small by (fold slen; unfold n in *; Z.to_euclidean_division_equations; lia). cbn [negb orb].
  rewrite (proj2 (Z.ltb_ge _ _)) by done. rewrite decode_encode by done. done.
Qed.

(** C33. [base64_decode] stays inside its destination on any input: it writes nothing unless it succeeds, and
    then no more bytes than [dlen] and than the size it reports when it is asked for the size;
    the reported size is always enough. *)
Theorem base64_decode_in_bounds (src : list Z) (dst : bool) (dlen : Z)
    (Hsrc : Forall (fun b => 0 <= b < 256) src) (Hlen : Z.of_nat (length src) < 2 ^ 30) (Hd : 0 <= dlen) :
  let '(r, olen, out) := base64_decode dst dlen src in
  Z.of_nat (length out) <= dlen /\ (r <> 0 -> out = []) /\
  (r = 0 /\ olen = Some (Z.of_nat (length out)) \/ r = - ENOMEM \/ r = - EINVAL /\ olen = None) /\
  (r = - ENOMEM -> exists n, olen = Some n /\ forall dlen', n <= dlen' ->
    exists out', base64_decode true dlen' src = (0, Some (Z.of_nat (length out')), out') /\ Z.of_nat (length out') <= n).
Proof.
  unfold base64_decode. destruct (check_text src 0 0 0) as [[n j]|] eqn:E; [|].
  2:{ split; [simpl; lia|]. split; [done|]. split; [by right; right|done]. }
  pose proof (check_text_counts _ _ _ _ _ _ E) as Hn.
  destruct (decode_text_len src 0 0 0 n j 0 3 0 [] ltac:(eapply Forall_impl; [exact Hsrc|]; simpl; lia) E) as (n' & j' & Hc).
  { exists 0, 0. by split_and!. }
  set (out := decode_text src 0 3 0 []) in *. destruct Hc as (q & s & Hq & Hs & Hk & Hc & _ & _ & Hl).
  destruct (Z.eqb_spec n 0) as [Hz|Hz]; [split; [simpl; lia|]; split; [done|]; split; [by left|done]|].
  assert (Hb : Z.of_nat (length out) <= decoded_size n - j).
  { rewrite size_formula by lia. revert Hl. destruct (Z.leb_spec 4 (s + j)); intros Hl; Z.to_euclidean_division_equations; lia. }
  assert (Hr : 0 <= decoded_size n - j < 2 ^ 32) by (rewrite size_formula in * by lia; Z.to_euclidean_division_equations; lia).
  rewrite u32_small by done. destruct (negb dst || (dlen <? decoded_size n - j)) eqn:Eb.
  - split; [simpl; lia|]. split; [done|]. split; [by right; left|]. intros _. eexists. split; [done|]. intros dlen' Hd'.
    cbn [negb orb]. rewrite (proj2 (Z.ltb_ge _ _)) by lia. by exists out.
  - apply orb_false_iff in Eb as [_ Eb%Z.ltb_ge]. split; [lia|]. split; [done|]. split; [by left|]. done.
Qed.

Lemma base64_round_trip_witness :
  base64_encode true 9 [77; 97; 110; 33] = (0, 8, [84; 87; 70; 117; 73; 81; 61; 61; 0]) /\
  let '(r, olen, out) := base64_encode true 9 [77; 97; 110; 33] in
  r = 0 /\ olen = 8 /\ exists text, ([77; 97; 110; 33] = [] /\ text = out \/ out = text ++ [0]) /\ Z.of_nat (length text) = 8 /\
    base64_decode true 4 text = (0, Some 4, [77; 97; 110; 33]).
Proof.
  split; [vm_compute; reflexivity|].
  exact (base64_round_trip [77; 97; 110; 33] 9 4 ltac:(repeat constructor; lia) ltac:(vm_compute; reflexivity) ltac:(simpl; lia)).
Defined.

Lemma base64_decode_in_bounds_witness :
  base64_decode true 1 [84; 81; 61; 61; 10] = (0, Some 1, [77]) /\ Z.of_nat (length [77]) <= 1.
Proof.
  split; [vm_compute; reflexivity|].
  pose proof (base64_decode_in_bounds [84; 81; 61; 61; 10] true 1 ltac:(repeat constructor; lia) ltac:(simpl; lia) ltac:(lia)) as H.
  exact (proj1 H).
Defined.

(** Characters that do not complete a group of four are accepted and lost, and an input that is not
    correct leaves [*olen] alone. *)
Lemma base64_incomplete_group :
  base64_decode true 9 [84; 87; 70; 117; 73; 81; 61] = (0, Some 3, [77; 97; 110]) /\
  base64_decode true 9 [84; 87; 70; 42] = (- EINVAL, None, []).
Proof. split; vm_compute; reflexivity. Qed.
