(* ===== verification/Cobs.v ===== *)
(** Consistent overhead byte stuffing: lib/utils/cobs.c and data/cobs.h.

    The stream functions hand their output to a callback, a parameter here that
    works on the user's data; [None] is the NULL buffer that marks the end of a frame.
    The functions on network buffers use the callback that appends to a buffer with
    bounded room. *)

From S2P Require Import Prelude.

#[local] Open Scope Z_scope.

Definition COBS_FLAG_TRAILING_DELIMITER : Z := 2 ^ 8.
Definition COBS_FLAG_CUSTOM_DELIMITER (x : Z) : Z := Z.land x 255.
Definition trailing (flags : Z) : bool := negb (Z.land flags COBS_FLAG_TRAILING_DELIMITER =? 0).

Definition cobs_max_encoded_len (decoded_size flags : Z) : Z :=
  if trailing flags then decoded_size + decoded_size / 254 + 1 + 1 else decoded_size + decoded_size / 254 + 1.

Record cobs_encoder := Cobs_encoder { fragment : list Z; enc_flags : Z }.
Record cobs_decoder := Cobs_decoder { code : Z; code_index : Z; dec_flags : Z }.

Section streams.
Context {U : Type} (cb : option (list Z) -> U -> Z * U).

Definition cobs_encoder_reset (e : cobs_encoder) : cobs_encoder := Cobs_encoder (<[0%nat := 1]> e.(fragment)) e.(enc_flags).

Definition cobs_encoder_finish (e : cobs_encoder) (close : bool) (u : U) : Z * cobs_encoder * U :=
  let sentinel := COBS_FLAG_CUSTOM_DELIMITER e.(enc_flags) in
  let n := Z.to_nat (nth 0 e.(fragment) 0) in
  let f := if sentinel =? 0 then e.(fragment)
           else map (fun b => Z.lxor b sentinel) (take n e.(fragment)) ++ drop n e.(fragment) in
  let e := Cobs_encoder f e.(enc_flags) in
  let '(ret, u) := cb (Some (take n f)) u in
  if ret <? 0 then (ret, cobs_encoder_reset e, u)
  else if close && trailing e.(enc_flags) then
    let '(ret, u) := cb (Some [sentinel]) u in
    if ret <? 0 then (ret, cobs_encoder_reset e, u) else (0, cobs_encoder_reset e, u)
  else (0, cobs_encoder_reset e, u).

(** [has_cb] is [false] for a NULL callback; the fragment starts uninitialised. *)
Definition cobs_encoder_init (has_cb : bool) (flags : Z) (e : cobs_encoder) : Z * cobs_encoder :=
  if negb has_cb then (- EINVAL, e) else (0, cobs_encoder_reset (Cobs_encoder e.(fragment) flags)).

Definition cobs_encoder_close (e : cobs_encoder) (u : U) : Z * cobs_encoder * U := cobs_encoder_finish e true u.

(** The loop; 0 stands for its normal end. *)
Fixpoint encoder_loop (buf : list Z) (e : cobs_encoder) (u : U) : Z * cobs_encoder * U :=
  match buf with
  | [] => (0, e, u)
  | b :: buf =>
      let '(ret, e, u) := if nth 0 e.(fragment) 0 =? 255 then cobs_encoder_finish e false u else (0, e, u) in
      if ret <? 0 then (ret, e, u)
      else if b =? 0 then
        let '(ret, e, u) := cobs_encoder_finish e false u in
        if ret <? 0 then (ret, e, u) else encoder_loop buf e u
      else
        let f := <[Z.to_nat (nth 0 e.(fragment) 0) := b]> e.(fragment) in
        encoder_loop buf (Cobs_encoder (<[0%nat := u8 (nth 0 f 0 + 1)]> f) e.(enc_flags)) u
  end.

Definition cobs_encoder_write (e : cobs_encoder) (buf : list Z) (u : U) : Z * cobs_encoder * U :=
  let '(ret, e, u) := encoder_loop buf e u in
  (if ret <? 0 then ret else Z.of_nat (length buf), e, u).

Definition cobs_decoder_reset (d : cobs_decoder) : cobs_decoder := Cobs_decoder 255 0 d.(dec_flags).
Definition cobs_decoder_needs_more_data (d : cobs_decoder) : bool := negb (d.(code_index) =? 0).

Definition cobs_decoder_init (has_cb : bool) (flags : Z) (d : cobs_decoder) : Z * cobs_decoder :=
  if negb has_cb then (- EINVAL, d) else (0, cobs_decoder_reset (Cobs_decoder d.(code) d.(code_index) flags)).

Definition cobs_decoder_close (d : cobs_decoder) : Z * cobs_decoder :=
  (if cobs_decoder_needs_more_data d then - EINVAL else 0, cobs_decoder_reset d).

Fixpoint decoder_loop (buf : list Z) (d : cobs_decoder) (u : U) : Z * cobs_decoder * U :=
  match buf with
  | [] => (0, d, u)
  | b :: buf =>
      let data := Z.lxor b (COBS_FLAG_CUSTOM_DELIMITER d.(dec_flags)) in
      if data =? 0 then
        if negb (trailing d.(dec_flags)) || cobs_decoder_needs_more_data d then (- EINVAL, cobs_decoder_reset d, u)
        else
          let '(ret, u) := cb None u in
          if ret <? 0 then (ret, cobs_decoder_reset d, u) else decoder_loop buf (cobs_decoder_reset d) u
      else if 0 <? d.(code_index) then
        let '(ret, u) := cb (Some [data]) u in
        if ret <? 0 then (ret, cobs_decoder_reset d, u)
        else decoder_loop buf (Cobs_decoder d.(code) (d.(code_index) - 1) d.(dec_flags)) u
      else
        let d := Cobs_decoder d.(code) data d.(dec_flags) in
        let '(ret, u) := if d.(code) =? 255 then (0, u) else cb (Some [0]) u in
        if ret <? 0 then (ret, cobs_decoder_reset d, u)
        else decoder_loop buf (Cobs_decoder d.(code_index) (d.(code_index) - 1) d.(dec_flags)) u
  end.

Definition cobs_decoder_write (d : cobs_decoder) (buf : list Z) (u : U) : Z * cobs_decoder * U :=
  let '(ret, d, u) := decoder_loop buf d u in
  (if ret <? 0 then ret else Z.of_nat (length buf), d, u).
End streams.

(** Network buffers: the bytes, and the size of the storage from the first of them on. *)
Record net_buf := Net_buf { nb_data : list Z; nb_size : Z }.
Definition net_buf_tailroom (b : net_buf) : Z := b.(nb_size) - Z.of_nat (length b.(nb_data)).

Definition cobs_net_buf_cb (buf : option (list Z)) (dst : net_buf) : Z * net_buf :=
  let bytes := default [] buf in
  if net_buf_tailroom dst <? Z.of_nat (length bytes) then (- ENOMEM, dst)
  else (0, Net_buf (dst.(nb_data) ++ bytes) dst.(nb_size)).

(** [net_buf_pull_mem] of the whole length: the data pointer moves behind the bytes. *)
Definition net_buf_pull_all (b : net_buf) : net_buf := Net_buf [] (net_buf_tailroom b).

(** The uninitialised object on the stack is an argument; the source is consumed. *)
Definition cobs_encode (e : cobs_encoder) (src dst : net_buf) (flags : Z) : Z * net_buf * net_buf :=
  let '(_, e) := cobs_encoder_init true flags e in
  let '(ret, e, dst) := cobs_encoder_write cobs_net_buf_cb e src.(nb_data) dst in
  let src := net_buf_pull_all src in
  if ret <? 0 then (ret, src, dst)
  else let '(ret, _, dst) := cobs_encoder_close cobs_net_buf_cb e dst in (ret, src, dst).

Definition cobs_decode (d : cobs_decoder) (src dst : net_buf) (flags : Z) : Z * net_buf * net_buf :=
  let '(_, d) := cobs_decoder_init true flags d in
  let '(ret, d, dst) := cobs_decoder_write cobs_net_buf_cb d src.(nb_data) dst in
  let src := net_buf_pull_all src in
  if ret <? 0 then (ret, src, dst) else let '(ret, _) := cobs_decoder_close d in (ret, src, dst).

(** ** The reference encoding *)

Definition group (cur : list Z) : list Z := Z.of_nat (length cur) + 1 :: cur.

(** [cur] is the group begun. *)
Fixpoint stuff (cur data : list Z) : list Z :=
  match data with
  | [] => group cur
  | b :: data =>
      if (length cur =? 254)%nat then group cur ++ (if b =? 0 then group [] ++ stuff [] data else stuff [b] data)
      else if b =? 0 then group cur ++ stuff [] data
      else stuff (cur ++ [b]) data
  end.

Definition nonzero (l : list Z) : Prop := Forall (fun b => 0 < b < 256) l.
Definition stuffed (cur data : list Z) : Prop := (length cur <= 254)%nat /\ nonzero cur /\ Forall (fun b => 0 <= b < 256) data.

Lemma group_nonzero cur : (length cur <= 254)%nat -> nonzero cur -> nonzero (group cur).
Proof. intros H1 H2. constructor; [lia|done]. Qed.

Lemma stuff_nonzero cur data : stuffed cur data -> nonzero (stuff cur data).
Proof.
  revert cur. induction data as [|b data IH]; intros cur (H1 & H2 & H3); [by apply group_nonzero|].
  apply Forall_cons in H3 as [Hb H3]. cbn [stuff].
  destruct (Nat.eqb_spec (length cur) 254), (Z.eqb_spec b 0);
    repeat first [apply Forall_app_2 | apply group_nonzero | apply IH; split_and! | done | apply Forall_singleton; lia | simpl; lia | apply Forall_nil_2].
  rewrite length_app. simpl. lia.
Qed.

Lemma stuff_length cur data : stuffed cur data ->
  let n := Z.of_nat (length cur + length data) in Z.of_nat (length (stuff cur data)) <= n + n / 254 + 1.
Proof.
  revert cur. induction data as [|b data IH]; intros cur (H1 & H2 & H3) n.
  { simpl. unfold n. simpl. rewrite Nat.add_0_r in *. pose proof (Z.div_pos (Z.of_nat (length cur)) 254). lia. }
  apply Forall_cons in H3 as [Hb H3]. cbn [stuff].
  assert (IH0 := IH [] ltac:(by split_and!; [simpl; lia|apply Forall_nil_2|])). cbv zeta in IH0. cbn [length Nat.add] in *.
  destruct (Nat.eqb_spec (length cur) 254) as [E|E], (Z.eqb_spec b 0) as [Eb|Eb].
  - rewrite !length_app. unfold group. cbn [length]. subst n. Z.to_euclidean_division_equations. lia.
  - assert (IH1 := IH [b] ltac:(split_and!; [simpl; lia|apply Forall_singleton; lia|done])). cbv zeta in IH1.
    rewrite length_app. unfold group. cbn [length Nat.add] in *. subst n. Z.to_euclidean_division_equations. lia.
  - rewrite length_app. unfold group. cbn [length]. subst n. Z.to_euclidean_division_equations. lia.
  - assert (IH1 := IH (cur ++ [b]) ltac:(split_and!; [rewrite length_app; simpl; lia|apply Forall_app_2; [done|apply Forall_singleton; lia]|done])).
    cbv zeta in IH1. rewrite length_app in IH1. cbn [length Nat.add] in *. subst n. Z.to_euclidean_division_equations. lia.
Qed.

(** ** The encoder *)

Definition mask (flags : Z) (l : list Z) : list Z := map (fun b => Z.lxor b (COBS_FLAG_CUSTOM_DELIMITER flags)) l.

(** The group begun is in the fragment, behind its code. *)
Record holds (e : cobs_encoder) (cur : list Z) (flags : Z) : Prop := {
  ho_flags : e.(enc_flags) = flags;
  ho_room : (length cur <= 254)%nat;
  ho_length : length e.(fragment) = 255%nat;
  ho_cur : take (S (length cur)) e.(fragment) = group cur
}.

Lemma mask_length flags l : length (mask flags l) = length l.
Proof. apply length_map. Qed.

Lemma mask_0 flags l : COBS_FLAG_CUSTOM_DELIMITER flags = 0 -> mask flags l = l.
Proof. intros E. unfold mask. rewrite E. rewrite (map_ext _ id); [apply map_id|]. intros b. apply Z.lxor_0_r. Qed.

Lemma holds_head e cur flags : holds e cur flags -> nth 0 e.(fragment) 0 = Z.of_nat (length cur) + 1.
Proof. intros [_ _ _ H]. destruct e.(fragment); [done|]. by injection H as -> _. Qed.

Lemma reset_holds f flags : length f = 255%nat -> holds (cobs_encoder_reset (Cobs_encoder f flags)) [] flags.
Proof.
  intros H. split; simpl; [done|lia|by rewrite length_insert|]. by destruct f.
Qed.

Lemma finish_ok {U} (cb : option (list Z) -> U -> Z * U) e cur flags close u : holds e cur flags ->
  exists e', holds e' [] flags /\
    cobs_encoder_finish cb e close u =
      let '(ret, u) := cb (Some (mask flags (group cur))) u in
      if ret <? 0 then (ret, e', u)
      else if close && trailing flags then
        let '(ret, u) := cb (Some [COBS_FLAG_CUSTOM_DELIMITER flags]) u in
        if ret <? 0 then (ret, e', u) else (0, e', u)
      else (0, e', u).
Proof.
  intros He. pose proof (holds_head _ _ _ He) as Hh. destruct He as [<- H2 H3 H4]. unfold cobs_encoder_finish. cbv zeta. rewrite Hh.
  replace (Z.to_nat (Z.of_nat (length cur) + 1)) with (S (length cur)) by lia.
  set (f := if _ =? 0 then _ else _).
  assert (Hf : length f = 255%nat /\ take (S (length cur)) f = mask (enc_flags e) (group cur)).
  { unfold f. destruct (Z.eqb_spec (COBS_FLAG_CUSTOM_DELIMITER (enc_flags e)) 0) as [E|E].
    - by rewrite mask_0.
    - rewrite H4. split; [|by apply take_app_length'; unfold mask; rewrite length_map].
      rewrite length_app, length_map, length_drop, H3. unfold group. simpl. lia. }
  destruct Hf as [Hf1 Hf2]. exists (cobs_encoder_reset (Cobs_encoder f (enc_flags e))). split; [by apply reset_holds|].
  rewrite Hf2. done.
Qed.

(** A byte joins the group. *)
Lemma store_holds e cur flags b : holds e cur flags -> (length cur < 254)%nat ->
  let f := <[Z.to_nat (nth 0 e.(fragment) 0) := b]> e.(fragment) in
  holds (Cobs_encoder (<[0%nat := u8 (nth 0 f 0 + 1)]> f) e.(enc_flags)) (cur ++ [b]) flags.
Proof.
  intros He Hl f. pose proof (holds_head _ _ _ He) as Hh. destruct He as [H1 H2 H3 H4].
  split; simpl; [done|rewrite length_app; simpl; lia|unfold f; by rewrite !length_insert|].
  unfold f. rewrite Hh. replace (Z.to_nat (Z.of_nat (length cur) + 1)) with (S (length cur)) by lia.
  destruct (fragment e) as [|c l]; [done|]. simpl in *. subst c. injection H4 as H4. unfold group. rewrite length_app. cbn [length Nat.add]. replace (length cur + 1)%nat with (S (length cur)) by lia. cbn [take].
  f_equal.
  - unfold u8. rewrite Z.mod_small by (change (2 ^ 8) with 256; lia). lia.
  - rewrite (take_S_r _ _ b) by (rewrite list_lookup_insert_eq; [done|lia]). rewrite take_insert_ge by lia. by rewrite H4.
Qed.

(** The output of the network-buffer callback. *)
Definition appended (dst : net_buf) (l : list Z) : net_buf := Net_buf (dst.(nb_data) ++ l) dst.(nb_size).
Definition fits (dst : net_buf) (l : list Z) : Prop := Z.of_nat (length dst.(nb_data) + length l) <= dst.(nb_size).

Lemma appended_app dst l l' : appended (appended dst l) l' = appended dst (l ++ l').
Proof. unfold appended. simpl. by rewrite app_assoc. Qed.

Lemma appended_nil dst : appended dst [] = dst.
Proof. destruct dst. unfold appended. simpl. by rewrite app_nil_r. Qed.

Lemma fits_app dst l l' : fits dst (l ++ l') -> fits dst l /\ fits (appended dst l) l'.
Proof. unfold fits, appended. simpl. rewrite !length_app. lia. Qed.

Lemma net_buf_cb_ok b dst : fits dst (default [] b) -> cobs_net_buf_cb b dst = (0, appended dst (default [] b)).
Proof.
  unfold fits, cobs_net_buf_cb, net_buf_tailroom. intros H. cbv zeta. by rewrite (proj2 (Z.ltb_ge _ _)) by lia.
Qed.

Lemma mask_app flags l l' : mask flags (l ++ l') = mask flags l ++ mask flags l'.
Proof. apply map_app. Qed.


(** Finishing a group in the middle of the data. *)
Lemma finish_middle e cur flags dst rest : holds e cur flags -> fits dst (mask flags (group cur) ++ rest) ->
  exists e', holds e' [] flags /\ fits (appended dst (mask flags (group cur))) rest /\
    cobs_encoder_finish cobs_net_buf_cb e false dst = (0, e', appended dst (mask flags (group cur))).
Proof.
  intros He Hf. destruct (finish_ok cobs_net_buf_cb e cur flags false dst He) as (e' & He' & ->).
  apply fits_app in Hf as [H1 H2]. rewrite net_buf_cb_ok by done. by exists e'.
Qed.

Lemma encoder_loop_ok e cur flags data dst : holds e cur flags -> stuffed cur data ->
  fits dst (mask flags (stuff cur data)) ->
  exists e' cur' out, encoder_loop cobs_net_buf_cb data e dst = (0, e', appended dst out) /\ holds e' cur' flags /\
    out ++ mask flags (group cur') = mask flags (stuff cur data).
Proof.
  revert e cur dst. induction data as [|b data IH]; intros e cur dst He (H1 & H2 & H3) Hf.
  { exists e, cur, []. by rewrite appended_nil. }
  apply Forall_cons in H3 as [Hb H3]. cbn [encoder_loop stuff] in *. rewrite (holds_head _ _ _ He).
  assert (Hs0 : stuffed [] data) by (split_and!; [simpl; lia|apply Forall_nil_2|done]).
  destruct (Nat.eqb_spec (length cur) 254) as [El|El].
  - rewrite El. change (Z.of_nat 254 + 1 =? 255) with true. cbv iota. rewrite mask_app in Hf.
    destruct (finish_middle e cur flags dst _ He Hf) as (e1 & He1 & Hf1 & ->). cbn [Z.ltb Z.compare].
    destruct (Z.eqb_spec b 0) as [Eb|Eb].
    + rewrite mask_app in Hf1. destruct (finish_middle e1 [] flags _ _ He1 Hf1) as (e2 & He2 & Hf2 & ->). cbn [Z.ltb Z.compare].
      destruct (IH e2 [] _ He2 Hs0 Hf2) as (e' & cur' & out & E & He' & Ho). rewrite E, !appended_app.
      eexists e', cur', _. split; [done|]. split; [done|]. by rewrite !mask_app, <- ?app_assoc, Ho.
    + pose proof (store_holds e1 [] flags b He1 ltac:(simpl; lia)) as He2. cbv zeta in He2.
      destruct (IH _ [b] _ He2 ltac:(split_and!; [simpl; lia|apply Forall_singleton; lia|done]) Hf1) as (e' & cur' & out & E & He' & Ho).
      rewrite E, appended_app. exists e', cur', (mask flags (group cur) ++ out). split; [done|]. split; [done|].
      by rewrite !mask_app, <- app_assoc, Ho.
  - rewrite (proj2 (Z.eqb_neq _ 255)) by lia. cbn [Z.ltb Z.compare]. destruct (Z.eqb_spec b 0) as [Eb|Eb].
    + rewrite mask_app in Hf. destruct (finish_middle e cur flags dst _ He Hf) as (e1 & He1 & Hf1 & ->). cbn [Z.ltb Z.compare].
      destruct (IH e1 [] _ He1 Hs0 Hf1) as (e' & cur' & out & E & He' & Ho). rewrite E, appended_app.
      exists e', cur', (mask flags (group cur) ++ out). split; [done|]. split; [done|]. by rewrite !mask_app, <- app_assoc, Ho.
    + pose proof (store_holds e cur flags b He ltac:(lia)) as He2. cbv zeta in He2.
      apply (IH _ (cur ++ [b]) _ He2); [|done].
      split_and!; [rewrite length_app; simpl; lia|apply Forall_app_2; [done|apply Forall_singleton; lia]|done].
Qed.

(** ** The decoder *)

Lemma unmask b s : Z.lxor (Z.lxor b s) s = b.
Proof. by rewrite Z.lxor_assoc, Z.lxor_nilpotent, Z.lxor_0_r. Qed.

(** The bytes of a group. *)
Lemma decode_bytes l c flags rest dst : nonzero l -> fits dst l ->
  decoder_loop cobs_net_buf_cb (mask flags l ++ rest) (Cobs_decoder c (Z.of_nat (length l)) flags) dst =
  decoder_loop cobs_net_buf_cb rest (Cobs_decoder c 0 flags) (appended dst l).
Proof.
  intros Hn. revert dst. induction Hn as [|b l Hb _ IH]; intros dst Hf; [by rewrite appended_nil|].
  cbn [mask map app decoder_loop dec_flags code_index code]. rewrite unmask, (proj2 (Z.eqb_neq b 0)) by lia.
  rewrite (proj2 (Z.ltb_lt 0 _)) by (simpl; lia). apply (fits_app dst [b] l) in Hf as [H1 H2].
  rewrite net_buf_cb_ok by done. cbn [Z.ltb Z.compare default].
  replace (Z.of_nat (length (b :: l)) - 1) with (Z.of_nat (length l)) by (simpl; lia).
  fold (mask flags l). rewrite IH, appended_app by done. done.
Qed.

(** The zero that ends the group before. *)
Definition lead (c : Z) : list Z := if c =? 255 then [] else [0].

Lemma decode_group cur c flags rest dst : (length cur <= 254)%nat -> nonzero cur -> fits dst (lead c ++ cur) ->
  decoder_loop cobs_net_buf_cb (mask flags (group cur) ++ rest) (Cobs_decoder c 0 flags) dst =
  decoder_loop cobs_net_buf_cb rest (Cobs_decoder (Z.of_nat (length cur) + 1) 0 flags) (appended dst (lead c ++ cur)).
Proof.
  intros Hl Hn Hf. unfold group. cbn [mask map app decoder_loop dec_flags code_index code].
  rewrite unmask, (proj2 (Z.eqb_neq _ 0)), Z.ltb_irrefl by lia. cbv zeta. cbn [code_index code dec_flags].
  replace (Z.of_nat (length cur) + 1 - 1) with (Z.of_nat (length cur)) by lia. fold (mask flags cur).
  apply fits_app in Hf as [H1 H2]. rewrite <- appended_app. unfold lead in *. destruct (Z.eqb_spec c 255) as [E|E].
  - cbn [Z.ltb Z.compare]. rewrite appended_nil in *. by apply decode_bytes.
  - rewrite net_buf_cb_ok by done. cbn [Z.ltb Z.compare default]. by apply decode_bytes.
Qed.

Lemma decode_stuff cur data c flags rest dst : stuffed cur data -> fits dst (lead c ++ cur ++ data) ->
  exists c', decoder_loop cobs_net_buf_cb (mask flags (stuff cur data) ++ rest) (Cobs_decoder c 0 flags) dst =
    decoder_loop cobs_net_buf_cb rest (Cobs_decoder c' 0 flags) (appended dst (lead c ++ cur ++ data)).
Proof.
  revert cur c dst. induction data as [|b data IH]; intros cur c dst (H1 & H2 & H3) Hf.
  { rewrite app_nil_r in *. eexists. by apply decode_group. }
  apply Forall_cons in H3 as [Hb H3]. cbn [stuff]. rewrite app_assoc in Hf.
  assert (Hs0 : stuffed [] data) by (split_and!; [simpl; lia|apply Forall_nil_2|done]).
  destruct (Nat.eqb_spec (length cur) 254) as [El|El], (Z.eqb_spec b 0) as [Eb|Eb].
  - apply fits_app in Hf as [Hf1 Hf2]. rewrite !mask_app, <- !app_assoc, decode_group by done. rewrite El. change (Z.of_nat 254 + 1) with 255.
    rewrite decode_group; [|simpl; lia|apply Forall_nil_2|]. 2:{ by apply (fits_app _ [] (b :: data)) in Hf2 as [? _]. }
    change (lead 255 ++ []) with (@nil Z). rewrite appended_nil. subst b.
    destruct (IH [] (Z.of_nat (length (@nil Z)) + 1) (appended dst (lead c ++ cur)) Hs0 Hf2) as [c' E].
    exists c'. by rewrite E, appended_app, <- app_assoc.
  - apply fits_app in Hf as [Hf1 Hf2]. rewrite mask_app, <- app_assoc, decode_group by done. rewrite El. change (Z.of_nat 254 + 1) with 255.
    destruct (IH [b] 255 _ ltac:(split_and!; [simpl; lia|apply Forall_singleton; lia|done]) Hf2) as [c' E].
    exists c'. rewrite E, appended_app, <- app_assoc. done.
  - apply fits_app in Hf as [Hf1 Hf2]. rewrite mask_app, <- app_assoc, decode_group by done.
    assert (Hld : lead (Z.of_nat (length cur) + 1) = [0]) by (unfold lead; by rewrite (proj2 (Z.eqb_neq _ _)) by lia).
    destruct (IH [] (Z.of_nat (length cur) + 1) _ Hs0 ltac:(rewrite Hld; subst b; exact Hf2)) as [c' E].
    exists c'. rewrite E, Hld, appended_app, <- app_assoc. by subst b.
  - destruct (IH (cur ++ [b]) c dst) as [c' E].
    + split_and!; [rewrite length_app; simpl; lia|apply Forall_app_2; [done|apply Forall_singleton; lia]|done].
    + by rewrite <- !app_assoc in Hf |- *.
    + exists c'. rewrite E. by rewrite <- (app_assoc cur).
Qed.

(** ** Writing in pieces *)

Section pieces.
Context {S U : Type} (write : S -> list Z -> U -> Z * S * U).
Fixpoint write_all (chunks : list (list Z)) (s : S) (u : U) : Z * S * U :=
  match chunks with
  | [] => (0, s, u)
  | c :: chunks => let '(r, s, u) := write s c u in if r <? 0 then (r, s, u) else write_all chunks s u
  end.
End pieces.

Lemma encoder_loop_app {U} (cb : option (list Z) -> U -> Z * U) a b e u :
  encoder_loop cb (a ++ b) e u = let '(r, e', u') := encoder_loop cb a e u in if r <? 0 then (r, e', u') else encoder_loop cb b e' u'.
Proof.
  revert e u. induction a as [|x a IH]; intros e u; [done|]. cbn [app encoder_loop].
  destruct (if nth 0 _ _ =? 255 then _ else _) as [[r e1] u1]. destruct (r <? 0) eqn:E; [by rewrite E|].
  destruct (x =? 0); [|apply IH]. destruct (cobs_encoder_finish _ _ _ _) as [[r2 e2] u2].
  destruct (r2 <? 0) eqn:E2; [by rewrite E2|apply IH].
Qed.

Lemma decoder_loop_app {U} (cb : option (list Z) -> U -> Z * U) a b d u :
  decoder_loop cb (a ++ b) d u = let '(r, d', u') := decoder_loop cb a d u in if r <? 0 then (r, d', u') else decoder_loop cb b d' u'.
Proof.
  revert d u. induction a as [|x a IH]; intros d u; [done|]. cbn [app decoder_loop]. cbv zeta.
  destruct (Z.lxor _ _ =? 0).
  { destruct (_ || _); [done|]. destruct (cb None u) as [r u1]. destruct (r <? 0) eqn:E; [by rewrite E|apply IH]. }
  destruct (0 <? _).
  - destruct (cb _ u) as [r u1]. destruct (r <? 0) eqn:E; [by rewrite E|apply IH].
  - destruct (if _ =? 255 then _ else _) as [r u1]. destruct (r <? 0) eqn:E; [by rewrite E|apply IH].
Qed.

Lemma write_all_encoder {U} (cb : option (list Z) -> U -> Z * U) chunks e u e' u' :
  encoder_loop cb (concat chunks) e u = (0, e', u') -> write_all (cobs_encoder_write cb) chunks e u = (0, e', u').
Proof.
  revert e u. induction chunks as [|c chunks IH]; intros e u; [done|]. cbn [concat write_all]. rewrite encoder_loop_app.
  unfold cobs_encoder_write. destruct (encoder_loop cb c e u) as [[r e1] u1]. destruct (Z.ltb_spec r 0) as [E|E].
  - intros [= -> _ _]. done.
  - intros H. rewrite (proj2 (Z.ltb_ge _ _)) by lia. by apply IH.
Qed.

Lemma write_all_decoder {U} (cb : option (list Z) -> U -> Z * U) chunks d u d' u' :
  decoder_loop cb (concat chunks) d u = (0, d', u') -> write_all (cobs_decoder_write cb) chunks d u = (0, d', u').
Proof.
  revert d u. induction chunks as [|c chunks IH]; intros d u; [done|]. cbn [concat write_all]. rewrite decoder_loop_app.
  unfold cobs_decoder_write. destruct (decoder_loop cb c d u) as [[r d1] u1]. destruct (Z.ltb_spec r 0) as [E|E].
  - intros [= -> _ _]. done.
  - intros H. rewrite (proj2 (Z.ltb_ge _ _)) by lia. by apply IH.
Qed.

(** ** A whole frame *)

Definition cobs_frame (flags : Z) (data : list Z) : list Z :=
  mask flags (stuff [] data) ++ (if trailing flags then [COBS_FLAG_CUSTOM_DELIMITER flags] else []).

Lemma encode_frame e flags data n : length e.(fragment) = 255%nat -> Forall (fun b => 0 <= b < 256) data ->
  fits (Net_buf [] n) (cobs_frame flags data) -> let e0 := cobs_encoder_reset (Cobs_encoder e.(fragment) flags) in
  exists e1 dst1 e2, encoder_loop cobs_net_buf_cb data e0 (Net_buf [] n) = (0, e1, dst1) /\
    cobs_encoder_close cobs_net_buf_cb e1 dst1 = (0, e2, Net_buf (cobs_frame flags data) n).
Proof.
  intros He Hd Hf e0. apply fits_app in Hf as Hf'. destruct Hf' as [Hf1 Hf2].
  destruct (encoder_loop_ok e0 [] flags data (Net_buf [] n)) as (e1 & cur & out & E & He1 & Ho);
    [by apply reset_holds|by split_and!; [simpl; lia|apply Forall_nil_2|]|done|].
  exists e1, (appended (Net_buf [] n) out). destruct (finish_ok cobs_net_buf_cb e1 cur flags true (appended (Net_buf [] n) out) He1) as (e2 & He2 & E2).
  exists e2. split; [done|]. unfold cobs_encoder_close. rewrite E2. rewrite <- Ho in Hf1. apply fits_app in Hf1 as [_ Hf1].
  rewrite net_buf_cb_ok by done. cbn [default id Z.ltb Z.compare andb]. rewrite appended_app, Ho.
  unfold cobs_frame. destruct (trailing flags); [|by rewrite app_nil_r].
  rewrite net_buf_cb_ok by done. cbn [default id Z.ltb Z.compare]. by rewrite appended_app.
Qed.

Lemma decode_frame d flags data n : Forall (fun b => 0 <= b < 256) data -> fits (Net_buf [] n) data ->
  let d0 := cobs_decoder_reset (Cobs_decoder d.(code) d.(code_index) flags) in
  exists d1, decoder_loop cobs_net_buf_cb (cobs_frame flags data) d0 (Net_buf [] n) = (0, d1, Net_buf data n) /\
    (cobs_decoder_close d1).1 = 0.
Proof.
  intros Hd Hf d0. unfold cobs_frame, d0, cobs_decoder_reset. cbn [dec_flags].
  destruct (decode_stuff [] data 255 flags (if trailing flags then [COBS_FLAG_CUSTOM_DELIMITER flags] else []) (Net_buf [] n))
    as [c' E]; [by split_and!; [simpl; lia|apply Forall_nil_2|]|done|]. rewrite E. destruct (trailing flags) eqn:Et.
  - cbn [decoder_loop dec_flags]. rewrite Z.lxor_nilpotent, Et. cbn [Z.eqb negb orb cobs_decoder_needs_more_data code_index].
    rewrite net_buf_cb_ok by (unfold fits in *; simpl in *; lia). cbn [Z.ltb Z.compare default]. rewrite appended_nil. by eexists.
  - by eexists.
Qed.

Lemma frame_length flags data : Forall (fun b => 0 <= b < 256) data ->
  Z.of_nat (length (cobs_frame flags data)) <= cobs_max_encoded_len (Z.of_nat (length data)) flags.
Proof.
  intros Hd. pose proof (stuff_length [] data ltac:(by split_and!; [simpl; lia|apply Forall_nil_2|])) as H. cbv zeta in H.
  cbn [length Nat.add] in H. unfold cobs_frame, cobs_max_encoded_len. rewrite length_app, mask_length. destruct (trailing flags); cbn [length]; lia.
Qed.

Lemma frame_delimiter flags data : Forall (fun b => 0 <= b < 256) data -> COBS_FLAG_CUSTOM_DELIMITER flags ∉ mask flags (stuff [] data).
Proof.
  intros Hd Hin. unfold mask in Hin. apply list_elem_of_fmap in Hin as (b & E & Hb).
  assert (Hn : nonzero (stuff [] data)) by (apply stuff_nonzero; by split_and!; [simpl; lia|apply Forall_nil_2|]).
  unfold nonzero in Hn. rewrite Forall_forall in Hn. specialize (Hn b Hb). apply (f_equal (fun x => Z.lxor x (COBS_FLAG_CUSTOM_DELIMITER flags))) in E.
  rewrite unmask, Z.lxor_nilpotent in E. lia.
Qed.

(** C30. A frame decodes to the data that was encoded, for any flags: [cobs_encode] into a buffer of
    [cobs_max_encoded_len] bytes succeeds, writes the delimiter nowhere but at the end when asked to, and
    [cobs_decode] of the frame gives the data back; the stream functions produce and accept the same
    frame whatever the pieces it is written in. *)
Theorem cobs_round_trip (e : cobs_encoder) (d : cobs_decoder) (flags : Z) (data : list Z) (s n n' : Z)
    (He : length e.(fragment) = 255%nat) (Hdata : Forall (fun b => 0 <= b < 256) data)
    (Hn : cobs_max_encoded_len (Z.of_nat (length data)) flags <= n) (Hn' : Z.of_nat (length data) <= n') :
  exists body, let frame := body ++ (if trailing flags then [COBS_FLAG_CUSTOM_DELIMITER flags] else []) in
  (COBS_FLAG_CUSTOM_DELIMITER flags ∉ body) /\
  cobs_encode e (Net_buf data s) (Net_buf [] n) flags = (0, net_buf_pull_all (Net_buf data s), Net_buf frame n) /\
  cobs_decode d (Net_buf frame s) (Net_buf [] n') flags = (0, net_buf_pull_all (Net_buf frame s), Net_buf data n') /\
  (forall chunks, concat chunks = data -> exists e1 dst1 e2,
    write_all (cobs_encoder_write cobs_net_buf_cb) chunks (cobs_encoder_init true flags e).2 (Net_buf [] n) = (0, e1, dst1) /\
    cobs_encoder_close cobs_net_buf_cb e1 dst1 = (0, e2, Net_buf frame n)) /\
  (forall chunks, concat chunks = frame -> exists d1,
    write_all (cobs_decoder_write cobs_net_buf_cb) chunks (cobs_decoder_init true flags d).2 (Net_buf [] n') = (0, d1, Net_buf data n') /\
    (cobs_decoder_close d1).1 = 0).
Proof.
  pose proof (frame_length flags data Hdata). exists (mask flags (stuff [] data)). cbv zeta. fold (cobs_frame flags data).
  destruct (encode_frame e flags data n He Hdata) as (e1 & dst1 & e2 & E1 & E2); [unfold fits; simpl; lia|].
  destruct (decode_frame d flags data n' Hdata) as (d1 & E3 & E4); [unfold fits; simpl; lia|].
  split; [by apply frame_delimiter|]. split_and!.
  - unfold cobs_encode, cobs_encoder_write. cbn [cobs_encoder_init negb nb_data nb_size]. rewrite E1. cbn [Z.ltb Z.compare].
    rewrite (proj2 (Z.ltb_ge _ _)) by lia. by rewrite E2.
  - unfold cobs_decode, cobs_decoder_write. cbn [cobs_decoder_init negb nb_data nb_size]. rewrite E3. cbn [Z.ltb Z.compare].
    rewrite (proj2 (Z.ltb_ge _ _)) by lia. destruct (cobs_decoder_close d1) as [r d2]. simpl in E4. by rewrite E4.
  - intros chunks Hc. exists e1, dst1, e2. split; [|done]. apply write_all_encoder. by rewrite Hc.
  - intros chunks Hc. exists d1. split; [|done]. apply write_all_decoder. by rewrite Hc.
Qed.

Lemma cobs_round_trip_witness :
  let e := Cobs_encoder (replicate 255 7) 0 in let d := Cobs_decoder 0 0 0 in
  exists body, let frame := body ++ [127] in
  (127 ∉ body) /\ cobs_encode e (Net_buf [1; 0; 127; 0] 9) (Net_buf [] 6) 383 = (0, net_buf_pull_all (Net_buf [1; 0; 127; 0] 9), Net_buf frame 6) /\
  cobs_decode d (Net_buf frame 9) (Net_buf [] 4) 383 = (0, net_buf_pull_all (Net_buf frame 9), Net_buf [1; 0; 127; 0] 4).
Proof.
  intros e d. destruct (cobs_round_trip e d 383 [1; 0; 127; 0] 9 6 4 ltac:(reflexivity) ltac:(repeat constructor; lia)
    ltac:(vm_compute; congruence) ltac:(simpl; lia)) as (body & H1 & H2 & H3 & _).
  exists body. split; [exact H1|]. split; [exact H2|exact H3].
Defined.

(** ** Errors *)

Lemma encoder_loop_errors {U} (cb : option (list Z) -> U -> Z * U) buf e cur flags u : holds e cur flags ->
  let '(r, e', u') := encoder_loop cb buf e u in
  (r = 0 /\ exists cur', holds e' cur' flags) \/
  (r < 0 /\ holds e' [] flags /\ exists bytes u0, cb (Some bytes) u0 = (r, u')).
Proof.
  revert e cur u. induction buf as [|b buf IH]; intros e cur u He; [left; eauto|]. cbn [encoder_loop].
  assert (Hfin : forall e cur u, holds e cur flags -> let '(r, e', u') := cobs_encoder_finish cb e false u in
    holds e' [] flags /\ (r = 0 \/ r < 0 /\ exists bytes u0, cb (Some bytes) u0 = (r, u'))).
  { intros e0 cur0 u0 H0. destruct (finish_ok cb e0 cur0 flags false u0 H0) as (e1 & H1 & ->).
    destruct (cb (Some _) u0) as [r u1] eqn:E. destruct (Z.ltb_spec r 0); [|by split; [|left]]. split; [done|]. right. eauto. }
  assert (Hpre : exists r e1 cur1 u1, (if nth 0 e.(fragment) 0 =? 255 then cobs_encoder_finish cb e false u else (0, e, u)) = (r, e1, u1) /\
    holds e1 cur1 flags /\ (r = 0 /\ (length cur1 < 254)%nat \/ r < 0 /\ cur1 = [] /\ exists bytes u0, cb (Some bytes) u0 = (r, u1))).
  { destruct (Z.eqb_spec (nth 0 e.(fragment) 0) 255) as [E|E].
    - specialize (Hfin e cur u He). destruct (cobs_encoder_finish cb e false u) as [[r e1] u1]. destruct Hfin as [H1 H2].
      exists r, e1, [], u1. split; [done|]. split; [done|]. destruct H2 as [->|[]]; [left; simpl; split; [done|lia]|right; eauto].
    - exists 0, e, cur, u. split; [done|]. split; [done|]. left. split; [done|]. rewrite (holds_head _ _ _ He) in E.
      pose proof (ho_room _ _ _ He). lia. }
  destruct Hpre as (r & e1 & cur1 & u1 & -> & He1 & [[-> Hl]|(Hr & -> & Hcb)]); [|by rewrite (proj2 (Z.ltb_lt _ _)) by lia; right].
  cbn [Z.ltb Z.compare]. destruct (b =? 0).
  - specialize (Hfin e1 cur1 u1 He1). destruct (cobs_encoder_finish cb e1 false u1) as [[r2 e2] u2]. destruct Hfin as [H1 [->|[H2 H3]]].
    + cbn [Z.ltb Z.compare]. by eapply IH.
    + rewrite (proj2 (Z.ltb_lt _ _)) by lia. by right.
  - eapply IH. by apply store_holds.
Qed.

Lemma decoder_loop_errors {U} (cb : option (list Z) -> U -> Z * U) buf d u : Forall (fun b => 0 <= b < 256) buf -> 0 <= d.(code_index) ->
  let '(r, d', u') := decoder_loop cb buf d u in
  (r = 0 /\ 0 <= d'.(code_index)) \/
  (r < 0 /\ d' = cobs_decoder_reset d /\ (r = - EINVAL \/ exists arg u0, cb arg u0 = (r, u'))).
Proof.
  intros Hb. revert d u. induction Hb as [|b buf Hb _ IH]; intros d u Hd; [by left|]. cbn [decoder_loop]. cbv zeta.
  assert (Hx : 0 <= Z.lxor b (COBS_FLAG_CUSTOM_DELIMITER d.(dec_flags))).
  { apply Z.lxor_nonneg. unfold COBS_FLAG_CUSTOM_DELIMITER. rewrite Z.land_nonneg. lia. }
  destruct (Z.eqb_spec (Z.lxor b (COBS_FLAG_CUSTOM_DELIMITER d.(dec_flags))) 0) as [E|E].
  { destruct (negb _ || _); [by right; split; [|split; [|left]]|]. destruct (cb None u) as [r u1] eqn:Ec.
    destruct (Z.ltb_spec r 0); [right; eauto 6|]. by apply (IH (cobs_decoder_reset d) u1). }
  destruct (Z.ltb_spec 0 d.(code_index)).
  - destruct (cb (Some _) u) as [r u1] eqn:Ec. destruct (Z.ltb_spec r 0); [right; eauto 6|].
    apply (IH (Cobs_decoder _ _ _) u1). simpl. lia.
  - cbn [code dec_flags code_index].
    destruct (if d.(code) =? 255 then (0, u) else cb (Some [0]) u) as [r u1] eqn:Ec. destruct (Z.ltb_spec r 0).
    + right. split; [done|]. split; [done|]. right. destruct (d.(code) =? 255); [|eauto]. injection Ec as <- <-. lia.
    + apply (IH (Cobs_decoder _ _ _) u1). simpl. lia.
Qed.


