(* ===== verification/MsgQ.v ===== *)
(** Message queues: kernel/msg_q.c.

    Messages are blocks of bytes in memory; the queue's buffer is circular.  The
    specification is a bounded list of messages, oldest first. *)

From S2P Require Import Prelude Thread PriorityQ Timeout TimeoutList.
From S2P Require Import Sched SchedOk SchedSpec ThreadApi ThreadSpec SchedProps Blocking Ring.

#[local] Open Scope Z_scope.

Record k_msgq := K_msgq {
  msgq_wait_q : wqid;
  msg_size : Z;
  max_msgs : Z;
  buffer_start : Z;
  buffer_end : Z;
  read_ptr : Z;
  write_ptr : Z;
  used_msgs : Z;
  msgq_flags : Z
}.
Definition K_MSGQ_FLAG_ALLOC : Z := 1.
Definition set_read_ptr (v : Z) (q : k_msgq) : k_msgq :=
  K_msgq q.(msgq_wait_q) q.(msg_size) q.(max_msgs) q.(buffer_start) q.(buffer_end) v q.(write_ptr) q.(used_msgs) q.(msgq_flags).
Definition set_write_ptr (v : Z) (q : k_msgq) : k_msgq :=
  K_msgq q.(msgq_wait_q) q.(msg_size) q.(max_msgs) q.(buffer_start) q.(buffer_end) q.(read_ptr) v q.(used_msgs) q.(msgq_flags).
Definition set_used_msgs (v : Z) (q : k_msgq) : k_msgq :=
  K_msgq q.(msgq_wait_q) q.(msg_size) q.(max_msgs) q.(buffer_start) q.(buffer_end) q.(read_ptr) q.(write_ptr) v q.(msgq_flags).
Definition set_msgq_flags (v : Z) (q : k_msgq) : k_msgq :=
  K_msgq q.(msgq_wait_q) q.(msg_size) q.(max_msgs) q.(buffer_start) q.(buffer_end) q.(read_ptr) q.(write_ptr) q.(used_msgs) v.

Section msgq.
Context `{Cfg : Config} {RQ : RunQueue} {TB : TimeoutBackend}.

Definition k_msgq_init (q : k_msgq) (buffer size max : Z) (k : kernel) : k_msgq * kernel :=
  (K_msgq q.(msgq_wait_q) size max buffer (buffer + max * size) buffer buffer 0 0,
   on_waitq q.(msgq_wait_q) (fun _ => []) k).

(** [malloc n] is the address of a block of [n] bytes, or none; sizes have 32
    bits. *)
Definition k_msgq_alloc_init (malloc : Z -> option Z) (q : k_msgq) (size max : Z) (k : kernel)
    : Z * k_msgq * kernel :=
  if 2 ^ 32 <=? size * max then (- EINVAL, q, k)
  else match malloc (size * max) with
       | Some buffer =>
           let '(q1, k1) := k_msgq_init q buffer size max k in (0, set_msgq_flags K_MSGQ_FLAG_ALLOC q1, k1)
       | None => (- ENOMEM, q, k)
       end.

(** The second result is the block handed to [k_free], if any. *)
Definition k_msgq_cleanup (q : k_msgq) (k : kernel) : Z * option Z * k_msgq :=
  match k.(waitqs) q.(msgq_wait_q) with
  | _ :: _ => (- EBUSY, None, q)
  | [] =>
      if negb (Z.land q.(msgq_flags) K_MSGQ_FLAG_ALLOC =? 0)
      then (0, Some q.(buffer_start), set_msgq_flags (Z.land q.(msgq_flags) (u8 (Z.lnot K_MSGQ_FLAG_ALLOC))) q)
      else (0, None, q)
  end.

(** Copying a message to the back of the buffer. *)
Definition write_back (q : k_msgq) (data : Z) (m : memory) : k_msgq * memory :=
  let m' := memcpy q.(write_ptr) data q.(msg_size) m in
  let q1 := set_write_ptr (q.(write_ptr) + q.(msg_size)) q in
  (if q1.(write_ptr) =? q1.(buffer_end) then set_write_ptr q1.(buffer_start) q1 else q1, m').

Definition write_front (q : k_msgq) (data : Z) (m : memory) : k_msgq * memory :=
  let q1 := if q.(read_ptr) =? q.(buffer_start) then set_read_ptr q.(buffer_end) q else q in
  let q2 := set_read_ptr (q1.(read_ptr) - q1.(msg_size)) q1 in
  (q2, memcpy q2.(read_ptr) data q2.(msg_size) m).

Definition put_msg_in_queue (q : k_msgq) (data timeout : Z) (put_at_back : bool) (m : memory) (k : kernel)
    : outcome * k_msgq * memory * kernel :=
  if q.(used_msgs) <? q.(max_msgs) then
    match z_unpend_first_thread_locked q.(msgq_wait_q) k with
    | (Some pending_thread, k1) =>
        let m' := memcpy (thr k1 pending_thread).(swap_data) data q.(msg_size) m in
        (Returns 0, q, m',
         reschedule (ready_thread pending_thread (arch_thread_return_value_set pending_thread 0 k1)))
    | (None, k1) =>
        let '(q1, m') := if put_at_back then write_back q data m else write_front q data m in
        (Returns 0, set_used_msgs (u32 (q1.(used_msgs) + 1)) q1, m', k1)
    end
  else if timeout =? K_NO_WAIT then (Returns (- ENOMSG), q, m, k)
  else let '(ret, k1) := z_pend_curr q.(msgq_wait_q) timeout (on_thread k.(current) (set_swap_data data) k) in
       (ret, q, m, k1).

Definition k_msgq_put (q : k_msgq) (data timeout : Z) := put_msg_in_queue q data timeout true.
Definition k_msgq_put_front (q : k_msgq) (data : Z) := put_msg_in_queue q data K_NO_WAIT false.

Definition k_msgq_get_attrs (q : k_msgq) : Z * Z * Z := (q.(msg_size), q.(max_msgs), q.(used_msgs)).

(** Taking the oldest message out of the buffer. *)
Definition read_front (q : k_msgq) (data : Z) (m : memory) : k_msgq * memory :=
  let m' := memcpy data q.(read_ptr) q.(msg_size) m in
  let q1 := set_read_ptr (q.(read_ptr) + q.(msg_size)) q in
  let q2 := if q1.(read_ptr) =? q1.(buffer_end) then set_read_ptr q1.(buffer_start) q1 else q1 in
  (set_used_msgs (u32 (q2.(used_msgs) - 1)) q2, m').

Definition k_msgq_get (q : k_msgq) (data timeout : Z) (m : memory) (k : kernel)
    : outcome * k_msgq * memory * kernel :=
  if 0 <? q.(used_msgs) then
    let '(q1, m1) := read_front q data m in
    match z_unpend_first_thread_locked q1.(msgq_wait_q) k with
    | (Some pending_thread, k1) =>
        let '(q2, m2) := write_back q1 (thr k1 pending_thread).(swap_data) m1 in
        (Returns 0, set_used_msgs (u32 (q2.(used_msgs) + 1)) q2, m2,
         reschedule (ready_thread pending_thread (arch_thread_return_value_set pending_thread 0 k1)))
    | (None, k1) => (Returns 0, q1, m1, k1)
    end
  else if timeout =? K_NO_WAIT then (Returns (- ENOMSG), q, m, k)
  else let '(ret, k1) := z_pend_curr q.(msgq_wait_q) timeout (on_thread k.(current) (set_swap_data data) k) in
       (ret, q, m, k1).

Definition k_msgq_peek (q : k_msgq) (data : Z) (m : memory) : Z * memory :=
  if 0 <? q.(used_msgs) then (0, memcpy data q.(read_ptr) q.(msg_size) m) else (- ENOMSG, m).

Definition k_msgq_peek_at (q : k_msgq) (data idx : Z) (m : memory) : Z * memory :=
  if idx <? q.(used_msgs) then
    let bytes_to_end := u32 (q.(buffer_end) - q.(read_ptr)) in
    let byte_offset := u32 (idx * q.(msg_size)) in
    let '(start_addr, byte_offset) :=
      if bytes_to_end <=? byte_offset then (q.(buffer_start), u32 (byte_offset - bytes_to_end))
      else (q.(read_ptr), byte_offset) in
    (0, memcpy data (start_addr + byte_offset) q.(msg_size) m)
  else (- ENOMSG, m).

Definition k_msgq_purge (q : k_msgq) (k : kernel) : k_msgq * kernel :=
  let '(n, k1) := wake_all q.(msgq_wait_q) (- ENOMSG) 0 k in
  (set_read_ptr q.(write_ptr) (set_used_msgs 0 q), if (0 <? n)%nat then reschedule k1 else k1).

Definition k_msgq_num_free_get (q : k_msgq) : Z := u32 (q.(max_msgs) - q.(used_msgs)).
Definition k_msgq_num_used_get (q : k_msgq) : Z := q.(used_msgs).

(** ** The invariant and the specification *)

Definition size (q : k_msgq) : nat := Z.to_nat q.(msg_size).
Definition slots (q : k_msgq) : nat := Z.to_nat q.(max_msgs).
Definition slot (q : k_msgq) (j : nat) : Z := q.(buffer_start) + Z.of_nat j * q.(msg_size).
Definition first (q : k_msgq) : nat := Z.to_nat ((q.(read_ptr) - q.(buffer_start)) / q.(msg_size)).
Definition used (q : k_msgq) : nat := Z.to_nat q.(used_msgs).

(** The messages in the buffer, oldest first. *)
Definition contents (q : k_msgq) (m : memory) : list (list Z) :=
  map (fun j => bytes m (slot q j) (size q)) (ring (slots q) (first q) (used q)).

Record buffer_ok (q : k_msgq) : Prop := {
  bf_size : 0 < q.(msg_size);
  bf_max : 0 < q.(max_msgs);
  bf_fits : q.(max_msgs) * q.(msg_size) < 2 ^ 32;
  bf_end : q.(buffer_end) = q.(buffer_start) + q.(max_msgs) * q.(msg_size);
  bf_used : 0 <= q.(used_msgs) <= q.(max_msgs);
  bf_first : (first q < slots q)%nat;
  bf_read : q.(read_ptr) = slot q (first q);
  bf_write : q.(write_ptr) = slot q ((first q + used q) mod slots q)
}.

(** [sends x]: the thread [x], if it waits, waits to send.  Senders wait only for
    a full queue, receivers only for an empty one. *)
Record msgq_ok (q : k_msgq) (sends : tid -> bool) (k : kernel) : Prop := {
  mq_sys : sys_ok k;
  mq_buffer : buffer_ok q;
  mq_waiters : forall x, x ∈ k.(waitqs) q.(msgq_wait_q) ->
    q.(used_msgs) = if sends x then q.(max_msgs) else 0
}.

Inductive msgq_event :=
| Queued (d : list Z)                                 (* put, into the buffer *)
| QueuedFront (d : list Z)                            (* put_front, into the buffer *)
| Delivered (t : tid) (d : list Z)                    (* put, to the waiting receiver [t] *)
| Full | PutWaits (t : tid)
| Received (d : list Z)                               (* get, from the buffer *)
| Exchanged (d : list Z) (t : tid) (d' : list Z)      (* get; the waiting sender [t]'s message moves up *)
| Nothing | GetWaits (t : tid)
| Purged (n : nat) | Other.

Definition fifo (cap : nat) (e : msgq_event) (l : list (list Z)) : option (list (list Z)) :=
  match e with
  | Queued d => if (length l <? cap)%nat then Some (l ++ [d]) else None
  | QueuedFront d => if (length l <? cap)%nat then Some (d :: l) else None
  | Delivered _ _ | Nothing | GetWaits _ => match l with [] => Some [] | _ => None end
  | Full | PutWaits _ => if (length l =? cap)%nat then Some l else None
  | Received d => match l with x :: r => if bool_decide (x = d) then Some r else None | [] => None end
  | Exchanged d _ d' =>
      match l with x :: r => if bool_decide (x = d) && (length l =? cap)%nat then Some (r ++ [d']) else None | [] => None end
  | Purged _ => Some []
  | Other => Some l
  end.
Fixpoint fifo_run (cap : nat) (es : list msgq_event) (l : list (list Z)) : option (list (list Z)) :=
  match es with [] => Some l | e :: r => l' ← fifo cap e l; fifo_run cap r l' end.

Definition put_event (q : k_msgq) (data timeout : Z) (back : bool) (m : memory) (k : kernel) : msgq_event :=
  match (put_msg_in_queue q data timeout back m k).1.1.1 with
  | Returns 0 =>
      let d := bytes m data (size q) in
      match k.(waitqs) q.(msgq_wait_q) with
      | t :: _ => Delivered t d
      | [] => if back then Queued d else QueuedFront d
      end
  | Blocks => PutWaits k.(current)
  | _ => Full
  end.

(** The message a get received is what it finds in its buffer. *)
Definition get_event (q : k_msgq) (data timeout : Z) (m : memory) (k : kernel) : msgq_event :=
  let '(o, _, m', _) := k_msgq_get q data timeout m k in
  match o with
  | Returns 0 =>
      let d := bytes m' data (size q) in
      match k.(waitqs) q.(msgq_wait_q) with
      | t :: _ => Exchanged d t (bytes (memcpy data q.(read_ptr) q.(msg_size) m) (thr k t).(swap_data) (size q))
      | [] => Received d
      end
  | Blocks => GetWaits k.(current)
  | _ => Nothing
  end.

Definition note_role (o : outcome) (b : bool) (t : tid) (sends : tid -> bool) : tid -> bool :=
  match o with Blocks => upd t b sends | _ => sends end.

Definition may_call (timeout : Z) (k : kernel) : Prop :=
  k.(current) <> k.(idle_thread) /\ (k.(in_isr) = false \/ timeout = K_NO_WAIT).

Record msgq_state := Msgq_state { ms_q : k_msgq; ms_mem : memory; ms_sends : tid -> bool; ms_kernel : kernel }.

Inductive msgq_step : msgq_event -> msgq_state -> msgq_state -> Prop :=
| qs_put q m f k data timeout back o q' m' k' : may_call timeout k ->
    put_msg_in_queue q data timeout back m k = (o, q', m', k') ->
    msgq_step (put_event q data timeout back m k) (Msgq_state q m f k)
      (Msgq_state q' m' (note_role o true k.(current) f) k')
| qs_get q m f k data timeout o q' m' k' : may_call timeout k ->
    apart data q.(msg_size) q.(buffer_start) (q.(max_msgs) * q.(msg_size)) ->
    k_msgq_get q data timeout m k = (o, q', m', k') ->
    msgq_step (get_event q data timeout m k) (Msgq_state q m f k)
      (Msgq_state q' m' (note_role o false k.(current) f) k')
| qs_purge q m f k q' k' : k_msgq_purge q k = (q', k') ->
    msgq_step (Purged (length (k.(waitqs) q.(msgq_wait_q)))) (Msgq_state q m f k) (Msgq_state q' m f k')
| qs_other q m m' f k k' : env_step q.(msgq_wait_q) k k' ->
    (forall x, q.(buffer_start) <= x < q.(buffer_end) -> m' x = m x) ->
    msgq_step Other (Msgq_state q m f k) (Msgq_state q m' f k').

Inductive msgq_run : list msgq_event -> msgq_state -> msgq_state -> Prop :=
| qr_nil x : msgq_run [] x x
| qr_cons e es x y z : msgq_step e x y -> msgq_run es y z -> msgq_run (e :: es) x z.

(** ** The buffer *)

Lemma slot_first q q' j : q'.(buffer_start) = q.(buffer_start) -> q'.(msg_size) = q.(msg_size) -> 0 < q.(msg_size) ->
  q'.(read_ptr) = slot q j -> first q' = j.
Proof.
  intros E1 E2 Hs E3. unfold first. rewrite E1, E2, E3. unfold slot.
  replace (_ - _) with (Z.of_nat j * q.(msg_size)) by lia. rewrite Z.div_mul by lia. lia.
Qed.

Lemma slot_end q : buffer_ok q -> q.(buffer_end) = slot q (slots q).
Proof. intros []. unfold slot, slots. rewrite bf_end0, Z2Nat.id by lia. done. Qed.

Lemma slot_inj q j j' : 0 < q.(msg_size) -> slot q j = slot q j' -> j = j'.
Proof. unfold slot. intros. nia. Qed.

Lemma slots_pos q : buffer_ok q -> (0 < slots q)%nat.
Proof. intros []. unfold slots. lia. Qed.

Lemma slot_apart q j j' : 0 < q.(msg_size) -> j <> j' -> apart (slot q j) q.(msg_size) (slot q j') (Z.of_nat (size q)).
Proof. unfold apart, slot, size. intros Hs Hne. rewrite Z2Nat.id by lia. nia. Qed.

Lemma slot_inside q j : buffer_ok q -> (j < slots q)%nat ->
  q.(buffer_start) <= slot q j /\ slot q j + q.(msg_size) <= q.(buffer_end).
Proof. intros [] Hj. unfold slot, slots in *. rewrite bf_end0. nia. Qed.

(** The pointer to the next and to the previous slot, as the code computes them. *)
Lemma next_slot q j : buffer_ok q -> (j < slots q)%nat ->
  (if slot q j + q.(msg_size) =? q.(buffer_end) then q.(buffer_start) else slot q j + q.(msg_size)) =
  slot q ((j + 1) mod slots q).
Proof.
  intros Hok Hj. rewrite (slot_end q Hok). replace (slot q j + msg_size q) with (slot q (j + 1)) by (unfold slot; lia).
  destruct (Z.eqb_spec (slot q (j + 1)) (slot q (slots q))) as [E|E].
  - apply slot_inj in E; [|apply Hok]. rewrite E, Nat.Div0.mod_same. unfold slot. lia.
  - rewrite Nat.mod_small; [done|]. destruct (decide (j + 1 = slots q)%nat) as [Ej|]; [by rewrite Ej in E|lia].
Qed.

Lemma prev_slot q j : buffer_ok q -> (j < slots q)%nat ->
  (if slot q j =? q.(buffer_start) then q.(buffer_end) else slot q j) - q.(msg_size) =
  slot q ((j + slots q - 1) mod slots q).
Proof.
  intros Hok Hj. rewrite (slot_end q Hok). pose proof (bf_size _ Hok).
  destruct (Z.eqb_spec (slot q j) (buffer_start q)) as [E|E].
  - assert (j = 0%nat) as -> by (unfold slot in E; nia). rewrite Nat.mod_small by lia.
    unfold slot. nia.
  - assert (j <> 0%nat) by (intros ->; unfold slot in E; lia).
    replace (j + slots q - 1)%nat with ((j - 1) + 1 * slots q)%nat by lia. rewrite Nat.Div0.mod_add, Nat.mod_small by lia.
    unfold slot. nia.
Qed.

Lemma contents_length q m : length (contents q m) = used q.
Proof. unfold contents. by rewrite length_map, ring_length. Qed.

(** A copy to a slot that is not in use, or outside the buffer. *)
Lemma contents_copy q m j src l : 0 < q.(msg_size) -> j ∉ l ->
  map (fun i => bytes (memcpy (slot q j) src q.(msg_size) m) (slot q i) (size q)) l =
  map (fun i => bytes m (slot q i) (size q)) l.
Proof.
  intros Hs Hj. apply map_ext_in. intros i Hi%list_elem_of_In. apply bytes_apart, slot_apart; [done|]. congruence.
Qed.

Lemma contents_outside q m m' l : buffer_ok q -> (forall j, j ∈ l -> (j < slots q)%nat) ->
  (forall x, q.(buffer_start) <= x < q.(buffer_end) -> m' x = m x) ->
  map (fun i => bytes m' (slot q i) (size q)) l = map (fun i => bytes m (slot q i) (size q)) l.
Proof.
  intros Hok Hl Hm. apply map_ext_in. intros i Hi%list_elem_of_In. apply bytes_ext. intros x Hx.
  destruct (slot_inside q i Hok (Hl i Hi)). unfold size in Hx. pose proof (bf_size _ Hok).
  rewrite Z2Nat.id in Hx by lia. apply Hm. lia.
Qed.

Lemma bytes_slot q m dst src : 0 < q.(msg_size) ->
  bytes (memcpy dst src q.(msg_size) m) dst (size q) = bytes m src (size q).
Proof. intros Hs. unfold size. rewrite <- (Z2Nat.id (msg_size q)) at 1 by lia. apply bytes_memcpy. Qed.

Lemma used_bound q : buffer_ok q -> q.(used_msgs) + 1 < 2 ^ 32 \/ q.(used_msgs) = q.(max_msgs).
Proof. intros []. nia. Qed.

(** A message added at the back. *)
Lemma write_back_ok q data m : buffer_ok q -> q.(used_msgs) < q.(max_msgs) ->
  let '(q1, m') := write_back q data m in let q2 := set_used_msgs (u32 (q1.(used_msgs) + 1)) q1 in
  buffer_ok q2 /\ contents q2 m' = contents q m ++ [bytes m data (size q)] /\
  q2.(used_msgs) = q.(used_msgs) + 1 /\ q2.(max_msgs) = q.(max_msgs) /\ q2.(msgq_wait_q) = q.(msgq_wait_q).
Proof.
  intros Hok Hu. unfold write_back. destruct (Hok) as [B1 B2 B3 B4 B5 B6 B7 B8]. pose proof (slots_pos q Hok) as Hsl.
  set (j := ((first q + used q) mod slots q)%nat) in *.
  assert (Hj : (j < slots q)%nat) by (apply Nat.mod_upper_bound; lia).
  set (q1 := set_write_ptr _ q). cbn [write_ptr q1 set_write_ptr buffer_end].
  set (q2 := if _ =? _ then _ else _).
  assert (Hw : q2 = set_write_ptr (slot q ((first q + S (used q)) mod slots q)) q).
  { replace (first q + S (used q))%nat with ((first q + used q) + 1)%nat by lia.
    rewrite <- Nat.Div0.add_mod_idemp_l. fold j. rewrite <- (next_slot q j Hok Hj), <- B8. unfold q2, q1.
    by destruct (_ =? _). }
  assert (Hn : u32 (q.(used_msgs) + 1) = q.(used_msgs) + 1) by (unfold u32; apply Z.mod_small; nia).
  rewrite Hw. cbn [used_msgs set_write_ptr]. rewrite Hn. split; [|split; [|done]].
  - split; try done; simpl; [lia|]. unfold slot, first, used, slots. simpl.
    do 4 f_equal. lia.
  - unfold contents. change (slots (set_used_msgs _ _)) with (slots q). change (first (set_used_msgs _ _)) with (first q).
    change (size (set_used_msgs _ _)) with (size q).
    change (slot (set_used_msgs _ _)) with (slot q). rewrite B8.
    replace (used (set_used_msgs _ _)) with (S (used q)) by (unfold used; simpl; lia).
    rewrite ring_snoc, map_app. fold j. simpl. rewrite bytes_slot by done. f_equal.
    apply contents_copy; [done|]. apply ring_fresh; [lia|]. unfold used, slots. lia.
Qed.

(** A message added in front. *)
Lemma write_front_ok q data m : buffer_ok q -> q.(used_msgs) < q.(max_msgs) ->
  let '(q1, m') := write_front q data m in let q2 := set_used_msgs (u32 (q1.(used_msgs) + 1)) q1 in
  buffer_ok q2 /\ contents q2 m' = bytes m data (size q) :: contents q m /\
  q2.(used_msgs) = q.(used_msgs) + 1 /\ q2.(max_msgs) = q.(max_msgs) /\ q2.(msgq_wait_q) = q.(msgq_wait_q).
Proof.
  intros Hok Hu. unfold write_front. destruct (Hok) as [B1 B2 B3 B4 B5 B6 B7 B8]. pose proof (slots_pos q Hok) as Hsl.
  set (j := ((first q + slots q - 1) mod slots q)%nat) in *.
  assert (Hj : (j < slots q)%nat) by (apply Nat.mod_upper_bound; lia).
  set (q1 := if _ =? _ then _ else _). set (q2 := set_read_ptr _ q1).
  assert (Hr : q2 = set_read_ptr (slot q j) q).
  { unfold j. rewrite <- (prev_slot q (first q) Hok B6), <- B7. unfold q2, q1. by destruct (_ =? _). }
  assert (Hn : u32 (q.(used_msgs) + 1) = q.(used_msgs) + 1) by (unfold u32; apply Z.mod_small; nia).
  rewrite Hr. cbn [used_msgs set_read_ptr read_ptr msg_size]. rewrite Hn.
  set (q3 := set_used_msgs _ _). assert (Hf : first q3 = j) by (by apply (slot_first q)).
  assert (Hus : used q3 = S (used q)) by (unfold used; simpl; lia).
  split; [|split; [|done]].
  - split; try done; simpl; [lia|by rewrite Hf|by rewrite Hf|]. rewrite Hf, B8, Hus. change (slot q3) with (slot q). change (slots q3) with (slots q).
    f_equal. unfold j. replace (_ + S (used q))%nat with ((first q + slots q - 1) mod slots q + (1 + used q))%nat by lia.
    rewrite Nat.Div0.add_mod_idemp_l. replace (_ + (1 + used q))%nat with (first q + used q + 1 * slots q)%nat by lia.
    by rewrite Nat.Div0.mod_add.
  - unfold contents. rewrite Hf. change (slots q3) with (slots q). change (size q3) with (size q).
    change (slot q3) with (slot q). rewrite Hus. unfold j. rewrite ring_front by lia. fold j. simpl. rewrite bytes_slot by done. f_equal.
    apply contents_copy; [done|]. apply ring_fresh_front; [lia|unfold used, slots; lia|lia].
Qed.

(** The oldest message taken out. *)
Lemma read_front_ok q data m : buffer_ok q -> 0 < q.(used_msgs) ->
  apart data q.(msg_size) q.(buffer_start) (q.(max_msgs) * q.(msg_size)) ->
  let '(q1, m') := read_front q data m in
  buffer_ok q1 /\ contents q m = bytes m' data (size q) :: contents q1 m' /\
  q1.(used_msgs) = q.(used_msgs) - 1 /\ q1.(max_msgs) = q.(max_msgs) /\ q1.(msgq_wait_q) = q.(msgq_wait_q) /\
  q1.(msg_size) = q.(msg_size) /\ q1.(buffer_start) = q.(buffer_start) /\
  m' = memcpy data q.(read_ptr) q.(msg_size) m.
Proof.
  intros Hok Hu Ha. unfold read_front. destruct (Hok) as [B1 B2 B3 B4 B5 B6 B7 B8]. pose proof (slots_pos q Hok) as Hsl.
  set (j := ((first q + 1) mod slots q)%nat).
  set (q1 := set_read_ptr _ q). set (q2 := if _ =? _ then _ else _). set (m' := memcpy _ _ _ _).
  assert (Hr : q2 = set_read_ptr (slot q j) q).
  { unfold j. rewrite <- (next_slot q (first q) Hok B6), <- B7. unfold q2, q1. by destruct (_ =? _). }
  assert (Hn : u32 (q.(used_msgs) - 1) = q.(used_msgs) - 1) by (unfold u32; apply Z.mod_small; nia).
  rewrite Hr. cbn [used_msgs set_read_ptr]. rewrite Hn.
  set (q3 := set_used_msgs _ _). assert (Hf : first q3 = j) by (by apply (slot_first q)).
  assert (Hj : (j < slots q)%nat) by (apply Nat.mod_upper_bound; lia).
  assert (Hus : used q = S (used q3)) by (unfold used; simpl; lia).
  split; [|split; [|done]].
  - split; try done; simpl; [lia|by rewrite Hf|by rewrite Hf|]. rewrite Hf, B8, Hus. change (slot q3) with (slot q). change (slots q3) with (slots q).
    f_equal. unfold j. rewrite Nat.Div0.add_mod_idemp_l. f_equal. lia.
  - unfold contents. rewrite Hf, Hus. change (slots q3) with (slots q). change (size q3) with (size q).
    change (slot q3) with (slot q). rewrite ring_cons. rewrite (Nat.mod_small (first q)) by lia. simpl. f_equal.
    + rewrite <- B7. unfold m'. by rewrite bytes_slot.
    + unfold j. rewrite <- (ring_shift _ (S (first q))). replace (S (first q)) with (first q + 1)%nat by lia.
      symmetry. apply contents_outside; [done|intros i Hi; by eapply ring_bound|].
      intros x Hx. unfold m'. apply memcpy_out. rewrite B4 in Hx. unfold apart in Ha. lia.
    + done.
Qed.

(** ** The operations *)

Context (Hdl : CONFIG_SCHED_DEADLINE = false) (Hmi : CONFIG_NUM_METAIRQ_PRIORITIES <= 0).

(** What one step does, in terms of the specification. *)
Record msgq_stepped (e : msgq_event) (x y : msgq_state) : Prop := {
  qp_ok : msgq_ok y.(ms_q) y.(ms_sends) y.(ms_kernel);
  qp_fifo : fifo (slots x.(ms_q)) e (contents x.(ms_q) x.(ms_mem)) = Some (contents y.(ms_q) y.(ms_mem));
  qp_slots : slots y.(ms_q) = slots x.(ms_q);
  qp_delivered : forall t d, e = Delivered t d -> x.(ms_sends) t = false /\
    (thr y.(ms_kernel) t).(swap_retval) = 0 /\
    bytes y.(ms_mem) (thr x.(ms_kernel) t).(swap_data) (size x.(ms_q)) = d;
  qp_exchanged : forall d t d', e = Exchanged d t d' -> x.(ms_sends) t = true /\
    (thr y.(ms_kernel) t).(swap_retval) = 0
}.

(** The first waiter leaves with the return value 0. *)
Lemma first_leaves w k t r : sys_ok k -> k.(waitqs) w = t :: r ->
  exists k1, z_unpend_first_thread_locked w k = (Some t, k1) /\
    (thr k1 t).(swap_data) = (thr k t).(swap_data) /\
    passed w t r (set_swap_retval 0) k (reschedule (ready_thread t (arch_thread_return_value_set t 0 k1))).
Proof.
  intros Hs Hw. destruct (unpend_first_wakes Hdl Hmi k w t r (set_swap_retval 0) (proj1 (proj1 Hs)) Hw
    (fun th => quiet_retval th 0)) as (k1 & E & Et & _ & HW).
  exists k1. split; [done|]. split; [by rewrite Et|]. by apply wakes_passed.
Qed.

Lemma nobody_leaves w k : k.(waitqs) w = [] -> z_unpend_first_thread_locked w k = (None, k).
Proof. intros Hw. unfold z_unpend_first_thread_locked, _priq_wait_best, z_priq_simple_best. by rewrite Hw. Qed.

Lemma passed_retval w t r k k' : passed w t r (set_swap_retval 0) k k' -> (thr k' t).(swap_retval) = 0.
Proof. intros H. rewrite (ps_thread _ _ _ _ _ _ H). apply (let_through_fields (set_swap_retval 0)). Qed.

(** Blocking with a message buffer. *)
Lemma msgq_pends q f k data timeout (b : bool) : msgq_ok q f k -> k.(current) <> k.(idle_thread) -> k.(in_isr) = false ->
  q.(used_msgs) = (if b then q.(max_msgs) else 0) ->
  exists k', z_pend_curr q.(msgq_wait_q) timeout (on_thread k.(current) (set_swap_data data) k) = (Blocks, k') /\
    msgq_ok q (upd k.(current) b f) k'.
Proof.
  intros [Hs Hb Hw] Hc Hi Hu. set (k0 := on_thread _ _ k).
  assert (Hs0 : sys_ok k0) by (apply invisible_sys; [done|intros th; split; [by split|done]]).
  destruct (pend_waits Hdl Hmi k0 q.(msgq_wait_q) timeout Hs0 Hi Hc) as (k' & -> & [W1 W2 _ _ _ _ _]).
  exists k'. split; [done|]. split; [done|done|]. intros x. rewrite W2, elem_of_add.
  unfold upd. change (current k0) with k.(current). change (waitqs k0) with k.(waitqs).
  intros [->|Hx]; [by rewrite decide_True|]. case_decide; [by subst|auto].
Qed.

Lemma put_stepped q m f k data timeout back o q' m' k' : msgq_ok q f k -> may_call timeout k ->
  put_msg_in_queue q data timeout back m k = (o, q', m', k') ->
  msgq_stepped (put_event q data timeout back m k) (Msgq_state q m f k)
    (Msgq_state q' m' (note_role o true k.(current) f) k').
Proof.
  intros Hok [Hc Hi] E. destruct (Hok) as [Hs Hb Hw]. unfold put_event. rewrite E. unfold put_msg_in_queue in E.
  cbn [fst snd]. destruct (Z.ltb_spec q.(used_msgs) q.(max_msgs)) as [Hu|Hu].
  - destruct (k.(waitqs) q.(msgq_wait_q)) as [|t r] eqn:Eq.
    + rewrite (nobody_leaves _ _ Eq) in E.
      assert (Hlt : (length (contents q m) <? slots q)%nat = true)
        by (apply Nat.ltb_lt; rewrite contents_length; destruct Hb; unfold used, slots; lia).
      destruct back.
      * pose proof (write_back_ok q data m Hb Hu) as HB. destruct (write_back q data m) as [q1 m1]. simplify_eq.
        destruct HB as (H1 & H2 & H3 & H4 & H5). simpl. split; simpl; try done.
        -- split; [done|done|]. rewrite H5, Eq. by intros ? ?%elem_of_nil.
        -- by rewrite Hlt, H2.
        -- unfold slots. by rewrite H4.
      * pose proof (write_front_ok q data m Hb Hu) as HB. destruct (write_front q data m) as [q1 m1]. simplify_eq.
        destruct HB as (H1 & H2 & H3 & H4 & H5). simpl. split; simpl; try done.
        -- split; [done|done|]. rewrite H5, Eq. by intros ? ?%elem_of_nil.
        -- by rewrite Hlt, H2.
        -- unfold slots. by rewrite H4.
    + destruct (first_leaves _ k t r Hs Eq) as (k1 & E1 & Ed & HP). rewrite E1, Ed in E. simplify_eq.
      assert (Ht : f t = false /\ used_msgs q' = 0).
      { specialize (Hw t ltac:(set_solver +)). destruct (f t); [lia|done]. }
      assert (Hnil : forall mm, contents q' mm = []).
      { intros mm. unfold contents, used. by rewrite (proj2 Ht). }
      split; simpl.
      * split; [apply HP|done|]. rewrite (ps_queue _ _ _ _ _ _ HP). intros x Hx. apply Hw. set_solver.
      * by rewrite !Hnil.
      * done.
      * intros ? ? [= <- <-]. split; [apply Ht|]. split; [by apply (passed_retval _ _ _ _ _ HP)|]. apply bytes_slot, Hb.
      * done.
  - assert (Hfull : used_msgs q = max_msgs q) by (destruct Hb; lia).
    assert (Hlen : (length (contents q m) =? slots q)%nat = true)
      by (apply Nat.eqb_eq; rewrite contents_length; unfold used, slots; by rewrite Hfull).
    destruct (Z.eqb_spec timeout K_NO_WAIT) as [Et|Et].
    + simplify_eq. split; simpl; try done. by rewrite Hlen.
    + destruct (msgq_pends q f k data timeout true Hok Hc ltac:(tauto) Hfull) as (k1 & E1 & Hok1).
      rewrite E1 in E. simplify_eq. split; simpl; try done. by rewrite Hlen.
Qed.

Lemma get_stepped q m f k data timeout o q' m' k' : msgq_ok q f k -> may_call timeout k ->
  apart data q.(msg_size) q.(buffer_start) (q.(max_msgs) * q.(msg_size)) ->
  k_msgq_get q data timeout m k = (o, q', m', k') ->
  msgq_stepped (get_event q data timeout m k) (Msgq_state q m f k)
    (Msgq_state q' m' (note_role o false k.(current) f) k').
Proof.
  intros Hok [Hc Hi] Ha E. destruct (Hok) as [Hs Hb Hw]. unfold get_event. rewrite E. unfold k_msgq_get in E.
  destruct (Z.ltb_spec 0 q.(used_msgs)) as [Hu|Hu].
  - pose proof (read_front_ok q data m Hb Hu Ha) as HR. destruct (read_front q data m) as [q1 m1].
    destruct HR as (R1 & R2 & R3 & R4 & R5 & R6 & R7 & R8). rewrite R5 in E.
    destruct (k.(waitqs) q.(msgq_wait_q)) as [|t r] eqn:Eq.
    + rewrite (nobody_leaves _ _ Eq) in E. simplify_eq. split; simpl; try done.
      * split; [done|done|]. rewrite R5, Eq. by intros ? ?%elem_of_nil.
      * rewrite R2. by rewrite bool_decide_true.
      * unfold slots. by rewrite R4.
    + destruct (first_leaves _ k t r Hs Eq) as (k1 & E1 & Ed & HP). rewrite E1, Ed in E.
      assert (Ht : f t = true /\ used_msgs q = max_msgs q).
      { specialize (Hw t ltac:(set_solver +)). destruct (f t); [done|lia]. }
      pose proof (write_back_ok q1 (thr k t).(swap_data) m1 R1 ltac:(lia)) as HB.
      pose proof (bf_write _ R1) as Hwp.
      assert (Hm2 : (write_back q1 (thr k t).(swap_data) m1).2 =
        memcpy q1.(write_ptr) (thr k t).(swap_data) q1.(msg_size) m1) by done.
      destruct (write_back q1 (thr k t).(swap_data) m1) as [q2 m2]. simplify_eq. cbn [snd] in Hm2.
      destruct HB as (H1 & H2 & H3 & H4 & H5). simpl in H3, H4, H5.
      assert (Hd : bytes m' data (size q) = bytes (memcpy data q.(read_ptr) q.(msg_size) m) data (size q)).
      { rewrite Hm2. apply bytes_apart. rewrite Hwp.
        destruct (slot_inside q1 ((first q1 + used q1) mod slots q1)%nat R1) as [I1 I2];
          [apply Nat.mod_upper_bound; pose proof (slots_pos q1 R1); lia|].
        rewrite (bf_end _ R1), R4, R6, R7 in I2. rewrite R7 in I1. unfold apart, size in *.
        destruct Hb. rewrite R6. rewrite Z2Nat.id by lia. lia. }
      simpl. split; simpl; try done.
      * split; [apply HP|done|]. simpl. rewrite H5, R5, (ps_queue _ _ _ _ _ _ HP). intros x Hx.
        rewrite H3, H4, R3, R4. specialize (Hw x ltac:(set_solver)). destruct (f x); lia.
      * pose proof (contents_length q m) as Hlen. rewrite R2, Hd. rewrite R2 in Hlen.
        rewrite bool_decide_true by done. rewrite Hlen.
        replace (used q) with (slots q) by (unfold used, slots; f_equal; lia). rewrite Nat.eqb_refl. simpl.
        rewrite H2. unfold size. by rewrite R6.
      * unfold slots. simpl. by rewrite H4, R4.
      * intros ? ? ? [= _ <- _]. split; [apply Ht|]. by apply (passed_retval _ _ _ _ _ HP).
  - assert (Hz : used_msgs q = 0) by (destruct Hb; lia).
    assert (Hnil : forall mm, contents q mm = []) by (intros mm; unfold contents, used; by rewrite Hz).
    destruct (Z.eqb_spec timeout K_NO_WAIT) as [Et|Et].
    + simplify_eq. split; simpl; try done. by rewrite Hnil.
    + destruct (msgq_pends q f k data timeout false Hok Hc ltac:(tauto) Hz) as (k1 & E1 & Hok1).
      rewrite E1 in E. simplify_eq. split; simpl; try done. by rewrite Hnil.
Qed.

Lemma purge_stepped q m f k q' k' : msgq_ok q f k -> k_msgq_purge q k = (q', k') ->
  msgq_stepped (Purged (length (k.(waitqs) q.(msgq_wait_q)))) (Msgq_state q m f k) (Msgq_state q' m f k').
Proof.
  intros [Hs Hb Hw]. unfold k_msgq_purge.
  destruct (wake_all_ok Hdl Hmi k q.(msgq_wait_q) (- ENOMSG) 0 Hs) as (k1 & E & Hh). rewrite E. intros [= <- <-].
  set (q' := set_read_ptr _ _). destruct (Hb) as [B1 B2 B3 B4 B5 B6 B7 B8]. pose proof (slots_pos q Hb) as Hsl.
  assert (Hf : first q' = ((first q + used q) mod slots q)%nat) by (by apply (slot_first q)).
  assert (Hj : ((first q + used q) mod slots q < slots q)%nat) by (apply Nat.mod_upper_bound; lia).
  split; simpl; try done.
  assert (Hk : sys_ok (if (0 <? length (waitqs k (msgq_wait_q q)))%nat then reschedule k1 else k1) /\
    (if (0 <? length (waitqs k (msgq_wait_q q)))%nat then reschedule k1 else k1).(waitqs) q.(msgq_wait_q) = []).
  { destruct (k.(waitqs) q.(msgq_wait_q)) eqn:Eq; simpl; [|by destruct Hh].
    unfold wake_all in E. rewrite Eq in E. injection E as <-. done. }
  split; [apply Hk| |].
  - split; try done; simpl; [lia|by rewrite Hf|by rewrite Hf, B8|].
    rewrite Hf, B8. change (slot q') with (slot q). change (slots q') with (slots q). change (used q') with 0%nat.
    by rewrite Nat.add_0_r, Nat.Div0.mod_mod.
  - simpl. rewrite (proj2 Hk). by intros ? ?%elem_of_nil.
Qed.

Lemma msgq_step_ok e x y : msgq_step e x y -> msgq_ok x.(ms_q) x.(ms_sends) x.(ms_kernel) -> msgq_stepped e x y.
Proof.
  intros [q m f k data timeout back o q' m' k' Hc E|q m f k data timeout o q' m' k' Hc Ha E|q m f k q' k' E|
    q m m' f k k' Henv Hm] Hok; simpl in Hok.
  - by apply put_stepped.
  - by apply get_stepped.
  - by apply purge_stepped.
  - destruct Hok as [Hs Hb Hw]. split; simpl; try done.
    + split; [by eapply env_sys|done|]. intros z Hz. apply Hw. by apply Henv.
    + f_equal. symmetry. unfold contents. apply contents_outside; [done| |done].
      intros j Hj. eapply ring_bound; [|done]. by apply slots_pos.
Qed.

Lemma msgq_run_ok es x y : msgq_run es x y -> msgq_ok x.(ms_q) x.(ms_sends) x.(ms_kernel) ->
  msgq_ok y.(ms_q) y.(ms_sends) y.(ms_kernel) /\
  fifo_run (slots x.(ms_q)) es (contents x.(ms_q) x.(ms_mem)) = Some (contents y.(ms_q) y.(ms_mem)).
Proof.
  induction 1 as [x|e es x y z Hs _ IH]; [done|]. simpl. intros Hok.
  destruct (msgq_step_ok _ _ _ Hs Hok) as [Hok1 Hc Hcap _ _].
  destruct (IH Hok1) as [Hz Hrun]. split; [done|]. rewrite Hc. simpl in *. by rewrite <- Hcap.
Qed.

(** Any message in the buffer can be looked at, without taking it out. *)
Lemma peek_at_ok q data idx m : buffer_ok q -> 0 <= idx ->
  let '(r, m') := k_msgq_peek_at q data idx m in
  match contents q m !! Z.to_nat idx with
  | Some d => r = 0 /\ bytes m' data (size q) = d
  | None => r = - ENOMSG /\ m' = m
  end.
Proof.
  intros Hok Hi. unfold k_msgq_peek_at. destruct (Hok) as [B1 B2 B3 B4 B5 B6 B7 B8]. pose proof (slots_pos q Hok) as Hsl.
  destruct (Z.ltb_spec idx q.(used_msgs)) as [Hlt|Hge].
  - assert (Hn : (Z.to_nat idx < used q)%nat) by (unfold used; lia).
    unfold contents, ring. rewrite !list_lookup_fmap, lookup_seq_lt by done. simpl.
    set (j := (first q + Z.to_nat idx)%nat).
    assert (Hfj : Z.of_nat (slots q) = q.(max_msgs)) by (unfold slots; lia).
    assert (Hto : u32 (q.(buffer_end) - q.(read_ptr)) = (q.(max_msgs) - Z.of_nat (first q)) * q.(msg_size)).
    { unfold u32. rewrite B4, B7. unfold slot. rewrite Z.mod_small; nia. }
    assert (Hoff : u32 (idx * q.(msg_size)) = idx * q.(msg_size)) by (unfold u32; apply Z.mod_small; nia).
    rewrite Hto, Hoff.
    assert (Haddr : forall a, a = slot q (j mod slots q) ->
      0 = 0 /\ bytes (memcpy data a q.(msg_size) m) data (size q) = bytes m (slot q (j mod slots q)) (size q))
      by (intros a ->; split; [done|by apply bytes_slot]).
    destruct (Z.leb_spec ((q.(max_msgs) - Z.of_nat (first q)) * q.(msg_size)) (idx * q.(msg_size))) as [Hle|Hgt].
    + apply Haddr. assert (q.(max_msgs) - Z.of_nat (first q) <= idx) by nia.
      replace j with ((j - slots q) + 1 * slots q)%nat by lia. rewrite Nat.Div0.mod_add, Nat.mod_small by lia.
      unfold u32. rewrite Z.mod_small by nia. unfold slot. nia.
    + apply Haddr. assert (idx < q.(max_msgs) - Z.of_nat (first q)) by nia.
      rewrite Nat.mod_small by lia. rewrite B7. unfold slot. nia.
  - rewrite lookup_ge_None_2; [done|]. rewrite contents_length. unfold used. lia.
Qed.
End msgq.

(** C11. Message queues are FIFO.  However puts, gets and purges by threads and
    interrupts interleave with the rest of the system, the pointers stay on slots
    of the buffer, senders wait only for a full queue and receivers only for an
    empty one, and the calls behave as a bounded list: a put appends (put_front
    prepends) the bytes at its data pointer, a get finds the oldest message in its
    buffer, a get with a waiting sender moves that sender's message up, a purge
    empties the list.  A message put while receivers wait goes into the first
    receiver's buffer, and its get returns 0.  [k_msgq_peek_at] finds the message
    with the given index, also where the buffer wraps around. *)
Theorem msgq_is_fifo `{Cfg : Config} {RQ : RunQueue} {TB : TimeoutBackend} (es : list msgq_event) (x y : msgq_state) :
  CONFIG_SCHED_DEADLINE = false -> CONFIG_NUM_METAIRQ_PRIORITIES <= 0 ->
  msgq_ok x.(ms_q) x.(ms_sends) x.(ms_kernel) -> msgq_run es x y ->
  msgq_ok y.(ms_q) y.(ms_sends) y.(ms_kernel) /\
  fifo_run (slots x.(ms_q)) es (contents x.(ms_q) x.(ms_mem)) = Some (contents y.(ms_q) y.(ms_mem)) /\
  (forall e z, msgq_step e y z -> msgq_stepped e y z) /\
  (forall data idx, 0 <= idx ->
     let '(r, m') := k_msgq_peek_at y.(ms_q) data idx y.(ms_mem) in
     match contents y.(ms_q) y.(ms_mem) !! Z.to_nat idx with
     | Some d => r = 0 /\ bytes m' data (size y.(ms_q)) = d
     | None => r = - ENOMSG /\ m' = y.(ms_mem)
     end).
Proof.
  intros Hdl Hmi Hok Hrun. destruct (msgq_run_ok Hdl Hmi es _ _ Hrun Hok) as [H1 H2].
  split; [done|]. split; [done|]. split; [intros; by apply msgq_step_ok|].
  intros data idx. apply peek_at_ok, H1.
Qed.

(** ** A concrete run: thread 1 puts two messages of two bytes and gets one *)

#[local] Existing Instance example_config.
#[local] Existing Instance simple_RunQueue.
#[local] Existing Instance delta_list_backend.

Definition example_msgq : k_msgq := K_msgq 7%nat 2 2 0 4 2 2 0 0.
Definition example_memory : memory := fun a => a.
Definition put_one := k_msgq_put example_msgq 100 K_NO_WAIT example_memory example_running.
Definition put_two := k_msgq_put put_one.1.1.2 200 K_NO_WAIT put_one.1.2 put_one.2.
Definition got_one := k_msgq_get put_two.1.1.2 300 K_NO_WAIT put_two.1.2 put_two.2.

Definition example_state : msgq_state := Msgq_state example_msgq example_memory (fun _ => false) example_running.
Definition got_state : msgq_state := Msgq_state got_one.1.1.2 got_one.1.2 (fun _ => false) got_one.2.

Lemma example_msgq_ok : msgq_ok example_msgq (fun _ => false) example_running.
Proof.
  split; [apply example_running_ok| |].
  - split; vm_compute; try reflexivity; try (split; discriminate); lia.
  - intros x Hx. vm_compute in Hx. by apply elem_of_nil in Hx.
Qed.

Lemma run_put `{Cfg : Config} {RQ : RunQueue} {TB : TimeoutBackend} q m f k data es z r :
  may_call K_NO_WAIT k -> k_msgq_put q data K_NO_WAIT m k = r -> note_role r.1.1.1 true k.(current) f = f ->
  msgq_run es (Msgq_state r.1.1.2 r.1.2 f r.2) z ->
  msgq_run (put_event q data K_NO_WAIT true m k :: es) (Msgq_state q m f k) z.
Proof.
  intros Hc E Hf Hr. destruct r as [[[o q'] m'] k']. eapply qr_cons; [by apply (qs_put q m f k data K_NO_WAIT true o q' m' k')|].
  simpl in *. by rewrite Hf.
Qed.

Lemma run_get `{Cfg : Config} {RQ : RunQueue} {TB : TimeoutBackend} q m f k data r :
  may_call K_NO_WAIT k -> apart data q.(msg_size) q.(buffer_start) (q.(max_msgs) * q.(msg_size)) ->
  k_msgq_get q data K_NO_WAIT m k = r -> note_role r.1.1.1 false k.(current) f = f ->
  msgq_run [get_event q data K_NO_WAIT m k] (Msgq_state q m f k) (Msgq_state r.1.1.2 r.1.2 f r.2).
Proof.
  intros Hc Ha E Hf. destruct r as [[[o q'] m'] k']. eapply qr_cons; [by apply (qs_get q m f k data K_NO_WAIT o q' m' k')|].
  simpl in *. rewrite Hf. apply qr_nil.
Qed.

Lemma example_may_call k : k.(current) = 1%nat -> k.(idle_thread) = 0%nat -> may_call K_NO_WAIT k.
Proof. intros H1 H2. split; [congruence|by right]. Qed.

Lemma example_run : msgq_run
  [put_event example_msgq 100 K_NO_WAIT true example_memory example_running;
   put_event put_one.1.1.2 200 K_NO_WAIT true put_one.1.2 put_one.2;
   get_event put_two.1.1.2 300 K_NO_WAIT put_two.1.2 put_two.2] example_state got_state.
Proof.
  apply (run_put _ _ _ _ _ _ _ put_one);
    [apply example_may_call; vm_compute; reflexivity|unfold put_one; apply eq_refl|vm_compute; reflexivity|].
  apply (run_put _ _ _ _ _ _ _ put_two);
    [apply example_may_call; vm_compute; reflexivity|unfold put_two; apply eq_refl|vm_compute; reflexivity|].
  apply (run_get _ _ _ _ _ got_one);
    [apply example_may_call; vm_compute; reflexivity|right; vm_compute; discriminate|unfold got_one; apply eq_refl|
     vm_compute; reflexivity].
Qed.

Lemma msgq_is_fifo_witness : msgq_ok got_state.(ms_q) got_state.(ms_sends) got_state.(ms_kernel) /\
  fifo_run 2 [Queued [100; 101]; Queued [200; 201]; Received [100; 101]] [] =
    Some (contents got_state.(ms_q) got_state.(ms_mem)).
Proof.
  destruct (msgq_is_fifo (Cfg := example_config) _ example_state got_state eq_refl ltac:(discriminate) example_msgq_ok example_run) as (H1 & H2 & _).
  split; [exact H1|]. rewrite <- H2. vm_compute. reflexivity.
Defined.
