(* ===== verification/MemSlab.v ===== *)
(** Memory slabs: kernel/mem_slab.c.

    The free blocks form a list linked through their first words.  The
    specification is the set of allocated blocks. *)

From S2P Require Import Prelude Thread PriorityQ Timeout TimeoutList.
From S2P Require Import Sched SchedOk SchedSpec ThreadApi ThreadSpec SchedProps Blocking.

#[local] Open Scope Z_scope.

Record k_mem_slab := K_mem_slab {
  slab_wait_q : wqid;
  slab_buffer : Z;
  free_list : Z;
  num_blocks : Z;
  block_size : Z;
  num_used : Z;
  max_used : Z
}.
Definition set_free_list (p : Z) (s : k_mem_slab) : k_mem_slab :=
  K_mem_slab s.(slab_wait_q) s.(slab_buffer) p s.(num_blocks) s.(block_size) s.(num_used) s.(max_used).
Definition set_num_used (n : Z) (s : k_mem_slab) : k_mem_slab :=
  K_mem_slab s.(slab_wait_q) s.(slab_buffer) s.(free_list) s.(num_blocks) s.(block_size) n s.(max_used).
Definition set_max_used (n : Z) (s : k_mem_slab) : k_mem_slab :=
  K_mem_slab s.(slab_wait_q) s.(slab_buffer) s.(free_list) s.(num_blocks) s.(block_size) s.(num_used) n.

(** The words the free blocks are linked with, by address; NULL is 0, pointers
    have 32 bits. *)
Definition words := Z -> Z.

(** The loop of [create_free_list]: [n] rounds. *)
Fixpoint link_blocks (n : nat) (block_size p fl : Z) (m : words) : Z * words :=
  match n with
  | O => (fl, m)
  | S n => link_blocks n block_size (p - block_size) p (upd p fl m)
  end.

Definition create_free_list (s : k_mem_slab) (m : words) : Z * k_mem_slab * words :=
  if s.(block_size) =? 0 then (- EINVAL, s, m)
  else if negb (Z.land (Z.lor s.(block_size) s.(slab_buffer)) 3 =? 0) then (- EINVAL, s, m)
  else if 2 ^ 32 <=? s.(block_size) * s.(num_blocks) then (- EINVAL, s, m)
  else if 2 ^ 32 <=? s.(slab_buffer) + s.(block_size) * s.(num_blocks) then (- EINVAL, s, m)
  else
    let total_size := s.(slab_buffer) + s.(block_size) * s.(num_blocks) in
    let '(fl, m') := link_blocks (Z.to_nat s.(num_blocks)) s.(block_size) (total_size - s.(block_size)) 0 m in
    (0, set_free_list fl s, m').

Section slab.
Context `{Cfg : Config} {RQ : RunQueue} {TB : TimeoutBackend}.
(** CONFIG_MEM_SLAB_POINTER_VALIDATE and CONFIG_MEM_SLAB_TRACE_MAX_UTILIZATION *)
Context (POINTER_VALIDATE TRACE_MAX_UTILIZATION : bool).

Definition k_mem_slab_init (s : k_mem_slab) (buffer bsize nblocks : Z) (m : words) (k : kernel)
    : Z * k_mem_slab * words * kernel :=
  let s1 := K_mem_slab s.(slab_wait_q) buffer s.(free_list) nblocks bsize 0
              (if TRACE_MAX_UTILIZATION then 0 else s.(max_used)) in
  let '(rc, s2, m') := create_free_list s1 m in
  if rc <? 0 then (rc, s2, m', k) else (rc, s2, m', on_waitq s.(slab_wait_q) (fun _ => []) k).

Definition slab_ptr_is_good (s : k_mem_slab) (p : Z) : bool :=
  negb POINTER_VALIDATE ||
  let offset := p - s.(slab_buffer) in
  (0 <=? offset) && (offset <? u32 (s.(block_size) * s.(num_blocks))) && (offset mod s.(block_size) =? 0).

(** The second result is what [*mem] is set to, if the call returns. *)
Definition k_mem_slab_alloc (s : k_mem_slab) (timeout : Z) (m : words) (k : kernel)
    : outcome * option Z * k_mem_slab * kernel :=
  if negb (s.(free_list) =? 0) then
    let mem := s.(free_list) in
    let s1 := set_num_used (u32 (s.(num_used) + 1)) (set_free_list (m s.(free_list)) s) in
    let s2 := if TRACE_MAX_UTILIZATION then set_max_used (Z.max s1.(num_used) s1.(max_used)) s1 else s1 in
    (Returns 0, Some mem, s2, k)
  else if timeout =? K_NO_WAIT then (Returns (- ENOMEM), Some 0, s, k)
  else let '(result, k1) := z_pend_curr s.(slab_wait_q) timeout k in (result, None, s, k1).

(** The rest of a call that blocked. *)
Definition k_mem_slab_alloc_resume (th : k_thread) : Z * option Z :=
  (th.(swap_retval), if th.(swap_retval) =? 0 then Some th.(swap_data) else None).

Definition k_mem_slab_free (s : k_mem_slab) (mem : Z) (m : words) (k : kernel) : k_mem_slab * words * kernel :=
  if negb (slab_ptr_is_good s mem) then (s, m, k_panic k)
  else
    let release k := (set_num_used (u32 (s.(num_used) - 1)) (set_free_list mem s), upd mem s.(free_list) m, k) in
    if s.(free_list) =? 0 then
      match z_sched_wake s.(slab_wait_q) 0 mem k with
      | (true, k1) => (s, m, reschedule k1)
      | (false, k1) => release k1
      end
    else release k.

Definition k_mem_slab_num_used_get (s : k_mem_slab) : Z := s.(num_used).
Definition k_mem_slab_max_used_get (s : k_mem_slab) : Z := if TRACE_MAX_UTILIZATION then s.(max_used) else 0.
Definition k_mem_slab_num_free_get (s : k_mem_slab) : Z := u32 (s.(num_blocks) - s.(num_used)).

(** allocated, free and largest number of bytes allocated *)
Definition k_mem_slab_runtime_stats_get (s : k_mem_slab) : Z * Z * Z :=
  (u32 (s.(num_used) * s.(block_size)), u32 (u32 (s.(num_blocks) - s.(num_used)) * s.(block_size)),
   if TRACE_MAX_UTILIZATION then u32 (s.(max_used) * s.(block_size)) else 0).
Definition k_mem_slab_runtime_stats_reset_max (s : k_mem_slab) : k_mem_slab := set_max_used s.(num_used) s.

(** ** The specification *)

Definition blocks (s : k_mem_slab) : list Z :=
  map (fun i => s.(slab_buffer) + Z.of_nat i * s.(block_size)) (seq 0 (Z.to_nat s.(num_blocks))).

Fixpoint chain (m : words) (p : Z) (l : list Z) : Prop :=
  match l with [] => p = 0 | x :: r => p = x /\ x <> 0 /\ chain m (m x) r end.

(** [A] are the blocks handed out, [l] the free ones. *)
Record slab_ok (s : k_mem_slab) (m : words) (A : list Z) (k : kernel) : Prop := {
  sl_sys : sys_ok k;
  sl_size : 0 < s.(block_size);
  sl_nblocks : 0 <= s.(num_blocks);
  sl_buffer : 0 < s.(slab_buffer);
  sl_fits : s.(slab_buffer) + s.(block_size) * s.(num_blocks) < 2 ^ 32;
  sl_used : s.(num_used) = Z.of_nat (length A);
  sl_free : exists l, chain m s.(free_list) l /\ l ++ A ≡ₚ blocks s /\
    (k.(waitqs) s.(slab_wait_q) <> [] -> l = [])
}.

Inductive slab_event :=
| Allocated (b : Z) | Exhausted | AllocWaits (t : tid) | Freed (b : Z) | Given (t : tid) (b : Z) | Quiet.

(** The set of blocks handed out; [all] are all blocks. *)
Definition pool (all : list Z) (e : slab_event) (A : list Z) : option (list Z) :=
  match e with
  | Allocated b => if bool_decide (b ∈ all /\ b ∉ A) then Some (b :: A) else None
  | Exhausted | AllocWaits _ => if bool_decide (A ≡ₚ all) then Some A else None
  | Freed b => if bool_decide (b ∈ A) then Some (filter (fun x => x <> b) A) else None
  | Given _ b => if bool_decide (b ∈ A) then Some A else None
  | Quiet => Some A
  end.
Fixpoint pool_run (all : list Z) (es : list slab_event) (A : list Z) : option (list Z) :=
  match es with [] => Some A | e :: r => A' ← pool all e A; pool_run all r A' end.

Definition alloc_event (s : k_mem_slab) (timeout : Z) (m : words) (k : kernel) : slab_event :=
  match (k_mem_slab_alloc s timeout m k).1.1 with
  | (Returns 0, Some b) => Allocated b
  | (Blocks, _) => AllocWaits k.(current)
  | _ => Exhausted
  end.
Definition free_event (s : k_mem_slab) (b : Z) (k : kernel) : slab_event :=
  match k.(waitqs) s.(slab_wait_q) with t :: _ => Given t b | [] => Freed b end.

Record slab_state := Slab_state { ss_slab : k_mem_slab; ss_words : words; ss_allocated : list Z; ss_kernel : kernel }.

(** Who frees a block has been given it, and what the rest of the system writes
    is not in a free block. *)
Inductive slab_step : slab_event -> slab_state -> slab_state -> Prop :=
| sl_alloc s m A k timeout o r s' k' : k.(current) <> k.(idle_thread) -> k.(in_isr) = false \/ timeout = K_NO_WAIT ->
    k_mem_slab_alloc s timeout m k = (o, r, s', k') ->
    slab_step (alloc_event s timeout m k) (Slab_state s m A k)
      (Slab_state s' m (match alloc_event s timeout m k with Allocated b => b :: A | _ => A end) k')
| sl_release s m A k b s' m' k' : b ∈ A -> k_mem_slab_free s b m k = (s', m', k') ->
    slab_step (free_event s b k) (Slab_state s m A k)
      (Slab_state s' m' (match free_event s b k with Freed _ => filter (fun x => x <> b) A | _ => A end) k')
| sl_other s m m' A k k' : env_step s.(slab_wait_q) k k' ->
    (forall x, x ∈ blocks s -> x ∉ A -> m' x = m x) ->
    slab_step Quiet (Slab_state s m A k) (Slab_state s m' A k').

Inductive slab_run : list slab_event -> slab_state -> slab_state -> Prop :=
| lr_nil x : slab_run [] x x
| lr_cons e es x y z : slab_step e x y -> slab_run es y z -> slab_run (e :: es) x z.

Record slab_stepped (e : slab_event) (x y : slab_state) : Prop := {
  ls_ok : slab_ok y.(ss_slab) y.(ss_words) y.(ss_allocated) y.(ss_kernel);
  ls_pool : pool (blocks x.(ss_slab)) e x.(ss_allocated) = Some y.(ss_allocated);
  ls_blocks : blocks y.(ss_slab) = blocks x.(ss_slab);
  ls_given : forall t b, e = Given t b -> k_mem_slab_alloc_resume (thr y.(ss_kernel) t) = (0, Some b)
}.

(** ** Proofs *)

Lemma blocks_elem s b : b ∈ blocks s <->
  exists i, b = s.(slab_buffer) + Z.of_nat i * s.(block_size) /\ (i < Z.to_nat s.(num_blocks))%nat.
Proof. unfold blocks. rewrite list_elem_of_fmap. setoid_rewrite elem_of_seq. split; intros (i & ? & ?); exists i; lia || auto with lia. Qed.

Lemma blocks_nodup s : 0 < s.(block_size) -> NoDup (blocks s).
Proof.
  intros Hs. unfold blocks. apply NoDup_fmap_2_strong; [|apply NoDup_seq]. intros i j _ _ E. nia.
Qed.

Lemma blocks_length s : length (blocks s) = Z.to_nat s.(num_blocks).
Proof. unfold blocks. by rewrite length_map, length_seq. Qed.

Lemma blocks_pos s b : 0 < s.(block_size) -> 0 < s.(slab_buffer) -> b ∈ blocks s -> b <> 0.
Proof. intros H1 H2 (i & -> & _)%blocks_elem. nia. Qed.

Lemma free_chain_frame m m' p l : chain m p l -> (forall x, x ∈ l -> m' x = m x) -> chain m' p l.
Proof.
  revert p. induction l as [|x l IH]; intros p; [done|]. simpl. intros (-> & Hx & Hc) Hm.
  split; [done|]. split; [done|]. rewrite Hm by set_solver +. apply IH; [done|]. intros. apply Hm. set_solver.
Qed.

Lemma ptr_is_good s m A k b : slab_ok s m A k -> b ∈ A -> slab_ptr_is_good s b = true.
Proof.
  intros [_ H1 H2 H3 H4 _ (l & _ & HP & _)] Hb. assert (Hin : b ∈ blocks s) by (rewrite <- HP; set_solver).
  apply blocks_elem in Hin as (i & -> & Hi). unfold slab_ptr_is_good. destruct POINTER_VALIDATE; [|done]. simpl.
  replace (_ - slab_buffer s) with (Z.of_nat i * block_size s) by lia.
  assert (0 <= block_size s * num_blocks s < 2 ^ 32) as Hr by nia.
  unfold u32. rewrite (Z.mod_small _ _ Hr), Z.mod_mul by lia.
  rewrite (proj2 (Z.leb_le _ _)), (proj2 (Z.ltb_lt _ _)) by nia. done.
Qed.

(** Freeing takes the block out of the list of allocated ones. *)
Lemma filter_out (A l : list Z) b all : b ∈ A -> NoDup all -> l ++ A ≡ₚ all ->
  (b :: l) ++ filter (fun x => x <> b) A ≡ₚ all /\ length A = S (length (filter (fun x => x <> b) A)).
Proof.
  intros Hb Hnd HP. apply list_elem_of_split in Hb as (a1 & a2 & ->).
  assert (Hn : NoDup (l ++ a1 ++ b :: a2)) by (by rewrite HP).
  apply NoDup_app in Hn as (_ & _ & Hn). apply NoDup_app in Hn as (_ & H1 & H2%NoDup_cons).
  assert (Hf : forall a : list Z, b ∉ a -> filter (fun x => x <> b) a = a)
    by (intros a; induction a as [|y a IH]; [done|]; intros Ha; rewrite filter_cons_True, IH; set_solver).
  rewrite filter_app, filter_cons_False by auto. rewrite !Hf by (try apply H2; intros ?%H1; set_solver).
  split; [|rewrite !length_app; simpl; lia]. rewrite <- HP. simpl. by rewrite !Permutation_middle.
Qed.

Context (Hdl : CONFIG_SCHED_DEADLINE = false) (Hmi : CONFIG_NUM_METAIRQ_PRIORITIES <= 0).

Lemma alloc_stepped s m A k timeout o r s' k' : slab_ok s m A k -> k.(current) <> k.(idle_thread) ->
  k.(in_isr) = false \/ timeout = K_NO_WAIT -> k_mem_slab_alloc s timeout m k = (o, r, s', k') ->
  slab_stepped (alloc_event s timeout m k) (Slab_state s m A k)
    (Slab_state s' m (match alloc_event s timeout m k with Allocated b => b :: A | _ => A end) k').
Proof.
  intros Hok Hc Hi E. unfold alloc_event. rewrite E. unfold k_mem_slab_alloc in E. cbn [fst snd].
  destruct (Hok) as [H1 H2 H3 H4 H5 H6 (l & HC & HP & HW)].
  destruct (Z.eqb_spec s.(free_list) 0) as [Hf|Hf]; simpl in E.
  - assert (l = []) as -> by (destruct l as [|x l]; [done|]; destruct HC as (? & ? & _); congruence).
    assert (Hall : bool_decide (A ≡ₚ blocks s) = true) by (by apply bool_decide_eq_true).
    destruct (timeout =? K_NO_WAIT) eqn:Et.
    + simplify_eq. split; simpl; try done. by rewrite Hall.
    + destruct (pend_waits Hdl Hmi k s.(slab_wait_q) timeout H1) as (k1 & E1 & [W _]);
        [apply Z.eqb_neq in Et; tauto|done|]. rewrite E1 in E. simplify_eq.
      split; simpl; try done; [|by rewrite Hall]. split; try done. by exists [].
  - destruct l as [|x l]; [done|]. destruct HC as (Hx & Hx0 & HC). injection E as <- <- <- <-. rewrite Hx in *.
    assert (Hnd : NoDup ((x :: l) ++ A)) by (rewrite HP; by apply blocks_nodup).
    simpl in Hnd. apply NoDup_cons in Hnd as [Hxl Hnd].
    set (s2 := if TRACE_MAX_UTILIZATION then _ else _).
    assert (Hs2 : slab_wait_q s2 = slab_wait_q s /\ slab_buffer s2 = slab_buffer s /\ free_list s2 = m x /\
      num_blocks s2 = num_blocks s /\ block_size s2 = block_size s /\ num_used s2 = u32 (num_used s + 1))
      by (unfold s2; by destruct TRACE_MAX_UTILIZATION).
    destruct Hs2 as (E1 & E2 & E3 & E4 & E5 & E6).
    assert (Hb : blocks s2 = blocks s) by (unfold blocks; by rewrite E2, E4, E5).
    assert (Hlen : Z.of_nat (length A) < num_blocks s).
    { apply Permutation_length in HP. rewrite blocks_length, length_app in HP. simpl in HP. lia. }
    split; simpl; try done.
    + split; rewrite ?E1, ?E2, ?E3, ?E4, ?E5; try done.
      * rewrite E6. unfold u32. rewrite Z.mod_small; [simpl; lia|nia].
      * exists l. split; [done|]. rewrite Hb. split; [by rewrite <- HP; rewrite <- Permutation_middle|].
        intros Hw. specialize (HW Hw). done.
    + rewrite bool_decide_true; [done|]. split; [rewrite <- HP; set_solver +|set_solver].
Qed.

Lemma free_stepped s m A k b s' m' k' : slab_ok s m A k -> b ∈ A -> k_mem_slab_free s b m k = (s', m', k') ->
  slab_stepped (free_event s b k) (Slab_state s m A k)
    (Slab_state s' m' (match free_event s b k with Freed _ => filter (fun x => x <> b) A | _ => A end) k').
Proof.
  intros Hok Hb E. unfold k_mem_slab_free in E. rewrite (ptr_is_good _ _ _ _ _ Hok Hb) in E. simpl in E.
  destruct (Hok) as [H1 H2 H3 H4 H5 H6 (l & HC & HP & HW)]. unfold free_event.
  assert (Hrel : forall kk, k.(waitqs) s.(slab_wait_q) = [] -> kk = k ->
    slab_stepped (Freed b) (Slab_state s m A k)
     (Slab_state (set_num_used (u32 (num_used s - 1)) (set_free_list b s)) (upd b (free_list s) m)
        (filter (fun x => x <> b) A) kk)).
  { intros kk Hw ->. destruct (filter_out A l b (blocks s) Hb (blocks_nodup s H2) HP) as [HP' Hlen].
    assert (Hin : b ∈ blocks s) by (rewrite <- HP; set_solver).
    split; simpl; try done; [|by rewrite bool_decide_true].
    split; simpl; try done.
    - rewrite H6, Hlen. unfold u32. rewrite Z.mod_small; [lia|].
      apply Permutation_length in HP. rewrite blocks_length, length_app in HP. nia.
    - exists (b :: l). split; [|split; [done|by rewrite Hw]]. simpl. rewrite upd_eq.
      split; [done|]. split; [by apply (blocks_pos s)|]. eapply free_chain_frame; [done|].
      intros x Hx. apply upd_ne. intros ->.
      assert (Hnd : NoDup (l ++ A)) by (rewrite HP; by apply blocks_nodup).
      apply NoDup_app in Hnd as (_ & Hnd & _). by apply (Hnd b). }
  destruct (Z.eqb_spec s.(free_list) 0) as [Hf|Hf].
  - destruct (k.(waitqs) s.(slab_wait_q)) as [|t rr] eqn:Hw.
    + rewrite (wake_nobody Hdl Hmi) in E by done. simplify_eq. by apply Hrel.
    + destruct (wake_handed Hdl Hmi k _ t rr 0 b H1 Hw) as (k1 & E1 & Hh). rewrite E1 in E. simplify_eq.
      split; simpl; try done.
      * split; try done; [apply Hh|]. exists l. split; [done|]. split; [done|]. intros _. by apply HW.
      * by rewrite bool_decide_true.
      * intros ?? [= <- <-]. unfold k_mem_slab_alloc_resume. by rewrite (hd_retval Hh), (hd_data Hh).
  - assert (Hw : k.(waitqs) s.(slab_wait_q) = []).
    { destruct (k.(waitqs) _) eqn:Ew; [done|]. exfalso. rewrite HW in HC by done. done. }
    rewrite Hw. simplify_eq. by apply Hrel.
Qed.

Lemma slab_step_ok e x y : slab_step e x y ->
  slab_ok x.(ss_slab) x.(ss_words) x.(ss_allocated) x.(ss_kernel) -> slab_stepped e x y.
Proof.
  intros [s m A k timeout o r s' k' Hc Hi E|s m A k b s' m' k' Hb E|s m m' A k k' Henv Hm] Hok; simpl in Hok.
  - by eapply alloc_stepped.
  - by apply free_stepped.
  - destruct (Hok) as [H1 H2 H3 H4 H5 H6 (l & HC & HP & HW)]. split; simpl; try done.
    split; try done; [by eapply env_sys|]. exists l. split; [|split; [done|]].
    + eapply free_chain_frame; [done|]. intros b Hb. apply Hm; [rewrite <- HP; set_solver|].
      assert (Hnd : NoDup (l ++ A)) by (rewrite HP; by apply blocks_nodup).
      apply NoDup_app in Hnd as (_ & Hnd & _). auto.
    + intros Hw. apply HW. intros E. by apply Hw, (env_empty _ _ _ Henv).
Qed.

Lemma slab_run_ok es x y : slab_run es x y ->
  slab_ok x.(ss_slab) x.(ss_words) x.(ss_allocated) x.(ss_kernel) ->
  slab_ok y.(ss_slab) y.(ss_words) y.(ss_allocated) y.(ss_kernel) /\
  pool_run (blocks x.(ss_slab)) es x.(ss_allocated) = Some y.(ss_allocated).
Proof.
  induction 1 as [x|e es x y z Hs _ IH]; [done|]. simpl. intros Hok.
  destruct (slab_step_ok _ _ _ Hs Hok) as [Hok1 Hc Hb _].
  destruct (IH Hok1) as [Hz Hrun]. split; [done|]. rewrite Hc. simpl. by rewrite <- Hb.
Qed.

(** ** Initialisation *)

Lemma link_blocks_ok n base bs fl m l : 0 < bs -> 0 < base -> chain m fl l ->
  (forall i, (i < n)%nat -> base + Z.of_nat i * bs ∉ l) ->
  let '(fl', m') := link_blocks n bs (base + (Z.of_nat n - 1) * bs) fl m in
  chain m' fl' (map (fun i => base + Z.of_nat i * bs) (seq 0 n) ++ l).
Proof.
  intros Hbs Hbase. revert fl m l. induction n as [|n IH]; intros fl m l HC Hl; [done|]. cbn [link_blocks].
  replace (base + (Z.of_nat (S n) - 1) * bs) with (base + Z.of_nat n * bs) by lia.
  set (p := base + Z.of_nat n * bs).
  specialize (IH p (upd p fl m) (p :: l)).
  replace (base + (Z.of_nat n - 1) * bs) with (p - bs) in IH by (unfold p; lia).
  destruct (link_blocks n bs (p - bs) p (upd p fl m)) as [fl' m'].
  rewrite seq_S, map_app, <- app_assoc. simpl. apply IH.
  - simpl. rewrite upd_eq. split; [done|]. split; [unfold p; nia|]. eapply free_chain_frame; [done|].
    intros x Hx. apply upd_ne. intros ->. apply (Hl n ltac:(lia)). done.
  - intros i Hi. rewrite not_elem_of_cons. split; [unfold p; nia|]. apply Hl. lia.
Qed.

(** [k_mem_slab_init] accepts a buffer of word-aligned blocks that ends below 4 GB,
    and makes all its blocks free. *)
Lemma init_ok s buffer bsize nblocks m k : sys_ok k -> k.(waitqs) s.(slab_wait_q) = [] ->
  0 <= bsize -> 0 <= nblocks -> 0 < buffer ->
  let '(rc, s', m', k') := k_mem_slab_init s buffer bsize nblocks m k in
  if (bsize =? 0) || negb (Z.land (Z.lor bsize buffer) 3 =? 0) || (2 ^ 32 <=? buffer + bsize * nblocks)
  then rc = - EINVAL /\ m' = m /\ k' = k
  else rc = 0 /\ slab_ok s' m' [] k' /\
       blocks s' = map (fun i => buffer + Z.of_nat i * bsize) (seq 0 (Z.to_nat nblocks)).
Proof.
  intros Hs Hw H1 H2 H3. unfold k_mem_slab_init, create_free_list. cbv zeta. cbn [block_size slab_buffer num_blocks].
  destruct (Z.eqb_spec bsize 0) as [->|Hb]; [done|]. destruct (negb _); [done|]. simpl orb.
  destruct (Z.leb_spec (2 ^ 32) (bsize * nblocks)) as [Ho|Ho].
  { rewrite (proj2 (Z.leb_le _ _)) by lia. done. }
  destruct (Z.leb_spec (2 ^ 32) (buffer + bsize * nblocks)) as [Ho2|Ho2]; [done|].
  set (s1 := K_mem_slab _ _ _ _ _ _ _).
  pose proof (link_blocks_ok (Z.to_nat nblocks) buffer bsize 0 m [] ltac:(lia) H3 eq_refl
    ltac:(intros; apply not_elem_of_nil)) as HL.
  replace (buffer + (Z.of_nat (Z.to_nat nblocks) - 1) * bsize) with (buffer + bsize * nblocks - bsize) in HL by lia.
  destruct (link_blocks _ _ _ _ m) as [fl m']. simpl. split; [done|]. split; [|done].
  split; simpl; try done; [by apply waitq_init_sys|lia|].
  eexists. split; [exact HL|]. rewrite !app_nil_r. split; [done|]. by rewrite upd_eq.
Qed.
End slab.

(** C21. Memory slabs.  After a successful init all blocks are free.  However
    allocations and frees by threads and interrupts interleave with the rest of the
    system, which may write anything into allocated blocks: an allocation returns a
    block of the slab that nobody has, a block becomes free only when it is freed,
    a freed block goes to the first waiting thread, whose call returns it, and
    calls fail with -ENOMEM or wait only while every block is allocated.  The
    blocks handed out and the free list always partition the slab, and [num_used]
    counts the former. *)
Theorem mem_slab_partition `{Cfg : Config} {RQ : RunQueue} {TB : TimeoutBackend} (validate trace : bool)
    (s0 s : k_mem_slab) (buffer bsize nblocks rc : Z) (m0 m : words) (k0 k : kernel)
    (es : list slab_event) (y : slab_state) :
  CONFIG_SCHED_DEADLINE = false -> CONFIG_NUM_METAIRQ_PRIORITIES <= 0 ->
  sys_ok k0 -> k0.(waitqs) s0.(slab_wait_q) = [] -> 0 <= bsize -> 0 <= nblocks -> 0 < buffer ->
  k_mem_slab_init trace s0 buffer bsize nblocks m0 k0 = (rc, s, m, k) -> rc = 0 ->
  slab_run validate trace es (Slab_state s m [] k) y ->
  slab_ok y.(ss_slab) y.(ss_words) y.(ss_allocated) y.(ss_kernel) /\
  pool_run (map (fun i => buffer + Z.of_nat i * bsize) (seq 0 (Z.to_nat nblocks))) es [] = Some y.(ss_allocated) /\
  (forall e z, slab_step validate trace e y z -> slab_stepped e y z).
Proof.
  intros Hdl Hmi Hs Hw H1 H2 H3 E Hrc Hrun. pose proof (init_ok trace s0 buffer bsize nblocks m0 k0 Hs Hw H1 H2 H3) as HI.
  rewrite E in HI. destruct (_ || _); [destruct HI as [-> _]; done|]. destruct HI as (_ & Hok & <-).
  destruct (slab_run_ok validate trace Hdl Hmi es _ _ Hrun Hok) as [Hy HR].
  split; [done|]. split; [done|]. intros e z Hst. by apply (slab_step_ok validate trace).
Qed.

(** ** A concrete run: two blocks of 8 bytes at 0x1000, one allocated *)

#[local] Existing Instance example_config.
#[local] Existing Instance simple_RunQueue.
#[local] Existing Instance delta_list_backend.

Definition example_slab : k_mem_slab := K_mem_slab 7%nat 0 0 0 0 0 0.
Definition slab_init := k_mem_slab_init true example_slab 4096 8 2 (fun _ => 0) example_running.
Definition slab_alloc := k_mem_slab_alloc true slab_init.1.1.2 K_NO_WAIT slab_init.1.2 slab_init.2.
Definition slab_allocated : slab_state := Slab_state slab_alloc.1.2 slab_init.1.2 [4096] slab_alloc.2.

Lemma slab_init_eq : k_mem_slab_init true example_slab 4096 8 2 (fun _ => 0) example_running =
  (slab_init.1.1.1, slab_init.1.1.2, slab_init.1.2, slab_init.2).
Proof. unfold slab_init. apply quad_eta. Qed.
Lemma slab_alloc_eq : k_mem_slab_alloc true slab_init.1.1.2 K_NO_WAIT slab_init.1.2 slab_init.2 =
  (slab_alloc.1.1.1, slab_alloc.1.1.2, slab_alloc.1.2, slab_alloc.2).
Proof. unfold slab_alloc. apply quad_eta. Qed.

Lemma run_alloc `{Cfg : Config} {RQ : RunQueue} {TB : TimeoutBackend} v tr s m A k b o r s' k' :
  k.(current) <> k.(idle_thread) -> k_mem_slab_alloc tr s K_NO_WAIT m k = (o, r, s', k') ->
  alloc_event tr s K_NO_WAIT m k = Allocated b ->
  slab_run v tr [Allocated b] (Slab_state s m A k) (Slab_state s' m (b :: A) k').
Proof.
  intros Hc E He. eapply lr_cons; [|apply lr_nil].
  pose proof (sl_alloc v tr s m A k K_NO_WAIT o r s' k' Hc (or_intror eq_refl) E) as H. by rewrite He in H.
Qed.

Lemma mem_slab_partition_witness : pool_run [4096; 4104] [Allocated 4096] [] = Some [4096] /\
  slab_ok slab_alloc.1.2 slab_init.1.2 [4096] slab_alloc.2.
Proof.
  destruct (mem_slab_partition false true example_slab slab_init.1.1.2 4096 8 2 slab_init.1.1.1 (fun _ => 0) slab_init.1.2
    example_running slab_init.2 [Allocated 4096] slab_allocated
    eq_refl ltac:(discriminate) example_running_ok ltac:(vm_compute; reflexivity) ltac:(discriminate) ltac:(discriminate)
    eq_refl slab_init_eq ltac:(vm_compute; reflexivity)) as (H1 & H2 & _).
  - apply (run_alloc _ _ _ _ _ _ _ _ _ _ _) with (2 := slab_alloc_eq); vm_compute; [discriminate|reflexivity].
  - split; [exact H2|exact H1].
Defined.
