(* ===== verification/Event.v ===== *)
(** Event objects: kernel/events.c (the simple, list-based wait queue).

    An event object is a set of 32 bits; a thread waits for any or for all of a
    set of bits, and may ask that the bits it received are cleared. *)

From S2P Require Import Prelude Thread PriorityQ Timeout TimeoutList.
From S2P Require Import Sched SchedOk SchedSpec ThreadApi ThreadSpec SchedProps Blocking.

#[local] Open Scope Z_scope.

Definition K_EVENT_WAIT_ANY : Z := 0.
Definition K_EVENT_WAIT_ALL : Z := 1.
Definition K_EVENT_WAIT_MASK : Z := 1.
Definition K_EVENT_OPTION_RESET : Z := 2.
Definition K_EVENT_OPTION_CLEAR : Z := 4.

Record k_event := K_event { event_wait_q : wqid; event_bits : Z }.
Definition set_event_bits (b : Z) (e : k_event) : k_event := K_event e.(event_wait_q) b.

(** [struct event_walk_data] *)
Record event_walk_data := Event_walk_data { walk_events : Z; clear_events : Z }.

Definition are_wait_conditions_met (desired current wait_condition : Z) : Z :=
  let m := current .& desired in
  if (wait_condition =? K_EVENT_WAIT_ALL) && negb (m =? desired) then 0 else m.

Section event.
Context `{Cfg : Config} {RQ : RunQueue} {TB : TimeoutBackend}.

Definition k_event_init (e : k_event) (k : kernel) : k_event * kernel :=
  (set_event_bits 0 e, on_waitq e.(event_wait_q) (fun _ => []) k).

Definition event_walk_op (t : tid) (s : event_walk_data * kernel) : Z * (event_walk_data * kernel) :=
  let '(data, k) := s in
  let th := thr k t in
  let mtch := are_wait_conditions_met th.(events) data.(walk_events) (th.(event_options) .& K_EVENT_WAIT_MASK) in
  if negb (mtch =? 0) then
    let k1 := on_thread t (set_events mtch) k in
    let data1 := if negb (th.(event_options) .& K_EVENT_OPTION_CLEAR =? 0)
                 then Event_walk_data data.(walk_events) (data.(clear_events) .| mtch) else data in
    let k2 := (z_try_abort_thread_timeout t k1).2 in
    (0, (data1, z_sched_wake_thread_locked t (arch_thread_return_value_set t 0 k2)))
  else (0, (data, k)).

Definition k_event_post_internal (e : k_event) (new_events events_mask : Z) (k : kernel) : Z * k_event * kernel :=
  let previous_events := e.(event_bits) .& events_mask in
  let ev := (e.(event_bits) .& Z.lnot events_mask) .| (new_events .& events_mask) in
  let '(_, (data, k1)) :=
    z_sched_waitq_walk e.(event_wait_q) event_walk_op None (Event_walk_data ev 0, k) in
  (previous_events, set_event_bits (data.(walk_events) .& Z.lnot data.(clear_events)) e, reschedule k1).

Definition k_event_post (e : k_event) (ev : Z) := k_event_post_internal e ev ev.
Definition k_event_set (e : k_event) (ev : Z) := k_event_post_internal e ev (u32 (Z.lnot 0)).
Definition k_event_set_masked (e : k_event) (ev mask : Z) := k_event_post_internal e ev mask.
Definition k_event_clear (e : k_event) (ev : Z) := k_event_post_internal e 0 ev.

Definition k_event_wait_internal (e : k_event) (ev options timeout : Z) (k : kernel) : outcome * k_event * kernel :=
  if ev =? 0 then (Returns 0, e, k)
  else
    let wait_condition := options .& K_EVENT_WAIT_MASK in
    let e1 := if negb (options .& K_EVENT_OPTION_RESET =? 0) then set_event_bits 0 e else e in
    let rv := are_wait_conditions_met ev e1.(event_bits) wait_condition in
    if negb (rv =? 0) then
      (Returns rv,
       if negb (options .& K_EVENT_OPTION_CLEAR =? 0) then set_event_bits (e1.(event_bits) .& Z.lnot rv) e1 else e1, k)
    else if timeout =? K_NO_WAIT then (Returns rv, e1, k)
    else
      let k1 := on_thread k.(current) (fun th => set_event_options options (set_events ev th)) k in
      let '(ret, k2) := z_pend_curr e1.(event_wait_q) timeout k1 in (ret, e1, k2).

(** The rest of a call that blocked. *)
Definition k_event_wait_resume (th : k_thread) : Z := if th.(swap_retval) =? 0 then th.(events) else 0.

Definition k_event_wait (e : k_event) (ev : Z) (reset : bool) :=
  k_event_wait_internal e ev (if reset then K_EVENT_OPTION_RESET else 0).
Definition k_event_wait_all (e : k_event) (ev : Z) (reset : bool) :=
  k_event_wait_internal e ev (if reset then K_EVENT_OPTION_RESET .| K_EVENT_WAIT_ALL else K_EVENT_WAIT_ALL).
Definition k_event_wait_safe (e : k_event) (ev : Z) (reset : bool) :=
  k_event_wait_internal e ev (if reset then K_EVENT_OPTION_CLEAR .| K_EVENT_OPTION_RESET else K_EVENT_OPTION_CLEAR).
Definition k_event_wait_all_safe (e : k_event) (ev : Z) (reset : bool) :=
  k_event_wait_internal e ev
    (if reset then (K_EVENT_OPTION_CLEAR .| K_EVENT_OPTION_RESET) .| K_EVENT_WAIT_ALL
     else K_EVENT_OPTION_CLEAR .| K_EVENT_WAIT_ALL).

Definition k_event_test (e : k_event) (mask : Z) := k_event_wait e mask false K_NO_WAIT.

(** ** Specification *)

(** What the waiting thread [th] receives when the bits are [ev]; 0 when its
    condition is not met. *)
Definition received (ev : Z) (th : k_thread) : Z :=
  are_wait_conditions_met th.(events) ev (th.(event_options) .& K_EVENT_WAIT_MASK).
Definition killed (th : k_thread) : bool := is_set th.(thread_state) (_THREAD_DEAD .| _THREAD_ABORTING).
Definition consumes (th : k_thread) : bool := negb (th.(event_options) .& K_EVENT_OPTION_CLEAR =? 0).
Definition event_woken (ev : Z) (th : k_thread) : k_thread :=
  requeued (z_mark_thread_as_not_sleeping (released (set_swap_retval 0 (set_events (received ev th) th)))).

Lemma killed_bits th : killed th = Z.testbit th.(thread_state) 3 || Z.testbit th.(thread_state) 5.
Proof. unfold killed, _THREAD_DEAD, _THREAD_ABORTING. by rewrite is_set_lor, !is_set_bit. Qed.

(** No thread waits for what is already there. *)
Record event_ok (e : k_event) (k : kernel) : Prop := {
  ev_sys : sys_ok k;
  ev_waiting : forall x, x ∈ k.(waitqs) e.(event_wait_q) ->
    received e.(event_bits) (thr k x) = 0 /\ killed (thr k x) = false
}.

Context (Hdl : CONFIG_SCHED_DEADLINE = false) (Hmi : CONFIG_NUM_METAIRQ_PRIORITIES <= 0).

(** One waiter leaves. *)
Record event_leaves (w : wqid) (t : tid) (th : k_thread) (k k' : kernel) : Prop := {
  el_ok : core_ok nobody k';
  el_cache : cache_ok k -> cache_ok k';
  el_cpu : same_cpu k k';
  el_others : forall x, x <> t -> thr k' x = thr k x;
  el_thread : thr k' t = th;
  el_waitqs : forall v, k'.(waitqs) v = if decide (v = w) then z_priq_simple_remove (k.(waitqs) w) t else k.(waitqs) v
}.

Lemma walk_op_wakes k w t data : core_ok nobody k -> (thr k t).(pended_on) = Some w -> killed (thr k t) = false ->
  received data.(walk_events) (thr k t) <> 0 ->
  exists k', event_walk_op t (data, k) =
      (0, (if consumes (thr k t) then Event_walk_data data.(walk_events)
             (data.(clear_events) .| received data.(walk_events) (thr k t)) else data, k')) /\
    event_leaves w t (event_woken data.(walk_events) (thr k t)) k k'.
Proof.
  intros Hok Hp Hk Hr. unfold event_walk_op. fold (received data.(walk_events) (thr k t)). fold (consumes (thr k t)).
  rewrite (proj2 (Z.eqb_neq _ _) Hr). simpl negb. cbn iota. set (r := received _ _) in *.
  eexists. split; [reflexivity|].
  set (k1 := on_thread t (set_events r) k). destruct (abort_frame t k1) as (F1 & F2 & F3).
  set (k2 := (z_try_abort_thread_timeout t k1).2) in *.
  set (f := set_swap_retval 0). set (k3 := arch_thread_return_value_set t 0 k2).
  assert (Hok1 : core_ok nobody k1) by (apply core_silent; [done|by split|done]).
  assert (Hok2 : core_ok nobody k2) by (by eapply core_frame).
  assert (Hok3 : core_ok nobody k3) by (apply core_silent; [done|apply quiet_retval|done]).
  assert (Et2 : forall x, thr k2 x = thr k1 x) by (intros x; unfold thr; by rewrite (sc_threads _ _ F1)).
  assert (Et3 : thr k3 t = set_swap_retval 0 (set_events r (thr k t)))
    by (unfold k3, arch_thread_return_value_set; rewrite thr_eq, Et2; unfold k1; by rewrite thr_eq).
  assert (Hx3 : forall x, x <> t -> thr k3 x = thr k x)
    by (intros x Hne; unfold k3, arch_thread_return_value_set; rewrite thr_ne, Et2 by done; by apply thr_ne).
  assert (Hi : t <> k3.(idle_thread)) by (eapply (pended_not_idle nobody k3); [done|by rewrite Et3]).
  assert (HP3 : same_cpu k k3) by (by destruct F2; split).
  assert (Hp3 : (thr k3 t).(pended_on) = Some w) by (by rewrite Et3).
  unfold z_sched_wake_thread_locked. change (is_set _ _) with (killed (thr k3 t)). rewrite Et3 at 1.
  change (killed (set_swap_retval 0 (set_events r (thr k t)))) with (killed (thr k t)). rewrite Hk, Hp3.
  pose proof (detached_unpend k3 t w Hok3 Hp3) as HD.
  apply (detached_set _ _ _ _ z_mark_thread_as_not_sleeping) in HD; [|done|apply lifts_not_sleeping].
  apply (detached_wakes Hdl Hmi) in HD; [|done]. destruct HD as [W1 W2 W3 W4 W5 W6 _].
  split; [done| |by etrans| | |].
  - intros Hc. apply W2; [|by apply (pended_not_queued k3 t w)].
    assert (Hc1 : cache_ok k1) by (by apply cache_on_thread). revert Hc1.
    apply cache_frame; [f_equal; apply (sc_runq _ _ F1)|apply F2|done|apply F2|]. unfold cooperating, cur.
    change (current k3) with k2.(current). rewrite (cpu_current _ _ F2). unfold k3, arch_thread_return_value_set.
    rewrite thr_upd, !Et2. case_decide as Ec; [by rewrite <- Ec|done].
  - intros x Hne. rewrite W4 by done. auto.
  - rewrite W5. unfold event_woken. rewrite thr_eq, (unpend_thread k3 t w) by done. by rewrite Et3.
  - intros v. rewrite W6. change (waitqs k3) with k2.(waitqs). by rewrite (sc_waitqs _ _ F1).
Qed.

(** The bits consumed by the waiters [ts]. *)
Definition consumed (ev : Z) (k : kernel) (ts : list tid) (c : Z) : Z :=
  foldl (fun c t => if negb (received ev (thr k t) =? 0) && consumes (thr k t)
                    then c .| received ev (thr k t) else c) c ts.

Lemma consumed_ext ev k k1 ts c : (forall x, x ∈ ts -> thr k1 x = thr k x) -> consumed ev k1 ts c = consumed ev k ts c.
Proof.
  unfold consumed. revert c. induction ts as [|t ts IH]; intros c H; [done|]. simpl.
  rewrite (H t) by set_solver +. apply IH. intros x Hx. apply H. set_solver.
Qed.

(** Every waiter whose condition is met is woken with what it receives. *)
Record event_walked (w : wqid) (ev : Z) (ts : list tid) (k k' : kernel) : Prop := {
  ew_ok : core_ok nobody k';
  ew_cache : cache_ok k -> cache_ok k';
  ew_cpu : same_cpu k k';
  ew_threads : forall x, thr k' x =
    if decide (x ∈ ts /\ received ev (thr k x) <> 0) then event_woken ev (thr k x) else thr k x;
  ew_waiters : forall x, x ∈ k'.(waitqs) w <-> x ∈ k.(waitqs) w /\ ~ (x ∈ ts /\ received ev (thr k x) <> 0);
  ew_queues : forall v, v <> w -> k'.(waitqs) v = k.(waitqs) v
}.

Lemma event_walk_ok w ev ts c k : core_ok nobody k -> NoDup ts ->
  (forall t, t ∈ ts -> (thr k t).(pended_on) = Some w /\ killed (thr k t) = false) ->
  exists k', waitq_walk_loop event_walk_op ts (Event_walk_data ev c, k) =
      (0, (Event_walk_data ev (consumed ev k ts c), k')) /\ event_walked w ev ts k k'.
Proof.
  revert c k. induction ts as [|t ts IH]; intros c k Hok Hnd Hts.
  { exists k. split; [done|]. split; try done. intros x.
    split; [intros Hx; split; [done|by intros [?%elem_of_nil _]]|by intros [? _]]. }
  apply NoDup_cons in Hnd as [Hnt Hnd]. destruct (Hts t ltac:(set_solver +)) as [Hp Hk]. cbn [waitq_walk_loop].
  destruct (decide (received ev (thr k t) = 0)) as [Hz|Hz].
  - assert (E : event_walk_op t (Event_walk_data ev c, k) = (0, (Event_walk_data ev c, k)))
      by (unfold event_walk_op; cbn [walk_events]; fold (received ev (thr k t)); by rewrite Hz).
    rewrite E. simpl Z.eqb. cbn iota. destruct (IH c k Hok Hnd ltac:(set_solver)) as (k' & -> & [I1 I2 I3 I4 I5 I6]).
    exists k'. split; [unfold consumed; simpl; by rewrite Hz|].
    split; try done.
    + intros x. rewrite I4. apply decide_ext. set_solver.
    + intros x. rewrite I5. set_solver.
  - destruct (walk_op_wakes k w t (Event_walk_data ev c) Hok Hp Hk Hz) as (k1 & -> & [L1 L2 L3 L4 L5 L6]).
    simpl Z.eqb. cbn iota. cbn [walk_events clear_events].
    replace (if consumes (thr k t) then _ else _) with
      (Event_walk_data ev (if consumes (thr k t) then c .| received ev (thr k t) else c)) by (by destruct (consumes _)).
    assert (Hth : forall x, x ∈ ts -> thr k1 x = thr k x) by (intros x Hx; apply L4; congruence).
    destruct (IH (if consumes (thr k t) then c .| received ev (thr k t) else c) k1 L1 Hnd) as (k' & E & [I1 I2 I3 I4 I5 I6]).
    { intros x Hx. rewrite Hth by done. apply Hts. set_solver. }
    rewrite E. exists k'. split; [|split; [done|auto|by etrans| | |]].
    + do 3 f_equal. rewrite (consumed_ext ev k k1 ts) by done. unfold consumed. simpl.
      by rewrite (proj2 (Z.eqb_neq _ _) Hz).
    + intros x. rewrite I4. destruct (decide (x = t)) as [->|Hne].
      * rewrite decide_False by set_solver. rewrite decide_True by set_solver. done.
      * rewrite (L4 x Hne). apply decide_ext. set_solver.
    + intros x. rewrite I5, L6, decide_True by done. rewrite elem_of_remove.
      * destruct (decide (x = t)) as [->|Hne]; [set_solver|]. rewrite (L4 x Hne). set_solver.
    + intros v Hv. rewrite I6, L6 by done. by rewrite decide_False.
Qed.

Lemma received_mono ev m th : received ev th = 0 -> received (ev .& m) th = 0.
Proof.
  unfold received, are_wait_conditions_met. set (d := th.(events)). set (all := _ =? K_EVENT_WAIT_ALL).
  assert (Hsub : (ev .& m) .& d = (ev .& d) .& m) by (rewrite <- !Z.land_assoc; f_equal; apply Z.land_comm).
  rewrite Hsub. destruct all; simpl; [|by intros ->].
  destruct (Z.eqb_spec (ev .& d) d) as [E|E]; simpl; [intros ->; by destruct (negb _)|]. intros _.
  destruct (Z.eqb_spec ((ev .& d) .& m) d) as [E2|]; [|done]. exfalso. apply E.
  rewrite <- E2 at 2. rewrite Hsub || rewrite <- Hsub. apply Z.bits_inj'. intros n Hn.
  apply (f_equal (fun z => Z.testbit z n)) in E2. rewrite !Z.land_spec in *.
  destruct (Z.testbit ev n), (Z.testbit d n), (Z.testbit m n); simpl in *; congruence.
Qed.

Lemma received_none th : received 0 th = 0.
Proof. unfold received, are_wait_conditions_met. rewrite Z.land_0_l. by destruct (_ && _). Qed.

(** ** Posting *)

(** The bits after [new] replaced those in [mask]. *)
Definition posted (e : k_event) (new mask : Z) : Z := (e.(event_bits) .& Z.lnot mask) .| (new .& mask).

Record event_posted (e : k_event) (ev : Z) (k : kernel) (e' : k_event) (k' : kernel) : Prop := {
  ep_ok : event_ok e' k';
  ep_bits : e' = set_event_bits (ev .& Z.lnot (consumed ev k (k.(waitqs) e.(event_wait_q)) 0)) e;
  (* who is served returns what it waited for *)
  ep_served : forall x, x ∈ k.(waitqs) e.(event_wait_q) -> received ev (thr k x) <> 0 ->
    (x ∉ k'.(waitqs) e.(event_wait_q)) /\ k_event_wait_resume (thr k' x) = received ev (thr k x);
  (* who is not goes on waiting *)
  ep_waiting : forall x, x ∈ k.(waitqs) e.(event_wait_q) -> received ev (thr k x) = 0 ->
    x ∈ k'.(waitqs) e.(event_wait_q) /\ thr k' x = thr k x
}.

Lemma event_woken_resume ev th : k_event_wait_resume (event_woken ev th) = received ev th.
Proof. unfold event_woken, requeued. by destruct (z_is_thread_ready _). Qed.

Lemma post_spec e new mask k : event_ok e k ->
  let '(prev, e', k') := k_event_post_internal e new mask k in
  prev = e.(event_bits) .& mask /\ event_posted e (posted e new mask) k e' k'.
Proof.
  intros [Hs Hw]. unfold k_event_post_internal, z_sched_waitq_walk. fold (posted e new mask). cbn [snd].
  set (ev := posted e new mask). set (w := e.(event_wait_q)) in *. pose proof (proj1 (proj1 Hs)) as Hcore.
  destruct (event_walk_ok w ev (k.(waitqs) w) 0 k Hcore (waitq_nodup _ _ w Hcore)) as (k1 & -> & [E1 E2 E3 E4 E5 E6]).
  { intros t Ht. split; [by apply (ok_pended _ _ Hcore)|by apply Hw]. }
  split; [done|]. destruct (reschedule_at_most k1) as [A1 A2 A3 A4 A7 A5 A6].
  assert (Hready : k.(in_isr) = false -> k.(current) ∉ k.(waitqs) w).
  { intros Hisr Hin. apply (ok_pended _ _ Hcore) in Hin. destruct (pended_not_queued k _ w Hcore Hin) as [Hn _].
    pose proof (proj2 Hs Hisr) as Hr. unfold cur in Hr. congruence. }
  assert (Ht : forall x, x ∈ k.(waitqs) w -> thr (reschedule k1) x = thr k1 x).
  { intros x Hx. destruct (k.(in_isr)) eqn:Hisr.
    - rewrite reschedule_in_isr; [done|]. by rewrite (cpu_isr _ _ E3).
    - apply A5. rewrite (cpu_current _ _ E3). intros ->. by apply Hready. }
  assert (Hrest : forall x, x ∈ (reschedule k1).(waitqs) w -> x ∈ k.(waitqs) w /\ received ev (thr k x) = 0 /\
    thr (reschedule k1) x = thr k x).
  { intros x. rewrite A1. intros [Hx Hn]%E5. assert (Hz : received ev (thr k x) = 0) by (destruct (decide (received ev (thr k x) = 0)); tauto).
    split; [done|]. split; [done|]. rewrite Ht, E4 by done. by rewrite decide_False. }
  split; try done.
  - split; [|].
    + eapply wake_then_reschedule; [exact Hs|split; [done|apply E2, Hs]|done|]. intros Hc. rewrite E4.
      case_decide as Hd; [|done]. exfalso. destruct Hd as [Hd _]. apply (ok_pended _ _ Hcore) in Hd.
      destruct (pended_not_queued k _ w Hcore Hd) as [Hn _]. unfold cur in Hc. congruence.
    + cbn [event_wait_q set_event_bits event_bits]. fold w. intros x Hx. destruct (Hrest x Hx) as (H1 & H2 & ->).
      split; [by apply received_mono|by apply Hw].
  - intros x Hx Hr. split.
    + intros Hin. destruct (Hrest x Hin) as (_ & Hz & _). done.
    + rewrite Ht, E4, decide_True by done. apply event_woken_resume.
  - intros x Hx Hz. fold w. rewrite A1, E5. split; [tauto|]. rewrite Ht, E4 by done. rewrite decide_False; [done|tauto].
Qed.

(** ** Waiting *)

Lemma wait_spec e ev options timeout k : event_ok e k -> k.(current) <> k.(idle_thread) ->
  k.(in_isr) = false \/ timeout = K_NO_WAIT -> killed (cur k) = false ->
  let '(o, e', k') := k_event_wait_internal e ev options timeout k in
  event_ok e' k' /\
  if ev =? 0 then o = Returns 0 /\ e' = e /\ k' = k
  else
    let e1 := if negb (options .& K_EVENT_OPTION_RESET =? 0) then set_event_bits 0 e else e in
    let rv := are_wait_conditions_met ev e1.(event_bits) (options .& K_EVENT_WAIT_MASK) in
    if negb (rv =? 0) then
      o = Returns rv /\ k' = k /\
      e'.(event_bits) = (if negb (options .& K_EVENT_OPTION_CLEAR =? 0) then e1.(event_bits) .& Z.lnot rv else e1.(event_bits))
    else if timeout =? K_NO_WAIT then o = Returns 0 /\ e' = e1 /\ k' = k
    else o = Blocks /\ e' = e1 /\ (thr k' k.(current)).(events) = ev /\ (thr k' k.(current)).(event_options) = options /\
      forall x, x ∈ k'.(waitqs) e.(event_wait_q) <-> x = k.(current) \/ x ∈ k.(waitqs) e.(event_wait_q).
Proof.
  intros Hok Hc Hi Hk. unfold k_event_wait_internal. destruct (ev =? 0); [done|]. cbv zeta.
  set (e1 := if negb _ then _ else e).
  assert (Hok1 : event_ok e1 k /\ e1.(event_wait_q) = e.(event_wait_q)).
  { unfold e1. destruct (negb _); [|done]. split; [|done]. destruct Hok as [Hs Hw]. split; [done|]. intros x Hx.
    split; [apply received_none|by apply Hw]. }
  destruct Hok1 as [Hok1 Hwq]. set (rv := are_wait_conditions_met _ _ _).
  destruct (Z.eqb_spec rv 0) as [Hrv|Hrv]; simpl negb; cbn iota.
  - destruct (Z.eqb_spec timeout K_NO_WAIT) as [Ht|Ht]; [by rewrite Hrv|].
    destruct Hok1 as [Hs Hw]. set (k1 := on_thread _ _ k).
    assert (Hs1 : sys_ok k1) by (apply invisible_sys; [done|intros th; split; [by split|done]]).
    destruct (pend_waits Hdl Hmi k1 e1.(event_wait_q) timeout Hs1) as (k2 & -> & [W1 W2 W3 W4 W5 _ _]); [tauto|done|].
    change (current k1) with k.(current) in *.
    assert (Ec : cur k1 = set_event_options options (set_events ev (cur k))) by (by unfold cur, k1; rewrite thr_eq).
    assert (Hq : forall x, x ∈ k2.(waitqs) e1.(event_wait_q) <-> x = k.(current) \/ x ∈ k.(waitqs) e1.(event_wait_q)).
    { intros x. rewrite W2, elem_of_add. done. }
    assert (Hnew : received e1.(event_bits) (thr k2 k.(current)) = 0).
    { rewrite W4, Ec. unfold received. cbn [event_options events set_swap_retval set_pended_on set_event_options set_events]. exact Hrv. }
    assert (Hkill : killed (thr k2 k.(current)) = false).
    { rewrite W4, Ec. revert Hk. rewrite !killed_bits. generalize (cur k). intros th. bit_cases. }
    split; [|split; [done|split; [done|split; [by rewrite W4, Ec|split; [by rewrite W4, Ec|by rewrite <- Hwq]]]]].
    split; [done|]. intros x Hx. destruct (decide (x = k.(current))) as [->|Hne]; [done|].
    apply Hq in Hx as [?|Hx]; [done|]. rewrite W5 by done. unfold k1. rewrite thr_ne by done. by apply Hw.
  - destruct (negb (options .& K_EVENT_OPTION_CLEAR =? 0)); [|done]. split; [|done].
    destruct Hok1 as [Hs Hw]. split; [done|]. intros x Hx. simpl. split; [apply received_mono|]; by apply Hw.
Qed.

(** ** Runs *)

(** The rest of the system queues nobody on the event object, does not change what
    its waiters wait for, and takes threads it kills off the queue. *)
Definition event_env (w : wqid) (k k' : kernel) : Prop :=
  env_step w k k' /\ forall x, x ∈ k'.(waitqs) w -> (thr k' x).(events) = (thr k x).(events) /\
    (thr k' x).(event_options) = (thr k x).(event_options) /\ killed (thr k' x) = false.

Inductive event_step : k_event * kernel -> k_event * kernel -> Prop :=
| es_post e k new mask prev e' k' : k_event_post_internal e new mask k = (prev, e', k') ->
    event_step (e, k) (e', k')
| es_wait e k ev options timeout o e' k' : k.(current) <> k.(idle_thread) ->
    k.(in_isr) = false \/ timeout = K_NO_WAIT -> killed (cur k) = false ->
    k_event_wait_internal e ev options timeout k = (o, e', k') -> event_step (e, k) (e', k')
| es_other e k k' : event_env e.(event_wait_q) k k' -> event_step (e, k) (e, k').

Lemma event_step_ok x y : event_step x y -> event_ok x.1 x.2 -> event_ok y.1 y.2.
Proof.
  intros [e k new mask prev e' k' E|e k ev options timeout o e' k' Hc Hi Hk E|e k k' [Henv Hx]] Hok; simpl in *.
  - pose proof (post_spec e new mask k Hok) as H. rewrite E in H. destruct H as [_ [H _ _ _]]. done.
  - pose proof (wait_spec e ev options timeout k Hok Hc Hi Hk) as H. rewrite E in H. apply H.
  - destruct Hok as [Hs Hw]. split; [by eapply env_sys|]. intros z Hin. destruct (Hx z Hin) as (E1 & E2 & E3).
    split; [|done]. unfold received. rewrite E1, E2. apply Hw. by apply Henv.
Qed.

Lemma event_run_ok x y : rtc event_step x y -> event_ok x.1 x.2 -> event_ok y.1 y.2.
Proof. induction 1 as [|x y z H1 _ IH]; [done|]. intros Hx. by eapply IH, event_step_ok. Qed.
End event.

(** C22. Event objects.  In every state that posts, sets, clears and waits of threads
    and interrupts lead to, interleaved with the rest of the system, nobody waits
    for events that are already there.  Posting returns the old bits under the
    mask and replaces them; every waiter whose condition (any or all of its events)
    the new bits meet is woken and its call returns the matching bits, every other
    waiter goes on waiting, and the bits the woken threads asked to clear are
    removed.  A wait returns the matching bits at once when there are any, clearing
    them if asked, and otherwise returns 0 or blocks. *)
Theorem event_no_missed_wakeup `{Cfg : Config} {RQ : RunQueue} {TB : TimeoutBackend} (e e' : k_event) (k k' : kernel) :
  CONFIG_SCHED_DEADLINE = false -> CONFIG_NUM_METAIRQ_PRIORITIES <= 0 ->
  event_ok e k -> rtc event_step (e, k) (e', k') ->
  event_ok e' k' /\
  (forall new mask, let '(prev, e2, k2) := k_event_post_internal e' new mask k' in
     prev = e'.(event_bits) .& mask /\ event_posted e' (posted e' new mask) k' e2 k2) /\
  (forall ev options timeout, in_thread k' -> killed (cur k') = false ->
     let '(o, e2, k2) := k_event_wait_internal e' ev options timeout k' in
     let e1 := if negb (options .& K_EVENT_OPTION_RESET =? 0) then set_event_bits 0 e' else e' in
     let rv := are_wait_conditions_met ev e1.(event_bits) (options .& K_EVENT_WAIT_MASK) in
     ev <> 0 ->
     if negb (rv =? 0) then
       o = Returns rv /\ k2 = k' /\ e2.(event_bits) =
         (if negb (options .& K_EVENT_OPTION_CLEAR =? 0) then e1.(event_bits) .& Z.lnot rv else e1.(event_bits))
     else if timeout =? K_NO_WAIT then o = Returns 0 /\ e2 = e1 /\ k2 = k'
     else o = Blocks /\ e2 = e1 /\
       forall x, x ∈ k2.(waitqs) e'.(event_wait_q) <-> x = k'.(current) \/ x ∈ k'.(waitqs) e'.(event_wait_q)).
Proof.
  intros Hdl Hmi Hok Hrun. pose proof (event_run_ok Hdl Hmi _ _ Hrun Hok) as Hok'. cbn [fst snd] in Hok'.
  split; [done|]. split; [intros; by apply post_spec|]. intros ev options timeout [Hisr Hc] Hk.
  pose proof (wait_spec Hdl Hmi e' ev options timeout k' Hok' Hc (or_introl Hisr) Hk) as H.
  destruct (k_event_wait_internal e' ev options timeout k') as [[o e2] k2]. destruct H as [_ H]. intros e1 rv Hne.
  rewrite (proj2 (Z.eqb_neq _ _) Hne) in H. cbv zeta in H. fold e1 in H. fold rv in H.
  destruct (negb (rv =? 0)); [done|]. destruct (timeout =? K_NO_WAIT); [done|].
  destruct H as (H1 & H2 & _ & _ & H3). done.
Qed.

(** ** A concrete run: thread 1 waits for events 1 and 2, then both are posted *)

#[local] Existing Instance example_config.
#[local] Existing Instance simple_RunQueue.
#[local] Existing Instance delta_list_backend.

Definition example_event : k_event := K_event 7%nat 1.
Definition event_waits := k_event_wait_all example_event 3 false K_FOREVER example_running.

Lemma event_waits_eq : k_event_wait_internal example_event 3 K_EVENT_WAIT_ALL K_FOREVER example_running =
  (event_waits.1.1, event_waits.1.2, event_waits.2).
Proof. unfold event_waits, k_event_wait_all. apply triple_eta. Qed.

Lemma example_event_ok : event_ok example_event example_running.
Proof. split; [apply example_running_ok|]. intros x Hx. vm_compute in Hx. by apply elem_of_nil in Hx. Qed.

Lemma event_waits_run : rtc event_step (example_event, example_running) (event_waits.1.2, event_waits.2).
Proof.
  apply rtc_once. apply es_wait with (4 := event_waits_eq); [vm_compute; discriminate|by left; vm_compute|vm_compute; reflexivity].
Qed.

Definition event_posts := k_event_post event_waits.1.2 2 event_waits.2.

Lemma event_posts_eq : k_event_post_internal event_waits.1.2 2 2 event_waits.2 =
  (event_posts.1.1, event_posts.1.2, event_posts.2).
Proof. unfold event_posts, k_event_post. apply triple_eta. Qed.

Lemma event_no_missed_wakeup_witness :
  event_waits.1.1 = Blocks /\ event_posts.1.2.(event_bits) = 3 /\ k_event_wait_resume (thr event_posts.2 1%nat) = 3.
Proof.
  destruct (event_no_missed_wakeup example_event event_waits.1.2 example_running event_waits.2 eq_refl ltac:(discriminate)
    example_event_ok event_waits_run) as (_ & H & _).
  specialize (H 2 2). rewrite event_posts_eq in H. destruct H as [_ [_ H1 H2 _]].
  split; [vm_compute; reflexivity|]. split; [rewrite H1; vm_compute; reflexivity|].
  assert (Hr : received (posted event_waits.1.2 2 2) (thr event_waits.2 1%nat) = 3) by (vm_compute; reflexivity).
  destruct (H2 1%nat) as [_ H3]; [vm_compute; left|rewrite Hr; discriminate|]. rewrite H3. exact Hr.
Defined.
