(* ===== verification/Timer.v ===== *)
(** Kernel timers, kernel/timer.c, and the announcement of ticks to the whole system.

    [system] is the scheduler's state with the timers, each at the address of its
    timeout; it holds the clock, so the loop of kernel/timeout.c runs on it, with the
    handlers of threads, of time slices and of timers.  The functions that users give to
    timers are a parameter. *)

From S2P Require Import Prelude Thread PriorityQ Timeout TimeoutList.
From S2P Require Import Sched SchedOk SchedSpec ThreadApi ThreadSpec SchedProps Blocking.
From stdpp Require Import gmap.

#[local] Open Scope Z_scope.

Record k_timer := K_timer {
  tm_wait_q : wqid;
  expiry_fn : option nat;
  stop_fn : option nat;
  period : Z;
  status : Z;
  tm_user_data : Z
}.
Definition set_status (v : Z) (tm : k_timer) : k_timer :=
  K_timer tm.(tm_wait_q) tm.(expiry_fn) tm.(stop_fn) tm.(period) v tm.(tm_user_data).
Definition set_period (v : Z) (tm : k_timer) : k_timer :=
  K_timer tm.(tm_wait_q) tm.(expiry_fn) tm.(stop_fn) v tm.(status) tm.(tm_user_data).
Definition set_tm_user_data (v : Z) (tm : k_timer) : k_timer :=
  K_timer tm.(tm_wait_q) tm.(expiry_fn) tm.(stop_fn) tm.(period) tm.(status) v.

Record system `{Cfg : Config} {RQ : RunQueue} {TB : TimeoutBackend} := System { kern : kernel; timers : toid -> k_timer }.

(** The handler of timers, and the largest tick an absolute timeout can name. *)
Definition FN_timer : nat := 3.
Definition K_TIMEOUT_ABS_TICKS (t : Z) : Z := Z_TICK_ABS (Z.max 0 (Z.min t (INT64_MAX - 1))).

Section timer.
Context `{Cfg : Config} {RQ : RunQueue} {TB : TimeoutBackend}.

#[export] Instance system_has_clock : HasClock system := {|
  clk_of := fun x => x.(kern).(clk);
  put_clk := fun c x => System _ _ _ (with_clk c x.(kern)) x.(timers);
  clk_put := fun c x => eq_refl
|}.

Definition on_kernel (f : kernel -> kernel) (x : system) : system := System _ _ _ (f x.(kern)) x.(timers).
Definition on_timer (t : toid) (f : k_timer -> k_timer) (x : system) : system :=
  System _ _ _ x.(kern) (upd t (f (x.(timers) t)) x.(timers)).
Definition on_clk (f : clock -> clock) (x : system) : system := put_clk (f (clk_of x)) x.

(** The functions of users that run on a timer, and the handlers of other timeouts. *)
Context (user_fn : nat -> toid -> system -> system).
Definition call (f : option nat) (t : toid) (x : system) : system :=
  match f with Some f => user_fn f t x | None => x end.

Definition z_timer_expiration_handler (t : toid) (x : system) : system :=
  if negb (z_is_inactive_timeout (clk_of x) t) || z_timeout_inflight_superseded (clk_of x) t then x else
  let timer := x.(timers) t in
  let x := if negb (timer.(period) =? K_NO_WAIT) && negb (timer.(period) =? K_FOREVER) then
             let next := K_TIMEOUT_ABS_TICKS (i64 (k_uptime_ticks (clk_of x) + timer.(period))) in
             on_clk (fun c => (z_add_timeout t FN_timer next c).2) x
           else x in
  let x := on_timer t (fun tm => set_status (u32 (tm.(status) + 1)) tm) x in
  let x := call (x.(timers) t).(expiry_fn) t x in
  match z_waitq_head (x.(timers) t).(tm_wait_q) x.(kern) with
  | Some thread => on_kernel (fun k => ready_thread thread (arch_thread_return_value_set thread 0 (unpend_thread_no_timeout thread k))) x
  | None => x
  end.

(** On one CPU aborting a timeout never answers -EAGAIN, so the retry loop runs its body once. *)
Definition z_timer_cleanup (t : toid) (x : system) : Z * system :=
  match z_waitq_head (x.(timers) t).(tm_wait_q) x.(kern) with
  | Some _ => (- EAGAIN, x)
  | None => (0, on_clk (fun c => (z_try_abort_timeout t c).2) x)
  end.
Definition k_timer_cleanup (t : toid) (x : system) : Z * system := z_timer_cleanup t x.

(** [z_init_timeout] gives the node of a timeout that is not queued the state it has in
    the queues of the model; the wait queue is the one named by the timer. *)
Definition k_timer_init (t : toid) (expiry stop : option nat) (x : system) : system :=
  let x := on_timer t (fun tm => K_timer tm.(tm_wait_q) expiry stop tm.(period) 0 tm.(tm_user_data)) x in
  let x := on_kernel (z_waitq_init (x.(timers) t).(tm_wait_q)) x in
  on_timer t (set_tm_user_data 0) x.

Definition k_timer_start (t : toid) (duration prd : Z) (x : system) : system :=
  if duration =? K_FOREVER then x else
  let x := on_clk (fun c => (z_try_abort_timeout t c).2) x in
  let x := on_timer t (fun tm => set_status 0 (set_period prd tm)) x in
  on_clk (fun c => (z_add_timeout t FN_timer duration c).2) x.

Definition k_timer_stop (t : toid) (x : system) : system :=
  let '(ret, c) := z_try_abort_timeout t (clk_of x) in
  let x := put_clk c x in
  if negb (ret =? 0) then x else
  let x := call (x.(timers) t).(stop_fn) t x in
  match z_unpend1_no_timeout (x.(timers) t).(tm_wait_q) x.(kern) with
  | (Some thread, k) => System _ _ _ (reschedule (z_ready_thread thread k)) x.(timers)
  | (None, k) => System _ _ _ k x.(timers)
  end.

Definition k_timer_status_get (t : toid) (x : system) : Z * system :=
  ((x.(timers) t).(status), on_timer t (set_status 0) x).

(** The end of [k_timer_status_sync], also for a caller that waited. *)
Definition k_timer_status_sync_resume (t : toid) (x : system) : Z * system :=
  ((x.(timers) t).(status), on_timer t (set_status 0) x).
Definition k_timer_status_sync (t : toid) (x : system) : outcome * system :=
  let result := (x.(timers) t).(status) in
  if (result =? 0) && negb (z_is_inactive_timeout (clk_of x) t) then
    match z_pend_curr (x.(timers) t).(tm_wait_q) K_FOREVER x.(kern) with
    | (Returns _, k) => let '(v, x') := k_timer_status_sync_resume t (System _ _ _ k x.(timers)) in (Returns v, x')
    | (o, k) => (o, System _ _ _ k x.(timers))
    end
  else let '(v, x') := k_timer_status_sync_resume t x in (Returns v, x').

Definition k_timer_expires_ticks (t : toid) (x : system) : Z := z_timeout_expires (clk_of x) t.
Definition k_timer_remaining_ticks (t : toid) (x : system) : Z := z_timeout_remaining (clk_of x) t.
Definition k_timer_user_data_set (t : toid) (v : Z) (x : system) : system := on_timer t (set_tm_user_data v) x.
Definition k_timer_user_data_get (t : toid) (x : system) : Z := (x.(timers) t).(tm_user_data).

(** The thread a timeout belongs to, and the call of a handler through its pointer. *)
Definition thread_of (to : toid) : tid := pred (Z.to_nat (to / 4)).
Definition run_handler (f : nat) (t : toid) (x : system) : system :=
  if (f =? FN_thread_timeout)%nat then on_kernel (z_thread_timeout (thread_of t)) x
  else if (f =? FN_slice_timeout)%nat then on_kernel slice_timeout x
  else if (f =? FN_timer)%nat then z_timer_expiration_handler t x
  else user_fn f t x.

End timer.
