(* ===== verification/TimerProps.v ===== *)
(** The announcement of ticks to threads and timers: what is due happens, when it is due. *)

From S2P Require Import Prelude Thread PriorityQ Timeout TimeoutList.
From S2P Require Import Sched SchedOk SchedSpec ThreadApi ThreadSpec SchedProps Blocking Timer.
From stdpp Require Import gmap.

#[local] Open Scope Z_scope.

Section effects.
Context `{Cfg : Config} {RQ : RunQueue} {TB : TimeoutBackend}.
Context (user_fn : nat -> toid -> system -> system) (Hroom : forall q, tq_room q).

(** ** What handlers do to the clock *)

(** Slices longer than a tick, that end before the end of time. *)
Definition slices_fit (horizon : Z) (k : kernel) : Prop :=
  k.(slice_ticks) = 0 \/ 2 <= k.(slice_ticks) /\ horizon + k.(slice_ticks) <= MAX_TICK.

(** A handler is running, not later than [horizon]. *)
Definition handling (horizon : Z) (x : system) : Prop :=
  (exists m, clock_ok (clk_of x) m) /\ (clk_of x).(announcing_cpu) = CPU_ID /\ (clk_of x).(curr_tick) <= horizon /\
  horizon < MAX_TICK /\ slices_fit horizon x.(kern).

(** Nothing but timeouts in [P] is touched, and no slice is changed. *)
Record touches (P : toid -> Prop) (k k' : kernel) : Prop := {
  to_calls : timeout_calls P k.(clk) k'.(clk);
  to_slice : k'.(slice_ticks) = k.(slice_ticks)
}.
Definition slice_only : toid -> Prop := fun y => y = SLICE_TIMEOUT.

Lemma touches_same P k k' : k'.(clk) = k.(clk) -> k'.(slice_ticks) = k.(slice_ticks) -> touches P k k'.
Proof. intros E1 E2. split; [|done]. rewrite E1. apply rtc_refl. Qed.
Lemma touches_trans P k1 k2 k3 : touches P k1 k2 -> touches P k2 k3 -> touches P k1 k3.
Proof. intros [A1 A2] [B1 B2]. split; [by etrans|congruence]. Qed.

Lemma announcing_due s timeout : s.(announcing_cpu) = CPU_ID -> 0 <= timeout -> due_tick s timeout = s.(curr_tick) + timeout.
Proof.
  intros Ha Ht. unfold due_tick, Z_IS_TIMEOUT_RELATIVE, elapsed, this_cpu_announcing. rewrite Ha, Z.eqb_refl, (proj2 (Z.leb_le _ _) Ht). lia.
Qed.

Lemma slice_reset_touches n k m horizon : clock_ok k.(clk) m -> k.(clk).(announcing_cpu) = CPU_ID -> k.(clk).(curr_tick) <= horizon ->
  n = 0 \/ 2 <= n /\ horizon + n <= MAX_TICK -> touches slice_only k (slice_reset n k).
Proof.
  intros Hok Ha Hc Hn. destruct (abort_ok k.(clk) m SLICE_TIMEOUT Hok) as (_ & Hok1 & (E1 & _ & E3 & _) & _).
  unfold slice_reset. set (c1 := (z_try_abort_timeout SLICE_TIMEOUT k.(clk)).2) in *.
  assert (S1 : timeout_calls slice_only k.(clk) c1) by (apply rtc_once; by apply call_abort).
  destruct (Z.eqb_spec n 0) as [->|Hne]; cbn [negb]; [by split|]. destruct Hn as [|[Hn Hm]]; [done|]. split; [|done]. cbn [with_clk with_slice_expired clk slice_expired].
  pose proof (tq_ok_expiries _ _ _ (proj1 Hok)) as (H0 & _).
  set (delay := if slice_expired k then n - 1 else n) in *. assert (Hd : 1 <= delay <= n) by (unfold delay; case_match; lia).
  eapply rtc_r; [exact S1|]. apply call_add; [done| |done|apply Hroom|].
  - rewrite (inactive_spec _ _ _ Hok1). by rewrite bool_decide_eq_true, lookup_delete.
  - split; [unfold K_FOREVER, K_TICKS_FOREVER; lia|]. unfold MAX_TICK, INT64_MAX in *. split; [lia|]. rewrite announcing_due by (congruence || lia). lia.
Qed.

Lemma next_up_same k : (next_up k).2.(clk) = k.(clk) /\ (next_up k).2.(slice_ticks) = k.(slice_ticks).
Proof. unfold next_up, metairq_preempt_recover. by repeat (case_match; simplify_eq/=). Qed.

Lemma slice_size_cases t k : z_time_slice_size t k = 0 \/ z_time_slice_size t k = k.(slice_ticks).
Proof. unfold z_time_slice_size. repeat case_match; auto. Qed.

Lemma update_cache_touches b k m horizon : clock_ok k.(clk) m -> k.(clk).(announcing_cpu) = CPU_ID -> k.(clk).(curr_tick) <= horizon ->
  slices_fit horizon k -> touches slice_only k (update_cache b k).
Proof.
  intros Hok Ha Hc Hf. unfold update_cache. destruct (next_up_same k) as [E1 E2]. destruct (next_up k) as [t k1]. cbn [snd] in E1, E2.
  destruct (should_preempt t b k1); [|by apply touches_same]. eapply (touches_trans _ _ k1); [by apply touches_same|].
  set (k2 := if _ && _ then _ else _). eapply (touches_trans _ _ k2).
  - unfold k2. destruct (_ && _); [|by apply touches_same]. unfold z_time_slice_reset.
    apply (slice_reset_touches _ _ m horizon); rewrite ?E1; try done. destruct (slice_size_cases t k1) as [->| ->]; [by left|]. by rewrite E2.
  - unfold update_metairq_preempt. repeat case_match; by apply touches_same.
Qed.

Lemma ready_touches t k m horizon : clock_ok k.(clk) m -> k.(clk).(announcing_cpu) = CPU_ID -> k.(clk).(curr_tick) <= horizon ->
  slices_fit horizon k -> touches slice_only k (ready_thread t k).
Proof.
  intros. unfold ready_thread. destruct (_ && _); [|by apply touches_same].
  eapply (touches_trans _ _ (queue_thread t k)); [by apply touches_same|]. by apply (update_cache_touches _ _ m horizon).
Qed.

Lemma unpend_same t k : (unpend_thread_no_timeout t k).(clk) = k.(clk) /\ (unpend_thread_no_timeout t k).(slice_ticks) = k.(slice_ticks).
Proof. unfold unpend_thread_no_timeout. by case_match. Qed.

Lemma wake_touches t k m horizon : clock_ok k.(clk) m -> k.(clk).(announcing_cpu) = CPU_ID -> k.(clk).(curr_tick) <= horizon ->
  slices_fit horizon k -> touches slice_only k (z_thread_timeout t k).
Proof.
  intros Hok Ha Hc Hf. unfold z_thread_timeout, z_sched_wake_thread_locked. destruct (negb _); [|by apply touches_same].
  destruct (is_set _ _); [by apply touches_same|]. set (k1 := match _ with Some _ => _ | None => _ end).
  assert (E : k1.(clk) = k.(clk) /\ k1.(slice_ticks) = k.(slice_ticks)) by (unfold k1; case_match; [apply unpend_same|done]). destruct E as [E1 E2].
  eapply (touches_trans _ _ (on_thread t z_mark_thread_as_not_sleeping k1)); [by apply touches_same|].
  apply (ready_touches _ _ m horizon); simpl; rewrite ?E1; try done. unfold slices_fit in *. simpl. by rewrite E2.
Qed.

(** ** Systems in which a timeout is spared *)

(** Every timeout but [τ] may have been touched, the timer at [τ] is as it was. *)
Record spared (τ : toid) (x x' : system) : Prop := {
  sd_touches : touches (fun y => y <> τ) x.(kern) x'.(kern);
  sd_timer : x'.(timers) τ = x.(timers) τ
}.

(** The users' functions spare [τ]. *)
Definition spares (τ : toid) (horizon : Z) : Prop := forall f t x, handling horizon x -> spared τ x (user_fn f t x).

Lemma spared_trans τ x1 x2 x3 : spared τ x1 x2 -> spared τ x2 x3 -> spared τ x1 x3.
Proof. intros [A1 A2] [B1 B2]. split; [by eapply touches_trans|congruence]. Qed.

Lemma spared_handling τ horizon x x' : handling horizon x -> spared τ x x' -> handling horizon x'.
Proof.
  intros ((m & Hok) & H2 & H3 & H4 & H5) [[T1 T2] _]. destruct (calls_effect _ _ _ _ T1 Hok) as (m' & Hok' & (E1 & E2 & E3) & _).
  split; [by exists m'|]. split; [exact (eq_trans E3 H2)|]. split; [exact (Z.le_trans _ _ _ (Z.eq_le_incl _ _ E1) H3)|]. split; [done|]. unfold slices_fit in *. by rewrite T2.
Qed.

Lemma spared_kernel τ x f : τ <> SLICE_TIMEOUT -> touches slice_only x.(kern) (f x.(kern)) -> spared τ x (on_kernel f x).
Proof. intros Hne [T1 T2]. split; [|done]. split; [|done]. eapply calls_weaken; [|exact T1]. intros y Hy. cbv beta. rewrite Hy. by apply not_eq_sym. Qed.

Lemma spared_user τ horizon f t x : spares τ horizon -> handling horizon x -> spared τ x (call user_fn f t x).
Proof. intros Hs Hh. destruct f; [by apply Hs|]. split; [|done]. by apply touches_same. Qed.

Lemma spared_wake τ horizon w x : τ <> SLICE_TIMEOUT -> handling horizon x ->
  spared τ x (match z_waitq_head w x.(kern) with
    | Some thread => on_kernel (fun k => ready_thread thread (arch_thread_return_value_set thread 0 (unpend_thread_no_timeout thread k))) x
    | None => x end).
Proof.
  intros Hne ((m & Hok) & H2 & H3 & H4 & H5). destruct (z_waitq_head w x.(kern)) as [t|]; [|split; [by apply touches_same|done]].
  apply spared_kernel; [done|]. destruct (unpend_same t x.(kern)) as [E1 E2].
  eapply (touches_trans _ _ (arch_thread_return_value_set t 0 (unpend_thread_no_timeout t (kern x)))); [by apply touches_same|].
  apply (ready_touches _ _ m horizon); change (clk (arch_thread_return_value_set t 0 ?k)) with (clk k); rewrite ?E1; try done.
  unfold slices_fit in *. change (slice_ticks (arch_thread_return_value_set t 0 ?k)) with (slice_ticks k). by rewrite E2.
Qed.

(** An absolute time that a timer asks for is within range. *)
Lemma abs_delay_ok s v : 0 <= s.(curr_tick) < MAX_TICK -> delay_ok s (K_TIMEOUT_ABS_TICKS v) /\
  due_tick s (K_TIMEOUT_ABS_TICKS v) = Z.max (s.(curr_tick) + 1) (Z.max 0 (Z.min v MAX_TICK)).
Proof.
  intros Hc. assert (E : due_tick s (K_TIMEOUT_ABS_TICKS v) = Z.max (s.(curr_tick) + 1) (Z.max 0 (Z.min v MAX_TICK))).
  { unfold due_tick, K_TIMEOUT_ABS_TICKS, Z_IS_TIMEOUT_RELATIVE, Z_TICK_ABS, K_TICKS_FOREVER, MAX_TICK in *.
    rewrite (proj2 (Z.leb_gt _ _)) by lia. lia. }
  split; [|done]. unfold delay_ok. rewrite E. unfold K_FOREVER, K_TIMEOUT_ABS_TICKS, Z_TICK_ABS, K_TICKS_FOREVER, MAX_TICK, INT64_MAX in *. lia.
Qed.

Lemma uptime_announcing s m : clock_ok s m -> s.(announcing_cpu) = CPU_ID -> s.(curr_tick) <= MAX_TICK -> k_uptime_ticks s = s.(curr_tick).
Proof.
  intros Hok Ha Hm. assert (E : elapsed s = 0) by (unfold elapsed, this_cpu_announcing; by rewrite Ha).
  unfold k_uptime_ticks. rewrite (tick_get_ok s m); rewrite ?E; try done; lia.
Qed.

(** ** The handlers *)

Lemma add_touches P t f v x m horizon : P t -> t <> NULL -> handling horizon x -> clock_ok (clk_of x) m -> m !! t = None ->
  touches P x.(kern) (on_clk (fun c => (z_add_timeout t f (K_TIMEOUT_ABS_TICKS v) c).2) x).(kern).
Proof.
  intros HP Hn (_ & Ha & Hc & Hh & _) Hok Hm. split; [|done]. apply rtc_once. apply call_add; try done.
  - rewrite (inactive_spec _ _ _ Hok). by apply bool_decide_eq_true.
  - pose proof (tq_ok_expiries _ _ _ (proj1 Hok)) as (H0 & _). apply abs_delay_ok. cbn [clk_of system_has_clock] in *. lia.
Qed.

Definition periodic (p : Z) : bool := negb (p =? K_NO_WAIT) && negb (p =? K_FOREVER).
Definition period_fits (horizon p : Z) : Prop := periodic p = true -> 0 < p /\ horizon + p <= MAX_TICK.

(** The two parts of the handler: arming the timer again, and what follows. *)
Definition rearmed (τ : toid) (x : system) : system :=
  if periodic (x.(timers) τ).(period)
  then on_clk (fun c => (z_add_timeout τ FN_timer (K_TIMEOUT_ABS_TICKS (i64 (k_uptime_ticks (clk_of x) + (x.(timers) τ).(period)))) c).2) x
  else x.
Definition woken_up (τ : toid) (x : system) : system :=
  let x := call user_fn (x.(timers) τ).(expiry_fn) τ x in
  match z_waitq_head (x.(timers) τ).(tm_wait_q) x.(kern) with
  | Some thread => on_kernel (fun k => ready_thread thread (arch_thread_return_value_set thread 0 (unpend_thread_no_timeout thread k))) x
  | None => x
  end.
Definition counted (τ : toid) : system -> system := on_timer τ (fun tm => set_status (u32 (tm.(status) + 1)) tm).

Lemma woken_up_spared τ horizon t x : τ <> SLICE_TIMEOUT -> spares τ horizon -> handling horizon x -> spared τ x (woken_up t x).
Proof.
  intros Hsl Hs Hh. unfold woken_up. cbv zeta. set (x1 := call _ _ _ _). pose proof (spared_user τ horizon (x.(timers) t).(expiry_fn) t x Hs Hh) as S1. fold x1 in S1.
  eapply spared_trans; [exact S1|]. apply (spared_wake τ horizon); [done|]. by apply (spared_handling _ _ _ _ Hh S1).
Qed.

(** Either the handler was overtaken, or it does its parts. *)
Lemma handler_cases t x m : clock_ok (clk_of x) m -> z_timer_expiration_handler user_fn t x = x \/
  m !! t = None /\ z_timer_expiration_handler user_fn t x = woken_up t (counted t (rearmed t x)).
Proof.
  intros Hok. unfold z_timer_expiration_handler. destruct (negb _ || _) eqn:Eb; [by left|right]. apply orb_false_iff in Eb as [Eb _].
  by rewrite (inactive_spec _ _ _ Hok), negb_false_iff, bool_decide_eq_true in Eb.
Qed.

Lemma rearmed_touches P horizon t x m : P t -> t <> NULL -> handling horizon x -> clock_ok (clk_of x) m -> m !! t = None ->
  touches P x.(kern) (counted t (rearmed t x)).(kern).
Proof. intros HP Hn Hh Hok Hm. unfold rearmed. destruct (periodic _); [by apply (add_touches _ t FN_timer _ x m horizon)|by apply touches_same]. Qed.

Lemma timer_handler_spared τ horizon t x : τ <> SLICE_TIMEOUT -> t <> τ -> t <> NULL -> spares τ horizon -> handling horizon x ->
  spared τ x (z_timer_expiration_handler user_fn t x).
Proof.
  intros Hsl Hne Hn Hs Hh. pose proof Hh as ((m & Hok) & _). destruct (handler_cases t x m Hok) as [->|[Hm ->]]; [by split; [apply touches_same|]|].
  assert (S1 : spared τ x (counted t (rearmed t x))).
  { split; [by apply (rearmed_touches _ horizon t x m)|]. simpl. rewrite upd_ne by congruence. unfold rearmed. by case_match. }
  eapply spared_trans; [exact S1|]. apply (woken_up_spared τ horizon); [done..|]. by apply (spared_handling _ _ _ _ Hh S1).
Qed.

Lemma handler_spared τ horizon f t x : τ <> SLICE_TIMEOUT -> t <> τ -> t <> NULL -> spares τ horizon -> handling horizon x ->
  spared τ x (run_handler user_fn f t x).
Proof.
  intros Hsl Hne Hn Hs Hh. pose proof Hh as ((m & Hok) & H2 & H3 & H4 & H5). unfold run_handler. repeat case_match.
  - apply spared_kernel; [done|]. by apply (wake_touches _ _ m horizon).
  - split; [by apply touches_same|done].
  - by apply (timer_handler_spared τ horizon).
  - by apply Hs.
Qed.

Lemma handler_parts τ x m : clock_ok (clk_of x) m -> m !! τ = None -> Z.even τ = true -> (clk_of x).(inflight_timeout) = τ ->
  z_timer_expiration_handler user_fn τ x = woken_up τ (counted τ (rearmed τ x)).
Proof.
  intros Hok Hm Hev Hin. unfold z_timer_expiration_handler. rewrite (inactive_spec _ _ _ Hok), bool_decide_eq_true_2 by done.
  by rewrite (not_superseded _ _ Hev Hin).
Qed.

Lemma rearmed_ok τ horizon x m : τ <> NULL -> handling horizon x -> period_fits horizon (x.(timers) τ).(period) ->
  clock_ok (clk_of x) m -> m !! τ = None -> let p := (x.(timers) τ).(period) in let x' := rearmed τ x in
  clock_ok (clk_of x') (if periodic p then <[τ := (clk_of x).(curr_tick) + p]> m else m) /\ same_tick (clk_of x) (clk_of x') /\
  x'.(kern).(slice_ticks) = x.(kern).(slice_ticks) /\ x'.(timers) = x.(timers) /\ (periodic p = true -> (clk_of x').(fn) τ = FN_timer).
Proof.
  intros Hn (_ & Ha & Hc & Hmax & _) Hp Hok Hm p. unfold rearmed. fold p in Hp |- *. destruct (periodic p) eqn:Ep; [|done]. destruct (Hp Ep) as [Hp0 Hp1].
  pose proof (tq_ok_expiries _ _ _ (proj1 Hok)) as (H0 & _). rewrite (uptime_announcing _ _ Hok Ha) by lia. unfold MAX_TICK, INT64_MAX in *.
  rewrite i64_small by lia. destruct (abs_delay_ok (clk_of x) ((clk_of x).(curr_tick) + p)) as [Hd E]; [unfold MAX_TICK, INT64_MAX; lia|].
  destruct (add_ok (clk_of x) m τ FN_timer _ Hok Hm Hn (Hroom _) Hd) as (Hok' & (E1 & E2 & E3 & _) & _). rewrite E in Hok'.
  replace (Z.max _ _) with ((clk_of x).(curr_tick) + p) in Hok' by (unfold MAX_TICK, INT64_MAX; lia). cbv zeta. split; [exact Hok'|]. split; [done|].
  split; [done|]. split; [done|]. intros _. apply add_fn_eq. by destruct Hd.
Qed.

(** The timer's own handler: a periodic timer is due again one period later. *)
Lemma own_handler τ horizon x m : τ <> SLICE_TIMEOUT -> τ <> NULL -> Z.even τ = true -> spares τ horizon -> handling horizon x ->
  period_fits horizon (x.(timers) τ).(period) -> clock_ok (clk_of x) m -> m !! τ = None -> (clk_of x).(inflight_timeout) = τ ->
  let p := (x.(timers) τ).(period) in let x' := z_timer_expiration_handler user_fn τ x in
  exists m', clock_ok (clk_of x') m' /\ same_tick (clk_of x) (clk_of x') /\ x'.(kern).(slice_ticks) = x.(kern).(slice_ticks) /\
    x'.(timers) τ = set_status (u32 ((x.(timers) τ).(status) + 1)) (x.(timers) τ) /\
    m' !! τ = (if periodic p then Some ((clk_of x).(curr_tick) + p) else None) /\ (periodic p = true -> (clk_of x').(fn) τ = FN_timer) /\
    (forall y e, m' !! y = Some e -> m !! y = Some e \/ (clk_of x).(curr_tick) < e).
Proof.
  intros Hsl Hn Hev Hs Hh Hp Hok Hm Hin p x'. unfold x'. rewrite (handler_parts τ x m) by done.
  destruct (rearmed_ok τ horizon x m Hn Hh Hp Hok Hm) as (R1 & (R2 & R3 & R4) & R5 & R6 & R7). fold p in R1, R7.
  set (x2 := counted τ (rearmed τ x)). assert (Hh2 : handling horizon x2).
  { destruct Hh as (_ & Ha & Hc & Hmax & Hf). split; [eexists; exact R1|]. split; [exact (eq_trans R4 Ha)|].
    split; [exact (Z.le_trans _ _ _ (Z.eq_le_incl _ _ R2) Hc)|]. split; [done|]. unfold slices_fit in *. change (slice_ticks (kern x2)) with (slice_ticks (kern (rearmed τ x))). by rewrite R5. }
  destruct (woken_up_spared τ horizon τ x2 Hsl Hs Hh2) as [[T1 T2] T3]. destruct (calls_effect _ _ _ _ T1 R1) as (m' & Hok' & (E1 & E2 & E3) & Hsub & Hsame).
  exists m'. split; [done|]. split; [exact (conj (eq_trans E1 R2) (conj (eq_trans E2 R3) (eq_trans E3 R4)))|]. split; [exact (eq_trans T2 R5)|].
  assert (Et : x2.(timers) τ = set_status (u32 ((x.(timers) τ).(status) + 1)) (x.(timers) τ)) by (unfold x2; simpl; by rewrite upd_eq, R6).
  split; [by rewrite T3, Et|]. rewrite Hsame by naive_solver. split; [destruct (periodic p); [by rewrite lookup_insert_eq|done]|]. split.
  - intros Hper. etrans; [apply (calls_fn _ _ _ τ T1); naive_solver|by apply R7].
  - intros y e Hy. destruct (Hsub y e Hy) as [H|H]; [|right; by rewrite <- R2]. destruct (periodic p) eqn:Ep; [|by left].
    apply lookup_insert_Some in H as [[<- <-]|[_ H]]; [right; destruct (Hp Ep); lia|by left].
Qed.

(** ** A timer on schedule *)

Definition upcoming (e p : Z) (n : nat) : option Z :=
  if periodic p then Some (e + p * Z.of_nat n) else if decide (n = 0%nat) then Some e else None.
Definition expiries (τ : toid) (e p : Z) (n : nat) : list (toid * Z) := map (fun i => (τ, e + p * Z.of_nat i)) (seq 0 n).
Definition of_timer (τ : toid) (tr : list (toid * Z)) : list (toid * Z) := filter (fun q => q.1 = τ) tr.

(** The part of the invariant that does not depend on what is observed. *)
Record in_time (horizon : Z) (x : system) : Prop := {
  it_ahead : 0 <= (clk_of x).(announce_remaining) /\ (clk_of x).(curr_tick) + (clk_of x).(announce_remaining) <= horizon;
  it_slices : slices_fit horizon x.(kern)
}.

(** [tm] is the timer before the announcement, [e] the time it was due then. *)
Record on_schedule (τ : toid) (horizon e : Z) (tm : k_timer) (x : system) (m : gmap toid Z) (tr : trace) : Prop := {
  os_time : in_time horizon x;
  os_count : exists n, of_timer τ tr = expiries τ e tm.(period) n /\ x.(timers) τ = set_status (u32 (tm.(status) + Z.of_nat n)) tm /\
    m !! τ = upcoming e tm.(period) n /\ (periodic tm.(period) = false -> (n <= 1)%nat) /\
    ((0 < n)%nat -> e + tm.(period) * (Z.of_nat n - 1) <= (clk_of x).(curr_tick));
  os_handler : is_Some (m !! τ) -> (clk_of x).(fn) τ = FN_timer
}.

Lemma in_time_handling horizon x m t q : horizon < MAX_TICK -> in_time horizon x -> clock_ok (clk_of (popped t q x)) m ->
  (clk_of x).(announcing_cpu) = CPU_ID -> handling horizon (popped t q x).
Proof.
  intros Hh [[H1 H2] H3] Hok Ha. split; [by exists m|]. split; [exact Ha|]. split; [|done].
  change ((clk_of x).(curr_tick) <= horizon). lia.
Qed.

Lemma in_time_kept horizon x x' : in_time horizon x -> same_tick (clk_of x) (clk_of x') -> x'.(kern).(slice_ticks) = x.(kern).(slice_ticks) -> in_time horizon x'.
Proof.
  intros [H1 H2] (E1 & E2 & _) E. split; [|unfold slices_fit in *; by rewrite E].
  rewrite E1, E2. exact H1.
Qed.

Lemma in_time_advanced horizon x dt : in_time horizon x -> 0 < dt <= (clk_of x).(announce_remaining) ->
  (clk_of (advanced dt x)).(curr_tick) = (clk_of x).(curr_tick) + dt ->
  (clk_of (advanced dt x)).(announce_remaining) = (clk_of x).(announce_remaining) - dt -> in_time horizon (advanced dt x).
Proof. intros [H1 H2] Hdt E1 E2. split; [|exact H2]. rewrite E1, E2. split; [lia|]. destruct H1 as [_ H1]. etrans; [|exact H1]. lia. Qed.

Lemma expiries_snoc τ e p n : expiries τ e p (S n) = expiries τ e p n ++ [(τ, e + p * Z.of_nat n)].
Proof. unfold expiries. by rewrite seq_S, map_app. Qed.

Lemma status_step tm n : set_status (u32 ((set_status (u32 (tm.(status) + Z.of_nat n)) tm).(status) + 1)) (set_status (u32 (tm.(status) + Z.of_nat n)) tm) =
  set_status (u32 (tm.(status) + Z.of_nat (S n))) tm.
Proof. unfold set_status. simpl. f_equal. unfold u32. rewrite Zplus_mod_idemp_l. f_equal. lia. Qed.

(** Another timeout fires. *)
Lemma other_fires τ horizon x m t q : τ <> SLICE_TIMEOUT -> t <> τ -> spares τ horizon -> horizon < MAX_TICK -> in_time horizon x ->
  clock_ok (clk_of x) m -> (clk_of x).(announcing_cpu) = CPU_ID -> m !! t = Some (clk_of x).(curr_tick) -> clock_ok (clk_of (popped t q x)) (delete t m) ->
  let x' := fired (run_handler user_fn) t q x in
  exists m', clock_ok (clk_of x') m' /\ same_tick (clk_of x) (clk_of x') /\ in_time horizon x' /\ x'.(timers) τ = x.(timers) τ /\
    m' !! τ = m !! τ /\ (clk_of x').(fn) τ = (clk_of x).(fn) τ /\ (size (due_now (clk_of x).(curr_tick) m') < size (due_now (clk_of x).(curr_tick) m))%nat.
Proof.
  intros Hsl Hne Hs Hh Hin Hok Ha Ht Hok1 x'. pose proof (in_time_handling _ _ _ t q Hh Hin Hok1 Ha) as Hh1.
  assert (Hn : t <> NULL) by (destruct (tq_ok_expiries _ _ _ (proj1 Hok)) as (_ & Hx & _); by destruct (Hx _ _ Ht)).
  destruct (handler_spared τ horizon ((clk_of x).(fn) t) t (popped t q x) Hsl Hne Hn Hs Hh1) as [[T1 T2] T3].
  destruct (calls_effect _ _ _ _ T1 Hok1) as (m' & Hok' & Hst & Hsub & Hsame). exists m'. split; [exact Hok'|]. split; [exact Hst|].
  split; [by apply (in_time_kept _ x)|]. split; [exact T3|]. split; [rewrite Hsame by naive_solver; by rewrite lookup_delete_ne|].
  split; [apply (calls_fn _ _ _ τ T1); naive_solver|]. apply (due_shrinks _ m t); [done|]. exact Hsub.
Qed.

Lemma schedule_inv τ horizon e tm : τ <> SLICE_TIMEOUT -> τ <> NULL -> Z.even τ = true -> spares τ horizon -> horizon < MAX_TICK ->
  period_fits horizon tm.(period) -> AnnounceInv (run_handler user_fn) (on_schedule τ horizon e tm) (fun now m => size (due_now now m)).
Proof.
  intros Hsl Hnu Hev Hs Hh Hp. split.
  - intros x m tr dt [J1 (n & J2 & J3 & J4 & J5 & J6) J7] _ Hdt E1 E2. split; [by apply in_time_advanced| |exact J7]. exists n. do 4 (split; [done|]).
    rewrite E1. intros Hn. specialize (J6 Hn). lia.
  - intros x m tr t q [J1 (n & J2 & J3 & J4 & J5 & J6) J7] Hok Ha Ht Hok1. destruct (decide (t = τ)) as [->|Hne].
    + pose proof (in_time_handling _ _ _ τ q Hh J1 Hok1 Ha) as Hh1. set (x1 := popped τ q x) in *. specialize (J7 ltac:(eauto)).
      assert (Hp1 : period_fits horizon (timers x1 τ).(period)) by (change (timers x1) with (timers x); by rewrite J3).
      destruct (own_handler τ horizon x1 _ Hsl Hnu Hev Hs Hh1 Hp1 Hok1 ltac:(by rewrite lookup_delete_eq) eq_refl) as (m' & H1 & H2 & H3 & H4 & H5 & H6 & H7).
      change (timers x1) with (timers x) in *. rewrite J3 in H4, H5, H6. rewrite status_step in H4. cbn [set_status period] in H5, H6.
      change (curr_tick (clk_of x1)) with (curr_tick (clk_of x)) in *. rewrite J4 in Ht.
      assert (Ef : fired (run_handler user_fn) τ q x = put_clk (set_inflight_timeout NULL (clk_of (z_timer_expiration_handler user_fn τ x1))) (z_timer_expiration_handler user_fn τ x1))
        by (unfold fired; by rewrite J7). rewrite Ef. set (x2 := z_timer_expiration_handler user_fn τ x1) in *.
      assert (En : e + tm.(period) * Z.of_nat n = (clk_of x).(curr_tick)) by (unfold upcoming in Ht; destruct (periodic _); [congruence|]; case_decide; [|done]; subst n; simplify_eq; lia).
      exists m'. split; [exact H1|]. split; [|split; [exact H2|]]. 2: { apply (due_shrinks _ m τ); [by rewrite J4|exact H7]. }
      split; [by apply (in_time_kept _ x)| |].
      * exists (S n). unfold of_timer in *. rewrite filter_app, J2, expiries_snoc, En. split; [f_equal; by rewrite filter_cons_True, filter_nil|]. split; [exact H4|].
        split; [rewrite H5; unfold upcoming; destruct (periodic _); [f_equal; lia|done]|]. split; [|intros _; change (curr_tick (clk_of (put_clk _ _))) with (curr_tick (clk_of x2)); rewrite (proj1 H2); replace (Z.of_nat (S n) - 1) with (Z.of_nat n) by lia; by apply Z.eq_le_incl].
        intros Hnp. unfold upcoming in Ht. rewrite Hnp in Ht. case_decide; [lia|done].
      * rewrite H5. destruct (periodic tm.(period)); [intros _; by apply H6|by intros []].
    + destruct (other_fires τ horizon x m t q) as (m' & H1 & H2 & H3 & H4 & H5 & H6 & H7); try done.
      exists m'. split; [done|]. split; [|done]. split; [done| |by rewrite H5, H6]. exists n. unfold of_timer in *. rewrite filter_app, filter_cons_False by done.
      rewrite filter_nil, app_nil_r, H4, H5, (proj1 H2). done.
Qed.

(** How often a timer due at [e] has expired at [now]. *)
Definition fire_count (e p now : Z) : nat := if now <? e then 0 else if periodic p then Z.to_nat ((now - e) / p + 1) else 1.

Lemma count_determined e p now n : (periodic p = true -> 0 < p) -> (periodic p = false -> (n <= 1)%nat) ->
  (forall u, upcoming e p n = Some u -> now < u) -> ((0 < n)%nat -> e + p * (Z.of_nat n - 1) <= now) -> n = fire_count e p now.
Proof.
  intros Hp Hn Hu Hl. unfold fire_count, upcoming in *. destruct (Z.ltb_spec now e).
  - destruct n as [|n]; [done|]. specialize (Hl ltac:(lia)). destruct (periodic p) eqn:Ep.
    + specialize (Hp eq_refl). nia.
    + specialize (Hn eq_refl). assert (n = 0%nat) as -> by lia. lia.
  - destruct (periodic p).
    + specialize (Hp eq_refl). specialize (Hu _ eq_refl). destruct n as [|n]; [lia|]. specialize (Hl ltac:(lia)).
      assert (E : (now - e) / p = Z.of_nat n); [|rewrite E; lia]. symmetry. apply (Z.div_unique _ _ _ (now - e - p * Z.of_nat n)); [left; nia|lia].
    + specialize (Hn eq_refl). case_decide; [subst n; specialize (Hu _ eq_refl); lia|lia].
Qed.

(** ** A thread that waits with a timeout *)

(** Nothing but sleeping or a wait queue keeps the thread from running. *)
Record only_waits (th : k_thread) : Prop := {
  ow_dummy : is_thread_dummy th = false;
  ow_dead : z_is_thread_dead th = false;
  ow_suspended : z_is_thread_suspended th = false;
  ow_aborting : z_is_thread_aborting th = false;
  ow_pended : z_is_thread_pending th = true -> th.(pended_on) <> None
}.
Definition gets_on (th th' : k_thread) : Prop :=
  only_waits th -> only_waits th' /\ (z_is_thread_ready th = true -> z_is_thread_ready th' = true).

#[global] Instance gets_on_pre : PreOrder gets_on.
Proof. split; [by intros th H|]. intros a b c H1 H2 H. destruct (H1 H) as [Hb R1]. destruct (H2 Hb) as [Hc R2]. auto. Qed.

Lemma only_waits_bits th : only_waits th <-> (Z.testbit th.(thread_state) 0 = false /\ Z.testbit th.(thread_state) 3 = false /\
  Z.testbit th.(thread_state) 4 = false /\ Z.testbit th.(thread_state) 5 = false /\ (Z.testbit th.(thread_state) 1 = true -> th.(pended_on) <> None)).
Proof.
  rewrite <- !is_set_bit by lia. split; [by intros []|]. intros (H1 & H2 & H3 & H4 & H5). by split.
Qed.

Ltac gets_on_bits := intros H%only_waits_bits; rewrite only_waits_bits; unfold released in *; state_bits;
  rewrite ?orb_false_r, ?andb_true_r, ?andb_false_r; simpl; split; [naive_solver|];
  repeat match goal with |- context [Z.testbit ?a ?b] => destruct (Z.testbit a b) end; done.

Lemma released_gets_on th : gets_on th (released th).
Proof. gets_on_bits. Qed.
Lemma queued_gets_on th : gets_on th (z_mark_thread_as_queued th).
Proof. gets_on_bits. Qed.
Lemma awake_gets_on th : gets_on th (z_mark_thread_as_not_sleeping th).
Proof. gets_on_bits. Qed.
Lemma retval_gets_on th v : gets_on th (set_swap_retval v th).
Proof. gets_on_bits. Qed.

Lemma on_thread_gets_on y t f k : (forall th, gets_on th (f th)) -> gets_on (thr k y) (thr (on_thread t f k) y).
Proof. intros Hf. rewrite thr_upd. case_decide as E; [by subst|reflexivity]. Qed.

Lemma ready_gets_on y t k : gets_on (thr k y) (thr (ready_thread t k) y).
Proof.
  unfold ready_thread. destruct (_ && _); [|reflexivity]. unfold thr. rewrite (sc_threads _ _ (proj1 (update_cache_frame _ _))).
  apply (on_thread_gets_on y t z_mark_thread_as_queued k), queued_gets_on.
Qed.

Lemma unpend_gets_on y t k : gets_on (thr k y) (thr (unpend_thread_no_timeout t k) y).
Proof.
  unfold unpend_thread_no_timeout. destruct (pended_on (thr k t)) as [w|]; [|reflexivity].
  destruct (decide (y = t)) as [->|Hne]; [rewrite !thr_eq; apply released_gets_on|by rewrite !thr_ne].
Qed.

Lemma timeout_gets_on y t k : gets_on (thr k y) (thr (z_thread_timeout t k) y).
Proof.
  unfold z_thread_timeout, z_sched_wake_thread_locked. destruct (negb _); [|reflexivity]. destruct (is_set _ _); [reflexivity|].
  etrans; [|apply ready_gets_on]. etrans; [|apply on_thread_gets_on, awake_gets_on]. case_match; [apply unpend_gets_on|reflexivity].
Qed.

(** The users' functions do not stop [y] either. *)
Definition lets_on (y : tid) (horizon : Z) : Prop := forall f t x, handling horizon x -> gets_on (thr x.(kern) y) (thr (user_fn f t x).(kern) y).

Lemma woken_up_gets_on y horizon t x : lets_on y horizon -> handling horizon x -> gets_on (thr x.(kern) y) (thr (woken_up t x).(kern) y).
Proof.
  intros Hl Hh. unfold woken_up. cbv zeta. etrans; [|instantiate (1 := thr (call user_fn (expiry_fn (timers x t)) t x).(kern) y)].
  - destruct (expiry_fn _); [by apply Hl|reflexivity].
  - set (x1 := call _ _ _ _). destruct (z_waitq_head _ _) as [z|]; [|reflexivity]. simpl. etrans; [|apply ready_gets_on].
    etrans; [|apply on_thread_gets_on; intros; apply retval_gets_on]. apply unpend_gets_on.
Qed.

Lemma handler_gets_on y horizon f t x : t <> NULL -> spares (thread_timeout y) horizon -> lets_on y horizon -> handling horizon x ->
  gets_on (thr x.(kern) y) (thr (run_handler user_fn f t x).(kern) y).
Proof.
  intros Hn Hs Hl Hh. unfold run_handler. repeat case_match; [apply timeout_gets_on|reflexivity| |by apply Hl].
  pose proof Hh as ((m & Hok) & Ha & Hc & Hmax & Hf). destruct (handler_cases t x m Hok) as [->|[Hm ->]]; [reflexivity|].
  assert (E : thr (counted t (rearmed t x)).(kern) y = thr x.(kern) y) by (unfold rearmed; by case_match). rewrite <- E.
  apply (woken_up_gets_on y horizon); [done|]. destruct (rearmed_touches (fun _ => True) horizon t x m I Hn Hh Hok Hm) as [T1 T2].
  destruct (calls_effect _ _ _ _ T1 Hok) as (m' & Hok' & (E1 & E2 & E3) & _). split; [by exists m'|]. split; [exact (eq_trans E3 Ha)|].
  split; [exact (Z.le_trans _ _ _ (Z.eq_le_incl _ _ E1) Hc)|]. split; [done|]. unfold slices_fit in *. by rewrite T2.
Qed.

(** The timeout of a thread that only waits makes it ready. *)
Lemma timeout_readies y k : only_waits (thr k y) -> k.(clk).(inflight_timeout) = thread_timeout y -> z_is_thread_ready (thr (z_thread_timeout y k) y) = true.
Proof.
  intros Ho Hi. unfold z_thread_timeout. rewrite not_superseded; [|unfold thread_timeout; by rewrite Z.even_mul|done]. cbn [negb].
  unfold z_sched_wake_thread_locked. pose proof (proj1 (only_waits_bits _) Ho) as (B0 & B3 & B4 & B5 & B1).
  rewrite is_set_lor. unfold _THREAD_DEAD, _THREAD_ABORTING. rewrite !is_set_bit, B3, B5 by lia. cbn [orb].
  set (k1 := match _ with Some _ => _ | None => _ end). set (k2 := on_thread y z_mark_thread_as_not_sleeping k1).
  assert (Hr : z_is_thread_ready (thr k2 y) = true); [|apply (ready_gets_on y y k2); [|done]].
  - unfold k2. rewrite thr_eq. assert (E : thr k1 y = released (thr k y) \/ thr k1 y = thr k y /\ pended_on (thr k y) = None).
    { unfold k1. destruct (pended_on (thr k y)) eqn:Ep; [left; by eapply unpend_thread|by right]. }
    destruct E as [->|[-> Ep]]; unfold released; state_bits; rewrite ?andb_true_r, ?andb_false_r, ?B0, ?B3, ?B4; simpl; [done|].
    destruct (Z.testbit _ 1); [by destruct B1|done].
  - unfold k2. apply (on_thread_gets_on y y _ k1 awake_gets_on). unfold k1. destruct (pended_on (thr k y)); [by apply (unpend_gets_on y y k)|done].
Qed.

Record wakes_in_time (y : tid) (horizon e : Z) (x : system) (m : gmap toid Z) (tr : trace) : Prop := {
  wi_time : in_time horizon x;
  wi_waits : only_waits (thr x.(kern) y);
  wi_state : m !! thread_timeout y = Some e /\ (clk_of x).(fn) (thread_timeout y) = FN_thread_timeout /\ thread_timeout y ∉ tr.*1 \/
    m !! thread_timeout y = None /\ (thread_timeout y, e) ∈ tr /\ e <= (clk_of x).(curr_tick) /\ z_is_thread_ready (thr x.(kern) y) = true
}.

Lemma thread_timeout_of y : thread_of (thread_timeout y) = y /\ thread_timeout y <> SLICE_TIMEOUT /\ thread_timeout y <> NULL.
Proof.
  unfold thread_of, thread_timeout, SLICE_TIMEOUT, NULL. replace (4 * Z.of_nat (S y) / 4) with (Z.of_nat (S y)) by (rewrite Z.mul_comm, Z.div_mul; lia).
  rewrite Nat2Z.id. split; [done|]. lia.
Qed.

Lemma wake_inv y horizon e : spares (thread_timeout y) horizon -> lets_on y horizon -> horizon < MAX_TICK ->
  AnnounceInv (run_handler user_fn) (wakes_in_time y horizon e) (fun now m => size (due_now now m)).
Proof.
  intros Hs Hl Hh. destruct (thread_timeout_of y) as (Et & Hsl & Hnu). split.
  - intros x m tr dt [J1 J2 J3] _ Hdt E1 E2. split; [by apply in_time_advanced|exact J2|]. destruct J3 as [J3|(H1 & H2 & H3 & H4)]; [by left|right].
    split; [done|]. split; [done|]. split; [rewrite E1; lia|done].
  - intros x m tr t q [J1 J2 J3] Hok Ha Ht Hok1. pose proof (in_time_handling _ _ _ t q Hh J1 Hok1 Ha) as Hh1.
    assert (Hn : t <> NULL) by (destruct (tq_ok_expiries _ _ _ (proj1 Hok)) as (_ & Hx & _); by destruct (Hx _ _ Ht)).
    destruct (handler_gets_on y horizon ((clk_of x).(fn) t) t (popped t q x) Hn Hs Hl Hh1 J2) as [J2' Hr].
    destruct (decide (t = thread_timeout y)) as [->|Hne].
    + destruct J3 as [(Hm & Hfn & Htr)|[Hm _]]; [|congruence]. assert (e = (clk_of x).(curr_tick)) as -> by congruence. rewrite Hfn in J2'.
      pose proof Hh1 as (_ & A1 & A2 & _ & A4). pose proof (wake_touches y (popped (thread_timeout y) q x).(kern) _ horizon Hok1 A1 A2 A4) as [T1 T2].
      destruct (calls_effect _ _ _ _ T1 Hok1) as (m' & Hok' & Hst & Hsub & Hsame). set (x1 := popped (thread_timeout y) q x) in *.
      assert (Ek : (fired (run_handler user_fn) (thread_timeout y) q x).(kern) = with_clk (set_inflight_timeout NULL (clk (z_thread_timeout y (kern x1)))) (z_thread_timeout y (kern x1))).
      { unfold fired. rewrite Hfn. unfold run_handler. simpl. by rewrite Et. }
      exists m'. cbn [clk_of system_has_clock]. rewrite Ek. split; [exact Hok'|]. split; [split|].
      * apply (in_time_kept _ x); [done| |]; cbn [clk_of system_has_clock]; rewrite Ek; [exact Hst|exact T2].
      * rewrite Ek. unfold run_handler in J2'. simpl in J2'. by rewrite Et in J2'.
      * right. rewrite Hsame by (unfold slice_only; congruence). rewrite lookup_delete_eq. split; [done|]. split; [set_solver +|]. cbn [clk_of system_has_clock]. rewrite Ek.
        split; [exact (Z.eq_le_incl _ _ (eq_sym (proj1 Hst)))|]. by apply (timeout_readies y (kern x1)).
      * split; [exact Hst|]. apply (due_shrinks _ m (thread_timeout y)); [done|exact Hsub].
    + destruct (other_fires (thread_timeout y) horizon x m t q) as (m' & H1 & H2 & H3 & _ & H5 & H6 & H7); try done.
      exists m'. split; [done|]. split; [|done]. split; [done|exact J2'|]. rewrite H5, H6. destruct J3 as [(Hm & Hfn & Htr)|(Hm & Hin & Hle & Hrd)].
      * left. split; [done|]. split; [done|]. rewrite fmap_app. set_solver.
      * right. split; [done|]. split; [set_solver|]. split; [by rewrite (proj1 H2)|]. by apply Hr.
Qed.

(** ** The properties *)

Context (Hdl : CONFIG_SCHED_DEADLINE = false) (Hmi : CONFIG_NUM_METAIRQ_PRIORITIES <= 0).


(** C6. A thread that sleeps or waits with a timeout runs again in time: when an announcement
    reaches the tick at which its timeout is due, the timeout fires at that tick and the
    thread is ready at the end.  If the announcement ends earlier, the timeout is
    pending still. *)
Theorem waiters_wake_on_time (x : system) (m : gmap toid Z) (y : tid) (ticks e : Z) :
  let now := (clk_of x).(curr_tick) + ticks in
  clock_ok (clk_of x) m -> (clk_of x).(announcing_cpu) = -1 -> 0 <= ticks < 2 ^ 32 -> now < MAX_TICK ->
  m !! thread_timeout y = Some e -> (clk_of x).(fn) (thread_timeout y) = FN_thread_timeout -> only_waits (thr x.(kern) y) ->
  slices_fit now x.(kern) -> spares (thread_timeout y) now -> lets_on y now ->
  exists N x' m' tr, (forall fuel, (N <= fuel)%nat -> sys_clock_announce_locked (run_handler user_fn) fuel ticks x = Some (x', tr)) /\
    (clk_of x').(curr_tick) = now /\ clock_ok (clk_of x') m' /\
    if decide (e <= now) then (thread_timeout y, e) ∈ tr /\ z_is_thread_ready (thr x'.(kern) y) = true
    else m' !! thread_timeout y = Some e /\ thread_timeout y ∉ tr.*1.
Proof.
  intros now Hok Ha Ht Hmax Hm Hfn Ho Hf Hs Hl. pose proof (wake_inv y now e Hs Hl Hmax) as HI.
  destruct (announce_inv _ HI x m ticks Hok Ha Ht ltac:(lia)) as (N & x' & m' & tr & HN & Hok' & A1 & A2 & A3 & Hnb & _ & [J1 J2 J3]).
  { split; [split; [|exact Hf]|exact Ho|left; split; [done|split; [done|apply not_elem_of_nil]]].
    change (0 <= ticks /\ (clk_of x).(curr_tick) + ticks <= now). lia. }
  exists N, (announce_end x'), m', tr. split; [done|]. split; [done|]. split; [done|].
  destruct J3 as [(Hm' & _ & Htr)|(_ & Hin & Hle & Hr)].
  - rewrite decide_False; [done|]. specialize (Hnb _ _ Hm'). lia.
  - rewrite decide_True by (fold now in A3; lia). done.
Qed.

Lemma delay_same s s' d : same_time s s' -> delay_ok s d -> delay_ok s' d /\ due_tick s' d = due_tick s d.
Proof.
  intros (E1 & _ & E3 & E4) (H1 & H2 & H3). assert (E : due_tick s' d = due_tick s d)
    by (unfold due_tick, elapsed, this_cpu_announcing, sys_clock_elapsed; by rewrite E1, E3, E4).
  split; [|done]. split; [done|]. split; [done|]. by rewrite E, E1.
Qed.

Lemma start_ok x m t d prd : clock_ok (clk_of x) m -> t <> NULL -> delay_ok (clk_of x) d ->
  let x' := k_timer_start t d prd x in
  clock_ok (clk_of x') (<[t := due_tick (clk_of x) d]> m) /\ (clk_of x').(fn) t = FN_timer /\
  x'.(timers) = upd t (set_status 0 (set_period prd (x.(timers) t))) x.(timers) /\ same_core x.(kern) x'.(kern) /\ same_cpu x.(kern) x'.(kern).
Proof.
  intros Hok Hn Hd. pose proof Hd as (Hf & _). cbv zeta. unfold k_timer_start. rewrite (proj2 (Z.eqb_neq _ _) Hf).
  destruct (abort_ok (clk_of x) m t Hok) as (_ & Hok1 & Hst & _). destruct (delay_same _ _ d Hst Hd) as [Hd1 Ed].
  destruct (add_ok _ _ t FN_timer d Hok1 (lookup_delete_eq _ _) Hn (Hroom _) Hd1) as (Hok2 & _ & _). rewrite Ed, insert_delete_eq in Hok2.
  split; [exact Hok2|]. split; [by apply add_fn_eq|]. split; [done|]. split; by split.
Qed.

(** The first waiter of a timer leaves, with [f] applied to it. *)
Lemma waiter_leaves k w t r : sys_ok k -> k.(waitqs) w = t :: r ->
  passed w t r (fun th => th) k (reschedule (ready_thread t (unpend_thread_no_timeout t k))) /\
  (k.(in_isr) = true -> passed w t r (set_swap_retval 0) k (ready_thread t (arch_thread_return_value_set t 0 (unpend_thread_no_timeout t k)))).
Proof.
  intros Hok Hw. pose proof (proj1 (proj1 Hok)) as Hcore. destruct (waitq_head _ _ _ _ _ Hcore Hw) as [Hp _].
  pose proof (detached_unpend k t w Hcore Hp) as HD. pose proof (pended_not_idle _ _ _ _ Hcore Hp) as Hi. pose proof (unpend_thread k t w Hp) as Et. split.
  - by apply (unpend_passed Hdl Hmi).
  - intros Hisr. set (k1 := arch_thread_return_value_set t 0 (unpend_thread_no_timeout t k)).
    assert (HD1 : detached w t k k1) by (apply detached_set; [done|done|apply quiet_retval]).
    assert (P : passed w t r (set_swap_retval 0) k (reschedule (ready_thread t k1))) by (apply (unpend_passed Hdl Hmi); [done..|]; unfold k1, arch_thread_return_value_set; by rewrite thr_eq, Et).
    rewrite reschedule_in_isr in P; [done|]. by rewrite (cpu_isr _ _ (wk_cpu _ _ _ _ _ (detached_wakes Hdl Hmi _ _ _ _ HD1 Hi))).
Qed.

Lemma with_clk_sys c k : sys_ok k -> sys_ok (with_clk c k).
Proof. intros [[H1 H2] H3]. split; [|exact H3]. split; [|exact H2]. by apply (core_frame nobody k); [split|]. Qed.

Lemma stop_ok x m t : clock_ok (clk_of x) m -> sys_ok x.(kern) -> (x.(timers) t).(stop_fn) = None ->
  let x' := k_timer_stop user_fn t x in let w := (x.(timers) t).(tm_wait_q) in
  exists c, clock_ok c (delete t m) /\ x'.(timers) = x.(timers) /\
    match m !! t, x.(kern).(waitqs) w with
    | Some _, y :: r => passed w y r (fun th => th) (with_clk c x.(kern)) x'.(kern)
    | _, _ => x'.(kern) = with_clk c x.(kern)
    end.
Proof.
  intros Hok Hsys Hst. cbv zeta. unfold k_timer_stop. destruct (abort_ok (clk_of x) m t Hok) as (Er & Hok1 & _). destruct (z_try_abort_timeout t (clk_of x)) as [ret c]. cbn [fst snd] in *.
  exists c. split; [done|]. destruct (m !! t) as [e|]; [rewrite decide_False in Er by done|rewrite decide_True in Er by done]; subst ret; cbn [negb Z.eqb Z.opp]; [|done].
  change (timers (put_clk c x)) with (timers x). rewrite Hst. cbn [call]. unfold z_unpend1_no_timeout, _priq_wait_best, z_priq_simple_best.
  change (waitqs (kern (put_clk c x))) with (waitqs (kern x)). destruct (waitqs (kern x) _) as [|y r] eqn:Hw; [done|]. cbn [head]. split; [done|].
  by apply (waiter_leaves (with_clk c x.(kern)) _ y r (with_clk_sys c _ Hsys) Hw).
Qed.

Lemma expiry_ok x m t : clock_ok (clk_of x) m -> sys_ok x.(kern) -> x.(kern).(in_isr) = true -> m !! t = None -> Z.even t = true ->
  (clk_of x).(inflight_timeout) = t -> (x.(timers) t).(expiry_fn) = None ->
  let x' := z_timer_expiration_handler user_fn t x in let w := (x.(timers) t).(tm_wait_q) in
  x'.(timers) = upd t (set_status (u32 ((x.(timers) t).(status) + 1)) (x.(timers) t)) x.(timers) /\
  exists c, match x.(kern).(waitqs) w with
            | [] => x'.(kern) = with_clk c x.(kern)
            | y :: r => passed w y r (set_swap_retval 0) (with_clk c x.(kern)) x'.(kern)
            end.
Proof.
  intros Hok Hsys Hisr Hm Hev Hin He. cbv zeta. rewrite (handler_parts t x m) by done.
  assert (Er : timers (rearmed t x) = timers x /\ exists c, kern (rearmed t x) = with_clk c (kern x)).
  { unfold rearmed. case_match; [split; [done|]; by eexists|]. split; [done|]. exists (clk_of x). by destruct x as [[]]. }
  destruct Er as (E1 & c & E2). set (tm := set_status (u32 (status (timers x t) + 1)) (timers x t)). set (x1 := counted t (rearmed t x)).
  assert (F1 : timers x1 = upd t tm (timers x)) by (unfold x1, counted; simpl; by rewrite E1). assert (F2 : kern x1 = with_clk c (kern x)) by done. clearbody x1.
  assert (F3 : timers x1 t = tm) by (by rewrite F1, upd_eq). unfold woken_up. cbv zeta. rewrite F3. change (expiry_fn tm) with (expiry_fn (timers x t)). rewrite He. cbn [call].
  rewrite F3, F2. change (tm_wait_q tm) with (tm_wait_q (timers x t)). unfold z_waitq_head. change (waitqs (with_clk c (kern x))) with (waitqs (kern x)).
  destruct (waitqs (kern x) _) as [|y r] eqn:Hw; cbn [head]; [split; [done|by exists c]|]. split; [done|]. exists c. cbn [on_kernel kern]. rewrite F2.
  by apply (waiter_leaves (with_clk c x.(kern)) _ y r (with_clk_sys c _ Hsys) Hw).
Qed.


End effects.

(** ** Concrete runs *)

#[local] Existing Instance example_config.
#[local] Existing Instance simple_RunQueue.
#[local] Existing Instance delta_list_backend.

Definition no_user (f : nat) (t : toid) (x : system) : system := x.
Definition example_system : system := System _ _ _ example_kernel (fun _ => K_timer 7%nat None None 0 0 0).

Lemma example_room (q : tq) : tq_room q.
Proof. exact I. Qed.
Lemma no_user_spares τ horizon : spares no_user τ horizon.
Proof. intros f t x _. split; [by apply touches_same|done]. Qed.
Lemma no_user_lets_on y horizon : lets_on no_user y horizon.
Proof. intros f t x _. reflexivity. Qed.

Lemma example_clock_ok : clock_ok (clk_of example_system) ∅.
Proof.
  split; [|split].
  - split; [|done]. split; [done|]. split; [constructor|]. repeat constructor; set_solver.
  - left. split; [done|]. by intros ? ?.
  - done.
Qed.

Lemma example_delay d : 0 <= d < 1000 -> delay_ok (clk_of example_system) d /\ due_tick (clk_of example_system) d = d + 1.
Proof.
  intros Hd. assert (E : due_tick (clk_of example_system) d = d + 1).
  { unfold due_tick, Z_IS_TIMEOUT_RELATIVE. rewrite (proj2 (Z.leb_le _ _)) by lia. change (curr_tick (clk_of example_system)) with 0.
    change (elapsed (clk_of example_system)) with 0. change (this_cpu_announcing (clk_of example_system)) with false. cbv iota. lia. }
  split; [|done]. split; [unfold K_FOREVER, K_TICKS_FOREVER; lia|]. split; [lia|]. rewrite E. change (curr_tick (clk_of example_system)) with 0. unfold MAX_TICK, INT64_MAX. lia.
Qed.

Definition example_timer_running : system := k_timer_start 1000 5 3 example_system.


(** Thread 1 sleeps for 5 ticks. *)
Definition example_sleeping : system := on_kernel (fun k => (z_add_thread_timeout 1%nat 5 k).2) example_system.

Lemma waiters_wake_on_time_witness : exists N x' tr,
  (forall fuel, (N <= fuel)%nat -> sys_clock_announce_locked (run_handler no_user) fuel 20 example_sleeping = Some (x', tr)) /\
  (thread_timeout 1%nat, 6) ∈ tr /\ z_is_thread_ready (thr x'.(kern) 1%nat) = true.
Proof.
  destruct (add_ok (clk_of example_system) ∅ (thread_timeout 1%nat) FN_thread_timeout 5 example_clock_ok eq_refl ltac:(discriminate) I
    (proj1 (example_delay 5 ltac:(lia)))) as (H1 & _). rewrite (proj2 (example_delay 5 ltac:(lia))) in H1.
  assert (P1 : slices_fit 20 (kern example_sleeping)) by (left; vm_compute; reflexivity).
  assert (P2 : only_waits (thr (kern example_sleeping) 1%nat)) by (split; vm_compute; [reflexivity..|discriminate]).
  destruct (waiters_wake_on_time no_user example_room example_sleeping _ 1%nat 20 6 H1 eq_refl ltac:(lia) ltac:(vm_compute; reflexivity) eq_refl eq_refl P2 P1
    (no_user_spares _ _) (no_user_lets_on _ _)) as (N & x' & m' & tr & HN & _ & _ & H). exists N, x', tr. split; [exact HN|]. exact H.
Defined.

