(* ===== verification/KHeap.v ===== *)
(** Heaps of the kernel: kernel/kheap.c, a heap on which threads wait for memory, and
    kernel/mempool.c, [k_malloc] and its relatives.

    One heap is modelled with the memory of its buffer; [size_t] and pointers have 4
    bytes. *)

From S2P Require Import Prelude MathExtras Ring HeapMem Heap HeapInv HeapStep HeapList HeapCheck HeapOps HeapAlloc HeapRealloc HeapInit HeapProps.
From S2P Require Import Thread PriorityQ Timeout TimeoutList Sched SchedOk SchedSpec ThreadApi ThreadSpec SchedProps Blocking.

#[local] Open Scope Z_scope.

Definition memset (dst v n : Z) (m : memory) : memory :=
  fun x => if decide (dst <= x < dst + n) then u8 v else m x.

(** ** kheap.c *)

Record k_heap := K_heap { kh_wait_q : wqid; kh_heap : z_heap }.

(** How far a call came that may have to wait for memory: it returns a pointer, or it
    was switched out and tries again when it runs, with the timeout that it computed, or
    the kernel panicked. *)
Inductive round := Done (ret : Z) | Again (timeout : Z) | Panicked.

Section kheap.
Context `{HC : HeapConfig} `{Cfg : Config} {RQ : RunQueue} {TB : TimeoutBackend}.

Definition k_heap_init (w : wqid) (mem bytes random : Z) (m : memory) (k : kernel) : option (k_heap * kernel) :=
  z ← sys_heap_init mem bytes random m; Some (K_heap w z, z_waitq_init w k).

(** One round of the loops of [z_heap_alloc_helper] and [k_heap_realloc]: [attempt] is the
    allocation, [end_] the time at which the caller gives up.  [None] is a heap that is corrupt. *)
Definition alloc_round (attempt : z_heap -> option (Z * z_heap)) (timeout end_ : Z) (h : k_heap) (k : kernel) : option (round * k_heap * kernel) :=
  '(ret, z) ← attempt h.(kh_heap);
  let h := K_heap h.(kh_wait_q) z in
  if negb (ret =? 0) || (timeout =? K_NO_WAIT) then Some (Done ret, h, k)
  else
    let timeout := sys_timepoint_timeout k.(clk) end_ in
    match z_pend_curr h.(kh_wait_q) timeout k with
    | (Panics, k) => Some (Panicked, h, k)
    | (_, k) => Some (Again timeout, h, k)
    end.

Definition z_heap_alloc_helper (align bytes timeout : Z) (allocator : Z -> Z -> z_heap -> option (Z * z_heap)) (h : k_heap) (k : kernel) :
    option (round * k_heap * kernel) :=
  alloc_round (allocator align bytes) timeout (sys_timepoint_calc k.(clk) timeout) h k.
Definition k_heap_alloc (bytes timeout : Z) (h : k_heap) (k : kernel) : option (round * k_heap * kernel) :=
  z_heap_alloc_helper 0 bytes timeout sys_heap_noalign_alloc h k.
Definition k_heap_aligned_alloc (align bytes timeout : Z) (h : k_heap) (k : kernel) : option (round * k_heap * kernel) :=
  z_heap_alloc_helper align bytes timeout sys_heap_aligned_alloc h k.
Definition k_heap_realloc (ptr bytes timeout : Z) (h : k_heap) (k : kernel) : option (round * k_heap * kernel) :=
  alloc_round (sys_heap_realloc ptr bytes) timeout (sys_timepoint_calc k.(clk) timeout) h k.

(** The end of [k_heap_calloc], for a call that got memory at once or after waiting. *)
Definition k_heap_calloc_end (bounds : Z) (r : round) (h : k_heap) : k_heap :=
  match r with
  | Done ret => if negb (ret =? 0) then K_heap h.(kh_wait_q) (set_hmem (memset ret 0 bounds h.(kh_heap).(hmem)) h.(kh_heap)) else h
  | _ => h
  end.
Definition k_heap_calloc (num size timeout : Z) (h : k_heap) (k : kernel) : option (round * k_heap * kernel) :=
  let '(bounds, over) := size_mul_overflow 32 num size in
  if over then Some (Done 0, h, k)
  else '(r, h, k) ← k_heap_alloc bounds timeout h k; Some (r, k_heap_calloc_end bounds r h, k).

Definition k_heap_free (mem : Z) (h : k_heap) (k : kernel) : option (k_heap * kernel) :=
  z ← sys_heap_free mem h.(kh_heap);
  let '(n, k) := z_unpend_all h.(kh_wait_q) k in
  Some (K_heap h.(kh_wait_q) z, if negb (n =? 0) then reschedule k else k).

End kheap.

(** ** mempool.c *)

Section mempool.
Context `{HC : HeapConfig}.

(** [self] is the address of the [struct k_heap], which every block starts with. *)
Context (self : Z).
Definition sizeof_heap_ref : Z := 4.

Definition z_alloc_helper (align size : Z) (sys_heap_allocator : Z -> Z -> z_heap -> option (Z * z_heap)) (h : z_heap) : option (Z * z_heap) :=
  let '(size, over) := size_add_overflow 32 size sizeof_heap_ref in
  if over then Some (0, h) else
  let __align := align .| sizeof_heap_ref in
  '(mem, h) ← sys_heap_allocator __align size h;
  if mem =? 0 then Some (0, h) else Some (mem + sizeof_heap_ref, set_hmem (st 4 mem self h.(hmem)) h).

(** A reference to another heap leads out of the model. *)
Definition heap_of (ptr : Z) (h : z_heap) : option unit := if ld 4 h.(hmem) (ptr - sizeof_heap_ref) =? self then Some tt else None.
Definition k_free (ptr : Z) (h : z_heap) : option z_heap :=
  if negb (ptr =? 0) then _ ← heap_of ptr h; sys_heap_free (ptr - sizeof_heap_ref) h else Some h.
Definition k_aligned_alloc (align size : Z) (h : z_heap) : option (Z * z_heap) := z_alloc_helper align size sys_heap_aligned_alloc h.
Definition k_malloc (size : Z) (h : z_heap) : option (Z * z_heap) := z_alloc_helper 0 size sys_heap_noalign_alloc h.
Definition k_calloc (nmemb size : Z) (h : z_heap) : option (Z * z_heap) :=
  let '(bounds, over) := size_mul_overflow 32 nmemb size in
  if over then Some (0, h)
  else '(ret, h) ← k_malloc bounds h; Some (ret, if negb (ret =? 0) then set_hmem (memset ret 0 bounds h.(hmem)) h else h).
Definition k_realloc (ptr size : Z) (h : z_heap) : option (Z * z_heap) :=
  if size =? 0 then h ← k_free ptr h; Some (0, h)
  else if ptr =? 0 then k_malloc size h
  else
    _ ← heap_of ptr h;
    let '(size, over) := size_add_overflow 32 size sizeof_heap_ref in
    if over then Some (0, h)
    else '(ret, h) ← sys_heap_realloc (ptr - sizeof_heap_ref) size h; Some (if negb (ret =? 0) then ret + sizeof_heap_ref else ret, h).

(** The heap a thread allocates from; [pool] is what was assigned to it. *)
Definition z_thread_alloc_helper (in_isr : bool) (pool : option Z) (align size : Z) (sys_heap_allocator : Z -> Z -> z_heap -> option (Z * z_heap))
    (h : z_heap) : option (Z * z_heap) :=
  match (if in_isr then Some self else pool) with
  | Some heap => if heap =? self then z_alloc_helper align size sys_heap_allocator h else None
  | None => Some (0, h)
  end.
Definition z_thread_aligned_alloc (in_isr : bool) (pool : option Z) (align size : Z) (h : z_heap) : option (Z * z_heap) :=
  z_thread_alloc_helper in_isr pool align size sys_heap_aligned_alloc h.
Definition z_thread_malloc (in_isr : bool) (pool : option Z) (size : Z) (h : z_heap) : option (Z * z_heap) :=
  z_thread_alloc_helper in_isr pool 0 size sys_heap_noalign_alloc h.

End mempool.
