(* ===== verification/KHeapProps.v ===== *)
(** What the kernel's heaps promise: [k_malloc] and its relatives serve their users, and
    threads that wait for memory get another chance whenever some is freed. *)

From S2P Require Import Prelude MathExtras Ring HeapMem Heap HeapInv HeapStep HeapList HeapCheck HeapOps HeapAlloc HeapRealloc HeapInit HeapProps.
From S2P Require Import Thread PriorityQ Timeout TimeoutList Sched SchedOk SchedSpec ThreadApi ThreadSpec SchedProps Blocking KHeap.

#[local] Open Scope Z_scope.

(** ** The reference in front of a block *)

Fixpoint le (n : nat) (v : Z) : list Z := match n with O => [] | S n => u8 v :: le n (v .>> 8) end.

Lemma le_length n v : length (le n v) = n.
Proof. revert v. induction n as [|n IH]; intros v; [done|]. simpl. by rewrite IH. Qed.

Lemma bytes_st n a v m : bytes (st n a v m) a n = le n v.
Proof.
  revert a v m. induction n as [|n IH]; intros a v m; [done|]. rewrite bytes_S. cbn [st le]. f_equal; [|apply IH].
  rewrite st_ne by lia. apply upd_eq.
Qed.

Lemma ld_le n a v m : bytes m a n = le n v -> 0 <= v < 2 ^ (8 * Z.of_nat n) -> ld n m a = v.
Proof.
  intros E Hv. rewrite <- (ld_st_eq n a v m Hv). apply ld_ext. intros x Hx. rewrite <- (bytes_st n a v m) in E.
  assert (Hj : x = a + Z.of_nat (Z.to_nat (x - a))) by lia. rewrite Hj. set (j := Z.to_nat (x - a)) in *.
  pose proof (f_equal (fun l => l !! j) E) as El. cbv beta in El. rewrite !bytes_lookup in El by lia. by simplify_eq.
Qed.

Lemma memset_out d v n m x : ~ (d <= x < d + n) -> memset d v n m x = m x.
Proof. intros Hx. unfold memset. by rewrite decide_False. Qed.

Lemma bytes_memset d n m : bytes (memset d 0 (Z.of_nat n) m) d n = replicate n 0.
Proof.
  apply (list_eq_same_length _ _ n); [by rewrite length_replicate|by rewrite bytes_length|]. intros j x y Hj Hx Hy.
  rewrite bytes_lookup in Hx by done. rewrite lookup_replicate_2 in Hy by done. simplify_eq. unfold memset. by rewrite decide_True by lia.
Qed.

Section mempool.
Context `{HC : HeapConfig} (self : Z) (Hself : 0 <= self < 2 ^ 32).

(** ** Users of [k_malloc] *)

Inductive mrequest :=
| MMalloc (n : Z)
| MAligned (align n : Z)
| MCalloc (k n : Z)
| MFree (i : nat)
| MRealloc (i : nat) (n : Z)
| MWrite (i off : nat) (v : Z).

Definition mserve (r : mrequest) (h : z_heap) (U : list block) : option (z_heap * list block) :=
  match r with
  | MMalloc n => '(ptr, h) ← k_malloc self n h; Some (h, granted_block n ptr h.(hmem) U)
  | MAligned align n => '(ptr, h) ← k_aligned_alloc self align n h; Some (h, granted_block n ptr h.(hmem) U)
  | MCalloc k n => '(ptr, h) ← k_calloc self k n h; Some (h, granted_block (k * n) ptr h.(hmem) U)
  | MFree i => u ← U !! i; h ← k_free self u.(addr) h; Some (h, delete i U)
  | MRealloc i n => u ← U !! i; '(ptr, h) ← k_realloc self u.(addr) n h; Some (h, resized_blocks i u n ptr h.(hmem) U)
  | MWrite i off v =>
      u ← U !! i; Some (set_hmem (upd (u.(addr) + Z.of_nat off) v h.(hmem)) h, Block u.(addr) (<[off := v]> u.(data)) :: delete i U)
  end.

Definition mallowed (r : mrequest) (h : z_heap) (U : list block) : Prop :=
  match r with
  | MMalloc n => 0 <= n < 2 ^ 32
  | MAligned align n => 0 <= n < 2 ^ 32 /\ (align = 0 \/ exists k, 0 <= k < 32 /\ align = 2 ^ k) /\ h.(heap_base) + 8 * h.(end_chunk) + 12 <= 2 ^ 32
  | MCalloc k n => 0 <= k < 2 ^ 32 /\ 0 <= n < 2 ^ 32
  | MFree i => (i < length U)%nat
  | MRealloc i n => 0 <= n < 2 ^ 32 /\ exists u, U !! i = Some u /\ gap_exact h (u.(addr) - 4)
  | MWrite i off v => exists u, U !! i = Some u /\ (off < length u.(data))%nat
  end.

Inductive malloc_run (h0 : z_heap) : list mrequest -> z_heap -> list block -> Prop :=
| mrun_start : malloc_run h0 [] h0 []
| mrun_serve rs r h U h' U' : malloc_run h0 rs h U -> mallowed r h U -> mserve r h U = Some (h', U') -> malloc_run h0 (rs ++ [r]) h' U'.

(** The block of the heap behind the block of a user. *)
Definition wrap (u : block) : block := Block (u.(addr) - 4) (le 4 self ++ u.(data)).
Definition mrep (hz : z_heap) (c0 : chunk) (h : z_heap) (U : list block) : Prop := rep hz c0 h (map wrap U).

Lemma wrap_lookup U i u : U !! i = Some u -> map wrap U !! i = Some (wrap u).
Proof. intros H. by rewrite list_lookup_fmap, H. Qed.
Lemma wrap_delete U i : map wrap (delete i U) = delete i (map wrap U).
Proof. revert i. induction U as [|u U IH]; intros [|i]; try done. simpl. by rewrite IH. Qed.

Lemma rep_contents hz c0 h B i b : rep hz c0 h B -> B !! i = Some b -> bytes h.(hmem) b.(addr) (length b.(data)) = b.(data).
Proof.
  intros (_ & _ & cs & us & _ & _ & Hf) Hb. by destruct (held_block _ _ _ _ _ Hf Hb) as (p & s & us' & _ & _ & (_ & _ & Hd)).
Qed.

Lemma wrapped_ref hz c0 h U i u : mrep hz c0 h U -> U !! i = Some u -> heap_of self u.(addr) h = Some tt.
Proof.
  intros Hr Hu. pose proof (rep_contents _ _ _ _ _ _ Hr (wrap_lookup _ _ _ Hu)) as Hd. cbn [wrap addr data] in Hd.
  rewrite length_app, le_length, bytes_app in Hd. apply app_inj_1 in Hd as [Hd _]; [|by rewrite bytes_length, le_length].
  unfold heap_of, sizeof_heap_ref. rewrite (ld_le 4 _ self _ Hd) by done. by rewrite Z.eqb_refl.
Qed.

Lemma rep_positive hz c0 h B b : rep hz c0 h B -> b ∈ B -> 0 < b.(addr).
Proof.
  intros Hr Hb. destruct (proj1 (rep_sound _ _ _ _ Hr) b Hb) as [H _]. destruct Hr as (_ & _ & cs & us & Ho & _).
  pose proof (hf_base _ (iv_fits _ _ _ (ho_inv _ _ Ho))) as [? _]. lia.
Qed.

(** The reference is stored into the block that the heap granted. *)
Lemma referenced hz c0 h U mem n : mem <> 0 -> 0 <= n -> rep hz c0 h (granted_block (n + 4) mem h.(hmem) (map (wrap) U)) ->
  let h' := set_hmem (st 4 mem self h.(hmem)) h in mem + 4 <> 0 /\ mrep hz c0 h' (granted_block n (mem + 4) h'.(hmem) U).
Proof.
  intros Hm Hn Hr h'. unfold granted_block in Hr. destruct (Z.eqb_spec mem 0) as [|_]; [done|].
  pose proof (rep_positive _ _ _ _ _ Hr (list_elem_of_here _ _)) as Hp. cbn [addr] in Hp. split; [lia|].
  unfold granted_block. destruct (Z.eqb_spec (mem + 4) 0); [lia|].
  pose proof (stores_rep hz c0 h _ 0 _ (st 4 mem self h.(hmem)) Hr eq_refl) as H. cbn [addr data] in H. rewrite bytes_length in H.
  unfold mrep. cbn [map]. replace (wrap (Block (mem + 4) _)) with (Block mem (bytes (st 4 mem self h.(hmem)) mem (Z.to_nat (n + 4)))); [apply H; intros x Hx; apply st_ne; lia|].
  unfold wrap. cbn [addr data]. f_equal; [lia|]. replace (Z.to_nat (n + 4)) with (4 + Z.to_nat n)%nat by lia. by rewrite bytes_app, bytes_st.
Qed.

Lemma helper_rep hz c0 h U align n alloc : mrep hz c0 h U -> 0 <= n < 2 ^ 32 ->
  (n + 4 < 2 ^ 32 -> exists mem h1, alloc (align .| 4) (n + 4) h = Some (mem, h1) /\ rep hz c0 h1 (granted_block (n + 4) mem h1.(hmem) (map wrap U))) ->
  exists ptr h', z_alloc_helper self align n alloc h = Some (ptr, h') /\ mrep hz c0 h' (granted_block n ptr h'.(hmem) U) /\
    (ptr <> 0 -> n + 4 < 2 ^ 32 /\ exists h1, alloc (align .| 4) (n + 4) h = Some (ptr - 4, h1)).
Proof.
  intros Hr Hn Ha. unfold z_alloc_helper, size_add_overflow, sizeof_heap_ref. cbv zeta. rewrite add_overflow_spec by lia.
  destruct (Z.leb_spec (2 ^ 32) (n + 4)) as [Ho|Ho]; [by exists 0, h|]. rewrite Z.mod_small by lia. destruct (Ha ltac:(lia)) as (mem & h1 & E & Hr1). rewrite E. simpl.
  destruct (Z.eqb_spec mem 0) as [->|Hm]; [by exists 0, h1|]. destruct (referenced hz c0 h1 U mem n Hm ltac:(lia) Hr1) as [Hne Hr2].
  eexists (mem + 4), _. split; [done|]. split; [exact Hr2|]. intros _. split; [done|]. exists h1. by replace (mem + 4 - 4) with mem by lia.
Qed.

Lemma malloc_rep hz c0 h U n : mrep hz c0 h U -> 0 <= n < 2 ^ 32 ->
  exists ptr h', k_malloc self n h = Some (ptr, h') /\ mrep hz c0 h' (granted_block n ptr h'.(hmem) U) /\ (ptr <> 0 -> n + 4 < 2 ^ 32).
Proof.
  intros Hr Hn. destruct (helper_rep hz c0 h U 0 n sys_heap_noalign_alloc Hr Hn) as (ptr & h' & E & Hr' & Hp).
  - intros Hl. destruct (serve_ok hz c0 h _ (RAlloc (n + 4)) Hr) as (h1 & B1 & E & Hr1); [simpl; lia|]. cbn [serve] in E.
    unfold sys_heap_noalign_alloc. destruct (sys_heap_alloc (n + 4) h) as [[mem h2]|]; [|done]. simpl in E. simplify_eq. eauto.
  - exists ptr, h'. split; [done|]. split; [done|]. intros Hne. by destruct (Hp Hne).
Qed.

(** The alignment with the bit for the reference. *)
Lemma align_with_ref align : align = 0 \/ (exists k, 0 <= k < 32 /\ align = 2 ^ k) ->
  exists al rew, align_request (align .| 4) al rew /\ rew <= 4 /\ forall mem, align <> 0 -> (mem + rew) mod al = 0 -> (mem + 4) mod align = 0.
Proof.
  intros [->|(k & Hk & ->)].
  { exists 4, 0. split; [|split; [done|by intros]]. split; [done|]. right. left. exists 2. by repeat split. }
  assert (k = 0 \/ k = 1 \/ k = 2 \/ 3 <= k) as [->|[->|[->|H3]]] by lia.
  - exists 4, 1. split; [split; [done|]; do 2 right; exists 0, 2; by repeat split|]. split; [done|]. intros. apply Z.mod_1_r.
  - exists 4, 2. split; [split; [done|]; do 2 right; exists 1, 2; by repeat split|]. split; [done|]. intros mem _ H. change (2 ^ 1) with 2. Z.to_euclidean_division_equations. lia.
  - exists 4, 0. split; [split; [done|]; right; left; exists 2; by repeat split|]. split; [done|]. intros mem _ H. change (2 ^ 2) with 4. Z.to_euclidean_division_equations. lia.
  - assert (E : 2 ^ k .| 4 = 2 ^ k + 4).
    { assert (Hl : 2 ^ k .& 4 = 0). { apply Z.bits_inj'. intros i Hi. change 4 with (2 ^ 2). rewrite Z.land_spec, !Z.pow2_bits_eqb, Z.testbit_0_l by lia. lia. }
      by rewrite Z.add_nocarry_lxor, Z.lxor_lor. }
    assert (2 ^ k <= 2 ^ 31) by (apply Z.pow_le_mono_r; lia).
    exists (2 ^ k), 4. rewrite E. split; [split; [lia|]; do 2 right; exists 2, k; repeat split; lia|]. split; [done|]. by intros.
Qed.

Lemma aligned_rep hz c0 h U align n : mrep hz c0 h U -> mallowed (MAligned align n) h U ->
  exists ptr h', k_aligned_alloc self align n h = Some (ptr, h') /\ mrep hz c0 h' (granted_block n ptr h'.(hmem) U) /\ (ptr <> 0 -> align <> 0 -> ptr mod align = 0).
Proof.
  intros Hr (Hn & Hal & Htop). destruct (align_with_ref align Hal) as (al & rew & Hreq & Hrew & Hmod). pose proof Hr as (_ & _ & cs & us & Ho & _).
  destruct (helper_rep hz c0 h U align n sys_heap_aligned_alloc Hr Hn) as (ptr & h' & E & Hr' & Hp).
  - intros Hl. destruct (serve_ok hz c0 h _ (RAligned (align .| 4) (n + 4)) Hr) as (h1 & B1 & E & Hr1).
    { split; [lia|]. exists al, rew. split; [done|lia]. }
    cbn [serve] in E. destruct (sys_heap_aligned_alloc (align .| 4) (n + 4) h) as [[mem h2]|]; [|done]. simpl in E. simplify_eq. eauto.
  - exists ptr, h'. split; [done|]. split; [done|]. intros Hne Ha. destruct (Hp Hne) as (Hl & h1 & Ea).
    destruct (aligned_alloc_ok h cs (align .| 4) al rew (n + 4) Ho ltac:(lia) Hreq ltac:(lia)) as (mem & h2 & pad & E2 & _ & _ & Hg & Hm). rewrite E2 in Ea. simplify_eq.
    replace ptr with (ptr - 4 + 4) by lia. apply Hmod; [done|]. destruct Hm as [Hz|]; [|done]. exfalso.
    assert (Hb : Block ptr (bytes (hmem h') ptr (Z.to_nat n)) ∈ granted_block n ptr (hmem h') U) by (unfold granted_block; destruct (Z.eqb_spec ptr 0); [done|by left]).
    assert (Hb' : wrap (Block ptr (bytes (hmem h') ptr (Z.to_nat n))) ∈ map wrap (granted_block n ptr (hmem h') U)) by (by apply list_elem_of_fmap_2). pose proof (rep_positive _ _ _ _ _ Hr' Hb') as Hpos. cbn [wrap addr] in Hpos. lia.
Qed.

Lemma calloc_rep hz c0 h U k n : mrep hz c0 h U -> mallowed (MCalloc k n) h U ->
  exists ptr h', k_calloc self k n h = Some (ptr, h') /\ mrep hz c0 h' (granted_block (k * n) ptr h'.(hmem) U) /\
    (ptr <> 0 -> bytes h'.(hmem) ptr (Z.to_nat (k * n)) = replicate (Z.to_nat (k * n)) 0).
Proof.
  intros Hr [Hk Hn]. unfold k_calloc, size_mul_overflow. cbv zeta. rewrite mul_overflow_spec by lia.
  destruct (Z.leb_spec (2 ^ 32) (k * n)) as [Ho|Ho]; [by exists 0, h|]. rewrite Z.mod_small by nia. destruct (malloc_rep hz c0 h U (k * n) Hr ltac:(nia)) as (ptr & h1 & -> & Hr1 & _). simpl.
  destruct (Z.eqb_spec ptr 0) as [->|Hp]; [by exists 0, h1|]. cbn [negb]. eexists ptr, _. split; [done|]. cbn [hmem set_hmem]. set (m := memset ptr 0 (k * n) (hmem h1)).
  assert (Em : bytes m ptr (Z.to_nat (k * n)) = replicate (Z.to_nat (k * n)) 0) by (unfold m; replace (k * n) with (Z.of_nat (Z.to_nat (k * n))) at 1 by nia; apply bytes_memset).
  split; [|done]. unfold granted_block in *. destruct (Z.eqb_spec ptr 0) as [|_]; [done|]. unfold mrep in *. cbn [map] in Hr1 |- *.
  pose proof (stores_rep hz c0 h1 _ 0 _ m Hr1 eq_refl) as H. pose proof (rep_contents _ _ _ _ 0 _ Hr1 eq_refl) as Hd. cbn [wrap addr data delete list_delete] in H, Hd |- *.
  rewrite length_app, le_length, bytes_length, bytes_app in H, Hd. apply app_inj_1 in Hd as [Hd _]; [|by rewrite bytes_length, le_length].
  unfold wrap at 1. cbn [addr data]. replace (le 4 self ++ bytes m ptr (Z.to_nat (k * n))) with (bytes m (ptr - 4) 4 ++ bytes m (ptr - 4 + Z.of_nat 4) (Z.to_nat (k * n))).
  - apply H. intros x Hx. apply memset_out. lia.
  - f_equal; [|f_equal; lia]. rewrite <- Hd. apply bytes_ext. intros x Hx. apply memset_out. lia.
Qed.

Lemma user_positive hz c0 h U i u : mrep hz c0 h U -> U !! i = Some u -> (u.(addr) =? 0) = false.
Proof.
  intros Hr Hu. apply wrap_lookup, list_elem_of_lookup_2 in Hu. pose proof (rep_positive _ _ _ _ _ Hr Hu) as H. cbn [wrap addr] in H. lia.
Qed.

Lemma kfree_rep hz c0 h U i u : mrep hz c0 h U -> U !! i = Some u -> exists h', k_free self u.(addr) h = Some h' /\ mrep hz c0 h' (delete i U).
Proof.
  intros Hr Hu. unfold k_free, sizeof_heap_ref. rewrite (user_positive _ _ _ _ _ _ Hr Hu), (wrapped_ref _ _ _ _ _ _ Hr Hu). simpl.
  destruct (free_rep hz c0 h _ i _ Hr (wrap_lookup _ _ _ Hu)) as (h' & E & Hr'). exists h'. split; [exact E|]. unfold mrep. by rewrite wrap_delete.
Qed.

Lemma resized_wrap u n mem m : 0 <= n -> resized_block (wrap u) (n + 4) mem m = Block mem (le 4 self ++ (resized_block u n (mem + 4) m).(data)).
Proof.
  intros Hn. unfold resized_block, wrap. cbn [addr data]. rewrite length_app, le_length. replace (Z.to_nat (n + 4)) with (4 + Z.to_nat n)%nat by lia.
  rewrite Nat.add_min_distr_l, take_app_add' by (by rewrite le_length). rewrite <- app_assoc. do 3 f_equal. f_equal; lia.
Qed.

Lemma krealloc_rep hz c0 h U i u n : mrep hz c0 h U -> U !! i = Some u -> 0 <= n < 2 ^ 32 -> gap_exact h (u.(addr) - 4) ->
  exists ptr h', k_realloc self u.(addr) n h = Some (ptr, h') /\ mrep hz c0 h' (resized_blocks i u n ptr h'.(hmem) U).
Proof.
  intros Hr Hu Hn Hg. unfold k_realloc, resized_blocks. destruct (Z.eqb_spec n 0) as [->|Hn0].
  { destruct (kfree_rep hz c0 h U i u Hr Hu) as (h' & -> & Hr'). by exists 0, h'. }
  rewrite (user_positive _ _ _ _ _ _ Hr Hu), (wrapped_ref _ _ _ _ _ _ Hr Hu). unfold size_add_overflow, sizeof_heap_ref. cbn [mbind option_bind]. cbv zeta.
  rewrite add_overflow_spec by lia. destruct (Z.leb_spec (2 ^ 32) (n + 4)) as [Ho|Ho]; [by exists 0, h|]. rewrite Z.mod_small by lia.
  destruct (serve_ok hz c0 h _ (RRealloc i (n + 4)) Hr) as (h1 & B1 & E & Hr1).
  { split; [lia|]. exists (wrap u). split; [by apply wrap_lookup|done]. }
  cbn [serve] in E. rewrite (wrap_lookup _ _ _ Hu) in E. cbn [mbind option_bind wrap addr] in E. destruct (sys_heap_realloc _ _ h) as [[mem h2]|]; [|done]. simpl in E. simplify_eq. cbn [mbind option_bind].
  unfold resized_blocks in Hr1. destruct (Z.eqb_spec (n + 4) 0); [lia|].
  destruct (Z.eqb_spec mem 0) as [E0|Hm]; cbn [negb]; [exists 0, h1; by rewrite E0|].
  pose proof (rep_positive _ _ _ _ _ Hr1 (list_elem_of_here _ _)) as Hp. cbn [addr resized_block] in Hp. exists (mem + 4), h1. split; [done|].
  destruct (Z.eqb_spec (mem + 4) 0); [lia|]. unfold mrep. cbn [map]. rewrite wrap_delete. fold (wrap u) in Hr1. rewrite resized_wrap in Hr1 by lia.
  unfold wrap at 1. cbn [addr resized_block]. by replace (mem + 4 - 4) with mem by lia.
Qed.

Lemma kwrite_rep hz c0 h U i u off v : mrep hz c0 h U -> U !! i = Some u -> (off < length u.(data))%nat ->
  mrep hz c0 (set_hmem (upd (u.(addr) + Z.of_nat off) v h.(hmem)) h) (Block u.(addr) (<[off := v]> u.(data)) :: delete i U).
Proof.
  intros Hr Hu Hoff. pose proof (write_rep hz c0 h _ i _ (4 + off) v Hr (wrap_lookup _ _ _ Hu)) as H. cbn [wrap addr data] in H. rewrite length_app, le_length in H.
  specialize (H ltac:(lia)). rewrite insert_app_r_alt, le_length in H by (rewrite le_length; lia). replace (4 + off - 4)%nat with off in H by lia.
  replace (addr u - 4 + Z.of_nat (4 + off)) with (addr u + Z.of_nat off) in H by lia. unfold mrep. cbn [map]. by rewrite wrap_delete.
Qed.

(** What a request that was served brought. *)
Definition delivered (r : mrequest) (U U' : list block) : Prop :=
  match r with
  | MAligned align _ => forall u, U' = u :: U -> align <> 0 -> u.(addr) mod align = 0
  | MCalloc k n => forall u, U' = u :: U -> u.(data) = replicate (Z.to_nat (k * n)) 0
  | _ => True
  end.

Lemma granted_new n ptr m U u : granted_block n ptr m U = u :: U -> ptr <> 0 /\ u = Block ptr (bytes m ptr (Z.to_nat n)).
Proof.
  unfold granted_block. destruct (Z.eqb_spec ptr 0) as [_|Hne]; [|by intros [= <-]]. intros E. exfalso. apply (f_equal length) in E. simpl in E. lia.
Qed.

Lemma mserve_ok hz c0 h U r : mrep hz c0 h U -> mallowed r h U -> exists h' U', mserve r h U = Some (h', U') /\ mrep hz c0 h' U' /\ delivered r U U'.
Proof.
  intros Hr Ha. destruct r as [n|align n|k n|i|i n|i off v]; cbn [mserve].
  - destruct (malloc_rep hz c0 h U n Hr Ha) as (ptr & h' & -> & Hr' & _). by eexists _, _.
  - destruct (aligned_rep hz c0 h U align n Hr Ha) as (ptr & h' & -> & Hr' & Hm). eexists _, _. split; [done|]. split; [done|]. intros u [Hp ->]%granted_new. by apply Hm.
  - destruct (calloc_rep hz c0 h U k n Hr Ha) as (ptr & h' & -> & Hr' & Hm). eexists _, _. split; [done|]. split; [done|]. intros u [Hp ->]%granted_new. by apply Hm.
  - apply lookup_lt_is_Some in Ha as [u Hu]. rewrite Hu. simpl. destruct (kfree_rep hz c0 h U i u Hr Hu) as (h' & -> & Hr'). by eexists _, _.
  - destruct Ha as (Hn & u & Hu & Hg). rewrite Hu. cbn [mbind option_bind]. destruct (krealloc_rep hz c0 h U i u n Hr Hu Hn Hg) as (ptr & h' & -> & Hr'). by eexists _, _.
  - destruct Ha as (u & Hu & Hoff). rewrite Hu. eexists _, _. split; [done|]. split; [by apply kwrite_rep|done].
Qed.

Lemma mrep_sound hz c0 h U : mrep hz c0 h U -> sound h U.
Proof.
  intros Hr. destruct (rep_sound _ _ _ _ Hr) as [H1 H2]. split.
  - intros u Hu. assert (Hw : wrap u ∈ map wrap U) by (by apply list_elem_of_fmap_2). destruct (H1 _ Hw) as (A1 & A2 & A3). cbn [wrap addr data] in A1, A2, A3.
    rewrite length_app, le_length in A2, A3. split; [lia|]. split; [lia|]. rewrite bytes_app in A3. apply app_inj_1 in A3 as [_ A3]; [|by rewrite bytes_length, le_length].
    by replace (addr u - 4 + Z.of_nat 4) with (addr u) in A3 by lia.
  - intros i j u v Hij Hu Hv. pose proof (H2 i j _ _ Hij (wrap_lookup _ _ _ Hu) (wrap_lookup _ _ _ Hv)) as Hap. cbn [wrap addr data] in Hap. rewrite !length_app, !le_length in Hap.
    unfold apart in *. lia.
Qed.

Lemma malloc_run_rep mem bytes random m h0 rs h U : buffer_ok mem bytes random -> sys_heap_init mem bytes random m = Some h0 -> malloc_run h0 rs h U ->
  mrep h0 (Chunk 0 (init_chunk0 (init_heap mem bytes random m)) Used) h U.
Proof.
  intros Hb Hi Hr. induction Hr as [|rs r h U h' U' Hr IH Hal Hs]; [by apply (run_rep mem bytes random m h0 []); [..|constructor]|].
  destruct (mserve_ok _ _ _ _ _ IH Hal) as (h2 & U2 & E2 & Hrep & _). by simplify_eq.
Qed.


End mempool.

(** ** Threads that share a heap *)

Section kheap.
Context `{HC : HeapConfig} `{Cfg : Config} {RQ : RunQueue} {TB : TimeoutBackend}.

(** The calls that may wait, as requests to the heap. *)
Definition attempt (c : request) (B : list block) (h : z_heap) : option (Z * z_heap) :=
  match c with
  | RAlloc n => sys_heap_noalign_alloc 0 n h
  | RAligned align n => sys_heap_aligned_alloc align n h
  | RRealloc i n => b ← B !! i; sys_heap_realloc b.(addr) n h
  | _ => None
  end.
Definition may_wait (c : request) : Prop :=
  match c with RAlloc _ | RAligned _ _ => True | RRealloc _ n => n <> 0 | _ => False end.
(** A round of such a call by the running thread; one that would wait is not made in an interrupt. *)
Definition can_call (timeout : Z) (k : kernel) : Prop := k.(in_isr) = false /\ k.(current) <> k.(idle_thread) \/ timeout = K_NO_WAIT.

Inductive kh_step : k_heap * kernel * list block -> k_heap * kernel * list block -> Prop :=
| ks_round c timeout end_ r h k B h' k' B' : may_wait c -> allowed c h.(kh_heap) B -> can_call timeout k ->
    alloc_round (attempt c B) timeout end_ h k = Some (r, h', k') -> serve c h.(kh_heap) B = Some (h'.(kh_heap), B') -> kh_step (h, k, B) (h', k', B')
| ks_free i b h k B h' k' : B !! i = Some b -> k_heap_free b.(addr) h k = Some (h', k') -> kh_step (h, k, B) (h', k', delete i B)
| ks_write i off v h k B z B' : allowed (RWrite i off v) h.(kh_heap) B -> serve (RWrite i off v) h.(kh_heap) B = Some (z, B') ->
    kh_step (h, k, B) (K_heap h.(kh_wait_q) z, k, B')
| ks_other h k k' B : sched_step k k' -> kh_step (h, k, B) (h, k', B).

Context (Hdl : CONFIG_SCHED_DEADLINE = false) (Hmi : CONFIG_NUM_METAIRQ_PRIORITIES <= 0).

Lemma attempt_serves hz c0 h B c : rep hz c0 h B -> may_wait c -> allowed c h B ->
  exists ret z B', attempt c B h = Some (ret, z) /\ serve c h B = Some (z, B') /\ rep hz c0 z B' /\ (ret = 0 -> B' = B).
Proof.
  intros Hr Hw Ha. destruct (serve_ok hz c0 h B c Hr Ha) as (z & B' & E & Hr'). destruct c as [n|align n| |i n| |]; try done; cbn [serve attempt] in *; unfold sys_heap_noalign_alloc.
  - destruct (sys_heap_alloc n h) as [[ret z']|]; [|done]. simpl in E. simplify_eq. exists ret, z, (granted_block n ret (hmem z) B). split_and!; [done..|]. by intros ->.
  - destruct (sys_heap_aligned_alloc align n h) as [[ret z']|]; [|done]. simpl in E. simplify_eq. exists ret, z, (granted_block n ret (hmem z) B). split_and!; [done..|]. by intros ->.
  - destruct (B !! i) as [b|]; [|done]. cbn [mbind option_bind] in *. destruct (sys_heap_realloc (addr b) n h) as [[ret z']|]; [|done]. simpl in E. simplify_eq.
    exists ret, z, (resized_blocks i b n ret (hmem z) B). split_and!; [done..|]. intros ->. unfold resized_blocks. by destruct (Z.eqb_spec n 0).
Qed.

Lemma round_ok hz c0 h k B c timeout end_ : sys_ok k -> rep hz c0 h.(kh_heap) B -> may_wait c -> allowed c h.(kh_heap) B -> can_call timeout k ->
  exists r h' k' B', alloc_round (attempt c B) timeout end_ h k = Some (r, h', k') /\ serve c h.(kh_heap) B = Some (h'.(kh_heap), B') /\
    h'.(kh_wait_q) = h.(kh_wait_q) /\ rep hz c0 h'.(kh_heap) B' /\ sys_ok k' /\
    match r with
    | Done ret => k' = k /\ (ret = 0 -> timeout = K_NO_WAIT /\ B' = B)
    | Again _ => B' = B /\ waits h.(kh_wait_q) k k'
    | Panicked => False
    end.
Proof.
  intros Hs Hr Hw Ha Hc. destruct (attempt_serves hz c0 _ B c Hr Hw Ha) as (ret & z & B' & E & Es & Hr' & H0). unfold alloc_round. rewrite E. cbn [mbind option_bind]. cbv zeta. cbn [kh_wait_q].
  destruct (Z.eqb_spec ret 0) as [Hz|Hne]; cbn [negb orb].
  - destruct (Z.eqb_spec timeout K_NO_WAIT) as [Ht|Ht]; [eexists _, _, _, B'; split_and!; try done; cbv beta iota; auto|]. destruct Hc as [[Hisr Hi]|Hc]; [|by destruct Ht].
    destruct (pend_waits Hdl Hmi k h.(kh_wait_q) (sys_timepoint_timeout k.(clk) end_) Hs Hisr Hi) as (k' & -> & Hwt). eexists _, _, _, B'. split_and!; try done; [by apply (wt_sys _ _ _ Hwt)|]. cbv beta iota. auto.
  - eexists _, _, _, B'. by split_and!.
Qed.

Lemma unpend_all_free k w : sys_ok k -> let '(n, k1) := z_unpend_all w k in let k' := if negb (n =? 0) then reschedule k1 else k1 in
  sys_ok k' /\ k'.(waitqs) w = [] /\ forall x, x ∈ k.(waitqs) w -> (thr k' x).(pended_on) = None.
Proof.
  intros Hs. pose proof (unpend_all_sys Hdl Hmi k w Hs) as Hsys. unfold z_unpend_all in *. cbn [snd] in Hsys. pose proof (proj1 (proj1 Hs)) as Hcore.
  destruct (unpend_all_ok Hdl Hmi None w _ k Hcore (le_n _)) as (_ & _ & _ & Hw & Ht). set (k1 := unpend_all_loop _ None w k) in *.
  assert (Hp : forall x, x ∈ waitqs k w -> pended_on (thr k1 x) = None).
  { intros x Hx. rewrite Ht, decide_True by done. unfold requeued, let_go, released. by case_match. }
  unfold z_waitq_head. destruct (waitqs k w) as [|y r] eqn:Ew; simpl.
  - assert (k1 = k) as -> by done. split; [done|]. split; [done|]. intros x Hx. by apply elem_of_nil in Hx.
  - destruct (reschedule_at_most k1) as [A1 _ _ _ _ A5 A6]. split; [done|]. split; [rewrite A1, Hw; by rewrite decide_True|]. intros x Hx.
    destruct (decide (x = k1.(current))) as [->|Hne]; [|rewrite A5 by done; by apply Hp]. destruct A6 as [->| ->]; unfold cur; simpl; by apply Hp.
Qed.

Lemma kfree_ok hz c0 h k B i b : sys_ok k -> rep hz c0 h.(kh_heap) B -> B !! i = Some b ->
  exists h' k', k_heap_free b.(addr) h k = Some (h', k') /\ h'.(kh_wait_q) = h.(kh_wait_q) /\ rep hz c0 h'.(kh_heap) (delete i B) /\ sys_ok k' /\
    k'.(waitqs) h.(kh_wait_q) = [] /\ forall x, x ∈ k.(waitqs) h.(kh_wait_q) -> (thr k' x).(pended_on) = None.
Proof.
  intros Hs Hr Hb. unfold k_heap_free. destruct (free_rep hz c0 _ B i b Hr Hb) as (z & -> & Hr'). cbn [mbind option_bind].
  pose proof (unpend_all_free k h.(kh_wait_q) Hs) as H. destruct (z_unpend_all _ k) as [n k1]. eexists _, _. split; [done|]. split; [done|]. split; [done|]. exact H.
Qed.

Lemma kh_step_ok hz c0 h k B h' k' B' : kh_step (h, k, B) (h', k', B') -> sys_ok k -> rep hz c0 h.(kh_heap) B ->
  sys_ok k' /\ rep hz c0 h'.(kh_heap) B' /\ h'.(kh_wait_q) = h.(kh_wait_q).
Proof.
  intros Hst Hs Hr. inversion Hst; subst.
  - destruct (round_ok hz c0 h k B c timeout end_) as (r1 & h1 & k1 & B1 & E1 & E2 & F1 & F2 & F3 & _); try done. by simplify_eq.
  - destruct (kfree_ok hz c0 h k B i b) as (h1 & k1 & E1 & F1 & F2 & F3 & _); try done. by simplify_eq.
  - destruct (serve_ok hz c0 _ B (RWrite i off v) Hr) as (z1 & B1 & E & Hr'); [done|]. split; [done|]. split; [|done]. by simplify_eq.
  - split; [by eapply (sched_step_sys Hdl Hmi)|done].
Qed.

Definition shared (hz : z_heap) (c0 : chunk) (w : wqid) (x : k_heap * kernel * list block) : Prop :=
  sys_ok x.1.2 /\ rep hz c0 x.1.1.(kh_heap) x.2 /\ x.1.1.(kh_wait_q) = w.

Lemma kh_run_ok hz c0 w x y : rtc kh_step x y -> shared hz c0 w x -> shared hz c0 w y.
Proof.
  induction 1 as [|[[h k] B] [[h1 k1] B1] z Hst _ IH]; [done|]. intros (A1 & A2 & A3). apply IH. cbn [fst snd] in *.
  destruct (kh_step_ok hz c0 _ _ _ _ _ _ Hst A1 A2) as (C1 & C2 & C3). split; [done|]. split; [done|]. simpl. congruence.
Qed.

(** C15. Threads can share a heap and wait for memory.  However the rounds of their calls, frees, writes
    to the blocks and the rest of the system interleave, the blocks stay apart and keep
    their contents.  A round of a call either returns memory, or returns NULL because the
    caller does not want to wait any longer, or puts the caller into the wait queue and leaves
    the blocks as they were.  A free leaves nobody in the wait queue: every
    thread that waited tries again. *)
Theorem heap_shared_by_threads (hz : z_heap) mem bytes random m w (k0 : kernel) h k B : buffer_ok mem bytes random -> sys_heap_init mem bytes random m = Some hz ->
  sys_ok k0 -> rtc kh_step (K_heap w hz, k0, []) (h, k, B) ->
  sys_ok k /\ sound h.(kh_heap) B /\
  (forall c timeout end_, may_wait c -> allowed c h.(kh_heap) B -> can_call timeout k ->
     exists r h' k' B', alloc_round (attempt c B) timeout end_ h k = Some (r, h', k') /\ serve c h.(kh_heap) B = Some (h'.(kh_heap), B') /\
       match r with
       | Done ret => k' = k /\ (ret = 0 -> timeout = K_NO_WAIT /\ B' = B)
       | Again _ => B' = B /\ waits w k k'
       | Panicked => False
       end) /\
  (forall i b, B !! i = Some b -> exists h' k', k_heap_free b.(addr) h k = Some (h', k') /\ sound h'.(kh_heap) (delete i B) /\
     k'.(waitqs) w = [] /\ forall x, x ∈ k.(waitqs) w -> (thr k' x).(pended_on) = None).
Proof.
  intros Hb Hi Hs0 Hrun. set (c0 := Chunk 0 (init_chunk0 (init_heap mem bytes random m)) Used).
  assert (Hinv : shared hz c0 w (h, k, B)).
  { eapply kh_run_ok; [exact Hrun|]. split; [done|]. split; [|done]. by apply (run_rep mem bytes random m hz []); [..|constructor]. }
  destruct Hinv as (Hs & Hr & Hw). cbn [fst snd] in Hs, Hr, Hw. split; [done|]. split; [by eapply rep_sound|]. split.
  - intros c timeout end_ H1 H2 H3. destruct (round_ok hz c0 h k B c timeout end_) as (r & h' & k' & B' & E & Es & _ & _ & _ & H); try done. rewrite Hw in H. eauto 8.
  - intros i b Hib. destruct (kfree_ok hz c0 h k B i b Hs Hr Hib) as (h' & k' & E & _ & Hr' & _ & H). rewrite Hw in H. exists h', k'. split; [done|]. split; [by eapply rep_sound|done].
Qed.

End kheap.

(** ** Examples *)

Section example.
#[local] Existing Instance example_heap_config.
#[local] Existing Instance example_config.
#[local] Existing Instance simple_RunQueue.
#[local] Existing Instance delta_list_backend.

Definition ex_self : Z := 0x20001000.
Definition mx_1 : z_heap * list block := default (ex_h0, []) (mserve ex_self (MCalloc 3 4) ex_h0 []).

Lemma mx_serve h U r x d : x = default d (mserve ex_self r h U) -> bool_decide (is_Some (mserve ex_self r h U)) = true -> mserve ex_self r h U = Some (x.1, x.2).
Proof. intros -> H. rewrite (ex_some _ d H) at 1. by destruct (default d _). Qed.

Lemma mx_1_eq : mx_1 = default (ex_h0, []) (mserve ex_self (MCalloc 3 4) ex_h0 []).
Proof. reflexivity. Qed.

Lemma mx_run : malloc_run ex_self ex_h0 [MCalloc 3 4] mx_1.1 mx_1.2.
Proof.
  apply (mrun_serve ex_self ex_h0 [] (MCalloc 3 4) ex_h0 [] mx_1.1 mx_1.2); [apply mrun_start|split; lia|].
  apply (mx_serve ex_h0 [] (MCalloc 3 4) mx_1 (ex_h0, []) mx_1_eq). vm_compute. reflexivity.
Qed.


Lemma ex_allowed (h : z_heap) : allowed (RAlloc 20) h [].
Proof. split; [discriminate|reflexivity]. Qed.
Lemma ex_can_call : can_call K_FOREVER example_running.
Proof. left. vm_compute. split; [reflexivity|discriminate]. Qed.

Lemma heap_shared_by_threads_witness : sound (kh_heap (K_heap 7%nat ex_h0)) [] /\ exists r h' k' B',
  alloc_round (attempt (RAlloc 20) []) K_FOREVER 0 (K_heap 7%nat ex_h0) example_running = Some (r, h', k') /\
  serve (RAlloc 20) (kh_heap (K_heap 7%nat ex_h0)) [] = Some (h'.(kh_heap), B').
Proof.
  pose proof (heap_shared_by_threads eq_refl ltac:(discriminate) ex_h0 4100 700 0x1234567 (fun _ => 0) 7%nat example_running
    (K_heap 7%nat ex_h0) example_running [] ex_buffer ex_init_eq example_running_ok (rtc_refl _ _)) as (_ & H1 & H2 & _).
  split; [exact H1|]. destruct (H2 (RAlloc 20) K_FOREVER 0 I (ex_allowed _) ex_can_call) as (r & h' & k' & B' & E & Es & _).
  exists r, h', k', B'. split; [exact E|exact Es].
Defined.

(** A thread resizes its block to 0 bytes and is ready to wait: whether its second round succeeds. *)
Definition resize_to_nothing (p : Z) (h : k_heap) (k : kernel) : option bool :=
  match k_heap_realloc p 0 K_FOREVER h k with
  | Some (Again t, h, k') => Some (bool_decide (is_Some (alloc_round (sys_heap_realloc p 0) t (sys_timepoint_calc k.(clk) K_FOREVER) h k')))
  | _ => None
  end.

(** The first round frees the block, the call waits all the same, and the second frees it again. *)
Lemma realloc_zero_frees_twice : map addr ex_1.2 = [4180] /\ resize_to_nothing 4180 (K_heap 7%nat ex_1.1) example_running = Some false.
Proof. split; vm_compute; reflexivity. Qed.

(** A thread waits for 300 bytes while 500 are allocated, which are then freed: how many threads wait
    after it, and whether the request could be met. *)
Definition freed_by_k_free : option (nat * bool) :=
  '(p, h1) ← k_malloc ex_self 500 ex_h0;
  match k_heap_alloc 300 K_FOREVER (K_heap 7%nat h1) example_running with
  | Some (Again _, h2, k2) =>
      h3 ← k_free ex_self p h2.(kh_heap); '(q, _) ← sys_heap_alloc 300 h3; Some (length (k2.(waitqs) 7%nat), negb (q =? 0))
  | _ => None
  end.

Lemma k_free_wakes_nobody : freed_by_k_free = Some (1%nat, true).
Proof. vm_compute. reflexivity. Qed.

End example.
