(* ===== verification/Pipe.v ===== *)
(** Pipes: kernel/pipe.c.

    A pipe carries a stream of bytes through a ring buffer.  A writer that finds the
    buffer empty copies straight into the buffers of the readers that wait.  A reader
    leaves a [pipe_buf_spec] on its stack for that; the model has one store of them, by
    address, which writers and readers share.

    Sizes ([size_t]) have 4 bytes.  A call that waits is one definition per round. *)

From S2P Require Import Prelude Thread PriorityQ Timeout TimeoutList.
From S2P Require Import Sched SchedOk SchedSpec ThreadApi ThreadSpec SchedProps Blocking Ring RingBuf.

#[local] Open Scope Z_scope.

Definition EPIPE : Z := 32.
Definition PIPE_FLAG_OPEN : Z := bit 0.
Definition PIPE_FLAG_RESET : Z := bit 1.

Record k_pipe := K_pipe { waiting : Z; buf : ring_buf; data_q : wqid; space_q : wqid; flags : Z }.
Definition set_waiting (v : Z) (p : k_pipe) : k_pipe := K_pipe v p.(buf) p.(data_q) p.(space_q) p.(flags).
Definition set_buf (b : ring_buf) (p : k_pipe) : k_pipe := K_pipe p.(waiting) b p.(data_q) p.(space_q) p.(flags).
Definition set_flags (v : Z) (p : k_pipe) : k_pipe := K_pipe p.(waiting) p.(buf) p.(data_q) p.(space_q) v.

Record pipe_buf_spec := Pipe_buf_spec { spec_data : Z; spec_len : Z; used : Z }.
Definition set_used (v : Z) (s : pipe_buf_spec) : pipe_buf_spec := Pipe_buf_spec s.(spec_data) s.(spec_len) v.

(** The width of the indices of ring buffers, and whether stacks lie outside coherent memory. *)
Class PipeConfig := { idx_width : Z; CONFIG_KERNEL_COHERENCE : bool }.

Section pipe.
Context {PC : PipeConfig} `{Cfg : Config} {RQ : RunQueue} {TB : TimeoutBackend}.

(** What a call on a pipe works on. *)
Record world := World {
  pipe : k_pipe;
  specs : Z -> pipe_buf_spec;
  bytes_ : memory;
  kern : kernel
}.

Definition on_pipe (f : k_pipe -> k_pipe) (x : world) : world := World (f x.(pipe)) x.(specs) x.(bytes_) x.(kern).
Definition on_kern (f : kernel -> kernel) (x : world) : world := World x.(pipe) x.(specs) x.(bytes_) (f x.(kern)).

Definition pipe_closed (p : k_pipe) : bool := (p.(flags) .& PIPE_FLAG_OPEN) =? 0.
Definition pipe_resetting (p : k_pipe) : bool := negb ((p.(flags) .& PIPE_FLAG_RESET) =? 0).
Definition pipe_full (p : k_pipe) : bool := ring_buf_space_get idx_width p.(buf) =? 0.
Definition pipe_empty (p : k_pipe) : bool := ring_buf_is_empty p.(buf).

(** [z_sched_wake_all], which tells whether it woke a thread. *)
Definition z_sched_wake_all (w : wqid) (swap_retval swap_data : Z) (k : kernel) : bool * kernel :=
  let '(n, k1) := wake_all w swap_retval swap_data k in ((0 <? n)%nat, k1).

(** [wait_for] up to the switch to another thread, and what it does when the caller is
    back: [rc] is what [z_pend_curr] returns then. *)
Definition wait_for (w : wqid) (time_limit buf_spec : Z) (x : world) : outcome * world :=
  let timeout := sys_timepoint_timeout x.(kern).(clk) time_limit in
  if timeout =? K_NO_WAIT then (Returns (- EAGAIN), x)
  else
    let k := on_thread x.(kern).(current) (set_swap_data buf_spec) x.(kern) in
    let p := set_waiting (u32 (x.(pipe).(waiting) + 1)) x.(pipe) in
    let '(o, k1) := z_pend_curr w timeout k in (o, World p x.(specs) x.(bytes_) k1).
Definition wait_for_resume (rc : Z) (p : k_pipe) : Z * k_pipe :=
  let p := set_waiting (u32 (p.(waiting) - 1)) p in
  if pipe_resetting p
  then (- ECANCELED, if p.(waiting) =? 0 then set_flags (p.(flags) .& u8 (Z.lnot PIPE_FLAG_RESET)) p else p)
  else (rc, p).

Definition k_pipe_init (p : k_pipe) (buffer buffer_size : Z) (k : kernel) : k_pipe * kernel :=
  (K_pipe 0 (ring_buf_init buffer_size buffer) p.(data_q) p.(space_q) PIPE_FLAG_OPEN,
   z_waitq_init p.(space_q) (z_waitq_init p.(data_q) k)).

(** The reader that has all it wants is readied, under the scheduler's lock. *)
Definition reader_done (reader : tid) (k : kernel) : kernel :=
  let k1 := z_thread_return_value_set_with_data reader 0 0 k in
  let k2 := unpend_thread_no_timeout reader k1 in
  ready_thread reader (z_try_abort_thread_timeout reader k2).2.

(** The loop of [copy_to_pending_readers]: each round but the last takes a reader off
    the queue, so one more round than readers is enough. *)
Fixpoint copy_loop (fuel : nat) (data len written : Z) (need_resched : bool) (x : world) : Z * bool * world :=
  match fuel with
  | O => (written, need_resched, x)
  | S fuel =>
      match _priq_wait_best x.(pipe).(data_q) x.(kern) with
      | None => (written, need_resched, x)
      | Some reader =>
          let reader_buf := (thr x.(kern) reader).(swap_data) in
          let s := x.(specs) reader_buf in
          let copy_size := Z.min (len - written) (s.(spec_len) - s.(used)) in
          let m := memcpy (s.(spec_data) + s.(used)) (data + written) copy_size x.(bytes_) in
          let written := written + copy_size in
          let s := set_used (s.(used) + copy_size) s in
          let x := World x.(pipe) (upd reader_buf s x.(specs)) m x.(kern) in
          if s.(used) <? s.(spec_len) then (written, need_resched, x)
          else
            let x := on_kern (reader_done reader) x in
            if written <? len then copy_loop fuel data len written true x else (written, true, x)
      end
  end.
Definition copy_to_pending_readers (need_resched : bool) (data len : Z) (x : world) : Z * bool * world :=
  copy_loop (S (length (x.(kern).(waitqs) x.(pipe).(data_q)))) data len 0 need_resched x.

(** The end of both calls. *)
Definition leave (rc : Z) (need_resched : bool) (x : world) : outcome * world :=
  (Returns (i32 rc), if need_resched then on_kern reschedule x else x).

(** What a call returns that got as far as [n] bytes and did not get more because of [rc]. *)
Definition unless_timeout (n rc : Z) : Z := if rc =? - EAGAIN then if negb (n =? 0) then n else - EAGAIN else rc.

(** ** Writing *)

(** The variables of a call: what to write, how much of it is written, when to give up. *)
Record write_call := Write_call { w_data : Z; w_len : Z; w_written : Z; w_end : Z }.
Definition set_written (n : Z) (c : write_call) : write_call := Write_call c.(w_data) c.(w_len) n c.(w_end).

(** The readers that wait on an empty pipe come first.  The first result tells whether the
    call is finished with that, the second whether to reschedule. *)
Definition serve_readers (c : write_call) (x : world) : bool * bool * write_call * world :=
  if pipe_empty x.(pipe) then
    if CONFIG_KERNEL_COHERENCE then
      let '(need_resched, k) := z_sched_wake_all x.(pipe).(data_q) 0 0 x.(kern) in
      (false, need_resched, c, on_kern (fun _ => k) x)
    else if negb (x.(pipe).(waiting) =? 0) then
      let '(n, need_resched, x) :=
        copy_to_pending_readers false (c.(w_data) + c.(w_written)) (c.(w_len) - c.(w_written)) x in
      let c := set_written (c.(w_written) + n) c in (c.(w_len) <=? c.(w_written), need_resched, c, x)
    else (false, false, c, x)
  else (false, false, c, x).

(** A round of the loop; [need_resched] is false when it starts. *)
Definition write_round (c : write_call) (x : world) : outcome * write_call * world :=
  if pipe_closed x.(pipe) then let '(o, x) := leave (- EPIPE) false x in (o, c, x)
  else
    let '(finished, need_resched, c, x) := serve_readers c x in
    if finished : bool then let '(o, x) := leave c.(w_written) need_resched x in (o, c, x)
    else
      let '(n, b, m) := ring_buf_put idx_width x.(pipe).(buf) (c.(w_data) + c.(w_written)) (c.(w_len) - c.(w_written)) x.(bytes_) in
      let c := set_written (c.(w_written) + n) c in
      let x := World (set_buf b x.(pipe)) x.(specs) m x.(kern) in
      if c.(w_written) =? c.(w_len) then let '(o, x) := leave c.(w_written) need_resched x in (o, c, x)
      else
        match wait_for x.(pipe).(space_q) c.(w_end) 0 x with
        | (Returns rc, x) => let '(o, x) := leave (unless_timeout c.(w_written) rc) need_resched x in (o, c, x)
        | (o, x) => (o, c, x)
        end.

Definition k_pipe_write (data len timeout : Z) (x : world) : outcome * write_call * world :=
  let c := Write_call data len 0 (sys_timepoint_calc x.(kern).(clk) timeout) in
  if pipe_resetting x.(pipe) then (Returns (- ECANCELED), c, x) else write_round c x.

(** The caller is back from waiting. *)
Definition k_pipe_write_resume (c : write_call) (x : world) : outcome * write_call * world :=
  let '(rc, p) := wait_for_resume (cur x.(kern)).(swap_retval) x.(pipe) in
  let x := on_pipe (fun _ => p) x in
  if rc =? 0 then write_round c x
  else let '(o, x) := leave (unless_timeout c.(w_written) rc) false x in (o, c, x).

(** ** Reading *)

(** [a] is the address of the call's [buf]. *)
Definition read_round (a end_ : Z) (x : world) : outcome * world :=
  let '(need_resched, x) :=
    if pipe_full x.(pipe) then
      let '(need_resched, k) := z_sched_wake_all x.(pipe).(space_q) 0 0 x.(kern) in (need_resched, on_kern (fun _ => k) x)
    else (false, x) in
  let s := x.(specs) a in
  let '(n, b, m) := ring_buf_get idx_width x.(pipe).(buf) (Some (s.(spec_data) + s.(used))) (s.(spec_len) - s.(used)) x.(bytes_) in
  let s := set_used (s.(used) + n) s in
  let x := World (set_buf b x.(pipe)) (upd a s x.(specs)) m x.(kern) in
  if s.(used) =? s.(spec_len) then leave s.(used) need_resched x
  else if pipe_closed x.(pipe) then leave (if negb (s.(used) =? 0) then s.(used) else - EPIPE) need_resched x
  else
    match wait_for x.(pipe).(data_q) end_ a x with
    | (Returns rc, x) => leave (unless_timeout s.(used) rc) need_resched x
    | (o, x) => (o, x)
    end.

(** The second result is when to give up. *)
Definition k_pipe_read (a data len timeout : Z) (x : world) : outcome * Z * world :=
  let x := World x.(pipe) (upd a (Pipe_buf_spec data len 0) x.(specs)) x.(bytes_) x.(kern) in
  let end_ := sys_timepoint_calc x.(kern).(clk) timeout in
  if pipe_resetting x.(pipe) then (Returns (- ECANCELED), end_, x)
  else let '(o, x) := read_round a end_ x in (o, end_, x).

Definition k_pipe_read_resume (a end_ : Z) (x : world) : outcome * world :=
  let '(rc, p) := wait_for_resume (cur x.(kern)).(swap_retval) x.(pipe) in
  let x := on_pipe (fun _ => p) x in
  if rc =? 0 then read_round a end_ x
  else leave (unless_timeout (x.(specs) a).(used) rc) false x.

(** ** Resetting and closing *)

Definition wake_both (x : world) : world :=
  let k1 := (z_sched_wake_all x.(pipe).(data_q) 0 0 x.(kern)).2 in
  on_kern (fun _ => (z_sched_wake_all x.(pipe).(space_q) 0 0 k1).2) x.
Definition k_pipe_reset (x : world) : world :=
  let x := on_pipe (fun p => set_buf (ring_buf_reset p.(buf)) p) x in
  if negb (x.(pipe).(waiting) =? 0)
  then wake_both (on_pipe (fun p => set_flags (p.(flags) .| PIPE_FLAG_RESET) p) x) else x.
Definition k_pipe_close (x : world) : world := wake_both (on_pipe (set_flags 0) x).

End pipe.
