(* ===== verification/PipeProps.v ===== *)
(** Pipes are streams of bytes: the theorems about kernel/pipe.c. *)

From stdpp Require Import gmap.
From S2P Require Import Prelude Thread PriorityQ Timeout TimeoutList.
From S2P Require Import Sched SchedOk SchedSpec ThreadApi ThreadSpec SchedProps Blocking Ring RingBuf Pipe.

#[local] Open Scope Z_scope.

(** ** The buffer of a pipe *)

Section buffer.
Context {PC : PipeConfig} (HW : idx_width = 16 \/ idx_width = 32).

(** [holds b m l]: the ring buffer [b] has the bytes [l]; a buffer of no bytes is allowed. *)
Definition holds (b : ring_buf) (m : memory) (l : list Z) : Prop :=
  (b.(size) = 0 /\ b.(put) = Ring_buf_index 0 0 0 /\ b.(get) = Ring_buf_index 0 0 0 /\ l = []) \/
  exists p, ring_ok idx_width b p /\ p.(ph) = p.(pt) /\ p.(gh) = p.(gt) /\ l = m <$> addrs b p.(gt) (p.(pt) - p.(gt)).

(** Addresses of the buffer. *)
Definition in_buf (b : ring_buf) (x : Z) : Prop := b.(buffer) <= x < b.(buffer) + b.(size).

Lemma idx_0 : idx idx_width 0 = 0.
Proof. unfold idx. by rewrite Zmod_0_l. Qed.

Lemma holds_len b m l : holds b m l -> 0 <= len l <= b.(size) /\ b.(size) < 2 ^ 31.
Proof.
  intros [(-> & _ & _ & ->)|(p & Hok & Hp & Hg & ->)]; [by unfold len|]. pose proof (ro_order _ _ _ Hok).
  destruct (size_small _ HW _ (ro_size _ _ _ Hok)) as (_ & H2 & _). unfold len. rewrite length_fmap, addrs_len; lia.
Qed.

Lemma holds_empty b m l : holds b m l -> ring_buf_is_empty b = bool_decide (l = []).
Proof.
  intros [(_ & Hp & Hg & ->)|(p & Hok & Hp & Hg & ->)].
  - unfold ring_buf_is_empty. by rewrite Hp, Hg.
  - rewrite (empty_ok _ HW _ _ Hok). pose proof (ro_order _ _ _ Hok). rewrite Hg. apply eq_bool_prop_intro. rewrite !Is_true_true. rewrite Z.eqb_eq, bool_decide_eq_true.
    split; [intros ->; by rewrite Z.sub_diag|]. intros E. apply (f_equal length) in E. rewrite length_fmap in E. simpl in E.
    pose proof (addrs_len b p.(gt) (p.(pt) - p.(gt)) ltac:(lia)). lia.
Qed.

Lemma holds_full b m l : holds b m l -> (ring_buf_space_get idx_width b =? 0) = (len l =? b.(size)).
Proof.
  intros [(Hs & Hp & Hg & ->)|(p & Hok & Hp & Hg & ->)].
  - unfold ring_buf_space_get. rewrite Hp, Hg, Hs. cbn [head tail]. by rewrite Z.sub_diag.
  - rewrite (space_ok _ HW _ _ Hok). pose proof (ro_order _ _ _ Hok). unfold len. rewrite length_fmap, addrs_len by lia. rewrite Hp.
    apply eq_bool_prop_intro. rewrite !Is_true_true. rewrite !Z.eqb_eq. lia.
Qed.

Lemma holds_ext b m m' l : holds b m l -> (forall x, in_buf b x -> m' x = m x) -> holds b m' l.
Proof.
  intros [H|(p & Hok & Hp & Hg & ->)] Hm; [by left|right]. exists p. split_and!; try done. symmetry. apply fmap_same.
  intros x (j & _ & ->)%elem_addrs. apply Hm, at_pos_in, Hok.
Qed.

Lemma holds_init sz a m : 0 <= sz <= RING_BUFFER_MAX_SIZE idx_width -> holds (ring_buf_init sz a) m [].
Proof.
  intros Hs. destruct (Z.eqb_spec sz 0) as [->|Hne]; [by left|right]. exists (Positions 0 0 0 0). by split; [apply ring_init_ok; [done|lia]|].
Qed.

Lemma holds_reset b m l : holds b m l -> holds (ring_buf_reset b) m [].
Proof. intros [(H & _)|(p & Hok & _)]; [by left|right]. exists (Positions 0 0 0 0). split; [by eapply ring_reset_ok|done]. Qed.

(** A ring buffer of no bytes. *)
Definition void_ring (a : Z) : ring_buf := Ring_buf a (Ring_buf_index 0 0 0) (Ring_buf_index 0 0 0) 0.

Lemma void_area a n : 0 <= n -> ring_buf_area_claim idx_width (void_ring a) (Ring_buf_index 0 0 0) (Z.min n 0) = (0, a, Ring_buf_index 0 0 0).
Proof.
  intros Hn. rewrite (Z.min_r n 0) by done. transitivity (0, a + 0, Ring_buf_index 0 0 0); [reflexivity|]. by rewrite Z.add_0_r.
Qed.

Lemma put_nothing a d n m : 0 <= n -> ring_buf_put idx_width (void_ring a) d n m = (0, void_ring a, m).
Proof.
  intros Hn. unfold ring_buf_put. cbn [put_loop]. unfold ring_buf_put_claim. cbn [put void_ring].
  change (ring_buf_space_get _ _) with 0. fold (void_ring a). by rewrite void_area.
Qed.

Lemma get_nothing a d n m : 0 <= n -> ring_buf_get idx_width (void_ring a) d n m = (0, void_ring a, m).
Proof.
  intros Hn. unfold ring_buf_get. cbn [get_loop]. unfold ring_buf_get_claim. cbn [get void_ring].
  change (ring_buf_size_get _ _) with 0. fold (void_ring a). by rewrite void_area.
Qed.

Lemma void_of b : b.(size) = 0 -> b.(put) = Ring_buf_index 0 0 0 -> b.(get) = Ring_buf_index 0 0 0 -> b = void_ring b.(buffer).
Proof. destruct b. simpl. by intros -> -> ->. Qed.

Lemma holds_put b m l a n : holds b m l -> 0 <= n < 2 ^ 32 -> apart a n b.(buffer) b.(size) ->
  let r := Z.min n (b.(size) - len l) in exists b' m', ring_buf_put idx_width b a n m = (r, b', m') /\
    holds b' m' (l ++ load m a r) /\ b'.(size) = b.(size) /\ b'.(buffer) = b.(buffer) /\ (forall x, ~ in_buf b x -> m' x = m x).
Proof.
  intros Hh Hn Hap r. pose proof (holds_len _ _ _ Hh) as Hl. destruct Hh as [(Hs & Hp & Hg & ->)|(p & Hok & Hp & Hg & El)].
  - assert (Hr : r = 0) by (subst r; unfold len; simpl; lia). rewrite Hr. exists b, m. rewrite (void_of b Hs Hp Hg) at 1. rewrite put_nothing, <- (void_of b Hs Hp Hg) by lia. split_and!; try done. by left.
  - pose proof (ro_order _ _ _ Hok). pose proof (ro_size _ _ _ Hok). assert (Hll : len l = p.(pt) - p.(gt)) by (rewrite El; unfold len; rewrite length_fmap, addrs_len; lia).
    destruct (put_ok _ HW b p a n m Hok Hp Hn Hap) as (b' & m' & E & Hok' & Hs & Hb & Hc). rewrite <- Hll in E, Hok', Hc. fold r in E, Hok', Hc.
    exists b', m'. split; [done|]. split_and!; try done.
    + right. exists (Positions p.(gt) p.(gh) (p.(pt) + r) (p.(pt) + r)). simpl. split_and!; try done. rewrite (addrs_same b b') by done.
      replace (pt p + r - gt p) with (pt p - gt p + r) by lia. rewrite addrs_app, fmap_app by lia. f_equal.
      * rewrite (copied_other b p.(pt) a r m) by (done || lia). done.
      * symmetry. replace (gt p + (pt p - gt p)) with (pt p) by lia. by apply copied_load.
    + intros x Hx. destruct Hc as [_ Hc]. apply Hc. intros j Hj ->. apply Hx, at_pos_in. lia.
Qed.

Lemma holds_get b m l d n : holds b m l -> 0 <= n < 2 ^ 32 -> apart d n b.(buffer) b.(size) ->
  let r := Z.min n (len l) in exists b' m', ring_buf_get idx_width b (Some d) n m = (r, b', m') /\
    holds b' m' (drop (Z.to_nat r) l) /\ load m' d r = take (Z.to_nat r) l /\
    b'.(size) = b.(size) /\ b'.(buffer) = b.(buffer) /\ (forall x, ~ (d <= x < d + r) -> m' x = m x).
Proof.
  intros Hh Hn Hap r. destruct Hh as [(Hs & Hp & Hg & ->)|(p & Hok & Hp & Hg & El)].
  - assert (Hr : r = 0) by (subst r; unfold len; simpl; lia). rewrite Hr. exists b, m. rewrite (void_of b Hs Hp Hg) at 1. rewrite get_nothing, <- (void_of b Hs Hp Hg) by lia. split_and!; try done. by left.
  - pose proof (ro_order _ _ _ Hok). pose proof (ro_size _ _ _ Hok). assert (Hll : len l = p.(pt) - p.(gt)) by (rewrite El; unfold len; rewrite length_fmap, addrs_len; lia).
    destruct (get_ok _ HW b p (Some d) n m Hok Hg Hn Hap) as (b' & m' & E & Hok' & Hs & Hb & Hc). rewrite <- Hll in E, Hok', Hc. fold r in E, Hok', Hc.
    exists b', m'. split; [done|]. split_and!; try done.
    + right. exists (Positions (p.(gt) + r) (p.(gt) + r) p.(pt) p.(ph)). simpl. split_and!; try done. rewrite (addrs_same b b') by done.
      rewrite (delivered_other b p.(gt) (Some d) n r m) by (done || lia). rewrite El, <- fmap_drop, addrs_drop by lia. f_equal. f_equal. lia.
    + rewrite (delivered_load _ _ _ _ _ _ Hc), El, <- fmap_take, addrs_take by lia. done.
    + intros x Hx. rewrite Hc. destruct (Z.leb_spec d x), (Z.ltb_spec x (d + r)); simpl; done || lia.
Qed.

End buffer.

(** ** Waking without a switch *)

Section wake.
Context `{Cfg : Config} {RQ : RunQueue} {TB : TimeoutBackend}.
Context (Hdl : CONFIG_SCHED_DEADLINE = false) (Hmi : CONFIG_NUM_METAIRQ_PRIORITIES <= 0).

(** [releases w ts r k k']: the first waiters [ts] of [w] left it, the others [r] did not. *)
Record releases (w : wqid) (ts r : list tid) (k k' : kernel) : Prop := {
  rl_core : core_ok nobody k';
  rl_cache : cache_ok k -> cache_ok k';
  rl_cpu : same_cpu k k';
  rl_before : k.(waitqs) w = ts ++ r;
  rl_queue : k'.(waitqs) w = r;
  rl_queues : forall w', w' <> w -> k'.(waitqs) w' = k.(waitqs) w';
  rl_others : forall x, x ∉ ts -> thr k' x = thr k x;
  rl_woken : forall x, x ∈ ts -> thr k' x = woken 0 0 (thr k x)
}.

Lemma releases_nobody w k : core_ok nobody k -> releases w [] (k.(waitqs) w) k k.
Proof. intros H. split; try done. intros x Hx. by apply elem_of_nil in Hx. Qed.

Lemma releases_trans w ts ts' r r' k k1 k2 : core_ok nobody k -> releases w ts r k k1 -> releases w ts' r' k1 k2 -> releases w (ts ++ ts') r' k k2.
Proof.
  intros Hok H1 H2. pose proof (waitq_nodup _ _ w Hok) as Hnd. rewrite (rl_before _ _ _ _ _ H1) in Hnd.
  assert (Er : r = ts' ++ r') by (rewrite <- (rl_before _ _ _ _ _ H2); symmetry; apply H1). subst r. apply NoDup_app in Hnd as (_ & Hd & _).
  split; try apply H2.
  - intros Hc. by apply H2, H1.
  - etrans; [apply H1|apply H2].
  - rewrite (rl_before _ _ _ _ _ H1). by rewrite app_assoc.
  - intros w' Hne. rewrite (rl_queues _ _ _ _ _ H2) by done. by apply H1.
  - intros x Hx. rewrite (rl_others _ _ _ _ _ H2) by set_solver. apply H1. set_solver.
  - intros x [Hx|Hx]%elem_of_app.
    + rewrite (rl_others _ _ _ _ _ H2); [by apply H1|]. intros Hx'. apply (Hd x Hx). set_solver.
    + rewrite (rl_woken _ _ _ _ _ H2) by done. f_equal. apply H1. intros Hx'. apply (Hd x Hx'). set_solver.
Qed.

Lemma wake_all_releases w k : core_ok nobody k -> releases w (k.(waitqs) w) [] k (z_sched_wake_all w 0 0 k).2.
Proof.
  intros Hok. unfold z_sched_wake_all. pose proof (wake_all_loop_ok Hdl Hmi w 0 0 _ k Hok (le_n _)) as HL. fold (wake_all w 0 0 k) in HL.
  destruct (wake_all w 0 0 k) as [n k1]. destruct HL as (_ & H1 & H2 & H3 & H4 & H5). split; try done.
  - by rewrite app_nil_r.
  - simpl. rewrite H4. by rewrite decide_True.
  - intros w' Hne. simpl. rewrite H4. by rewrite decide_False.
  - intros x Hx. simpl. rewrite H5. by rewrite decide_False.
  - intros x Hx. simpl. rewrite H5. by rewrite decide_True.
Qed.

Lemma reader_done_releases w t r k : core_ok nobody k -> k.(waitqs) w = t :: r -> releases w [t] r k (reader_done t k).
Proof.
  intros Hok Hw. destruct (waitq_head _ _ _ _ _ Hok Hw) as [Hp Hr]. unfold reader_done.
  set (k1 := z_thread_return_value_set_with_data t 0 0 k). pose proof (pended_not_idle _ _ _ _ Hok Hp) as Hi.
  assert (Hok1 : core_ok nobody k1) by (apply core_silent; [done|apply quiet_values|done]).
  assert (Et : thr k1 t = values 0 0 (thr k t)) by (unfold k1, z_thread_return_value_set_with_data; by rewrite thr_eq).
  assert (Hp1 : (thr k1 t).(pended_on) = Some w) by (by rewrite Et).
  pose proof (detached_unpend k1 t w Hok1 Hp1) as HD. set (k2 := unpend_thread_no_timeout t k1) in *.
  destruct (abort_frame t k2) as (F1 & F2 & F3). pose proof (detached_same _ _ _ _ _ HD F1 F2 F3) as HD'.
  apply (detached_wakes Hdl Hmi) in HD'; [|done]. set (k3 := (z_try_abort_thread_timeout t k2).2) in *.
  assert (E3 : thr k3 t = values 0 0 (released (thr k t))).
  { unfold thr. rewrite (sc_threads _ _ F1). fold (thr k2 t). unfold k2. rewrite (unpend_thread k1 t w Hp1), Et. done. }
  rewrite E3 in HD'. destruct HD' as [W1 W2 W3 W4 W5 W6 _]. split; [done| |by destruct W3; split|done| | | |].
  - intros Hc. apply W2; [by apply cache_on_thread|]. rewrite Et. destruct (pended_not_queued k t w Hok Hp) as [Hn _]. exact Hn.
  - rewrite W6. by rewrite decide_True.
  - intros w' Hne. rewrite W6. by rewrite decide_False.
  - intros x Hx. rewrite W4 by set_solver. unfold k1, z_thread_return_value_set_with_data. apply thr_ne. set_solver.
  - intros x ->%list_elem_of_singleton. done.
Qed.

Section released.
Context {w ts r k k'} (H : releases w ts r k k').

Lemma released_current : sys_ok k -> k.(in_isr) = false -> thr k' k.(current) = cur k.
Proof.
  intros [[Hok _] Hr] Hisr. apply H. intros Hx. assert (Hin : k.(current) ∈ k.(waitqs) w) by (rewrite (rl_before _ _ _ _ _ H); set_solver).
  rewrite (ok_pended _ _ Hok), (ready_unpended nobody) in Hin; [done|done|by apply Hr].
Qed.

Lemma released_sys : sys_ok k -> sys_ok k'.
Proof.
  intros Hs. split; [split; [apply H|by apply H, Hs]|]. rewrite (cpu_isr _ _ (rl_cpu _ _ _ _ _ H)). intros Hisr. unfold cur.
  rewrite (cpu_current _ _ (rl_cpu _ _ _ _ _ H)), (released_current Hs Hisr). by apply Hs.
Qed.
End released.

End wake.

(** ** The specification: a stream of bytes *)

(** Who calls: a thread, or an interrupt. *)
Notation caller := (option tid).

(** A call in progress, and the bytes that it moved into or out of the pipe. *)
Record acall := Acall { reads : bool; moved : list Z }.

Record stream := Stream {
  pending : list Z;
  acalls : gmap caller acall;
  is_open : bool;
  resetting : bool;
  suspended : Z
}.
Definition set_acalls (cs : gmap caller acall) (s : stream) : stream := Stream s.(pending) cs s.(is_open) s.(resetting) s.(suspended).

Inductive pipe_event :=
| Starts (c : caller) (rd : bool)
| Refused (c : caller)                         (* while the pipe is being reset *)
| Passed (c : caller) (c' : caller) (d : list Z) (* straight from a writer to a reader that waits *)
| Wrote (c : caller) (d : list Z)
| Gave (c : caller) (d : list Z)
| Suspends (c : caller)
| Resumes (c : caller)
| Cancelled (c : caller)                       (* by a reset *)
| Returned (c : caller) (r : Z) (d : list Z)   (* [d] is what the first [r] bytes of its buffer are *)
| Resets
| Closes
| Vanished (c : caller).                       (* a thread aborted while it waits *)

Definition moves (rd : bool) (c : caller) (d : list Z) (s : stream) : option stream :=
  u ← s.(acalls) !! c;
  if Bool.eqb u.(reads) rd then Some (set_acalls (<[c := Acall rd (u.(moved) ++ d)]> s.(acalls)) s) else None.

(** What a call may return: all that it moved; or that time is up or the pipe closed. *)
Definition right_result (u : acall) (r : Z) (d : list Z) (s : stream) : bool :=
  (r =? len u.(moved)) && bool_decide (d = u.(moved)) ||
  (r =? - EAGAIN) && bool_decide (u.(moved) = []) ||
  (r =? - EPIPE) && negb s.(is_open) && (negb u.(reads) || bool_decide (u.(moved) = []) && bool_decide (s.(pending) = [])).

Definition stream_step (cap : Z) (e : pipe_event) (s : stream) : option stream :=
  match e with
  | Starts c rd =>
      if negb s.(resetting) && bool_decide (s.(acalls) !! c = None) then Some (set_acalls (<[c := Acall rd []]> s.(acalls)) s) else None
  | Refused _ => if s.(resetting) then Some s else None
  | Passed c c' d =>
      if bool_decide (s.(pending) = []) then s1 ← moves false c d s; moves true c' d s1 else None
  | Wrote c d =>
      s1 ← moves false c d s;
      if len (s.(pending) ++ d) <=? cap then Some (Stream (s.(pending) ++ d) s1.(acalls) s.(is_open) s.(resetting) s.(suspended)) else None
  | Gave c d =>
      s1 ← moves true c d s;
      if bool_decide (take (length d) s.(pending) = d)
      then Some (Stream (drop (length d) s.(pending)) s1.(acalls) s.(is_open) s.(resetting) s.(suspended)) else None
  | Suspends c =>
      u ← s.(acalls) !! c;
      if s.(is_open) && negb s.(resetting) && (if u.(reads) then bool_decide (s.(pending) = []) else len s.(pending) =? cap)
      then Some (Stream s.(pending) s.(acalls) s.(is_open) s.(resetting) (s.(suspended) + 1)) else None
  | Resumes c =>
      if negb s.(resetting) then Some (Stream s.(pending) s.(acalls) s.(is_open) s.(resetting) (s.(suspended) - 1)) else None
  | Cancelled c =>
      if s.(resetting) then Some (Stream s.(pending) (delete c s.(acalls)) s.(is_open) (negb (s.(suspended) =? 1)) (s.(suspended) - 1)) else None
  | Returned c r d =>
      u ← s.(acalls) !! c; if right_result u r d s then Some (set_acalls (delete c s.(acalls)) s) else None
  | Resets => Some (Stream [] s.(acalls) s.(is_open) (negb (s.(suspended) =? 0)) s.(suspended))
  | Closes => Some (Stream s.(pending) s.(acalls) false false s.(suspended))
  | Vanished c => Some (set_acalls (delete c s.(acalls)) s)
  end.
Fixpoint stream_run (cap : Z) (es : list pipe_event) (s : stream) : option stream :=
  match es with [] => Some s | e :: r => s' ← stream_step cap e s; stream_run cap r s' end.

(** ** Threads and interrupts that use a pipe *)

(** A call that is between two rounds. *)
Inductive call := Writes (c : write_call) | Reads (a end_ : Z).
Definition is_read (u : call) : bool := match u with Reads _ _ => true | _ => false end.

Section runs.
Context {PC : PipeConfig} `{Cfg : Config} {RQ : RunQueue} {TB : TimeoutBackend}.

Definition area_of (x : world) (u : call) : Z * Z :=
  match u with Writes c => (c.(w_data), c.(w_len)) | Reads a _ => ((x.(specs) a).(spec_data), (x.(specs) a).(spec_len)) end.
Definition progress (x : world) (u : call) : Z :=
  match u with Writes c => c.(w_written) | Reads a _ => (x.(specs) a).(used) end.
Definition view (x : world) (u : call) : acall := Acall (is_read u) (load x.(bytes_) (area_of x u).1 (progress x u)).

(** The buffers of calls in progress lie apart from the pipe's; a reader's lies apart from
    every other; their [buf]s are at different addresses. *)
Record calls_ok (x : world) (cs : gmap caller call) : Prop := {
  co_bounds : forall c u, cs !! c = Some u -> 0 <= progress x u <= (area_of x u).2 /\ (area_of x u).2 < 2 ^ 31 /\
    apart (area_of x u).1 (area_of x u).2 x.(pipe).(buf).(buffer) x.(pipe).(buf).(size);
  co_apart : forall c c' u u', c <> c' -> cs !! c = Some u -> cs !! c' = Some u' -> is_read u = true ->
    apart (area_of x u).1 (area_of x u).2 (area_of x u').1 (area_of x u').2;
  co_addr : forall c c' a a' e e', c <> c' -> cs !! c = Some (Reads a e) -> cs !! c' = Some (Reads a' e') -> a <> a'
}.

(** The world, the calls that wait or are about to go on, and how many vanished. *)
Record pstate := Pstate { wd : world; calls : gmap caller call; lost : Z }.

Definition this_caller (k : kernel) : caller := if k.(in_isr) then None else Some k.(current).

Definition count (cs : gmap caller call) : Z := Z.of_nat (base.size cs).

(** What a step of the call [u] of [c] shows at its end, and what is left of the call. *)
Definition ending (o : outcome) (c : caller) (u : call) (x : world) : list pipe_event :=
  match o with
  | Returns r => [Returned c r (load x.(bytes_) (area_of x u).1 r)]
  | Blocks => [Suspends c]
  | Panics => []
  end.
Definition remaining (o : outcome) (c : caller) (u : call) (cs : gmap caller call) : gmap caller call :=
  match o with Blocks => <[c := u]> cs | _ => delete c cs end.

(** The bytes that the readers waiting in [x] got by [x']. *)
Definition grown (x x' : world) (t : tid) : list Z :=
  let a := (thr x.(kern) t).(swap_data) in let s := x.(specs) a in
  load x'.(bytes_) (s.(spec_data) + s.(used)) ((x'.(specs) a).(used) - s.(used)).
Definition readers (x : world) : list tid := x.(kern).(waitqs) x.(pipe).(data_q).
Definition passes (c : caller) (x x' : world) (ts : list tid) : list pipe_event := map (fun t => Passed c (Some t) (grown x x' t)) ts.
Definition total (x x' : world) (ts : list tid) : Z := len (concat (map (grown x x') ts)).

Definition write_events (c : caller) (w w' : write_call) (o : outcome) (x x' : world) : list pipe_event :=
  let n := total x x' (readers x) in
  passes c x x' (readers x) ++
  Wrote c (load x.(bytes_) (w.(w_data) + w.(w_written) + n) (w'.(w_written) - w.(w_written) - n)) :: ending o c (Writes w') x'.
Definition read_events (c : caller) (a e : Z) (o : outcome) (x x' : world) : list pipe_event :=
  let s := x.(specs) a in
  Gave c (load x'.(bytes_) (s.(spec_data) + s.(used)) ((x'.(specs) a).(used) - s.(used))) :: ending o c (Reads a e) x'.

(** What the rest of the system does meanwhile: it makes no thread wait on the pipe's
    queues, and leaves alone what belongs to the pipe and to the calls in progress. *)
Record pipe_env (cs : gmap caller call) (x x' : world) : Prop := {
  pe_pipe : x'.(pipe) = x.(pipe);
  pe_sched : sched_step x.(kern) x'.(kern);
  pe_queues : forall w t, w = x.(pipe).(data_q) \/ w = x.(pipe).(space_q) -> t ∈ x'.(kern).(waitqs) w ->
    t ∈ x.(kern).(waitqs) w /\ (thr x'.(kern) t).(swap_data) = (thr x.(kern) t).(swap_data);
  pe_values : forall t, is_Some (cs !! Some t) ->
    let v := (thr x'.(kern) t).(swap_retval) in v = (thr x.(kern) t).(swap_retval) \/ v = - EAGAIN;
  pe_specs : forall c a e, cs !! c = Some (Reads a e) -> x'.(specs) a = x.(specs) a;
  pe_bytes : forall y, in_buf x.(pipe).(buf) y \/ (exists c u, cs !! c = Some u /\ (area_of x u).1 <= y < (area_of x u).1 + (area_of x u).2) ->
    x'.(bytes_) y = x.(bytes_) y
}.

Inductive pipe_step : list pipe_event -> pstate -> pstate -> Prop :=
| pp_write x cs n data len timeout o w x' : let c := this_caller x.(kern) in let w0 := Write_call data len 0 (sys_timepoint_calc x.(kern).(clk) timeout) in
    in_thread x.(kern) \/ timeout = K_NO_WAIT -> cs !! c = None -> count cs + n + 1 < 2 ^ 32 ->
    calls_ok x (<[c := Writes w0]> cs) -> k_pipe_write data len timeout x = (o, w, x') ->
    pipe_step (if pipe_resetting x.(pipe) then [Refused c] else Starts c false :: write_events c w0 w o x x')
      (Pstate x cs n) (Pstate x' (remaining o c (Writes w) cs) n)
| pp_write_resume x cs n w o w' x' : let c := this_caller x.(kern) in
    in_thread x.(kern) -> cs !! c = Some (Writes w) -> k_pipe_write_resume w x = (o, w', x') ->
    pipe_step (if pipe_resetting x.(pipe) then [Cancelled c] else Resumes c :: write_events c w w' o x x')
      (Pstate x cs n) (Pstate x' (remaining o c (Writes w') cs) n)
| pp_read x cs n a data len timeout o e x' : let c := this_caller x.(kern) in
    let x0 := World x.(pipe) (upd a (Pipe_buf_spec data len 0) x.(specs)) x.(bytes_) x.(kern) in
    in_thread x.(kern) \/ timeout = K_NO_WAIT -> cs !! c = None -> count cs + n + 1 < 2 ^ 32 ->
    calls_ok x0 (<[c := Reads a 0]> cs) -> k_pipe_read a data len timeout x = (o, e, x') ->
    pipe_step (if pipe_resetting x.(pipe) then [Refused c] else Starts c true :: read_events c a e o x0 x')
      (Pstate x cs n) (Pstate x' (remaining o c (Reads a e) cs) n)
| pp_read_resume x cs n a e o x' : let c := this_caller x.(kern) in
    in_thread x.(kern) -> cs !! c = Some (Reads a e) -> k_pipe_read_resume a e x = (o, x') ->
    pipe_step (if pipe_resetting x.(pipe) then [Cancelled c] else Resumes c :: read_events c a e o x x')
      (Pstate x cs n) (Pstate x' (remaining o c (Reads a e) cs) n)
| pp_reset x cs n : pipe_step [Resets] (Pstate x cs n) (Pstate (k_pipe_reset x) cs n)
| pp_close x cs n : pipe_step [Closes] (Pstate x cs n) (Pstate (k_pipe_close x) cs n)
| pp_vanish x cs n t : is_Some (cs !! Some t) -> t ∉ x.(kern).(waitqs) x.(pipe).(data_q) -> t ∉ x.(kern).(waitqs) x.(pipe).(space_q) ->
    pipe_step [Vanished (Some t)] (Pstate x cs n) (Pstate x (delete (Some t) cs) (n + 1))
| pp_other x x' cs n : pipe_env cs x x' -> pipe_step [] (Pstate x cs n) (Pstate x' cs n).

Inductive pipe_run : list pipe_event -> pstate -> pstate -> Prop :=
| pr_nil st : pipe_run [] st st
| pr_cons es es' st st1 st2 : pipe_step es st st1 -> pipe_run es' st1 st2 -> pipe_run (es ++ es') st st2.

(** ** The invariant *)

(** [run] is the call of which a round is in progress. *)
Record kern_ok (dq sq : wqid) (run : option caller) (cs : gmap caller call) (k : kernel) : Prop := {
  ko_sys : sys_ok k;
  ko_data : forall t, t ∈ k.(waitqs) dq -> run <> Some (Some t) /\ exists a e, cs !! Some t = Some (Reads a e) /\ (thr k t).(swap_data) = a;
  ko_space : forall t, t ∈ k.(waitqs) sq -> run <> Some (Some t) /\ exists w, cs !! Some t = Some (Writes w);
  ko_values : forall t, is_Some (cs !! Some t) -> run <> Some (Some t) -> (thr k t).(swap_retval) = 0 \/ (thr k t).(swap_retval) = - EAGAIN
}.

Record pipe_inv (run : option caller) (x : world) (cs : gmap caller call) (n : Z) (s : stream) : Prop := {
  pv_kern : kern_ok x.(pipe).(data_q) x.(pipe).(space_q) run cs x.(kern);
  pv_queues : x.(pipe).(data_q) <> x.(pipe).(space_q);
  pv_holds : holds x.(pipe).(buf) x.(bytes_) s.(pending);
  pv_calls : calls_ok x cs;
  pv_view : s.(acalls) = view x <$> cs;
  pv_open : s.(is_open) = negb (pipe_closed x.(pipe));
  pv_reset : s.(resetting) = pipe_resetting x.(pipe);
  pv_suspended : s.(suspended) = x.(pipe).(waiting);
  pv_count : x.(pipe).(waiting) + match run with Some _ => 1 | None => 0 end = count cs + n;
  pv_small : 0 <= n /\ count cs + n < 2 ^ 32;
  pv_running : forall c, run = Some c -> is_Some (cs !! c) /\ s.(resetting) = false;
  pv_isr : is_Some (cs !! None) -> run = Some None;
  pv_flags : 0 <= x.(pipe).(flags) < 4;
  (* readers wait for an empty pipe only, writers for a full one *)
  pv_readers : x.(kern).(waitqs) x.(pipe).(data_q) <> [] -> s.(pending) = [];
  pv_writers : x.(kern).(waitqs) x.(pipe).(space_q) <> [] -> len s.(pending) = x.(pipe).(buf).(size);
  (* while the pipe is being reset, and when it is closed, nobody waits *)
  pv_resetting : s.(resetting) = true -> x.(pipe).(waiting) <> 0;
  pv_nobody : s.(resetting) = true \/ s.(is_open) = false ->
    x.(kern).(waitqs) x.(pipe).(data_q) = [] /\ x.(kern).(waitqs) x.(pipe).(space_q) = []
}.

(** A reader that waits has not got all it wants. *)
Definition lacking (x : world) : Prop := forall t, t ∈ readers x ->
  let s := x.(specs) (thr x.(kern) t).(swap_data) in s.(used) < s.(spec_len).

Section inv.
Context (HW : idx_width = 16 \/ idx_width = 32).
Context (Hdl : CONFIG_SCHED_DEADLINE = false) (Hmi : CONFIG_NUM_METAIRQ_PRIORITIES <= 0).

(** A change that leaves alone what the calls in progress see of themselves. *)
Lemma calls_frame x x' cs : calls_ok x cs -> (forall c u, cs !! c = Some u -> area_of x' u = area_of x u /\ progress x' u = progress x u) ->
  x'.(pipe).(buf).(buffer) = x.(pipe).(buf).(buffer) -> x'.(pipe).(buf).(size) = x.(pipe).(buf).(size) -> calls_ok x' cs.
Proof.
  intros [H1 H2 H3] Ha Eb Es. split; [| |done].
  - intros c u Hu. destruct (Ha c u Hu) as [-> ->]. rewrite Eb, Es. by eapply H1.
  - intros c c' u u' Hne Hu Hu' Hr. destruct (Ha c u Hu) as [-> _], (Ha c' u' Hu') as [-> _]. by apply (H2 c c').
Qed.

(** *** The kernel *)

(** A change after which no thread waits that did not wait before. *)
Record calms (dq sq : wqid) (cs : gmap caller call) (k k' : kernel) : Prop := {
  cl_sys : sys_ok k';
  cl_queues : forall w t, w = dq \/ w = sq -> t ∈ k'.(waitqs) w ->
    t ∈ k.(waitqs) w /\ (thr k' t).(swap_data) = (thr k t).(swap_data);
  cl_values : forall t, is_Some (cs !! Some t) -> let v := (thr k' t).(swap_retval) in
    v = (thr k t).(swap_retval) \/ v = 0 \/ v = - EAGAIN
}.

Lemma calms_kern dq sq run cs k k' : kern_ok dq sq run cs k -> calms dq sq cs k k' -> kern_ok dq sq run cs k'.
Proof.
  intros [H1 H2 H3 H4] [C1 C2 C3]. split; [done| | |].
  - intros t Ht. destruct (C2 _ _ (or_introl eq_refl) Ht) as [Hk ->]. by apply H2.
  - intros t Ht. destruct (C2 _ _ (or_intror eq_refl) Ht) as [Hk _]. by apply H3.
  - intros t Ht Hne. destruct (C3 t Ht) as [E|E]; [rewrite E; by apply H4|done].
Qed.

Lemma calms_nonempty dq sq cs k k' w : calms dq sq cs k k' -> w = dq \/ w = sq -> k'.(waitqs) w <> [] -> k.(waitqs) w <> [].
Proof.
  intros HC Hw Hne E. destruct (k'.(waitqs) w) as [|t r] eqn:E'; [done|].
  destruct (cl_queues _ _ _ _ _ HC w t Hw) as [Hin _]; [rewrite E'; set_solver +|]. rewrite E in Hin. by apply elem_of_nil in Hin.
Qed.

Lemma calms_inv run x cs n s k' : pipe_inv run x cs n s -> calms x.(pipe).(data_q) x.(pipe).(space_q) cs x.(kern) k' -> pipe_inv run (on_kern (fun _ => k') x) cs n s.
Proof.
  intros [] HC. split; try done.
  - by eapply calms_kern.
  - by apply (calls_frame x).
  - intros H. by apply pv_readers0, (calms_nonempty _ _ _ _ _ _ HC (or_introl eq_refl)).
  - intros H. by apply pv_writers0, (calms_nonempty _ _ _ _ _ _ HC (or_intror eq_refl)).
  - intros H. destruct (pv_nobody0 H) as [E1 E2]. simpl. split; apply dec_stable; intros Hne.
    + by apply (calms_nonempty _ _ _ _ _ _ HC (or_introl eq_refl) Hne).
    + by apply (calms_nonempty _ _ _ _ _ _ HC (or_intror eq_refl) Hne).
Qed.

Lemma calms_lacking x cs k' : lacking x -> calms x.(pipe).(data_q) x.(pipe).(space_q) cs x.(kern) k' -> lacking (on_kern (fun _ => k') x).
Proof. intros HL HC t Ht. destruct (cl_queues _ _ _ _ _ HC _ t (or_introl eq_refl) Ht) as [Hin E]. simpl. rewrite E. by apply HL. Qed.

Lemma woken_fields v d th : (woken v d th).(swap_retval) = v.
Proof. apply (let_through_fields (values v d)). Qed.

Lemma releases_calms dq sq cs k k' w ts r : sys_ok k -> releases w ts r k k' -> calms dq sq cs k k'.
Proof.
  intros Hs H. pose proof (waitq_nodup _ _ w (proj1 (proj1 Hs))) as Hnd. rewrite (rl_before _ _ _ _ _ H) in Hnd. apply NoDup_app in Hnd as (_ & Hd & _).
  split; [by eapply released_sys| |].
  - intros v t _ Ht. destruct (decide (v = w)) as [->|Hne].
    + rewrite (rl_queue _ _ _ _ _ H) in Ht. split; [rewrite (rl_before _ _ _ _ _ H); set_solver|]. rewrite (rl_others _ _ _ _ _ H); [done|]. intros Hx. by apply (Hd t Hx).
    + rewrite (rl_queues _ _ _ _ _ H) in Ht by done. split; [done|]. rewrite (rl_others _ _ _ _ _ H); [done|]. intros Hx.
      assert (Hw : t ∈ k.(waitqs) w) by (rewrite (rl_before _ _ _ _ _ H); set_solver). apply (ok_pended _ _ (proj1 (proj1 Hs))) in Ht, Hw. congruence.
  - intros t _. destruct (decide (t ∈ ts)) as [Hin|Hout]; [rewrite (rl_woken _ _ _ _ _ H) by done; right; left; apply woken_fields|left].
    by rewrite (rl_others _ _ _ _ _ H).
Qed.

Lemma reschedule_calms dq sq cs k : sys_ok k -> calms dq sq cs k (reschedule k).
Proof.
  intros Hs. destruct (reschedule_at_most k) as [A1 _ _ _ _ A5 A6].
  assert (Ht : forall t, thr (reschedule k) t = thr k t \/ thr (reschedule k) t = set_swap_retval (- EAGAIN) (thr k t)).
  { intros t. destruct (decide (t = k.(current))) as [->|Hne]; [done|left; by apply A5]. }
  split; [apply reschedule_sys; apply Hs| |].
  - intros w t _. rewrite A1. split; [done|]. by destruct (Ht t) as [->| ->].
  - intros t _. destruct (Ht t) as [->| ->]; [by left|]. by right; right.
Qed.

(** *** The end of a round *)

Lemma size_delete (cs : gmap caller call) c u : cs !! c = Some u -> count (delete c cs) = count cs - 1.
Proof. intros Hc. unfold count. rewrite map_size_delete_Some by eauto. assert (base.size cs <> 0%nat) by (apply map_size_ne_0_lookup; eauto). lia. Qed.

Lemma delete_inv c x cs n s : pipe_inv (Some c) x cs n s -> pipe_inv None x (delete c cs) n (set_acalls (delete c s.(acalls)) s).
Proof.
  intros []. destruct (pv_running0 c eq_refl) as [[u Hu] Hr]. pose proof (size_delete cs c u Hu) as Hs. destruct pv_kern0 as [K1 K2 K3 K4]. split; try done.
  - split; [done| | |].
    + intros t Ht. destruct (K2 t Ht) as (Hne & a & e & E & Ea). split; [done|]. exists a, e. rewrite lookup_delete_ne by (intros ->; by apply Hne). done.
    + intros t Ht. destruct (K3 t Ht) as (Hne & w & E). split; [done|]. exists w. by rewrite lookup_delete_ne by (intros ->; by apply Hne).
    + intros t [v Hv] _. apply lookup_delete_Some in Hv as [Hne Hv]. apply K4; [eauto|congruence].
  - destruct pv_calls0 as [C1 C2 C3]. split; intros *.
    + intros [_ H]%lookup_delete_Some. eauto.
    + intros Hne [_ H]%lookup_delete_Some [_ H']%lookup_delete_Some. eauto.
    + intros Hne [_ H]%lookup_delete_Some [_ H']%lookup_delete_Some. eauto.
  - simpl. by rewrite pv_view0, fmap_delete.
  - rewrite Hs. lia.
  - rewrite Hs. lia.
  - intros [v Hv]. apply lookup_delete_Some in Hv as [Hne Hv]. assert (Some c = Some None) as [= ->] by (apply pv_isr0; eauto). done.
Qed.

Definition next_ok (cap : Z) (es : list pipe_event) (x : world) (cs : gmap caller call) (n : Z) (s : stream) : Prop :=
  exists s', stream_run cap es s = Some s' /\ pipe_inv None x cs n s' /\ lacking x /\ x.(pipe).(buf).(size) = cap.

Lemma leave_ok cap c u x cs n s r need : pipe_inv (Some c) x cs n s -> lacking x -> cap = x.(pipe).(buf).(size) -> cs !! c = Some u -> - 2 ^ 31 <= r < 2 ^ 31 ->
  right_result (view x u) r (load x.(bytes_) (area_of x u).1 r) s = true ->
  exists x', leave r need x = (Returns r, x') /\ x'.(bytes_) = x.(bytes_) /\ x'.(specs) = x.(specs) /\
    next_ok cap (ending (Returns r) c u x') x' (delete c cs) n s.
Proof.
  intros Hi HL Hcap Hu Hr Hres. unfold leave. rewrite i32_small by done. set (x' := if need then _ else _).
  assert (Hx : x'.(bytes_) = x.(bytes_) /\ x'.(specs) = x.(specs)) by (subst x'; by destruct need). destruct Hx as [E1 E2].
  exists x'. split; [done|]. split; [done|]. split; [done|].
  assert (Hv : (area_of x' u).1 = (area_of x u).1) by (destruct u; simpl; by rewrite ?E2).
  exists (set_acalls (delete c s.(acalls)) s). split.
  - unfold ending. cbn [stream_run stream_step mbind option_bind]. rewrite (pv_view _ _ _ _ _ Hi), lookup_fmap, Hu. cbn [fmap option_fmap option_map mbind option_bind].
    by rewrite E1, Hv, Hres.
  - pose proof (delete_inv c x cs n s Hi) as Hd. pose proof (reschedule_calms x.(pipe).(data_q) x.(pipe).(space_q) (delete c cs) x.(kern) (ko_sys _ _ _ _ _ (pv_kern _ _ _ _ _ Hd))) as HC.
    subst x'. destruct need; [|done]. split; [by apply (calms_inv None x _ n _ (reschedule x.(kern)))|]. split; [by eapply (calms_lacking x)|done].
Qed.

(** *** Waiting *)

(** What the call [u] waits for, and where. *)
Definition waits_for (x : world) (u : call) (w : wqid) (v : Z) (s : stream) : Prop :=
  match u with
  | Writes _ => w = x.(pipe).(space_q) /\ len s.(pending) = x.(pipe).(buf).(size)
  | Reads a _ => w = x.(pipe).(data_q) /\ v = a /\ s.(pending) = [] /\ (x.(specs) a).(used) < (x.(specs) a).(spec_len)
  end.

Lemma data_swap_invisible v : invisible (set_swap_data v).
Proof. intros th. by split; [split|]. Qed.

Lemma wait_kern c u x cs n s w v k' : pipe_inv (Some c) x cs n s -> cs !! c = Some u -> c = Some x.(kern).(current) -> waits_for x u w v s ->
  waits w (on_thread x.(kern).(current) (set_swap_data v) x.(kern)) k' -> kern_ok x.(pipe).(data_q) x.(pipe).(space_q) None cs k'.
Proof.
  intros Hi Hu Hc Hw Hwt. destruct (pv_kern _ _ _ _ _ Hi) as [K1 K2 K3 K4]. pose proof (pv_queues _ _ _ _ _ Hi) as Hq. destruct Hwt as [W1 W2 W3 W4 W5 _ _].
  set (k1 := on_thread _ _ _) in *. change (current k1) with x.(kern).(current) in *. set (me := x.(kern).(current)) in *.
  assert (Eo : forall t, t <> me -> thr k' t = thr x.(kern) t) by (intros t Hne; rewrite W5 by done; by apply thr_ne).
  assert (Em : (thr k' me).(swap_data) = v /\ (thr k' me).(swap_retval) = - EAGAIN).
  { rewrite W4. split; [|done]. unfold cur. change (current k1) with me. unfold k1. by rewrite thr_eq. }
  assert (Hin : forall q t, t ∈ k'.(waitqs) q -> t ∈ x.(kern).(waitqs) q \/ q = w /\ t = me).
  { intros q t Ht. destruct (decide (q = w)) as [->|Hne]; [|rewrite W3 in Ht by done; by left]. rewrite W2 in Ht. apply elem_of_add in Ht as [->|Ht]; auto. }
  split; [done| | |].
  - intros t Ht. destruct (decide (t = me)) as [->|Hne].
    + split; [done|]. destruct (Hin _ _ Ht) as [H|[Ew _]]; [by destruct (K2 _ H) as [[] _]; subst c|].
      destruct u as [wc|a e]; [destruct Hw as [-> _]; done|]. destruct Hw as (_ & <- & _). exists v, e. rewrite <- Hc. by destruct Em.
    + destruct (Hin _ _ Ht) as [H|[_ E]]; [|done]. destruct (K2 _ H) as [_ Ha]. rewrite Eo by done. done.
  - intros t Ht. split; [done|]. destruct (Hin _ _ Ht) as [H|[Ew ->]]; [by apply (K3 _ H)|]. rewrite <- Hc.
    destruct u as [wc|a e]; [eauto|]. destruct Hw as (-> & _). by destruct Hq.
  - intros t Ht _. destruct (decide (t = me)) as [->|Hne]; [by right; apply Em|]. rewrite Eo by done. apply K4; [done|congruence].
Qed.

Lemma wait_ok cap c u x cs n s w v end_ : pipe_inv (Some c) x cs n s -> lacking x -> cs !! c = Some u -> c = this_caller x.(kern) ->
  in_thread x.(kern) \/ end_ = 0 -> cap = x.(pipe).(buf).(size) -> waits_for x u w v s -> s.(is_open) = true ->
  wait_for w end_ v x = (Returns (- EAGAIN), x) \/
  exists x', wait_for w end_ v x = (Blocks, x') /\ x'.(bytes_) = x.(bytes_) /\ x'.(specs) = x.(specs) /\ next_ok cap [Suspends c] x' cs n s.
Proof.
  intros Hi HL Hu Hc Ht Hcap Hw Ho. unfold wait_for. destruct (Z.eqb_spec (sys_timepoint_timeout x.(kern).(clk) end_) K_NO_WAIT) as [E|E]; [by left|right].
  destruct Ht as [[Hisr Hidle]|Ht]; [|by rewrite Ht in E]. unfold this_caller in Hc. rewrite Hisr in Hc.
  set (k1 := on_thread _ _ _). assert (Hs1 : sys_ok k1) by (apply invisible_sys; [apply (pv_kern _ _ _ _ _ Hi)|apply data_swap_invisible]).
  destruct (pend_waits Hdl Hmi k1 w (sys_timepoint_timeout x.(kern).(clk) end_) Hs1 Hisr Hidle) as (k' & -> & Hwt).
  pose proof (wait_kern c u x cs n s w v k' Hi Hu Hc Hw Hwt) as Hk. eexists. split; [done|]. split; [done|]. split; [done|].
  destruct (pv_running _ _ _ _ _ Hi c eq_refl) as [_ Hr]. pose proof (pv_count _ _ _ _ _ Hi) as Hn. pose proof (pv_small _ _ _ _ _ Hi) as Hsm. pose proof (pv_queues _ _ _ _ _ Hi) as Hq.
  assert (Hq' : forall q, k'.(waitqs) q = if decide (q = w) then z_priq_simple_add k1.(threads) (x.(kern).(waitqs) w) x.(kern).(current) else x.(kern).(waitqs) q).
  { intros q. case_decide as Eq; [subst q|]; [apply Hwt|by apply Hwt]. }
  cbv iota in Hn.
  assert (Hwait : u32 (x.(pipe).(waiting) + 1) = x.(pipe).(waiting) + 1).
  { unfold u32. apply Z.mod_small. pose proof (pv_suspended _ _ _ _ _ Hi). assert (0 < count cs) by (unfold count; assert (base.size cs <> 0%nat) by (apply map_size_ne_0_lookup; eauto); lia). lia. }
  exists (Stream s.(pending) s.(acalls) s.(is_open) s.(resetting) (s.(suspended) + 1)). split; [|split; [|split; [|done]]].
  - cbn [stream_run stream_step mbind option_bind]. rewrite (pv_view _ _ _ _ _ Hi), lookup_fmap, Hu. cbn [fmap option_fmap option_map mbind option_bind view reads]. rewrite Ho, Hr. cbn [negb andb].
    assert (Hg : (if is_read u then bool_decide (pending s = []) else len (pending s) =? cap) = true).
    { destruct u as [wc|a e]; simpl; [rewrite Hcap; apply Z.eqb_eq, Hw|apply bool_decide_eq_true, Hw]. }
    rewrite Hg. reflexivity.
  - destruct Hi. split; simpl; try done.
    + apply (calls_frame x); try done.
    + by rewrite pv_suspended0, Hwait.
    + rewrite Hwait. lia.
    + intros Hnone. specialize (pv_isr0 Hnone). congruence.
    + rewrite Hq'. destruct (decide (data_q (pipe x) = w)) as [Eq|_]; [|done]. destruct u as [wc|a e]; [|by intros; apply Hw]. destruct Hw as [Ew _]. congruence.
    + rewrite Hq'. destruct (decide (space_q (pipe x) = w)) as [Eq|_]; [|done]. destruct u as [wc|a e]; [by intros; apply Hw|]. destruct Hw as [Ew _]. congruence.
    + congruence.
    + intros [H|H]; congruence.
  - intros t Ht. unfold readers in Ht. simpl in Ht. destruct (ko_data _ _ _ _ _ Hk t Ht) as (_ & a & e & Ea & Es). simpl. rewrite Es.
    destruct (decide (t = x.(kern).(current))) as [->|Hne].
    + assert (Some u = Some (Reads a e)) as [= ->] by (rewrite <- Ea, <- Hu, Hc; done). apply Hw.
    + specialize (HL t). unfold readers in HL. rewrite Hq' in Ht. assert (Hin : t ∈ x.(kern).(waitqs) x.(pipe).(data_q)).
      { case_decide as Eq; [|done]. rewrite Eq. apply elem_of_add in Ht as [?|?]; done. }
      specialize (HL Hin). destruct (ko_data _ _ _ _ _ (pv_kern _ _ _ _ _ Hi) t Hin) as (_ & a' & e' & Ea' & Es'). rewrite Es' in HL. congruence.
Qed.

(** *** Progress of a round *)

Lemma load_app m a i j : 0 <= i -> 0 <= j -> load m a (i + j) = load m a i ++ load m (a + i) j.
Proof. intros. unfold load. by rewrite seqZ_app, fmap_app by lia. Qed.
Lemma load_same m m' a n : (forall y, a <= y < a + n -> m' y = m y) -> load m' a n = load m a n.
Proof. intros H. apply fmap_same. intros y Hy%elem_of_seqZ. apply H. lia. Qed.
Lemma load_memcpy m d a n : 0 <= n -> load (memcpy d a n m) d n = load m a n.
Proof.
  intros Hn. unfold load. apply list_eq. intros j. rewrite !list_lookup_fmap. destruct (decide (Z.of_nat j < n)); [|by rewrite !lookup_seqZ_ge by lia].
  rewrite !lookup_seqZ_lt by lia. simpl. f_equal. unfold memcpy. rewrite (proj2 (Z.leb_le _ _)), (proj2 (Z.ltb_lt _ _)) by lia. simpl. f_equal. lia.
Qed.

(** The same calls, further on. *)
Record further (cs cs' : gmap caller call) : Prop := {
  fu_count : count cs' = count cs;
  fu_back : forall c u', cs' !! c = Some u' -> exists u, cs !! c = Some u /\ is_read u' = is_read u /\ (forall a e, u' = Reads a e -> u = Reads a e);
  fu_reads : forall c a e, cs !! c = Some (Reads a e) -> cs' !! c = Some (Reads a e);
  fu_writes : forall c w, cs !! c = Some (Writes w) -> exists w', cs' !! c = Some (Writes w')
}.

Lemma further_refl cs : further cs cs.
Proof. split; eauto. Qed.

Lemma further_write cs c w w' : cs !! c = Some (Writes w) -> further cs (<[c := Writes w']> cs).
Proof.
  intros Hc. split.
  - unfold count. by rewrite map_size_insert_Some by eauto.
  - intros i u' Hu. destruct (decide (i = c)) as [->|Hne]; [rewrite lookup_insert_eq in Hu|rewrite lookup_insert_ne in Hu by done; eauto].
    injection Hu as <-. by exists (Writes w).
  - intros i a e Hi. rewrite lookup_insert_ne; [done|]. intros ->. congruence.
  - intros i w1 Hi. destruct (decide (i = c)) as [->|Hne]; [rewrite lookup_insert_eq; eauto|rewrite lookup_insert_ne by done; eauto].
Qed.

Lemma further_kern dq sq run cs cs' k : further cs cs' -> kern_ok dq sq run cs k -> kern_ok dq sq run cs' k.
Proof.
  intros HF [K1 K2 K3 K4]. split; [done| | |].
  - intros t Ht. destruct (K2 t Ht) as (Hne & a & e & E & Ea). split; [done|]. exists a, e. split; [by apply HF|done].
  - intros t Ht. destruct (K3 t Ht) as (Hne & w & E). split; [done|]. by eapply HF.
  - intros t [u' Hu] Hne. destruct (fu_back _ _ HF _ _ Hu) as (u & E & _). eauto.
Qed.

Lemma further_calls x x' cs cs' : further cs cs' -> calls_ok x cs ->
  (forall c u u', cs !! c = Some u -> cs' !! c = Some u' -> area_of x' u' = area_of x u /\ 0 <= progress x' u' <= (area_of x u).2) ->
  x'.(pipe).(buf).(buffer) = x.(pipe).(buf).(buffer) -> x'.(pipe).(buf).(size) = x.(pipe).(buf).(size) -> calls_ok x' cs'.
Proof.
  intros HF [C1 C2 C3] Ha Eb Es. split.
  - intros c u' Hu'. destruct (fu_back _ _ HF _ _ Hu') as (u & Hu & _). destruct (Ha c u u' Hu Hu') as [-> Hp]. rewrite Eb, Es. split; [done|]. by eapply C1.
  - intros c c' u u' Hne Hu Hu' Hr. destruct (fu_back _ _ HF _ _ Hu) as (v & Hv & Ev & _), (fu_back _ _ HF _ _ Hu') as (v' & Hv' & _).
    destruct (Ha c v u Hv Hu) as [-> _], (Ha c' v' u' Hv' Hu') as [-> _]. apply (C2 c c'); congruence.
  - intros c c' a a' e e' Hne Hu Hu'. destruct (fu_back _ _ HF _ _ Hu) as (v & Hv & _ & Ev), (fu_back _ _ HF _ _ Hu') as (v' & Hv' & _ & Ev').
    rewrite (Ev _ _ eq_refl) in Hv. rewrite (Ev' _ _ eq_refl) in Hv'. eauto.
Qed.

(** A round that goes on with bytes moved. *)
Lemma further_inv c x cs n s b S m l cs' A : pipe_inv (Some c) x cs n s -> further cs cs' -> let x' := World (set_buf b x.(pipe)) S m x.(kern) in
  holds b m l -> calls_ok x' cs' -> A = view x' <$> cs' -> b.(size) = x.(pipe).(buf).(size) ->
  (x.(kern).(waitqs) x.(pipe).(data_q) <> [] -> l = []) -> (x.(kern).(waitqs) x.(pipe).(space_q) <> [] -> len l = b.(size)) ->
  pipe_inv (Some c) x' cs' n (Stream l A s.(is_open) s.(resetting) s.(suspended)).
Proof.
  intros [] HF x' Hh Hco Hv Hs Hr Hwr. split; simpl; try done.
  - by eapply further_kern.
  - rewrite (fu_count _ _ HF). done.
  - rewrite (fu_count _ _ HF). done.
  - intros c' [= <-]. destruct (pv_running0 c eq_refl) as [[u Hu] H2]. split; [|done]. destruct u as [w|a e]; [destruct (fu_writes _ _ HF _ _ Hu)|pose proof (fu_reads _ _ HF _ _ _ Hu)]; eauto.
  - intros [u' Hu']. apply pv_isr0. destruct (fu_back _ _ HF _ _ Hu') as (u & Hu & _). eauto.
Qed.

Lemma moves_ok rd c l d s : s.(acalls) !! c = Some (Acall rd l) -> moves rd c d s = Some (set_acalls (<[c := Acall rd (l ++ d)]> s.(acalls)) s).
Proof. intros H. unfold moves. rewrite H. cbn [mbind option_bind reads moved]. by rewrite eqb_reflx. Qed.

(** *** Copying to the readers that wait *)

Lemma set_buf_same p : set_buf p.(buf) p = p.
Proof. by destruct p. Qed.

Lemma reader_call run x cs n s t : pipe_inv run x cs n s -> t ∈ readers x -> run <> Some (Some t) /\ exists e, cs !! Some t = Some (Reads (thr x.(kern) t).(swap_data) e).
Proof. intros Hi Ht. destruct (ko_data _ _ _ _ _ (pv_kern _ _ _ _ _ Hi) t Ht) as (Hne & a & e & E & <-). eauto. Qed.

(** The state after [k] bytes went from the call [w] to the reader [t]. *)
Definition gift (w : write_call) (t : tid) (k : Z) (x : world) : world :=
  let a := (thr x.(kern) t).(swap_data) in let sp := x.(specs) a in
  World x.(pipe) (upd a (set_used (sp.(used) + k) sp) x.(specs))
    (memcpy (sp.(spec_data) + sp.(used)) (w.(w_data) + w.(w_written)) k x.(bytes_)) x.(kern).

Section gift.
Context (c : caller) (w : write_call) (x : world) (cs : gmap caller call) (n : Z) (s : stream) (t : tid) (e k : Z).
Notation a := (thr x.(kern) t).(swap_data).
Notation sp := (x.(specs) (thr x.(kern) t).(swap_data)).
Context (Hi : pipe_inv (Some c) x cs n s) (Hw : cs !! c = Some (Writes w)) (Hc : c <> Some t) (He : cs !! Some t = Some (Reads a e)).
Context (Hk : 0 <= k <= w.(w_len) - w.(w_written)) (Hk' : k <= sp.(spec_len) - sp.(used)).
Let x1 := gift w t k x.
Let w1 := set_written (w.(w_written) + k) w.

Lemma gift_bounds : 0 <= sp.(used) <= sp.(spec_len) /\ 0 <= w.(w_written) <= w.(w_len).
Proof. destruct (co_bounds _ _ (pv_calls _ _ _ _ _ Hi) _ _ Hw) as [H1 _], (co_bounds _ _ (pv_calls _ _ _ _ _ Hi) _ _ He) as [H2 _]. done. Qed.

(** Only the reader's buffer changes, behind what it got before. *)
Lemma gift_bytes y : ~ (sp.(spec_data) + sp.(used) <= y < sp.(spec_data) + sp.(used) + k) -> x1.(bytes_) y = x.(bytes_) y.
Proof. apply memcpy_out. Qed.

Lemma gift_far i u y : cs !! i = Some u -> i <> Some t -> (area_of x u).1 <= y < (area_of x u).1 + (area_of x u).2 -> x1.(bytes_) y = x.(bytes_) y.
Proof.
  intros Hu Hne Hy. apply gift_bytes. pose proof gift_bounds. pose proof (co_apart _ _ (pv_calls _ _ _ _ _ Hi) (Some t) i _ _ (not_eq_sym Hne) He Hu eq_refl) as Hap.
  unfold apart in Hap. simpl in Hap. lia.
Qed.

Lemma gift_area i u : cs !! i = Some u -> area_of x1 u = area_of x u.
Proof. intros Hu. destruct u as [v|b e']; [done|]. simpl. destruct (decide (b = a)) as [->|Hne]; [by rewrite upd_eq|by rewrite upd_ne]. Qed.

Lemma gift_progress i u : cs !! i = Some u -> i <> Some t -> progress x1 u = progress x u.
Proof.
  intros Hu Hne. destruct u as [v|b e']; [done|]. simpl. rewrite upd_ne; [done|]. apply not_eq_sym, (co_addr _ _ (pv_calls _ _ _ _ _ Hi) (Some t) i _ _ _ _ (not_eq_sym Hne) He Hu).
Qed.

Lemma gift_view i u : cs !! i = Some u -> i <> Some t -> view x1 u = view x u.
Proof.
  intros Hu Hne. unfold view. rewrite (gift_area i u Hu), (gift_progress i u Hu Hne). f_equal. apply load_same. intros y Hy. apply (gift_far i u y Hu Hne).
  destruct (co_bounds _ _ (pv_calls _ _ _ _ _ Hi) _ _ Hu). lia.
Qed.

Lemma gift_reader : view x1 (Reads a e) = Acall true (moved (view x (Reads a e)) ++ load x1.(bytes_) (sp.(spec_data) + sp.(used)) k).
Proof.
  pose proof gift_bounds. unfold view. f_equal. simpl area_of. simpl progress. rewrite upd_eq. cbn [set_used spec_data used fst moved]. rewrite load_app by lia. f_equal.
  apply load_same. intros y Hy. apply gift_bytes. lia.
Qed.

Lemma gift_loaded : load x1.(bytes_) (sp.(spec_data) + sp.(used)) k = load x.(bytes_) (w.(w_data) + w.(w_written)) k.
Proof. apply load_memcpy. lia. Qed.

Lemma gift_writer : view x1 (Writes w1) = Acall false (moved (view x (Writes w)) ++ load x1.(bytes_) (sp.(spec_data) + sp.(used)) k).
Proof.
  pose proof gift_bounds. rewrite gift_loaded. unfold view. f_equal. cbn [area_of progress fst snd w1 set_written w_data w_written moved]. rewrite load_app by lia.
  f_equal; apply load_same; intros y Hy; apply (gift_far c (Writes w) y Hw Hc); simpl; lia.
Qed.

Lemma gift_calls : calls_ok x1 (<[c := Writes w1]> cs).
Proof.
  pose proof gift_bounds. apply (further_calls x x1 cs); [by eapply further_write|apply (pv_calls _ _ _ _ _ Hi)| |done..].
  intros i u u' Hu Hu'. destruct (co_bounds _ _ (pv_calls _ _ _ _ _ Hi) _ _ Hu) as [Hb _]. destruct (decide (i = c)) as [->|Hne].
  - rewrite lookup_insert_eq in Hu'. rewrite Hw in Hu. simplify_eq. simpl. split; [done|lia].
  - rewrite lookup_insert_ne in Hu' by done. rewrite Hu in Hu'. simplify_eq. split; [by eapply gift_area|].
    destruct (decide (i = Some t)) as [->|Hnt]; [|by rewrite (gift_progress i)]. assert (Some u' = Some (Reads a e)) as [= ->] by (etrans; [symmetry; exact Hu|exact He]). simpl. rewrite upd_eq. simpl in *. lia.
Qed.

Lemma gift_ok cap : s.(pending) = [] -> exists A, let s1 := set_acalls A s in
  stream_step cap (Passed c (Some t) (load x1.(bytes_) (sp.(spec_data) + sp.(used)) k)) s = Some s1 /\ pipe_inv (Some c) x1 (<[c := Writes w1]> cs) n s1.
Proof.
  intros Hp. set (d := load _ _ k). pose proof (pv_view _ _ _ _ _ Hi) as Hv.
  assert (Hc1 : s.(acalls) !! c = Some (view x (Writes w))) by (rewrite Hv, lookup_fmap, Hw; done).
  assert (Ht1 : s.(acalls) !! Some t = Some (view x (Reads a e))) by (rewrite Hv, lookup_fmap, He; done).
  eexists. split.
  - cbn [stream_step]. rewrite bool_decide_eq_true_2 by done. rewrite (moves_ok false c _ d s Hc1). cbn [mbind option_bind].
    rewrite (moves_ok true (Some t) (moved (view x (Reads a e)))); [|simpl; rewrite lookup_insert_ne by done; exact Ht1]. reflexivity.
  - replace x1 with (World (set_buf x.(pipe).(buf) x.(pipe)) x1.(specs) x1.(bytes_) x.(kern)) by (by rewrite set_buf_same).
    unfold set_acalls. simpl acalls. rewrite Hp. apply (further_inv c x cs n s); try done; [by eapply further_write| |rewrite set_buf_same; apply gift_calls| |].
    + rewrite <- Hp. eapply holds_ext; [apply Hi|]. intros y Hy. apply gift_bytes. pose proof gift_bounds.
      destruct (co_bounds _ _ (pv_calls _ _ _ _ _ Hi) _ _ He) as (_ & _ & Hap). unfold apart, in_buf in *. simpl in Hap. lia.
    + rewrite set_buf_same. change (World (pipe x) (specs x1) (bytes_ x1) (kern x)) with x1. pose proof gift_reader as Gr. pose proof gift_writer as Gw. fold d in Gr, Gw.
      apply map_eq. intros i. rewrite lookup_fmap. destruct (decide (i = Some t)) as [->|Hnt].
      { rewrite lookup_insert_eq, lookup_insert_ne, He by done. simpl. by rewrite Gr. }
      rewrite lookup_insert_ne by done. destruct (decide (i = c)) as [->|Hnc]; [rewrite !lookup_insert_eq; simpl; by rewrite Gw|].
      rewrite !lookup_insert_ne, Hv, lookup_fmap by done. destruct (cs !! i) as [u|] eqn:Hu; [|done]. simpl. by rewrite (gift_view i u Hu Hnt).
    + intros H. rewrite <- Hp. by apply (pv_writers _ _ _ _ _ Hi).
Qed.
End gift.

(** Readers that got nothing. *)
Lemma idle_passes cap c l x x' ts s : s.(pending) = [] -> s.(acalls) !! c = Some (Acall false l) ->
  (forall t, t ∈ ts -> exists l', s.(acalls) !! Some t = Some (Acall true l')) -> (forall t, t ∈ ts -> grown x x' t = []) ->
  stream_run cap (passes c x x' ts) s = Some s.
Proof.
  intros Hp Hc Hr Hg. induction ts as [|t ts IH]; [done|]. cbn [passes map stream_run stream_step]. rewrite (Hg t), bool_decide_eq_true_2 by (done || set_solver +).
  rewrite (moves_ok false c l [] s Hc), app_nil_r, insert_id by done. cbn [mbind option_bind]. destruct (Hr t) as [l' Ht]; [set_solver +|].
  rewrite (moves_ok true (Some t) l' []) by done. cbn [mbind option_bind set_acalls acalls]. rewrite app_nil_r, insert_id by done. unfold set_acalls. destruct s. apply IH; set_solver.
Qed.

Lemma same_grown x x' t : x'.(specs) (thr x.(kern) t).(swap_data) = x.(specs) (thr x.(kern) t).(swap_data) -> grown x x' t = [].
Proof. intros E. unfold grown. by rewrite E, Z.sub_diag. Qed.

Lemma idle_readers cap c w x0 x' x cs n s ts : pipe_inv (Some c) x cs n s -> cs !! c = Some (Writes w) -> s.(pending) = [] -> (forall t, t ∈ ts -> t ∈ readers x) ->
  (forall t, t ∈ ts -> x'.(specs) (thr x0.(kern) t).(swap_data) = x0.(specs) (thr x0.(kern) t).(swap_data)) ->
  stream_run cap (passes c x0 x' ts) s = Some s /\ total x0 x' ts = 0.
Proof.
  intros Hi Hw Hp Hts Hsp. assert (Hg : forall t, t ∈ ts -> grown x0 x' t = []) by (intros t Ht; by apply same_grown, Hsp). split.
  - eapply idle_passes; [done|rewrite (pv_view _ _ _ _ _ Hi), lookup_fmap, Hw; done| |done]. intros t Ht. destruct (reader_call _ _ _ _ _ t Hi (Hts t Ht)) as (_ & e & E).
    rewrite (pv_view _ _ _ _ _ Hi), lookup_fmap, E. simpl. eauto.
  - unfold total. assert (Hn : concat (map (grown x0 x') ts) = []); [|by rewrite Hn]. clear Hts Hsp. induction ts as [|t ts IH]; [done|]. simpl. rewrite Hg by set_solver +. apply IH. set_solver.
Qed.

(** What the loop does not touch. *)
Record gifts_frame (x x' : world) : Prop := {
  gf_pipe : x'.(pipe) = x.(pipe);
  gf_cpu : same_cpu x.(kern) x'.(kern);
  gf_specs : forall a, (forall t, t ∈ readers x -> (thr x.(kern) t).(swap_data) <> a) -> x'.(specs) a = x.(specs) a;
  gf_bytes : forall y, (forall t, t ∈ readers x -> let s := x.(specs) (thr x.(kern) t).(swap_data) in ~ (s.(spec_data) <= y < s.(spec_data) + s.(spec_len))) ->
    x'.(bytes_) y = x.(bytes_) y;
  gf_area : forall a, (x'.(specs) a).(spec_data) = (x.(specs) a).(spec_data) /\ (x'.(specs) a).(spec_len) = (x.(specs) a).(spec_len)
}.

(** The first reader got its bytes, and then the others got theirs. *)
Lemma passes_after c x x1 x2 t r d : readers x = t :: r -> NoDup (t :: r) -> gifts_frame x1 x2 -> readers x1 = r ->
  (forall t', t' ∈ r -> thr x1.(kern) t' = thr x.(kern) t') ->
  (forall a, a <> (thr x.(kern) t).(swap_data) -> x1.(specs) a = x.(specs) a) ->
  (forall t', t' ∈ r -> (thr x.(kern) t').(swap_data) <> (thr x.(kern) t).(swap_data) /\
     let s := x.(specs) (thr x.(kern) t).(swap_data) in let s' := x.(specs) (thr x.(kern) t').(swap_data) in apart s.(spec_data) s.(spec_len) s'.(spec_data) s'.(spec_len)) ->
  let s := x.(specs) (thr x.(kern) t).(swap_data) in let s1 := x1.(specs) (thr x.(kern) t).(swap_data) in 0 <= s.(used) -> s1.(used) <= s.(spec_len) ->
  d = load x1.(bytes_) (s.(spec_data) + s.(used)) (s1.(used) - s.(used)) ->
  passes c x x2 (t :: r) = Passed c (Some t) d :: passes c x1 x2 r /\ map (grown x x2) r = map (grown x1 x2) r /\ grown x x2 t = d.
Proof.
  intros Hr Hnd HF Hr1 Hth Hsp Hap s s1 H0 H1 ->.
  assert (Hg : forall t', t' ∈ r -> grown x x2 t' = grown x1 x2 t').
  { intros t' Ht'. unfold grown. rewrite (Hth t' Ht'), Hsp by (by apply Hap). done. }
  assert (Hgt : grown x x2 t = load x1.(bytes_) (s.(spec_data) + s.(used)) (s1.(used) - s.(used))).
  { unfold grown. fold s. rewrite (gf_specs _ _ HF); [|intros t' Ht'; rewrite Hr1 in Ht'; rewrite (Hth t' Ht'); by apply Hap]. fold s1. apply load_same. intros y Hy.
    apply (gf_bytes _ _ HF). intros t' Ht'. rewrite Hr1 in Ht'. rewrite (Hth t' Ht'), Hsp by (by apply Hap). destruct (Hap t' Ht') as [_ Hd]. fold s in Hd. unfold apart in Hd. simpl in Hd |- *. lia. }
  unfold passes. cbn [map]. rewrite Hgt. split; [f_equal|split; [|done]]; apply map_ext_in; intros t' Ht'%list_elem_of_In; [f_equal|]; by apply Hg.
Qed.

Lemma frame_trans x x1 x2 : gifts_frame x x1 -> gifts_frame x1 x2 ->
  (forall t, t ∈ readers x1 -> t ∈ readers x /\ (thr x1.(kern) t).(swap_data) = (thr x.(kern) t).(swap_data)) -> gifts_frame x x2.
Proof.
  intros [F1 F2 F3 F4 F5] [G1 G2 G3 G4 G5] Hr. split; [congruence|by etrans| | |intros a; destruct (F5 a), (G5 a); split; congruence].
  - intros a Ha. rewrite G3, F3; [done..|]. intros t Ht. destruct (Hr t Ht) as [Hin ->]. by apply Ha.
  - intros y Hy. rewrite G4, F4; [done..|]. intros t Ht. destruct (Hr t Ht) as [Hin ->]. cbv zeta. destruct (F5 (thr x.(kern) t).(swap_data)) as [-> ->]. by apply Hy.
Qed.

(** The first reader, served and perhaps released. *)
Definition served (w : write_call) (t : tid) (k : Z) (done_ : bool) (x : world) : world :=
  if done_ then on_kern (reader_done t) (gift w t k x) else gift w t k x.

Section served.
Context (c : caller) (w : write_call) (x : world) (cs : gmap caller call) (n : Z) (s : stream) (t : tid) (r : list tid) (k : Z) (b : bool).
Notation a := (thr x.(kern) t).(swap_data).
Notation sp := (x.(specs) (thr x.(kern) t).(swap_data)).
Context (Hi : pipe_inv (Some c) x cs n s) (HL : lacking x) (Hw : cs !! c = Some (Writes w)) (Hr : readers x = t :: r).
Context (Hk : 0 <= k <= w.(w_len) - w.(w_written)) (Hk' : k <= sp.(spec_len) - sp.(used)) (Hb : b = negb (sp.(used) + k <? sp.(spec_len))).
Let x1 := served w t k b x.
Let w1 := set_written (w.(w_written) + k) w.

Lemma served_parts : x1.(pipe) = x.(pipe) /\ x1.(specs) = (gift w t k x).(specs) /\ x1.(bytes_) = (gift w t k x).(bytes_) /\
  (exists ts, releases x.(pipe).(data_q) ts (if b then r else t :: r) x.(kern) x1.(kern) /\ ts ++ (if b then r else t :: r) = t :: r).
Proof.
  pose proof (proj1 (proj1 (ko_sys _ _ _ _ _ (pv_kern _ _ _ _ _ Hi)))) as Hok. unfold x1, served. destruct b; (split; [done|]; split; [done|]; split; [done|]).
  - exists [t]. split; [|done]. by apply (reader_done_releases Hdl Hmi).
  - exists []. split; [|done]. rewrite <- Hr. by apply releases_nobody.
Qed.

Lemma served_reader t' : t' ∈ readers x1 -> t' ∈ readers x /\ (thr x1.(kern) t').(swap_data) = (thr x.(kern) t').(swap_data).
Proof.
  destruct served_parts as (Ep & _ & _ & ts & HR & _). unfold readers. rewrite Ep.
  apply (cl_queues _ _ _ _ _ (releases_calms x.(pipe).(data_q) x.(pipe).(space_q) cs _ _ _ _ _ (ko_sys _ _ _ _ _ (pv_kern _ _ _ _ _ Hi)) HR)). by left.
Qed.

Lemma served_specs b' : b' <> a -> x1.(specs) b' = x.(specs) b'.
Proof. intros Hne. destruct served_parts as (_ & -> & _). simpl. by rewrite upd_ne. Qed.

Lemma served_spec : x1.(specs) a = set_used (sp.(used) + k) sp.
Proof. destruct served_parts as (_ & -> & _). simpl. by rewrite upd_eq. Qed.

Lemma served_frame : gifts_frame x x1.
Proof.
  pose proof Hi as Hi'. destruct (reader_call _ _ _ _ _ t Hi) as (_ & e & He); [rewrite Hr; set_solver +|]. destruct (co_bounds _ _ (pv_calls _ _ _ _ _ Hi) _ _ He) as [Hbd _]. simpl in Hbd.
  pose proof served_parts as (Ep & _ & Eb & ts & HR & _). split; [done|apply HR| | |].
  - intros b' Hb'. apply served_specs. intros ->. apply (Hb' t); [rewrite Hr; set_solver +|done].
  - intros y Hy. rewrite Eb. apply gift_bytes. specialize (Hy t). rewrite Hr in Hy. specialize (Hy ltac:(set_solver +)). simpl in Hy. lia.
  - intros b'. destruct (decide (b' = a)) as [->|Hne]; [by rewrite served_spec|by rewrite served_specs].
Qed.

Lemma served_lacking : lacking x1.
Proof.
  intros t' Ht'. destruct (served_reader t' Ht') as [Hin ->]. cbv zeta. destruct (decide (t' = t)) as [->|Hne].
  - rewrite served_spec. simpl. destruct (Z.lt_ge_cases (used sp + k) (spec_len sp)) as [Hlt|Hge]; [done|]. exfalso. assert (Eb : b = true) by (rewrite Hb; apply negb_true_iff, Z.ltb_ge; lia).
    destruct served_parts as (Ep & _ & _ & ts & HR & _). rewrite Eb in HR. unfold readers in Ht'. rewrite Ep, (rl_queue _ _ _ _ _ HR) in Ht'.
    pose proof (waitq_nodup _ _ x.(pipe).(data_q) (proj1 (proj1 (ko_sys _ _ _ _ _ (pv_kern _ _ _ _ _ Hi))))) as Hnd. unfold readers in Hr. rewrite Hr in Hnd.
    apply NoDup_cons in Hnd as [Hnd _]. done.
  - destruct (reader_call _ _ _ _ _ t Hi) as (_ & e & He); [rewrite Hr; set_solver +|]. destruct (reader_call _ _ _ _ _ t' Hi Hin) as (_ & e' & He').
    rewrite served_specs; [by apply HL|]. apply (co_addr _ _ (pv_calls _ _ _ _ _ Hi) (Some t') (Some t) _ _ e' e); [congruence|done..].
Qed.

Lemma served_ok cap : s.(pending) = [] -> exists s1,
  stream_step cap (Passed c (Some t) (load x1.(bytes_) (sp.(spec_data) + sp.(used)) k)) s = Some s1 /\
  pipe_inv (Some c) x1 (<[c := Writes w1]> cs) n s1 /\ s1.(pending) = [].
Proof.
  intros Hp. destruct (reader_call _ _ _ _ _ t Hi) as (Hne & e & He); [rewrite Hr; set_solver +|].
  destruct (gift_ok c w x cs n s t e k Hi Hw) with (cap := cap) as (A & E & Hg); try done; [congruence|]. exists (set_acalls A s). split; [by unfold x1, served; destruct b|]. split; [|done].
  destruct served_parts as (_ & _ & _ & ts & HR & _). unfold x1, served in *. destruct b; [|done].
  apply (calms_inv _ (gift w t k x) _ _ _ (reader_done t x.(kern)) Hg). eapply releases_calms; [apply (ko_sys _ _ _ _ _ (pv_kern _ _ _ _ _ Hi))|exact HR].
Qed.
End served.

(** What the loop has done when it stops. *)
Record copied_out (cap : Z) (c : caller) (n : Z) (w : write_call) (cs : gmap caller call) (s : stream) (x : world) (len wr wr' : Z) (x' : world) (s' : stream) : Prop := {
  cp_run : stream_run cap (passes c x x' (readers x)) s = Some s';
  cp_inv : pipe_inv (Some c) x' (<[c := Writes (set_written (w.(w_written) + (wr' - wr)) w)]> cs) n s';
  cp_lacking : lacking x';
  cp_total : wr' = wr + total x x' (readers x);
  cp_bound : wr' <= len;
  cp_done : wr' < len -> readers x' = [];
  cp_frame : gifts_frame x x';
  cp_pending : s'.(pending) = []
}.

Lemma total_cons x x' t r : total x x' (t :: r) = len (grown x x' t) + total x x' r.
Proof. unfold total, len. simpl. rewrite length_app. lia. Qed.

Section served_steps.
Context (cap : Z) (c : caller) (n : Z) (w : write_call) (x : world) (cs : gmap caller call) (s : stream) (t : tid) (r : list tid) (L wr : Z).
Notation sp := (x.(specs) (thr x.(kern) t).(swap_data)).
Context (Hi : pipe_inv (Some c) x cs n s) (HL : lacking x) (Hw : cs !! c = Some (Writes w)) (Hr : readers x = t :: r) (Hp : s.(pending) = []).
Context (Hlen : L - wr = w.(w_len) - w.(w_written)).
Let k := Z.min (L - wr) (sp.(spec_len) - sp.(used)).
Let b := negb (sp.(used) + k <? sp.(spec_len)).
Let x1 := served w t k b x.
Let w1 := set_written (w.(w_written) + k) w.

Lemma step_bounds : 0 <= k <= w.(w_len) - w.(w_written) /\ k <= sp.(spec_len) - sp.(used) /\ 0 <= sp.(used).
Proof.
  destruct (reader_call _ _ _ _ _ t Hi) as (_ & e & He); [rewrite Hr; set_solver +|].
  destruct (co_bounds _ _ (pv_calls _ _ _ _ _ Hi) _ _ He) as [H1 _], (co_bounds _ _ (pv_calls _ _ _ _ _ Hi) _ _ Hw) as [H2 _]. simpl in *. unfold k. lia.
Qed.

Lemma step_grown : grown x x1 t = load x1.(bytes_) (sp.(spec_data) + sp.(used)) k.
Proof.
  destruct step_bounds as (H1 & H2 & H3). unfold grown, x1. rewrite (served_spec c w x cs n s t r k b Hi Hr) by done. simpl. f_equal. lia.
Qed.

(** The loop stops here. *)
Lemma step_last : b = false \/ L <= wr + k -> exists s', copied_out cap c n w cs s x L wr (wr + k) x1 s'.
Proof.
  intros Hend. destruct step_bounds as (H1 & H2 & H3). destruct (served_ok c w x cs n s t r k b) with (cap := cap) as (s1 & E & Hi1 & Hp1); try done. fold x1 w1 in E, Hi1.
  assert (Hrx : forall t', t' ∈ r -> t' ∈ readers x1). { intros t' Ht'. destruct (served_parts c w x cs n s t r k b) as (Ep & _ & _ & ts & HR & _); try done. fold x1 in Ep, HR.
    unfold readers. rewrite Ep, (rl_queue _ _ _ _ _ HR). generalize b. intros []; set_solver. }
  destruct (idle_readers cap c w1 x x1 x1 (<[c := Writes w1]> cs) n s1 r) as [Hrun Htot]; try done; [by rewrite lookup_insert_eq| |].
  { intros t' Ht'. eapply served_specs; try done. destruct (reader_call _ _ _ _ _ t Hi) as (_ & e & He); [rewrite Hr; set_solver +|].
    destruct (reader_call _ _ _ _ _ t' Hi) as (_ & e' & He'); [rewrite Hr; set_solver|]. apply (co_addr _ _ (pv_calls _ _ _ _ _ Hi) (Some t') (Some t) _ _ e' e); try done. intros [= ->].
    pose proof (waitq_nodup _ _ x.(pipe).(data_q) (proj1 (proj1 (ko_sys _ _ _ _ _ (pv_kern _ _ _ _ _ Hi))))) as Hnd. unfold readers in Hr. rewrite Hr in Hnd. by apply NoDup_cons in Hnd as [Hnd _]. }
  assert (Hfin : wr + k = L \/ L <= wr + k).
  { destruct Hend as [Eb|?]; [left|by right]. unfold b in Eb. apply negb_false_iff, Z.ltb_lt in Eb. unfold k in *. lia. }
  exists s1. split; try done.
  - rewrite Hr. cbn [passes map stream_run]. rewrite step_grown, E. cbn [mbind option_bind]. exact Hrun.
  - replace (wr + k - wr) with k by lia. exact Hi1.
  - by eapply (served_lacking c w x cs n s t r k b).
  - rewrite Hr, total_cons, Htot, step_grown, load_len by lia. lia.
  - unfold k. lia.
  - intros Hlt. lia.
  - by eapply (served_frame c w x cs n s t r k b).
Qed.

(** The loop goes on with the other readers. *)
Lemma step_more : b = true -> exists s1, pipe_inv (Some c) x1 (<[c := Writes w1]> cs) n s1 /\ lacking x1 /\ readers x1 = r /\ s1.(pending) = [] /\
  forall wr' x' s', copied_out cap c n w1 (<[c := Writes w1]> cs) s1 x1 L (wr + k) wr' x' s' -> copied_out cap c n w cs s x L wr wr' x' s'.
Proof.
  intros Eb. destruct step_bounds as (H1 & H2 & H3). destruct (served_ok c w x cs n s t r k b) with (cap := cap) as (s1 & E & Hi1 & Hp1); try done. fold x1 w1 in E, Hi1.
  destruct (served_parts c w x cs n s t r k b) as (Ep & _ & _ & ts & HR & Ets); try done. fold x1 in Ep, HR.
  assert (Hr1 : readers x1 = r) by (unfold readers; rewrite Ep, (rl_queue _ _ _ _ _ HR); by rewrite Eb).
  pose proof (waitq_nodup _ _ x.(pipe).(data_q) (proj1 (proj1 (ko_sys _ _ _ _ _ (pv_kern _ _ _ _ _ Hi))))) as Hnd. fold (readers x) in Hnd. rewrite Hr in Hnd.
  exists s1. split; [done|]. split; [by eapply (served_lacking c w x cs n s t r k b)|]. split; [done|]. split; [done|]. intros wr' x' s' [P1 P2 P3 P4 P5 P6 P7 P8].
  assert (Hts : forall t', t' ∈ r -> t' ∉ ts). { intros t' Ht' Hin. rewrite Eb in Ets. replace ts with [t] in Hin by (apply (app_inv_tail r); by rewrite Ets). apply NoDup_cons in Hnd as [Hn _]. set_solver. }
  destruct (passes_after c x x1 x' t r (load x1.(bytes_) (sp.(spec_data) + sp.(used)) k)) as (Q1 & Q2 & Q3); try done.
  - intros t' Ht'. apply HR. by apply Hts.
  - intros a Ha. by eapply served_specs.
  - intros t' Ht'. destruct (reader_call _ _ _ _ _ t Hi) as (_ & e & He); [rewrite Hr; set_solver +|]. destruct (reader_call _ _ _ _ _ t' Hi) as (_ & e' & He'); [rewrite Hr; set_solver|].
    assert (Hne : Some t <> Some t') by (intros [= ->]; by apply NoDup_cons in Hnd as [Hn _]). split.
    + by apply (co_addr _ _ (pv_calls _ _ _ _ _ Hi) (Some t') (Some t) _ _ e' e).
    + by apply (co_apart _ _ (pv_calls _ _ _ _ _ Hi) (Some t) (Some t') _ _ Hne He He').
  - unfold x1. erewrite served_spec by done. simpl. lia.
  - f_equal. unfold x1. erewrite served_spec by done. simpl. lia.
  - rewrite Hr1 in *. split; try done.
    + rewrite Hr, Q1. cbn [stream_run]. rewrite E. cbn [mbind option_bind]. exact P1.
    + rewrite insert_insert_eq in P2. replace (set_written (w_written w + (wr' - wr)) w) with (set_written (w_written w1 + (wr' - (wr + k))) w1); [done|]. unfold w1, set_written. simpl. f_equal. lia.
    + rewrite P4, Hr, total_cons, Q3, load_len by lia. unfold total. rewrite Q2. lia.
    + eapply frame_trans; [by eapply (served_frame c w x cs n s t r k b)|exact P7|].
      intros t' Ht'. by eapply (served_reader c w x cs n s t r k b).
Qed.
End served_steps.

Lemma set_written_same w : set_written w.(w_written) w = w.
Proof. by destruct w. Qed.

Lemma copy_loop_ok cap c n fuel x cs s w data L wr need : (length (readers x) < fuel)%nat -> pipe_inv (Some c) x cs n s -> lacking x -> cs !! c = Some (Writes w) ->
  s.(pending) = [] -> data + wr = w.(w_data) + w.(w_written) -> L - wr = w.(w_len) - w.(w_written) ->
  exists wr' need' x' s', copy_loop fuel data L wr need x = (wr', need', x') /\ copied_out cap c n w cs s x L wr wr' x' s'.
Proof.
  revert x cs s w wr need. induction fuel as [|fuel IH]; intros x cs s w wr need Hf Hi HL Hw Hp Hd Hlen; [lia|]. cbn [copy_loop]. unfold _priq_wait_best, z_priq_simple_best. fold (readers x).
  destruct (co_bounds _ _ (pv_calls _ _ _ _ _ Hi) _ _ Hw) as [Hb _]. simpl in Hb. destruct (readers x) as [|t r] eqn:Hr; cbn [hd_error].
  { exists wr, need, x, s. split; [done|]. split; rewrite ?Hr; try done.
    - replace (w_written w + (wr - wr)) with (w_written w) by lia. by rewrite set_written_same, insert_id.
    - unfold total, len. simpl. lia.
    - lia. }
  rewrite Hd. fold (gift w t (Z.min (L - wr) (spec_len (specs x (swap_data (thr (kern x) t))) - used (specs x (swap_data (thr (kern x) t))))) x).
  set (k := Z.min (L - wr) _) in *.
  cbn [set_used used spec_len]. destruct (Z.ltb _ (spec_len _)) eqn:Hlt.
  - destruct (step_last cap c n w x cs s t r L wr) as (s' & H); try done; [left; fold k; by rewrite Hlt|]. fold k in H. rewrite Hlt in H. by exists (wr + k), need, (gift w t k x), s'.
  - destruct (Z.ltb_spec (wr + k) L) as [Hlt'|Hge].
    + destruct (step_more cap c n w x cs s t r L wr) as (s1 & I1 & I2 & I3 & I4 & I5); try done; [fold k; by rewrite Hlt|]. fold k in I1, I2, I3, I5. rewrite Hlt in I1, I2, I3, I5. unfold served in I1, I2, I3, I5. cbn [negb] in I1, I2, I3, I5.
      destruct (IH (on_kern (reader_done t) (gift w t k x)) (<[c := Writes (set_written (w.(w_written) + k) w)]> cs) s1 (set_written (w.(w_written) + k) w) (wr + k) true) as (wr' & need' & x' & s' & E & HC);
        try done; [rewrite I3; simpl in Hf; lia|by rewrite lookup_insert_eq|simpl; lia|simpl; lia|]. exists wr', need', x', s'. split; [exact E|]. by apply I5.
    + destruct (step_last cap c n w x cs s t r L wr) as (s' & H); try done; [by right; fold k|]. fold k in H. rewrite Hlt in H. by exists (wr + k), true, (on_kern (reader_done t) (gift w t k x)), s'.
Qed.

(** *** A round of writing *)

(** The part before the buffer. *)
Record readers_served (cap : Z) (c : caller) (n : Z) (w : write_call) (cs : gmap caller call) (s : stream) (x : world) (fin : bool) (w1 : write_call) (x1 : world) (s1 : stream) : Prop := {
  sv_run : stream_run cap (passes c x x1 (readers x)) s = Some s1;
  sv_inv : pipe_inv (Some c) x1 (<[c := Writes w1]> cs) n s1;
  sv_lacking : lacking x1;
  sv_written : w1 = set_written (w.(w_written) + total x x1 (readers x)) w;
  sv_done : fin = false -> readers x1 = [];
  sv_finished : fin = true -> w1.(w_len) = w1.(w_written);
  sv_pending : s1.(pending) = s.(pending);
  sv_pipe : x1.(pipe) = x.(pipe);
  sv_cpu : same_cpu x.(kern) x1.(kern);
  sv_area : forall a, (x1.(specs) a).(spec_len) = (x.(specs) a).(spec_len);
  sv_bytes : forall y, w.(w_data) <= y < w.(w_data) + w.(w_len) -> x1.(bytes_) y = x.(bytes_) y
}.

Lemma two_calls (cs : gmap caller call) c c' u u' : cs !! c = Some u -> cs !! c' = Some u' -> c <> c' -> 2 <= count cs.
Proof.
  intros Hc Hc' Hne. pose proof (size_delete cs c u Hc) as Hs. assert (base.size (delete c cs) <> 0%nat); [|unfold count in *; lia].
  apply map_size_ne_0_lookup. exists c'. rewrite lookup_delete_ne by done. eauto.
Qed.

Lemma lonely_caller c x cs n s w : pipe_inv (Some c) x cs n s -> cs !! c = Some (Writes w) -> x.(pipe).(waiting) = 0 -> readers x = [].
Proof.
  intros Hi Hw H0. destruct (readers x) as [|t r] eqn:Hr; [done|]. destruct (reader_call _ _ _ _ _ t Hi) as (Hne & e & He); [rewrite Hr; set_solver +|].
  pose proof (two_calls cs c (Some t) _ _ Hw He ltac:(congruence)). pose proof (pv_count _ _ _ _ _ Hi) as Hn. pose proof (pv_small _ _ _ _ _ Hi). simpl in Hn. lia.
Qed.

(** Nothing was copied. *)
Lemma serve_nobody cap c n w cs s x x1 : pipe_inv (Some c) x cs n s -> cs !! c = Some (Writes w) -> (readers x <> [] -> s.(pending) = []) ->
  pipe_inv (Some c) x1 cs n s -> lacking x1 -> readers x1 = [] -> x1.(pipe) = x.(pipe) -> same_cpu x.(kern) x1.(kern) -> x1.(specs) = x.(specs) -> x1.(bytes_) = x.(bytes_) ->
  readers_served cap c n w cs s x false w x1 s.
Proof.
  intros Hi Hw Hp Hi1 HL Hr Ep Hcpu Es Eb. assert (H : stream_run cap (passes c x x1 (readers x)) s = Some s /\ total x x1 (readers x) = 0).
  { destruct (readers x) eqn:E; [done|]. rewrite <- E. apply (idle_readers cap c w x x1 x cs n); try done; [by apply Hp|]. intros t' Ht'. by rewrite Es. }
  destruct H as [H1 H2]. split; try done.
  - by rewrite insert_id.
  - by rewrite H2, Z.add_0_r, set_written_same.
  - intros a. by rewrite Es.
  - intros y Hy. by rewrite Eb.
Qed.

Lemma serve_readers_ok cap c n w cs s x : pipe_inv (Some c) x cs n s -> lacking x -> cs !! c = Some (Writes w) ->
  exists fin need w1 x1 s1, serve_readers w x = (fin, need, w1, x1) /\ readers_served cap c n w cs s x fin w1 x1 s1.
Proof.
  intros Hi HL Hw. unfold serve_readers, pipe_empty. rewrite (holds_empty HW _ _ _ (pv_holds _ _ _ _ _ Hi)). case_bool_decide as Hp.
  2: { assert (Hr : readers x = []) by (apply dec_stable; intros H; by apply Hp, (pv_readers _ _ _ _ _ Hi)). eexists _, _, _, _, s. split; [done|]. apply serve_nobody; try done. }
  pose proof (ko_sys _ _ _ _ _ (pv_kern _ _ _ _ _ Hi)) as Hs. destruct CONFIG_KERNEL_COHERENCE.
  - pose proof (wake_all_releases Hdl Hmi x.(pipe).(data_q) x.(kern) (proj1 (proj1 Hs))) as HR. destruct (z_sched_wake_all _ 0 0 _) as [need k1]. simpl in HR.
    pose proof (releases_calms x.(pipe).(data_q) x.(pipe).(space_q) cs _ _ _ _ _ Hs HR) as HC. eexists _, _, _, _, s. split; [done|].
    apply serve_nobody; try done; [by apply calms_inv|by eapply calms_lacking|apply HR|apply HR].
  - destruct (Z.eqb_spec x.(pipe).(waiting) 0) as [H0|H0]; cbn [negb].
    { eexists _, _, _, _, s. split; [done|]. apply serve_nobody; try done. by eapply lonely_caller. }
    unfold copy_to_pending_readers. fold (readers x). destruct (co_bounds _ _ (pv_calls _ _ _ _ _ Hi) _ _ Hw) as [Hb _]. simpl in Hb.
    destruct (copy_loop_ok cap c n (S (length (readers x))) x cs s w (w.(w_data) + w.(w_written)) (w.(w_len) - w.(w_written)) 0 false) as (wr & need & x1 & s1 & -> & HC); try (done || lia).
    destruct HC as [P1 P2 P3 P4 P5 P6 P7 P8]. rewrite Z.sub_0_r in P2. eexists _, _, _, _, s1. split; [done|]. split; try done.
    + rewrite P4. done.
    + intros H%Z.leb_gt. apply P6. simpl in H. lia.
    + intros H%Z.leb_le. simpl in *. lia.
    + congruence.
    + apply P7.
    + apply P7.
    + apply P7.
    + intros y Hy. apply (gf_bytes _ _ P7). intros t Ht. destruct (reader_call _ _ _ _ _ t Hi Ht) as (Hne & e & He).
      pose proof (co_apart _ _ (pv_calls _ _ _ _ _ Hi) (Some t) c _ _ ltac:(congruence) He Hw eq_refl) as Hap. simpl in Hap |- *. unfold apart in Hap. lia.
Qed.

Lemma stream_app cap es es' s s1 : stream_run cap es s = Some s1 -> stream_run cap (es ++ es') s = stream_run cap es' s1.
Proof.
  revert s. induction es as [|e es IH]; intros s H; simpl in *; [by injection H as ->|]. destruct (stream_step cap e s) as [s'|]; [|done]. by apply IH.
Qed.

(** What lies outside the pipe's buffer stays as it is. *)
Lemma outside_view run x cs n s b S m k c u : pipe_inv run x cs n s -> cs !! c = Some u -> (forall a, is_read u = true -> S a = x.(specs) a) ->
  (forall y, ~ in_buf x.(pipe).(buf) y -> m y = x.(bytes_) y) -> view (World b S m k) u = view x u.
Proof.
  intros Hi Hu HS Hm. destruct (co_bounds _ _ (pv_calls _ _ _ _ _ Hi) _ _ Hu) as (Hb & _ & Hap). destruct u as [w|a e]; unfold view; f_equal; simpl in *; rewrite ?HS by done; apply load_same; intros y Hy;
    apply Hm; unfold in_buf, apart in *; lia.
Qed.

Lemma put_inv cap c n w cs s x : pipe_inv (Some c) x cs n s -> cs !! c = Some (Writes w) -> readers x = [] -> cap = x.(pipe).(buf).(size) ->
  let k := Z.min (w.(w_len) - w.(w_written)) (cap - len s.(pending)) in let d := load x.(bytes_) (w.(w_data) + w.(w_written)) k in
  exists b m s', ring_buf_put idx_width x.(pipe).(buf) (w.(w_data) + w.(w_written)) (w.(w_len) - w.(w_written)) x.(bytes_) = (k, b, m) /\
    stream_step cap (Wrote c d) s = Some s' /\ s'.(pending) = s.(pending) ++ d /\ s'.(is_open) = s.(is_open) /\ 0 <= k /\
    pipe_inv (Some c) (World (set_buf b x.(pipe)) x.(specs) m x.(kern)) (<[c := Writes (set_written (w.(w_written) + k) w)]> cs) n s' /\
    b.(size) = cap /\ (forall y, ~ in_buf x.(pipe).(buf) y -> m y = x.(bytes_) y).
Proof.
  intros Hi Hw Hr Hcap k d. pose proof (pv_holds _ _ _ _ _ Hi) as Hh. pose proof (holds_len HW _ _ _ Hh) as Hl. pose proof (pv_calls _ _ _ _ _ Hi) as Hco.
  destruct (co_bounds _ _ Hco _ _ Hw) as (Hb & Hsz & Hap). simpl in Hb, Hsz, Hap.
  destruct (holds_put HW _ _ _ (w.(w_data) + w.(w_written)) (w.(w_len) - w.(w_written)) Hh) as (b & m & E & Hh' & Es & Eb & Hm); [lia|unfold apart in *; lia|]. rewrite <- Hcap in E, Hh'. fold k in E, Hh'. fold d in Hh'.
  assert (Hk : 0 <= k) by lia. assert (Hld : len d = k) by (unfold d; by rewrite load_len).
  set (x' := World (set_buf b x.(pipe)) x.(specs) m x.(kern)). set (w' := set_written (w.(w_written) + k) w).
  assert (Hview : forall i u, cs !! i = Some u -> view x' u = view x u) by (intros i u Hu; by eapply outside_view).
  assert (Hwr : view x' (Writes w') = Acall false (moved (view x (Writes w)) ++ d)).
  { unfold view. f_equal. cbn [area_of progress fst snd w' set_written w_data w_written moved x' bytes_]. rewrite load_app by lia. unfold d. f_equal; apply load_same; intros y Hy; apply Hm; unfold in_buf, apart in *; lia. }
  exists b, m. eexists. split; [done|]. split; [|split; [|split; [|split; [done|split; [|split; [congruence|done]]]]]].
  - cbn [stream_step]. rewrite (moves_ok false c (moved (view x (Writes w))) d s) by (rewrite (pv_view _ _ _ _ _ Hi), lookup_fmap, Hw; done). cbn [mbind option_bind].
    rewrite (proj2 (Z.leb_le _ _)); [reflexivity|]. rewrite len_app. lia.
  - done.
  - done.
  - apply (further_inv c x cs n s); try done; [by eapply further_write| | |].
    + eapply (further_calls x); [by eapply further_write|done| |simpl; congruence..]. intros i u u' Hu Hu'. destruct (co_bounds _ _ Hco _ _ Hu) as [Hbu _]. destruct (decide (i = c)) as [->|Hne].
      * rewrite lookup_insert_eq in Hu'. rewrite Hw in Hu. simplify_eq. simpl. split; [done|lia].
      * rewrite lookup_insert_ne in Hu' by done. rewrite Hu in Hu'. simplify_eq. destruct u'; done.
    + apply map_eq. intros i. simpl acalls. fold x'. rewrite lookup_fmap. destruct (decide (i = c)) as [->|Hne]; [rewrite !lookup_insert_eq; simpl; by rewrite Hwr|].
      rewrite !lookup_insert_ne, (pv_view _ _ _ _ _ Hi), lookup_fmap by done. destruct (cs !! i) as [u|] eqn:Hu; [|done]. simpl. by rewrite (Hview i u Hu).
    + intros Hne. rewrite len_app, Es. specialize (pv_writers _ _ _ _ _ Hi Hne). lia.
Qed.

Lemma wrote_nothing cap c w x cs n s : pipe_inv (Some c) x cs n s -> cs !! c = Some (Writes w) -> cap = x.(pipe).(buf).(size) -> stream_step cap (Wrote c []) s = Some s.
Proof.
  intros Hi Hw Hcap. pose proof (holds_len HW _ _ _ (pv_holds _ _ _ _ _ Hi)) as Hl. cbn [stream_step].
  assert (Hc : s.(acalls) !! c = Some (view x (Writes w))) by (by rewrite (pv_view _ _ _ _ _ Hi), lookup_fmap, Hw). rewrite (moves_ok false c _ [] s Hc). cbn [mbind option_bind set_acalls acalls].
  rewrite !app_nil_r, insert_id by done. rewrite (proj2 (Z.leb_le _ _)) by lia. by destruct s.
Qed.

Lemma passes_same c run x x1 x' cs n s : pipe_inv run x cs n s -> x'.(specs) = x1.(specs) -> (forall y, ~ in_buf x.(pipe).(buf) y -> x'.(bytes_) y = x1.(bytes_) y) ->
  (forall t, t ∈ readers x -> let a := (thr x.(kern) t).(swap_data) in (x1.(specs) a).(used) <= (x.(specs) a).(spec_len)) ->
  passes c x x' (readers x) = passes c x x1 (readers x) /\ total x x' (readers x) = total x x1 (readers x).
Proof.
  intros Hi Es Hm Hle. assert (Hg : forall t, t ∈ readers x -> grown x x' t = grown x x1 t).
  { intros t Ht. unfold grown. rewrite Es. apply load_same. intros y Hy. apply Hm. destruct (reader_call _ _ _ _ _ t Hi Ht) as (_ & e & He). specialize (Hle t Ht). simpl in Hle.
    destruct (co_bounds _ _ (pv_calls _ _ _ _ _ Hi) _ _ He) as (Hb & _ & Hap). simpl in *. unfold in_buf, apart in *. lia. }
  unfold passes, total. split; [|do 2 f_equal]; apply map_ext_in; intros t Ht%list_elem_of_In; [f_equal|]; by apply Hg.
Qed.

Lemma right_moved x u s : 0 <= progress x u -> right_result (view x u) (progress x u) (load x.(bytes_) (area_of x u).1 (progress x u)) s = true.
Proof. intros H. unfold right_result. cbn [moved view]. rewrite load_len, Z.eqb_refl, bool_decide_eq_true_2 by done. done. Qed.

Lemma right_unless x u s : 0 <= progress x u ->
  right_result (view x u) (unless_timeout (progress x u) (- EAGAIN)) (load x.(bytes_) (area_of x u).1 (unless_timeout (progress x u) (- EAGAIN))) s = true.
Proof.
  intros H. unfold unless_timeout. rewrite Z.eqb_refl. destruct (Z.eqb_spec (progress x u) 0) as [E|E]; cbn [negb]; [|by apply right_moved].
  unfold right_result. cbn [moved view]. rewrite E, Z.eqb_refl. change (load (bytes_ x) (area_of x u).1 0) with (@nil Z). rewrite (bool_decide_eq_true_2 ([] = [])) by done. by rewrite orb_true_r.
Qed.

Lemma unless_small n : 0 <= n < 2 ^ 31 -> - 2 ^ 31 <= unless_timeout n (- EAGAIN) < 2 ^ 31.
Proof. intros H. unfold unless_timeout. rewrite Z.eqb_refl. unfold EAGAIN. destruct (negb _); lia. Qed.

Lemma right_closed x w s : s.(is_open) = false -> right_result (view x (Writes w)) (- EPIPE) [] s = true.
Proof. intros H. unfold right_result. rewrite H. cbn [view reads is_read]. rewrite Z.eqb_refl. simpl. by rewrite orb_true_r. Qed.

Lemma write_events_run cap c w w' o x x1 x' s s1 s2 s3 d : stream_run cap (passes c x x1 (readers x)) s = Some s1 ->
  passes c x x' (readers x) = passes c x x1 (readers x) -> total x x' (readers x) = total x x1 (readers x) ->
  d = load x.(bytes_) (w.(w_data) + w.(w_written) + total x x1 (readers x)) (w'.(w_written) - w.(w_written) - total x x1 (readers x)) ->
  stream_step cap (Wrote c d) s1 = Some s2 -> stream_run cap (ending o c (Writes w') x') s2 = Some s3 -> stream_run cap (write_events c w w' o x x') s = Some s3.
Proof. intros H1 H2 H3 -> H4 H5. unfold write_events. rewrite H2, H3, (stream_app _ _ _ _ _ H1). cbn [stream_run]. rewrite H4. exact H5. Qed.

(** Readers do not get more than they want. *)
Lemma served_used cap c n w cs s x fin w1 x1 s1 : pipe_inv (Some c) x cs n s -> readers_served cap c n w cs s x fin w1 x1 s1 -> cs !! c = Some (Writes w) ->
  forall t, t ∈ readers x -> let a := (thr x.(kern) t).(swap_data) in (x1.(specs) a).(used) <= (x.(specs) a).(spec_len).
Proof.
  intros Hi Hsv Hw t Ht a. destruct (reader_call _ _ _ _ _ t Hi Ht) as (Hne & e & He).
  assert (He1 : (<[c := Writes w1]> cs) !! Some t = Some (Reads a e)) by (rewrite lookup_insert_ne by congruence; done).
  destruct (co_bounds _ _ (pv_calls _ _ _ _ _ (sv_inv _ _ _ _ _ _ _ _ _ _ _ Hsv)) _ _ He1) as [Hb _]. simpl in Hb. rewrite (sv_area _ _ _ _ _ _ _ _ _ _ _ Hsv) in Hb. lia.
Qed.

(** A call that goes no further leaves. *)
Lemma write_leaves cap c n w cs s x fin w1 x1 s1 d s2 w2 x2 r need : pipe_inv (Some c) x cs n s -> cs !! c = Some (Writes w) ->
  readers_served cap c n w cs s x fin w1 x1 s1 -> stream_step cap (Wrote c d) s1 = Some s2 -> w2.(w_data) = w.(w_data) ->
  d = load x.(bytes_) (w.(w_data) + w.(w_written) + total x x1 (readers x)) (w2.(w_written) - w.(w_written) - total x x1 (readers x)) ->
  pipe_inv (Some c) x2 (<[c := Writes w2]> cs) n s2 -> lacking x2 -> cap = x2.(pipe).(buf).(size) -> x2.(specs) = x1.(specs) -> (forall y, ~ in_buf x.(pipe).(buf) y -> x2.(bytes_) y = x1.(bytes_) y) ->
  - 2 ^ 31 <= r < 2 ^ 31 -> right_result (view x2 (Writes w2)) r (load x2.(bytes_) w2.(w_data) r) s2 = true ->
  exists x', leave r need x2 = (Returns r, x') /\ next_ok cap (write_events c w w2 (Returns r) x x') x' (remaining (Returns r) c (Writes w2) cs) n s.
Proof.
  intros Hi Hw Hsv Hst Hd Ed Hi2 HL2 Hcap Es Eb Hr Hres. destruct (leave_ok cap c (Writes w2) x2 _ n s2 r need Hi2 HL2 Hcap (lookup_insert_eq _ _ _) Hr Hres) as (x' & E & E1 & E2 & s3 & Hrun & Hi3 & HL3).
  exists x'. split; [done|]. exists s3. unfold remaining. rewrite delete_insert_eq in Hi3. split; [|done].
  destruct (passes_same c _ x x1 x' cs n s Hi) as [Q1 Q2]; [congruence|intros y Hy; rewrite E1; by apply Eb|by eapply served_used|].
  by eapply write_events_run; [apply Hsv|..].
Qed.

Lemma write_round_ok cap c n w cs s x : pipe_inv (Some c) x cs n s -> lacking x -> cs !! c = Some (Writes w) -> c = this_caller x.(kern) ->
  in_thread x.(kern) \/ w.(w_end) = 0 -> cap = x.(pipe).(buf).(size) ->
  exists o w' x', write_round w x = (o, w', x') /\ o <> Panics /\ next_ok cap (write_events c w w' o x x') x' (remaining o c (Writes w') cs) n s.
Proof.
  intros Hi HL Hw Hc Ht Hcap. unfold write_round. pose proof (pv_open _ _ _ _ _ Hi) as Ho. destruct (co_bounds _ _ (pv_calls _ _ _ _ _ Hi) _ _ Hw) as (Hb & Hsz & _). simpl in Hb, Hsz.
  destruct (pipe_closed x.(pipe)) eqn:Hcl.
  { simpl in Ho. assert (Hsv : readers_served cap c n w cs s x false w x s).
    { apply serve_nobody; try done; [by intros; apply (pv_readers _ _ _ _ _ Hi)|]. by apply (pv_nobody _ _ _ _ _ Hi (or_intror Ho)). }
    destruct (write_leaves cap c n w cs s x false w x s [] s w x (- EPIPE) false Hi Hw Hsv) as (x' & E & Hn); try done.
    - by eapply wrote_nothing.
    - pose proof (sv_written _ _ _ _ _ _ _ _ _ _ _ Hsv) as E. apply (f_equal w_written) in E. simpl in E. by replace (w_written w - w_written w - _) with 0 by lia.
    - by rewrite insert_id.
    - by apply right_closed.
    - rewrite E. by eexists _, _, _. }
  destruct (serve_readers_ok cap c n w cs s x Hi HL Hw) as (fin & need & w1 & x1 & s1 & -> & Hsv). destruct (Hsv) as [V1 V2 V3 V4 V5 V6 V7 V8 V9 V10 V11].
  assert (Hw1 : (<[c := Writes w1]> cs) !! c = Some (Writes w1)) by apply lookup_insert_eq. destruct (co_bounds _ _ (pv_calls _ _ _ _ _ V2) _ _ Hw1) as (Hb1 & Hsz1 & _). simpl in Hb1, Hsz1.
  assert (Ew : w1.(w_data) = w.(w_data) /\ w1.(w_len) = w.(w_len) /\ w1.(w_end) = w.(w_end) /\ w1.(w_written) = w.(w_written) + total x x1 (readers x)) by (by rewrite V4). destruct Ew as (Ed & El & Ee & Ewr).
  assert (Hcap1 : cap = x1.(pipe).(buf).(size)) by (by rewrite V8). destruct fin.
  { destruct (write_leaves cap c n w cs s x true w1 x1 s1 [] s1 w1 x1 w1.(w_written) need Hi Hw Hsv) as (x' & E & Hn); try (done || lia).
    - by eapply wrote_nothing.
    - by replace (w_written w1 - w_written w - _) with 0 by lia.
    - apply (right_moved x1 (Writes w1)); simpl in *; lia.
    - rewrite E. by eexists _, _, _. }
  destruct (put_inv cap c n w1 _ s1 x1 V2 Hw1 (V5 eq_refl) Hcap1) as (b & m & s2 & E2 & Hst & Hp2 & Ho2 & Hk & Hi2 & Hs2 & Hm). set (k := Z.min _ _) in *. rewrite E2. rewrite insert_insert_eq in Hi2.
  set (w2 := set_written (w_written w1 + k) w1) in *. set (x2 := World (set_buf b x1.(pipe)) x1.(specs) m x1.(kern)) in *.
  assert (Hd : load x1.(bytes_) (w1.(w_data) + w1.(w_written)) k = load x.(bytes_) (w.(w_data) + w.(w_written) + total x x1 (readers x)) (w2.(w_written) - w.(w_written) - total x x1 (readers x))).
  { rewrite Ed, Ewr. simpl. rewrite Z.add_assoc. replace (w_written w1 + k - w_written w - total x x1 (readers x)) with k by lia. apply load_same. intros y Hy. apply V11. lia. }
  assert (HL2 : lacking x2) by exact V3. rewrite V8 in Hm.
  assert (Hleave : forall r, - 2 ^ 31 <= r < 2 ^ 31 -> right_result (view x2 (Writes w2)) r (load x2.(bytes_) w2.(w_data) r) s2 = true -> exists o w' x', (let '(o, x') := leave r need x2 in (o, w2, x')) = (o, w', x') /\ o <> Panics /\
    next_ok cap (write_events c w w' o x x') x' (remaining o c (Writes w') cs) n s).
  { intros r Hr Hres. destruct (write_leaves cap c n w cs s x false w1 x1 s1 _ s2 w2 x2 r need Hi Hw Hsv Hst) as (x' & E & Hn); try done. rewrite E. by eexists _, _, _. }
  assert (Hk2 : 0 <= w2.(w_written) <= w2.(w_len)) by (simpl; lia).
  destruct (Z.eqb_spec w2.(w_written) w2.(w_len)) as [Efull|Efull]; [apply Hleave; [simpl in *; lia|apply (right_moved x2 (Writes w2)); simpl in *; lia]|].
  assert (Hthis : c = this_caller x2.(kern)) by (unfold this_caller; simpl; by rewrite (cpu_isr _ _ V9), (cpu_current _ _ V9)).
  destruct (wait_ok cap c (Writes w2) x2 _ n s2 x2.(pipe).(space_q) 0 w2.(w_end) Hi2 HL2 (lookup_insert_eq _ _ _) Hthis) as [->|(x' & -> & F1 & F2 & s3 & Hrun & Hi3 & HL3)].
  - destruct Ht as [[T1 T2]|Ht]; [left|right; simpl; congruence]. split; simpl; [by rewrite (cpu_isr _ _ V9)|by rewrite (cpu_current _ _ V9), (cpu_idle _ _ V9)].
  - done.
  - split; [done|]. simpl. rewrite Hp2, len_app, load_len, Hs2 by done. simpl in Efull. unfold k in *. lia.
  - by rewrite Ho2, (pv_open _ _ _ _ _ V2), V8, Hcl.
  - apply Hleave; [apply unless_small; simpl in *; lia|apply (right_unless x2 (Writes w2)); simpl in *; lia].
  - eexists _, _, _. split; [done|]. split; [done|]. exists s3. split; [|done]. destruct (passes_same c _ x x1 x' cs n s Hi) as [Q1 Q2]; [done|intros y Hy; rewrite F1; by apply Hm|by eapply served_used|].
    by eapply (write_events_run cap c w w2 Blocks x x1).
Qed.

(** *** A round of reading *)

Lemma get_inv cap c n a e cs s x : pipe_inv (Some c) x cs n s -> lacking x -> cs !! c = Some (Reads a e) -> x.(kern).(waitqs) x.(pipe).(space_q) = [] ->
  let sp := x.(specs) a in let k := Z.min (sp.(spec_len) - sp.(used)) (len s.(pending)) in
  exists b m s', ring_buf_get idx_width x.(pipe).(buf) (Some (sp.(spec_data) + sp.(used))) (sp.(spec_len) - sp.(used)) x.(bytes_) = (k, b, m) /\
    stream_step cap (Gave c (load m (sp.(spec_data) + sp.(used)) k)) s = Some s' /\ s'.(pending) = drop (Z.to_nat k) s.(pending) /\ s'.(is_open) = s.(is_open) /\ 0 <= k /\
    let x' := World (set_buf b x.(pipe)) (upd a (set_used (sp.(used) + k) sp) x.(specs)) m x.(kern) in
    pipe_inv (Some c) x' cs n s' /\ lacking x' /\ b.(size) = x.(pipe).(buf).(size).
Proof.
  intros Hi HL Hc Hw sp k. pose proof (pv_holds _ _ _ _ _ Hi) as Hh. pose proof (holds_len HW _ _ _ Hh) as Hl. pose proof (pv_calls _ _ _ _ _ Hi) as Hco.
  destruct (co_bounds _ _ Hco _ _ Hc) as (Hb & Hsz & Hap). simpl in Hb, Hsz, Hap. fold sp in Hb, Hsz, Hap.
  destruct (holds_get HW _ _ _ (sp.(spec_data) + sp.(used)) (sp.(spec_len) - sp.(used)) Hh) as (b & m & E & Hh' & Hld & Es & Eb & Hm); [lia|unfold apart in *; lia|]. fold k in E, Hh', Hld, Hm.
  set (d := load m _ k) in *. assert (Hk : 0 <= k) by lia.
  set (x' := World (set_buf b x.(pipe)) (upd a (set_used (sp.(used) + k) sp) x.(specs)) m x.(kern)).
  assert (Ha : forall i a' e', i <> c -> cs !! i = Some (Reads a' e') -> a' <> a) by (intros i a' e' Hne Hi'; by apply (co_addr _ _ Hco i c _ _ e' e Hne)).
  assert (Har : forall u, area_of x' u = area_of x u). { intros [w|a' e']; [done|]. simpl. destruct (decide (a' = a)) as [->|Hne]; [by rewrite upd_eq|by rewrite upd_ne]. }
  assert (Hview : forall i u, i <> c -> cs !! i = Some u -> view x' u = view x u).
  { intros i u Hne Hu. unfold view. rewrite Har. assert (Hpr : progress x' u = progress x u) by (destruct u as [w|a' e']; [done|]; simpl; by rewrite upd_ne by (by eapply Ha)). rewrite Hpr. f_equal.
    apply load_same. intros y Hy. apply Hm. destruct (co_bounds _ _ Hco _ _ Hu) as [Hbu _]. pose proof (co_apart _ _ Hco c i _ _ (not_eq_sym Hne) Hc Hu eq_refl) as Hapu. simpl in Hapu. fold sp in Hapu. unfold apart in Hapu. lia. }
  assert (Hme : view x' (Reads a e) = Acall true (moved (view x (Reads a e)) ++ d)).
  { unfold view. rewrite Har. simpl. rewrite upd_eq. simpl. fold sp. rewrite load_app by lia. do 2 f_equal. apply load_same. intros y Hy. apply Hm. lia. }
  exists b, m. fold d. eexists. split; [done|]. split; [|split; [|split; [|split; [done|split; [|split; [|done]]]]]].
  - cbn [stream_step]. rewrite (moves_ok true c (moved (view x (Reads a e))) d s) by (rewrite (pv_view _ _ _ _ _ Hi), lookup_fmap, Hc; done). cbn [mbind option_bind].
    assert (Hlen : length d = Z.to_nat k) by (unfold d, load; rewrite length_fmap, length_seqZ; done). rewrite Hlen, bool_decide_eq_true_2 by done. reflexivity.
  - done.
  - done.
  - apply (further_inv c x cs n s); try done; [apply further_refl| | |].
    + apply (further_calls x x' cs); [apply further_refl|done| |simpl; congruence..]. intros i u u' Hu Hu'. rewrite Hu in Hu'. simplify_eq. split; [apply Har|].
      destruct (co_bounds _ _ Hco _ _ Hu) as [Hbu _]. destruct (decide (i = c)) as [->|Hne].
      * rewrite Hc in Hu. simplify_eq. simpl. rewrite upd_eq. simpl. fold sp. lia.
      * destruct u' as [w|a' e']; [done|]. simpl in *. by rewrite upd_ne by (by eapply Ha).
    + fold x'. apply map_eq. intros i. simpl acalls. rewrite lookup_fmap. destruct (decide (i = c)) as [->|Hne]; [rewrite lookup_insert_eq, Hc; simpl; by rewrite Hme|].
      rewrite lookup_insert_ne, (pv_view _ _ _ _ _ Hi), lookup_fmap by done. destruct (cs !! i) as [u|] eqn:Hu; [|done]. simpl. by rewrite (Hview i u Hne Hu).
    + intros H. rewrite (pv_readers _ _ _ _ _ Hi H). apply drop_nil.
  - intros t Ht. destruct (reader_call _ _ _ _ _ t Hi Ht) as (Hne & e' & He). simpl. rewrite upd_ne; [by apply HL|]. apply (Ha (Some t) _ e'); [congruence|done].
Qed.

(** The writers that wait on a full pipe are woken first. *)
Lemma wake_writers run x cs n s : pipe_inv run x cs n s -> lacking x -> exists need x1,
  (if pipe_full x.(pipe) then let '(need_resched, k) := z_sched_wake_all x.(pipe).(space_q) 0 0 x.(kern) in (need_resched, on_kern (fun _ => k) x) else (false, x)) = (need, x1) /\
  pipe_inv run x1 cs n s /\ lacking x1 /\ x1.(kern).(waitqs) x.(pipe).(space_q) = [] /\ x1.(pipe) = x.(pipe) /\ x1.(specs) = x.(specs) /\ x1.(bytes_) = x.(bytes_) /\ same_cpu x.(kern) x1.(kern).
Proof.
  intros Hi HL. unfold pipe_full. rewrite (holds_full HW _ _ _ (pv_holds _ _ _ _ _ Hi)). pose proof (ko_sys _ _ _ _ _ (pv_kern _ _ _ _ _ Hi)) as Hs. destruct (Z.eqb_spec (len s.(pending)) x.(pipe).(buf).(size)) as [E|E].
  - pose proof (wake_all_releases Hdl Hmi x.(pipe).(space_q) x.(kern) (proj1 (proj1 Hs))) as HR. destruct (z_sched_wake_all _ 0 0 _) as [need k1]. simpl in HR.
    pose proof (releases_calms x.(pipe).(data_q) x.(pipe).(space_q) cs _ _ _ _ _ Hs HR) as HC. eexists _, _. split; [done|]. split; [by apply calms_inv|]. split; [by eapply calms_lacking|].
    split; [apply HR|]. split_and!; try done. apply HR.
  - eexists _, _. split; [done|]. split; [done|]. split; [done|]. split; [|done]. apply dec_stable. intros H. by apply E, (pv_writers _ _ _ _ _ Hi).
Qed.

Lemma right_read_end x a e s : s.(is_open) = false -> s.(pending) = [] -> 0 <= (x.(specs) a).(used) -> let u := Reads a e in
  let r := if negb ((x.(specs) a).(used) =? 0) then (x.(specs) a).(used) else - EPIPE in right_result (view x u) r (load x.(bytes_) (area_of x u).1 r) s = true.
Proof.
  intros Ho Hp H0 u r. unfold r. destruct (Z.eqb_spec (x.(specs) a).(used) 0) as [E|E]; cbn [negb]; [|by apply (right_moved x u)].
  unfold right_result. rewrite Ho, Hp. subst u. unfold view. simpl. rewrite E. by vm_compute.
Qed.

Lemma read_round_ok cap c n a e cs s x : pipe_inv (Some c) x cs n s -> lacking x -> cs !! c = Some (Reads a e) -> c = this_caller x.(kern) ->
  in_thread x.(kern) \/ e = 0 -> cap = x.(pipe).(buf).(size) ->
  exists o x', read_round a e x = (o, x') /\ o <> Panics /\ next_ok cap (read_events c a e o x x') x' (remaining o c (Reads a e) cs) n s.
Proof.
  intros Hi HL Hc Hthis Ht Hcap. unfold read_round. destruct (wake_writers (Some c) x cs n s Hi HL) as (need & x1 & -> & Hi1 & HL1 & Hq & Ep & Es & Eb & Hcpu).
  destruct (co_bounds _ _ (pv_calls _ _ _ _ _ Hi) _ _ Hc) as (Hb & Hsz & _). simpl in Hb, Hsz. rewrite <- Ep in Hq.
  destruct (get_inv cap c n a e cs s x1 Hi1 HL1 Hc Hq) as (b & m & s2 & E2 & Hst & Hp2 & Ho2 & Hk & Hi2 & HL2 & Hs2). rewrite Es in *. rewrite Eb in E2. set (sp := x.(specs) a) in *. set (k := Z.min _ _) in *. rewrite Eb, E2.
  set (x2 := World (set_buf b x1.(pipe)) (upd a (set_used (sp.(used) + k) sp) x.(specs)) m x1.(kern)) in *. cbn [set_used used spec_len].
  assert (Ex2 : x2.(specs) a = set_used (sp.(used) + k) sp) by (simpl; by rewrite upd_eq).
  assert (Hev : forall o x' s3, x'.(specs) = x2.(specs) -> x'.(bytes_) = m -> stream_run cap (ending o c (Reads a e) x') s2 = Some s3 -> stream_run cap (read_events c a e o x x') s = Some s3).
  { intros o x' s3 E1 E1' Hrun. unfold read_events. fold sp. rewrite E1, Ex2, E1'. cbn [set_used used stream_run]. replace (used sp + k - used sp) with k by lia. rewrite Hst. exact Hrun. }
  assert (Hleave : forall r, - 2 ^ 31 <= r < 2 ^ 31 -> right_result (view x2 (Reads a e)) r (load x2.(bytes_) (area_of x2 (Reads a e)).1 r) s2 = true ->
    exists o x', leave r need x2 = (o, x') /\ o <> Panics /\ next_ok cap (read_events c a e o x x') x' (remaining o c (Reads a e) cs) n s).
  { intros r Hr Hres. destruct (leave_ok cap c (Reads a e) x2 cs n s2 r need Hi2 HL2 ltac:(simpl; congruence) Hc Hr Hres) as (x' & -> & F1 & F2 & s3 & Hrun & Hi3). eexists _, _. split; [done|]. split; [done|]. exists s3. split; [by apply Hev|done]. }
  assert (Hpr : progress x2 (Reads a e) = sp.(used) + k) by (unfold progress; by rewrite Ex2). assert (Hk2 : k <= sp.(spec_len) - sp.(used)) by (unfold k; lia).
  destruct (Z.eqb_spec (used sp + k) (spec_len sp)) as [Efull|Efull]; [rewrite <- Hpr; apply Hleave; [lia|]; apply (right_moved x2); lia|].
  assert (Hpend : s2.(pending) = []) by (rewrite Hp2; apply drop_ge; unfold k, len in *; lia).
  change (pipe_closed (pipe x2)) with (pipe_closed x1.(pipe)). pose proof (pv_open _ _ _ _ _ Hi1) as Ho1. destruct (pipe_closed x1.(pipe)) eqn:Hcl.
  { replace (used sp + k) with (x2.(specs) a).(used) by (by rewrite Ex2). apply Hleave; [|apply (right_read_end x2 a e); [by rewrite Ho2, Ho1|done|rewrite Ex2; simpl; lia]].
    rewrite Ex2. cbn [set_used used]. unfold EPIPE. case (negb (used sp + k =? 0)); lia. }
  assert (Hthis2 : c = this_caller x2.(kern)) by (unfold this_caller; simpl; by rewrite (cpu_isr _ _ Hcpu), (cpu_current _ _ Hcpu)).
  destruct (wait_ok cap c (Reads a e) x2 cs n s2 x2.(pipe).(data_q) a e Hi2 HL2 Hc Hthis2) as [->|(x' & -> & F1 & F2 & s3 & Hrun & Hi3)].
  - destruct Ht as [[T1 T2]|Ht]; [left|by right]. split; simpl; [by rewrite (cpu_isr _ _ Hcpu)|by rewrite (cpu_current _ _ Hcpu), (cpu_idle _ _ Hcpu)].
  - simpl. rewrite Hs2, Ep. done.
  - split; [done|]. split; [done|]. split; [done|]. rewrite Ex2. simpl. lia.
  - by rewrite Ho2, Ho1.
  - rewrite <- Hpr. apply Hleave; [apply unless_small; lia|apply (right_unless x2); lia].
  - eexists _, _. split; [done|]. split; [done|]. exists s3. split; [by apply Hev|]. unfold remaining. by rewrite insert_id.
Qed.

(** *** Starting and resuming *)

Lemma start_inv cap c u x S cs n s : pipe_inv None x cs n s -> lacking x -> cs !! c = None -> s.(resetting) = false -> count cs + n + 1 < 2 ^ 32 ->
  let x0 := World x.(pipe) S x.(bytes_) x.(kern) in (forall c' a e, cs !! c' = Some (Reads a e) -> S a = x.(specs) a) ->
  calls_ok x0 (<[c := u]> cs) -> progress x0 u = 0 ->
  exists s1, stream_step cap (Starts c (is_read u)) s = Some s1 /\ pipe_inv (Some c) x0 (<[c := u]> cs) n s1 /\ lacking x0.
Proof.
  intros Hi HL Hc Hres Hsm x0 HS Hco Hpr. pose proof (pv_view _ _ _ _ _ Hi) as Hv. eexists. split; [|split].
  - cbn [stream_step]. rewrite Hres, bool_decide_eq_true_2 by (by rewrite Hv, lookup_fmap, Hc). reflexivity.
  - destruct Hi as [K I1 I2 I3 I4 I5 I6 I7 I8 I9 I10 I11 I12 I13 I14 I15 I16]. destruct K as [K1 K2 K3 K4].
    assert (Hne : forall t, is_Some (cs !! Some t) -> c <> Some t) by (intros t [v Hv'] ->; congruence).
    assert (Hcnt : count (<[c := u]> cs) = count cs + 1) by (unfold count; rewrite map_size_insert_None by done; lia). split; simpl; try done.
    + split; [done| | |].
      * intros t Ht. destruct (K2 t Ht) as (_ & a & e & E & Ea). assert (Hn : c <> Some t) by (apply Hne; eauto). split; [congruence|]. exists a, e. by rewrite lookup_insert_ne.
      * intros t Ht. destruct (K3 t Ht) as (_ & w & E). assert (Hn : c <> Some t) by (apply Hne; eauto). split; [congruence|]. exists w. by rewrite lookup_insert_ne.
      * intros t Ht Hn. rewrite lookup_insert_ne in Ht by congruence. by apply K4.
    + rewrite Hv, fmap_insert. unfold view at 2. rewrite Hpr. f_equal. apply map_eq. intros i. rewrite !lookup_fmap. destruct (cs !! i) as [v|] eqn:Ei; [|done]. simpl. f_equal.
      destruct v as [w|a e]; [done|]. unfold view. simpl. by rewrite (HS i a e Ei).
    + rewrite Hcnt. lia.
    + rewrite Hcnt. lia.
    + intros c' [= <-]. rewrite lookup_insert_eq. eauto.
    + intros [v Hv']. destruct (decide (c = None)) as [->|Hn]; [done|]. rewrite lookup_insert_ne in Hv' by done. discriminate I11; eauto.
  - intros t Ht. destruct (reader_call _ _ _ _ _ t Hi Ht) as (_ & e & He). simpl. rewrite (HS _ _ _ He). by apply HL.
Qed.

Lemma flag_cases f : 0 <= f < 4 -> f = 0 \/ f = 1 \/ f = 2 \/ f = 3.
Proof. lia. Qed.

Lemma current_not_waiting run x cs n s w t : pipe_inv run x cs n s -> x.(kern).(in_isr) = false -> t ∈ x.(kern).(waitqs) w -> t <> x.(kern).(current).
Proof.
  intros Hi Hisr Ht ->. pose proof (ko_sys _ _ _ _ _ (pv_kern _ _ _ _ _ Hi)) as [[Hok _] Hr]. apply (ok_pended _ _ Hok) in Ht. specialize (Hr Hisr).
  destruct (pended_not_queued _ _ _ Hok Ht) as [Hn _]. unfold cur in Hr. congruence.
Qed.

Lemma waiting_less run x cs n s c u : pipe_inv run x cs n s -> run = None -> cs !! c = Some u -> u32 (x.(pipe).(waiting) - 1) = x.(pipe).(waiting) - 1.
Proof.
  intros Hi -> Hc. pose proof (pv_count _ _ _ _ _ Hi) as Hn. pose proof (pv_small _ _ _ _ _ Hi). simpl in Hn.
  assert (0 < count cs) by (unfold count; assert (base.size cs <> 0%nat) by (apply map_size_ne_0_lookup; eauto); lia). unfold u32. apply Z.mod_small. lia.
Qed.

Lemma resume_inv cap c u x cs n s v : pipe_inv None x cs n s -> in_thread x.(kern) -> c = Some x.(kern).(current) -> cs !! c = Some u -> pipe_resetting x.(pipe) = false ->
  wait_for_resume v x.(pipe) = (v, set_waiting (x.(pipe).(waiting) - 1) x.(pipe)) /\
  exists s', stream_step cap (Resumes c) s = Some s' /\ pipe_inv (Some c) (on_pipe (fun _ => set_waiting (x.(pipe).(waiting) - 1) x.(pipe)) x) cs n s'.
Proof.
  intros Hi [Hisr _] Hc Hu Hr. unfold wait_for_resume. rewrite (waiting_less _ _ _ _ _ _ _ Hi eq_refl Hu). change (pipe_resetting (set_waiting _ _)) with (pipe_resetting x.(pipe)). rewrite Hr. split; [done|].
  pose proof (pv_reset _ _ _ _ _ Hi) as Hr'. rewrite Hr in Hr'. exists (Stream s.(pending) s.(acalls) s.(is_open) s.(resetting) (s.(suspended) - 1)). split; [cbn [stream_step]; by rewrite Hr'|].
  assert (Hne : forall w t, t ∈ x.(kern).(waitqs) w -> Some c <> Some (Some t)) by (intros w t Ht [= E]; subst c; injection E as <-; by eapply current_not_waiting).
  destruct Hi as [K I1 I2 I3 I4 I5 I6 I7 I8 I9 I10 I11 I12 I13 I14 I15 I16]. destruct K as [K1 K2 K3 K4]. simpl in I8. split; simpl; try done.
  - split; [done| | |]; simpl.
    + intros t Ht. split; [by eapply Hne|]. by apply K2.
    + intros t Ht. split; [by eapply Hne|]. by apply K3.
    + intros t Ht _. by apply K4.
  - by apply (calls_frame x).
  - lia.
  - lia.
  - intros c' [= <-]. eauto.
  - intros H. specialize (I11 H). done.
  - congruence.
Qed.

Lemma cancel_inv cap c u x cs n s v : pipe_inv None x cs n s -> lacking x -> cs !! c = Some u -> cap = x.(pipe).(buf).(size) -> pipe_resetting x.(pipe) = true ->
  exists p, wait_for_resume v x.(pipe) = (- ECANCELED, p) /\ next_ok cap [Cancelled c] (on_pipe (fun _ => p) x) (delete c cs) n s.
Proof.
  intros Hi HL Hu Hcap Hr. unfold wait_for_resume. rewrite (waiting_less _ _ _ _ _ _ _ Hi eq_refl Hu). change (pipe_resetting (set_waiting _ _)) with (pipe_resetting x.(pipe)). rewrite Hr.
  pose proof (pv_reset _ _ _ _ _ Hi) as Hr'. rewrite Hr in Hr'. eexists. split; [done|]. eexists. split; [cbn [stream_run stream_step mbind option_bind]; rewrite Hr'; cbn [mbind option_bind]; reflexivity|].
  pose proof (size_delete cs c u Hu) as Hsz. destruct Hi as [K I1 I2 I3 I4 I5 I6 I7 I8 I9 I10 I11 I12 I13 I14 I15 I16]. destruct K as [K1 K2 K3 K4]. simpl in I8. destruct (I16 (or_introl Hr')) as [Q1 Q2].
  set (p := set_waiting (x.(pipe).(waiting) - 1) x.(pipe)). set (p' := if waiting p =? 0 then _ else p).
  assert (Hp : p'.(data_q) = x.(pipe).(data_q) /\ p'.(space_q) = x.(pipe).(space_q) /\ p'.(buf) = x.(pipe).(buf) /\ p'.(waiting) = x.(pipe).(waiting) - 1 /\ 0 <= p'.(flags) < 4 /\
    pipe_closed p' = pipe_closed x.(pipe) /\ pipe_resetting p' = negb (x.(pipe).(waiting) =? 1)).
  { subst p'. simpl waiting. destruct (Z.eqb_spec (x.(pipe).(waiting) - 1) 0) as [E|E]; (rewrite (proj2 (Z.eqb_eq _ _)) by lia) || (rewrite (proj2 (Z.eqb_neq _ _)) by lia); (do 4 (split; [done|])); unfold pipe_closed, pipe_resetting in *; simpl in *;
      destruct (flag_cases _ I12) as [F|[F|[F|F]]]; rewrite F in *; try done; vm_compute; split; done. }
  destruct Hp as (P1 & P2 & P3 & P4 & P5 & P6 & P7). split; [|split; [intros t Ht; unfold readers in Ht; simpl in Ht; rewrite P1, Q1 in Ht; by apply elem_of_nil in Ht|simpl; by rewrite P3]]. split; simpl; rewrite ?P1, ?P2, ?P3, ?P4, ?P6, ?P7; try done.
  - split; [done| | |]; rewrite ?Q1, ?Q2.
    + intros t Ht. by apply elem_of_nil in Ht.
    + intros t Ht. by apply elem_of_nil in Ht.
    + intros t [w Hw] Hn. apply lookup_delete_Some in Hw as [_ Hw]. eauto.
  - destruct I3 as [C1 C2 C3]. split; simpl; rewrite ?P3; intros *.
    + intros [_ H]%lookup_delete_Some. by eapply C1.
    + intros Hne [_ H]%lookup_delete_Some [_ H']%lookup_delete_Some. by eapply C2.
    + intros Hne [_ H]%lookup_delete_Some [_ H']%lookup_delete_Some. by eapply C3.
  - by rewrite I4, fmap_delete.
  - by rewrite I7.
  - lia.
  - rewrite Hsz. lia.
  - rewrite Hsz. lia.
  - intros [w Hw]. apply lookup_delete_Some in Hw as [_ Hw]. discriminate I11; eauto.
  - intros H%negb_true_iff%Z.eqb_neq. lia.
Qed.

(** *** The steps of the system *)

Lemma world_eta x : World x.(pipe) x.(specs) x.(bytes_) x.(kern) = x.
Proof. by destruct x. Qed.

(** A writer that does nothing in this round. *)
Lemma idle_write_leaves cap c n w cs s x r need : pipe_inv (Some c) x cs n s -> lacking x -> cap = x.(pipe).(buf).(size) -> cs !! c = Some (Writes w) ->
  - 2 ^ 31 <= r < 2 ^ 31 -> right_result (view x (Writes w)) r (load x.(bytes_) w.(w_data) r) s = true ->
  exists x', leave r need x = (Returns r, x') /\ next_ok cap (write_events c w w (Returns r) x x') x' (delete c cs) n s.
Proof.
  intros Hi HL Hcap Hw Hr Hres. destruct (leave_ok cap c (Writes w) x cs n s r need Hi HL Hcap Hw Hr Hres) as (x' & E & E1 & E2 & s3 & Hrun & Hn). exists x'. split; [done|]. exists s3. split; [|done].
  assert (H : stream_run cap (passes c x x' (readers x)) s = Some s /\ total x x' (readers x) = 0).
  { destruct (readers x) eqn:Er; [done|]. rewrite <- Er. apply (idle_readers cap c w x x' x cs n s _ Hi Hw); [apply (pv_readers _ _ _ _ _ Hi); fold (readers x); by rewrite Er|done|]. intros t' Ht'. by rewrite E2. }
  destruct H as [H1 H2]. apply (write_events_run cap c w w _ x x' x' s s s s3 []); try done; [|by eapply wrote_nothing]. rewrite H2. by replace (w_written w - w_written w - 0) with 0 by lia.
Qed.

Lemma idle_read_leaves cap c n a e cs s x r need : pipe_inv (Some c) x cs n s -> lacking x -> cap = x.(pipe).(buf).(size) -> cs !! c = Some (Reads a e) ->
  - 2 ^ 31 <= r < 2 ^ 31 -> right_result (view x (Reads a e)) r (load x.(bytes_) (area_of x (Reads a e)).1 r) s = true ->
  exists x', leave r need x = (Returns r, x') /\ next_ok cap (read_events c a e (Returns r) x x') x' (delete c cs) n s.
Proof.
  intros Hi HL Hcap Hc Hr Hres. destruct (leave_ok cap c (Reads a e) x cs n s r need Hi HL Hcap Hc Hr Hres) as (x' & E & E1 & E2 & s3 & Hrun & Hn). exists x'. split; [done|]. exists s3. split; [|done].
  unfold read_events. rewrite E2, Z.sub_diag. change (load (bytes_ x') _ 0) with (@nil Z). cbn [stream_run stream_step].
  assert (Hv : s.(acalls) !! c = Some (view x (Reads a e))) by (by rewrite (pv_view _ _ _ _ _ Hi), lookup_fmap, Hc). rewrite (moves_ok true c _ [] s Hv), app_nil_r, insert_id by done. cbn [mbind option_bind length].
  rewrite bool_decide_eq_true_2 by done. simpl drop. cbn [set_acalls acalls mbind option_bind]. replace (Stream _ _ _ _ _) with s by (by destruct s). exact Hrun.
Qed.

Lemma write_ok x cs n s data L timeout : let cap := x.(pipe).(buf).(size) in let c := this_caller x.(kern) in let w0 := Write_call data L 0 (sys_timepoint_calc x.(kern).(clk) timeout) in
  pipe_inv None x cs n s -> lacking x -> in_thread x.(kern) \/ timeout = K_NO_WAIT -> cs !! c = None -> count cs + n + 1 < 2 ^ 32 -> calls_ok x (<[c := Writes w0]> cs) ->
  exists o w x', k_pipe_write data L timeout x = (o, w, x') /\ o <> Panics /\
    next_ok cap (if pipe_resetting x.(pipe) then [Refused c] else Starts c false :: write_events c w0 w o x x') x' (remaining o c (Writes w) cs) n s.
Proof.
  intros cap c w0 Hi HL Ht Hc Hsm Hco. unfold k_pipe_write. fold w0. pose proof (pv_reset _ _ _ _ _ Hi) as Hr. destruct (pipe_resetting x.(pipe)) eqn:Er.
  { eexists _, _, _. split; [done|]. split; [done|]. exists s. unfold remaining. rewrite delete_id by done. split; [simpl; by rewrite Hr|done]. }
  rewrite <- (world_eta x) in Hco. destruct (start_inv cap c (Writes w0) x x.(specs) cs n s Hi HL Hc Hr Hsm) as (s1 & E1 & Hi1 & HL1); try done. rewrite world_eta in Hi1, HL1.
  destruct (write_round_ok cap c n w0 _ s1 x Hi1 HL1 (lookup_insert_eq _ _ _) eq_refl) as (o & w & x' & -> & Hp & s2 & Hrun & Hn); [by destruct Ht as [?| ->]; [left|right]|done|].
  eexists _, _, _. split; [done|]. split; [done|]. exists s2. split; [cbn [stream_run]; cbn [is_read] in E1; by rewrite E1|]. destruct o; simpl in *; [by rewrite delete_insert_eq in Hn|by rewrite insert_insert_eq in Hn|done].
Qed.

Lemma read_ok x cs n s a data L timeout : let cap := x.(pipe).(buf).(size) in let c := this_caller x.(kern) in
  let x0 := World x.(pipe) (upd a (Pipe_buf_spec data L 0) x.(specs)) x.(bytes_) x.(kern) in
  pipe_inv None x cs n s -> lacking x -> in_thread x.(kern) \/ timeout = K_NO_WAIT -> cs !! c = None -> count cs + n + 1 < 2 ^ 32 -> calls_ok x0 (<[c := Reads a 0]> cs) ->
  exists o e x', k_pipe_read a data L timeout x = (o, e, x') /\ o <> Panics /\
    next_ok cap (if pipe_resetting x.(pipe) then [Refused c] else Starts c true :: read_events c a e o x0 x') x' (remaining o c (Reads a e) cs) n s.
Proof.
  intros cap c x0 Hi HL Ht Hc Hsm Hco. unfold k_pipe_read. fold x0. set (e := sys_timepoint_calc _ _). pose proof (pv_reset _ _ _ _ _ Hi) as Hr.
  assert (Hother : forall c' a' e', cs !! c' = Some (Reads a' e') -> x0.(specs) a' = x.(specs) a').
  { intros c' a' e' E. simpl. rewrite upd_ne; [done|]. assert (Hne : c' <> c) by congruence. eapply (co_addr _ _ Hco c' c); [done|by rewrite lookup_insert_ne|apply lookup_insert_eq]. }
  assert (Hco' : calls_ok x0 (<[c := Reads a e]> cs)).
  { destruct Hco as [C1 C2 C3]. assert (Hback : forall i u, <[c := Reads a e]> cs !! i = Some u -> exists u0, <[c := Reads a 0]> cs !! i = Some u0 /\ area_of x0 u = area_of x0 u0 /\ progress x0 u = progress x0 u0 /\ is_read u = is_read u0 /\
      (forall a' e', u = Reads a' e' -> exists e0, u0 = Reads a' e0)).
    { intros i u Hu. destruct (decide (i = c)) as [->|Hne]; [rewrite lookup_insert_eq in Hu|rewrite lookup_insert_ne in Hu by done]; [|exists u; rewrite lookup_insert_ne by done; eauto 8].
      injection Hu as <-. exists (Reads a 0). rewrite lookup_insert_eq. split_and!; try done. intros a' e' [= -> _]. eauto. }
    split.
    - intros i u (u0 & H0 & -> & -> & _)%Hback. by eapply C1.
    - intros i j u v Hne (u0 & H0 & -> & _ & -> & _)%Hback (v0 & H1 & -> & _)%Hback. by eapply C2.
    - intros i j a1 a2 e1 e2 Hne (u0 & H0 & _ & _ & _ & Hu)%Hback (v0 & H1 & _ & _ & _ & Hv)%Hback. destruct (Hu _ _ eq_refl) as [f ->], (Hv _ _ eq_refl) as [g ->]. by eapply C3. }
  change (pipe x0) with x.(pipe). destruct (pipe_resetting x.(pipe)) eqn:Er.
  { eexists _, _, _. split; [done|]. split; [done|]. exists s. unfold remaining. rewrite delete_id by done. split; [simpl; by rewrite Hr|]. split; [|split; [|done]].
    - destruct Hi. split; try done.
      + eapply (calls_frame x); [done| |done..]. intros i u Hu. destruct u as [w|a' e']; [done|]. unfold area_of, progress. by rewrite (Hother _ _ _ Hu).
      + rewrite pv_view0. apply map_eq. intros i. rewrite !lookup_fmap. destruct (cs !! i) as [u|] eqn:Hu; [|done]. simpl. f_equal. destruct u as [w|a' e']; [done|]. unfold view, area_of, progress. by rewrite (Hother _ _ _ Hu).
    - intros t Ht'. destruct (reader_call _ _ _ _ _ t Hi Ht') as (_ & e' & He). cbv zeta. change (kern x0) with x.(kern). rewrite (Hother _ _ _ He). by apply HL. }
  destruct (start_inv cap c (Reads a e) x x0.(specs) cs n s Hi HL Hc Hr Hsm) as (s1 & E1 & Hi1 & HL1); try done; [by simpl; rewrite upd_eq|].
  destruct (read_round_ok cap c n a e _ s1 x0 Hi1 HL1 (lookup_insert_eq _ _ _) eq_refl) as (o & x' & -> & Hp & s2 & Hrun & Hn); [destruct Ht as [?|Ht]; [by left|right; unfold e; by rewrite Ht]|done|].
  eexists _, _, _. split; [done|]. split; [done|]. exists s2. split; [cbn [stream_run]; cbn [is_read] in E1; by rewrite E1|]. destruct o; simpl in *; [by rewrite delete_insert_eq in Hn|by rewrite insert_insert_eq in Hn|done].
Qed.

Lemma resume_value x cs n s c u : pipe_inv None x cs n s -> c = Some x.(kern).(current) -> cs !! c = Some u -> (cur x.(kern)).(swap_retval) = 0 \/ (cur x.(kern)).(swap_retval) = - EAGAIN.
Proof. intros Hi -> Hu. apply (ko_values _ _ _ _ _ (pv_kern _ _ _ _ _ Hi)); [eauto|done]. Qed.

Lemma unless_cancelled n : unless_timeout n (- ECANCELED) = - ECANCELED.
Proof. done. Qed.

Lemma write_resume_ok x cs n s w : let cap := x.(pipe).(buf).(size) in let c := this_caller x.(kern) in
  pipe_inv None x cs n s -> lacking x -> in_thread x.(kern) -> cs !! c = Some (Writes w) ->
  exists o w' x', k_pipe_write_resume w x = (o, w', x') /\ o <> Panics /\
    next_ok cap (if pipe_resetting x.(pipe) then [Cancelled c] else Resumes c :: write_events c w w' o x x') x' (remaining o c (Writes w') cs) n s.
Proof.
  intros cap c Hi HL Ht Hw. assert (Hc : c = Some x.(kern).(current)) by (unfold c, this_caller; by rewrite (proj1 Ht)). unfold k_pipe_write_resume. destruct (pipe_resetting x.(pipe)) eqn:Hr.
  { destruct (cancel_inv cap c _ x cs n s (cur x.(kern)).(swap_retval) Hi HL Hw eq_refl Hr) as (p & -> & Hn). by eexists _, _, _. }
  destruct (resume_inv cap c _ x cs n s (cur x.(kern)).(swap_retval) Hi Ht Hc Hw Hr) as (-> & s1 & E1 & Hi1). set (x1 := on_pipe _ x) in *. assert (HL1 : lacking x1) by exact HL.
  destruct (resume_value x cs n s c _ Hi Hc Hw) as [-> | ->]; cbn [Z.eqb].
  - destruct (write_round_ok cap c n w cs s1 x1 Hi1 HL1 Hw eq_refl (or_introl Ht) eq_refl) as (o & w' & x' & -> & Hp & s2 & Hrun & Hn). eexists _, _, _. split; [done|]. split; [done|].
    exists s2. split; [|done]. cbn [stream_run]. rewrite E1. exact Hrun.
  - destruct (co_bounds _ _ (pv_calls _ _ _ _ _ Hi1) _ _ Hw) as (Hb & Hsz & _). simpl in Hb, Hsz.
    destruct (idle_write_leaves cap c n w cs s1 x1 (unless_timeout w.(w_written) (- EAGAIN)) false Hi1 HL1 eq_refl Hw) as (x' & E & s2 & Hrun & Hn); [apply unless_small; lia|apply (right_unless x1 (Writes w)); simpl; lia|].
    change (- EAGAIN =? 0) with false. cbv iota. rewrite E. eexists _, _, _. split; [done|]. split; [done|]. exists s2. split; [|done]. cbn [stream_run]. rewrite E1. exact Hrun.
Qed.

Lemma read_resume_ok x cs n s a e : let cap := x.(pipe).(buf).(size) in let c := this_caller x.(kern) in
  pipe_inv None x cs n s -> lacking x -> in_thread x.(kern) -> cs !! c = Some (Reads a e) ->
  exists o x', k_pipe_read_resume a e x = (o, x') /\ o <> Panics /\
    next_ok cap (if pipe_resetting x.(pipe) then [Cancelled c] else Resumes c :: read_events c a e o x x') x' (remaining o c (Reads a e) cs) n s.
Proof.
  intros cap c Hi HL Ht Hu. assert (Hc : c = Some x.(kern).(current)) by (unfold c, this_caller; by rewrite (proj1 Ht)). unfold k_pipe_read_resume. destruct (pipe_resetting x.(pipe)) eqn:Hr.
  { destruct (cancel_inv cap c _ x cs n s (cur x.(kern)).(swap_retval) Hi HL Hu eq_refl Hr) as (p & -> & Hn). by eexists _, _. }
  destruct (resume_inv cap c _ x cs n s (cur x.(kern)).(swap_retval) Hi Ht Hc Hu Hr) as (-> & s1 & E1 & Hi1). set (x1 := on_pipe _ x) in *. assert (HL1 : lacking x1) by exact HL.
  destruct (resume_value x cs n s c _ Hi Hc Hu) as [-> | ->]; cbn [Z.eqb].
  - destruct (read_round_ok cap c n a e cs s1 x1 Hi1 HL1 Hu eq_refl (or_introl Ht) eq_refl) as (o & x' & -> & Hp & s2 & Hrun & Hn). eexists _, _. split; [done|]. split; [done|].
    exists s2. split; [|done]. cbn [stream_run]. rewrite E1. exact Hrun.
  - destruct (co_bounds _ _ (pv_calls _ _ _ _ _ Hi1) _ _ Hu) as (Hb & Hsz & _). simpl in Hb, Hsz.
    destruct (idle_read_leaves cap c n a e cs s1 x1 (unless_timeout (x1.(specs) a).(used) (- EAGAIN)) false Hi1 HL1 eq_refl Hu) as (x' & E & s2 & Hrun & Hn); [apply unless_small; simpl; lia|apply (right_unless x1 (Reads a e)); simpl; lia|].
    change (- EAGAIN =? 0) with false. cbv iota. rewrite E. exists (Returns (unless_timeout (x1.(specs) a).(used) (- EAGAIN))), x'. split; [done|]. split; [done|]. exists s2. split; [|exact Hn]. cbn [stream_run]. rewrite E1. exact Hrun.
Qed.

Lemma calms_trans dq sq cs k k1 k2 : calms dq sq cs k k1 -> calms dq sq cs k1 k2 -> calms dq sq cs k k2.
Proof.
  intros [A1 A2 A3] [B1 B2 B3]. split; [done| |].
  - intros w t Hw Ht. destruct (B2 w t Hw Ht) as [Ht1 E]. destruct (A2 w t Hw Ht1) as [H E1]. split; [done|congruence].
  - intros t Ht. destruct (B3 t Ht) as [E|E]; [|by right]. cbv zeta. rewrite E. by apply A3.
Qed.

Lemma wake_both_ok x cs : sys_ok x.(kern) -> x.(pipe).(data_q) <> x.(pipe).(space_q) -> let k' := (wake_both x).(kern) in
  wake_both x = on_kern (fun _ => k') x /\ calms x.(pipe).(data_q) x.(pipe).(space_q) cs x.(kern) k' /\
  k'.(waitqs) x.(pipe).(data_q) = [] /\ k'.(waitqs) x.(pipe).(space_q) = [].
Proof.
  intros Hs Hq k'. pose proof (wake_all_releases Hdl Hmi x.(pipe).(data_q) x.(kern) (proj1 (proj1 Hs))) as H1. set (k1 := (z_sched_wake_all x.(pipe).(data_q) 0 0 x.(kern)).2) in *.
  assert (Hs1 : sys_ok k1) by (by eapply released_sys). pose proof (wake_all_releases Hdl Hmi x.(pipe).(space_q) k1 (proj1 (proj1 Hs1))) as H2. split; [done|]. split; [|split].
  - eapply calms_trans; eapply releases_calms; [exact Hs|exact H1|exact Hs1|exact H2].
  - subst k'. simpl. rewrite (rl_queues _ _ _ _ _ H2) by done. apply H1.
  - apply H2.
Qed.

Lemma nobody_waits x cs n s : pipe_inv None x cs n s -> x.(pipe).(waiting) = 0 -> x.(kern).(waitqs) x.(pipe).(data_q) = [] /\ x.(kern).(waitqs) x.(pipe).(space_q) = [].
Proof.
  intros Hi H0. pose proof (pv_count _ _ _ _ _ Hi) as Hn. pose proof (pv_small _ _ _ _ _ Hi) as Hsm. simpl in Hn. assert (cs = ∅) as -> by (apply map_size_empty_iff; unfold count in *; lia).
  destruct (pv_kern _ _ _ _ _ Hi) as [K1 K2 K3 K4]. split; [destruct (waitqs x.(kern) (data_q x.(pipe))) as [|t r]|destruct (waitqs x.(kern) (space_q x.(pipe))) as [|t r]]; try done.
  - destruct (K2 t) as (_ & a & e & E & _); [set_solver +|]. by rewrite lookup_empty in E.
  - destruct (K3 t) as (_ & w & E); [set_solver +|]. by rewrite lookup_empty in E.
Qed.

Lemma pipe_reset_ok x cs n s : pipe_inv None x cs n s -> lacking x -> next_ok x.(pipe).(buf).(size) [Resets] (k_pipe_reset x) cs n s.
Proof.
  intros Hi HL. unfold k_pipe_reset. set (x1 := on_pipe _ x). change (waiting (pipe x1)) with x.(pipe).(waiting). eexists. split; [done|].
  pose proof (holds_reset HW _ _ _ (pv_holds _ _ _ _ _ Hi)) as Hh. pose proof (ko_sys _ _ _ _ _ (pv_kern _ _ _ _ _ Hi)) as Hs. pose proof (pv_queues _ _ _ _ _ Hi) as Hq. pose proof (nobody_waits x cs n s Hi) as H0.
  pose proof (pv_suspended _ _ _ _ _ Hi) as Hsu. rewrite Hsu. destruct (Z.eqb_spec x.(pipe).(waiting) 0) as [E|E]; cbn [negb].
  - destruct (H0 E) as [Q1 Q2]. pose proof (pv_resetting _ _ _ _ _ Hi) as Hr. destruct Hi. split; [|done]. split; simpl; try done; try congruence.
    + by apply (calls_frame x).
    + change (false = pipe_resetting (pipe x)). rewrite <- pv_reset0. destruct (s.(resetting)); [by destruct (Hr eq_refl)|done].
  - set (x2 := on_pipe _ x1). destruct (wake_both_ok x2 cs Hs Hq) as (-> & HC & Q1 & Q2). set (k' := kern (wake_both x2)) in *. split; [|split; [by apply (calms_lacking x2 cs)|done]].
    pose proof (calms_kern _ _ _ _ _ _ (pv_kern _ _ _ _ _ Hi) HC) as HK. destruct Hi. split; simpl; try done; try congruence.
    + by apply (calls_frame x).
    + rewrite pv_open0. unfold pipe_closed. simpl. by destruct (flag_cases _ pv_flags0) as [F|[F|[F|F]]]; rewrite F.
    + unfold pipe_resetting. simpl. by destruct (flag_cases _ pv_flags0) as [F|[F|[F|F]]]; rewrite F.
    + by destruct (flag_cases _ pv_flags0) as [F|[F|[F|F]]]; rewrite F.
Qed.

Lemma close_ok x cs n s : pipe_inv None x cs n s -> lacking x -> next_ok x.(pipe).(buf).(size) [Closes] (k_pipe_close x) cs n s.
Proof.
  intros Hi HL. unfold k_pipe_close. set (x1 := on_pipe _ x). eexists. split; [done|]. pose proof (ko_sys _ _ _ _ _ (pv_kern _ _ _ _ _ Hi)) as Hs. pose proof (pv_queues _ _ _ _ _ Hi) as Hq.
  destruct (wake_both_ok x1 cs Hs Hq) as (-> & HC & Q1 & Q2). set (k' := kern (wake_both x1)) in *. split; [|split; [by apply (calms_lacking x1 cs)|done]].
  pose proof (calms_kern _ _ _ _ _ _ (pv_kern _ _ _ _ _ Hi) HC) as HK. destruct Hi. split; simpl; try done; try congruence. by apply (calls_frame x).
Qed.

Lemma vanish_ok x cs n s t : pipe_inv None x cs n s -> lacking x -> is_Some (cs !! Some t) -> t ∉ x.(kern).(waitqs) x.(pipe).(data_q) -> t ∉ x.(kern).(waitqs) x.(pipe).(space_q) ->
  next_ok x.(pipe).(buf).(size) [Vanished (Some t)] x (delete (Some t) cs) (n + 1) s.
Proof.
  intros Hi HL [u Hu] N1 N2. eexists. split; [done|]. split; [|done]. pose proof (size_delete cs _ u Hu) as Hsz. destruct Hi as [K I1 I2 I3 I4 I5 I6 I7 I8 I9 I10 I11 I12 I13 I14 I15 I16]. destruct K as [K1 K2 K3 K4]. simpl in I8. split; simpl; try done.
  - split; [done| | |].
    + intros t' Ht. destruct (K2 t' Ht) as (Hne & a & e & E & Ea). split; [done|]. exists a, e. rewrite lookup_delete_ne by congruence. done.
    + intros t' Ht. destruct (K3 t' Ht) as (Hne & w & E). split; [done|]. exists w. by rewrite lookup_delete_ne by congruence.
    + intros t' [v Hv] Hn. apply lookup_delete_Some in Hv as [_ Hv]. apply K4; eauto.
  - destruct I3 as [C1 C2 C3]. split; intros *.
    + intros [_ H]%lookup_delete_Some. eauto.
    + intros Hne [_ H]%lookup_delete_Some [_ H']%lookup_delete_Some. eauto.
    + intros Hne [_ H]%lookup_delete_Some [_ H']%lookup_delete_Some. eauto.
  - by rewrite I4, fmap_delete.
  - rewrite Hsz. lia.
  - rewrite Hsz. lia.
  - intros [w Hw]. apply lookup_delete_Some in Hw as [_ Hw]. discriminate I11; eauto.
Qed.

Lemma env_ok x x' cs n s : pipe_inv None x cs n s -> lacking x -> pipe_env cs x x' -> next_ok x.(pipe).(buf).(size) [] x' cs n s.
Proof.
  intros Hi HL [E1 E2 E3 E4 E5 E6]. exists s. split; [done|]. pose proof (sched_step_sys Hdl Hmi _ _ E2 (ko_sys _ _ _ _ _ (pv_kern _ _ _ _ _ Hi))) as Hs.
  assert (HC : calms x.(pipe).(data_q) x.(pipe).(space_q) cs x.(kern) x'.(kern)). { split; [done|done|]. intros t Ht. destruct (E4 t Ht) as [E|E]; [by left|by right; right]. }
  pose proof (calms_inv None x cs n s _ Hi HC) as Hi'. pose proof (calms_lacking x cs _ HL HC) as HL'.
  assert (Hu : forall c u, cs !! c = Some u -> area_of x' u = area_of x u /\ progress x' u = progress x u).
  { intros c [w|a e] Hc; [done|]. simpl. by rewrite (E5 c a e Hc). }
  split; [|split; [|by rewrite E1]].
  - destruct Hi' as [K I1 I2 I3 I4 I5 I6 I7 I8 I9 I10 I11 I12 I13 I14 I15 I16]. simpl in *. split; rewrite ?E1; try done.
    + eapply holds_ext; [exact I2|]. intros y Hy. apply E6. by left.
    + apply (calls_frame x); [apply Hi|done|by rewrite E1..].
    + rewrite I4. apply map_eq. intros i. rewrite !lookup_fmap. destruct (cs !! i) as [u|] eqn:Hui; [|done]. simpl. f_equal. destruct (Hu i u Hui) as [Ha Hp].
      unfold view. rewrite Ha, Hp. f_equal. symmetry. change (area_of (on_kern (fun _ => kern x') x) u) with (area_of x u). change (progress (on_kern (fun _ => kern x') x) u) with (progress x u).
      apply load_same. intros y Hy. apply E6. right. exists i, u. split; [done|]. destruct (co_bounds _ _ (pv_calls _ _ _ _ _ Hi) _ _ Hui). lia.
  - intros t Ht. unfold readers in Ht. rewrite E1 in Ht. destruct (ko_data _ _ _ _ _ (pv_kern _ _ _ _ _ Hi') t Ht) as (_ & a & e & Ea & Es). specialize (HL' t Ht). simpl in HL', Es. cbv zeta. rewrite Es in HL' |- *. by rewrite (E5 _ _ _ Ea).
Qed.

Lemma pipe_step_ok es st st' s : pipe_step es st st' -> pipe_inv None st.(wd) st.(calls) st.(lost) s -> lacking st.(wd) ->
  next_ok st.(wd).(pipe).(buf).(size) es st'.(wd) st'.(calls) st'.(lost) s.
Proof.
  intros Hst Hi HL. destruct Hst as [x cs n data L timeout o w x' c w0 Ht Hc Hsm Hco E|x cs n w o w' x' c Ht Hc E|x cs n a data L timeout o e x' c x0 Ht Hc Hsm Hco E|
    x cs n a e o x' c Ht Hc E|x cs n|x cs n|x cs n t Ht N1 N2|x x' cs n He]; cbn [wd calls lost] in *.
  - destruct (write_ok x cs n s data L timeout Hi HL Ht Hc Hsm Hco) as (o1 & w1 & x1 & E' & _ & Hn). rewrite E in E'. injection E' as <- <- <-. exact Hn.
  - destruct (write_resume_ok x cs n s w Hi HL Ht Hc) as (o1 & w1 & x1 & E' & _ & Hn). rewrite E in E'. injection E' as <- <- <-. exact Hn.
  - destruct (read_ok x cs n s a data L timeout Hi HL Ht Hc Hsm Hco) as (o1 & e1 & x1 & E' & _ & Hn). rewrite E in E'. injection E' as <- <- <-. exact Hn.
  - destruct (read_resume_ok x cs n s a e Hi HL Ht Hc) as (o1 & x1 & E' & _ & Hn). rewrite E in E'. injection E' as <- <-. exact Hn.
  - by apply pipe_reset_ok.
  - by apply close_ok.
  - by apply vanish_ok.
  - by apply env_ok.
Qed.

Lemma pipe_run_ok es st st' s : pipe_run es st st' -> pipe_inv None st.(wd) st.(calls) st.(lost) s -> lacking st.(wd) ->
  next_ok st.(wd).(pipe).(buf).(size) es st'.(wd) st'.(calls) st'.(lost) s.
Proof.
  intros Hr. revert s. induction Hr as [st|es es' st st1 st2 Hst _ IH]; intros s Hi HL; [by exists s|].
  destruct (pipe_step_ok _ _ _ s Hst Hi HL) as (s1 & R1 & Hi1 & HL1 & Hc1). destruct (IH s1 Hi1 HL1) as (s2 & R2 & Hn). rewrite Hc1 in R2, Hn. exists s2. split; [|done]. by rewrite (stream_app _ _ _ _ _ R1).
Qed.

Lemma pipe_init_ok p a sz S m k : sys_ok k -> p.(data_q) <> p.(space_q) -> k.(waitqs) p.(data_q) = [] -> k.(waitqs) p.(space_q) = [] -> 0 <= sz <= RING_BUFFER_MAX_SIZE idx_width ->
  let '(p0, k0) := k_pipe_init p a sz k in let x := World p0 S m k0 in
  pipe_inv None x ∅ 0 (Stream [] ∅ true false 0) /\ lacking x /\ x.(pipe).(buf).(size) = sz.
Proof.
  intros Hs Hq Q1 Q2 Hsz. unfold k_pipe_init. set (k1 := z_waitq_init p.(data_q) k). assert (Hs1 : sys_ok k1) by (by apply waitq_init_sys).
  assert (E2 : k1.(waitqs) p.(space_q) = []) by (simpl; by rewrite upd_ne). set (k2 := z_waitq_init p.(space_q) k1). assert (Hs2 : sys_ok k2) by (by apply waitq_init_sys).
  assert (F1 : k2.(waitqs) p.(data_q) = []) by (simpl; rewrite upd_ne by done; by rewrite upd_eq). assert (F2 : k2.(waitqs) p.(space_q) = []) by (simpl; by rewrite upd_eq).
  split; [|split; [intros t Ht; unfold readers in Ht; cbn [pipe kern data_q] in Ht; rewrite F1 in Ht; by apply elem_of_nil in Ht|done]].
  split; cbn [pipe kern specs bytes_ buf data_q space_q waiting flags pending acalls is_open resetting suspended] in *; try done.
  - split; [done| | |].
    + rewrite F1. intros t Ht. by apply elem_of_nil in Ht.
    + rewrite F2. intros t Ht. by apply elem_of_nil in Ht.
    + intros t [u Hu]. by rewrite lookup_empty in Hu.
  - by apply holds_init.
  - intros [u Hu]. by rewrite lookup_empty in Hu.
Qed.

End inv.
End runs.

(** C12. Pipes are streams.  However writes, reads, resets and closings by threads and
    interrupts interleave with each other and with the rest of the system, the bytes
    that come out of a pipe are those that went in, each once and in order, whether they
    pass through the buffer or straight to a reader that waits.  A call returns how many
    bytes it moved, and these are the first bytes of its buffer; or -EAGAIN when the time
    is up with nothing moved; or -EPIPE on a closed pipe, a reader only when it got nothing
    and nothing is left.  A call is cancelled exactly when the pipe was reset while it
    waited, and refused exactly while a reset goes on.  Readers wait only for an empty pipe
    and only as long as they lack bytes, writers only for a full one, and nobody waits on a
    pipe that is closed or being reset.  Pipes without a buffer are included. *)
Theorem pipe_is_stream {PC : PipeConfig} `{Cfg : Config} {RQ : RunQueue} {TB : TimeoutBackend} (p : k_pipe) (a sz : Z) (S : Z -> pipe_buf_spec) (m : memory) (k : kernel) es st :
  idx_width = 16 \/ idx_width = 32 -> CONFIG_SCHED_DEADLINE = false -> CONFIG_NUM_METAIRQ_PRIORITIES <= 0 ->
  sys_ok k -> p.(data_q) <> p.(space_q) -> k.(waitqs) p.(data_q) = [] -> k.(waitqs) p.(space_q) = [] -> 0 <= sz <= RING_BUFFER_MAX_SIZE idx_width ->
  let '(p0, k0) := k_pipe_init p a sz k in pipe_run es (Pstate (World p0 S m k0) ∅ 0) st ->
  exists s, stream_run sz es (Stream [] ∅ true false 0) = Some s /\ pipe_inv None st.(wd) st.(calls) st.(lost) s /\ lacking st.(wd).
Proof.
  intros HW Hdl Hmi Hs Hq Q1 Q2 Hsz. pose proof (pipe_init_ok HW p a sz S m k Hs Hq Q1 Q2 Hsz) as H. destruct (k_pipe_init p a sz k) as [p0 k0]. destruct H as (Hi & HL & Hc). intros Hr.
  destruct (pipe_run_ok HW Hdl Hmi es _ st _ Hr Hi HL) as (s & H1 & H2 & H3 & _). simpl in H1, Hc. rewrite Hc in H1. eauto.
Qed.

(** ** A concrete run: thread 2 waits for two bytes, thread 1 writes three *)

Section insert.
Context {PC : PipeConfig} `{Cfg : Config} {RQ : RunQueue} {TB : TimeoutBackend}.

Lemma no_calls_ok x : calls_ok x ∅.
Proof. split; intros *; by rewrite lookup_empty. Qed.

(** A call that lies apart from the others. *)
Lemma calls_insert x cs c u : calls_ok x cs -> cs !! c = None ->
  0 <= progress x u <= (area_of x u).2 /\ (area_of x u).2 < 2 ^ 31 /\ apart (area_of x u).1 (area_of x u).2 x.(pipe).(buf).(buffer) x.(pipe).(buf).(size) ->
  (forall c' u', cs !! c' = Some u' -> apart (area_of x u).1 (area_of x u).2 (area_of x u').1 (area_of x u').2 /\ (forall a e a' e', u = Reads a e -> u' = Reads a' e' -> a <> a')) ->
  calls_ok x (<[c := u]> cs).
Proof.
  intros [C1 C2 C3] Hc Hu Ho. split.
  - intros i v Hv. destruct (decide (i = c)) as [->|Hne]; [rewrite lookup_insert_eq in Hv; by injection Hv as <-|rewrite lookup_insert_ne in Hv by done; by eapply C1].
  - intros i j v v' Hne Hv Hv' Hr. destruct (decide (i = c)) as [->|Hi]; [rewrite lookup_insert_eq in Hv|rewrite lookup_insert_ne in Hv by done]; (destruct (decide (j = c)) as [->|Hj]; [rewrite lookup_insert_eq in Hv'|rewrite lookup_insert_ne in Hv' by done]).
    + done.
    + injection Hv as <-. by apply (Ho j).
    + injection Hv' as <-. destruct (Ho i v Hv) as [H _]. unfold apart in *. lia.
    + by apply (C2 i j).
  - intros i j a a' e e' Hne Hv Hv'. destruct (decide (i = c)) as [->|Hi]; [rewrite lookup_insert_eq in Hv|rewrite lookup_insert_ne in Hv by done]; (destruct (decide (j = c)) as [->|Hj]; [rewrite lookup_insert_eq in Hv'|rewrite lookup_insert_ne in Hv' by done]).
    + done.
    + injection Hv as ->. destruct (Ho j _ Hv') as [_ H]. by eapply H.
    + injection Hv' as ->. destruct (Ho i _ Hv) as [_ H]. intros ->. by eapply H.
    + by apply (C3 i j _ _ e e').
Qed.
End insert.

#[local] Existing Instance example_config.
#[local] Existing Instance simple_RunQueue.
#[local] Existing Instance delta_list_backend.
#[local] Instance example_pipe_config : PipeConfig := { idx_width := 16; CONFIG_KERNEL_COHERENCE := false }.

Definition ex_pipe : k_pipe := K_pipe 0 (ring_buf_init 4 1000) 7%nat 8%nat PIPE_FLAG_OPEN.
Definition ex_both : kernel := k_wakeup 2%nat example_running.
Definition ex_spec : Z -> pipe_buf_spec := fun _ => Pipe_buf_spec 0 0 0.
Definition ex_mem : memory := fun y => y mod 256.
Definition ex_init := k_pipe_init ex_pipe 1000 4 ex_both.
Definition ex_x0 : world := World ex_init.1 ex_spec ex_mem ex_init.2.
Definition ex_r1 := k_pipe_read 500 100 2 K_FOREVER ex_x0.
Definition ex_r2 := k_pipe_write 200 3 K_NO_WAIT ex_r1.2.
Definition ex_r3 := k_pipe_read_resume 500 UINT64_MAX ex_r2.2.
Definition ex_cs1 : gmap caller call := <[Some 2%nat := Reads 500 UINT64_MAX]> ∅.

Lemma ex_both_ok : sys_ok ex_both.
Proof. apply wakeup_sys; [done|done|apply example_running_ok|vm_compute; discriminate]. Qed.

Lemma from_fst {A B} (r : A * B) a : r.1 = a -> r = (a, r.2).
Proof. destruct r. by intros <-. Qed.

Lemma ex_read_step : pipe_step [Starts (Some 2%nat) true; Gave (Some 2%nat) []; Suspends (Some 2%nat)] (Pstate ex_x0 ∅ 0) (Pstate ex_r1.2 ex_cs1 0).
Proof.
  assert (E : k_pipe_read 500 100 2 K_FOREVER ex_x0 = (Blocks, UINT64_MAX, ex_r1.2)) by (unfold ex_r1; apply from_fst; vm_compute; reflexivity).
  assert (Ht : in_thread ex_x0.(kern)) by (split; vm_compute; [reflexivity|discriminate]). assert (Hc : this_caller ex_x0.(kern) = Some 2%nat) by (vm_compute; reflexivity).
  assert (Hco : calls_ok (World ex_x0.(pipe) (upd 500 (Pipe_buf_spec 100 2 0) ex_x0.(specs)) ex_x0.(bytes_) ex_x0.(kern)) (<[Some 2%nat := Reads 500 0]> ∅)).
  { apply calls_insert; [apply no_calls_ok|done| |intros *; by rewrite lookup_empty]. vm_compute. split; [split; discriminate|split; [reflexivity|left; discriminate]]. }
  pose proof (pp_read ex_x0 ∅ 0 500 100 2 K_FOREVER Blocks UINT64_MAX ex_r1.2 (or_introl Ht)) as H. cbv zeta in H. rewrite Hc in H. specialize (H eq_refl ltac:(vm_compute; reflexivity) Hco E).
  match type of H with pipe_step ?l _ _ => assert (Ev : l = [Starts (Some 2%nat) true; Gave (Some 2%nat) []; Suspends (Some 2%nat)]) by (vm_compute; reflexivity) end.
  rewrite Ev in H. exact H.
Qed.

Definition ex_w0 : write_call := Write_call 200 3 0 0.
Definition ex_cs2 : gmap caller call := delete (Some 1%nat) ex_cs1.
Lemma ex_write_step : pipe_step [Starts (Some 1%nat) false; Passed (Some 1%nat) (Some 2%nat) [200; 201]; Wrote (Some 1%nat) [202]; Returned (Some 1%nat) 3 [200; 201; 202]]
  (Pstate ex_r1.2 ex_cs1 0) (Pstate ex_r2.2 ex_cs2 0).
Proof.
  assert (E : k_pipe_write 200 3 K_NO_WAIT ex_r1.2 = (Returns 3, ex_r2.1.2, ex_r2.2)) by (unfold ex_r2; apply from_fst; vm_compute; reflexivity).
  assert (Hc : this_caller ex_r1.2.(kern) = Some 1%nat) by (vm_compute; reflexivity).
  assert (Hco : calls_ok ex_r1.2 (<[Some 1%nat := Writes ex_w0]> ex_cs1)).
  { apply calls_insert; [apply calls_insert; [apply no_calls_ok|done| |intros *; by rewrite lookup_empty]|done| |].
    - vm_compute. split; [split; discriminate|split; [reflexivity|left; discriminate]].
    - vm_compute. split; [split; discriminate|split; [reflexivity|left; discriminate]].
    - intros c' u' Hu. unfold ex_cs1 in Hu. destruct (decide (c' = Some 2%nat)) as [->|Hne]; [rewrite lookup_insert_eq in Hu|rewrite lookup_insert_ne, lookup_empty in Hu by done; done].
      injection Hu as <-. split; [vm_compute; right; discriminate|discriminate]. }
  assert (Ew : Write_call 200 3 0 (sys_timepoint_calc ex_r1.2.(kern).(clk) K_NO_WAIT) = ex_w0) by (vm_compute; reflexivity).
  pose proof (pp_write ex_r1.2 ex_cs1 0 200 3 K_NO_WAIT (Returns 3) ex_r2.1.2 ex_r2.2 (or_intror eq_refl)) as H. cbv zeta in H. rewrite Hc, Ew in H. specialize (H eq_refl ltac:(vm_compute; reflexivity) Hco E).
  match type of H with pipe_step ?l _ _ => assert (Ev : l = [Starts (Some 1%nat) false; Passed (Some 1%nat) (Some 2%nat) [200; 201]; Wrote (Some 1%nat) [202]; Returned (Some 1%nat) 3 [200; 201; 202]]) by (vm_compute; reflexivity) end.
  rewrite Ev in H. exact H.
Qed.

Lemma ex_resume_step : pipe_step [Resumes (Some 2%nat); Gave (Some 2%nat) []; Returned (Some 2%nat) 2 [200; 201]]
  (Pstate ex_r2.2 ex_cs2 0) (Pstate ex_r3.2 (delete (Some 2%nat) ex_cs2) 0).
Proof.
  assert (E : k_pipe_read_resume 500 UINT64_MAX ex_r2.2 = (Returns 2, ex_r3.2)) by (unfold ex_r3; apply from_fst; vm_compute; reflexivity).
  assert (Ht : in_thread ex_r2.2.(kern)) by (split; vm_compute; [reflexivity|discriminate]). assert (Hc : this_caller ex_r2.2.(kern) = Some 2%nat) by (vm_compute; reflexivity).
  pose proof (pp_read_resume ex_r2.2 ex_cs2 0 500 UINT64_MAX (Returns 2) ex_r3.2 Ht) as H. cbv zeta in H. rewrite Hc in H. specialize (H eq_refl E).
  match type of H with pipe_step ?l _ _ => assert (Ev : l = [Resumes (Some 2%nat); Gave (Some 2%nat) []; Returned (Some 2%nat) 2 [200; 201]]) by (vm_compute; reflexivity) end.
  rewrite Ev in H. exact H.
Qed.

Definition ex_events : list pipe_event :=
  [Starts (Some 2%nat) true; Gave (Some 2%nat) []; Suspends (Some 2%nat);
   Starts (Some 1%nat) false; Passed (Some 1%nat) (Some 2%nat) [200; 201]; Wrote (Some 1%nat) [202]; Returned (Some 1%nat) 3 [200; 201; 202];
   Resumes (Some 2%nat); Gave (Some 2%nat) []; Returned (Some 2%nat) 2 [200; 201]].
Definition ex_end : pstate := Pstate ex_r3.2 (delete (Some 2%nat) ex_cs2) 0.

Lemma ex_run : pipe_run ex_events (Pstate ex_x0 ∅ 0) ex_end.
Proof.
  apply (pr_cons _ _ _ _ _ ex_read_step), (pr_cons _ _ _ _ _ ex_write_step), (pr_cons _ [] _ _ _ ex_resume_step). constructor.
Qed.

Lemma pipe_is_stream_witness : exists s, stream_run 4 ex_events (Stream [] ∅ true false 0) = Some s /\ pipe_inv None ex_end.(wd) ex_end.(calls) ex_end.(lost) s /\ lacking ex_end.(wd).
Proof.
  pose proof (pipe_is_stream ex_pipe 1000 4 ex_spec ex_mem ex_both ex_events ex_end (or_introl eq_refl) eq_refl ltac:(discriminate) ex_both_ok
    ltac:(discriminate) ltac:(vm_compute; reflexivity) ltac:(vm_compute; reflexivity) ltac:(vm_compute; split; discriminate)) as H.
  change (k_pipe_init ex_pipe 1000 4 ex_both) with ex_init in H. rewrite (surjective_pairing ex_init) in H. exact (H ex_run).
Defined.

(** ** Behaviours that differ from the documentation *)

(** A reader is aborted while it waits, and then the pipe is reset: nobody is left to
    end the reset, and every later call is refused. *)
Definition ex_stuck : world := k_pipe_reset (on_kern (k_thread_abort 2%nat) ex_r1.2).
Lemma ex_stuck_state : ex_stuck.(kern).(waitqs) 7%nat = [] /\ ex_stuck.(kern).(waitqs) 8%nat = [] /\ pipe_resetting ex_stuck.(pipe) = true.
Proof. split; [vm_compute; reflexivity|]. split; vm_compute; reflexivity. Qed.

Lemma resetting_refuses `{PipeConfig} `{Cfg : Config} {RQ : RunQueue} {TB : TimeoutBackend} x data L timeout a : pipe_resetting x.(pipe) = true ->
  (k_pipe_write data L timeout x).1.1 = Returns (- ECANCELED) /\ (k_pipe_write data L timeout x).2 = x /\
  (k_pipe_read a data L timeout x).1.1 = Returns (- ECANCELED) /\ (k_pipe_read a data L timeout x).2.(pipe) = x.(pipe).
Proof. intros E. unfold k_pipe_write, k_pipe_read. cbn [pipe]. rewrite E. done. Qed.

Lemma reset_never_ends data L timeout a :
  ex_stuck.(kern).(waitqs) 7%nat = [] /\ ex_stuck.(kern).(waitqs) 8%nat = [] /\
  (k_pipe_write data L timeout ex_stuck).1.1 = Returns (- ECANCELED) /\ (k_pipe_write data L timeout ex_stuck).2 = ex_stuck /\
  (k_pipe_read a data L timeout ex_stuck).1.1 = Returns (- ECANCELED) /\ (k_pipe_read a data L timeout ex_stuck).2.(pipe) = ex_stuck.(pipe).
Proof.
  destruct ex_stuck_state as (E1 & E2 & E3). split; [exact E1|]. split; [exact E2|]. exact (resetting_refuses ex_stuck data L timeout a E3).
Qed.

(** Thread 1 closes the pipe on which thread 2, of higher priority, waits: thread 2 is
    ready, but thread 1, which can be preempted, keeps the CPU. *)
Lemma close_does_not_switch : let k := (k_pipe_close ex_r1.2).(kern) in
  k.(current) = 1%nat /\ thread_is_preemptible (thr k 1%nat) = true /\ z_is_thread_ready (thr k 2%nat) = true /\
  (thr k 2%nat).(prio) < (thr k 1%nat).(prio) /\ (reschedule k).(current) = 2%nat.
Proof. vm_compute. split_and!; reflexivity. Qed.
